(* ===== verification/_CoqProject ===== *)
-Q . S2P
Prelude.v
GoMath.v
GoHeap.v
Bitutil.v
RlpTypes.v
RlpEncode.v
RlpRaw.v
RlpStream.v
RlpDecode.v
RlpCanon.v
TxSorted.v
TxSortedCorrect.v
TxList.v
TxListCorrect.v
BlockHeader.v
HeaderChain.v
HeaderChainCorrect.v
HeaderChainRewind.v
CliqueSnapshot.v
CliqueVotes.v
CliqueCorrect.v
CliqueEngine.v
CliqueTurns.v
CliqueReplay.v
TrieEncoding.v
TrieModel.v
TrieSpec.v
TrieUpdate.v
TrieCorrect.v
Params.v
EvmCode.v
EvmMemory.v
EvmState.v
EvmInstr.v
EvmGas.v
EvmAddress.v
EvmInterp.v
EvmContracts.v
EvmArith.v
EvmLogic.v
EvmGasBound.v
EvmTermination.v
EvmWorldRel.v
EvmRevert.v
EvmStatic.v
EvmTyped.v
EvmTypedOps.v
EvmTypedCalls.v
EvmContractsCorrect.v
EvmSafe.v
EvmTypeSafety.v
StateObject.v
StateDBModel.v
StateDBCorrect.v
StateDBSnapshot.v
StateDBOps.v
EvmStateDB.v
StateDBLedger.v
StateDBFinalise.v
Ethash.v
EthashCorrect.v
EvmSupply.v
StateTransition.v
ChainContext.v
Bloom.v
StateProcessor.v
StateTransitionCorrect.v
StateProcessorCorrect.v
TxPoolPlaces.v
TxPool.v
TxPoolInv.v
TxPoolOps.v
TxPoolLimits.v
TxPoolReset.v
TxPoolCorrect.v
TxPoolReorg.v
BlockChain.v
BlockChainCorrect.v
BlockChainImport.v
EvmExamples.v
