(* ===== verification/Prelude.v ===== *)
(** A verification development of the Ethereum client in src/ (go-ethereum).

    * What is modelled

    The core of the client that decides what a block means: the encoding of its
    data (RLP), the state it changes (accounts over a Merkle Patricia trie), the
    virtual machine that changes it, the rules of the two consensus engines, the
    chains of headers and of blocks, and the pool that holds transactions before
    they are in a block.  A header is checked by an engine and stored in the
    header chain, which follows the heaviest branch; the transactions of its block
    go one by one through the state transition, which buys gas and calls the
    virtual machine; the machine reads and writes the state database, whose
    journal undoes failed calls; the engine then pays the rewards, and receipts, a
    bloom filter of the logs and the root of the state are compared with the
    header.  The block chain does this for a chain of blocks, and moves its head,
    the canonical numbers and the index of transactions to the heaviest branch.
    Accounts, headers and trie nodes are stored in RLP.

    Go functions are Rocq functions on explicit state.  A result is a value, an
    error or a panic ([result] below; the frame monad of EvmState); integers are
    [Z] and wrap where the Go type does ([u8], [u64]); [*big.Int] is [Z], and an
    [option] of it where [nil] occurs; bytes are lists of [Z] between 0 and 255
    ([wf_bytes]); Go maps are [gmap]s, and where a loop goes over a map the order
    is an argument.  Code outside the repository (hash functions, elliptic
    curves, the database) is an argument, with what is relied on as laws of a
    class or as hypotheses.

    * Files

    - Prelude: results, integers, bytes, lists, tactics.  GoMath: common/math
      ([Exp], [PaddedBigBytes], [ReadBits], [SafeAdd], ...) and [big.Int].
      GoHeap: Go's container/heap, with its ordering class and its laws.
    - Bitutil: common/bitutil.
    - RlpTypes, RlpEncode, RlpRaw, RlpStream, RlpDecode, RlpCanon: rlp/, with the
      types that Go reflection walks over as the inductive type [typ].
    - TrieEncoding, TrieModel, TrieSpec, TrieUpdate, TrieCorrect:
      trie/encoding.go, trie/node.go and trie/trie.go; nodes are loaded through an
      argument.
    - Params: params/ (constants, gas tables, fork schedule).
    - EvmCode, EvmMemory, EvmState, EvmInstr, EvmGas, EvmAddress, EvmInterp,
      EvmContracts: core/vm (opcodes and jump analysis; memory; contracts, the
      interface of the database and the frame monad; instructions; gas; addresses;
      calls, creation, jump tables and the loop; precompiled contracts).
    - EvmArith, EvmLogic, EvmGasBound, EvmTermination, EvmWorldRel,
      EvmRevert, EvmStatic, EvmTyped, EvmTypedOps, EvmTypedCalls,
      EvmContractsCorrect, EvmSafe, EvmTypeSafety: the proofs about the machine,
      against the classes [SnapshotLaws] and [LedgerLaws] of the database.
    - StateObject, StateDBModel: core/state (state_object.go, statedb.go,
      journal.go).  StateDBCorrect, StateDBSnapshot, StateDBOps: undoing.
      StateDBLedger: balances as a ledger.  StateDBFinalise: the end of a
      transaction.  EvmStateDB, EvmSupply: the machine on this database, whose
      laws discharge the classes above.
    - StateTransition, StateTransitionCorrect: core/state_transition.go and
      core/gaspool.go.
    - ChainContext: core/evm.go.  Bloom: core/types/bloom9.go.  StateProcessor,
      StateProcessorCorrect: core/state_processor.go, receipts, and the checks of
      core/block_validator.go, with the end of a block as a class
      ([EndOfBlock]) that both engines are instances of.
    - BlockHeader: the header of core/types/block.go and its hash.
    - HeaderChain: core/headerchain.go over the accessors of core/rawdb.
      HeaderChainCorrect: its invariant, and writing headers.  HeaderChainRewind:
      ancestors and [SetHead].
    - CliqueSnapshot, CliqueVotes, CliqueCorrect, CliqueEngine, CliqueTurns,
      CliqueReplay: consensus/clique.
    - Ethash, EthashCorrect: the rules of consensus/ethash/consensus.go and
      consensus/misc.
    - TxSorted, TxSortedCorrect, TxList, TxListCorrect: core/tx_list.go.
    - TxPool: core/tx_pool.go, from [add] and [promoteExecutables] to [reset].
      TxPoolPlaces, TxPoolInv: where a transaction of the pool is, and the
      invariant of its books.  TxPoolOps, TxPoolLimits, TxPoolReset:
      removing and adding, promotion, limits, demotion.
      TxPoolCorrect: sequences of operations.  TxPoolReorg: the walk of [reset]
      down two branches of the chain, and [TxDifference] of
      core/types/transaction.go.
    - BlockChain: the import, writing and reorganisation of blocks of
      core/blockchain.go, with the iterator of core/blockchain_insert.go,
      [ValidateBody] of core/block_validator.go and the accessors of blocks and of
      the index of transactions of core/rawdb.  The interfaces it works with (the
      engine, the processor and the validator of states) are arguments.
      BlockChainCorrect: its invariant and the writing of a block.
      BlockChainImport: the import of chains, and where it goes wrong.
    - EvmExamples, and the ends of CliqueReplay, HeaderChainRewind and
      BlockChainImport: theorems applied to concrete code, blocks and chains.

    * What the theorems show

    - Messages, before Constantinople and with less than 2^44 gas: an applied
      message neither panics nor makes ether, uses at most its gas, and takes just
      the gas it used from the pool of the block.
    - Blocks of such messages after EIP-158: a processed block leaves a
      well-formed state, its receipts add up to gas within its limit, and ether
      grows by no more than the reward of the engine; the bloom filter of its
      receipts misses no log; the cached hashes of earlier blocks are those of its
      ancestors; the gas limit computed for the next block is one the engine
      accepts.
    - Header chain: whatever validated batches are inserted, the stored headers
      are a tree with the total difficulties of their ancestries, the canonical
      numbers are the ancestry of the current header, and that is a heaviest one;
      the shortcut to an ancestor agrees with the walk; a rewind deletes just the
      canonical headers above the new head.
    - Block chain: the import of a chain of blocks on a parent whose state is
      kept, at most 128 above the head unless the node is an archive, and without
      repeated transactions, ends without a panic whatever the engine, the
      processor and the validator answer, and the canonical numbers up to the head
      are its ancestry, the head is a heaviest block, and the index of
      transactions holds those of this ancestry and no others, also after
      reorganisations.
    - Virtual machine: runs end; before Constantinople and below 2^44 gas they do
      not panic on typed worlds and keep the types of stack, memory and gas;
      failed calls and creations leave no trace; static calls change nothing that
      can be read; calls and creations do not add to the supply; arithmetic is
      that of 256-bit words; the memory fee, the jump analysis and modular
      exponentiation compute what they should.
    - State database: undoing to a snapshot restores every value that can be
      read, through nested snapshots, and panics just on a dead snapshot.
    - Trie: lookup, insertion and deletion are those of a finite map, and the tree
      depends on the content only, not on the order of operations.
    - RLP: decoding inverts encoding on the values that an encoding records in
      full, accepts canonical input only for types without raw values, [nil] tags
      and byte arrays of length one, and the two-pass encoder agrees with the
      recursive definition.
    - Proof of authority: the voting state stays consistent, signers change by
      majority, take turns and are in turn one at a time, and the cached
      snapshots are those of a replay from genesis.
    - Proof of work: difficulty has bounds and is monotone in time, batches of
      accepted headers are chains, uncles are recent and rewards mint what the
      rules say; the DAO fork moves ether without making any.
    - Transaction lists: heap, map and cache of a list stay in step and refine a
      sorted list; filtering and discarding remove just what they should.
    - Transaction pool: no sequence of operations panics or loses track of a
      transaction, which is executable or queued at one place; the executable
      ones of an account have no gap unless blocks were abandoned; a reset gets
      back the transactions of abandoned blocks and no others, and enforces the
      limits.

    Theorems also pin down where the code does not do what it means to: the
    decoder that does not end on a slice of one-byte arrays, the overflow in the
    slices of modular exponentiation, the wrap-around in the check of a seal near
    genesis, the eviction of queued transactions before their time, the gap that a
    refused transaction of an abandoned block leaves in the pool, the panic of the
    header chain on a side branch whose root a rewind deleted, the gas limit of a
    very small block, the filter test that drops leading zeros, the panic of the
    block chain on a side chain of a single block or on a block far above the
    head, and the numbers of abandoned blocks that stay above a lower head.

    * Fuel

    Recursion that is not structural takes fuel, and the theorems prove how much
    is enough: for the interpreter one more than the gas of the run; for the trie
    a multiple of the length of the key; for RLP decoding the depth of the type
    and the length of the input; for the replay of a chain its length; for a walk
    down the chain the number of the block, also where the canonical numbers are
    overwritten, and for their deletion the number of entries.  Loops over heaps
    take the length of the heap, and the loops that cut the pool to its limits the
    number of transactions.  The fuel of an import bounds the imports of side
    chains inside it: one unit is enough on a parent whose state is kept, where
    there are none.

    * Not modelled

    - The refund rule of Constantinople is left out of the type-safety theorems
      (not of the model): [SubRefund] panics on a refund below its argument.
    - Commits to the database, the hashing and iteration of tries, and proofs:
      they are storage with reference counts and concurrency around the
      operations modelled here; the content of a trie stands for its root hash.
    - Signatures, hash functions and curves: C, assembly or packages that are not
      in the repository; they are arguments.  The hash of ethash is one too.
    - The callback of [SetHead] of the header chain, which deletes bodies.
    - Of core/blockchain.go the rewinding of full blocks and the repair at start,
      fast sync with its chains of receipts, export, events, logs and statistics.
      The collection of old states is an argument.  Imports on a pruned parent are
      modelled, but nothing is proved of how deep they nest.
    - The goroutines, channels, locks and timers of the block chain, the
      transaction pool, the miner, the downloader and the peer-to-peer network,
      and the sealing loops of both engines.  Of the pool also the file of its
      journal and the copies of its content that it hands out.
    - RPC, command-line programs, wallets, light clients, Swarm and Whisper,
      dashboards, logs, metrics and generated code: input/output or wrappers.
    - Running out of memory, and JSON forms of data. *)

From Stdlib Require Export ZArith Lia.
From stdpp Require Export base tactics list numbers option.
#[export] Set Default Goal Selector "!".
#[global] Open Scope Z_scope.

(** * Results of Go code

    A Go function that can fail returns a value, an error, or panics (an index
    out of range, an explicit [panic]).  [E] is the error type of the
    component. *)
Inductive result (E A : Type) : Type :=
| Ok (a : A)
| Err (e : E)
| Panic.
Arguments Ok {E A} a.
Arguments Err {E A} e.
Arguments Panic {E A}.

Definition rbind {E A B} (m : result E A) (f : A -> result E B) : result E B :=
  match m with
  | Ok a => f a
  | Err e => Err e
  | Panic => Panic
  end.

Definition rmap {E A B} (f : A -> B) (m : result E A) : result E B :=
  rbind m (fun a => Ok (f a)).

Declare Scope go_scope.
Delimit Scope go_scope with go.
Notation "'let!' x := m 'in' k" := (rbind m (fun x => k))
  (at level 10, x pattern, m at level 100, k at level 200) : go_scope.
Open Scope go_scope.

(** A Go index or lookup that panics when it is out of range. *)
Definition or_panic {E A} (o : option A) : result E A :=
  match o with Some a => Ok a | None => Panic end.

(** * Machine integers *)
Abbreviation bytes := (list Z).

Definition u8 (x : Z) : Z := x mod 2 ^ 8.
Definition u16 (x : Z) : Z := x mod 2 ^ 16.
Definition u64 (x : Z) : Z := x mod 2 ^ 64.

Definition is_byte (b : Z) : Prop := 0 <= b < 256.
Definition is_u64 (x : Z) : Prop := 0 <= x < 2 ^ 64.
Definition wf_bytes (l : bytes) : Prop := Forall is_byte l.

#[export] Instance is_byte_dec b : Decision (is_byte b).
Proof. unfold is_byte. apply _. Defined.
#[export] Instance is_u64_dec b : Decision (is_u64 b).
Proof. unfold is_u64. apply _. Defined.
#[export] Instance wf_bytes_dec l : Decision (wf_bytes l).
Proof. unfold wf_bytes. apply _. Defined.

(** [len] of a slice, as a Go [int]. *)
Definition zlen {A} (l : list A) : Z := Z.of_nat (length l).

(** The slice expression [b[i:j]], which panics unless [0 <= i <= j <= len(b)]. *)
Definition slice {A} (b : list A) (i j : Z) : option (list A) :=
  if (0 <=? i) && (i <=? j) && (j <=? zlen b)
  then Some (take (Z.to_nat (j - i)) (drop (Z.to_nat i) b)) else None.

(** The index expression [b[i]]. *)
Definition index {A} (b : list A) (i : Z) : option A :=
  if 0 <=? i then b !! Z.to_nat i else None.

(** Byte-slice equality, [bytes.Equal]. *)
Definition bytes_eqb (a b : bytes) : bool := bool_decide (a = b).

(** * Automation *)
Create HintDb go.
Create Rewrite HintDb go.

Ltac simp_bool :=
  repeat match goal with
  | H : _ && _ = true |- _ => apply andb_prop in H as [? ?]
  | H : _ || _ = false |- _ => apply orb_false_elim in H as [? ?]
  | H : negb _ = true |- _ => apply negb_true_iff in H
  | H : negb _ = false |- _ => apply negb_false_iff in H
  | H : (_ <? _) = true |- _ => apply Z.ltb_lt in H
  | H : (_ <? _) = false |- _ => apply Z.ltb_ge in H
  | H : (_ <=? _) = true |- _ => apply Z.leb_le in H
  | H : (_ <=? _) = false |- _ => apply Z.leb_gt in H
  | H : (_ =? _) = true |- _ => apply Z.eqb_eq in H
  | H : (_ =? _) = false |- _ => apply Z.eqb_neq in H
  end.

(** Case on the outermost test of the goal, keeping its arithmetic meaning. *)
Ltac case_if :=
  match goal with
  | |- context [if ?b then _ else _] =>
      lazymatch type of b with
      | bool => let E := fresh "E" in destruct b eqn:E
      | _ => destruct b
      end
  end; simp_bool.

Ltac case_if_in H :=
  match type of H with
  | context [if ?b then _ else _] =>
      lazymatch type of b with
      | bool => let E := fresh "E" in destruct b eqn:E
      | _ => destruct b
      end
  end; simp_bool.

(** Evaluate a closed decision, used to discharge hypotheses on witnesses. *)
Ltac by_compute := vm_compute; reflexivity.
Ltac by_decide := apply (bool_decide_unpack _); vm_compute; exact I.

(** * Lemmas on [result] *)
Lemma rbind_ok {E A B} (m : result E A) (f : A -> result E B) b :
  rbind m f = Ok b <-> exists a, m = Ok a /\ f a = Ok b.
Proof. destruct m; simpl; naive_solver. Qed.

Lemma or_panic_ok {E A} (o : option A) (a : A) : @or_panic E A o = Ok a <-> o = Some a.
Proof. destruct o; simpl; naive_solver. Qed.

(** * Lemmas on [zlen], [slice] and [index] *)
Lemma zlen_nonneg {A} (l : list A) : 0 <= zlen l.
Proof. unfold zlen. lia. Qed.
Lemma zlen_nil {A} : zlen (@nil A) = 0.
Proof. reflexivity. Qed.
Lemma zlen_cons {A} (x : A) l : zlen (x :: l) = 1 + zlen l.
Proof. unfold zlen. simpl length. lia. Qed.
Lemma zlen_app {A} (a b : list A) : zlen (a ++ b) = zlen a + zlen b.
Proof. unfold zlen. rewrite length_app. lia. Qed.
Lemma to_nat_zlen {A} (l : list A) : Z.to_nat (zlen l) = length l.
Proof. apply Nat2Z.id. Qed.
#[export] Hint Rewrite @zlen_nil @zlen_cons @zlen_app : go.
#[export] Hint Resolve zlen_nonneg : go.

Lemma slice_some {A} (b : list A) i j r :
  slice b i j = Some r <->
  0 <= i <= j /\ j <= zlen b /\ r = take (Z.to_nat (j - i)) (drop (Z.to_nat i) b).
Proof.
  unfold slice. case_if; [naive_solver lia|].
  apply andb_false_iff in E as [[?|?]%andb_false_iff|?]; simp_bool; naive_solver lia.
Qed.

Lemma slice_app_mid {A} (p m s : list A) :
  slice (p ++ m ++ s) (zlen p) (zlen p + zlen m) = Some m.
Proof.
  apply slice_some. rewrite !zlen_app. unfold zlen. repeat split; try lia.
  rewrite Nat2Z.id, drop_app_length.
  replace (Z.to_nat _) with (length m) by lia. by rewrite take_app_length.
Qed.

Lemma slice_to_end {A} (p s : list A) :
  slice (p ++ s) (zlen p) (zlen (p ++ s)) = Some s.
Proof.
  pose proof (slice_app_mid p s []) as H. rewrite app_nil_r in H.
  by rewrite zlen_app.
Qed.

Lemma zlen_slice {A} (b : list A) i j r : slice b i j = Some r -> zlen r = j - i.
Proof.
  intros (?&?&->)%slice_some. unfold zlen in *.
  rewrite length_take, length_drop. lia.
Qed.

(** * Bit operations as arithmetic *)
Lemma land_shiftl_small x y k : 0 <= y < 2 ^ k -> 0 <= k -> Z.land (Z.shiftl x k) y = 0.
Proof.
  intros Hy Hk. apply Z.bits_inj'; intros n Hn; rewrite Z.land_spec, Z.bits_0.
  destruct (decide (n < k)); [by rewrite Z.shiftl_spec_low by lia|].
  rewrite <-(Z.mod_small y (2 ^ k)), Z.mod_pow2_bits_high by lia. by rewrite andb_false_r.
Qed.

Lemma lor_concat x y k : 0 <= k -> 0 <= y < 2 ^ k -> Z.lor (Z.shiftl x k) y = x * 2 ^ k + y.
Proof.
  intros Hk Hy. pose proof (land_shiftl_small x y k Hy Hk) as Hland.
  by rewrite <-Z.shiftl_mul_pow2, Z.add_nocarry_lxor, Z.lxor_lor by done.
Qed.

(** * Bytes *)
Lemma wf_bytes_nil : wf_bytes [].
Proof. constructor. Qed.
Lemma wf_bytes_cons b l : wf_bytes (b :: l) <-> is_byte b /\ wf_bytes l.
Proof. apply Forall_cons_iff. Qed.
Lemma wf_bytes_app a b : wf_bytes (a ++ b) <-> wf_bytes a /\ wf_bytes b.
Proof. apply Forall_app. Qed.
Lemma wf_bytes_take n l : wf_bytes l -> wf_bytes (take n l).
Proof. apply Forall_take. Qed.
Lemma wf_bytes_drop n l : wf_bytes l -> wf_bytes (drop n l).
Proof. apply Forall_drop. Qed.
Lemma is_byte_mod x : is_byte (x mod 256).
Proof. unfold is_byte. apply Z.mod_pos_bound. lia. Qed.
Lemma u8_mod x : u8 x = x mod 256.
Proof. reflexivity. Qed.
Lemma is_byte_u8 x : is_byte (u8 x).
Proof. apply is_byte_mod. Qed.
Lemma u8_small x : is_byte x -> u8 x = x.
Proof. apply Z.mod_small. Qed.
Lemma u64_small x : is_u64 x -> u64 x = x.
Proof. apply Z.mod_small. Qed.
Lemma is_u64_u64 x : is_u64 (u64 x).
Proof. apply Z.mod_pos_bound. lia. Qed.
#[export] Hint Resolve wf_bytes_nil wf_bytes_take wf_bytes_drop is_byte_mod is_byte_u8 is_u64_u64 : go.

(** * Big-endian numbers *)

(** The number a big-endian byte string denotes ([big.Int.SetBytes],
    [binary.BigEndian.Uint64]). *)
Definition be_to_Z (l : bytes) : Z := fold_left (fun a b => a * 256 + b) l 0.

(** The low [n] bytes of [z], most significant first. *)
Fixpoint Z_to_be (n : nat) (z : Z) : bytes :=
  match n with
  | O => []
  | S n => Z_to_be n (z / 256) ++ [z mod 256]
  end.

(** Number of significant bytes of a non-negative [z]; 0 for 0. *)
Definition bytelen (z : Z) : nat :=
  if z <=? 0 then O else Z.to_nat (Z.log2 z / 8 + 1).

(** [big.Int.Bytes]: the absolute value, big-endian, without leading zeros. *)
Definition big_bytes (z : Z) : bytes := Z_to_be (bytelen (Z.abs z)) (Z.abs z).

(** [big.Int.BitLen]. *)
Definition bitlen (z : Z) : Z := if z =? 0 then 0 else Z.log2 (Z.abs z) + 1.

Lemma be_to_Z_acc l a :
  fold_left (fun a b => a * 256 + b) l a = a * 256 ^ zlen l + be_to_Z l.
Proof.
  unfold be_to_Z. revert a. induction l as [|b l IH]; intros a; simpl fold_left.
  - rewrite zlen_nil. lia.
  - rewrite IH, (IH (0 * 256 + b)), zlen_cons, Z.pow_add_r by (unfold zlen; lia). ring.
Qed.

Lemma be_to_Z_nil : be_to_Z [] = 0.
Proof. reflexivity. Qed.

Lemma be_to_Z_cons b l : be_to_Z (b :: l) = b * 256 ^ zlen l + be_to_Z l.
Proof. unfold be_to_Z at 1. simpl fold_left. rewrite be_to_Z_acc. ring. Qed.

Lemma be_to_Z_app a b : be_to_Z (a ++ b) = be_to_Z a * 256 ^ zlen b + be_to_Z b.
Proof. unfold be_to_Z at 1. rewrite fold_left_app. apply be_to_Z_acc. Qed.

Lemma be_to_Z_single b : be_to_Z [b] = b.
Proof. reflexivity. Qed.

Lemma be_to_Z_bound l : wf_bytes l -> 0 <= be_to_Z l < 256 ^ zlen l.
Proof.
  induction 1 as [|b l Hb Hl IH]; [unfold zlen; cbn; lia|].
  rewrite be_to_Z_cons, zlen_cons, Z.pow_add_r by (unfold zlen; lia).
  unfold is_byte in Hb. nia.
Qed.

Lemma length_Z_to_be n z : length (Z_to_be n z) = n.
Proof. revert z; induction n; intros; simpl; rewrite ?length_app, ?IHn; simpl; lia. Qed.

Lemma zlen_Z_to_be n z : zlen (Z_to_be n z) = Z.of_nat n.
Proof. unfold zlen. by rewrite length_Z_to_be. Qed.

Lemma wf_Z_to_be n z : wf_bytes (Z_to_be n z).
Proof.
  revert z; induction n; intros; simpl; [constructor|].
  apply wf_bytes_app; split; [done|]. repeat constructor; apply is_byte_mod.
Qed.
#[export] Hint Resolve wf_Z_to_be : go.

Lemma pow256_pos n : 0 <= n -> 0 < 256 ^ n.
Proof. intros. apply Z.pow_pos_nonneg; lia. Qed.

Lemma be_to_Z_of_Z n z : be_to_Z (Z_to_be n z) = z mod 256 ^ Z.of_nat n.
Proof.
  revert z; induction n as [|n IH]; intros z; [simpl; by rewrite be_to_Z_nil, Z.mod_1_r|].
  cbn [Z_to_be]. rewrite be_to_Z_app, IH, be_to_Z_single.
  change (zlen [z mod 256]) with 1. rewrite Z.pow_1_r.
  replace (Z.of_nat (S n)) with (1 + Z.of_nat n) by lia.
  rewrite Z.pow_add_r, Z.pow_1_r by lia.
  pose proof (pow256_pos (Z.of_nat n) ltac:(lia)).
  rewrite Z.rem_mul_r by lia. ring.
Qed.

Lemma Z_to_be_app n m z :
  Z_to_be (n + m) z = Z_to_be n (z / 256 ^ Z.of_nat m) ++ Z_to_be m z.
Proof.
  revert z; induction m as [|m IH]; intros z.
  - rewrite Nat.add_0_r, Z.div_1_r. simpl. by rewrite app_nil_r.
  - rewrite Nat.add_succ_r. cbn [Z_to_be]. rewrite IH, app_assoc.
    do 3 f_equal. rewrite Z.div_div by (try apply pow256_pos; lia).
    f_equal. replace (Z.of_nat (S m)) with (1 + Z.of_nat m) by lia.
    rewrite Z.pow_add_r by lia. done.
Qed.

Lemma Z_to_be_to_Z l : wf_bytes l -> Z_to_be (length l) (be_to_Z l) = l.
Proof.
  induction l as [|b l IH] using rev_ind; [done|].
  intros [Hl Hb]%wf_bytes_app. apply wf_bytes_cons in Hb as [Hb _].
  rewrite length_app, Nat.add_comm. simpl length. cbn [Nat.add Z_to_be].
  rewrite be_to_Z_app, be_to_Z_single. change (zlen [b]) with 1. rewrite Z.pow_1_r.
  unfold is_byte in Hb.
  rewrite Z.div_add_l, Z.div_small, Z.add_0_r by lia.
  rewrite Z.add_comm, Z.mod_add, Z.mod_small by lia. by rewrite IH.
Qed.

Lemma Z_to_be_S n z : Z_to_be (S n) z = (z / 256 ^ Z.of_nat n) mod 256 :: Z_to_be n z.
Proof. apply (Z_to_be_app 1 n). Qed.

Lemma be_to_Z_inj a b :
  wf_bytes a -> wf_bytes b -> length a = length b -> be_to_Z a = be_to_Z b -> a = b.
Proof.
  intros Ha Hb Hl He. rewrite <-(Z_to_be_to_Z a Ha), <-(Z_to_be_to_Z b Hb), Hl. by f_equal.
Qed.

Lemma bytelen_pos z : 0 < z -> bytelen z = Z.to_nat (Z.log2 z / 8 + 1).
Proof. intros. unfold bytelen. case_if; [lia|done]. Qed.

Lemma pow256_2 n : 0 <= n -> 256 ^ n = 2 ^ (8 * n).
Proof. intros. change 256 with (2 ^ 8). by rewrite <-Z.pow_mul_r by lia. Qed.

(** [bytelen z] is the one length with [256^(n-1) <= z < 256^n]. *)
Lemma bytelen_spec z :
  0 < z -> 256 ^ (Z.of_nat (bytelen z) - 1) <= z < 256 ^ Z.of_nat (bytelen z).
Proof.
  intros Hz. rewrite bytelen_pos by done.
  pose proof (Z.log2_nonneg z). pose proof (Z.log2_spec z Hz) as [Hlo Hhi].
  assert (0 <= Z.log2 z / 8) by (apply Z.div_pos; lia).
  rewrite Z2Nat.id by lia. rewrite !pow256_2 by lia.
  pose proof (Z.div_mod (Z.log2 z) 8 ltac:(lia)). pose proof (Z.mod_pos_bound (Z.log2 z) 8).
  split.
  - etransitivity; [|exact Hlo]. apply Z.pow_le_mono_r; lia.
  - eapply Z.lt_le_trans; [exact Hhi|]. apply Z.pow_le_mono_r; lia.
Qed.

Lemma bytelen_unique z n :
  0 < n -> 256 ^ (n - 1) <= z < 256 ^ n -> Z.of_nat (bytelen z) = n.
Proof.
  intros Hn [Hlo Hhi]. pose proof (pow256_pos (n - 1) ltac:(lia)).
  pose proof (bytelen_spec z ltac:(lia)) as [Hlo' Hhi'].
  assert (n - 1 < Z.of_nat (bytelen z)) by (apply (Z.pow_lt_mono_r_iff 256); lia).
  assert (Z.of_nat (bytelen z) - 1 < n) by (apply (Z.pow_lt_mono_r_iff 256); lia).
  lia.
Qed.

Lemma bytelen_0 : bytelen 0 = O.
Proof. reflexivity. Qed.

Lemma bytelen_upper z n : 0 <= z < 256 ^ n -> 0 <= n -> Z.of_nat (bytelen z) <= n.
Proof.
  intros [Hz Hn] ?. destruct (decide (z = 0)) as [->|]; [rewrite bytelen_0; lia|].
  pose proof (bytelen_spec z ltac:(lia)) as [Hlo _].
  assert (Z.of_nat (bytelen z) - 1 < n) by (apply (Z.pow_lt_mono_r_iff 256); lia). lia.
Qed.

Lemma be_to_Z_big_bytes z : 0 <= z -> be_to_Z (big_bytes z) = z.
Proof.
  intros Hz. unfold big_bytes. rewrite Z.abs_eq, be_to_Z_of_Z by done.
  destruct (decide (z = 0)) as [->|]; [done|].
  pose proof (bytelen_spec z ltac:(lia)). apply Z.mod_small. lia.
Qed.

Lemma wf_big_bytes z : wf_bytes (big_bytes z).
Proof. apply wf_Z_to_be. Qed.
#[export] Hint Resolve wf_big_bytes : go.

(** A byte string without a leading zero is the [Bytes] of its number. *)
Lemma big_bytes_be_to_Z b l :
  wf_bytes (b :: l) -> b <> 0 -> big_bytes (be_to_Z (b :: l)) = b :: l.
Proof.
  intros Hwf Hb. pose proof (be_to_Z_bound _ Hwf) as Hbd. rewrite zlen_cons in Hbd.
  pose proof Hwf as [Hb' Hl]%wf_bytes_cons. unfold is_byte in Hb'.
  unfold big_bytes. rewrite Z.abs_eq by lia.
  rewrite <-(Z_to_be_to_Z (b :: l)) at 3 by done. f_equal.
  apply Nat2Z.inj. change (Z.of_nat (length (b :: l))) with (zlen (b :: l)). rewrite zlen_cons.
  pose proof (zlen_nonneg l).
  apply bytelen_unique; [lia|]. split; [|lia].
  rewrite be_to_Z_cons. pose proof (be_to_Z_bound _ Hl).
  replace (1 + zlen l - 1) with (zlen l) by lia. nia.
Qed.

(** The first byte of a positive number's [Bytes] is not zero. *)
Lemma big_bytes_head z :
  0 < z -> exists b l, big_bytes z = b :: l /\ b <> 0.
Proof.
  intros Hz. unfold big_bytes. rewrite Z.abs_eq by lia.
  pose proof (bytelen_spec z Hz) as [Hlo Hhi].
  destruct (bytelen z) as [|n]; [simpl in Hhi; lia|].
  rewrite Z_to_be_S. do 2 eexists; split; [done|].
  replace (Z.of_nat (S n) - 1) with (Z.of_nat n) in Hlo by lia.
  pose proof (pow256_pos (Z.of_nat n) ltac:(lia)).
  replace (Z.of_nat (S n)) with (1 + Z.of_nat n) in Hhi by lia.
  rewrite Z.pow_add_r in Hhi by lia.
  assert (1 <= z / 256 ^ Z.of_nat n < 256).
  { split; [apply Z.div_le_lower_bound|apply Z.div_lt_upper_bound]; lia. }
  rewrite Z.mod_small; lia.
Qed.
