(* ===== verification/GoMath.v ===== *)
(** common/math: 256-bit arithmetic on [big.Int] (big.go) and checked [uint64]
    arithmetic (integer.go), with the parts of [big.Int] they are written in. *)

From Stdlib Require Import Zpow_facts.
From S2P Require Import Prelude.

(** * big.Int *)

(** [Bits]: the absolute value as little-endian 64-bit words, without leading
    zero words. *)
Fixpoint le_words (n : nat) (x : Z) : list Z :=
  match n with
  | O => []
  | S n => x mod 2 ^ 64 :: le_words n (x / 2 ^ 64)
  end.

Definition nwords (x : Z) : nat := Z.to_nat ((bitlen x + 63) / 64).
Definition Bits (x : Z) : list Z := le_words (nwords x) (Z.abs x).

(** [Uint64] and [Int64] keep the low 64 bits. *)
Definition Uint64 (x : Z) : Z := Z.abs x mod 2 ^ 64.
Definition Int64 (x : Z) : Z :=
  let u := u64 (if x <? 0 then - Uint64 x else Uint64 x) in
  if u <? 2 ^ 63 then u else u - 2 ^ 64.

(** * big.go *)
Definition wordBits : nat := 64.
Definition wordBytes : nat := 8.

Definition tt255 : Z := 2 ^ 255.
Definition tt256 : Z := 2 ^ 256.
Definition tt256m1 : Z := tt256 - 1.

Definition BigMax (x y : Z) : Z := if x <? y then y else x.
Definition BigMin (x y : Z) : Z := if y <? x then y else x.

Fixpoint FirstBitSet_loop (fuel : nat) (v i : Z) : Z :=
  match fuel with
  | O => bitlen v
  | S fuel => if Z.testbit v i then i else FirstBitSet_loop fuel v (i + 1)
  end.

Definition FirstBitSet (v : Z) : Z := FirstBitSet_loop (Z.to_nat (bitlen v)) v 0.

(** [ReadBits]: the bytes of each word, from the end of the buffer on. *)
Fixpoint ReadBits_word (j : nat) (d : Z) (i : nat) (buf : bytes) : nat * bytes :=
  match j, i with
  | S j, S i => ReadBits_word j (Z.shiftr d 8) i (<[i := u8 d]> buf)
  | _, _ => (i, buf)
  end.

Fixpoint ReadBits_loop (words : list Z) (i : nat) (buf : bytes) : bytes :=
  match words with
  | [] => buf
  | d :: words => let '(i, buf) := ReadBits_word wordBytes d i buf in ReadBits_loop words i buf
  end.

Definition ReadBits (bigint : Z) (buf : bytes) : bytes :=
  ReadBits_loop (Bits bigint) (length buf) buf.

Definition PaddedBigBytes (bigint : Z) (n : nat) : bytes :=
  if Z.of_nat n <=? bitlen bigint / 8 then big_bytes bigint
  else ReadBits bigint (replicate n 0).

Definition bigEndianByteAt (bigint : Z) (n : nat) : Z :=
  let words := Bits bigint in
  let i := (n / wordBytes)%nat in
  match words !! i with
  | None => 0
  | Some word => u8 (Z.shiftr word (8 * Z.of_nat (n mod wordBytes)))
  end.

Definition Byte (bigint : Z) (padlength n : nat) : Z :=
  if (padlength <=? n)%nat then 0 else bigEndianByteAt bigint (padlength - 1 - n).

Definition U256 (x : Z) : Z := Z.land x tt256m1.

Definition S256 (x : Z) : Z := if x <? tt255 then x else x - tt256.

(** [Exp]: the result, and what is left in the variable [base]. *)
Fixpoint Exp_bits (n : nat) (word result base : Z) : Z * Z :=
  match n with
  | O => (result, base)
  | S n =>
      let result := if Z.land word 1 =? 1 then U256 (result * base) else result in
      Exp_bits n (Z.shiftr word 1) result (U256 (base * base))
  end.

Fixpoint Exp_words (words : list Z) (result base : Z) : Z * Z :=
  match words with
  | [] => (result, base)
  | word :: words =>
      let '(result, base) := Exp_bits wordBits word result base in
      Exp_words words result base
  end.

Definition Exp (base exponent : Z) : Z * Z := Exp_words (Bits exponent) 1 base.

(** * integer.go *)
Definition MaxUint64 : Z := 2 ^ 64 - 1.

Definition SafeSub (x y : Z) : Z * bool := (u64 (x - y), x <? y).
Definition SafeAdd (x y : Z) : Z * bool := (u64 (x + y), MaxUint64 - x <? y).
Definition SafeMul (x y : Z) : Z * bool :=
  if (x =? 0) || (y =? 0) then (0, false) else (u64 (x * y), MaxUint64 / x <? y).

(** * 256-bit words *)
Definition is_word (x : Z) : Prop := 0 <= x < 2 ^ 256.

#[export] Instance is_word_dec x : Decision (is_word x).
Proof. unfold is_word. apply _. Defined.

Lemma U256_mod x : U256 x = x mod 2 ^ 256.
Proof. unfold U256. by apply (Z.land_ones x 256). Qed.

Lemma is_word_U256 x : is_word (U256 x).
Proof. rewrite U256_mod. apply Z.mod_pos_bound. lia. Qed.

Lemma U256_small x : is_word x -> U256 x = x.
Proof. intros. rewrite U256_mod. by apply Z.mod_small. Qed.

Lemma Uint64_small x : is_u64 x -> Uint64 x = x.
Proof. unfold is_u64, Uint64. intros. rewrite Z.abs_eq by lia. by apply Z.mod_small. Qed.

Lemma is_u64_Uint64 x : is_u64 (Uint64 x).
Proof. apply Z.mod_pos_bound. lia. Qed.

Lemma Int64_small x : 0 <= x < 2 ^ 63 -> Int64 x = x.
Proof.
  intros. unfold Int64. destruct (Z.ltb_spec x 0); [lia|].
  rewrite Uint64_small, u64_small by (unfold is_u64; lia). case_if; lia.
Qed.

#[export] Hint Resolve is_word_U256 is_u64_Uint64 : go.

(** * Words of a big integer *)
Lemma le_words_lookup n x i :
  (i < n)%nat -> le_words n x !! i = Some ((x / 2 ^ (64 * Z.of_nat i)) mod 2 ^ 64).
Proof.
  revert x i. induction n as [|n IH]; intros x i Hi; [lia|]. destruct i as [|i]; cbn [le_words lookup list_lookup].
  - rewrite Z.mul_0_r, Z.div_1_r. done.
  - rewrite IH by lia. rewrite Z.div_div by lia. do 3 f_equal.
    rewrite <-Z.pow_add_r by lia. f_equal. lia.
Qed.

Lemma length_le_words n x : length (le_words n x) = n.
Proof. revert x. induction n; intros; simpl; auto. Qed.

Lemma bitlen_bound x : 0 <= x -> x < 2 ^ bitlen x.
Proof.
  intros Hx. unfold bitlen. case_if; [lia|]. rewrite Z.abs_eq by lia.
  apply (Z.log2_spec x). lia.
Qed.

Lemma bitlen_nonneg x : 0 <= bitlen x.
Proof. unfold bitlen. case_if; [lia|]. pose proof (Z.log2_nonneg (Z.abs x)). lia. Qed.

Lemma nwords_bound x : 0 <= x -> x < 2 ^ (64 * Z.of_nat (nwords x)).
Proof.
  intros Hx. pose proof (bitlen_nonneg x). eapply Z.lt_le_trans; [by apply bitlen_bound|].
  apply Z.pow_le_mono_r; [lia|]. unfold nwords.
  assert (0 <= (bitlen x + 63) / 64) by (apply Z.div_pos; lia).
  rewrite Z2Nat.id by lia. pose proof (Z.div_mod (bitlen x + 63) 64 ltac:(lia)).
  pose proof (Z.mod_pos_bound (bitlen x + 63) 64). lia.
Qed.

(** * Exponentiation *)
Lemma mod_mul_l a b m : m <> 0 -> (a mod m * b) mod m = (a * b) mod m.
Proof. intros. by rewrite Z.mul_mod_idemp_l. Qed.

Lemma mod_pow a n m : 0 < m -> ((a mod m) ^ n) mod m = a ^ n mod m.
Proof. intros. symmetry. by apply Zpower_mod. Qed.

Lemma Exp_bits_spec n word result base :
  0 <= word ->
  let '(r, b) := Exp_bits n word result base in
  r mod tt256 = (result * base ^ (word mod 2 ^ Z.of_nat n)) mod tt256 /\
  b mod tt256 = base ^ (2 ^ Z.of_nat n) mod tt256 /\
  (is_word result -> is_word r).
Proof.
  assert (tt256 <> 0) as Ht by done.
  revert word result base. induction n as [|n IH]; intros word result base Hw; cbn [Exp_bits].
  { rewrite Z.mod_1_r, Z.pow_0_r, Z.mul_1_r, Z.pow_1_r. done. }
  set (result1 := if _ =? 1 then _ else _).
  specialize (IH (Z.shiftr word 1) result1 (U256 (base * base))).
  destruct (Exp_bits n _ result1 _) as [r b].
  destruct IH as (Hr & Hb & Hwd); [by apply Z.shiftr_nonneg|].
  rewrite Z.shiftr_div_pow2 in Hr by lia. change (2 ^ 1) with 2 in Hr.
  assert (forall k, 0 <= k -> (U256 (base * base)) ^ k mod tt256 = base ^ (2 * k) mod tt256) as Hsq.
  { intros k Hk. rewrite U256_mod. change (2 ^ 256) with tt256. rewrite mod_pow by done.
    rewrite Z.pow_mul_r by lia. by rewrite Z.pow_2_r. }
  replace (Z.of_nat (S n)) with (1 + Z.of_nat n) by lia. rewrite Z.pow_add_r by lia. change (2 ^ 1) with 2.
  pose proof (Z.pow_pos_nonneg 2 (Z.of_nat n) ltac:(lia) ltac:(lia)).
  split_and!.
  - rewrite Hr, <-Z.mul_mod_idemp_r by done. rewrite Hsq by (apply Z.mod_pos_bound; lia).
    rewrite Z.mul_mod_idemp_r by done. rewrite Z.rem_mul_r by lia.
    set (q := 2 * _). assert (0 <= q) by (unfold q; pose proof (Z.mod_pos_bound (word / 2) (2 ^ Z.of_nat n)); lia).
    subst result1. assert (Z.land word 1 = word mod 2) as -> by (by apply (Z.land_ones word 1)).
    pose proof (Z.mod_pos_bound word 2 ltac:(lia)). case_if.
    + replace (word mod 2) with 1 by lia. rewrite U256_mod. change (2 ^ 256) with tt256.
      rewrite mod_mul_l by done. rewrite Z.pow_add_r, Z.pow_1_r by lia. f_equal. ring.
    + replace (word mod 2) with 0 by lia. by rewrite Z.add_0_l.
  - rewrite Hb, Hsq by lia. done.
  - intros Hres. apply Hwd. subst result1. case_if; [apply is_word_U256|done].
Qed.

Lemma Exp_words_spec n x result base :
  0 <= x < 2 ^ (64 * Z.of_nat n) ->
  let '(r, b) := Exp_words (le_words n x) result base in
  r mod tt256 = (result * base ^ x) mod tt256 /\ (is_word result -> is_word r).
Proof.
  assert (0 < tt256) as Ht by done. assert (tt256 <> 0) as Ht0 by done.
  revert x result base. induction n as [|n IH]; intros x result base Hx; cbn [le_words Exp_words].
  { assert (x = 0) as -> by (simpl in Hx; lia). by rewrite Z.pow_0_r, Z.mul_1_r. }
  replace (64 * Z.of_nat (S n)) with (64 + 64 * Z.of_nat n) in Hx by lia.
  rewrite Z.pow_add_r in Hx by lia.
  pose proof (fun w => Exp_bits_spec wordBits w result base) as Hbits.
  change (Z.of_nat wordBits) with 64 in Hbits.
  assert (0 < 2 ^ 64) as HW by done. generalize dependent (2 ^ 64). intros W Hx Hbits HW.
  pose proof (Z.mod_pos_bound x W HW) as Hm. specialize (Hbits (x mod W) (proj1 Hm)).
  destruct (Exp_bits wordBits (x mod W) result base) as [r1 b1].
  destruct Hbits as (Hr1 & Hb1 & Hw1). rewrite Z.mod_mod in Hr1 by lia.
  assert (0 <= x / W < 2 ^ (64 * Z.of_nat n)) as Hd.
  { split; [apply Z.div_pos; lia|apply Z.div_lt_upper_bound; lia]. }
  specialize (IH (x / W) r1 b1 Hd). destruct (Exp_words _ r1 b1) as [r b].
  destruct IH as (Hr & Hw). split; [|by intros ?; apply Hw, Hw1].
  rewrite Hr, <-Z.mul_mod_idemp_l, Hr1 by exact Ht0. rewrite Z.mul_mod_idemp_l by exact Ht0.
  rewrite <-Z.mul_mod_idemp_r by exact Ht0. rewrite <-(mod_pow b1) by exact Ht.
  rewrite Hb1, mod_pow by exact Ht. rewrite Z.mul_mod_idemp_r by exact Ht0.
  rewrite <-Z.pow_mul_r by lia. rewrite <-Z.mul_assoc, <-Z.pow_add_r by lia.
  rewrite (Z.add_comm (x mod W)), <-Z.div_mod by lia. reflexivity.
Qed.

Lemma Exp_ok base exponent : 0 <= exponent -> (Exp base exponent).1 = base ^ exponent mod 2 ^ 256.
Proof.
  intros He. unfold Exp, Bits. rewrite Z.abs_eq by done.
  pose proof (Exp_words_spec (nwords exponent) exponent 1 base) as H.
  destruct (Exp_words _ 1 base) as [r b]. destruct H as (Hr & Hw); [by split; [|apply nwords_bound]|].
  rewrite Z.mul_1_l in Hr. cbn [fst]. rewrite <-(Z.mod_small r tt256); [done|].
  apply Hw. unfold is_word. lia.
Qed.

(** * Bytes *)
Lemma byte_of_word x i :
  0 <= x -> (i / wordBytes < nwords x)%nat ->
  bigEndianByteAt x i = (x / 256 ^ Z.of_nat i) mod 256.
Proof.
  intros Hx Hi. unfold bigEndianByteAt, Bits. rewrite Z.abs_eq, le_words_lookup by done.
  pose proof (Nat.div_mod_eq i wordBytes) as Hdm.
  pose proof (Nat.mod_upper_bound i wordBytes ltac:(done)) as Hmod. unfold wordBytes in *.
  set (q := (i / 8)%nat) in *. set (r := (i mod 8)%nat) in *.
  rewrite Z.shiftr_div_pow2 by lia. unfold u8. change (2 ^ 8) with 256.
  assert (256 ^ Z.of_nat i = 2 ^ (64 * Z.of_nat q) * 2 ^ (8 * Z.of_nat r)) as ->.
  { rewrite pow256_2, <-Z.pow_add_r by lia. f_equal. lia. }
  rewrite <-Z.div_div by lia. set (y := x / 2 ^ (64 * Z.of_nat q)).
  replace 64 with (8 * Z.of_nat r + (64 - 8 * Z.of_nat r)) at 1 by lia.
  rewrite Z.pow_add_r, Z.rem_mul_r by lia.
  rewrite (Z.mul_comm (2 ^ (8 * Z.of_nat r)) (_ mod _)), Z.div_add by lia.
  rewrite (Z.div_small (y mod _)) by (apply Z.mod_pos_bound; lia). rewrite Z.add_0_l.
  replace (64 - 8 * Z.of_nat r) with (8 + (56 - 8 * Z.of_nat r)) by lia.
  rewrite Z.pow_add_r, Z.rem_mul_r by lia. change (2 ^ 8) with 256.
  by rewrite (Z.mul_comm 256), Z.mod_add, Z.mod_mod by lia.
Qed.

Lemma bigEndianByteAt_ok x i : 0 <= x -> bigEndianByteAt x i = (x / 256 ^ Z.of_nat i) mod 256.
Proof.
  intros Hx. destruct (decide (i / wordBytes < nwords x)%nat) as [Hlt|Hge]; [by apply byte_of_word|].
  unfold bigEndianByteAt, Bits. rewrite Z.abs_eq, lookup_ge_None_2 by (rewrite ?length_le_words; lia).
  rewrite Z.div_small; [done|]. split; [done|]. eapply Z.lt_le_trans; [by apply nwords_bound|].
  rewrite pow256_2 by lia. apply Z.pow_le_mono_r; [lia|].
  pose proof (Nat.div_mod_eq i wordBytes). unfold wordBytes in *. lia.
Qed.

Lemma Z_to_be_lookup n x i :
  (i < n)%nat -> Z_to_be n x !! i = Some ((x / 256 ^ Z.of_nat (n - 1 - i)) mod 256).
Proof.
  revert i. induction n as [|n IH]; intros i Hi; [lia|]. rewrite Z_to_be_S. destruct i as [|i].
  - by replace (S n - 1 - 0)%nat with n by lia.
  - cbn [lookup list_lookup]. rewrite IH by lia. do 4 f_equal. lia.
Qed.

Lemma Byte_ok x i : 0 <= x -> Byte x 32 i = nth i (Z_to_be 32 x) 0.
Proof.
  intros Hx. unfold Byte. destruct (Nat.leb_spec 32 i).
  - rewrite nth_overflow by (rewrite length_Z_to_be; lia). done.
  - rewrite bigEndianByteAt_ok by done. symmetry. apply nth_lookup_Some.
    by rewrite Z_to_be_lookup.
Qed.

(** [ReadBits] has written the lowest [k] bytes. *)
Lemma ReadBits_word_spec j x k n :
  0 <= x -> (k + j <= n)%nat ->
  ReadBits_word j (x / 256 ^ Z.of_nat k) (n - k) (replicate (n - k) 0 ++ Z_to_be k x) =
    ((n - (k + j))%nat, replicate (n - (k + j)) 0 ++ Z_to_be (k + j) x).
Proof.
  intros Hx. revert k. induction j as [|j IH]; intros k Hk.
  { rewrite Nat.add_0_r. by destruct (n - k)%nat. }
  destruct (n - k)%nat as [|m] eqn:Em; [lia|]. cbn [ReadBits_word].
  replace (k + S j)%nat with (S k + j)%nat by lia. rewrite <-IH by lia.
  replace (n - S k)%nat with m by lia. f_equal.
  - rewrite Z.shiftr_div_pow2, Z.div_div by (try apply Z.pow_nonzero; lia). f_equal.
    replace (Z.of_nat (S k)) with (Z.of_nat k + 1) by lia. by rewrite Z.pow_add_r by lia.
  - rewrite Z_to_be_S, replicate_S_end, <-app_assoc. cbn [app].
    rewrite insert_app_r_alt by (rewrite length_replicate; lia).
    by rewrite length_replicate, Nat.sub_diag.
Qed.

Lemma ReadBits_word_short j i (buf : bytes) d :
  (i <= j)%nat -> ReadBits_word j d i buf = ReadBits_word i d i buf.
Proof.
  revert i buf d. induction j as [|j IH]; intros [|i] buf d Hi; try done; [lia|].
  cbn [ReadBits_word]. apply IH. lia.
Qed.

Lemma ReadBits_word_mod j e d i buf :
  8 * Z.of_nat j <= e -> ReadBits_word j (d mod 2 ^ e) i buf = ReadBits_word j d i buf.
Proof.
  revert e d i buf. induction j as [|j IH]; intros e d [|i] buf He; try done. cbn [ReadBits_word].
  assert (2 ^ e = 2 ^ 8 * 2 ^ (e - 8)) as Hp by (rewrite <-Z.pow_add_r by lia; f_equal; lia).
  assert (0 < 2 ^ (e - 8)) by (apply Z.pow_pos_nonneg; lia).
  transitivity (ReadBits_word j (Z.shiftr d 8 mod 2 ^ (e - 8)) i (<[i:=u8 d]> buf)); [|apply IH; lia].
  f_equal.
  - rewrite !Z.shiftr_div_pow2, Hp, Z.rem_mul_r by lia.
    rewrite (Z.mul_comm (2 ^ 8)), Z.div_add by lia.
    rewrite (Z.div_small (d mod 2 ^ 8)) by (apply Z.mod_pos_bound; lia). by rewrite Z.add_0_l.
  - f_equal. unfold u8. rewrite Hp, Z.rem_mul_r by lia.
    by rewrite (Z.mul_comm (2 ^ 8)), Z.mod_add, Z.mod_mod by lia.
Qed.

Lemma ReadBits_loop_0 words buf : ReadBits_loop words 0 buf = buf.
Proof. induction words as [|d words IH]; [done|]. simpl. exact IH. Qed.

Lemma Z_to_be_0 n : Z_to_be n 0 = replicate n 0.
Proof. induction n as [|n IH]; [done|]. rewrite Z_to_be_S, IH, Z.div_0_l by (apply Z.pow_nonzero; lia). done. Qed.

Lemma Z_to_be_pad n k x :
  (k <= n)%nat -> 0 <= x < 256 ^ Z.of_nat k -> replicate (n - k) 0 ++ Z_to_be k x = Z_to_be n x.
Proof.
  intros Hk Hx. replace n with ((n - k) + k)%nat at 2 by lia. rewrite Z_to_be_app.
  by rewrite Z.div_small, Z_to_be_0 by lia.
Qed.

Lemma ReadBits_loop_spec m x k n :
  0 <= x < 256 ^ Z.of_nat (k + 8 * m) -> (k <= n)%nat ->
  ReadBits_loop (le_words m (x / 256 ^ Z.of_nat k)) (n - k) (replicate (n - k) 0 ++ Z_to_be k x) =
    Z_to_be n x.
Proof.
  revert k. induction m as [|m IH]; intros k Hx Hk; cbn [le_words ReadBits_loop].
  { apply Z_to_be_pad; [done|]. by rewrite Nat.mul_0_r, Nat.add_0_r in Hx. }
  rewrite ReadBits_word_mod by (unfold wordBytes; lia).
  destruct (decide (k + 8 <= n)%nat) as [Hle|Hgt].
  - rewrite (ReadBits_word_spec wordBytes) by (unfold wordBytes; lia). unfold wordBytes.
    rewrite Z.div_div by (try apply Z.pow_nonzero; lia).
    assert (256 ^ Z.of_nat k * 2 ^ 64 = 256 ^ Z.of_nat (k + 8)) as ->.
    { change (2 ^ 64) with (256 ^ 8). rewrite <-Z.pow_add_r by lia. f_equal. lia. }
    apply IH; [|lia]. by replace (k + 8 + 8 * m)%nat with (k + 8 * S m)%nat by lia.
  - rewrite ReadBits_word_short by (unfold wordBytes; lia).
    rewrite (ReadBits_word_spec (n - k)) by lia.
    replace (k + (n - k))%nat with n by lia. rewrite Nat.sub_diag. apply ReadBits_loop_0.
Qed.

Lemma ReadBits_ok x n : 0 <= x -> ReadBits x (replicate n 0) = Z_to_be n x.
Proof.
  intros Hx. unfold ReadBits, Bits. rewrite Z.abs_eq, length_replicate by done.
  pose proof (ReadBits_loop_spec (nwords x) x 0 n) as H. rewrite Z.div_1_r, Nat.sub_0_r in H.
  cbn [Z_to_be] in H. rewrite app_nil_r in H. apply H; [|lia]. split; [done|].
  eapply Z.lt_le_trans; [by apply nwords_bound|]. rewrite pow256_2 by lia.
  apply Z.pow_le_mono_r; lia.
Qed.

Lemma PaddedBigBytes_ok x n : 0 <= x < 256 ^ Z.of_nat n -> PaddedBigBytes x n = Z_to_be n x.
Proof.
  intros Hx. unfold PaddedBigBytes. case_if; [|apply ReadBits_ok; lia].
  destruct (decide (x = 0)) as [->|Hx0]; [destruct n; [done|]; change (bitlen 0 / 8) with 0 in *; lia|].
  unfold big_bytes. rewrite Z.abs_eq by lia. f_equal. apply Nat2Z.inj.
  unfold bitlen in E. case_if_in E; [lia|]. rewrite Z.abs_eq in E by lia.
  pose proof (Z.log2_nonneg x). pose proof (Z.log2_spec x ltac:(lia)) as [Hlo _].
  pose proof (Z.div_mod (Z.log2 x + 1) 8 ltac:(lia)). pose proof (Z.mod_pos_bound (Z.log2 x + 1) 8).
  assert (0 < Z.of_nat n).
  { destruct n; [simpl in Hx; lia|lia]. }
  apply bytelen_unique; [done|]. split; [|lia].
  etransitivity; [|exact Hlo]. rewrite pow256_2 by lia. apply Z.pow_le_mono_r; lia.
Qed.

(** * Results *)

(** [Exp] computes the power modulo 2^256 for every non-negative exponent. *)
Theorem Exp_correct base exponent :
  0 <= exponent -> (Exp base exponent).1 = base ^ exponent mod 2 ^ 256.
Proof. apply Exp_ok. Qed.

Lemma Exp_correct_witness : (Exp 3 (2 ^ 64 + 5)).1 = 3 ^ (2 ^ 64 + 5) mod 2 ^ 256.
Proof. apply Exp_correct. lia. Defined.

(** [Exp] does change its argument [base], which its comment denies. *)
Theorem Exp_changes_base : exists base exponent, (Exp base exponent).2 <> base.
Proof. exists 3, 2. by vm_compute. Qed.

(** [PaddedBigBytes] is the big-endian encoding with [n] bytes of every number
    that fits, and [Byte] indexes it. *)
Theorem PaddedBigBytes_correct x n i :
  0 <= x < 256 ^ Z.of_nat n ->
  PaddedBigBytes x n = Z_to_be n x /\ be_to_Z (PaddedBigBytes x n) = x /\
  Byte x 32 i = nth i (Z_to_be 32 x) 0.
Proof.
  intros Hx. rewrite PaddedBigBytes_ok, be_to_Z_of_Z, Z.mod_small by done.
  split_and!; [done..|]. apply Byte_ok; lia.
Qed.

Lemma PaddedBigBytes_correct_witness :
  PaddedBigBytes 258 4 = [0; 0; 1; 2] /\ Byte 258 32 30 = 1.
Proof.
  destruct (PaddedBigBytes_correct 258 4 30) as (H1 & _ & H2); [split; [lia|by_compute]|].
  rewrite H1, H2. split; by_compute.
Defined.

Lemma SafeAdd_ok x y :
  is_u64 x -> is_u64 y ->
  (SafeAdd x y).2 = bool_decide (2 ^ 64 <= x + y) /\ ((SafeAdd x y).2 = false -> (SafeAdd x y).1 = x + y).
Proof.
  unfold is_u64, SafeAdd, MaxUint64. intros Hx Hy. cbn [fst snd]. split.
  - case_bool_decide; [apply Z.ltb_lt|apply Z.ltb_ge]; lia.
  - intros H. apply Z.ltb_ge in H. apply u64_small. unfold is_u64. lia.
Qed.

Lemma SafeMul_ok x y :
  is_u64 x -> is_u64 y ->
  (SafeMul x y).2 = bool_decide (2 ^ 64 <= x * y) /\ ((SafeMul x y).2 = false -> (SafeMul x y).1 = x * y).
Proof.
  unfold is_u64, SafeMul, MaxUint64. intros Hx Hy. destruct (_ || _) eqn:E.
  { cbn [fst snd]. apply orb_true_iff in E as [->%Z.eqb_eq| ->%Z.eqb_eq];
      rewrite ?Z.mul_0_l, ?Z.mul_0_r; by rewrite bool_decide_false by lia. }
  cbn [fst snd]. apply orb_false_iff in E as [Hx0%Z.eqb_neq Hy0%Z.eqb_neq].
  assert ((2 ^ 64 - 1) / x < y <-> 2 ^ 64 <= x * y) as Hiff.
  { pose proof (Z.div_mod (2 ^ 64 - 1) x Hx0). pose proof (Z.mod_pos_bound (2 ^ 64 - 1) x ltac:(lia)).
    set (q := (2 ^ 64 - 1) / x) in *. split; intros; nia. }
  split.
  - case_bool_decide; [apply Z.ltb_lt|apply Z.ltb_ge]; lia.
  - intros H. apply Z.ltb_ge in H. apply u64_small. unfold is_u64. nia.
Qed.

(** [SafeAdd], [SafeSub] and [SafeMul] return the exact result, or report that
    it does not fit a [uint64]. *)
Theorem safe_arithmetic_correct x y :
  is_u64 x -> is_u64 y ->
  ((SafeAdd x y).2 = bool_decide (2 ^ 64 <= x + y) /\ ((SafeAdd x y).2 = false -> (SafeAdd x y).1 = x + y)) /\
  ((SafeSub x y).2 = bool_decide (x - y < 0) /\ ((SafeSub x y).2 = false -> (SafeSub x y).1 = x - y)) /\
  ((SafeMul x y).2 = bool_decide (2 ^ 64 <= x * y) /\ ((SafeMul x y).2 = false -> (SafeMul x y).1 = x * y)).
Proof.
  intros Hx Hy. split; [by apply SafeAdd_ok|split; [|by apply SafeMul_ok]].
  unfold is_u64, SafeSub in *. cbn [fst snd]. split.
  - case_bool_decide; [apply Z.ltb_lt|apply Z.ltb_ge]; lia.
  - intros H. apply Z.ltb_ge in H. apply u64_small. unfold is_u64. lia.
Qed.

Lemma safe_arithmetic_correct_witness :
  (SafeMul (2 ^ 40) (2 ^ 40)).2 = true /\ (SafeAdd 7 8).1 = 15 /\ (SafeSub 3 4).2 = true.
Proof.
  destruct (safe_arithmetic_correct (2 ^ 40) (2 ^ 40)) as (_ & _ & H1 & _); [by_decide..|].
  destruct (safe_arithmetic_correct 7 8) as ((_ & H2) & _); [by_decide..|].
  destruct (safe_arithmetic_correct 3 4) as (_ & (H3 & _) & _); [by_decide..|].
  split_and!; [rewrite H1; by_compute|apply H2; by_compute|rewrite H3; by_compute].
Defined.
