(* ===== verification/GoHeap.v ===== *)
(** The binary heap of Go's container/heap on a slice, which the transaction
    lists and the priority queue of the program use: [Init], [Push], [Pop] and
    [Remove] keep the order of the heap and permute its elements. *)
From S2P Require Import Prelude.

(** [Less] of a [heap.Interface]: what is not less the other way round is a
    total preorder. *)
Class LessOrder {A} (less : A -> A -> bool) : Prop := {
  less_asym x y : less x y = true -> less y x = false;
  less_trans x y z : less y x = false -> less z y = false -> less z x = false
}.

Section Heap.
Context {A : Type} `{!Inhabited A} (less : A -> A -> bool).

(** [h[i], h[j] = h[j], h[i]] *)
Definition Swap (i j : nat) (h : list A) : list A := <[i := h !!! j]> (<[j := h !!! i]> h).

(** [up]; an index [j] rises at most [j] times. *)
Fixpoint up (fuel : nat) (h : list A) (j : nat) : list A :=
  match fuel with
  | O => h
  | S fuel =>
      let i := ((j - 1) / 2)%nat in
      if (i =? j)%nat || negb (less (h !!! j) (h !!! i)) then h else up fuel (Swap i j h) i
  end.

(** [down] in the first [n] elements; an index sinks at most [n] times. *)
Fixpoint down (fuel : nat) (h : list A) (i n : nat) : list A * nat :=
  match fuel with
  | O => (h, i)
  | S fuel =>
      let j1 := (2 * i + 1)%nat in
      if (n <=? j1)%nat then (h, i)
      else
        let j := if (j1 + 1 <? n)%nat && less (h !!! (j1 + 1)%nat) (h !!! j1) then (j1 + 1)%nat else j1 in
        if negb (less (h !!! j) (h !!! i)) then (h, i) else down fuel (Swap i j h) j n
  end.

(** [Init]: the loop from the last parent down to the root. *)
Fixpoint init_loop (k : nat) (h : list A) : list A :=
  match k with
  | O => h
  | S k => init_loop k (down (length h) h k (length h)).1
  end.
Definition heap_Init (h : list A) : list A := init_loop (length h / 2) h.

Definition heap_Push (x : A) (h : list A) : list A := up (S (length h)) (h ++ [x]) (length h).

(** [Pop] panics on an empty heap. *)
Definition heap_Pop (h : list A) : option (A * list A) :=
  match h with
  | [] => None
  | _ =>
      let n := (length h - 1)%nat in
      let h := (down n (Swap 0 n h) 0 n).1 in
      Some (h !!! n, take n h)
  end.

Definition heap_Remove (i : nat) (h : list A) : option (A * list A) :=
  if (length h <=? i)%nat then None
  else
    let n := (length h - 1)%nat in
    let h :=
      if negb (n =? i)%nat then
        let '(h', i') := down n (Swap i n h) i n in
        if (i <? i')%nat then h' else up (S i) h' i
      else h in
    Some (h !!! n, take n h).

(** * Heaps *)
Definition le (x y : A) : Prop := less y x = false.
Definition parent (c : nat) : nat := ((c - 1) / 2)%nat.

(** The first [n] elements are a heap from [lo] on. *)
Definition heap_from (lo n : nat) (h : list A) : Prop :=
  forall c, (0 < c < n)%nat -> (lo <= parent c)%nat -> le (h !!! parent c) (h !!! c).
Definition heap (h : list A) : Prop := heap_from 0 (length h) h.

Lemma length_Swap i j h : length (Swap i j h) = length h.
Proof. unfold Swap. by rewrite !length_insert. Qed.

Lemma lookup_Swap i j h k :
  (i < length h)%nat -> (j < length h)%nat ->
  Swap i j h !!! k = if decide (k = i) then h !!! j else if decide (k = j) then h !!! i else h !!! k.
Proof.
  intros Hi Hj. unfold Swap. case_decide as Ei; [subst k; by rewrite list_lookup_total_insert_eq by (by rewrite length_insert)|].
  rewrite list_lookup_total_insert_ne by done. case_decide as Ej; [subst k; by rewrite list_lookup_total_insert_eq|].
  by rewrite list_lookup_total_insert_ne.
Qed.

Lemma Swap_perm i j h : (i < length h)%nat -> (j < length h)%nat -> Swap i j h ≡ₚ h.
Proof.
  intros Hi Hj. unfold Swap. destruct (decide (i = j)) as [->|Hne].
  { rewrite list_insert_insert_eq, list_insert_id; [done|]. by apply list_lookup_lookup_total_lt. }
  apply (Permutation_inj (<[i:=_]> (<[j:=_]> h))). split; [by rewrite !length_insert|].
  set (f := fun k => if decide (k = i) then j else if decide (k = j) then i else k).
  assert (Hff : forall k, f (f k) = k) by (intros k; unfold f; repeat case_decide; congruence).
  exists f. split; [intros x y E; by rewrite <-(Hff x), E, Hff|]. intros k. unfold f.
  repeat case_decide; subst.
  - rewrite list_lookup_insert_eq by (by rewrite length_insert). symmetry. by apply list_lookup_lookup_total_lt.
  - rewrite list_lookup_insert_ne, list_lookup_insert_eq by done. symmetry. by apply list_lookup_lookup_total_lt.
  - by rewrite !list_lookup_insert_ne.
Qed.

Lemma parent_lt c : (0 < c)%nat -> (parent c < c)%nat.
Proof. intros. unfold parent. apply Nat.Div0.div_lt_upper_bound. lia. Qed.

Lemma parent_iff c p : (0 < c)%nat -> parent c = p <-> c = (2 * p + 1)%nat \/ c = (2 * p + 2)%nat.
Proof.
  intros Hc. unfold parent. pose proof (Nat.div_mod_eq (c - 1) 2). pose proof (Nat.mod_upper_bound (c - 1) 2). lia.
Qed.

Context `{!LessOrder less}.

Lemma le_trans x y z : le x y -> le y z -> le x z.
Proof. apply less_trans. Qed.

Lemma le_of_less x y : less x y = true -> le x y.
Proof. apply less_asym. Qed.

(** * [up] *)

(** A heap but for [j], whose children are above its parent. *)
Record up_ready (n : nat) (h : list A) (j : nat) : Prop := {
  up_others c : (0 < c < n)%nat -> c <> j -> le (h !!! parent c) (h !!! c);
  up_children c : (0 < c < n)%nat -> (0 < j)%nat -> parent c = j -> le (h !!! parent j) (h !!! c)
}.

Lemma up_ready_swap n h j :
  (n <= length h)%nat -> (0 < j < n)%nat -> less (h !!! j) (h !!! parent j) = true -> up_ready n h j ->
  up_ready n (Swap (parent j) j h) (parent j).
Proof.
  intros Hn Hj Hless [Ho Hc]. pose proof (parent_lt j ltac:(lia)) as Hp. pose proof (le_of_less _ _ Hless) as Hle.
  split; intros c Hcn; pose proof (parent_lt c ltac:(lia)).
  - intros Hne. rewrite !lookup_Swap by lia. destruct (decide (c = j)) as [->|Hcj].
    { by repeat case_decide; try lia. }
    rewrite (decide_False (P := c = parent j)) by done. destruct (decide (parent c = parent j)) as [E|].
    { eapply le_trans; [done|]. rewrite <-E. by apply Ho. }
    destruct (decide (parent c = j)); [by apply Hc; [|lia|]|by apply Ho].
  - intros Hpos E. pose proof (parent_lt (parent j) Hpos). rewrite !lookup_Swap by lia.
    destruct (decide (parent (parent j) = parent j)); [lia|]. destruct (decide (parent (parent j) = j)); [lia|].
    destruct (decide (c = parent j)); [lia|]. pose proof (Ho (parent j) ltac:(lia) ltac:(lia)).
    destruct (decide (c = j)); [done|]. eapply le_trans; [done|]. rewrite <-E. by apply Ho.
Qed.

Lemma up_ok fuel n h j :
  (j < fuel)%nat -> (j < n <= length h)%nat -> up_ready n h j ->
  heap_from 0 n (up fuel h j) /\ up fuel h j ≡ₚ h /\ forall k, (n <= k)%nat -> up fuel h j !!! k = h !!! k.
Proof.
  revert h j. induction fuel as [|fuel IH]; intros h j Hf Hj Hr; [lia|]. cbn [up]. fold (parent j).
  destruct (parent j =? j)%nat eqn:E0; cbn [orb].
  { apply Nat.eqb_eq in E0. assert (j = 0)%nat as -> by (destruct j; [done|]; pose proof (parent_lt (S j)); lia).
    split; [|done]. intros c Hc _. apply (up_others _ _ _ Hr); [done|lia]. }
  apply Nat.eqb_neq in E0. assert (Hpos : (0 < j)%nat) by (destruct j; [done|lia]). pose proof (parent_lt j Hpos).
  destruct (less _ _) eqn:Hless; cbn [negb].
  - destruct (IH (Swap (parent j) j h) (parent j)) as (Hh & Hp & Hk); [lia|rewrite length_Swap; lia|apply up_ready_swap; try done; lia|].
    split; [done|]. split; [rewrite Hp; apply Swap_perm; lia|].
    intros k Hk'. rewrite Hk, lookup_Swap by lia. by rewrite !decide_False by lia.
  - split; [|done]. intros c Hc _. destruct (decide (c = j)) as [->|]; [done|]. by apply (up_others _ _ _ Hr).
Qed.

(** * [down] *)

(** A heap from [lo] on but for [i], whose children are above its parent. *)
Record down_ready (lo n : nat) (h : list A) (i : nat) : Prop := {
  down_others c : (0 < c < n)%nat -> (lo <= parent c)%nat -> parent c <> i -> le (h !!! parent c) (h !!! c);
  down_children c : (0 < c < n)%nat -> (0 < i)%nat -> (lo <= parent i)%nat -> parent c = i -> le (h !!! parent i) (h !!! c)
}.

(** The child [down] compares with is the smaller one. *)
Definition min_child (h : list A) (i n : nat) : nat :=
  let j1 := (2 * i + 1)%nat in
  if (j1 + 1 <? n)%nat && less (h !!! (j1 + 1)%nat) (h !!! j1) then (j1 + 1)%nat else j1.

Lemma min_child_ok h i n :
  (2 * i + 1 < n)%nat ->
  (0 < min_child h i n < n)%nat /\ parent (min_child h i n) = i /\
  forall c, (0 < c < n)%nat -> parent c = i -> le (h !!! min_child h i n) (h !!! c).
Proof.
  intros Hn. unfold min_child. assert (Hp : forall c, (0 < c)%nat -> c = (2 * i + 1)%nat \/ c = (2 * i + 1 + 1)%nat -> parent c = i).
  { intros c Hc Hor. apply parent_iff; [done|lia]. }
  assert (Hrefl : forall x, le x x) by (intros x; unfold le; destruct (less x x) eqn:E; [by rewrite (less_asym _ _ E) in E|done]).
  destruct ((_ <? n)%nat && _) eqn:E.
  - apply andb_prop in E as [E1 E2]. apply Nat.ltb_lt in E1. split; [lia|]. split; [apply Hp; lia|].
    intros c Hc [-> | ->]%parent_iff; [|by replace (2 * i + 2)%nat with (2 * i + 1 + 1)%nat by lia|lia]. by apply le_of_less.
  - split; [lia|]. split; [apply Hp; lia|]. intros c Hc [-> | ->]%parent_iff; [done| |lia].
    replace (2 * i + 2)%nat with (2 * i + 1 + 1)%nat in * by lia. apply andb_false_iff in E as [E|E]; [|done].
    apply Nat.ltb_ge in E. lia.
Qed.

Lemma down_ready_swap lo n h i j :
  (n <= length h)%nat -> (lo <= i)%nat -> (0 < j < n)%nat -> parent j = i ->
  (forall c, (0 < c < n)%nat -> parent c = i -> le (h !!! j) (h !!! c)) -> less (h !!! j) (h !!! i) = true ->
  down_ready lo n h i -> down_ready lo n (Swap i j h) j.
Proof.
  intros Hn Hlo Hj Hpj Hmin Hless [Ho Hc]. pose proof (parent_lt j ltac:(lia)). pose proof (le_of_less _ _ Hless).
  split; intros c Hcn; pose proof (parent_lt c ltac:(lia)).
  - intros Hloc Hne. rewrite !lookup_Swap by lia. destruct (decide (parent c = i)) as [E|E].
    { destruct (decide (c = i)); [lia|]. destruct (decide (c = j)); [done|]. by apply Hmin. }
    rewrite (decide_False (P := parent c = j)) by done. destruct (decide (c = i)) as [->|].
    { apply Hc; [done|lia|done|done]. }
    destruct (decide (c = j)) as [->|]; [done|]. by apply Ho.
  - intros _ _ E. rewrite !lookup_Swap, Hpj by lia. rewrite decide_True by done.
    destruct (decide (c = i)); [lia|]. destruct (decide (c = j)); [lia|]. rewrite <-E. apply Ho; lia.
Qed.

Lemma down_ok fuel lo n h i h' i' :
  (n <= fuel + i)%nat -> (n <= length h)%nat -> (lo <= i)%nat -> down_ready lo n h i -> down fuel h i n = (h', i') ->
  heap_from lo n h' /\ h' ≡ₚ h /\ (forall k, (n <= k)%nat -> h' !!! k = h !!! k) /\ (i <= i')%nat /\ (i' = i -> h' = h).
Proof.
  revert h i. induction fuel as [|fuel IH]; intros h i Hf Hn Hlo Hr E; cbn [down] in E.
  { injection E as <- <-. split_and!; try done. intros c Hc Hloc. apply (down_others _ _ _ _ Hr); [done..|].
    pose proof (parent_lt c). lia. }
  destruct (n <=? 2 * i + 1)%nat eqn:E1; [apply Nat.leb_le in E1|apply Nat.leb_gt in E1].
  { injection E as <- <-. split_and!; try done. intros c Hc Hloc. apply (down_others _ _ _ _ Hr); [done..|].
    intros [-> | ->]%parent_iff; lia. }
  fold (min_child h i n) in E. destruct (min_child_ok h i n E1) as (Hj & Hp & Hmin). set (j := min_child h i n) in *.
  destruct (less (h !!! j) (h !!! i)) eqn:Hless; cbn [negb] in E.
  - pose proof (parent_lt j ltac:(lia)).
    apply IH in E as (Hh & Hperm & Hkeep & Hi & _); [|lia|rewrite length_Swap; lia|lia|by apply down_ready_swap].
    split; [done|]. split; [rewrite Hperm; apply Swap_perm; lia|]. split; [|split; lia].
    intros k Hk. rewrite Hkeep, lookup_Swap by lia. rewrite !decide_False by lia. done.
  - injection E as <- <-. split_and!; try done. intros c Hc Hloc.
    destruct (decide (parent c = i)) as [Ec|]; [|by apply (down_others _ _ _ _ Hr)].
    rewrite Ec. eapply le_trans; [|by apply Hmin]. done.
Qed.

(** * The operations *)
Lemma lookup_total_take (h : list A) n k : (k < n)%nat -> take n h !!! k = h !!! k.
Proof. intros. rewrite !list_lookup_total_alt, lookup_take_lt by done. done. Qed.

Lemma heap_take n h : (n <= length h)%nat -> heap_from 0 n h -> heap (take n h).
Proof.
  intros Hn Hh c Hc Hlo. rewrite length_take in Hc. pose proof (parent_lt c ltac:(lia)).
  rewrite !lookup_total_take by lia. apply Hh; [lia|done].
Qed.

Lemma take_last_perm n (h : list A) : length h = S n -> h ≡ₚ (h !!! n) :: take n h.
Proof.
  intros Hl. rewrite <-(take_drop n h) at 1. rewrite (drop_S h (h !!! n)) by (apply list_lookup_lookup_total_lt; lia).
  rewrite drop_ge by lia. by rewrite Permutation_app_comm.
Qed.

(** The root is the least element. *)
Lemma heap_root n h k : heap_from 0 n h -> (k < n)%nat -> le (h !!! 0%nat) (h !!! k).
Proof.
  intros Hh. induction k as [k IH] using lt_wf_ind. intros Hk. destruct k as [|k].
  - unfold le. destruct (less (h !!! 0%nat) (h !!! 0%nat)) eqn:E; [by rewrite (less_asym _ _ E) in E|done].
  - pose proof (parent_lt (S k) ltac:(lia)). eapply le_trans; [apply (IH (parent (S k))); lia|]. apply Hh; lia.
Qed.

Lemma heap_root_elem h x : heap h -> x ∈ h -> le (h !!! 0%nat) x.
Proof.
  intros Hh [k Hk]%list_elem_of_lookup. rewrite <-(list_lookup_total_correct _ _ _ Hk).
  eapply heap_root; [exact Hh|]. by eapply lookup_lt_Some.
Qed.

Lemma init_loop_ok k h : heap_from k (length h) h -> heap (init_loop k h) /\ init_loop k h ≡ₚ h.
Proof.
  revert h. induction k as [|k IH]; intros h Hh; [done|]. cbn [init_loop].
  destruct (down _ _ _ _) as [h' i'] eqn:E. apply (down_ok _ k) in E as (Hh' & Hp & _); [|lia|lia|lia|].
  - cbn [fst]. destruct (IH h') as [H1 H2]; [by rewrite (Permutation_length Hp)|]. split; [done|]. by rewrite H2.
  - split; [intros c Hc Hlo Hne; apply Hh; [done|lia]|]. intros c _ Hk Hlo. pose proof (parent_lt k Hk). lia.
Qed.

Lemma heap_Init_ok h : heap (heap_Init h) /\ heap_Init h ≡ₚ h.
Proof.
  apply init_loop_ok. intros c Hc Hlo. exfalso. pose proof (Nat.div_mod_eq (length h) 2).
  pose proof (Nat.mod_upper_bound (length h) 2). pose proof (proj1 (parent_iff c (parent c) ltac:(lia)) eq_refl). lia.
Qed.

Lemma heap_Push_ok x h : heap h -> heap (heap_Push x h) /\ heap_Push x h ≡ₚ x :: h.
Proof.
  intros Hh. unfold heap_Push. assert (Hl : length (h ++ [x]) = S (length h)) by (rewrite length_app; cbn; lia).
  destruct (up_ok (S (length h)) (S (length h)) (h ++ [x]) (length h)) as (H1 & H2 & _); [lia|lia| |].
  - split; intros c Hc; pose proof (parent_lt c ltac:(lia)); [|lia].
    intros Hne. rewrite !lookup_total_app_l by lia. apply Hh; lia.
  - split; [unfold heap; by rewrite (Permutation_length H2), Hl|]. rewrite H2. by rewrite Permutation_app_comm.
Qed.

Lemma heap_Pop_ok h :
  heap h -> h <> [] ->
  exists x h', heap_Pop h = Some (x, h') /\ heap h' /\ h ≡ₚ x :: h' /\ x = h !!! 0%nat /\ forall y, y ∈ h -> le x y.
Proof.
  intros Hh Hne. unfold heap_Pop. destruct h as [|a l] eqn:El; [done|]. rewrite <-El in *. clear Hne.
  assert (Hlen : (0 < length h)%nat) by (subst h; cbn; lia). clear El a l. set (n := (length h - 1)%nat) in *.
  destruct (down n (Swap 0 n h) 0 n) as [g i] eqn:E. cbn [fst].
  apply (down_ok _ 0) in E as (Hg & Hp & Hk & _); [|lia|rewrite length_Swap; lia|lia|].
  - assert (Hlg : length g = S n) by (rewrite (Permutation_length Hp), length_Swap; lia).
    assert (Ex : g !!! n = h !!! 0%nat).
    { rewrite Hk, lookup_Swap by lia. case_decide as E0; [by rewrite E0|]. by rewrite decide_True. }
    eexists _, _. split; [done|]. split; [apply heap_take; [lia|done]|].
    split; [rewrite <-(take_last_perm n g) by done; rewrite Hp; symmetry; apply Swap_perm; lia|].
    split; [done|]. intros y Hy. rewrite Ex. by apply heap_root_elem.
  - split; [|lia]. intros c Hc _ Hne. pose proof (parent_lt c ltac:(lia)). rewrite !lookup_Swap by lia.
    rewrite !decide_False by lia. apply Hh; lia.
Qed.

(** The last element, put at [i], sinks or rises to its place. *)
Lemma remove_sinks h i n :
  heap h -> length h = S n -> (i < n)%nat -> (0 < i -> le (h !!! parent i) (h !!! n))%nat -> down_ready 0 n (Swap i n h) i.
Proof.
  intros Hh Hl Hi Hp. split; intros c Hc; pose proof (parent_lt c ltac:(lia)).
  - intros _ Hne. rewrite !lookup_Swap by lia. rewrite (decide_False (P := parent c = i)), (decide_False (P := parent c = n)) by lia.
    destruct (decide (c = i)) as [->|]; [apply Hp; lia|]. rewrite decide_False by lia. apply Hh; lia.
  - intros Hpos _ E. pose proof (parent_lt i Hpos). rewrite !lookup_Swap by lia. rewrite !decide_False by lia.
    eapply le_trans; [apply Hh; lia|]. rewrite <-E. apply Hh; lia.
Qed.

Lemma remove_rises h i n :
  heap h -> length h = S n -> (0 < i < n)%nat -> less (h !!! n) (h !!! parent i) = true ->
  up_ready n (Swap i n h) i /\ down n (Swap i n h) i n = (Swap i n h, i).
Proof.
  intros Hh Hl Hi Hless. pose proof (parent_lt i ltac:(lia)). pose proof (le_of_less _ _ Hless) as Hle.
  assert (Hch : forall c, (0 < c < n)%nat -> parent c = i -> le (h !!! parent i) (h !!! c)).
  { intros c Hc E. eapply le_trans; [apply Hh; lia|]. rewrite <-E. apply Hh; lia. }
  assert (Hup : up_ready n (Swap i n h) i).
  { split; intros c Hc; pose proof (parent_lt c ltac:(lia)).
    - intros Hne. rewrite !lookup_Swap by lia. rewrite (decide_False (P := c = i)), (decide_False (P := c = n)) by lia.
      destruct (decide (parent c = i)) as [E|]; [eapply le_trans; [done|by apply Hch]|].
      rewrite decide_False by lia. apply Hh; lia.
    - intros _ E. rewrite !lookup_Swap by lia. rewrite !decide_False by lia. by apply Hch. }
  split; [done|]. destruct n as [|n]; [lia|]. cbn [down].
  destruct (S n <=? 2 * i + 1)%nat eqn:E1; [done|]. apply Nat.leb_gt in E1.
  fold (min_child (Swap i (S n) h) i (S n)). destruct (min_child_ok (Swap i (S n) h) i (S n) E1) as (Hj & Hp & _).
  set (j := min_child _ _ _) in *. pose proof (parent_lt j ltac:(lia)).
  assert (Hno : less (Swap i (S n) h !!! j) (Swap i (S n) h !!! i) = false); [|by rewrite Hno].
  rewrite !lookup_Swap by lia. rewrite (decide_False (P := j = i)), (decide_False (P := j = S n)), decide_True by lia.
  eapply le_trans; [done|by apply Hch].
Qed.

Lemma heap_Remove_ok i h :
  heap h -> (i < length h)%nat ->
  exists h', heap_Remove i h = Some (h !!! i, h') /\ heap h' /\ h ≡ₚ (h !!! i) :: h'.
Proof.
  intros Hh Hi. unfold heap_Remove. rewrite (proj2 (Nat.leb_gt _ _)) by done. set (n := (length h - 1)%nat).
  assert (Hl : length h = S n) by lia.
  assert (Hdone : forall g, heap_from 0 n g -> g ≡ₚ h -> g !!! n = h !!! i ->
    exists h', Some (g !!! n, take n g) = Some (h !!! i, h') /\ heap h' /\ h ≡ₚ (h !!! i) :: h').
  { intros g Hg Hp E. pose proof (Permutation_length Hp). exists (take n g). split; [by rewrite E|].
    split; [apply heap_take; [lia|done]|]. rewrite <-E, <-(take_last_perm n g) by lia. by rewrite Hp. }
  destruct (n =? i)%nat eqn:En; cbn [negb].
  { apply Nat.eqb_eq in En. apply Hdone; [|done|by rewrite En]. intros c Hc Hlo. apply Hh; [lia|done]. }
  apply Nat.eqb_neq in En. pose proof (Swap_perm i n h ltac:(lia) ltac:(lia)) as Hswap.
  assert (Elast : Swap i n h !!! n = h !!! i) by (rewrite lookup_Swap by lia; by rewrite decide_False, decide_True by lia).
  destruct (decide (0 < i /\ less (h !!! n) (h !!! parent i) = true)%nat) as [[Hpos Hless]|Hno].
  - destruct (remove_rises h i n Hh Hl ltac:(lia) Hless) as [Hup ->]. rewrite (proj2 (Nat.ltb_ge _ _)) by done.
    destruct (up_ok (S i) n (Swap i n h) i) as (H1 & H2 & H3); [lia|rewrite length_Swap; lia|done|].
    apply Hdone; [done|by rewrite H2|by rewrite H3].
  - destruct (down n (Swap i n h) i n) as [g i'] eqn:E.
    apply (down_ok _ 0) in E as (H1 & H2 & H3 & _ & Hsame); [|lia|rewrite length_Swap; lia|lia|].
    2:{ apply remove_sinks; [done|done|lia|]. intros Hpos. unfold le. destruct (less _ _) eqn:E'; [|done]. exfalso. by apply Hno. }
    case_if; [apply Hdone; [done|by rewrite H2|by rewrite H3]|]. 
    destruct (up_ok (S i) n g i) as (G1 & G2 & G3); [lia|rewrite (Permutation_length H2), length_Swap; lia|split|].
    + intros c Hc _. apply H1; lia.
    + intros c Hc Hpos Ec. pose proof (parent_lt i Hpos). eapply le_trans; [apply H1; lia|]. rewrite <-Ec. apply H1; lia.
    + apply Hdone; [done|by rewrite G2, H2|by rewrite G3, H3].
Qed.
End Heap.
