(* ===== verification/Bitutil.v ===== *)
(** common/bitutil.  bitutil.go: the loops over words of the machine and the loops
    over bytes, and that they compute the same.  compress.go: the recursive bitset
    encoding of sparse bytes, its decoder, and that each inverts the other. *)
From S2P Require Import Prelude.

(** The number of a byte string whose first byte is the least significant. *)
Fixpoint le_to_Z (l : bytes) : Z :=
  match l with
  | [] => 0
  | b :: l => b + 256 * le_to_Z l
  end.

Fixpoint Z_to_le (n : nat) (x : Z) : bytes :=
  match n with
  | O => []
  | S n => x mod 256 :: Z_to_le n (x / 256)
  end.

(** The size of a [uintptr] and the byte order depend on the machine. *)
Section Machine.
Context (wordSize : nat) (bigEndian supportsUnaligned : bool).

Definition in_order (l : bytes) : bytes := if bigEndian then rev l else l.

(** [w[i]] of a slice whose header is read as that of a [[]uintptr]; there is
    no such word when its bytes are not all in the slice. *)
Definition load_word (l : bytes) (i : nat) : option Z :=
  if (wordSize * i + wordSize <=? length l)%nat
  then Some (le_to_Z (in_order (take wordSize (drop (wordSize * i) l)))) else None.

Definition store_word (l : bytes) (i : nat) (w : Z) : option bytes :=
  if (wordSize * i + wordSize <=? length l)%nat
  then Some (take (wordSize * i) l ++ in_order (Z_to_le wordSize w) ++ drop (wordSize * i + wordSize) l) else None.

(** [dst[i] = op(a[i], b[i])] for [n] bytes from [i] on. *)
Fixpoint bytes_loop (op : Z -> Z -> Z) (n i : nat) (dst a b : bytes) : option bytes :=
  match n with
  | O => Some dst
  | S n =>
      match a !! i, b !! i, dst !! i with
      | Some x, Some y, Some _ => bytes_loop op n (S i) (<[i := op x y]> dst) a b
      | _, _, _ => None
      end
  end.

(** [dw[i] = op(aw[i], bw[i])] for [n] words from [i] on. *)
Fixpoint words_loop (op : Z -> Z -> Z) (n i : nat) (dst a b : bytes) : option bytes :=
  match n with
  | O => Some dst
  | S n =>
      match load_word a i, load_word b i with
      | Some x, Some y =>
          match store_word dst i (op x y) with
          | Some dst => words_loop op n (S i) dst a b
          | None => None
          end
      | _, _ => None
      end
  end.

Definition min_len (a b : bytes) : nat := if (length b <? length a)%nat then length b else length a.

Definition safe_op (op : Z -> Z -> Z) (dst a b : bytes) : option (nat * bytes) :=
  let n := min_len a b in
  match bytes_loop op n 0 dst a b with Some dst => Some (n, dst) | None => None end.

Definition fast_op (op : Z -> Z -> Z) (dst a b : bytes) : option (nat * bytes) :=
  let n := min_len a b in
  let w := (n / wordSize)%nat in
  match (if (0 <? w)%nat then words_loop op w 0 dst a b else Some dst) with
  | Some dst =>
      match bytes_loop op (n mod wordSize) (n - n mod wordSize) dst a b with
      | Some dst => Some (n, dst)
      | None => None
      end
  | None => None
  end.

Definition fastXORBytes := fast_op Z.lxor.
Definition safeXORBytes := safe_op Z.lxor.
Definition fastANDBytes := fast_op Z.land.
Definition safeANDBytes := safe_op Z.land.
Definition fastORBytes := fast_op Z.lor.
Definition safeORBytes := safe_op Z.lor.

Definition XORBytes (dst a b : bytes) : option (nat * bytes) :=
  if supportsUnaligned then fastXORBytes dst a b else safeXORBytes dst a b.
Definition ANDBytes (dst a b : bytes) : option (nat * bytes) :=
  if supportsUnaligned then fastANDBytes dst a b else safeANDBytes dst a b.
Definition ORBytes (dst a b : bytes) : option (nat * bytes) :=
  if supportsUnaligned then fastORBytes dst a b else safeORBytes dst a b.

Fixpoint any_byte (n i : nat) (p : bytes) : option bool :=
  match n with
  | O => Some false
  | S n =>
      match p !! i with
      | Some x => if negb (x =? 0) then Some true else any_byte n (S i) p
      | None => None
      end
  end.

Fixpoint any_word (n i : nat) (p : bytes) : option bool :=
  match n with
  | O => Some false
  | S n =>
      match load_word p i with
      | Some x => if negb (x =? 0) then Some true else any_word n (S i) p
      | None => None
      end
  end.

Definition safeTestBytes (p : bytes) : option bool := any_byte (length p) 0 p.

Definition fastTestBytes (p : bytes) : option bool :=
  let n := length p in
  let w := (n / wordSize)%nat in
  match (if (0 <? w)%nat then any_word w 0 p else Some false) with
  | Some false => any_byte (n mod wordSize) (n - n mod wordSize) p
  | r => r
  end.

Definition TestBytes (p : bytes) : option bool :=
  if supportsUnaligned then fastTestBytes p else safeTestBytes p.

End Machine.

(** * Words are combined byte by byte *)

(** An operation of the machine that works on each bit alone. *)
Class Bitwise (op : Z -> Z -> Z) : Prop := {
  bitwise_byte x y : is_byte x -> is_byte y -> is_byte (op x y);
  bitwise_split b c x y :
    is_byte b -> is_byte c -> op (b + 256 * x) (c + 256 * y) = op b c + 256 * op x y;
  bitwise_0 : op 0 0 = 0
}.

Lemma byte_split b x n :
  is_byte b -> 0 <= n -> Z.testbit (b + 256 * x) n = if n <? 8 then Z.testbit b n else Z.testbit x (n - 8).
Proof.
  intros Hb Hn. replace (b + 256 * x) with (Z.lor (Z.shiftl x 8) b) by (rewrite lor_concat by done; lia).
  rewrite Z.lor_spec, Z.shiftl_spec by done. case_if.
  - by rewrite Z.testbit_neg_r by lia.
  - rewrite <-(Z.mod_small b (2 ^ 8)) by done. by rewrite Z.mod_pow2_bits_high, orb_false_r by lia.
Qed.

Lemma bits_is_byte x : 0 <= x -> (forall n, 8 <= n -> Z.testbit x n = false) -> is_byte x.
Proof.
  intros Hx Hn. assert (x = x mod 2 ^ 8) as ->; [|apply Z.mod_pos_bound; lia].
  apply Z.bits_inj'. intros n Hn'. destruct (decide (n < 8)).
  - by rewrite Z.mod_pow2_bits_low.
  - rewrite Z.mod_pow2_bits_high by lia. apply Hn. lia.
Qed.

Lemma byte_high x n : is_byte x -> 8 <= n -> Z.testbit x n = false.
Proof. intros Hx Hn. rewrite <-(Z.mod_small x (2 ^ 8)) by done. apply Z.mod_pow2_bits_high; lia. Qed.

Lemma bitwise_from op f :
  (forall x y n, 0 <= n -> Z.testbit (op x y) n = f (Z.testbit x n) (Z.testbit y n)) -> f false false = false ->
  (forall x y, 0 <= x -> 0 <= y -> 0 <= op x y) -> Bitwise op.
Proof.
  intros Hop Hf Hpos.
  assert (Hbyte : forall x y, is_byte x -> is_byte y -> is_byte (op x y)).
  { intros x y Hx Hy. apply bits_is_byte; [apply Hpos; [apply Hx|apply Hy]|].
    intros n Hn. rewrite Hop, !byte_high by (done || lia). done. }
  split; [done| |].
  - intros b c x y Hb Hc. apply Z.bits_inj'. intros n Hn. rewrite Hop, !byte_split by auto. case_if; rewrite Hop by lia; done.
  - apply Z.bits_inj'. intros n Hn. by rewrite Hop, Z.bits_0.
Qed.

#[export] Instance xor_bitwise : Bitwise Z.lxor.
Proof. apply (bitwise_from _ xorb); [intros; apply Z.lxor_spec|done|intros x y; rewrite Z.lxor_nonneg; tauto]. Qed.
#[export] Instance and_bitwise : Bitwise Z.land.
Proof. apply (bitwise_from _ andb); [intros; apply Z.land_spec|done|intros x y; rewrite Z.land_nonneg; tauto]. Qed.
#[export] Instance or_bitwise : Bitwise Z.lor.
Proof. apply (bitwise_from _ orb); [intros; apply Z.lor_spec|done|intros x y; rewrite Z.lor_nonneg; tauto]. Qed.

Section Equivalence.
Context (op : Z -> Z -> Z) `{!Bitwise op} (wordSize : nat) (bigEndian : bool).

Lemma le_op x y :
  wf_bytes x -> wf_bytes y -> length x = length y -> Z_to_le (length x) (op (le_to_Z x) (le_to_Z y)) = zip_with op x y.
Proof.
  intros Hx. revert y. induction Hx as [|b x Hb Hx IH]; intros [|c y] Hy Hl; try done.
  apply wf_bytes_cons in Hy as [Hc Hy]. cbn. rewrite bitwise_split by done.
  pose proof (bitwise_byte b c Hb Hc) as Hbc. unfold is_byte in Hbc.
  rewrite (Z.mul_comm 256), Z.mod_add, Z.mod_small, Z.div_add, Z.div_small, Z.add_0_l by lia.
  f_equal. apply IH; [done|]. by injection Hl.
Qed.

Lemma zip_with_rev (x y : bytes) : length x = length y -> rev (zip_with op (rev x) (rev y)) = zip_with op x y.
Proof.
  revert y. induction x as [|b x IH]; intros [|c y] Hl; try done. injection Hl as Hl. cbn.
  rewrite zip_with_app, rev_app_distr by (by rewrite !length_rev). cbn. by rewrite IH.
Qed.

Lemma word_op x y :
  wf_bytes x -> wf_bytes y -> length x = wordSize -> length y = wordSize ->
  in_order bigEndian (Z_to_le wordSize (op (le_to_Z (in_order bigEndian x)) (le_to_Z (in_order bigEndian y)))) =
  zip_with op x y.
Proof.
  intros Hx Hy Hlx Hly. unfold in_order. destruct bigEndian.
  - rewrite <-Hlx, <-(length_rev x), le_op, zip_with_rev; [done|congruence|by apply Forall_rev..|].
    rewrite !length_rev. congruence.
  - rewrite <-Hlx. apply le_op; congruence.
Qed.

(** [dst] when its first [m] bytes are done. *)
Definition combined (m : nat) (dst a b : bytes) : bytes := zip_with op (take m a) (take m b) ++ drop m dst.

Context (dst a b : bytes) (a_wf : wf_bytes a) (b_wf : wf_bytes b).
Let n := min_len a b.
Hypothesis room : (n <= length dst)%nat.

Lemma min_len_le : (n <= length a)%nat /\ (n <= length b)%nat /\ (n = length a \/ n = length b).
Proof. unfold n, min_len. case_if; [apply Nat.ltb_lt in E|apply Nat.ltb_ge in E]; lia. Qed.

Lemma length_combined m : (m <= n)%nat -> length (combined m dst a b) = length dst.
Proof.
  intros Hm. pose proof min_len_le. unfold combined. rewrite length_app, length_zip_with, !length_take, length_drop. lia.
Qed.

Lemma combined_app m k :
  (m + k <= n)%nat ->
  combined (m + k) dst a b =
  take m (combined m dst a b) ++ zip_with op (take k (drop m a)) (take k (drop m b)) ++ drop (m + k) (combined m dst a b).
Proof.
  intros Hm. pose proof min_len_le. unfold combined.
  assert (Hl : length (zip_with op (take m a) (take m b)) = m) by (rewrite length_zip_with, !length_take; lia).
  rewrite (take_app_length' _ _ m) by done.
  rewrite drop_app_ge, Hl, drop_drop by lia. replace (m + (m + k - m))%nat with (m + k)%nat by lia.
  rewrite app_assoc. f_equal. rewrite <-zip_with_app by (rewrite !length_take; lia).
  by rewrite !take_take_drop.
Qed.

Lemma bytes_loop_ok k i :
  (i + k <= n)%nat -> bytes_loop op k i (combined i dst a b) a b = Some (combined (i + k) dst a b).
Proof.
  pose proof min_len_le. revert i. induction k as [|k IH]; intros i Hi; [by rewrite Nat.add_0_r|]. cbn [bytes_loop].
  destruct (lookup_lt_is_Some_2 a i) as [x Hx]; [lia|]. destruct (lookup_lt_is_Some_2 b i) as [y Hy]; [lia|].
  pose proof (length_combined i ltac:(lia)) as Hl.
  destruct (lookup_lt_is_Some_2 (combined i dst a b) i) as [z Hz]; [lia|]. rewrite Hx, Hy, Hz.
  replace (<[i:=op x y]> (combined i dst a b)) with (combined (i + 1) dst a b).
  { replace (i + 1)%nat with (S i) by lia. rewrite IH by lia. do 2 f_equal. lia. }
  rewrite combined_app, insert_take_drop by lia.
  rewrite (drop_S a x), (drop_S b y) by done. cbn. by replace (S i) with (i + 1)%nat by lia.
Qed.

Lemma words_loop_ok k i :
  (wordSize * (i + k) <= n)%nat ->
  words_loop wordSize bigEndian op k i (combined (wordSize * i) dst a b) a b =
  Some (combined (wordSize * (i + k)) dst a b).
Proof.
  pose proof min_len_le. revert i. induction k as [|k IH]; intros i Hi; [by rewrite Nat.add_0_r|]. cbn [words_loop].
  assert (Hw : (wordSize * i + wordSize <= n)%nat) by nia. unfold load_word, store_word.
  rewrite length_combined by lia.
  do 3 (rewrite (proj2 (Nat.leb_le _ _)) by lia; cbn beta iota).
  rewrite word_op, <-combined_app; [|done|auto with go|auto with go|rewrite length_take, length_drop; lia..].
  replace (wordSize * i + wordSize)%nat with (wordSize * S i)%nat by lia. rewrite IH by nia. do 2 f_equal. lia.
Qed.

Lemma combined_0 : combined 0 dst a b = dst.
Proof. reflexivity. Qed.

Lemma combined_n : combined n dst a b = zip_with op a b ++ drop n dst.
Proof.
  pose proof min_len_le as (? & ? & Hn). unfold combined. f_equal.
  rewrite <-zip_with_take, take_ge; [done|]. rewrite length_zip_with. lia.
Qed.

Lemma safe_op_ok : safe_op op dst a b = Some (n, zip_with op a b ++ drop n dst).
Proof.
  unfold safe_op. rewrite <-combined_0 at 1. fold n. rewrite bytes_loop_ok by lia. cbn [Nat.add]. by rewrite combined_n.
Qed.

Lemma fast_op_ok :
  (0 < wordSize)%nat -> fast_op wordSize bigEndian op dst a b = Some (n, zip_with op a b ++ drop n dst).
Proof.
  intros Hw. unfold fast_op. fold n. pose proof (Nat.div_mod_eq n wordSize) as Hd.
  replace (if (0 <? n / wordSize)%nat then _ else _) with (Some (combined (wordSize * (n / wordSize)) dst a b)).
  - replace (n - n mod wordSize)%nat with (wordSize * (n / wordSize))%nat by lia.
    rewrite bytes_loop_ok by lia. rewrite <-Hd, combined_n. done.
  - symmetry. case_if; [|apply Nat.ltb_ge in E; replace (n / wordSize)%nat with O by lia; by rewrite Nat.mul_0_r].
    rewrite <-combined_0 at 1. replace O with (wordSize * 0)%nat at 2 by lia. rewrite words_loop_ok; [done|]. cbn. lia.
Qed.
End Equivalence.

(** * Testing for a set bit *)
Definition some_nonzero (l : bytes) : bool := existsb (fun x => negb (x =? 0)) l.

Lemma le_to_Z_nonneg l : wf_bytes l -> 0 <= le_to_Z l.
Proof. induction 1 as [|b l Hb Hl IH]; cbn; [done|]. unfold is_byte in Hb. lia. Qed.

Lemma le_to_Z_test l : wf_bytes l -> negb (le_to_Z l =? 0) = some_nonzero l.
Proof.
  induction 1 as [|b l Hb Hl IH]; [done|]. unfold some_nonzero in *. cbn. rewrite <-IH. pose proof (le_to_Z_nonneg l Hl). unfold is_byte in Hb. lia.
Qed.

Lemma some_nonzero_rev l : some_nonzero (rev l) = some_nonzero l.
Proof.
  unfold some_nonzero. induction l as [|b l IH]; [done|]. cbn. rewrite existsb_app, IH. cbn. rewrite orb_false_r. apply orb_comm.
Qed.

Lemma some_nonzero_app l k : some_nonzero (l ++ k) = some_nonzero l || some_nonzero k.
Proof. apply existsb_app. Qed.

Lemma any_byte_ok k i p : (i + k <= length p)%nat -> any_byte k i p = Some (some_nonzero (take k (drop i p))).
Proof.
  revert i. induction k as [|k IH]; intros i Hi; [done|]. cbn [any_byte].
  destruct (lookup_lt_is_Some_2 p i) as [x Hx]; [lia|]. rewrite Hx, (drop_S _ x), IH by (done || lia).
  cbn. by case_if.
Qed.

Lemma word_test be l : wf_bytes l -> negb (le_to_Z (in_order be l) =? 0) = some_nonzero l.
Proof.
  intros Hl. rewrite le_to_Z_test by (destruct be; [by apply Forall_rev|done]).
  unfold in_order. destruct be; [apply some_nonzero_rev|done].
Qed.

Lemma any_word_ok ws be k i p :
  wf_bytes p -> (ws * (i + k) <= length p)%nat ->
  any_word ws be k i p = Some (some_nonzero (take (ws * k) (drop (ws * i) p))).
Proof.
  intros Hp. revert i. induction k as [|k IH]; intros i Hi; [by rewrite Nat.mul_0_r|]. cbn [any_word].
  unfold load_word. rewrite (proj2 (Nat.leb_le _ _)) by nia.
  rewrite word_test by auto with go. rewrite IH by lia. replace (ws * S i)%nat with (ws * i + ws)%nat by lia.
  replace (ws * S k)%nat with (ws + ws * k)%nat by lia.
  rewrite <-take_take_drop, drop_drop, some_nonzero_app. by case_if.
Qed.

Lemma TestBytes_ok ws be unaligned p :
  (0 < ws)%nat -> wf_bytes p -> TestBytes ws be unaligned p = Some (some_nonzero p).
Proof.
  intros Hw Hp. unfold TestBytes, safeTestBytes, fastTestBytes. rewrite (any_byte_ok (length p)), take_ge by done.
  destruct unaligned; [|done]. pose proof (Nat.div_mod_eq (length p) ws) as Hd.
  set (q := (length p / ws)%nat) in *. set (r := (length p mod ws)%nat) in *.
  replace (if (0 <? q)%nat then _ else _) with (Some (some_nonzero (take (ws * q) p))).
  2:{ symmetry. case_if; [by rewrite any_word_ok, Nat.mul_0_r by (done || (cbn; lia))|].
      apply Nat.ltb_ge in E. replace q with O by lia. by rewrite Nat.mul_0_r. }
  replace (length p - r)%nat with (ws * q)%nat by lia. rewrite any_byte_ok by lia.
  rewrite (take_ge (drop _ _)) by (rewrite length_drop; lia).
  rewrite <-(take_drop (ws * q) p) at 3. rewrite some_nonzero_app. by case_match.
Qed.

(** On every machine, whatever its word size, byte order and support of
    unaligned access, the loops over words give what the loops over bytes
    give: the exclusive or, the and and the or of the common prefix of two
    byte strings are those of their bytes, the rest of the destination stays,
    and the test finds a set bit just when a byte is not zero. *)
Theorem byte_logic_correct wordSize bigEndian unaligned dst a b :
  (0 < wordSize)%nat -> wf_bytes a -> wf_bytes b -> (min_len a b <= length dst)%nat ->
  let result op := Some (min_len a b, zip_with op a b ++ drop (min_len a b) dst) in
  XORBytes wordSize bigEndian unaligned dst a b = result Z.lxor /\
  ANDBytes wordSize bigEndian unaligned dst a b = result Z.land /\
  ORBytes wordSize bigEndian unaligned dst a b = result Z.lor /\
  TestBytes wordSize bigEndian unaligned a = Some (existsb (fun x => negb (x =? 0)) a).
Proof.
  intros Hw Ha Hb Hd result. unfold XORBytes, ANDBytes, ORBytes, result.
  destruct unaligned; (split; [|split; [|split]]);
    first [by apply (fast_op_ok _)|by apply (safe_op_ok _)|by apply TestBytes_ok].
Qed.

Lemma byte_logic_correct_witness :
  XORBytes 4 true true (replicate 7 9) [1; 2; 3; 4; 5; 6] [255; 0; 255; 0; 255; 0; 1] = Some (6%nat, [254; 2; 252; 4; 250; 6; 9]).
Proof.
  destruct (byte_logic_correct 4 true true (replicate 7 9) [1; 2; 3; 4; 5; 6] [255; 0; 255; 0; 255; 0; 1]) as [E _];
    [lia|by_decide|by_decide|cbn; lia|]. exact E.
Defined.

(** * Compression *)
Inductive CompressError :=
| errMissingData
| errUnreferencedData
| errExceededTarget
| errZeroContent.

(** [bits[i/8] |= 1 << byte(7-i%8)] *)
Definition set_bit (bits : bytes) (i : nat) : bytes :=
  alter (fun x => Z.lor x (Z.shiftl 1 (7 - Z.of_nat (i mod 8)))) (i / 8)%nat bits.

(** [bits[i/8]&(1<<byte(7-i%8)) != 0] *)
Definition test_bit (bits : bytes) (i : nat) : bool :=
  negb (Z.land (nth (i / 8) bits 0) (Z.shiftl 1 (7 - Z.of_nat (i mod 8))) =? 0).

(** The loop that computes the bitset and collects the non-zero bytes. *)
Fixpoint collect (i : nat) (data nonZeroBitset nonZeroBytes : bytes) : bytes * bytes :=
  match data with
  | [] => (nonZeroBitset, nonZeroBytes)
  | b :: data =>
      if negb (b =? 0) then collect (S i) data (set_bit nonZeroBitset i) (nonZeroBytes ++ [b])
      else collect (S i) data nonZeroBitset nonZeroBytes
  end.

Definition bitset_len (n : nat) : nat := ((n + 7) / 8)%nat.

(** The recursion on the bitset, [fuel] levels deep. *)
Fixpoint bitsetEncode_fuel (fuel : nat) (data : bytes) : bytes :=
  match data with
  | [] => []
  | [b] => if b =? 0 then [] else data
  | _ =>
      match fuel with
      | O => []
      | S fuel =>
          let '(bits, nonZeroBytes) := collect 0 data (replicate (bitset_len (length data)) 0) [] in
          if zlen nonZeroBytes =? 0 then [] else bitsetEncode_fuel fuel bits ++ nonZeroBytes
      end
  end.

Definition bitsetEncodeBytes (data : bytes) : bytes := bitsetEncode_fuel (length data) data.

Definition CompressBytes (data : bytes) : bytes :=
  let out := bitsetEncodeBytes data in
  if zlen out <? zlen data then out else data.

(** The loop of the decoder, [n] bits from bit [i] on. *)
Fixpoint fill (n i : nat) (data bits decomp : bytes) (ptr : nat) : result CompressError (bytes * nat) :=
  match n with
  | O => Ok (decomp, ptr)
  | S n =>
      if test_bit bits i then
        if (length data <=? ptr)%nat then Err errMissingData
        else if (length decomp <=? i)%nat then Err errExceededTarget
        else let! b := or_panic (data !! ptr) in
             if b =? 0 then Err errZeroContent
             else fill n (S i) data bits (<[i:=b]> decomp) (S ptr)
      else fill n (S i) data bits decomp ptr
  end.

Fixpoint bitsetDecode_fuel (fuel : nat) (data : bytes) (target : nat) : result CompressError (bytes * nat) :=
  match target, data with
  | O, _ => Ok ([], O)
  | _, [] => Ok (replicate target 0, O)
  | 1%nat, b :: _ => Ok ([b], if negb (b =? 0) then 1%nat else O)
  | _, _ =>
      match fuel with
      | O => Panic
      | S fuel =>
          let! (bits, ptr) := bitsetDecode_fuel fuel data (bitset_len target) in
          fill (8 * length bits) 0 data bits (replicate target 0) ptr
      end
  end.

Definition bitsetDecodePartialBytes (data : bytes) (target : nat) : result CompressError (bytes * nat) :=
  bitsetDecode_fuel target data target.

Definition bitsetDecodeBytes (data : bytes) (target : nat) : result CompressError bytes :=
  let! (out, size) := bitsetDecodePartialBytes data target in
  if negb (size =? length data)%nat then Err errUnreferencedData else Ok out.

Definition DecompressBytes (data : bytes) (target : Z) : result CompressError bytes :=
  if target <? zlen data then Err errExceededTarget
  else if zlen data =? target then Ok data
  else bitsetDecodeBytes data (Z.to_nat target).

(** * The bits of a bitset *)
Definition bit (bits : bytes) (i : nat) : bool := Z.testbit (nth (i / 8) bits 0) (7 - Z.of_nat (i mod 8)).
Definition nonzero_at (data : bytes) (i : nat) : bool := negb (nth i data 0 =? 0).
Definition nz (data : bytes) : bytes := List.filter (fun b => negb (b =? 0)) data.

Lemma testbit_pow2 k n : 0 <= n -> Z.testbit (Z.shiftl 1 k) n = (k =? n).
Proof.
  intros Hn. destruct (decide (0 <= k)) as [Hk|Hk].
  - by rewrite Z.shiftl_1_l, Z.pow2_bits_eqb.
  - rewrite Z.shiftl_spec by done. replace (k =? n) with false by lia.
    change 1 with (2 ^ 0). rewrite Z.pow2_bits_eqb by lia. lia.
Qed.

Lemma mod8 i : 0 <= 7 - Z.of_nat (i mod 8) <= 7.
Proof. pose proof (Nat.mod_upper_bound i 8). lia. Qed.

Lemma test_bit_bit bits i : test_bit bits i = bit bits i.
Proof.
  unfold test_bit, bit. pose proof (mod8 i) as Hk. set (k := 7 - _) in *. set (x := nth _ _ _).
  assert (E : forall n, 0 <= n -> Z.testbit (Z.land x (Z.shiftl 1 k)) n = Z.testbit x k && (k =? n)).
  { intros n Hn. rewrite Z.land_spec, testbit_pow2 by done. destruct (Z.eqb_spec k n) as [->|]; simp_bool.
    - done.
    - by rewrite !andb_false_r. }
  destruct (Z.testbit x k) eqn:Ex.
  - apply negb_true_iff, Z.eqb_neq. intros E0. specialize (E k ltac:(lia)).
    rewrite E0, Z.bits_0, Z.eqb_refl in E. done.
  - apply negb_false_iff, Z.eqb_eq, Z.bits_inj'. intros n Hn. by rewrite E, Z.bits_0.
Qed.

Lemma bit_beyond bits i : (8 * length bits <= i)%nat -> bit bits i = false.
Proof.
  intros Hi. unfold bit. rewrite nth_overflow by (apply Nat.div_le_lower_bound; lia). apply Z.testbit_0_l.
Qed.

Lemma bit_zeros n i : bit (replicate n 0) i = false.
Proof.
  unfold bit. replace (nth _ _ _) with 0; [apply Z.testbit_0_l|].
  symmetry. change (repeat 0 n) with (repeat 0 n). rewrite nth_lookup.
  destruct (replicate n 0 !! _) eqn:E; [|done]. by apply lookup_replicate in E as [-> _].
Qed.

Lemma div_mod_8_inj i j : (i / 8 = j / 8)%nat -> (i mod 8 = j mod 8)%nat -> i = j.
Proof. intros. pose proof (Nat.div_mod_eq i 8). pose proof (Nat.div_mod_eq j 8). lia. Qed.

Lemma bit_set_bit bits i j :
  (i < 8 * length bits)%nat -> bit (set_bit bits i) j = bit bits j || (j =? i)%nat.
Proof.
  intros Hi. unfold bit, set_bit. rewrite !nth_lookup.
  destruct (decide (i / 8 = j / 8)%nat) as [E|E].
  - rewrite <-E, list_lookup_alter_eq.
    destruct (lookup_lt_is_Some_2 bits (i / 8)) as [x Ex]; [apply Nat.Div0.div_lt_upper_bound; lia|].
    rewrite Ex. unfold fmap, option_fmap, option_map, from_option, id. rewrite Z.lor_spec, testbit_pow2 by apply mod8. f_equal.
    destruct (Nat.eqb_spec j i) as [->|]; [by rewrite Z.eqb_refl|].
    apply Z.eqb_neq. intros Em. pose proof (mod8 i). pose proof (mod8 j).
    assert (i mod 8 = j mod 8)%nat as E' by lia. by pose proof (div_mod_8_inj i j E E').
  - rewrite list_lookup_alter_ne by done. destruct (Nat.eqb_spec j i) as [->|]; [done|]. by rewrite orb_false_r.
Qed.

Lemma length_set_bit bits i : length (set_bit bits i) = length bits.
Proof. apply length_alter. Qed.

Lemma lor_is_byte x y : is_byte x -> is_byte y -> is_byte (Z.lor x y).
Proof.
  unfold is_byte. intros [Hx Hx'] [Hy Hy']. assert (0 <= Z.lor x y) by (by apply Z.lor_nonneg).
  split; [done|]. destruct (decide (Z.lor x y = 0)) as [->|]; [done|].
  apply (Z.log2_lt_pow2 _ 8); [lia|]. rewrite Z.log2_lor by done.
  assert (forall z, 0 <= z < 256 -> Z.log2 z < 8) as Hl.
  { intros z Hz. destruct (decide (z = 0)) as [->|]; [done|]. apply Z.log2_lt_pow2; lia. }
  pose proof (Hl x). pose proof (Hl y). lia.
Qed.

Lemma wf_set_bit bits i : wf_bytes bits -> wf_bytes (set_bit bits i).
Proof.
  intros Hb. apply Forall_alter; [done|]. intros x Hx Hbx. apply lor_is_byte; [done|].
  pose proof (mod8 i). rewrite Z.shiftl_1_l. split; [lia|].
  apply (Z.pow_lt_mono_r 2 _ 8); lia.
Qed.

(** * The bitset of a byte string *)
Record mask (data bits : bytes) : Prop := {
  mask_length : length bits = bitset_len (length data);
  mask_wf : wf_bytes bits;
  mask_bit : forall i, bit bits i = nonzero_at data i
}.

Lemma collect_ok i data bits found bits' found' :
  (i + length data <= 8 * length bits)%nat -> wf_bytes bits ->
  collect i data bits found = (bits', found') ->
  found' = found ++ nz data /\ length bits' = length bits /\ wf_bytes bits' /\
  forall j, bit bits' j = bit bits j || (i <=? j)%nat && nonzero_at data (j - i).
Proof.
  revert i bits found. induction data as [|b data IH]; intros i bits found Hl Hw E; cbn [collect] in E.
  { simplify_eq. rewrite app_nil_r. repeat split; [done|]. intros j. unfold nonzero_at. destruct (j - i)%nat.
    all: by rewrite andb_false_r, orb_false_r. }
  cbn [length] in Hl. unfold nz. cbn [List.filter].
  assert (Hj : forall j, (i <=? j)%nat && nonzero_at (b :: data) (j - i) =
    (j =? i)%nat && negb (b =? 0) || (S i <=? j)%nat && nonzero_at data (j - S i)).
  { intros j. destruct (Nat.leb_spec i j) as [Hij|]; [|destruct (Nat.eqb_spec j i), (Nat.leb_spec (S i) j); lia || done].
    destruct (Nat.eqb_spec j i) as [->|].
    - rewrite Nat.sub_diag. destruct (Nat.leb_spec (S i) i); [lia|]. unfold nonzero_at. cbn. by rewrite orb_false_r.
    - destruct (Nat.leb_spec (S i) j); [|lia]. by replace (j - i)%nat with (S (j - S i)) by lia. }
  destruct (negb (b =? 0)).
  - apply IH in E as (-> & Hl' & Hw' & Hb); [|rewrite length_set_bit; lia|by apply wf_set_bit].
    rewrite length_set_bit in Hl'. rewrite <-app_assoc. repeat split; try done. intros j.
    rewrite Hb, Hj, bit_set_bit, andb_true_r, orb_assoc by lia. done.
  - apply IH in E as (-> & Hl' & Hw' & Hb); [|lia|done]. repeat split; try done. intros j.
    by rewrite Hb, Hj, andb_false_r.
Qed.

Lemma bitset_len_bound n : (n <= 8 * bitset_len n < n + 8)%nat.
Proof.
  unfold bitset_len. pose proof (Nat.div_mod_eq (n + 7) 8). pose proof (Nat.mod_upper_bound (n + 7) 8). lia.
Qed.

Lemma wf_zeros n : wf_bytes (replicate n 0).
Proof. by apply Forall_replicate. Qed.

Lemma collect_mask data bits found :
  collect 0 data (replicate (bitset_len (length data)) 0) [] = (bits, found) -> found = nz data /\ mask data bits.
Proof.
  intros E. pose proof (bitset_len_bound (length data)).
  apply collect_ok in E as (-> & Hl & Hw & Hb); [|rewrite length_replicate; lia|apply wf_zeros].
  rewrite length_replicate in Hl. split; [done|]. split; [done..|]. intros j.
  by rewrite Hb, bit_zeros, Nat.sub_0_r.
Qed.

Lemma byte_bits_inj x y :
  is_byte x -> is_byte y -> (forall k, 0 <= k <= 7 -> Z.testbit x k = Z.testbit y k) -> x = y.
Proof.
  intros Hx Hy Hk. apply Z.bits_inj'. intros n Hn. destruct (decide (n <= 7)); [apply Hk; lia|].
  assert (forall z, is_byte z -> Z.testbit z n = false) as Hz.
  { intros z Hz. rewrite <-(Z.mod_small z (2 ^ 8)) by done. apply Z.mod_pow2_bits_high; lia. }
  by rewrite !Hz.
Qed.

Lemma mask_unique data bits bits' : mask data bits -> mask data bits' -> bits = bits'.
Proof.
  intros [Hl Hw Hb] [Hl' Hw' Hb']. apply (nth_ext _ _ 0 0); [congruence|]. intros n Hn.
  assert (forall l : bytes, wf_bytes l -> (n < length l)%nat -> is_byte (nth n l 0)) as Hbyte.
  { intros l Hwl Hnl. by apply (proj1 (List.Forall_forall _ _) Hwl), nth_In. }
  apply byte_bits_inj; [apply Hbyte; congruence..|]. intros k Hk.
  assert (E : bit bits (8 * n + Z.to_nat (7 - k)) = bit bits' (8 * n + Z.to_nat (7 - k))) by congruence.
  unfold bit in E. replace ((8 * n + Z.to_nat (7 - k)) / 8)%nat with n in E
    by (apply (Nat.div_unique _ 8 _ (Z.to_nat (7 - k))); lia).
  replace ((8 * n + Z.to_nat (7 - k)) mod 8)%nat with (Z.to_nat (7 - k)) in E
    by (apply (Nat.mod_unique _ 8 n); lia).
  by replace (7 - Z.of_nat (Z.to_nat (7 - k))) with k in E by lia.
Qed.

Lemma nz_nil data : nz data = [] <-> forall i, nonzero_at data i = false.
Proof.
  induction data as [|b data IH]; [split; [intros _ [|i]|]; done|]. unfold nz in *. cbn [List.filter]. split.
  - destruct (negb (b =? 0)) eqn:E; [done|]. intros Hd [|i]; [done|]. by apply IH.
  - intros Hi. pose proof (Hi O) as H0. unfold nonzero_at in H0. cbn in H0. rewrite H0. apply IH. intros i. apply (Hi (S i)).
Qed.

Lemma mask_nz data bits : mask data bits -> nz bits = [] -> nz data = [].
Proof.
  intros [_ _ Hb] H0. apply nz_nil. intros i. rewrite <-Hb. unfold bit.
  assert (nonzero_at bits (i / 8) = false) as E by (by apply nz_nil). unfold nonzero_at in E. simp_bool.
  rewrite E. apply Z.testbit_0_l.
Qed.

(** * The encoder *)
Lemma bitset_len_lt n : (2 <= n -> bitset_len n < n)%nat.
Proof. pose proof (bitset_len_bound n). lia. Qed.

Lemma bitsetEncode_step f b c data :
  bitsetEncode_fuel (S f) (b :: c :: data) =
  let '(bits, found) := collect 0 (b :: c :: data) (replicate (bitset_len (length (b :: c :: data))) 0) [] in
  if zlen found =? 0 then [] else bitsetEncode_fuel f bits ++ found.
Proof. reflexivity. Qed.

(** The fuel [len(data)] is enough: any larger fuel gives the same result. *)
Lemma bitsetEncode_enough f data :
  (length data <= f)%nat -> bitsetEncode_fuel f data = bitsetEncodeBytes data.
Proof.
  unfold bitsetEncodeBytes. revert data. induction f as [f IH] using lt_wf_ind. intros data Hf.
  destruct data as [|b [|c data]]; [by destruct f|by destruct f|].
  destruct f as [|f]; [cbn in Hf; lia|]. rewrite bitsetEncode_step.
  change (bitsetEncode_fuel (length (b :: c :: data))) with (bitsetEncode_fuel (S (S (length data)))).
  rewrite bitsetEncode_step.
  destruct (collect _ _ _ _) as [bits found] eqn:E. case_if; [done|].
  apply collect_mask in E as [_ [Hl _ _]]. pose proof (bitset_len_lt (length (b :: c :: data))) as Hlt.
  cbn [length] in *. f_equal. rewrite (IH f) by lia. symmetry. apply IH; lia.
Qed.

Lemma bitsetEncode_eq data bits :
  (2 <= length data)%nat -> mask data bits ->
  bitsetEncodeBytes data = if decide (nz data = []) then [] else bitsetEncodeBytes bits ++ nz data.
Proof.
  intros Hl Hm. destruct data as [|b [|c data]]; [cbn in Hl; lia..|].
  unfold bitsetEncodeBytes at 1. change (bitsetEncode_fuel (length (b :: c :: data))) with
    (bitsetEncode_fuel (S (S (length data)))). rewrite bitsetEncode_step.
  destruct (collect _ _ _ _) as [bits' found] eqn:E. apply collect_mask in E as [-> Hm'].
  rewrite (mask_unique _ _ _ Hm Hm'). destruct (decide (nz (b :: c :: data) = [])) as [->|Hn]; [done|].
  case_if; [destruct (nz _); [done|rewrite zlen_cons in E; pose proof (zlen_nonneg l); lia]|].
  f_equal. apply bitsetEncode_enough. pose proof (mask_length _ _ Hm'). pose proof (bitset_len_lt (length (b :: c :: data)) Hl).
  cbn [length] in *. lia.
Qed.

Lemma bitsetEncode_nil data : bitsetEncodeBytes data = [] <-> nz data = [].
Proof.
  destruct data as [|b [|c data]]; [done|unfold nz; cbn; by destruct (b =? 0)|].
  destruct (collect 0 (b :: c :: data) (replicate (bitset_len (length (b :: c :: data))) 0) []) as [bits found] eqn:E.
  apply collect_mask in E as [_ Hm]. rewrite (bitsetEncode_eq _ bits) by (done || (cbn; lia)).
  case_decide as Hn; [done|]. split; [|done]. intros [_ H0]%app_eq_nil. done.
Qed.

(** * The decoder *)
Lemma nz_zeros k : nz (replicate k 0) = [].
Proof. by induction k. Qed.

(** [tl] has its non-zero bytes where the [n] bits from [i] on are set, and
    they are the next bytes of [data]. *)
Record filled (n i : nat) (data bits : bytes) (ptr k : nat) (tl : bytes) : Prop := {
  filled_length : length tl = k;
  filled_bits : forall j, nonzero_at tl j = (j <? n)%nat && bit bits (i + j);
  filled_data : nz tl `prefix_of` drop ptr data
}.

Lemma filled_0 i data bits ptr k tl : filled 0 i data bits ptr k tl <-> tl = replicate k 0.
Proof.
  split.
  - intros [Hl Hb _]. apply (nth_ext _ _ 0 0); [by rewrite length_replicate|]. intros j _.
    specialize (Hb j). unfold nonzero_at in Hb. cbn in Hb. simp_bool. rewrite Hb, nth_lookup.
    destruct (replicate k 0 !! j) eqn:E; [|done]. by apply lookup_replicate in E as [-> _].
  - intros ->. pose proof (nz_zeros k) as E.
    split; [apply length_replicate| |rewrite E; apply prefix_nil]. by apply nz_nil.
Qed.

Lemma filled_nil n i data bits ptr :
  filled (S n) i data bits ptr 0 [] <-> bit bits i = false /\ filled n (S i) data bits ptr 0 [].
Proof.
  split.
  - intros [_ Hb Hd]. split; [specialize (Hb O); cbn in Hb; by rewrite Nat.add_0_r in Hb|].
    split; [done| |done]. intros j. specialize (Hb (S j)). rewrite Nat.add_succ_r in Hb. transitivity (nonzero_at [] (S j)); [by destruct j|exact Hb].
  - intros [H0 [_ Hb Hd]]. split; [done| |done]. intros [|j]; [by rewrite Nat.add_0_r, H0|].
    rewrite Nat.add_succ_r. transitivity (nonzero_at [] j); [by destruct j|exact (Hb j)].
Qed.

Lemma filled_cons n i data bits ptr k x tl :
  filled (S n) i data bits ptr (S k) (x :: tl) <->
  (x = 0 /\ bit bits i = false /\ filled n (S i) data bits ptr k tl) \/
  (x <> 0 /\ bit bits i = true /\ data !! ptr = Some x /\ filled n (S i) data bits (S ptr) k tl).
Proof.
  assert (Hj : (forall j, nonzero_at (x :: tl) j = (j <? S n)%nat && bit bits (i + j)) <->
    negb (x =? 0) = bit bits i /\ forall j, nonzero_at tl j = (j <? n)%nat && bit bits (S i + j)).
  { split.
    - intros H. split; [specialize (H O); by rewrite Nat.add_0_r in H|].
      intros j. specialize (H (S j)). by rewrite Nat.add_succ_r in H.
    - intros [H0 H] [|j]; [by rewrite Nat.add_0_r|]. rewrite Nat.add_succ_r. apply H. }
  unfold nz in *. split.
  - intros [Hl [H0 Hb]%Hj Hd]. unfold nz in Hd. cbn [List.filter] in Hd. injection Hl as Hl.
    destruct (negb (x =? 0)) eqn:E; simp_bool; [right|left; by repeat split].
    destruct Hd as [r Hd]. assert (Hx : data !! ptr = Some x).
    { replace ptr with (ptr + 0)%nat by lia. by rewrite <-lookup_drop, Hd. }
    split; [done|]. split; [done|]. split; [done|]. split; [done..|].
    exists r. rewrite (drop_S _ x) in Hd by done. by injection Hd.
  - intros [(-> & H0 & [Hl Hb Hd])|(Hx & H0 & Hp & [Hl Hb Hd])].
    + split; [by rewrite <-Hl|apply Hj; by rewrite H0|exact Hd].
    + assert (negb (x =? 0) = true) as E by lia.
      split; [by rewrite <-Hl|apply Hj; by rewrite E, H0|].
      unfold nz. cbn [List.filter]. rewrite E, (drop_S _ x) by done. by apply prefix_cons.
Qed.

Lemma nz_cons x tl : nz (x :: tl) = if x =? 0 then nz tl else x :: nz tl.
Proof. unfold nz. cbn. by destruct (x =? 0). Qed.

(** Past the target no bit may be set. *)
Lemma fill_full n i data bits pre ptr out ptr' :
  (length pre <= i)%nat ->
  fill n i data bits pre ptr = Ok (out, ptr') <-> out = pre /\ ptr' = ptr /\ filled n i data bits ptr 0 [].
Proof.
  revert i. induction n as [|n IH]; intros i Hpos; cbn [fill].
  { rewrite filled_0. naive_solver. }
  rewrite test_bit_bit, filled_nil. destruct (bit bits i); [|rewrite IH by lia; naive_solver].
  split; [|naive_solver]. case_match; [done|].
  by replace (length pre <=? i)%nat with true by (symmetry; apply Nat.leb_le; lia).
Qed.

Lemma fill_ok n i data bits pre k ptr out ptr' :
  length pre = i ->
  fill n i data bits (pre ++ replicate k 0) ptr = Ok (out, ptr') <->
  exists tl, out = pre ++ tl /\ ptr' = (ptr + length (nz tl))%nat /\ filled n i data bits ptr k tl.
Proof.
  revert i pre k ptr. induction n as [|n IH]; intros i pre k ptr Hpos.
  { setoid_rewrite filled_0. pose proof (nz_zeros k) as E. split.
    - intros [= <- <-]. exists (replicate k 0). rewrite E, Nat.add_0_r. done.
    - intros (? & -> & -> & ->). cbn [fill]. by rewrite E, Nat.add_0_r. }
  destruct k as [|k].
  { rewrite app_nil_r, fill_full by lia. split.
    - intros (-> & -> & H). exists []. by rewrite app_nil_r, Nat.add_0_r.
    - intros (tl & -> & -> & H). pose proof (filled_length _ _ _ _ _ _ _ H).
      destruct tl; [|done]. by rewrite app_nil_r, Nat.add_0_r. }
  assert (Hcons : (exists tl, out = pre ++ tl /\ ptr' = (ptr + length (nz tl))%nat /\ filled (S n) i data bits ptr (S k) tl)
    <-> exists x tl, out = (pre ++ [x]) ++ tl /\ ptr' = (ptr + length (nz (x :: tl)))%nat /\
                     filled (S n) i data bits ptr (S k) (x :: tl)).
  { setoid_rewrite <-app_assoc. split; [|naive_solver]. intros (tl & H1 & H2 & H).
    pose proof (filled_length _ _ _ _ _ _ _ H). destruct tl as [|x tl]; [done|]. by exists x, tl. }
  rewrite Hcons. setoid_rewrite filled_cons. setoid_rewrite nz_cons. clear Hcons.
  assert (Hstep : forall b, (pre ++ b :: replicate k 0) = (pre ++ [b]) ++ replicate k 0) by (intros; by rewrite <-app_assoc).
  assert (Hlen : forall b : Z, length (pre ++ [b]) = S i) by (intros; rewrite length_app; cbn; lia).
  cbn [fill]. rewrite test_bit_bit. destruct (bit bits i).
  - destruct (data !! ptr) as [b|] eqn:Hp.
    2:{ apply lookup_ge_None in Hp. replace (length data <=? ptr)%nat with true by (symmetry; by apply Nat.leb_le).
        split; [done|]. intros (x & tl & _ & _ & [(_ & ? & _)|(_ & _ & ? & _)]); done. }
    pose proof (lookup_lt_Some _ _ _ Hp).
    replace (length data <=? ptr)%nat with false by (symmetry; by apply Nat.leb_gt).
    rewrite length_app, length_replicate.
    replace (length pre + S k <=? i)%nat with false by (symmetry; apply Nat.leb_gt; lia).
    cbn [or_panic rbind]. case_if; [subst b; split; [done|]; intros (x & tl & _ & _ & [(_ & ? & _)|(? & _ & [= <-] & _)]); done|].
    rewrite insert_app_r_alt by lia. replace (i - length pre)%nat with O by lia. cbn [replicate insert list_insert].
    rewrite Hstep, IH by apply Hlen. apply Z.eqb_neq in E. split.
    + intros (tl & -> & -> & H'). exists b, tl. rewrite E. cbn. split; [done|]. split; [lia|]. right. apply Z.eqb_neq in E. done.
    + intros (x & tl & -> & -> & [(_ & ? & _)|(_ & _ & [= <-] & H')]); [done|].
      exists tl. rewrite E. cbn. split; [done|]. split; [lia|done].
  - cbn [replicate]. rewrite Hstep, IH by apply Hlen. split.
    + intros (tl & -> & -> & H'). exists 0, tl. split; [done|]. split; [done|]. by left.
    + intros (x & tl & -> & -> & [(-> & _ & H')|(_ & ? & _)]); [|done]. by exists tl.
Qed.

Lemma fill_mask data bits t ptr out ptr' :
  length bits = bitset_len t -> wf_bytes bits ->
  fill (8 * length bits) 0 data bits (replicate t 0) ptr = Ok (out, ptr') <->
  length out = t /\ mask out bits /\ ptr' = (ptr + length (nz out))%nat /\ nz out `prefix_of` drop ptr data.
Proof.
  intros Hl Hw. change (replicate t 0) with ([] ++ replicate t 0). rewrite fill_ok by done.
  assert (Hb : forall j, (j <? 8 * length bits)%nat && bit bits (0 + j) = bit bits j).
  { intros j. cbn [Nat.add]. destruct (Nat.ltb_spec j (8 * length bits)); [done|]. by rewrite bit_beyond. }
  split.
  - intros (tl & -> & -> & [Hlt Hbt Hd]). split; [done|]. split; [|done]. split; [cbn; by rewrite Hlt|done|].
    intros j. by rewrite <-Hb, <-Hbt.
  - intros (Hlo & [_ _ Hm] & -> & Hd). exists out. split; [done|]. split; [done|]. split; [done| |done].
    intros j. by rewrite Hb, Hm.
Qed.

Lemma mask_zeros data bits : mask data bits -> nz data = [] -> nz bits = [].
Proof.
  intros Hm Hn. rewrite (mask_unique data bits (replicate (bitset_len (length data)) 0)); [apply nz_zeros|done|].
  split; [apply length_replicate|apply wf_zeros|]. intros i. rewrite bit_zeros. symmetry. by apply nz_nil.
Qed.

Lemma wf_nz data : wf_bytes (nz data) -> wf_bytes data.
Proof.
  induction data as [|b data IH]; [done|]. rewrite nz_cons. case_if; rewrite ?wf_bytes_cons.
  - intros. subst. split; [done|by apply IH].
  - intros [??]. split; [done|by apply IH].
Qed.

Lemma mask_exists data : exists bits, mask data bits.
Proof.
  destruct (collect 0 data (replicate (bitset_len (length data)) 0) []) as [bits found] eqn:E.
  exists bits. by apply collect_mask in E as [_ ?].
Qed.

Lemma bitsetDecode_step f b data t :
  (2 <= t)%nat ->
  bitsetDecode_fuel (S f) (b :: data) t =
  rbind (bitsetDecode_fuel f (b :: data) (bitset_len t)) (fun '(bits, ptr) =>
    fill (8 * length bits) 0 (b :: data) bits (replicate t 0) ptr).
Proof. intros. destruct t as [|[|t]]; [lia..|]. reflexivity. Qed.

(** What the decoder accepts begins with the encoding of what it returns. *)
Lemma bitsetDecode_sound f data t out ptr :
  wf_bytes data -> bitsetDecode_fuel f data t = Ok (out, ptr) ->
  length out = t /\ wf_bytes out /\ ptr = length (bitsetEncodeBytes out) /\ bitsetEncodeBytes out `prefix_of` data.
Proof.
  intros Hw. revert t out ptr. induction f as [f IH] using lt_wf_ind. intros t out ptr E.
  destruct (decide (t = 0)%nat) as [->|]; [destruct f; injection E as <- <-; (split; [done|split; [constructor|split; [done|apply prefix_nil]]])|].
  destruct data as [|b data].
  { assert (out = replicate t 0 /\ ptr = O) as [-> ->] by (destruct t as [|[|t]]; [done|..]; destruct f; by injection E as <- <-).
    pose proof (proj2 (bitsetEncode_nil _) (nz_zeros t)) as E0. rewrite E0, length_replicate.
    split_and!; try done. apply wf_zeros. }
  destruct (decide (t = 1)%nat) as [->|].
  { assert (out = [b] /\ ptr = if negb (b =? 0) then 1%nat else O) as [-> ->] by (destruct f; by injection E as <- <-).
    apply wf_bytes_cons in Hw as [Hb _]. split; [done|]. split; [apply wf_bytes_cons; split; [done|constructor]|].
    unfold bitsetEncodeBytes. cbn. destruct (b =? 0); cbn; split; try done; [apply prefix_nil|by exists data]. }
  destruct f as [|f]; [destruct t as [|[|t]]; [lia..|discriminate E]|].
  rewrite bitsetDecode_step in E by lia.
  destruct (bitsetDecode_fuel f _ _) as [[bits p]| |] eqn:Eb; cbn in E; [|done..].
  apply IH in Eb as (Hl & Hwb & -> & [r Hr]); [|lia].
  apply fill_mask in E as (Ho & Hm & -> & [s Hs]); [|done..].
  assert (Hrs : r = nz out ++ s) by (rewrite Hr, drop_app_length in Hs; done).
  assert (Hwo : wf_bytes out).
  { apply wf_nz. rewrite Hr, Hrs, !wf_bytes_app in Hw. apply Hw. }
  split; [done|]. split; [done|]. rewrite (bitsetEncode_eq out bits) by (done || lia).
  case_decide as Hn; [|rewrite Hr, Hrs, length_app; split; [done|exists s; by rewrite <-app_assoc]].
  rewrite Hn, Nat.add_0_r. assert (nz bits = []) as H0 by (by apply (mask_zeros out)).
  rewrite (proj2 (bitsetEncode_nil bits) H0). split; [done|apply prefix_nil].
Qed.

(** An encoding is decoded, whatever follows it. *)
Lemma bitsetDecode_complete f data out :
  (length out <= f)%nat -> bitsetEncodeBytes out `prefix_of` data -> (bitsetEncodeBytes out = [] -> data = []) ->
  bitsetDecode_fuel f data (length out) = Ok (out, length (bitsetEncodeBytes out)).
Proof.
  revert out. induction f as [|f IH]; intros out Hf Hp H0; [destruct out; [done|cbn in Hf; lia]|].
  destruct out as [|b [|c out]]; [done|..].
  { unfold bitsetEncodeBytes in *. cbn in Hp, H0 |- *. destruct (Z.eqb_spec b 0) as [->|]; cbn in *; [by rewrite H0|].
    destruct Hp as [r ->]. cbn. by destruct (Z.eqb_spec b 0). }
  remember (b :: c :: out) as o eqn:Eo. assert (Ho : (2 <= length o)%nat) by (subst o; cbn; lia). clear Eo b c out.
  destruct (mask_exists o) as [bits Hm]. rewrite (bitsetEncode_eq o bits) in * by done.
  destruct (decide (nz o = [])) as [Hn|Hn].
  { rewrite H0 by done. destruct (length o) as [|[|n]] eqn:El; [lia..|]. cbn [bitsetDecode_fuel length]. do 2 f_equal.
    rewrite <-El. symmetry. apply (filled_0 0 [] [] 0). split; [done| |rewrite Hn; apply prefix_nil].
    intros j. cbn. by apply nz_nil. }
  destruct Hp as [r ->]. assert (Hbn : bitsetEncodeBytes bits <> []).
  { intros E%bitsetEncode_nil. by eapply Hn, mask_nz. }
  destruct (bitsetEncodeBytes bits) as [|b e] eqn:Ee; [done|].
  change (((b :: e) ++ nz o) ++ r) with (b :: (e ++ nz o) ++ r). rewrite bitsetDecode_step by done.
  change (b :: (e ++ nz o) ++ r) with (((b :: e) ++ nz o) ++ r). rewrite <-Ee in *.
  pose proof (bitset_len_lt _ Ho). pose proof Hm as [Hl Hw _]. rewrite <-Hl, IH; [|lia|..].
  2:{ exists (nz o ++ r). by rewrite app_assoc. }
  2:{ done. }
  cbn [rbind]. apply fill_mask; [done..|]. split; [done|]. split; [done|]. rewrite length_app. split; [done|].
  exists r. by rewrite <-app_assoc, drop_app_length.
Qed.

Lemma bitsetDecodeBytes_iff data target out :
  wf_bytes data ->
  bitsetDecodeBytes data target = Ok out <-> length out = target /\ bitsetEncodeBytes out = data.
Proof.
  intros Hw. unfold bitsetDecodeBytes, bitsetDecodePartialBytes. split.
  - destruct (bitsetDecode_fuel _ _ _) as [[o p]| |] eqn:E; cbn; [|done..]. case_if; [done|]. intros [= <-].
    apply bitsetDecode_sound in E as (Hl & _ & -> & [r Hr]); [|done]. split; [done|].
    apply Nat.eqb_eq in E0. rewrite Hr, length_app in E0. destruct r; [by rewrite app_nil_r in Hr|cbn in E0; lia].
  - intros [<- <-]. rewrite bitsetDecode_complete by done. cbn. by rewrite Nat.eqb_refl.
Qed.

Lemma CompressBytes_decompress data :
  DecompressBytes (CompressBytes data) (zlen data) = Ok data /\ zlen (CompressBytes data) <= zlen data.
Proof.
  unfold CompressBytes, DecompressBytes. cbn zeta.
  destruct (zlen (bitsetEncodeBytes data) <? zlen data) eqn:E; simp_bool.
  - replace (zlen data <? zlen (bitsetEncodeBytes data)) with false by lia.
    replace (zlen (bitsetEncodeBytes data) =? zlen data) with false by lia. split; [|lia].
    unfold bitsetDecodeBytes, bitsetDecodePartialBytes. rewrite to_nat_zlen, bitsetDecode_complete by done.
    cbn. by rewrite Nat.eqb_refl.
  - rewrite Z.ltb_irrefl, Z.eqb_refl. done.
Qed.

(** Decompressing the compression of a byte string, with its length as
    the target, gives the byte string back, and compression never makes it
    longer. The decoder of the bitset encoding is the exact inverse of the
    encoder: it accepts a byte string for a target length just when the string
    is the encoding of a byte string of that length, which it returns, so that
    no two inputs are decoded to the same output. *)
Theorem compression_correct data target out :
  wf_bytes data ->
  DecompressBytes (CompressBytes data) (zlen data) = Ok data /\ zlen (CompressBytes data) <= zlen data /\
  (bitsetDecodeBytes data target = Ok out <-> length out = target /\ bitsetEncodeBytes out = data).
Proof.
  intros Hw. destruct (CompressBytes_decompress data). split; [done|]. split; [done|]. by apply bitsetDecodeBytes_iff.
Qed.

Lemma compression_correct_witness :
  let data := [0; 0; 7; 0; 0; 0; 0; 0; 0; 0; 255] in
  CompressBytes data = [192; 32; 32; 7; 255] /\ DecompressBytes (CompressBytes data) 11 = Ok data.
Proof.
  cbn zeta. split; [by_compute|]. destruct (compression_correct [0; 0; 7; 0; 0; 0; 0; 0; 0; 0; 255] 0 []) as [E _]; [by_decide|].
  exact E.
Defined.
