(* ===== verification/RlpTypes.v ===== *)
(** The package [rlp]'s vocabulary: its errors, the Go types that its
    reflection-driven codecs distinguish, the values of those types, and the
    check that [genTypeInfo] makes on a type before it is encoded or decoded
    (rlp/decode.go, rlp/typecache.go). *)

From S2P Require Import Prelude.

(** [Kind] of a value in an RLP stream. *)
Inductive Kind := Byte | String | List.

#[export] Instance Kind_eq_dec : EqDecision Kind.
Proof. solve_decision. Defined.

(** Messages of [decodeError]; its type and path arguments, which only feed the
    printed text, are dropped. *)
Inductive decodeMsg :=
| msgCanonInt | msgCanonSize | msgExpectedList | msgExpectedString
| msgStringTooLong | msgStringTooShort | msgListTooManyElems
| msgListTooFewElems | msgStructTooFewElems.

#[export] Instance decodeMsg_eq_dec : EqDecision decodeMsg.
Proof. solve_decision. Defined.

Inductive RlpError :=
| EOL | ErrExpectedString | ErrExpectedList | ErrCanonInt | ErrCanonSize
| ErrElemTooLarge | ErrValueTooLarge | ErrMoreThanOneValue
| errNotInList | errNotAtEOL | errUintOverflow
| io_EOF | io_ErrUnexpectedEOF
| decodeError (msg : decodeMsg)
| errInvalidBool (n : Z)          (* "rlp: invalid boolean value: %d" *)
| errNegativeBigInt               (* "rlp: cannot encode negative *big.Int" *)
| errNotSerializable              (* "rlp: type %v is not RLP-serializable" *)
| errTailNotLast | errTailNotSlice (* invalid use of the struct tag tail *)
| errOutOfFuel.                   (* not an error of the code: the model's fuel *)

#[export] Instance RlpError_eq_dec : EqDecision RlpError.
Proof. solve_decision. Defined.

(** Struct tags; fields tagged ["-"] are dropped by [structFields] and so do not
    appear in a [TStruct]. *)
Record tags := Tags { nilOK : bool; tail : bool }.
Definition noTags : tags := Tags false false.

(** Go types, as far as [makeWriter] and [makeDecoder] tell them apart.  Types
    with a custom [Encoder] or [Decoder] are not among them.  [*big.Int] is
    [TPtr TBigInt]; [[]byte] is [TSlice (TUint 8)]; [TOther] is any kind that is
    not RLP-serializable (signed integers, floats, maps, channels, functions). *)
Inductive typ :=
| TRawValue
| TInterface
| TBigInt
| TUint (bits : Z)
| TBool
| TString
| TSlice (e : typ)
| TArray (n : nat) (e : typ)
| TStruct (fs : list (typ * tags))
| TPtr (e : typ)
| TOther.

(** Go values.  [VBytes] is the content of a [RawValue], a string, a byte slice
    or a byte array; [VList] the elements of another slice or array, or the
    exported fields of a struct; [VIface] an interface value with its dynamic
    type. *)
Inductive val :=
| VUint (n : Z)
| VBool (b : bool)
| VBig (i : Z)
| VBytes (b : bytes)
| VList (l : list val)
| VNil
| VPtr (v : val)
| VIface (t : typ) (v : val).

(** [isByte]: the element types whose slices are RLP strings. *)
Definition isByte (t : typ) : bool :=
  match t with TUint bits => bits =? 8 | _ => false end.

Definition isSlice (t : typ) : bool :=
  match t with TSlice _ | TRawValue => true | _ => false end.

(** [parseStructTag]: the tag [tail] is allowed only on the last field, which
    must be a slice. *)
Definition parseStructTag (last : bool) (f : typ * tags) : option RlpError :=
  if tail f.2 then
    if negb last then Some errTailNotLast
    else if negb (isSlice f.1) then Some errTailNotSlice else None
  else None.

(** [genTypeInfo]: generation of the codecs of a type, which fails on a type that
    is not serializable or on a bad struct tag. *)
Fixpoint genTypeInfo (t : typ) : option RlpError :=
  match t with
  | TOther => Some errNotSerializable
  | TSlice e => if isByte e then None else genTypeInfo e
  | TArray _ e => if isByte e then None else genTypeInfo e
  | TPtr e => match e with TBigInt => None | _ => genTypeInfo e end
  | TStruct fs =>
      (fix structFields (fs : list (typ * tags)) : option RlpError :=
         match fs with
         | [] => None
         | f :: fs' =>
             match parseStructTag (match fs' with [] => true | _ => false end) f with
             | Some e => Some e
             | None =>
                 match (let '(t, _) := f in genTypeInfo t) with
                 | Some e => Some e
                 | None => structFields fs'
                 end
             end
         end) fs
  | _ => None
  end.

(** Induction on values with a hypothesis for every element of a list. *)
Lemma val_ind' (P : val -> Prop) :
  (forall n, P (VUint n)) -> (forall b, P (VBool b)) -> (forall i, P (VBig i)) ->
  (forall b, P (VBytes b)) -> (forall l, Forall P l -> P (VList l)) -> P VNil ->
  (forall v, P v -> P (VPtr v)) -> (forall t v, P v -> P (VIface t v)) ->
  forall v, P v.
Proof.
  intros HU HB HI Hb HL HN HP HF. fix IH 1.
  intros [n|b|i|b|l| |v|t v];
    [apply HU|apply HB|apply HI|apply Hb| |apply HN|apply HP, IH|apply HF, IH].
  apply HL. induction l; constructor; [apply IH|assumption].
Qed.

(** Go values: unsigned integers fit a [uint64], bytes fit a byte. *)
Inductive wf_val : val -> Prop :=
| wf_VUint n : is_u64 n -> wf_val (VUint n)
| wf_VBool b : wf_val (VBool b)
| wf_VBig i : wf_val (VBig i)
| wf_VBytes b : wf_bytes b -> wf_val (VBytes b)
| wf_VList l : Forall wf_val l -> wf_val (VList l)
| wf_VNil : wf_val VNil
| wf_VPtr v : wf_val v -> wf_val (VPtr v)
| wf_VIface t v : wf_val v -> wf_val (VIface t v).
#[export] Hint Constructors wf_val : go.
