(* ===== verification/RlpEncode.v ===== *)
(** rlp/encode.go: the encoding buffer [encbuf], which collects string data and
    list heads in one pass and merges them in a second one, and the writers that
    [makeWriter] builds from a type.  Proved equal to the recursive definition
    of RLP ([enc_val]). *)

From S2P Require Import Prelude RlpTypes.

(** * Integers and heads *)

(** Stores [b[0] = v0; b[1] = v1; ...], panicking past the end of [b]. *)
Fixpoint stores (b vs : bytes) : result RlpError bytes :=
  match vs, b with
  | [], _ => Ok b
  | v :: vs, _ :: b => rmap (cons v) (stores b vs)
  | _ :: _, [] => Panic
  end.

(** [putint]: the big-endian bytes of [i] at the start of [b], and their number. *)
Definition putint (b : bytes) (i : Z) : result RlpError (bytes * Z) :=
  let sh k := u8 (Z.shiftr i k) in
  if i <? 2 ^ 8 then rmap (fun b => (b, 1)) (stores b [u8 i])
  else if i <? 2 ^ 16 then rmap (fun b => (b, 2)) (stores b [sh 8; u8 i])
  else if i <? 2 ^ 24 then rmap (fun b => (b, 3)) (stores b [sh 16; sh 8; u8 i])
  else if i <? 2 ^ 32 then
    rmap (fun b => (b, 4)) (stores b [sh 24; sh 16; sh 8; u8 i])
  else if i <? 2 ^ 40 then
    rmap (fun b => (b, 5)) (stores b [sh 32; sh 24; sh 16; sh 8; u8 i])
  else if i <? 2 ^ 48 then
    rmap (fun b => (b, 6)) (stores b [sh 40; sh 32; sh 24; sh 16; sh 8; u8 i])
  else if i <? 2 ^ 56 then
    rmap (fun b => (b, 7)) (stores b [sh 48; sh 40; sh 32; sh 24; sh 16; sh 8; u8 i])
  else
    rmap (fun b => (b, 8))
      (stores b [sh 56; sh 48; sh 40; sh 32; sh 24; sh 16; sh 8; u8 i]).

(** [intsize]: the loop shifts a [uint64], so eight rounds reach zero
    ([intsize_spec]); the fuel is that bound. *)
Fixpoint intsize_loop (fuel : nat) (size i : Z) : Z :=
  match fuel with
  | O => size
  | S fuel =>
      let i := Z.shiftr i 8 in
      if i =? 0 then size else intsize_loop fuel (size + 1) i
  end.

Definition intsize (i : Z) : Z := intsize_loop 8 1 i.

Definition headsize (size : Z) : Z :=
  if size <? 56 then 1 else 1 + intsize size.

(** [puthead]: writes a string or list head into [buf]; returns [buf] and the
    head's length. *)
Definition puthead (buf : bytes) (smalltag largetag size : Z) : result RlpError (bytes * Z) :=
  if size <? 56 then
    let! b := stores buf [u8 (smalltag + u8 size)] in Ok (b, 1)
  else
    match buf with
    | [] => Panic
    | b0 :: rest =>
        let! (rest, sizesize) := putint rest size in
        Ok (u8 (largetag + u8 sizesize) :: rest, sizesize + 1)
    end.

(** * The encoding buffer *)
Record listhead := ListHead { offset : Z; size : Z }.

Record encbuf := EncBuf {
  str : bytes;               (* string data, everything but the list heads *)
  lheads : list listhead;    (* all list heads, in order of [list()] calls *)
  lhsize : Z;                (* total length of the encoded heads *)
  sizebuf : bytes            (* 9 bytes of scratch *)
}.

(** [listhead.encode]: the head's bytes, and the buffer they were written to. *)
Definition head_encode (head : listhead) (buf : bytes) : result RlpError (bytes * bytes) :=
  let! (buf, n) := puthead buf 192 247 (size head) in
  let! enc := or_panic (slice buf 0 n) in
  Ok (enc, buf).

(** [encbuf.reset] of a pooled buffer, whose scratch content is arbitrary. *)
Definition reset (w : encbuf) : encbuf := EncBuf [] [] 0 (sizebuf w).

(** A buffer as the pool's [New] makes it. *)
Definition newEncbuf : encbuf := EncBuf [] [] 0 (replicate 9 0).

(** [w.str = append(w.str, b...)]. *)
Definition appendStr (b : bytes) (w : encbuf) : encbuf :=
  EncBuf (str w ++ b) (lheads w) (lhsize w) (sizebuf w).

Definition encodeStringHeader (size : Z) (w : encbuf) : result RlpError encbuf :=
  if size <? 56 then Ok (appendStr [u8 (128 + u8 size)] w)
  else
    match sizebuf w with
    | [] => Panic
    | _ :: sb =>
        let! (sb, sizesize) := putint sb size in
        let sb := u8 (183 + u8 sizesize) :: sb in
        let! h := or_panic (slice sb 0 (sizesize + 1)) in
        Ok (appendStr h (EncBuf (str w) (lheads w) (lhsize w) sb))
    end.

Definition encodeString (b : bytes) (w : encbuf) : result RlpError encbuf :=
  match b with
  | [x] => if x <=? 127 then Ok (appendStr [x] w)
           else rmap (appendStr b) (encodeStringHeader (zlen b) w)
  | _ => rmap (appendStr b) (encodeStringHeader (zlen b) w)
  end.

(** [encbuf.size]. *)
Definition encsize (w : encbuf) : Z := zlen (str w) + lhsize w.

(** [encbuf.list]: the head's pointer is its index in [lheads]; until [listEnd]
    its [size] holds the head total at the list's start. *)
Definition list_start (w : encbuf) : nat * encbuf :=
  (length (lheads w),
   EncBuf (str w) (lheads w ++ [ListHead (zlen (str w)) (lhsize w)]) (lhsize w) (sizebuf w)).

Definition listEnd (lh : nat) (w : encbuf) : result RlpError encbuf :=
  let! h := or_panic (lheads w !! lh) in
  let sz := encsize w - offset h - size h in
  let heads := <[lh := ListHead (offset h) sz]> (lheads w) in
  Ok (EncBuf (str w) heads
        (if sz <? 56 then lhsize w + 1 else lhsize w + (1 + intsize sz)) (sizebuf w)).

(** [copy(out[pos:], src)] of Go, with the number of bytes copied. *)
Definition copy_at (out : bytes) (pos : Z) (src : bytes) : result RlpError (bytes * Z) :=
  let! dst := or_panic (slice out pos (zlen out)) in
  let n := Nat.min (length dst) (length src) in
  Ok (take (Z.to_nat pos) out ++ take n src ++ drop n dst, Z.of_nat n).

(** [encbuf.toBytes]: its loop over the heads, then the trailing string data. *)
Fixpoint toBytes_loop (s : bytes) (heads : list listhead) (out : bytes) (strpos pos : Z)
  : result RlpError (bytes * Z * Z) :=
  match heads with
  | [] => Ok (out, strpos, pos)
  | head :: heads =>
      let! src := or_panic (slice s strpos (offset head)) in
      let! (out, n) := copy_at out pos src in
      let pos := pos + n in
      let strpos := strpos + n in
      let! buf := or_panic (slice out pos (zlen out)) in
      let! (enc, buf) := head_encode head buf in
      toBytes_loop s heads (take (Z.to_nat pos) out ++ buf) strpos (pos + zlen enc)
  end.

Definition toBytes (w : encbuf) : result RlpError bytes :=
  let out := replicate (Z.to_nat (encsize w)) 0 in
  let! (out, strpos, pos) := toBytes_loop (str w) (lheads w) out 0 0 in
  let! src := or_panic (slice (str w) strpos (zlen (str w))) in
  let! (out, _) := copy_at out pos src in
  Ok out.

(** * Writers *)
Definition writeUint (i : Z) (w : encbuf) : result RlpError encbuf :=
  if i =? 0 then Ok (appendStr [128] w)
  else if i <? 128 then Ok (appendStr [u8 i] w)
  else
    match sizebuf w with
    | [] => Panic
    | _ :: sb =>
        let! (sb, s) := putint sb i in
        let sb := u8 (128 + u8 s) :: sb in
        let! h := or_panic (slice sb 0 (s + 1)) in
        Ok (appendStr h (EncBuf (str w) (lheads w) (lhsize w) sb))
    end.

Definition writeBool (b : bool) (w : encbuf) : result RlpError encbuf :=
  Ok (appendStr [if b then 1 else 128] w).

Definition writeBigInt (i : Z) (w : encbuf) : result RlpError encbuf :=
  if i <? 0 then Err errNegativeBigInt
  else if i =? 0 then Ok (appendStr [128] w)
  else encodeString (big_bytes i) w.

(** [writeString] has its own copy of [encodeString]'s test. *)
Definition writeString (s : bytes) (w : encbuf) : result RlpError encbuf :=
  match s with
  | [x] => if x <=? 127 then Ok (appendStr [x] w)
           else rmap (appendStr s) (encodeStringHeader (zlen s) w)
  | _ => rmap (appendStr s) (encodeStringHeader (zlen s) w)
  end.

Definition emptyList (w : encbuf) : result RlpError encbuf :=
  let '(lh, w) := list_start w in listEnd lh w.

(** The nil-pointer writers of [makePtrWriter]: by the element type, and for the
    default case the element type's writer on its zero value. *)
Fixpoint nilfunc (e : typ) (w : encbuf) : result RlpError encbuf :=
  match e with
  | TArray _ e' => if isByte e' then Ok (appendStr [128] w) else emptyList w
  | TStruct _ => emptyList w
  | TRawValue => Ok (appendStr [] w)
  | TInterface => Ok (appendStr [192] w)
  | TBigInt => writeBigInt 0 w
  | TUint _ => writeUint 0 w
  | TBool => writeBool false w
  | TString => writeString [] w
  | TSlice e' => if isByte e' then encodeString [] w else emptyList w
  | TPtr e' => match e' with TBigInt => Ok (appendStr [128] w) | _ => nilfunc e' w end
  | TOther => Panic
  end.

(** [makeWriter]: the writer of a type (with the tag [tail] of a struct field)
    applied to a value.  A value that is not of the type panics, as [reflect]
    does. *)
Fixpoint writer (v : val) (t : typ) (tl : bool) (w : encbuf) {struct v} : result RlpError encbuf :=
  match t with
  | TRawValue => match v with VBytes b => Ok (appendStr b w) | _ => Panic end
  | TInterface =>
      match v with
      | VNil => Ok (appendStr [192] w)
      | VIface t' v' =>
          match genTypeInfo t' with Some e => Err e | None => writer v' t' false w end
      | _ => Panic
      end
  | TPtr TBigInt =>
      match v with
      | VNil => Ok (appendStr [128] w)
      | VPtr (VBig i) => writeBigInt i w
      | _ => Panic
      end
  | TBigInt => match v with VBig i => writeBigInt i w | _ => Panic end
  | TUint _ => match v with VUint i => writeUint i w | _ => Panic end
  | TBool => match v with VBool b => writeBool b w | _ => Panic end
  | TString => match v with VBytes b => writeString b w | _ => Panic end
  | TSlice e | TArray _ e =>
      if isByte e then match v with VBytes b => encodeString b w | _ => Panic end
      else
        match v with
        | VList l =>
            let elems :=
              fix elems (l : list val) (w : encbuf) : result RlpError encbuf :=
                match l with
                | [] => Ok w
                | x :: l => let! w := writer x e false w in elems l w
                end in
            if tl then elems l w
            else
              let '(lh, w) := list_start w in
              let! w := elems l w in
              listEnd lh w
        | _ => Panic
        end
  | TStruct fs =>
      match v with
      | VList l =>
          let '(lh, w) := list_start w in
          let! w :=
            (fix fields (l : list val) (fs : list (typ * tags)) (w : encbuf)
               : result RlpError encbuf :=
               match l, fs with
               | [], [] => Ok w
               | x :: l, (ft, fts) :: fs =>
                   let! w := writer x ft (tail fts) w in fields l fs w
               | _, _ => Panic
               end) l fs w in
          listEnd lh w
      | _ => Panic
      end
  | TPtr e =>
      match v with VNil => nilfunc e w | VPtr v' => writer v' e false w | _ => Panic end
  | TOther => Panic
  end.

(** [encbuf.encode] and [EncodeToBytes], with the buffer the pool hands out. *)
Definition encode (t : typ) (v : val) (w : encbuf) : result RlpError encbuf :=
  match genTypeInfo t with Some e => Err e | None => writer v t false w end.

Definition EncodeToBytes (pooled : encbuf) (t : typ) (v : val) : result RlpError bytes :=
  let! w := encode t v (reset pooled) in toBytes w.

(** * Reference definition of RLP *)
Definition enc_head (smalltag largetag size : Z) : bytes :=
  if size <? 56 then [smalltag + size]
  else (largetag + Z.of_nat (bytelen size)) :: big_bytes size.

Definition enc_string (b : bytes) : bytes :=
  match b with
  | [x] => if x <=? 127 then [x] else enc_head 128 183 1 ++ b
  | _ => enc_head 128 183 (zlen b) ++ b
  end.

Definition enc_list (payload : bytes) : bytes :=
  enc_head 192 247 (zlen payload) ++ payload.

(** Unsigned integers are strings of their minimal big-endian bytes. *)
Definition enc_uint (i : Z) : bytes := enc_string (big_bytes i).

Fixpoint enc_nil (e : typ) : result RlpError bytes :=
  match e with
  | TArray _ e' => Ok (if isByte e' then enc_string [] else enc_list [])
  | TStruct _ => Ok (enc_list [])
  | TRawValue => Ok []
  | TInterface => Ok (enc_list [])
  | TBigInt | TUint _ | TBool | TString => Ok (enc_string [])
  | TSlice e' => Ok (if isByte e' then enc_string [] else enc_list [])
  | TPtr e' => match e' with TBigInt => Ok (enc_string []) | _ => enc_nil e' end
  | TOther => Panic
  end.

(** The encoding of a value, by recursion on it; [tl]: the elements of a slice
    tagged [tail] stand without a list head. *)
Fixpoint enc_val (v : val) (t : typ) (tl : bool) {struct v} : result RlpError bytes :=
  match t with
  | TRawValue => match v with VBytes b => Ok b | _ => Panic end
  | TInterface =>
      match v with
      | VNil => Ok (enc_list [])
      | VIface t' v' =>
          match genTypeInfo t' with Some e => Err e | None => enc_val v' t' false end
      | _ => Panic
      end
  | TPtr TBigInt =>
      match v with
      | VNil => Ok (enc_string [])
      | VPtr (VBig i) => if i <? 0 then Err errNegativeBigInt else Ok (enc_uint i)
      | _ => Panic
      end
  | TBigInt =>
      match v with
      | VBig i => if i <? 0 then Err errNegativeBigInt else Ok (enc_uint i)
      | _ => Panic
      end
  | TUint _ => match v with VUint i => Ok (enc_uint i) | _ => Panic end
  | TBool => match v with VBool b => Ok (enc_uint (if b then 1 else 0)) | _ => Panic end
  | TString => match v with VBytes b => Ok (enc_string b) | _ => Panic end
  | TSlice e | TArray _ e =>
      if isByte e then match v with VBytes b => Ok (enc_string b) | _ => Panic end
      else
        match v with
        | VList l =>
            let! p :=
              (fix elems (l : list val) : result RlpError bytes :=
                 match l with
                 | [] => Ok []
                 | x :: l => let! b := enc_val x e false in rmap (app b) (elems l)
                 end) l in
            Ok (if tl then p else enc_list p)
        | _ => Panic
        end
  | TStruct fs =>
      match v with
      | VList l =>
          let! p :=
            (fix fields (l : list val) (fs : list (typ * tags)) : result RlpError bytes :=
               match l, fs with
               | [], [] => Ok []
               | x :: l, (ft, fts) :: fs =>
                   let! b := enc_val x ft (tail fts) in rmap (app b) (fields l fs)
               | _, _ => Panic
               end) l fs in
          Ok (enc_list p)
      | _ => Panic
      end
  | TPtr e =>
      match v with VNil => enc_nil e | VPtr v' => enc_val v' e false | _ => Panic end
  | TOther => Panic
  end.

(** ** Integers *)
Lemma shiftr_byte i k : 0 <= k -> u8 (Z.shiftr i (8 * k)) = (i / 256 ^ k) mod 256.
Proof. intros. unfold u8. by rewrite Z.shiftr_div_pow2, pow256_2 by lia. Qed.

Lemma stores_ok b vs :
  (length vs <= length b)%nat -> stores b vs = Ok (vs ++ drop (length vs) b).
Proof.
  revert b; induction vs as [|v vs IH]; intros [|x b] Hl; simpl in *; try done; [lia|].
  by rewrite IH by lia.
Qed.

(** [putint] writes the minimal big-endian form, whatever the buffer held. *)
Lemma putint_spec b i :
  1 <= i < 2 ^ 64 -> (bytelen i <= length b)%nat ->
  putint b i = Ok (big_bytes i ++ drop (bytelen i) b, Z.of_nat (bytelen i)).
Proof.
  intros Hi Hb. unfold putint, big_bytes. rewrite Z.abs_eq by lia.
  repeat case_if.
  all: match goal with |- context [stores _ ?l] =>
         let n := eval cbv in (length l) in
         assert (bytelen i = n) as Hn
           by (apply Nat2Z.inj; apply bytelen_unique; lia)
       end; rewrite Hn in Hb |- *.
  all: rewrite stores_ok by (simpl; lia); simpl length; simpl rmap; f_equal; f_equal.
  all: f_equal; rewrite ?Z_to_be_S; cbn [Z_to_be]; rewrite <-?shiftr_byte by lia; done.
Qed.

Lemma putint_ok b i : (8 <= length b)%nat -> exists b' n,
  putint b i = Ok (b', n) /\ length b' = length b /\ 1 <= n <= 8.
Proof.
  intros Hb. unfold putint. repeat case_if; rewrite stores_ok by (simpl; lia);
    cbv [rmap rbind].
  all: do 2 eexists; (split; [reflexivity|split; [|lia]]).
  all: rewrite length_app, length_drop; simpl length; lia.
Qed.

Lemma bytelen_step i : 256 <= i -> bytelen i = S (bytelen (i / 256)).
Proof.
  intros Hi. assert (1 <= i / 256) by (apply Z.div_le_lower_bound; lia).
  pose proof (bytelen_spec (i / 256) ltac:(lia)) as [Hlo Hhi].
  destruct (bytelen (i / 256)) as [|k] eqn:Ek; [simpl in Hhi; lia|].
  apply Nat2Z.inj, bytelen_unique; [lia|].
  replace (Z.of_nat (S (S k))) with (2 + Z.of_nat k) by lia.
  replace (Z.of_nat (S k)) with (1 + Z.of_nat k) in * by lia.
  replace (1 + Z.of_nat k - 1) with (Z.of_nat k) in Hlo by lia.
  replace (2 + Z.of_nat k - 1) with (1 + Z.of_nat k) by lia.
  rewrite !Z.pow_add_r in * by lia. change (256 ^ 2) with (256 * 256). rewrite Z.pow_1_r in *.
  pose proof (Z.div_mod i 256 ltac:(lia)). pose proof (Z.mod_pos_bound i 256 ltac:(lia)).
  nia.
Qed.

Lemma bytelen_byte i : 1 <= i < 256 -> bytelen i = 1%nat.
Proof. intros. apply Nat2Z.inj, bytelen_unique; lia. Qed.

Lemma intsize_loop_spec fuel sz i :
  1 <= i < 256 ^ Z.of_nat fuel ->
  intsize_loop fuel sz i = sz + Z.of_nat (bytelen i) - 1.
Proof.
  revert sz i; induction fuel as [|fuel IH]; intros sz i Hi; [simpl in Hi; lia|].
  cbn [intsize_loop]. rewrite Z.shiftr_div_pow2 by lia. change (2 ^ 8) with 256.
  case_if.
  - rewrite bytelen_byte; [lia|]. pose proof (Z.div_mod i 256 ltac:(lia)).
    pose proof (Z.mod_pos_bound i 256 ltac:(lia)). lia.
  - assert (256 <= i). { destruct (decide (i < 256)); [|lia]. rewrite Z.div_small in E; lia. }
    assert (1 <= i / 256) by (apply Z.div_le_lower_bound; lia).
    rewrite (bytelen_step i) by done. rewrite IH; [lia|]. split; [done|].
    apply Z.div_lt_upper_bound; [lia|].
    replace (Z.of_nat (S fuel)) with (1 + Z.of_nat fuel) in Hi by lia.
    rewrite Z.pow_add_r in Hi by lia. lia.
Qed.

Lemma intsize_spec i : 1 <= i < 2 ^ 64 -> intsize i = Z.of_nat (bytelen i).
Proof. intros. unfold intsize. rewrite intsize_loop_spec; [lia|]. split; [lia|]. simpl. lia. Qed.

Lemma zlen_big_bytes i : 0 <= i -> zlen (big_bytes i) = Z.of_nat (bytelen i).
Proof. intros. unfold big_bytes. by rewrite zlen_Z_to_be, Z.abs_eq. Qed.

Lemma bytelen_u64 i : 0 <= i < 2 ^ 64 -> 0 <= Z.of_nat (bytelen i) <= 8.
Proof. intros. split; [lia|]. apply bytelen_upper; [|lia]. change (256 ^ 8) with (2 ^ 64). lia. Qed.

Lemma bytelen_ge1 i : 1 <= i -> 1 <= Z.of_nat (bytelen i).
Proof.
  intros. pose proof (bytelen_spec i ltac:(lia)). destruct (bytelen i); simpl in *; lia.
Qed.

(** ** Heads *)
Lemma zlen_enc_head st lt sz :
  0 <= sz < 2 ^ 64 -> zlen (enc_head st lt sz) = headsize sz.
Proof.
  intros. unfold enc_head, headsize. case_if; [done|].
  by rewrite zlen_cons, zlen_big_bytes, intsize_spec by lia.
Qed.

Lemma headsize_bound sz : 0 <= sz < 2 ^ 64 -> 1 <= headsize sz <= 9.
Proof.
  intros. unfold headsize. case_if; [lia|].
  rewrite intsize_spec by lia. pose proof (bytelen_u64 sz ltac:(lia)). lia.
Qed.

Lemma puthead_spec buf st lt sz :
  0 <= sz < 2 ^ 64 -> 0 <= st <= 200 -> 0 <= lt <= 247 ->
  headsize sz <= zlen buf ->
  puthead buf st lt sz =
    Ok (enc_head st lt sz ++ drop (length (enc_head st lt sz)) buf, headsize sz).
Proof.
  intros Hsz Hst Hlt Hbuf. unfold puthead, enc_head. unfold headsize in *. case_if.
  - rewrite stores_ok by (unfold zlen in Hbuf; simpl; lia). simpl.
    rewrite (u8_small sz), u8_small by (unfold is_byte; lia). done.
  - rewrite intsize_spec in * by lia. destruct buf as [|b0 rest].
    { unfold zlen in Hbuf; simpl in Hbuf. lia. }
    rewrite zlen_cons in Hbuf. unfold zlen in Hbuf.
    rewrite putint_spec by lia. cbv [rbind].
    pose proof (bytelen_u64 sz ltac:(lia)).
    rewrite (u8_small (Z.of_nat _)), u8_small by (unfold is_byte; lia).
    cbn [length app drop]. unfold big_bytes at 3. rewrite length_Z_to_be, Z.abs_eq by lia.
    f_equal. f_equal. lia.
Qed.

Lemma puthead_ok buf st lt sz : (9 <= length buf)%nat -> exists buf' n,
  puthead buf st lt sz = Ok (buf', n) /\ length buf' = length buf /\ 1 <= n <= 9.
Proof.
  intros Hb. unfold puthead. case_if.
  - rewrite stores_ok by (simpl; lia). cbv [rbind]. do 2 eexists; split; [done|].
    rewrite length_app, length_drop. simpl. lia.
  - destruct buf as [|b0 rest]; [simpl in Hb; lia|]. simpl in Hb.
    destruct (putint_ok rest sz ltac:(lia)) as (b' & n & -> & Hl & Hn). cbv [rbind].
    do 2 eexists; split; [done|]. simpl. lia.
Qed.

(** ** What a buffer holds *)

(** The bytes a buffer stands for from position [p] of its string data. *)
Fixpoint render (s : bytes) (heads : list listhead) (p : nat) : bytes :=
  match heads with
  | [] => drop p s
  | h :: hs =>
      take (Z.to_nat (offset h) - p) (drop p s) ++ enc_head 192 247 (size h)
      ++ render s hs (Z.to_nat (offset h))
  end.

(** Heads in order, inside the string data, and of a length that fits. *)
Fixpoint ordered (s : bytes) (heads : list listhead) (p : nat) : Prop :=
  match heads with
  | [] => (p <= length s)%nat
  | h :: hs =>
      Z.of_nat p <= offset h /\ 0 <= size h < 2 ^ 64 /\ ordered s hs (Z.to_nat (offset h))
  end.

(** [frag base s hs b]: string data [s] placed at [base] with heads [hs] stands
    for [b]. *)
Inductive frag : nat -> bytes -> list listhead -> bytes -> Prop :=
| frag_str base s : frag base s [] s
| frag_app base s1 h1 b1 s2 h2 b2 :
    frag base s1 h1 b1 -> frag (base + length s1) s2 h2 b2 ->
    frag base (s1 ++ s2) (h1 ++ h2) (b1 ++ b2)
| frag_list base s h b :
    frag base s h b -> zlen b < 2 ^ 64 ->
    frag base s (ListHead (Z.of_nat base) (zlen b) :: h) (enc_list b).

Lemma ordered_le s hs p : ordered s hs p -> (p <= length s)%nat.
Proof.
  revert p; induction hs as [|h hs IH]; intros p; simpl; [done|].
  intros (?&_&?%IH). lia.
Qed.

Lemma render_split s hs p q :
  (p <= q)%nat -> ordered s hs q -> render s hs p = take (q - p) (drop p s) ++ render s hs q.
Proof.
  intros Hpq Ho. pose proof (ordered_le _ _ _ Ho).
  destruct hs as [|h hs]; simpl in *.
  - replace q with (p + (q - p))%nat at 2 by lia. by rewrite <-drop_drop, take_drop.
  - destruct Ho as (Hq & _ & _). rewrite (app_assoc (take (q - p) _)). f_equal.
    replace (Z.to_nat (offset h) - p)%nat
      with ((q - p) + (Z.to_nat (offset h) - q))%nat by lia.
    rewrite <-take_take_drop. f_equal. rewrite drop_drop. by replace (p + (q - p))%nat with q by lia.
Qed.

Lemma ordered_mono s hs p q : (p <= q)%nat -> ordered s hs q -> ordered s hs p.
Proof. destruct hs as [|h hs]; simpl; intros; [lia|]. intuition lia. Qed.

(** A fragment renders to its bytes in any context. *)
Lemma render_frag base s h b :
  frag base s h b -> forall pre post rh p,
  length pre = base -> (p <= base)%nat ->
  ordered (pre ++ s ++ post) rh (base + length s) ->
  ordered (pre ++ s ++ post) (h ++ rh) p /\
  render (pre ++ s ++ post) (h ++ rh) p =
    drop p pre ++ b ++ render (pre ++ s ++ post) rh (base + length s).
Proof.
  induction 1 as [base s|base s1 h1 b1 s2 h2 b2 _ IH1 _ IH2|base s h b _ IH Hb];
    intros pre post rh p Hpre Hp Ho.
  - simpl. split; [eapply ordered_mono; [|done]; lia|].
    rewrite (render_split _ _ p (base + length s)) by (done || lia).
    rewrite drop_app_le by lia. rewrite (app_assoc (drop p pre)), (app_assoc (drop p pre)).
    rewrite take_app_le by (rewrite length_app, length_drop; lia).
    rewrite take_ge by (rewrite length_app, length_drop; lia). done.
  - rewrite length_app in Ho. rewrite Nat.add_assoc in Ho.
    assert (Ho' := Ho). rewrite <-(app_assoc s1), (app_assoc pre) in Ho'.
    destruct (IH2 (pre ++ s1) post rh (base + length s1)%nat) as [Ho2 Hr2];
      [rewrite length_app; lia|lia|done|].
    rewrite <-!app_assoc in Ho2, Hr2.
    destruct (IH1 pre (s2 ++ post) (h2 ++ rh) p) as [Ho1 Hr1]; [done|done|done|].
    rewrite <-!app_assoc, length_app, Nat.add_assoc. split; [done|].
    rewrite Hr1, Hr2, (drop_ge (pre ++ s1)) by (rewrite length_app; lia). by rewrite app_nil_l.
  - destruct (IH pre post rh base) as [Ho1 Hr1]; [done|lia|done|].
    cbn [app render ordered offset size]. rewrite Nat2Z.id. split.
    { split; [lia|]. split; [pose proof (zlen_nonneg b); lia|done]. }
    rewrite Hr1, (drop_ge pre base) by lia. unfold enc_list. rewrite <-!app_assoc. f_equal.
    rewrite drop_app_le by lia.
    rewrite take_app_le by (rewrite length_drop; lia). by rewrite take_ge by (rewrite length_drop; lia).
Qed.

Lemma length_render_pos s hs p :
  ordered s hs p -> (length s - p <= length (render s hs p))%nat.
Proof.
  revert p; induction hs as [|h hs IH]; intros p; simpl; [rewrite length_drop; lia|].
  intros (Hp & _ & Ho). specialize (IH _ Ho). pose proof (ordered_le _ _ _ Ho).
  rewrite !length_app, length_take, length_drop. lia.
Qed.

(** ** [toBytes] *)
Lemma copy_at_app done rest src :
  (length src <= length rest)%nat ->
  copy_at (done ++ rest) (zlen done) src =
    Ok (done ++ src ++ drop (length src) rest, zlen src).
Proof.
  intros Hl. unfold copy_at. rewrite slice_to_end. cbn [or_panic rbind].
  rewrite Nat.min_r by done. unfold zlen. rewrite Nat2Z.id, take_app_length.
  by rewrite firstn_all.
Qed.

Lemma head_encode_spec h buf :
  0 <= size h < 2 ^ 64 -> headsize (size h) <= zlen buf ->
  let e := enc_head 192 247 (size h) in
  head_encode h buf = Ok (e, e ++ drop (length e) buf).
Proof.
  intros Hs Hb e. unfold head_encode. rewrite puthead_spec by (done || lia).
  cbn [rbind]. fold e. rewrite <-(zlen_enc_head 192 247) by done. fold e.
  pose proof (slice_app_mid [] e (drop (length e) buf)) as Hsl.
  rewrite zlen_nil, Z.add_0_l in Hsl. cbn [app] in Hsl. by rewrite Hsl.
Qed.

Lemma toBytes_loop_spec s heads p done rest :
  ordered s heads p -> length rest = length (render s heads p) ->
  (let! (out, strpos, pos) :=
     toBytes_loop s heads (done ++ rest) (Z.of_nat p) (zlen done) in
   let! src := or_panic (slice s strpos (zlen s)) in
   let! (out, _) := copy_at out pos src in Ok out)
  = Ok (done ++ render s heads p).
Proof.
  revert p done rest; induction heads as [|h heads IH]; intros p done rest Ho Hl.
  - simpl in Ho, Hl. cbn [toBytes_loop rbind].
    assert (slice s (Z.of_nat p) (zlen s) = Some (drop p s)) as ->.
    { apply slice_some. unfold zlen. repeat split; try lia. rewrite Nat2Z.id, take_ge; [done|].
      rewrite length_drop. lia. }
    cbn [or_panic rbind]. rewrite copy_at_app by lia. cbn [rbind].
    rewrite (drop_ge rest) by lia. by rewrite app_nil_r.
  - cbn [toBytes_loop]. simpl in Ho. destruct Ho as (Hp & Hs & Ho).
    pose proof (ordered_le _ _ _ Ho).
    set (src := take (Z.to_nat (offset h) - p) (drop p s)).
    assert (slice s (Z.of_nat p) (offset h) = Some src) as ->.
    { apply slice_some. unfold zlen. repeat split; try lia. rewrite Nat2Z.id.
      unfold src. f_equal. lia. }
    cbn [or_panic rbind]. cbn [render] in Hl. fold src in Hl. rewrite !length_app in Hl.
    assert (length src = Z.to_nat (offset h) - p)%nat as Hsrc
      by (unfold src; rewrite length_take, length_drop; lia).
    rewrite copy_at_app by lia. cbn [rbind].
    rewrite (app_assoc done). rewrite <-zlen_app, slice_to_end. cbn [or_panic rbind].
    pose proof (zlen_enc_head 192 247 (size h) Hs) as Hhs.
    rewrite head_encode_spec by (done || (rewrite <-Hhs; unfold zlen; rewrite length_drop; lia)).
    cbn [rbind]. rewrite to_nat_zlen, take_app_length, <-zlen_app.
    rewrite (app_assoc (done ++ src)).
    replace (Z.of_nat p + zlen src) with (Z.of_nat (Z.to_nat (offset h))) by (unfold zlen; lia).
    rewrite IH by (done || (rewrite !length_drop; lia)).
    cbn [render]. fold src. by rewrite <-!app_assoc.
Qed.

Lemma toBytes_frag w b :
  frag 0 (str w) (lheads w) b -> zlen b = encsize w -> toBytes w = Ok b.
Proof.
  intros Hf Hsz. destruct (render_frag _ _ _ _ Hf [] [] [] 0%nat) as [Ho Hr]; [done|lia|simpl;
    rewrite app_nil_r; lia|].
  simpl in Ho, Hr. rewrite !app_nil_r in *. rewrite drop_ge, app_nil_r in Hr by lia.
  etransitivity; [apply (toBytes_loop_spec (str w) (lheads w) 0 []
    (replicate (Z.to_nat (encsize w)) 0)); [done|]|by rewrite Hr].
  rewrite length_replicate, Hr, <-Hsz. unfold zlen. lia.
Qed.

(** ** Writers *)

(** [w'] is [w] with the encoding [b] appended. *)
Definition wrote (w w' : encbuf) (b : bytes) : Prop :=
  exists s hs, str w' = str w ++ s /\ lheads w' = lheads w ++ hs /\ length (sizebuf w') = 9%nat /\
    (zlen b < 2 ^ 64 ->
     lhsize w' = lhsize w + (zlen b - zlen s) /\ frag (length (str w)) s hs b).

(** A writer run on [w] does what the reference says, errors included. *)
Definition agree (w : encbuf) (r : result RlpError encbuf) (e : result RlpError bytes) : Prop :=
  match e with
  | Ok b => exists w', r = Ok w' /\ wrote w w' b
  | Err x => r = Err x
  | Panic => r = Panic
  end.

Lemma wrote_append w sb s :
  length sb = 9%nat -> wrote w (EncBuf (str w ++ s) (lheads w) (lhsize w) sb) s.
Proof.
  intros. exists s, []. rewrite app_nil_r. repeat split; try done; [simpl; lia|constructor].
Qed.

Lemma agree_append w s : length (sizebuf w) = 9%nat -> agree w (Ok (appendStr s w)) (Ok s).
Proof. intros. eexists; split; [done|]. by apply wrote_append. Qed.
#[local] Hint Resolve agree_append : go.

Lemma wrote_refl w : length (sizebuf w) = 9%nat -> wrote w w [].
Proof.
  intros. destruct w as [s hs n sb]. pose proof (wrote_append (EncBuf s hs n sb) sb []) as H'.
  simpl in H'. rewrite app_nil_r in H'. auto.
Qed.

Lemma wrote_trans w w1 w2 b1 b2 : wrote w w1 b1 -> wrote w1 w2 b2 -> wrote w w2 (b1 ++ b2).
Proof.
  intros (s1&h1&Hs1&Hh1&_&H1) (s2&h2&Hs2&Hh2&Hsb&H2).
  exists (s1 ++ s2), (h1 ++ h2). rewrite Hs2, Hs1, Hh2, Hh1, <-!app_assoc.
  split_and!; try done. intros Hb. rewrite !zlen_app in *.
  pose proof (zlen_nonneg b1). pose proof (zlen_nonneg b2).
  destruct H1 as [Hl1 Hf1]; [lia|]. destruct H2 as [Hl2 Hf2]; [lia|].
  split; [lia|]. apply frag_app; [done|]. by rewrite Hs1, length_app in Hf2.
Qed.

Lemma wrote_sizebuf w w' b : wrote w w' b -> length (sizebuf w') = 9%nat.
Proof. by intros (?&?&?&?&?&?). Qed.
#[local] Hint Resolve wrote_sizebuf : go.

(** A scratch head of the form used by [encodeStringHeader] and [writeUint]. *)
Lemma scratch_head sb i tag :
  length sb = 8%nat -> 0 <= tag <= 183 -> exists sb' h n,
  putint sb i = Ok (sb', n) /\ length sb' = 8%nat /\
  slice (u8 (tag + u8 n) :: sb') 0 (n + 1) = Some h /\
  (1 <= i < 2 ^ 64 -> h = (tag + Z.of_nat (bytelen i)) :: big_bytes i).
Proof.
  intros Hsb Htag. destruct (putint_ok sb i ltac:(lia)) as (sb' & n & Hp & Hl & Hn).
  exists sb'. eexists _, n. split_and!; [done|lia| |].
  - apply slice_some. unfold zlen. cbn [length]. rewrite Hl, Hsb. split_and!; [lia..|done].
  - intros Hi. pose proof (bytelen_u64 i ltac:(lia)). rewrite putint_spec in Hp by lia.
    injection Hp as <- <-.
    rewrite (u8_small (Z.of_nat _)), u8_small by (unfold is_byte; lia).
    replace (Z.to_nat (Z.of_nat (bytelen i) + 1 - 0)) with (S (bytelen i)) by lia.
    change (Z.to_nat 0) with 0%nat. cbn [drop take]. f_equal.
    rewrite take_app_le; rewrite ?take_ge; try done;
      unfold big_bytes; rewrite Z.abs_eq, length_Z_to_be by lia; lia.
Qed.

Lemma encodeString_agree b w :
  length (sizebuf w) = 9%nat -> agree w (encodeString b w) (Ok (enc_string b)).
Proof.
  intros Hsb.
  assert (agree w (rmap (appendStr b) (encodeStringHeader (zlen b) w))
            (Ok (enc_head 128 183 (zlen b) ++ b))) as Hlong.
  { unfold encodeStringHeader, enc_head. pose proof (zlen_nonneg b). case_if.
    - rewrite (u8_small (zlen b)), u8_small by (unfold is_byte; lia).
      eexists; split; [reflexivity|]. unfold appendStr. cbn [str lheads lhsize sizebuf].
      rewrite <-app_assoc. by apply wrote_append.
    - destruct (sizebuf w) as [|x sb] eqn:Esb; [done|]. simpl in Hsb.
      destruct (scratch_head sb (zlen b) 183 ltac:(lia) ltac:(lia))
        as (sb' & h & n & -> & Hl & Hsl & Hh).
      cbn [rbind rmap]. rewrite Hsl. cbn [or_panic rbind rmap].
      eexists; split; [reflexivity|]. unfold appendStr. cbn [str lheads lhsize sizebuf].
      exists (h ++ b), []. cbn [str lheads lhsize sizebuf]. rewrite <-app_assoc, app_nil_r.
      split_and!; [done..|simpl; lia|]. intros Hb. rewrite zlen_app in Hb.
      match type of Hb with zlen ?x + _ < _ => pose proof (zlen_nonneg x) end.
      rewrite Hh by lia. split; [lia|]. apply frag_str. }
  unfold encodeString, enc_string. destruct b as [|x [|y b]]; [done| |done].
  case_if; [by apply agree_append|done].
Qed.

Lemma writeString_encodeString b w : writeString b w = encodeString b w.
Proof. done. Qed.

Lemma enc_uint_0 : enc_uint 0 = [128].
Proof. done. Qed.

Lemma enc_uint_small i : 1 <= i < 128 -> enc_uint i = [i].
Proof.
  intros. unfold enc_uint, enc_string, big_bytes. rewrite Z.abs_eq, bytelen_byte by lia.
  cbn [Z_to_be app]. rewrite Z.mod_small by lia. case_if; [done|lia].
Qed.

Lemma enc_uint_large i :
  128 <= i < 2 ^ 64 -> enc_uint i = (128 + Z.of_nat (bytelen i)) :: big_bytes i.
Proof.
  intros Hi. unfold enc_uint. pose proof (zlen_big_bytes i ltac:(lia)) as Hz.
  pose proof (bytelen_u64 i ltac:(lia)). pose proof (be_to_Z_big_bytes i ltac:(lia)) as Hbe.
  assert (enc_head 128 183 (zlen (big_bytes i)) = [128 + Z.of_nat (bytelen i)]) as Hh.
  { unfold enc_head. rewrite Hz. case_if; [done|lia]. }
  unfold enc_string. destruct (big_bytes i) as [|x [|y l]] eqn:Eb.
  - change (be_to_Z []) with 0 in Hbe. lia.
  - rewrite be_to_Z_single in Hbe. case_if; [lia|]. change 1 with (zlen [x]). by rewrite Hh.
  - by rewrite Hh.
Qed.

Lemma writeUint_agree i w :
  length (sizebuf w) = 9%nat -> is_u64 i -> agree w (writeUint i w) (Ok (enc_uint i)).
Proof.
  unfold is_u64. intros Hsb Hi. unfold writeUint. case_if.
  { subst. by apply agree_append. }
  case_if.
  { rewrite u8_small, enc_uint_small by (unfold is_byte; lia). by apply agree_append. }
  destruct (sizebuf w) as [|x sb]; [done|]. simpl in Hsb.
  destruct (scratch_head sb i 128 ltac:(lia) ltac:(lia)) as (sb' & h & n & -> & Hl & Hsl & Hh).
  cbn [rbind]. rewrite Hsl. cbn [or_panic rbind]. rewrite enc_uint_large, <-Hh by lia.
  eexists; split; [reflexivity|]. by apply (wrote_append w (u8 (128 + u8 n) :: sb')); simpl; lia.
Qed.

Lemma writeBigInt_agree i w :
  length (sizebuf w) = 9%nat ->
  agree w (writeBigInt i w) (if i <? 0 then Err errNegativeBigInt else Ok (enc_uint i)).
Proof.
  intros. unfold writeBigInt. case_if; [done|]. case_if.
  - subst. by apply agree_append.
  - by apply encodeString_agree.
Qed.

(** Lists: [list_start], a payload, then [listEnd]. *)
Lemma list_agree w r p :
  length (sizebuf w) = 9%nat -> agree (list_start w).2 r p ->
  agree w (rbind r (listEnd (list_start w).1)) (rmap enc_list p).
Proof.
  intros Hsb Hag. destruct p as [p|e|]; simpl in *; [|by subst..].
  destruct Hag as (w' & -> & s & hs & Hs & Hh & Hsb' & Hf). cbn [rbind].
  unfold listEnd. rewrite Hh. cbn [lheads]. rewrite <-app_assoc. cbn [app].
  rewrite list_lookup_middle by done. cbn [or_panic rbind offset size].
  eexists; split; [reflexivity|].
  set (sz := encsize w' - zlen (str w) - lhsize w).
  exists s, (ListHead (zlen (str w)) sz :: hs). cbn [str lheads lhsize sizebuf].
  split_and!; [done| |done|].
  { rewrite insert_app_r_alt, Nat.sub_diag by lia. done. }
  intros Hlen. unfold enc_list in Hlen. rewrite zlen_app in Hlen.
  pose proof (zlen_nonneg (enc_head 192 247 (zlen p))). pose proof (zlen_nonneg p).
  destruct Hf as [Hlh Hfr]; [lia|]. cbn [str lhsize] in *.
  assert (sz = zlen p) as Hsz by (unfold sz, encsize; rewrite Hs, Hlh, zlen_app; lia).
  rewrite Hsz. split; [|by apply frag_list; [|lia]].
  unfold enc_list. rewrite zlen_app, zlen_enc_head by lia. unfold headsize.
  case_if; lia.
Qed.

Lemma emptyList_agree w :
  length (sizebuf w) = 9%nat -> agree w (emptyList w) (Ok (enc_list [])).
Proof.
  intros Hsb. apply (list_agree w (Ok (list_start w).2) (Ok [])); [done|].
  eexists; split; [done|]. by apply wrote_refl.
Qed.

Lemma nilfunc_agree e w :
  length (sizebuf w) = 9%nat -> agree w (nilfunc e w) (enc_nil e).
Proof.
  intros Hsb. induction e; cbn [nilfunc enc_nil];
    try by apply agree_append.
  - by apply encodeString_agree.
  - case_if; [by apply encodeString_agree|by apply emptyList_agree].
  - case_if; [by apply agree_append|by apply emptyList_agree].
  - by apply emptyList_agree.
  - destruct e; try done; by apply agree_append.
  - done.
Qed.

(** One element after another: the step shared by slices and structs. *)
Lemma agree_seq w r e k k' :
  agree w r e -> (forall w1, length (sizebuf w1) = 9%nat -> agree w1 (k w1) k') ->
  agree w (rbind r k) (rbind e (fun b => rmap (app b) k')).
Proof.
  destruct e as [b|x|]; simpl; [|by intros ->..].
  intros (w1 & -> & Hw1) Hk. specialize (Hk w1 ltac:(eauto with go)). simpl.
  destruct k' as [b'|x|]; simpl in *; [|done..].
  destruct Hk as (w2 & -> & Hw2). eexists; split; [done|]. by eapply wrote_trans.
Qed.

Definition writer_ok (v : val) : Prop :=
  forall t tl w, length (sizebuf w) = 9%nat -> agree w (writer v t tl w) (enc_val v t tl).

Lemma elems_agree l e w :
  Forall writer_ok l -> length (sizebuf w) = 9%nat ->
  agree w
    ((fix elems (l : list val) (w : encbuf) : result RlpError encbuf :=
        match l with
        | [] => Ok w
        | x :: l => let! w := writer x e false w in elems l w
        end) l w)
    ((fix elems (l : list val) : result RlpError bytes :=
        match l with
        | [] => Ok []
        | x :: l => let! b := enc_val x e false in rmap (app b) (elems l)
        end) l).
Proof.
  intros Hl. revert w; induction Hl as [|x l Hx _ IH]; intros w Hsb.
  - eexists; split; [done|]. by apply wrote_refl.
  - apply (agree_seq w); [by apply Hx|]. intros w1 Hw1. by apply IH.
Qed.

Lemma fields_agree l fs w :
  Forall writer_ok l -> length (sizebuf w) = 9%nat ->
  agree w
    ((fix fields (l : list val) (fs : list (typ * tags)) (w : encbuf)
        : result RlpError encbuf :=
        match l, fs with
        | [], [] => Ok w
        | x :: l, (ft, fts) :: fs =>
            let! w := writer x ft (tail fts) w in fields l fs w
        | _, _ => Panic
        end) l fs w)
    ((fix fields (l : list val) (fs : list (typ * tags)) : result RlpError bytes :=
        match l, fs with
        | [], [] => Ok []
        | x :: l, (ft, fts) :: fs =>
            let! b := enc_val x ft (tail fts) in rmap (app b) (fields l fs)
        | _, _ => Panic
        end) l fs).
Proof.
  intros Hl. revert fs w; induction Hl as [|x l Hx _ IH]; intros [|[ft fts] fs] w Hsb;
    [|done|done|].
  - eexists; split; [done|]. by apply wrote_refl.
  - apply (agree_seq w); [by apply Hx|]. intros w1 Hw1. by apply IH.
Qed.

Lemma writer_agree v : wf_val v -> writer_ok v.
Proof.
  induction v as [n|b|i|b|l IH| |v IH|t' v IH] using val_ind'; inversion_clear 1;
    intros t tl w Hsb.
  5: {
    assert (Forall writer_ok l) as Hl by (rewrite Forall_forall in *; eauto).
    destruct t as [ | | | | | |e|k e|fs|e| ]; cbn [writer enc_val]; try done.
    - case_if; [done|]. destruct tl.
      + pose proof (elems_agree l e w Hl Hsb) as He. revert He.
        match goal with |- agree _ _ ?x -> _ => by destruct x end.
      + apply list_agree; [done|]. by apply elems_agree.
    - case_if; [done|]. destruct tl.
      + pose proof (elems_agree l e w Hl Hsb) as He. revert He.
        match goal with |- agree _ _ ?x -> _ => by destruct x end.
      + apply list_agree; [done|]. by apply elems_agree.
    - apply list_agree; [done|]. by apply fields_agree.
    - by destruct e. }
  all: destruct t as [ | | | | | |e|k e|fs|e| ]; cbn [writer enc_val]; try done;
    try (by apply agree_append); try (by apply writeUint_agree);
    try (by apply writeBigInt_agree); try (by apply encodeString_agree);
    try (case_if; try done; by apply encodeString_agree).
  all: try (destruct e; done).
  - destruct b; [rewrite enc_uint_small by lia|]; by apply agree_append.
  - destruct e; try by apply nilfunc_agree. by apply agree_append.
  - destruct e; try by apply IH. destruct v; try done. by apply writeBigInt_agree.
  - destruct (genTypeInfo t'); [done|]. by apply IH.
Qed.

Lemma EncodeToBytes_enc pooled t v :
  length (sizebuf pooled) = 9%nat -> wf_val v -> genTypeInfo t = None ->
  (forall b, enc_val v t false = Ok b -> zlen b < 2 ^ 64) ->
  EncodeToBytes pooled t v = enc_val v t false.
Proof.
  intros Hsb Hv Ht Hlen. unfold EncodeToBytes, encode. rewrite Ht.
  pose proof (writer_agree v Hv t false (reset pooled) Hsb) as Ha.
  destruct (enc_val v t false) as [b|e|]; simpl in Ha; [|by rewrite Ha..].
  destruct Ha as (w' & -> & s & hs & Hs & Hh & _ & Hf). cbn [rbind].
  destruct (Hf (Hlen b eq_refl)) as [Hlh Hfr]. simpl in Hs, Hh, Hlh, Hfr. subst s hs.
  apply toBytes_frag; [done|]. unfold encsize. lia.
Qed.

(** The two-pass encoder ([encbuf] with its deferred list heads, run by
    [EncodeToBytes] on any buffer of the pool) produces exactly the recursive RLP
    encoding of the value, and fails exactly when that encoding is undefined, with
    the same error; in particular it never indexes outside its buffers. *)
Theorem EncodeToBytes_correct pooled t v :
  length (sizebuf pooled) = 9%nat -> wf_val v -> genTypeInfo t = None ->
  (forall b, enc_val v t false = Ok b -> zlen b < 2 ^ 64) ->
  EncodeToBytes pooled t v = enc_val v t false.
Proof. apply EncodeToBytes_enc. Qed.

Lemma EncodeToBytes_correct_witness :
  let t := TStruct [(TUint 64, noTags); (TSlice TInterface, Tags false true)] in
  let v := VList [VUint 1024; VList [VIface TString (VBytes [100; 111; 103]); VNil]] in
  EncodeToBytes newEncbuf t v = Ok [200; 130; 4; 0; 131; 100; 111; 103; 192].
Proof.
  intros t v. transitivity (enc_val v t false).
  - apply EncodeToBytes_correct; [reflexivity| |reflexivity|].
    + repeat constructor; by_decide.
    + intros b Hb. vm_compute in Hb. injection Hb as <-. by_compute.
  - by_compute.
Defined.
