(* ===== verification/RlpRaw.v ===== *)
(** rlp/raw.go: parsing of RLP heads in a byte slice ([readKind], [readSize]) and
    the splitters built on it.  Proved: they accept exactly the canonical
    encodings and never leave the slice. *)

From S2P Require Import Prelude RlpTypes RlpEncode.

(** [ListSize]. *)
Definition ListSize (contentSize : Z) : Z := u64 (headsize contentSize + contentSize).

(** [readSize]: a big-endian size of [slen] bytes at the start of [b]; the switch
    leaves [s] at zero for a [slen] outside 1..8.  [b[0]] is only read when
    [s >= 56], so with [slen >= 1]. *)
Definition readSize (b : bytes) (slen : Z) : result RlpError Z :=
  if zlen b <? slen then Err io_ErrUnexpectedEOF
  else
    let at_ i k := Z.shiftl (nth i b 0) k in
    let s :=
      match slen with
      | 1 => nth 0 b 0
      | 2 => Z.lor (at_ 0%nat 8) (nth 1 b 0)
      | 3 => Z.lor (Z.lor (at_ 0%nat 16) (at_ 1%nat 8)) (nth 2 b 0)
      | 4 => Z.lor (Z.lor (Z.lor (at_ 0%nat 24) (at_ 1%nat 16)) (at_ 2%nat 8)) (nth 3 b 0)
      | 5 => Z.lor (Z.lor (Z.lor (Z.lor (at_ 0%nat 32) (at_ 1%nat 24)) (at_ 2%nat 16))
               (at_ 3%nat 8)) (nth 4 b 0)
      | 6 => Z.lor (Z.lor (Z.lor (Z.lor (Z.lor (at_ 0%nat 40) (at_ 1%nat 32)) (at_ 2%nat 24))
               (at_ 3%nat 16)) (at_ 4%nat 8)) (nth 5 b 0)
      | 7 => Z.lor (Z.lor (Z.lor (Z.lor (Z.lor (Z.lor (at_ 0%nat 48) (at_ 1%nat 40))
               (at_ 2%nat 32)) (at_ 3%nat 24)) (at_ 4%nat 16)) (at_ 5%nat 8)) (nth 6 b 0)
      | 8 => Z.lor (Z.lor (Z.lor (Z.lor (Z.lor (Z.lor (Z.lor (at_ 0%nat 56) (at_ 1%nat 48))
               (at_ 2%nat 40)) (at_ 3%nat 32)) (at_ 4%nat 24)) (at_ 5%nat 16)) (at_ 6%nat 8))
               (nth 7 b 0)
      | _ => 0
      end in
    if (s <? 56) || (nth 0 b 0 =? 0) then Err ErrCanonSize else Ok s.

(** [readKind]: kind, tag size and content size of the first value. *)
Definition readKind (buf : bytes) : result RlpError (Kind * Z * Z) :=
  match buf with
  | [] => Err io_ErrUnexpectedEOF
  | b :: rest =>
      let! (k, tagsize, contentsize) :=
        if b <? 128 then Ok (Byte, 0, 1)
        else if b <? 184 then
          if (b - 128 =? 1) && (1 <? zlen buf) && (nth 1 buf 0 <? 128)
          then Err ErrCanonSize else Ok (String, 1, b - 128)
        else if b <? 192 then
          let! s := readSize rest (b - 183) in Ok (String, b - 183 + 1, s)
        else if b <? 248 then Ok (List, 1, b - 192)
        else let! s := readSize rest (b - 247) in Ok (List, b - 247 + 1, s) in
      if u64 (zlen buf - tagsize) <? contentsize then Err ErrValueTooLarge
      else Ok (k, tagsize, contentsize)
  end.

(** [Split]: the first value's kind and content, and the bytes after it. *)
Definition Split (b : bytes) : result RlpError (Kind * bytes * bytes) :=
  let! (k, ts, cs) := readKind b in
  let! content := or_panic (slice b ts (u64 (ts + cs))) in
  let! rest := or_panic (slice b (u64 (ts + cs)) (zlen b)) in
  Ok (k, content, rest).

Definition SplitString (b : bytes) : result RlpError (bytes * bytes) :=
  let! (k, content, rest) := Split b in
  match k with List => Err ErrExpectedString | _ => Ok (content, rest) end.

Definition SplitList (b : bytes) : result RlpError (bytes * bytes) :=
  let! (k, content, rest) := Split b in
  match k with List => Ok (content, rest) | _ => Err ErrExpectedList end.

(** [CountValues]: the loop drops one value per round; [length b] rounds are
    enough ([CountValues_spec]). *)
Fixpoint CountValues_loop (fuel : nat) (i : Z) (b : bytes) : result RlpError Z :=
  match b with
  | [] => Ok i
  | _ =>
      match fuel with
      | O => Err errOutOfFuel
      | S fuel =>
          let! (_, tagsize, size) := readKind b in
          let! b := or_panic (slice b (u64 (tagsize + size)) (zlen b)) in
          CountValues_loop fuel (i + 1) b
      end
  end.

Definition CountValues (b : bytes) : result RlpError Z := CountValues_loop (length b) 0 b.

(** * Canonical encodings *)

(** [is_raw k c e]: [e] is the canonical encoding with kind [k] and content [c]. *)
Definition is_raw (k : Kind) (c e : bytes) : Prop :=
  match k with
  | Byte => exists x, c = [x] /\ e = [x] /\ x < 128
  | String => e = enc_head 128 183 (zlen c) ++ c /\ (forall x, c = [x] -> 128 <= x)
  | List => e = enc_list c
  end.

(** The shifts and ors of [readSize] assemble a big-endian number. *)
Fixpoint lor_be (l : bytes) : Z :=
  match l with
  | [] => 0
  | [b] => b
  | b :: l => Z.lor (Z.shiftl b (8 * zlen l)) (lor_be l)
  end.

Lemma lor_be_spec l : wf_bytes l -> lor_be l = be_to_Z l.
Proof.
  induction 1 as [|b l Hb Hl IH]; [done|].
  destruct l as [|c l]; [by rewrite be_to_Z_single|].
  change (lor_be (b :: c :: l)) with (Z.lor (Z.shiftl b (8 * zlen (c :: l))) (lor_be (c :: l))).
  pose proof (zlen_nonneg (c :: l)).
  rewrite IH, (be_to_Z_cons b), pow256_2 by done. apply lor_concat; [lia|].
  rewrite <-pow256_2 by done. by apply be_to_Z_bound.
Qed.

Lemma readSize_value b slen :
  wf_bytes b -> 1 <= slen <= 8 -> slen <= zlen b ->
  readSize b slen =
    let s := be_to_Z (take (Z.to_nat slen) b) in
    if (s <? 56) || (nth 0 b 0 =? 0) then Err ErrCanonSize else Ok s.
Proof.
  intros Hb Hs Hl. unfold readSize. case_if; [lia|].
  rewrite <-lor_be_spec by eauto with go.
  assert (slen = 1 \/ slen = 2 \/ slen = 3 \/ slen = 4 \/ slen = 5 \/ slen = 6 \/ slen = 7 \/ slen = 8)
    as Hc by lia.
  unfold zlen in Hl.
  destruct Hc as [->|[->|[->|[->|[->|[->|[->| ->]]]]]]];
    repeat (destruct b as [|? b]; [simpl in Hl; lia|]);
    cbv zeta; cbn [nth]; rewrite <-?Z.lor_assoc; done.
Qed.

Lemma nth0_take (b : bytes) n : (1 <= n)%nat -> nth 0 (take n b) 0 = nth 0 b 0.
Proof. destruct n; [lia|]. by destruct b. Qed.

(** [readSize] accepts exactly the minimal big-endian form of sizes above 55. *)
Lemma readSize_ok b slen s :
  wf_bytes b -> 1 <= slen <= 8 ->
  readSize b slen = Ok s <->
  slen <= zlen b /\ 56 <= s /\ Z.of_nat (bytelen s) = slen /\ take (Z.to_nat slen) b = big_bytes s.
Proof.
  intros Hb Hs. destruct (decide (slen <= zlen b)) as [Hl|Hl].
  2: { unfold readSize. case_if; [|lia]. naive_solver lia. }
  rewrite readSize_value by done. cbv zeta. split.
  - case_if; [done|]. intros [= <-]. destruct (take (Z.to_nat slen) b) as [|x l] eqn:Et.
    { apply (f_equal length) in Et. rewrite length_take in Et. unfold zlen in *. simpl in Et. lia. }
    assert (nth 0 b 0 = x) as Hx by (rewrite <-(nth0_take b (Z.to_nat slen)), Et by lia; done).
    assert (wf_bytes (x :: l)) as Hwf by (rewrite <-Et; eauto with go).
    pose proof (big_bytes_be_to_Z x l Hwf ltac:(congruence)) as Hbb.
    split_and!; [done|lia| |done].
    rewrite <-zlen_big_bytes, Hbb, <-Et by (pose proof (be_to_Z_bound _ Hwf); lia).
    unfold zlen in *. rewrite length_take. lia.
  - intros (_ & H56 & Hbl & Ht). rewrite Ht, be_to_Z_big_bytes by lia.
    destruct (big_bytes_head s ltac:(lia)) as (x & l & Hx & Hne).
    assert (nth 0 b 0 = x) as ->
      by (rewrite <-(nth0_take b (Z.to_nat slen)), Ht, Hx by lia; done).
    case_if; [|done]. apply orb_true_iff in E as [?|?]; simp_bool; lia.
Qed.

Lemma enc_head_small st lt sz : sz < 56 -> enc_head st lt sz = [st + sz].
Proof. intros. unfold enc_head. case_if; [done|lia]. Qed.

Lemma enc_head_large st lt sz :
  56 <= sz -> enc_head st lt sz = (lt + Z.of_nat (bytelen sz)) :: big_bytes sz.
Proof. intros. unfold enc_head. case_if; [lia|done]. Qed.

(** The split of [b] that a head of [ts] bytes and a content of [cs] bytes make. *)
Lemma split_at_sizes (b : bytes) ts cs :
  0 <= ts -> 0 <= cs -> ts + cs <= zlen b ->
  exists c rest, b = take (Z.to_nat ts) b ++ c ++ rest /\ zlen c = cs.
Proof.
  intros. exists (take (Z.to_nat cs) (drop (Z.to_nat ts) b)),
    (drop (Z.to_nat cs) (drop (Z.to_nat ts) b)).
  unfold zlen in *. rewrite !take_drop, !length_take, length_drop. split; [done|lia].
Qed.

(** A slice that starts with a one-byte head, or with a head that carries a size. *)
Lemma split_head_short st lt b0 r :
  st <= b0 < st + 56 -> 1 + (b0 - st) <= zlen (b0 :: r) ->
  exists c rest, b0 :: r = enc_head st lt (b0 - st) ++ c ++ rest /\ zlen c = b0 - st /\
    zlen (enc_head st lt (b0 - st)) = 1.
Proof.
  intros Hb Hl. destruct (split_at_sizes (b0 :: r) 1 (b0 - st)) as (c & rest & He & Hc);
    [lia..|]. rewrite enc_head_small by lia. exists c, rest. split_and!; [|done..].
  rewrite He at 1. simpl. by replace (st + (b0 - st)) with b0 by lia.
Qed.

Lemma split_head_long st lt b0 r s :
  wf_bytes r -> 1 <= b0 - lt <= 8 -> readSize r (b0 - lt) = Ok s ->
  b0 - lt + 1 + s <= zlen (b0 :: r) ->
  56 <= s /\ exists c rest, b0 :: r = enc_head st lt s ++ c ++ rest /\ zlen c = s /\
    zlen (enc_head st lt s) = b0 - lt + 1.
Proof.
  intros Hr Hb Hs Hl. apply readSize_ok in Hs as (Hl' & H56 & Hbl & Ht); [|done..].
  split; [done|].
  destruct (split_at_sizes (b0 :: r) (b0 - lt + 1) s) as (c & rest & He & Hc); [lia..|].
  rewrite enc_head_large by lia. exists c, rest. split_and!; [|done|].
  - rewrite He at 1. replace (Z.to_nat (b0 - lt + 1)) with (S (Z.to_nat (b0 - lt))) by lia.
    cbn [take]. by rewrite Ht, Hbl, Zplus_minus.
  - rewrite zlen_cons, zlen_big_bytes; lia.
Qed.

Lemma readKind_sound b k ts cs :
  wf_bytes b -> zlen b < 2 ^ 64 -> readKind b = Ok (k, ts, cs) ->
  exists h c rest, b = h ++ c ++ rest /\ zlen h = ts /\ zlen c = cs /\ is_raw k c (h ++ c).
Proof.
  intros Hwf Hlen. destruct b as [|b0 r]; [done|]. unfold readKind.
  pose proof Hwf as [Hb0 Hr]%wf_bytes_cons. unfold is_byte in Hb0.
  pose proof (zlen_nonneg r) as Hr0. pose proof (zlen_cons b0 r) as Hlr.
  assert (forall ts' cs', 0 <= ts' <= zlen (b0 :: r) ->
            cs' <= u64 (zlen (b0 :: r) - ts') -> ts' + cs' <= zlen (b0 :: r)) as Hle.
  { intros ts' cs' Ht Hc. rewrite u64_small in Hc by (unfold is_u64; lia). lia. }
  case_if; [|case_if; [|case_if; [|case_if]]].
  - cbn [rbind]. case_if; [done|]. intros [= <- <- <-].
    exists [], [b0], r. split_and!; try done. by exists b0.
  - case_if; [done|]. cbn [rbind].
    case_if; [done|]. intros [= <- <- <-]. match goal with H : _ <= u64 _ |- _ => apply Hle in H as El; [|lia] end.
    destruct (split_head_short 128 183 b0 r) as (c & rest & He & Hc & Hh); [lia..|].
    eexists _, c, rest. split; [exact He|]. split; [exact Hh|]. split; [exact Hc|].
    unfold is_raw. rewrite Hc. split; [done|].
    intros x ->. change (zlen [x]) with 1 in Hc. rewrite enc_head_small in He by lia.
    injection He as _ ->. rewrite zlen_cons in *. cbn [nth app] in E1.
    apply andb_false_iff in E1 as [[?|?]%andb_false_iff|?]; simp_bool; lia.
  - destruct (readSize r (b0 - 183)) as [s|e|] eqn:Er; [|done..]. cbn [rbind].
    pose proof Er as (Hl & H56 & _)%readSize_ok; [|done|lia].
    case_if; [done|]. intros [= <- <- <-]. match goal with H : _ <= u64 _ |- _ => apply Hle in H as El; [|lia] end.
    destruct (split_head_long 128 183 b0 r s) as (_ & c & rest & He & Hc & Hh); [done|lia|done|lia|].
    eexists _, c, rest. split; [exact He|]. split; [exact Hh|]. split; [exact Hc|].
    unfold is_raw. rewrite Hc. split; [done|].
    intros x ->. change (zlen [x]) with 1 in Hc. lia.
  - cbn [rbind]. case_if; [done|]. intros [= <- <- <-]. match goal with H : _ <= u64 _ |- _ => apply Hle in H as El; [|lia] end.
    destruct (split_head_short 192 247 b0 r) as (c & rest & He & Hc & Hh); [lia..|].
    eexists _, c, rest. split; [exact He|]. split; [exact Hh|]. split; [exact Hc|]. simpl. unfold enc_list. by rewrite Hc.
  - destruct (readSize r (b0 - 247)) as [s|e|] eqn:Er; [|done..]. cbn [rbind].
    pose proof Er as (Hl & H56 & _)%readSize_ok; [|done|lia].
    case_if; [done|]. intros [= <- <- <-]. match goal with H : _ <= u64 _ |- _ => apply Hle in H as El; [|lia] end.
    destruct (split_head_long 192 247 b0 r s) as (_ & c & rest & He & Hc & Hh); [done|lia|done|lia|].
    eexists _, c, rest. split; [exact He|]. split; [exact Hh|]. split; [exact Hc|]. simpl. unfold enc_list. by rewrite Hc.
Qed.

Lemma readSize_big_bytes s rest :
  wf_bytes rest -> 56 <= s < 2 ^ 64 ->
  readSize (big_bytes s ++ rest) (Z.of_nat (bytelen s)) = Ok s.
Proof.
  intros Hr Hs. pose proof (bytelen_u64 s ltac:(lia)). pose proof (bytelen_ge1 s ltac:(lia)).
  assert (length (big_bytes s) = bytelen s) as Hl
    by (unfold big_bytes; rewrite length_Z_to_be, Z.abs_eq by lia; done).
  apply readSize_ok; [apply wf_bytes_app; eauto with go|lia|].
  rewrite zlen_app, zlen_big_bytes, Nat2Z.id, <-Hl, take_app_length by lia.
  pose proof (zlen_nonneg rest). split_and!; [lia..|done].
Qed.

Lemma fits_after_head (h c rest : bytes) :
  zlen (h ++ c ++ rest) < 2 ^ 64 -> (u64 (zlen (h ++ c ++ rest) - zlen h) <? zlen c) = false.
Proof.
  intros Hl. rewrite !zlen_app in *.
  pose proof (zlen_nonneg h). pose proof (zlen_nonneg c). pose proof (zlen_nonneg rest).
  rewrite u64_small by (unfold is_u64; lia). apply Z.ltb_ge. lia.
Qed.

(** The kinds with a head, and their tags. *)
Definition head_tags (k : Kind) (st lt : Z) : Prop :=
  (k = String /\ st = 128 /\ lt = 183) \/ (k = List /\ st = 192 /\ lt = 247).

Lemma readKind_short k st lt c rest :
  head_tags k st lt -> zlen c < 56 -> (k = String -> forall x, c = [x] -> 128 <= x) ->
  let h := enc_head st lt (zlen c) in
  zlen (h ++ c ++ rest) < 2 ^ 64 -> readKind (h ++ c ++ rest) = Ok (k, zlen h, zlen c).
Proof.
  intros Hk Hc Hx h Hlen. pose proof (fits_after_head _ _ _ Hlen) as Hf. revert Hf. clear Hlen.
  pose proof (zlen_nonneg c). subst h. rewrite enc_head_small by done.
  change (zlen [st + zlen c]) with 1. cbn [app readKind].
  destruct Hk as [(->&->&->)|(->&->&->)]; intros Hf.
  - case_if; [lia|]. case_if; [|lia]. replace (128 + zlen c - 128) with (zlen c) by lia.
    destruct (_ && _ && _) eqn:Ec; [|cbn [rbind]; apply Z.ltb_ge in Hf; by rewrite Hf].
    simp_bool. destruct c as [|y [|? ?]]; [done| |unfold zlen in *; simpl in *; lia].
    specialize (Hx eq_refl y eq_refl). simpl in *. lia.
  - do 3 (case_if; [lia|]). case_if; [|lia].
    replace (192 + zlen c - 192) with (zlen c) by lia. cbn [rbind]. apply Z.ltb_ge in Hf; by rewrite Hf.
Qed.

Lemma readKind_long k st lt c rest :
  head_tags k st lt -> 56 <= zlen c -> wf_bytes (c ++ rest) ->
  let h := enc_head st lt (zlen c) in
  zlen (h ++ c ++ rest) < 2 ^ 64 -> readKind (h ++ c ++ rest) = Ok (k, zlen h, zlen c).
Proof.
  intros Hk Hc Hwf h Hlen. pose proof (fits_after_head _ _ _ Hlen) as Hf. revert Hf.
  assert (zlen c < 2 ^ 64).
  { rewrite !zlen_app in Hlen. pose proof (zlen_nonneg h). pose proof (zlen_nonneg rest). lia. }
  clear Hlen. pose proof (bytelen_u64 (zlen c) ltac:(lia)).
  pose proof (bytelen_ge1 (zlen c) ltac:(lia)). subst h. rewrite enc_head_large by done.
  rewrite (zlen_cons (lt + _)), zlen_big_bytes by lia. cbn [app readKind].
  destruct Hk as [(->&->&->)|(->&->&->)]; intros Hf.
  - do 2 (case_if; [lia|]). case_if; [|lia].
    replace (183 + _ - 183) with (Z.of_nat (bytelen (zlen c))) by lia.
    rewrite readSize_big_bytes by (lia || done). cbn [rbind]. rewrite (Z.add_comm _ 1).
    apply Z.ltb_ge in Hf; by rewrite Hf.
  - do 4 (case_if; [lia|]).
    replace (247 + _ - 247) with (Z.of_nat (bytelen (zlen c))) by lia.
    rewrite readSize_big_bytes by (lia || done). cbn [rbind]. rewrite (Z.add_comm _ 1).
    apply Z.ltb_ge in Hf; by rewrite Hf.
Qed.

Lemma readKind_head k st lt c rest :
  head_tags k st lt -> wf_bytes (c ++ rest) -> (k = String -> forall x, c = [x] -> 128 <= x) ->
  let h := enc_head st lt (zlen c) in
  zlen (h ++ c ++ rest) < 2 ^ 64 -> readKind (h ++ c ++ rest) = Ok (k, zlen h, zlen c).
Proof.
  intros. destruct (decide (zlen c < 56)); [by apply readKind_short|apply readKind_long]; done || lia.
Qed.

(** Every canonical encoding is [h ++ c] for a head [h], and [readKind] reads it. *)
Lemma readKind_complete k c e rest :
  is_raw k c e -> wf_bytes (e ++ rest) -> zlen (e ++ rest) < 2 ^ 64 ->
  exists h, e = h ++ c /\ readKind (h ++ c ++ rest) = Ok (k, zlen h, zlen c).
Proof.
  intros Hraw Hwf Hlen. destruct k; simpl in Hraw.
  - destruct Hraw as (x & -> & -> & Hx). exists []. split; [done|].
    pose proof (fits_after_head [] [x] rest Hlen) as Hf. revert Hf.
    cbn [app readKind]. intros Hf. case_if; [|lia]. cbn [rbind].
    apply Z.ltb_ge in Hf.
    change (zlen [x]) with 1 in Hf. change (@zlen Z []) with 0 in Hf. by rewrite Hf.
  - destruct Hraw as [-> Hx]. eexists; split; [reflexivity|]. rewrite <-app_assoc in *.
    apply (readKind_head String 128 183); [by left| |done|done]. by apply wf_bytes_app in Hwf as [_ ?].
  - rewrite Hraw in *. unfold enc_list in *. eexists; split; [reflexivity|].
    rewrite <-app_assoc in *. apply (readKind_head List 192 247); [by right| |done|done].
    by apply wf_bytes_app in Hwf as [_ ?].
Qed.

Lemma Split_parts k (h c rest : bytes) :
  zlen (h ++ c ++ rest) < 2 ^ 64 -> readKind (h ++ c ++ rest) = Ok (k, zlen h, zlen c) ->
  Split (h ++ c ++ rest) = Ok (k, c, rest).
Proof.
  intros Hlen Hr. unfold Split. rewrite Hr. cbn [rbind].
  pose proof (zlen_nonneg h). pose proof (zlen_nonneg c). pose proof (zlen_nonneg rest).
  rewrite !zlen_app in Hlen. rewrite u64_small by (unfold is_u64; lia).
  rewrite slice_app_mid. cbn [or_panic rbind].
  rewrite app_assoc, <-zlen_app, slice_to_end. done.
Qed.

Lemma Split_iff b k c rest :
  wf_bytes b -> zlen b < 2 ^ 64 ->
  Split b = Ok (k, c, rest) <-> exists e, is_raw k c e /\ b = e ++ rest.
Proof.
  intros Hwf Hlen. split.
  - intros Hs. unfold Split in Hs. apply rbind_ok in Hs as ([[k' ts] cs] & Hr & Hs).
    pose proof Hr as (h & c' & rest' & Hb & Hh & Hc & Hraw)%readKind_sound; [|done..]. subst.
    pose proof (Split_parts k' h c' rest' Hlen Hr) as Hs'. unfold Split in Hs'.
    rewrite Hr in Hs'. cbn [rbind] in Hs'. rewrite Hs in Hs'. injection Hs' as -> -> ->.
    exists (h ++ c'). by rewrite <-app_assoc.
  - intros (e & Hraw & ->). destruct (readKind_complete k c e rest) as (h & -> & Hr); [done..|].
    rewrite <-app_assoc in *. by apply Split_parts.
Qed.

(** Errors of [readKind] are never turned into a panic by the slicing. *)
Lemma readSize_no_panic b slen : readSize b slen <> Panic.
Proof. unfold readSize. repeat case_if; done. Qed.

Lemma readKind_no_panic b : readKind b <> Panic.
Proof.
  destruct b as [|b0 r]; [done|]. unfold readKind.
  assert (forall m : result RlpError (Kind * Z * Z), m <> Panic ->
    (let! (k, ts, cs) := m in
     if u64 (zlen (b0 :: r) - ts) <? cs then Err ErrValueTooLarge else Ok (k, ts, cs)) <> Panic) as Hb.
  { intros [[[??]?]|?|] ?; simpl; [case_if|..]; done. }
  apply Hb. repeat case_if; try done.
  all: match goal with |- rbind (readSize ?x ?y) _ <> _ =>
    pose proof (readSize_no_panic x y); destruct (readSize x y); done end.
Qed.

Lemma Split_no_panic b : wf_bytes b -> zlen b < 2 ^ 64 -> Split b <> Panic.
Proof.
  intros Hwf Hlen. destruct (readKind b) as [[[k ts] cs]|e|] eqn:Hr.
  - pose proof Hr as (h & c & rest & -> & <- & <- & _)%readKind_sound; [|done..].
    by rewrite (Split_parts _ _ _ _ Hlen Hr).
  - unfold Split. by rewrite Hr.
  - by apply readKind_no_panic in Hr.
Qed.

(** [Split] returns kind, content and rest exactly when the slice starts with
    the canonical encoding of that kind and content, followed by the rest; it
    never slices out of range. *)
Theorem Split_canonical b k c rest :
  wf_bytes b -> zlen b < 2 ^ 64 ->
  Split b <> Panic /\
  (Split b = Ok (k, c, rest) <-> exists e, is_raw k c e /\ b = e ++ rest).
Proof. intros; split; [by apply Split_no_panic|by apply Split_iff]. Qed.

Lemma Split_canonical_witness :
  Split [131; 100; 111; 103; 192] = Ok (String, [100; 111; 103], [192]).
Proof.
  apply Split_canonical; [by_decide|by_compute|].
  exists [131; 100; 111; 103]. split; [|reflexivity]. split; [by_compute|discriminate].
Defined.

(** ** [CountValues] *)

(** [values n b]: [b] is the concatenation of [n] canonical encodings. *)
Inductive values : nat -> bytes -> Prop :=
| values_nil : values 0 []
| values_cons n k c e b : is_raw k c e -> values n b -> values (S n) (e ++ b).

Lemma is_raw_nonempty k c e : is_raw k c e -> e <> [].
Proof.
  destruct k; simpl.
  - by intros (x & -> & -> & _).
  - intros [-> _]. unfold enc_head. by case_if.
  - intros ->. unfold enc_list, enc_head. by case_if.
Qed.

Lemma values_length n b : values n b -> (n <= length b)%nat.
Proof.
  induction 1 as [|n k c e b Hr _ IH]; [simpl; lia|].
  apply is_raw_nonempty in Hr. rewrite length_app. destruct e; [done|simpl; lia].
Qed.

Lemma CountValues_step fuel i k (h c rest : bytes) :
  zlen (h ++ c ++ rest) < 2 ^ 64 -> readKind (h ++ c ++ rest) = Ok (k, zlen h, zlen c) ->
  h ++ c <> [] ->
  CountValues_loop (S fuel) i (h ++ c ++ rest) = CountValues_loop fuel (i + 1) rest.
Proof.
  intros Hlen Hr Hne.
  assert (CountValues_loop (S fuel) i (h ++ c ++ rest) =
    let! (_, tagsize, size) := readKind (h ++ c ++ rest) in
    let! b := or_panic (slice (h ++ c ++ rest) (u64 (tagsize + size)) (zlen (h ++ c ++ rest))) in
    CountValues_loop fuel (i + 1) b) as ->.
  { rewrite app_assoc. by destruct (h ++ c). }
  rewrite Hr. cbn [rbind]. rewrite app_assoc, <-zlen_app in *.
  pose proof (zlen_nonneg (h ++ c)). pose proof (zlen_nonneg rest).
  rewrite u64_small, slice_to_end by (unfold is_u64; rewrite zlen_app in Hlen; lia). done.
Qed.

Lemma CountValues_loop_complete n b fuel i :
  values n b -> wf_bytes b -> zlen b < 2 ^ 64 -> (n <= fuel)%nat ->
  CountValues_loop fuel i b = Ok (i + Z.of_nat n).
Proof.
  intros Hv. revert fuel i; induction Hv as [|n k c e b Hraw Hv IH]; intros fuel i Hwf Hlen Hf.
  { destruct fuel; simpl; f_equal; lia. }
  destruct fuel as [|fuel]; [lia|].
  destruct (readKind_complete k c e b) as (h & -> & Hr); [done..|].
  pose proof (is_raw_nonempty _ _ _ Hraw). rewrite <-app_assoc in *.
  erewrite CountValues_step by done.
  assert (zlen b < 2 ^ 64).
  { rewrite !zlen_app in Hlen. pose proof (zlen_nonneg h). pose proof (zlen_nonneg c). lia. }
  apply wf_bytes_app in Hwf as [_ [_ Hwf]%wf_bytes_app]. rewrite IH by (done || lia). f_equal. lia.
Qed.

Lemma CountValues_loop_sound fuel i b m :
  wf_bytes b -> zlen b < 2 ^ 64 -> CountValues_loop fuel i b = Ok m ->
  exists n, values n b /\ m = i + Z.of_nat n.
Proof.
  revert i b; induction fuel as [|fuel IH]; intros i b Hwf Hlen.
  { destruct b; [|done]. simpl. intros [= <-]. exists O. split; [constructor|lia]. }
  destruct (decide (b = [])) as [->|Hb].
  { simpl. intros [= <-]. exists O. split; [constructor|lia]. }
  intros Hc. destruct (readKind b) as [[[k ts] cs]|e|] eqn:Hr.
  2,3: destruct b; [done|]; cbn [CountValues_loop] in Hc; by rewrite Hr in Hc.
  pose proof Hr as (h & c & rest & -> & <- & <- & Hraw)%readKind_sound; [|done..].
  erewrite CountValues_step in Hc by (done || by eapply is_raw_nonempty).
  apply IH in Hc as (n & Hv & ->).
  - exists (S n). split; [|lia]. rewrite app_assoc. by eapply values_cons.
  - by apply wf_bytes_app in Hwf as [_ [_ ?]%wf_bytes_app].
  - rewrite !zlen_app in Hlen. pose proof (zlen_nonneg h). pose proof (zlen_nonneg c). lia.
Qed.

Lemma readKind_fuel_error b : readKind b <> Err errOutOfFuel.
Proof.
  destruct b as [|b0 r]; [done|]. unfold readKind.
  assert (forall m : result RlpError (Kind * Z * Z), m <> Err errOutOfFuel ->
    (let! (k, ts, cs) := m in
     if u64 (zlen (b0 :: r) - ts) <? cs then Err ErrValueTooLarge else Ok (k, ts, cs))
    <> Err errOutOfFuel) as Hb.
  { intros [[[??]?]|?|] ?; simpl; [case_if|..]; congruence. }
  apply Hb. unfold readSize. repeat case_if; try done.
Qed.

Lemma CountValues_loop_fuel fuel i b :
  wf_bytes b -> zlen b < 2 ^ 64 -> (length b <= fuel)%nat ->
  CountValues_loop fuel i b <> Err errOutOfFuel.
Proof.
  revert i b; induction fuel as [|fuel IH]; intros i b Hwf Hlen Hf.
  { destruct b; [done|simpl in Hf; lia]. }
  destruct (decide (b = [])) as [->|Hb]; [done|].
  destruct (readKind b) as [[[k ts] cs]|e|] eqn:Hr.
  - pose proof Hr as (h & c & rest & -> & <- & <- & Hraw)%readKind_sound; [|done..].
    apply is_raw_nonempty in Hraw as Hne. erewrite CountValues_step by done.
    rewrite !zlen_app in Hlen. pose proof (zlen_nonneg h). pose proof (zlen_nonneg c).
    apply wf_bytes_app in Hwf as [_ [_ Hwf]%wf_bytes_app]. apply IH; [done|lia|].
    rewrite app_assoc, length_app in Hf. destruct (h ++ c); [done|simpl in Hf; lia].
  - destruct b; [done|]. cbn [CountValues_loop]. rewrite Hr. simpl. intros [= ->].
    by apply readKind_fuel_error in Hr.
  - by apply readKind_no_panic in Hr.
Qed.

(** [CountValues] counts the values of a concatenation of canonical encodings,
    and succeeds on nothing else; its loop ends within [length b] rounds on every
    input. *)
Theorem CountValues_spec b m :
  wf_bytes b -> zlen b < 2 ^ 64 ->
  CountValues b <> Err errOutOfFuel /\
  (CountValues b = Ok m <-> exists n, values n b /\ m = Z.of_nat n).
Proof.
  intros Hwf Hlen. split; [by apply CountValues_loop_fuel|]. split.
  - intros Hc. by apply CountValues_loop_sound in Hc.
  - intros (n & Hv & ->). unfold CountValues.
    rewrite (CountValues_loop_complete n) by (done || by apply values_length). done.
Qed.

Lemma CountValues_spec_witness : CountValues [131; 100; 111; 103; 5; 192] = Ok 3.
Proof.
  apply CountValues_spec; [by_decide|by_compute|]. exists 3%nat. split; [|reflexivity].
  apply (values_cons 2 String [100; 111; 103] [131; 100; 111; 103]);
    [split; [by_compute|discriminate]|].
  apply (values_cons 1 Byte [5] [5]); [exists 5; repeat split|].
  apply (values_cons 0 List [] [192] []); [by_compute|constructor].
Defined.
