(* ===== verification/RlpStream.v ===== *)
(** rlp/decode.go, first half: the decoding [Stream] with its list stack, input
    limit and cached kind, reading from a [bytes.Reader].  Operations return the
    stream they leave behind also when they fail, as the Go methods do. *)

From S2P Require Import Prelude RlpTypes RlpEncode RlpRaw.

(** * State *)
Record listpos := ListPos { pos : Z; lsize : Z }.

(** [stack] has the innermost list first (the last element of the Go slice);
    [kind] is [None] for the Go value -1; the scratch [uintbuf] is local to
    [readUint]. *)
Record Stream := mkStream {
  input : bytes;               (* what the reader [r] has left *)
  remaining : Z;
  limited : bool;
  kind : option Kind;
  ssize : Z;
  byteval : Z;
  kinderr : option RlpError;
  stack : list listpos
}.

(** Stream operations: a result and the stream left behind. *)
Definition SR (A : Type) : Type := Stream -> result RlpError A * Stream.

Definition sret {A} (a : A) : SR A := fun s => (Ok a, s).
Definition serr {A} (e : RlpError) : SR A := fun s => (Err e, s).
Definition spanic {A} : SR A := fun s => (Panic, s).

(** Sequencing: an error or panic of [m] ends the operation. *)
Definition sbind {A B} (m : SR A) (f : A -> SR B) : SR B := fun s =>
  match m s with
  | (Ok a, s') => f a s'
  | (Err e, s') => (Err e, s')
  | (Panic, s') => (Panic, s')
  end.

Notation "'do!' x := m 'in' k" := (sbind m (fun x => k))
  (at level 10, x pattern, m at level 100, k at level 200) : go_scope.

Definition set_kind (k : option Kind) (s : Stream) : Stream :=
  mkStream (input s) (remaining s) (limited s) k (ssize s) (byteval s) (kinderr s) (stack s).
Definition set_stack (st : list listpos) (s : Stream) : Stream :=
  mkStream (input s) (remaining s) (limited s) (kind s) (ssize s) (byteval s) (kinderr s) st.
Definition set_input (i : bytes) (s : Stream) : Stream :=
  mkStream i (remaining s) (limited s) (kind s) (ssize s) (byteval s) (kinderr s) (stack s).
Definition set_remaining (r : Z) (s : Stream) : Stream :=
  mkStream (input s) r (limited s) (kind s) (ssize s) (byteval s) (kinderr s) (stack s).
Definition set_byteval (b : Z) (s : Stream) : Stream :=
  mkStream (input s) (remaining s) (limited s) (kind s) (ssize s) b (kinderr s) (stack s).
Definition set_size (n : Z) (s : Stream) : Stream :=
  mkStream (input s) (remaining s) (limited s) (kind s) n (byteval s) (kinderr s) (stack s).
Definition set_kinderr (e : option RlpError) (s : Stream) : Stream :=
  mkStream (input s) (remaining s) (limited s) (kind s) (ssize s) (byteval s) e (stack s).

(** [Stream.Reset] and [NewStream] on a [bytes.Reader] over [b]: the limit is the
    given one, or the reader's length when none is given. *)
Definition NewStream (b : bytes) (inputLimit : Z) : Stream :=
  mkStream b (if 0 <? inputLimit then inputLimit else zlen b) true None 0 0 None [].

Definition NewListStream (b : bytes) (len : Z) : Stream :=
  set_size len (set_kind (Some List) (NewStream b len)).

(** * Reading *)
Definition willRead (n : Z) : SR unit := fun s =>
  let s := set_kind None s in
  let limit s :=
    if limited s then
      if remaining s <? n then (Err ErrValueTooLarge, s)
      else (Ok tt, set_remaining (u64 (remaining s - n)) s)
    else (Ok tt, s) in
  match stack s with
  | [] => limit s
  | tos :: st =>
      if u64 (lsize tos - pos tos) <? n then (Err ErrElemTooLarge, s)
      else limit (set_stack (ListPos (u64 (pos tos + n)) (lsize tos) :: st) s)
  end.

(** [readByte]; an exhausted reader is [io.ErrUnexpectedEOF]. *)
Definition readByte : SR Z :=
  do! _ := willRead 1 in fun s =>
  match input s with
  | [] => (Err io_ErrUnexpectedEOF, s)
  | b :: r => (Ok b, set_input r s)
  end.

(** [readFull] of a buffer of [n] bytes: the loop of [Read] calls takes what the
    reader has; a short read is an error, after the bytes were taken. *)
Definition readFull (n : Z) : SR bytes :=
  do! _ := willRead n in fun s =>
  if zlen (input s) <? n then (Err io_ErrUnexpectedEOF, set_input [] s)
  else (Ok (take (Z.to_nat n) (input s)), set_input (drop (Z.to_nat n) (input s)) s).

(** [readUint]: [size] bytes into the end of an 8-byte zeroed buffer. *)
Definition readUint (size : Z) : SR Z :=
  if size =? 0 then fun s => (Ok 0, set_kind None s)
  else if size =? 1 then readByte
  else if 8 <? size then spanic
  else
    do! d := readFull size in
    if nth 0 d 0 =? 0 then serr ErrCanonSize
    else sret (be_to_Z (replicate (Z.to_nat (8 - size)) 0 ++ d)).

(** The branches of [readKind] with a size in the following bytes; like the Go
    function, they return the kind and size also next to an error. *)
Definition readSizedKind (k : Kind) (slen : Z) : SR (Kind * Z * option RlpError) := fun s =>
  match readUint slen s with
  | (Ok size, s) => (Ok (k, size, if size <? 56 then Some ErrCanonSize else None), s)
  | (Err e, s) => (Ok (k, 0, Some e), s)
  | (Panic, s) => (Panic, s)
  end.

(** [Stream.readKind]. *)
Definition readKind : SR (Kind * Z * option RlpError) := fun s =>
  match readByte s with
  | (Ok b, s) =>
      let s := set_byteval 0 s in
      if b <? 128 then (Ok (Byte, 0, None), set_byteval b s)
      else if b <? 184 then (Ok (String, b - 128, None), s)
      else if b <? 192 then readSizedKind String (b - 183) s
      else if b <? 248 then (Ok (List, b - 192, None), s)
      else readSizedKind List (b - 247) s
  | (Err e, s) =>
      match stack s, e with
      | [], (io_ErrUnexpectedEOF | ErrValueTooLarge) => (Ok (Byte, 0, Some io_EOF), s)
      | _, _ => (Ok (Byte, 0, Some e), s)
      end
  | (Panic, s) => (Panic, s)
  end.

(** [Stream.Kind]: the kind and size of the value ahead, cached until it is read;
    an error sticks. *)
Definition GetKind : SR (Kind * Z) := fun s =>
  match kind s with
  | Some k =>
      match kinderr s with Some e => (Err e, s) | None => (Ok (k, ssize s), s) end
  | None =>
      let s := set_kinderr None s in
      let at_end := match stack s with [] => false | tos :: _ => pos tos =? lsize tos end in
      if at_end then (Err EOL, s)
      else
        match readKind s with
        | (Panic, s) => (Panic, s)
        | (Err e, s) => (Err e, s)
        | (Ok (k, size, err), s) =>
            let err :=
              match err, stack s with
              | Some e, _ => Some e
              | None, [] =>
                  if limited s && (remaining s <? size) then Some ErrValueTooLarge else None
              | None, tos :: _ =>
                  if u64 (lsize tos - pos tos) <? size then Some ErrElemTooLarge else None
              end in
            let s := set_kinderr err (set_size size (set_kind (Some k) s)) in
            match err with Some e => (Err e, s) | None => (Ok (k, size), s) end
        end
  end.

(** [make([]byte, size)], which panics when [size] is no Go [int]. *)
Definition make_ok (size : Z) : bool := size <? 2 ^ 63.

(** [Stream.Bytes]. *)
Definition Bytes : SR bytes :=
  do! (k, size) := GetKind in
  match k with
  | Byte => fun s => (Ok [byteval s], set_kind None s)
  | String =>
      if negb (make_ok size) then spanic
      else
        do! b := readFull size in
        if (size =? 1) && (nth 0 b 0 <? 128) then serr ErrCanonSize else sret b
  | List => serr ErrExpectedString
  end.

(** [Stream.Raw]: the content is read behind room for a head, which is then
    written anew. *)
Definition Raw : SR bytes :=
  do! (k, size) := GetKind in
  match k with
  | Byte => fun s => (Ok [byteval s], set_kind None s)
  | _ =>
      let start := headsize size in
      let total := u64 (start + size) in
      if negb (make_ok total) || (total <? start) then spanic
      else
        do! content := readFull (total - start) in
        let buf := replicate (Z.to_nat start) 0 ++ content in
        match (match k with String => puthead buf 128 183 size | _ => puthead buf 192 247 size end) with
        | Ok (buf, _) => sret buf
        | Err e => serr e
        | Panic => spanic
        end
  end.

(** [Stream.uint] and [Stream.Uint]. *)
Definition uint (maxbits : Z) : SR Z :=
  do! (k, size) := GetKind in
  match k with
  | Byte => fun s =>
      if byteval s =? 0 then (Err ErrCanonInt, s) else (Ok (byteval s), set_kind None s)
  | String =>
      if maxbits / 8 <? size then serr errUintOverflow
      else fun s =>
        match readUint (u8 size) s with
        | (Err ErrCanonSize, s) => (Err ErrCanonInt, s)
        | (Err e, s) => (Err e, s)
        | (Panic, s) => (Panic, s)
        | (Ok v, s) => if (0 <? size) && (v <? 128) then (Err ErrCanonSize, s) else (Ok v, s)
        end
  | List => serr ErrExpectedString
  end.

Definition Uint : SR Z := uint 64.

Definition Bool : SR bool :=
  do! num := uint 8 in
  if num =? 0 then sret false
  else if num =? 1 then sret true
  else serr (errInvalidBool num).

(** [Stream.List] and [Stream.ListEnd]. *)
Definition ListStart : SR Z :=
  do! (k, size) := GetKind in
  match k with
  | List => fun s =>
      (Ok size, set_size 0 (set_kind None (set_stack (ListPos 0 size :: stack s) s)))
  | _ => serr ErrExpectedList
  end.

Definition ListEnd : SR unit := fun s =>
  match stack s with
  | [] => (Err errNotInList, s)
  | tos :: st =>
      if negb (pos tos =? lsize tos) then (Err errNotAtEOL, s)
      else
        let st :=
          match st with
          | [] => []
          | p :: st => ListPos (u64 (pos p + lsize tos)) (lsize p) :: st
          end in
        (Ok tt, set_size 0 (set_kind None (set_stack st s)))
  end.

(** * Invariant, room and progress *)

(** Positions are inside their lists, lists inside their parents. *)
Fixpoint wf_stack (st : list listpos) : Prop :=
  match st with
  | [] => True
  | t :: st' =>
      0 <= pos t <= lsize t /\ lsize t < 2 ^ 64 /\
      match st' with [] => True | p :: _ => pos p + lsize t <= lsize p end /\ wf_stack st'
  end.

Definition wf_stream (s : Stream) : Prop :=
  wf_bytes (input s) /\ is_u64 (remaining s) /\ wf_stack (stack s).

(** The stream may still read [n] bytes. *)
Definition room (n : Z) (s : Stream) : Prop :=
  match stack s with [] => True | t :: _ => pos t + n <= lsize t end /\
  (limited s = true -> n <= remaining s).

Definition bump (n : Z) (st : list listpos) : list listpos :=
  match st with [] => [] | t :: st => ListPos (pos t + n) (lsize t) :: st end.

(** The stream after a successful [willRead n]. *)
Definition took (n : Z) (s : Stream) : Stream :=
  mkStream (input s) (if limited s then remaining s - n else remaining s) (limited s) None
    (ssize s) (byteval s) (kinderr s) (bump n (stack s)).

Lemma bump_bump m n st : bump m (bump n st) = bump (n + m) st.
Proof. destruct st as [|[]]; simpl; [done|]. by rewrite Z.add_assoc. Qed.
Lemma bump_0 st : bump 0 st = st.
Proof. destruct st as [|[]]; simpl; [done|]. by rewrite Z.add_0_r. Qed.

Lemma room_mono m n s : m <= n -> room n s -> room m s.
Proof. unfold room. destruct (stack s); intuition lia. Qed.

Lemma room_took m n s : room m (took n s) <-> room (n + m) s.
Proof.
  unfold room, took. cbn. destruct (stack s); simpl; destruct (limited s); intuition lia.
Qed.

Lemma wf_stack_bump n st :
  0 <= n -> wf_stack st -> match st with [] => True | t :: _ => pos t + n <= lsize t end ->
  wf_stack (bump n st).
Proof. destruct st as [|t st]; simpl; [done|]. intuition lia. Qed.

Lemma wf_took n s : 0 <= n -> wf_stream s -> room n s -> wf_stream (took n s).
Proof.
  intros Hn (Hi & Hr & Hst) [Hrs Hrl]. split_and!; simpl; [done| |by apply wf_stack_bump].
  unfold is_u64 in *. destruct (limited s); [|lia]. specialize (Hrl eq_refl). lia.
Qed.

Lemma willRead_iff n s s' :
  wf_stream s -> 0 <= n -> willRead n s = (Ok tt, s') <-> room n s /\ s' = took n s.
Proof.
  intros (_ & Hr & Hst) Hn. unfold willRead, room, took, is_u64 in *.
  destruct s as [inp rem lim k sz bv ke [|t st]]; simpl in *.
  - destruct lim; [|naive_solver]. case_if; [naive_solver lia|].
    rewrite u64_small by (unfold is_u64; lia). naive_solver lia.
  - destruct Hst as (Hp & Hl & _). rewrite (u64_small (lsize t - pos t)) by (unfold is_u64; lia).
    case_if; [naive_solver lia|]. rewrite (u64_small (pos t + n)) by (unfold is_u64; lia).
    destruct lim; [|naive_solver lia]. case_if; [naive_solver lia|].
    rewrite u64_small by (unfold is_u64; lia). naive_solver lia.
Qed.

Lemma willRead_ok n s : wf_stream s -> 0 <= n -> room n s -> willRead n s = (Ok tt, took n s).
Proof. intros. by apply willRead_iff. Qed.

Lemma sbind_ok {A B} (m : SR A) (f : A -> SR B) s b s' :
  sbind m f s = (Ok b, s') <-> exists a s1, m s = (Ok a, s1) /\ f a s1 = (Ok b, s').
Proof. unfold sbind. destruct (m s) as [[a|e|] s1]; naive_solver. Qed.

Lemma sbind_run {A B} (m : SR A) (f : A -> SR B) s a s1 :
  m s = (Ok a, s1) -> sbind m f s = f a s1.
Proof. unfold sbind. by intros ->. Qed.

Lemma readByte_iff s b s' :
  wf_stream s ->
  readByte s = (Ok b, s') <->
  exists r, input s = b :: r /\ room 1 s /\ s' = set_input r (took 1 s).
Proof.
  intros Hwf. unfold readByte. rewrite sbind_ok. split.
  - intros ([] & s1 & Hw & H). apply willRead_iff in Hw as [Hr ->]; [|done|lia].
    simpl in H. destruct (input s) as [|b' r]; naive_solver.
  - intros (r & Hi & Hr & ->). exists tt, (took 1 s). split; [by apply willRead_ok|]. simpl. by rewrite Hi.
Qed.

Lemma readFull_iff n s d s' :
  wf_stream s -> 0 <= n ->
  readFull n s = (Ok d, s') <->
  exists r, input s = d ++ r /\ zlen d = n /\ room n s /\ s' = set_input r (took n s).
Proof.
  intros Hwf Hn. unfold readFull. rewrite sbind_ok. split.
  - intros ([] & s1 & Hw & H). apply willRead_iff in Hw as [Hr ->]; [|done..]. cbn [input took] in H. case_if_in H; [done|].
    injection H as <- <-. exists (drop (Z.to_nat n) (input s)). rewrite take_drop.
    unfold zlen in *. rewrite length_take. split_and!; [done|lia|done|done].
  - intros (r & Hi & Hd & Hr & ->). exists tt, (took n s). split; [by apply willRead_ok|].
    cbn [input took]. rewrite Hi, zlen_app, Hd. pose proof (zlen_nonneg r). case_if; [lia|].
    rewrite <-Hd, to_nat_zlen, take_app_length, drop_app_length. done.
Qed.

Lemma be_to_Z_zeros n d : be_to_Z (replicate n 0 ++ d) = be_to_Z d.
Proof.
  induction n as [|n IH]; [done|]. cbn [replicate app]. rewrite be_to_Z_cons. lia.
Qed.

Lemma readUint_iff n s v s' :
  wf_stream s -> 1 <= n <= 8 ->
  readUint n s = (Ok v, s') <->
  exists d r, input s = d ++ r /\ zlen d = n /\ v = be_to_Z d /\
    (2 <= n -> nth 0 d 0 <> 0) /\ room n s /\ s' = set_input r (took n s).
Proof.
  intros Hwf Hn. unfold readUint. case_if; [lia|]. case_if.
  - subst n. rewrite readByte_iff by done. split.
    + intros (r & Hi & Hr & ->). exists [v], r. by rewrite be_to_Z_single.
    + intros (d & r & Hi & Hd & -> & _ & Hr & ->). destruct d as [|x [|??]]; [done| |].
      * rewrite be_to_Z_single. by exists r.
      * unfold zlen in Hd. simpl in Hd. lia.
  - case_if; [lia|]. rewrite sbind_ok. setoid_rewrite readFull_iff; [|done|lia]. split.
    + intros (d & s1 & (r & Hi & Hd & Hr & ->) & H). case_if_in H; [done|].
      injection H as <- <-. exists d, r. by rewrite be_to_Z_zeros.
    + intros (d & r & Hi & Hd & -> & Hne & Hr & ->). exists d, (set_input r (took n s)).
      split; [naive_solver|]. case_if; [lia|]. by rewrite be_to_Z_zeros.
Qed.

(** * Heads *)

(** [is_head k size bv h]: [h] is the canonical head of a value of kind [k] with
    [size] content bytes to follow; a single byte is its own head. *)
Definition is_head (k : Kind) (size bv : Z) (h : bytes) : Prop :=
  match k with
  | Byte => h = [bv] /\ bv < 128 /\ size = 0
  | String => h = enc_head 128 183 size /\ 0 <= size < 2 ^ 64 /\ bv = 0
  | List => h = enc_head 192 247 size /\ 0 <= size < 2 ^ 64 /\ bv = 0
  end.

Lemma is_head_pos k size bv h : is_head k size bv h -> 1 <= zlen h.
Proof.
  destruct k; simpl; [by intros (-> & _)|intros (-> & ? & _)..];
    rewrite zlen_enc_head by done; pose proof (headsize_bound size); lia.
Qed.

Lemma is_head_size k size bv h : is_head k size bv h -> 0 <= size < 2 ^ 64.
Proof. destruct k; simpl; intuition lia. Qed.

(** A size of at least 56 whose digits have no leading zero is in minimal form. *)
Lemma digits_big d :
  wf_bytes d -> 56 <= be_to_Z d -> (2 <= zlen d -> nth 0 d 0 <> 0) ->
  d = big_bytes (be_to_Z d) /\ Z.of_nat (bytelen (be_to_Z d)) = zlen d.
Proof.
  intros Hwf Hv Hne. destruct d as [|x d]; [cbn in Hv; lia|].
  assert (x <> 0) as Hx.
  { destruct d as [|y d]; [rewrite be_to_Z_single in Hv; lia|]. apply Hne.
    unfold zlen. simpl. lia. }
  pose proof (big_bytes_be_to_Z x d Hwf Hx) as Hb. split; [done|].
  rewrite <-zlen_big_bytes, Hb by lia. done.
Qed.

(** One step of reading leaves a state of this shape. *)
Definition after (n : Z) (bv : Z) (r : bytes) (s : Stream) : Stream :=
  set_byteval bv (set_input r (took n s)).

Lemma wf_after n bv d r s :
  wf_stream s -> room n s -> 0 <= n -> input s = d ++ r -> wf_stream (after n bv r s).
Proof.
  intros Hwf Hr Hn Hi. destruct (wf_took n s Hn Hwf Hr) as (_ & H2 & H3).
  destruct Hwf as (Hwf & _). rewrite Hi in Hwf. by apply wf_bytes_app in Hwf as [_ ?].
Qed.

Lemma took_after m n bv r r' s : set_input r' (took m (after n bv r s)) = after (n + m) bv r' s.
Proof.
  unfold after, took, set_input, set_byteval. cbn. rewrite bump_bump.
  destruct (limited s); f_equal; lia.
Qed.

Lemma readSizedKind_iff k lt bv0 s b r slen size s' :
  wf_stream s -> input s = b :: r -> room 1 s -> 1 <= slen <= 8 -> b = lt + slen ->
  readSizedKind k slen (after 1 bv0 r s) = (Ok (k, size, None), s') <->
  exists r', 56 <= size < 2 ^ 64 /\ b :: r = ((lt + Z.of_nat (bytelen size)) :: big_bytes size) ++ r' /\
    room (1 + Z.of_nat (bytelen size)) s /\ s' = after (1 + Z.of_nat (bytelen size)) bv0 r' s.
Proof.
  intros Hwf Hi Hr Hs ->. unfold readSizedKind.
  assert (wf_stream (after 1 bv0 r s)) as Hwf1 by (by apply (wf_after 1 bv0 [lt + slen])).
  pose proof Hwf as (Hwfi & _). rewrite Hi in Hwfi. apply wf_bytes_cons in Hwfi as [_ Hwfr].
  split.
  - destruct (readUint slen (after 1 bv0 r s)) as [[v|e|] s1] eqn:Eu; [|done..].
    case_if; [done|]. intros [= <- <-].
    apply readUint_iff in Eu as (d & r' & Hd & Hl & -> & Hne & Hroom & ->); [|done..].
    cbn in Hd. rewrite Hd in Hwfr. apply wf_bytes_app in Hwfr as [Hwfd _].
    rewrite <-Hl in Hne. destruct (digits_big d Hwfd E Hne) as [Hdb Hbl].
    assert (room (1 + slen) s) as Hroom' by (by apply room_took).
    exists r'. rewrite Hbl, Hl, <-Hdb, Hd. split_and!; try done.
    + pose proof (be_to_Z_bound d Hwfd) as [_ Hb]. eapply Z.lt_le_trans; [exact Hb|].
      rewrite Hl. change (2 ^ 64) with (256 ^ 8). apply Z.pow_le_mono_r; lia.
    + apply took_after.
  - intros (r' & Hsz & Hb & Hroom & ->). injection Hb as Hb ->.
    assert (slen = Z.of_nat (bytelen size)) as -> by lia.
    rewrite (proj2 (readUint_iff (Z.of_nat (bytelen size)) _ size
      (after (1 + Z.of_nat (bytelen size)) bv0 r' s) Hwf1 Hs)).
    { case_if; [lia|done]. }
    exists (big_bytes size), r'. cbn [input after set_byteval set_input].
    rewrite zlen_big_bytes, be_to_Z_big_bytes by lia. split_and!; try done.
    + destruct (big_bytes_head size ltac:(lia)) as (x & l & -> & Hx). done.
    + by apply room_took.
    + symmetry. apply took_after.
Qed.

Lemma readSizedKind_kind k slen s k' size e s' :
  readSizedKind k slen s = (Ok (k', size, e), s') -> k' = k.
Proof. unfold readSizedKind. destruct (readUint slen s) as [[]?]; naive_solver. Qed.

Lemma stream_readKind_sound s k size s' :
  wf_stream s -> readKind s = (Ok (k, size, None), s') ->
  exists h r bv, is_head k size bv h /\ input s = h ++ r /\ room (zlen h) s /\
    s' = after (zlen h) bv r s.
Proof.
  intros Hwf. unfold readKind.
  destruct (readByte s) as [[b|e|] s1] eqn:Eb; [|by destruct (stack s1), e|done].
  apply readByte_iff in Eb as (r & Hi & Hr & ->); [|done].
  pose proof Hwf as (Hwfi & _). rewrite Hi in Hwfi. apply wf_bytes_cons in Hwfi as [Hb _].
  unfold is_byte in Hb. change (set_byteval 0 (set_input r (took 1 s))) with (after 1 0 r s).
  assert (forall k st lt slen, head_tags k st lt -> 1 <= slen <= 8 -> b = lt + slen ->
    readSizedKind k slen (after 1 0 r s) = (Ok (k, size, None), s') ->
    exists h r bv, is_head k size bv h /\ input s = h ++ r /\ room (zlen h) s /\
      s' = after (zlen h) bv r s) as Hsized.
  { intros k' st lt slen Ht Hsl Hbl Hsk.
    apply (readSizedKind_iff k' lt 0 s b) in Hsk as (r' & Hsz & Hbr & Hroom & ->); [|done..].
    exists ((lt + Z.of_nat (bytelen size)) :: big_bytes size), r', 0.
    rewrite zlen_cons, zlen_big_bytes, Hi, Hbr by lia. split; [|done].
    destruct Ht as [(->&->&->)|(->&->&->)]; simpl; rewrite enc_head_large by lia; split; lia || done. }
  repeat case_if.
  - intros [= <- <- <-]. by exists [b], r, b.
  - intros [= <- <- <-]. exists [b], r, 0. split; [|done]. split; [|lia].
    rewrite enc_head_small by lia. f_equal. lia.
  - intros Hsk. pose proof (readSizedKind_kind _ _ _ _ _ _ _ Hsk) as ->.
    apply (Hsized String 128 183) in Hsk; [done|by left|lia..].
  - intros [= <- <- <-]. exists [b], r, 0. split; [|done]. split; [|lia].
    rewrite enc_head_small by lia. f_equal. lia.
  - intros Hsk. pose proof (readSizedKind_kind _ _ _ _ _ _ _ Hsk) as ->.
    apply (Hsized List 192 247) in Hsk; [done|by right|lia..].
Qed.

Lemma stream_readKind_complete s k size bv h r :
  wf_stream s -> is_head k size bv h -> input s = h ++ r -> room (zlen h) s ->
  readKind s = (Ok (k, size, None), after (zlen h) bv r s).
Proof.
  intros Hwf Hh Hi Hr. pose proof (is_head_pos _ _ _ _ Hh) as Hpos.
  destruct h as [|b h]; [unfold zlen in Hpos; simpl in Hpos; lia|]. unfold readKind. cbn [app] in Hi.
  assert (room 1 s) as Hr1 by (by eapply room_mono).
  rewrite (proj2 (readByte_iff s b (set_input (h ++ r) (took 1 s)) Hwf)) by (by exists (h ++ r)).
  change (set_byteval 0 (set_input (h ++ r) (took 1 s))) with (after 1 0 (h ++ r) s).
  destruct k; simpl in Hh.
  - destruct Hh as ([= -> ->] & Hb & ->). case_if; [|lia]. done.
  - destruct Hh as (Hh & Hsz & ->). destruct (decide (size < 56)).
    + rewrite enc_head_small in Hh by done. injection Hh as -> ->.
      do 2 (case_if; try lia). by replace (128 + size - 128) with size by lia.
    + rewrite enc_head_large in Hh by lia. injection Hh as -> ->.
      pose proof (bytelen_u64 size Hsz). pose proof (bytelen_ge1 size ltac:(lia)).
      do 3 (case_if; try lia).
      rewrite zlen_cons, zlen_big_bytes in * by lia.
      eapply (readSizedKind_iff String 183); [done|exact Hi|done|lia|lia|].
      exists r. split_and!; try done; lia.
  - destruct Hh as (Hh & Hsz & ->). destruct (decide (size < 56)).
    + rewrite enc_head_small in Hh by done. injection Hh as -> ->.
      do 4 (case_if; try lia). by replace (192 + size - 192) with size by lia.
    + rewrite enc_head_large in Hh by lia. injection Hh as -> ->.
      pose proof (bytelen_u64 size Hsz). pose proof (bytelen_ge1 size ltac:(lia)).
      do 4 (case_if; try lia).
      rewrite zlen_cons, zlen_big_bytes in * by lia.
      eapply (readSizedKind_iff List 247); [done|exact Hi|done|lia|lia|].
      exists r. split_and!; try done; lia.
Qed.

(** * Moving through the stream *)

(** [adv n r s s']: from [s] to [s'], [n] bytes were read and [r] is left. *)
Record adv (n : Z) (r : bytes) (s s' : Stream) : Prop := {
  adv_input : input s' = r;
  adv_limited : limited s' = limited s;
  adv_remaining : remaining s' = if limited s then remaining s - n else remaining s;
  adv_stack : stack s' = bump n (stack s)
}.

Lemma adv_after n bv r s : adv n r s (after n bv r s).
Proof. by constructor. Qed.

Lemma adv_took n r s s1 s2 m r1 :
  adv m r1 s s1 -> adv n r s1 s2 -> adv (m + n) r s s2.
Proof.
  intros [_ L1 R1 S1] [I2 L2 R2 S2]. constructor; [done|congruence| |].
  - rewrite R2, R1, L1. destruct (limited s); lia.
  - by rewrite S2, S1, bump_bump.
Qed.

Lemma adv_room n r s s' m : adv n r s s' -> room m s' <-> room (n + m) s.
Proof.
  intros [_ L R S]. unfold room. rewrite L, R, S.
  destruct (stack s); simpl; destruct (limited s); intuition lia.
Qed.

Lemma adv_room_back n r s s' m : adv n r s s' -> room m s' -> room (n + m) s.
Proof. intros Ha. by apply (adv_room n r s s' m). Qed.

Lemma adv_wf n d r s s' :
  adv n r s s' -> wf_stream s -> 0 <= n -> room n s -> input s = d ++ r -> wf_stream s'.
Proof.
  intros [I L R S] Hwf Hn Hr Hi. destruct (wf_after n 0 d r s Hwf Hr Hn Hi) as (H1 & H2 & H3).
  unfold wf_stream. rewrite I, R, S. done.
Qed.

(** The state in which [Kind] has cached the value ahead. *)
Record ready (k : Kind) (size bv : Z) (s : Stream) : Prop := {
  ready_kind : kind s = Some k;
  ready_err : kinderr s = None;
  ready_size : ssize s = size;
  ready_byte : byteval s = bv
}.

Lemma GetKind_ready k size bv s : ready k size bv s -> GetKind s = (Ok (k, size), s).
Proof. intros [K E S B]. unfold GetKind. by rewrite K, E, S. Qed.

Lemma GetKind_complete s k size bv h r :
  kind s = None -> wf_stream s -> is_head k size bv h -> input s = h ++ r ->
  room (zlen h + size) s ->
  exists s1, GetKind s = (Ok (k, size), s1) /\ ready k size bv s1 /\ adv (zlen h) r s s1.
Proof.
  intros Hk Hwf Hh Hi Hroom. unfold GetKind. rewrite Hk.
  pose proof (is_head_pos _ _ _ _ Hh) as Hpos. pose proof (is_head_size _ _ _ _ Hh) as Hsz.
  assert (match stack (set_kinderr None s) with [] => false | tos :: _ => pos tos =? lsize tos end
    = false) as ->.
  { simpl. destruct Hroom as [Hr _]. destruct (stack s); [done|]. apply Z.eqb_neq. lia. }
  rewrite (stream_readKind_complete (set_kinderr None s) k size bv h r);
    [|done..|eapply room_mono; [|exact Hroom]; lia].
  set (s1 := after _ _ _ _). pose proof (adv_after (zlen h) bv r (set_kinderr None s)) as Ha.
  fold s1 in Ha. assert (room size s1) as Hr1 by (by eapply adv_room).
  assert (wf_stack (stack s1)) as Hws.
  { assert (wf_stream s1) as Hw; [|by destruct Hw as (_&_&?)].
    eapply adv_wf; [exact Ha|done|lia| |exact Hi]. eapply room_mono; [|exact Hroom]; lia. }
  assert (match stack s1 with
    | [] => if limited s1 && (remaining s1 <? size) then Some ErrValueTooLarge else None
    | tos :: _ => if u64 (lsize tos - pos tos) <? size then Some ErrElemTooLarge else None
    end = None) as ->.
  { destruct Hr1 as [Hr1 Hr2]. destruct (stack s1) as [|t st].
    - destruct (limited s1); [|done]. specialize (Hr2 eq_refl). cbn [andb]. case_if; [lia|done].
    - simpl in Hws. rewrite u64_small by (unfold is_u64; lia). case_if; [lia|done]. }
  eexists; split; [done|]. split; [by constructor|]. by constructor.
Qed.

Lemma GetKind_sound s k size s1 :
  kind s = None -> wf_stream s -> GetKind s = (Ok (k, size), s1) ->
  exists h r bv, is_head k size bv h /\ input s = h ++ r /\ room (zlen h) s /\
    ready k size bv s1 /\ adv (zlen h) r s s1 /\
    match stack s with [] => True | t :: _ => pos t + zlen h + size <= lsize t end.
Proof.
  intros Hk Hwf. unfold GetKind. rewrite Hk.
  destruct (match stack (set_kinderr None s) with [] => false | tos :: _ => _ end) eqn:Eend; [done|].
  destruct (readKind (set_kinderr None s)) as [[[[k' size'] e]|e|] s2] eqn:Er; [|done..].
  destruct e as [e|]; [done|].
  apply stream_readKind_sound in Er as (h & r & bv & Hh & Hi & Hroom & ->); [|done].
  pose proof (adv_after (zlen h) bv r (set_kinderr None s)) as Ha.
  set (s2 := after _ _ _ _) in *. pose proof (is_head_pos _ _ _ _ Hh).
  assert (wf_stream s2) as (_ & _ & Hws) by (eapply adv_wf; [exact Ha|done|lia|done|exact Hi]).
  destruct (match stack s2 with [] => _ | tos :: _ => _ end) eqn:Echk; [done|].
  intros [= <- <- <-]. exists h, r, bv. split_and!; try done.
  assert (stack s2 = bump (zlen h) (stack s)) as Hst by done. rewrite Hst in Echk, Hws.
  destruct (stack s) as [|t st]; [done|]. simpl in Echk, Hws.
  rewrite u64_small in Echk by (unfold is_u64; lia). case_if_in Echk; [done|]. lia.
Qed.

(** An operation that starts with [Kind] may also start after it. *)
Definition starts_with_kind {A} (m : SR A) : Prop :=
  forall s x s1, GetKind s = (Ok x, s1) -> m s1 = m s.

Lemma GetKind_idem s x s1 : GetKind s = (Ok x, s1) -> GetKind s1 = (Ok x, s1).
Proof.
  unfold GetKind at 1. destruct (kind s) as [k|] eqn:Ek.
  - destruct (kinderr s) eqn:Ee; [done|]. intros [= <- <-]. unfold GetKind. by rewrite Ek, Ee.
  - destruct (match stack _ with [] => false | _ => _ end); [done|].
    destruct (readKind _) as [[[[k size] e]|e|] s2]; [|done..].
    destruct (match e with Some _ => _ | None => _ end) eqn:Ec; [done|].
    intros [= <- <-]. done.
Qed.

Lemma starts_bind {A} (f : Kind * Z -> SR A) : starts_with_kind (sbind GetKind f).
Proof. intros s x s1 H. unfold sbind. by rewrite H, (GetKind_idem _ _ _ H). Qed.

(** * Strings *)
Lemma enc_string_cases c :
  (exists x, c = [x] /\ x < 128 /\ enc_string c = [x]) \/
  ((forall x, c = [x] -> 128 <= x) /\ enc_string c = enc_head 128 183 (zlen c) ++ c).
Proof.
  destruct c as [|x [|y c]]; [by right| |by right]. unfold enc_string. case_if.
  - left. exists x. split_and!; [done|lia|done].
  - right. split; [|done]. intros ? [= ->]. lia.
Qed.

Lemma readFull_adv n d r s1 :
  wf_stream s1 -> 0 <= n -> input s1 = d ++ r -> zlen d = n -> room n s1 ->
  exists s2, readFull n s1 = (Ok d, s2) /\ kind s2 = None /\ adv n r s1 s2.
Proof.
  intros Hwf Hn Hi Hd Hr. exists (set_input r (took n s1)). split; [|by split].
  apply readFull_iff; [done..|]. by exists r.
Qed.

Lemma Bytes_complete c r s :
  kind s = None -> wf_stream s -> input s = enc_string c ++ r -> zlen c < 2 ^ 63 ->
  room (zlen (enc_string c)) s ->
  exists s', Bytes s = (Ok c, s') /\ kind s' = None /\ adv (zlen (enc_string c)) r s s'.
Proof.
  intros Hk Hwf Hi Hc Hroom. pose proof (zlen_nonneg c).
  destruct (enc_string_cases c) as [(x & -> & Hx & He)|[Hx He]]; rewrite He in *.
  - destruct (GetKind_complete s Byte 0 x [x] r) as (s1 & Hg & Hrd & Ha); [done..|].
    unfold Bytes. rewrite (sbind_run _ _ _ _ _ Hg). rewrite (ready_byte _ _ _ _ Hrd).
    eexists; split; [done|]. split; [done|]. destruct Ha. by constructor.
  - rewrite <-app_assoc in Hi. rewrite zlen_app in *.
    destruct (GetKind_complete s String (zlen c) 0 (enc_head 128 183 (zlen c)) (c ++ r))
      as (s1 & Hg & Hrd & Ha); [done|done|by repeat split; lia|done|done|].
    assert (wf_stream s1) as Hwf1.
    { eapply adv_wf; [exact Ha|done|apply zlen_nonneg|eapply room_mono; [|exact Hroom]; lia|done]. }
    destruct (readFull_adv (zlen c) c r s1) as (s2 & Hf & Hk2 & Ha2);
      [done..|by apply Ha|done|by eapply adv_room|].
    exists s2. split; [|split; [done|by eapply adv_took]].
    unfold Bytes. rewrite (sbind_run _ _ _ _ _ Hg). unfold make_ok. case_if; [lia|].
    rewrite (sbind_run _ _ _ _ _ Hf). case_if; [|done].
    destruct c as [|y [|??]]; [done| |unfold zlen in *; simpl in *; lia].
    specialize (Hx y eq_refl). simpl in *. lia.
Qed.

Lemma Bytes_sound c s s' :
  kind s = None -> wf_stream s -> Bytes s = (Ok c, s') ->
  exists r, input s = enc_string c ++ r /\ room (zlen (enc_string c)) s /\ kind s' = None /\
    adv (zlen (enc_string c)) r s s'.
Proof.
  intros Hk Hwf. unfold Bytes. rewrite sbind_ok. intros ([k size] & s1 & Hg & Hs).
  apply GetKind_sound in Hg as (h & r & bv & Hh & Hi & Hroom & Hrd & Ha & _); [|done..].
  destruct k; simpl in Hh.
  - destruct Hh as (-> & Hb & ->). injection Hs as <- <-. rewrite (ready_byte _ _ _ _ Hrd).
    assert (enc_string [bv] = [bv]) as -> by (simpl; case_if; [done|lia]).
    exists r. split_and!; try done. destruct Ha. by constructor.
  - destruct Hh as (-> & Hsz & ->). case_if_in Hs; [done|].
    apply sbind_ok in Hs as (d & s2 & Hf & Hs). case_if_in Hs; [done|]. injection Hs as <- <-.
    assert (wf_stream s1) as Hwf1.
    { eapply adv_wf; [exact Ha|done|apply zlen_nonneg|done|done]. }
    apply readFull_iff in Hf as (r' & Hi' & Hd & Hr' & ->); [|done|lia].
    rewrite (adv_input _ _ _ _ Ha) in Hi'. subst r.
    assert (enc_string d = enc_head 128 183 size ++ d) as Hed.
    { destruct (enc_string_cases d) as [(x & -> & Hx & _)|[_ ->]]; [|by rewrite Hd].
      change (zlen [x]) with 1 in Hd. subst size. simpl in E0. simp_bool; lia. }
    exists r'. rewrite Hed, <-app_assoc, zlen_app, Hd. split_and!; try done.
    + by eapply adv_room_back.
    + eapply adv_took; [exact Ha|]. by constructor.
  - done.
Qed.

(** * Unsigned integers *)
Lemma uint_complete bits i r s :
  kind s = None -> wf_stream s -> input s = enc_uint i ++ r -> 0 <= i < 2 ^ 64 ->
  Z.of_nat (bytelen i) <= bits / 8 ->
  room (zlen (enc_uint i)) s ->
  exists s', uint bits s = (Ok i, s') /\ kind s' = None /\ adv (zlen (enc_uint i)) r s s'.
Proof.
  intros Hk Hwf Hi Hr Hbits Hroom. pose proof (bytelen_u64 i Hr) as Hbl.
  destruct (decide (i = 0)) as [->|Hi0]; [|destruct (decide (i < 128)) as [Hs|Hs]].
  - destruct (GetKind_complete s String 0 0 [128] r) as (s1 & Hg & Hrd & Ha); [done..|].
    exists (set_kind None s1). split; [|split; [done|destruct Ha; by constructor]].
    unfold uint. rewrite (sbind_run _ _ _ _ _ Hg). change (bytelen 0) with O in Hbits.
    case_if; [lia|]. done.
  - rewrite enc_uint_small in * by lia.
    destruct (GetKind_complete s Byte 0 i [i] r) as (s1 & Hg & Hrd & Ha); [done..|].
    exists (set_kind None s1). split; [|split; [done|destruct Ha; by constructor]].
    unfold uint. rewrite (sbind_run _ _ _ _ _ Hg). rewrite (ready_byte _ _ _ _ Hrd).
    case_if; [lia|done].
  - pose proof (bytelen_ge1 i ltac:(lia)). rewrite enc_uint_large in * by lia.
    set (n := Z.of_nat (bytelen i)) in *. pose proof (zlen_big_bytes i ltac:(lia)) as Hz.
    rewrite zlen_cons, Hz in *. fold n in Hroom |- *.
    destruct (GetKind_complete s String n 0 [128 + n] (big_bytes i ++ r))
      as (s1 & Hg & Hrd & Ha); [done|done| |done|done|].
    { split; [by rewrite enc_head_small by lia|lia]. }
    assert (wf_stream s1) as Hwf1.
    { eapply adv_wf; [exact Ha|done|apply zlen_nonneg|eapply room_mono; [|exact Hroom]|by instantiate (1 := [128 + n])].
      change (zlen [128 + n]) with 1. lia. }
    exists (set_input r (took n s1)).
    assert (readUint n s1 = (Ok i, set_input r (took n s1))) as Hu.
    { apply readUint_iff; [done|lia|]. exists (big_bytes i), r.
      rewrite be_to_Z_big_bytes, (adv_input _ _ _ _ Ha) by lia. split_and!; try done.
      - destruct (big_bytes_head i ltac:(lia)) as (x & l & -> & ?). done.
      - by eapply adv_room. }
    split; [|split; [done|]].
    + unfold uint. rewrite (sbind_run _ _ _ _ _ Hg). case_if; [lia|].
      rewrite u8_small by (unfold is_byte; lia). rewrite Hu. case_if; [|done]. lia.
    + eapply adv_took; [exact Ha|]. by constructor.
Qed.

Lemma uint_sound bits i s s' :
  kind s = None -> wf_stream s -> 0 <= bits <= 64 -> uint bits s = (Ok i, s') ->
  exists r, 0 <= i < 256 ^ Z.max 1 (bits / 8) /\ input s = enc_uint i ++ r /\
    room (zlen (enc_uint i)) s /\ kind s' = None /\ adv (zlen (enc_uint i)) r s s'.
Proof.
  intros Hk Hwf Hbits. unfold uint. rewrite sbind_ok. intros ([k size] & s1 & Hg & Hs).
  apply GetKind_sound in Hg as (h & r & bv & Hh & Hi & Hroom & Hrd & Ha & _); [|done..].
  assert (bits / 8 <= 8) by (apply Z.div_le_upper_bound; lia).
  pose proof (proj1 Hwf) as Hwfi. rewrite Hi in Hwfi.
  assert (256 ^ 1 <= 256 ^ Z.max 1 (bits / 8)) by (apply Z.pow_le_mono_r; lia).
  destruct k; simpl in Hh.
  - destruct Hh as (-> & Hb & ->). apply wf_bytes_cons in Hwfi as [Hbyte _]. unfold is_byte in Hbyte.
    rewrite (ready_byte _ _ _ _ Hrd) in Hs. case_if_in Hs; [done|]. injection Hs as <- <-.
    exists r. rewrite enc_uint_small by lia. split_and!; try done; [lia..|].
    destruct Ha. by constructor.
  - destruct Hh as (-> & Hsz & ->). case_if_in Hs; [done|].
    rewrite u8_small in Hs by (unfold is_byte; lia).
    assert (wf_stream s1) as Hwf1 by (eapply adv_wf; [exact Ha|done|apply zlen_nonneg|done|done]).
    destruct (readUint size s1) as [[v|e|] s2] eqn:Hu; [|by destruct e|done].
    case_if_in Hs; [done|]. injection Hs as <- <-.
    destruct (decide (size = 0)) as [->|].
    + injection Hu as <- <-. exists r. split_and!; try done; [lia..|]. destruct Ha. by constructor.
    + apply readUint_iff in Hu as (d & r' & Hd & Hl & -> & Hne & Hr' & ->); [|done|lia].
      rewrite (adv_input _ _ _ _ Ha) in Hd. subst r.
      apply wf_bytes_app in Hwfi as [_ [Hwd _]%wf_bytes_app].
      pose proof (be_to_Z_bound d Hwd) as Hbd. rewrite Hl in Hbd.
      assert (128 <= be_to_Z d) by (apply andb_false_iff in E0 as [?|?]; simp_bool; lia).
      rewrite <-Hl in Hne. destruct (digits_big d Hwd ltac:(lia) Hne) as [Hdb Hbl].
      assert (256 ^ size <= 256 ^ 8) by (apply Z.pow_le_mono_r; lia).
      assert (256 ^ size <= 256 ^ Z.max 1 (bits / 8)) by (apply Z.pow_le_mono_r; lia).
      change (256 ^ 8) with (2 ^ 64) in *.
      assert (enc_uint (be_to_Z d) = enc_head 128 183 size ++ d) as Heu.
      { rewrite enc_uint_large, <-Hdb, Hbl, Hl by lia. by rewrite enc_head_small by lia. }
      exists r'. rewrite Heu, <-app_assoc, zlen_app, Hl. split_and!; try done; [lia..| |].
      * by eapply adv_room_back.
      * eapply adv_took; [exact Ha|]. by constructor.
  - done.
Qed.

(** * Lists *)

(** The stream inside a list of [n] bytes that starts at [s]. *)
Definition opened (n : Z) (s : Stream) : Stream :=
  set_size 0 (set_kind None (set_stack (ListPos 0 n :: stack s) s)).

Lemma wf_opened n s :
  wf_stream s -> 0 <= n < 2 ^ 64 ->
  match stack s with [] => True | t :: _ => pos t + n <= lsize t end -> wf_stream (opened n s).
Proof. intros (Hi & Hr & Hst) Hn Hp. split_and!; [done..|]. simpl. split_and!; lia || done. Qed.

Lemma room_opened n m s : 0 <= m <= n -> room n s -> room m (opened n s).
Proof. intros Hm [_ Hl]. split; simpl; [lia|]. intros H. specialize (Hl H). lia. Qed.

Lemma ListStart_complete n r s :
  kind s = None -> wf_stream s -> 0 <= n < 2 ^ 64 ->
  input s = enc_head 192 247 n ++ r -> room (zlen (enc_head 192 247 n) + n) s ->
  exists s1, ListStart s = (Ok n, opened n s1) /\ adv (zlen (enc_head 192 247 n)) r s s1.
Proof.
  intros Hk Hwf Hn Hi Hroom.
  destruct (GetKind_complete s List n 0 _ r Hk Hwf (conj eq_refl (conj Hn eq_refl)) Hi Hroom)
    as (s1 & Hg & Hrd & Ha).
  exists s1. split; [|done]. unfold ListStart. by rewrite (sbind_run _ _ _ _ _ Hg).
Qed.

Lemma ListStart_sound n s s' :
  kind s = None -> wf_stream s -> ListStart s = (Ok n, s') ->
  exists r s1, 0 <= n < 2 ^ 64 /\ input s = enc_head 192 247 n ++ r /\
    room (zlen (enc_head 192 247 n)) s /\ adv (zlen (enc_head 192 247 n)) r s s1 /\
    s' = opened n s1 /\ wf_stream (opened n s1) /\
    match stack s1 with [] => True | t :: _ => pos t + n <= lsize t end.
Proof.
  intros Hk Hwf. unfold ListStart. rewrite sbind_ok. intros ([k size] & s1 & Hg & Hs).
  apply GetKind_sound in Hg as (h & r & bv & Hh & Hi & Hroom & Hrd & Ha & Hfit); [|done..].
  destruct k; [done..|]. simpl in Hh. destruct Hh as (-> & Hsz & ->). injection Hs as <- <-.
  assert (match stack s1 with [] => True | t :: _ => pos t + size <= lsize t end) as Hp.
  { rewrite (adv_stack _ _ _ _ Ha). destruct (stack s); simpl; lia || done. }
  exists r, s1. split_and!; try done; [lia..|]. apply wf_opened; [|done..].
  eapply adv_wf; [exact Ha|done|apply zlen_nonneg|done|done].
Qed.

(** Leaving a list of [n] bytes that was read to its end. *)
Lemma ListEnd_complete n r s s1 s2 m r1 :
  adv m r1 s s1 -> wf_stream s1 -> 0 <= n < 2 ^ 64 ->
  match stack s1 with [] => True | t :: _ => pos t + n <= lsize t end ->
  adv n r (opened n s1) s2 ->
  exists s3, ListEnd s2 = (Ok tt, s3) /\ kind s3 = None /\ adv (m + n) r s s3.
Proof.
  intros Ha Hwf Hn Hp Hb. unfold ListEnd. pose proof (adv_stack _ _ _ _ Hb) as Hst.
  simpl in Hst. rewrite Hst. cbn [pos lsize]. rewrite Z.add_0_l, Z.eqb_refl. cbn [negb].
  eexists; split; [done|]. split; [done|].
  eapply adv_took; [exact Ha|]. destruct Hb as [I L R _]. constructor; [done..|].
  simpl. destruct Hwf as (_ & _ & Hws). destruct (stack s1) as [|p st]; [done|].
  simpl in *. rewrite u64_small by (unfold is_u64; lia). done.
Qed.

Lemma ListEnd_sound s2 s3 :
  ListEnd s2 = (Ok tt, s3) -> exists t st, stack s2 = t :: st /\ pos t = lsize t /\ kind s3 = None.
Proof.
  unfold ListEnd. destruct (stack s2) as [|t st]; [done|]. case_if; [done|].
  intros [= <-]. by exists t, st.
Qed.

(** * Raw values *)
Lemma Raw_complete k c e r s :
  kind s = None -> wf_stream s -> is_raw k c e -> input s = e ++ r ->
  zlen e < 2 ^ 63 -> room (zlen e) s ->
  exists s', Raw s = (Ok e, s') /\ kind s' = None /\ adv (zlen e) r s s'.
Proof.
  intros Hk Hwf Hraw Hi Hlen Hroom.
  assert (forall st lt, head_tags k st lt -> e = enc_head st lt (zlen c) ++ c ->
    exists s', Raw s = (Ok e, s') /\ kind s' = None /\ adv (zlen e) r s s') as Hlong.
  { intros st lt Ht ->. rewrite <-app_assoc in Hi. rewrite zlen_app in *.
    pose proof (zlen_nonneg c). pose proof (zlen_nonneg (enc_head st lt (zlen c))).
    assert (is_head k (zlen c) 0 (enc_head st lt (zlen c))) as Hh
      by (destruct Ht as [(->&->&->)|(->&->&->)]; repeat split; lia).
    destruct (GetKind_complete s k (zlen c) 0 _ (c ++ r) Hk Hwf Hh Hi Hroom)
      as (s1 & Hg & Hrd & Ha).
    assert (wf_stream s1) as Hwf1.
    { eapply adv_wf; [exact Ha|done|apply zlen_nonneg|eapply room_mono; [|exact Hroom]; lia|done]. }
    destruct (readFull_adv (zlen c) c r s1) as (s2 & Hf & Hk2 & Ha2);
      [done..|by apply Ha|done|by eapply adv_room|].
    exists s2. split; [|split; [done|by eapply adv_took]].
    pose proof (zlen_enc_head st lt (zlen c) ltac:(lia)) as Hhs.
    pose proof (headsize_bound (zlen c) ltac:(lia)).
    assert (puthead (replicate (Z.to_nat (headsize (zlen c))) 0 ++ c) st lt (zlen c) =
      Ok (enc_head st lt (zlen c) ++ c, headsize (zlen c))) as Hput.
    { assert (length (enc_head st lt (zlen c)) = Z.to_nat (headsize (zlen c))) as Hlh
        by (rewrite <-Hhs, to_nat_zlen; done).
      rewrite puthead_spec.
      - rewrite Hlh, drop_app_length' by (by rewrite length_replicate). done.
      - lia.
      - destruct Ht as [(->&->&->)|(->&->&->)]; lia.
      - destruct Ht as [(->&->&->)|(->&->&->)]; lia.
      - rewrite zlen_app. unfold zlen at 2. rewrite length_replicate, Z2Nat.id by lia. lia. }
    unfold Raw. rewrite (sbind_run _ _ _ _ _ Hg). cbv zeta. unfold make_ok.
    rewrite u64_small by (unfold is_u64; lia).
    replace (headsize (zlen c) + zlen c - headsize (zlen c)) with (zlen c) by lia.
    destruct Ht as [(->&->&->)|(->&->&->)];
      (case_if; [apply orb_true_iff in E as [?|?]; simp_bool; lia|];
       rewrite (sbind_run _ _ _ _ _ Hf); by rewrite Hput). }
  destruct k; simpl in Hraw.
  - destruct Hraw as (x & -> & -> & Hx).
    destruct (GetKind_complete s Byte 0 x [x] r) as (s1 & Hg & Hrd & Ha); [done..|].
    unfold Raw. rewrite (sbind_run _ _ _ _ _ Hg). rewrite (ready_byte _ _ _ _ Hrd).
    eexists; split; [done|]. split; [done|]. destruct Ha. by constructor.
  - destruct Hraw as [-> _]. by apply (Hlong 128 183); [left|].
  - by apply (Hlong 192 247); [right|].
Qed.
