(* ===== verification/RlpDecode.v ===== *)
(** rlp/decode.go, second half: the decoders that [makeDecoder] builds from a
    type, and [DecodeBytes].  Decoding is into a fresh (zero) destination. *)

From S2P Require Import Prelude RlpTypes RlpEncode RlpRaw RlpStream.

(** [wrapStreamError]; the type it records is dropped. *)
Definition wrapStreamError (e : RlpError) : RlpError :=
  match e with
  | ErrCanonInt => decodeError msgCanonInt
  | ErrCanonSize => decodeError msgCanonSize
  | ErrExpectedList => decodeError msgExpectedList
  | ErrExpectedString => decodeError msgExpectedString
  | errUintOverflow => decodeError msgStringTooLong
  | errNotAtEOL => decodeError msgListTooManyElems
  | e => e
  end.

Definition swrap {A} (m : SR A) : SR A := fun s =>
  match m s with
  | (Err e, s) => (Err (wrapStreamError e), s)
  | r => r
  end.

Definition smap {A B} (f : A -> B) (m : SR A) : SR B := sbind m (fun a => sret (f a)).

Definition decodeRawValue : SR val := smap VBytes Raw.
Definition decodeUint (bits : Z) : SR val := smap VUint (swrap (uint bits)).
Definition decodeBool : SR val := smap VBool (swrap Bool).
Definition decodeString : SR val := smap VBytes (swrap Bytes).
Definition decodeByteSlice : SR val := smap VBytes (swrap Bytes).

Definition decodeBigInt : SR val :=
  do! b := swrap Bytes in
  match b with
  | 0 :: _ => serr (wrapStreamError ErrCanonInt)
  | _ => sret (VBig (be_to_Z b))
  end.

(** [decodeSliceElems]: elements until the end of the list.  Growing the slice has
    no counterpart. *)
Fixpoint decodeSliceElems (fuel : nat) (elemdec : SR val) (acc : list val) : SR (list val) :=
  match fuel with
  | O => serr errOutOfFuel
  | S fuel => fun s =>
      match elemdec s with
      | (Ok v, s) => decodeSliceElems fuel elemdec (acc ++ [v]) s
      | (Err EOL, s) => (Ok acc, s)
      | (Err e, s) => (Err e, s)
      | (Panic, s) => (Panic, s)
      end
  end.

Definition decodeListSlice (fuel : nat) (elemdec : SR val) : SR val :=
  do! size := swrap ListStart in
  if size =? 0 then do! _ := ListEnd in sret (VList [])
  else
    do! l := decodeSliceElems fuel elemdec [] in
    do! _ := ListEnd in sret (VList l).

(** The loop of [decodeListArray]: [n] elements, fewer if the list ends. *)
Fixpoint decodeArrayElems (n : nat) (elemdec : SR val) : SR (list val) :=
  match n with
  | O => sret []
  | S n => fun s =>
      match elemdec s with
      | (Ok v, s) => smap (cons v) (decodeArrayElems n elemdec) s
      | (Err EOL, s) => (Ok [], s)
      | (Err e, s) => (Err e, s)
      | (Panic, s) => (Panic, s)
      end
  end.

Definition decodeListArray (vlen : nat) (elemdec : SR val) : SR val :=
  do! _ := swrap ListStart in
  do! l := decodeArrayElems vlen elemdec in
  if (length l <? vlen)%nat then serr (decodeError msgListTooFewElems)
  else do! _ := swrap ListEnd in sret (VList l).

(** [decodeByteArray]: the error of [s.Uint()] is dropped by the code. *)
Definition decodeByteArray (vlen : nat) : SR val :=
  do! (k, size) := GetKind in
  match k with
  | Byte =>
      if (vlen =? 0)%nat then serr (decodeError msgStringTooLong)
      else if (1 <? vlen)%nat then serr (decodeError msgStringTooShort)
      else fun s =>
        match Uint s with
        | (Ok bv, s) => (Ok (VBytes [bv]), s)
        | (Err _, s) => (Ok (VBytes [0]), s)
        | (Panic, s) => (Panic, s)
        end
  | String =>
      if Z.of_nat vlen <? size then serr (decodeError msgStringTooLong)
      else if size <? Z.of_nat vlen then serr (decodeError msgStringTooShort)
      else
        do! b := readFull (Z.of_nat vlen) in
        if (size =? 1) && (nth 0 b 0 <? 128) then serr (wrapStreamError ErrCanonSize)
        else sret (VBytes b)
  | List => serr (wrapStreamError ErrExpectedString)
  end.

(** [makeOptionalPtrDecoder]: an empty value, or an error, re-arms the kind and
    leaves a nil pointer. *)
Definition decodeOptionalPtr (elemdec : SR val) : SR val := fun s =>
  match GetKind s with
  | (Panic, s) => (Panic, s)
  | (Err e, s) => (Err e, set_kind None s)
  | (Ok (k, size), s) =>
      if (size =? 0) && negb (bool_decide (k = Byte)) then (Ok VNil, set_kind None s)
      else smap VPtr elemdec s
  end.

(** [decodeInterface], into a list of interfaces or a byte slice; [dec] is the
    decoder of the list's elements. *)
Definition iface_list (v : val) : val := VIface (TSlice TInterface) v.
Definition iface_bytes (b : bytes) : val := VIface (TSlice (TUint 8)) (VBytes b).

Definition decodeInterface (fuel : nat) (dec : SR val) : SR val :=
  do! (k, _) := GetKind in
  match k with
  | List => smap iface_list (decodeListSlice fuel dec)
  | _ => smap iface_bytes Bytes
  end.

(** The field loop of [makeStructDecoder]. *)
Fixpoint decodeFields (dec : typ -> tags -> SR val) (fs : list (typ * tags)) : SR (list val) :=
  match fs with
  | [] => sret []
  | (ft, fts) :: fs => fun s =>
      match dec ft fts s with
      | (Ok v, s) => smap (cons v) (decodeFields dec fs) s
      | (Err EOL, s) => (Err (decodeError msgStructTooFewElems), s)
      | (Err e, s) => (Err e, s)
      | (Panic, s) => (Panic, s)
      end
  end.

(** [makeDecoder]: the decoder of a type with the tags of its struct field.  The
    fuel bounds the nesting (interfaces nest as deep as the input) and the element
    loops. *)
Fixpoint decoder (fuel : nat) (t : typ) (ts : tags) : SR val :=
  match fuel with
  | O => serr errOutOfFuel
  | S fuel =>
      match t with
      | TRawValue => decodeRawValue
      | TPtr TBigInt => smap VPtr decodeBigInt
      | TBigInt => decodeBigInt
      | TUint bits => decodeUint bits
      | TBool => decodeBool
      | TString => decodeString
      | TSlice e =>
          if isByte e then decodeByteSlice
          else if tail ts then smap VList (decodeSliceElems fuel (decoder fuel e noTags) [])
          else decodeListSlice fuel (decoder fuel e noTags)
      | TArray n e =>
          if isByte e then decodeByteArray n
          else decodeListArray n (decoder fuel e noTags)
      | TStruct fs =>
          do! _ := swrap ListStart in
          do! l := decodeFields (decoder fuel) fs in
          do! _ := swrap ListEnd in sret (VList l)
      | TPtr e =>
          if nilOK ts then decodeOptionalPtr (decoder fuel e noTags)
          else smap VPtr (decoder fuel e noTags)
      | TInterface => decodeInterface fuel (decoder fuel TInterface noTags)
      | TOther => spanic
      end
  end.

(** [DecodeBytes]: one value and no trailing data. *)
Definition DecodeBytes (fuel : nat) (b : bytes) (t : typ) : result RlpError val :=
  match genTypeInfo t with
  | Some e => Err e
  | None =>
      match decoder fuel t noTags (NewStream b (zlen b)) with
      | (Ok v, s) => if 0 <? zlen (input s) then Err ErrMoreThanOneValue else Ok v
      | (Err e, _) => Err e
      | (Panic, _) => Panic
      end
  end.

(** * Values that survive a round trip *)

(** The encodings of a list's elements and of a struct's fields. *)
Fixpoint enc_elems (e : typ) (l : list val) : result RlpError bytes :=
  match l with
  | [] => Ok []
  | x :: l => let! b := enc_val x e false in rmap (app b) (enc_elems e l)
  end.

Fixpoint enc_fields (fs : list (typ * tags)) (l : list val) : result RlpError bytes :=
  match l, fs with
  | [], [] => Ok []
  | x :: l, (ft, fts) :: fs =>
      let! b := enc_val x ft (tail fts) in rmap (app b) (enc_fields fs l)
  | _, _ => Panic
  end.

(** A field that takes the rest of the list. *)
Definition is_tail (t : typ) (ts : tags) : bool :=
  tail ts && match t with TSlice e => negb (isByte e) | _ => false end.

(** [rt t ts v]: [v] is a value of type [t] that decodes to itself.  Left out are
    values whose type or content the encoding does not record: nil where the
    decoder allocates, a non-nil pointer to an empty value where the tag [nil]
    makes it nil, dynamic types other than the decoder's, raw values that are not
    one canonical value, and the byte array [[1]byte{0}] (see
    [decodeByteArray_zero_diverges]). *)
Inductive rt : typ -> tags -> val -> Prop :=
| rt_raw ts k c e : is_raw k c e -> rt TRawValue ts (VBytes e)
| rt_uint bits ts n :
    8 <= bits <= 64 -> bits mod 8 = 0 -> 0 <= n < 2 ^ bits -> rt (TUint bits) ts (VUint n)
| rt_bool ts b : rt TBool ts (VBool b)
| rt_string ts b : rt TString ts (VBytes b)
| rt_bigint ts i : 0 <= i -> rt TBigInt ts (VBig i)
| rt_bigptr ts i : 0 <= i -> rt (TPtr TBigInt) ts (VPtr (VBig i))
| rt_bytes e ts b : isByte e = true -> rt (TSlice e) ts (VBytes b)
| rt_bytearray e n ts b :
    isByte e = true -> length b = n -> b <> [0] -> rt (TArray n e) ts (VBytes b)
| rt_slice e ts l : isByte e = false -> rt_list e l -> rt (TSlice e) ts (VList l)
| rt_array n e ts l :
    isByte e = false -> tail ts = false -> length l = n -> rt_list e l ->
    rt (TArray n e) ts (VList l)
| rt_struct fs ts l : rt_fields fs l -> rt (TStruct fs) ts (VList l)
| rt_ptr e ts v :
    e <> TBigInt -> rt e noTags v ->
    (nilOK ts = true -> enc_val v e false <> Ok [128] /\ enc_val v e false <> Ok [192]) ->
    rt (TPtr e) ts (VPtr v)
| rt_nil e ts :
    e <> TBigInt -> nilOK ts = true -> enc_nil e = Ok [128] \/ enc_nil e = Ok [192] ->
    rt (TPtr e) ts VNil
| rt_iface_list ts l : rt_list TInterface l -> rt TInterface ts (iface_list (VList l))
| rt_iface_bytes ts b : rt TInterface ts (iface_bytes b)
with rt_list : typ -> list val -> Prop :=
| rt_list_nil e : rt_list e []
| rt_list_cons e v l : rt e noTags v -> rt_list e l -> rt_list e (v :: l)
with rt_fields : list (typ * tags) -> list val -> Prop :=
| rt_fields_nil : rt_fields [] []
| rt_fields_cons t ts v fs l :
    rt t ts v -> (is_tail t ts = true -> fs = []) -> rt_fields fs l ->
    rt_fields ((t, ts) :: fs) (v :: l).

Scheme rt_mind := Induction for rt Sort Prop
  with rt_list_mind := Induction for rt_list Sort Prop
  with rt_fields_mind := Induction for rt_fields Sort Prop.
Combined Scheme rt_mutind from rt_mind, rt_list_mind, rt_fields_mind.

(** Nesting depth of a type. *)
Fixpoint tdepth (t : typ) : nat :=
  match t with
  | TSlice e | TArray _ e | TPtr e => S (tdepth e)
  | TStruct fs =>
      S ((fix go (fs : list (typ * tags)) : nat :=
            match fs with [] => O | (t, _) :: fs => (tdepth t + go fs)%nat end) fs)
  | _ => 1%nat
  end.

Fixpoint fdepth (fs : list (typ * tags)) : nat :=
  match fs with [] => O | (t, _) :: fs => (tdepth t + fdepth fs)%nat end.

Lemma tdepth_struct fs : tdepth (TStruct fs) = S (fdepth fs).
Proof. reflexivity. Qed.

Lemma tdepth_pos t : (1 <= tdepth t)%nat.
Proof. destruct t; simpl; lia. Qed.

Lemma enc_val_slice e tl l :
  isByte e = false ->
  enc_val (VList l) (TSlice e) tl = let! p := enc_elems e l in Ok (if tl then p else enc_list p).
Proof.
  intros He. cbn [enc_val]. rewrite He. f_equal.
  induction l as [|x l IH]; simpl; [done|]. by rewrite IH.
Qed.

Lemma enc_val_array n e tl l :
  isByte e = false ->
  enc_val (VList l) (TArray n e) tl = let! p := enc_elems e l in Ok (if tl then p else enc_list p).
Proof.
  intros He. cbn [enc_val]. rewrite He. f_equal.
  induction l as [|x l IH]; simpl; [done|]. by rewrite IH.
Qed.

Lemma enc_val_struct fs tl l :
  enc_val (VList l) (TStruct fs) tl = let! p := enc_fields fs l in Ok (enc_list p).
Proof.
  cbn [enc_val]. f_equal. revert fs. induction l as [|x l IH]; intros [|[ft fts] fs]; simpl; try done.
  by rewrite IH.
Qed.

Lemma enc_string_raw c : exists k, is_raw k c (enc_string c).
Proof.
  destruct (enc_string_cases c) as [(x & -> & Hx & He)|[Hx He]]; rewrite He.
  - exists Byte, x. done.
  - by exists String.
Qed.

Lemma enc_ptr v e tl : e <> TBigInt -> enc_val (VPtr v) (TPtr e) tl = enc_val v e false.
Proof. destruct e; done. Qed.

Lemma enc_ptr_nil e tl : e <> TBigInt -> enc_val VNil (TPtr e) tl = enc_nil e.
Proof. destruct e; done. Qed.

(** Every such value is encoded as one canonical value. *)
Lemma rt_raw_value t ts v :
  rt t ts v -> is_tail t ts = false -> forall b,
  enc_val v t (tail ts) = Ok b -> exists k c, is_raw k c b.
Proof.
  assert (forall c b, @Ok RlpError bytes (enc_string c) = Ok b -> exists k c, is_raw k c b) as Hstr.
  { intros c b [= <-]. destruct (enc_string_raw c) as [k ?]. by exists k, c. }
  assert (forall p b, @Ok RlpError bytes (enc_list p) = Ok b -> exists k c, is_raw k c b) as Hlist.
  { intros p b [= <-]. by exists List, p. }
  intros H. induction H; intros Ht b'; try (cbn [enc_val]; solve [eauto]).
  - intros [= <-]. eauto.
  - cbn [enc_val]. case_if; [done|]. eauto.
  - cbn [enc_val]. case_if; [done|]. eauto.
  - cbn [enc_val]. rewrite H. eauto.
  - cbn [enc_val]. rewrite H. eauto.
  - rewrite enc_val_slice by done. unfold is_tail in Ht. rewrite H in Ht.
    rewrite andb_true_r in Ht. rewrite Ht. destruct (enc_elems e l); simpl; eauto; done.
  - rewrite enc_val_array, H0 by done. destruct (enc_elems e l); simpl; eauto; done.
  - rewrite enc_val_struct. destruct (enc_fields fs l); simpl; eauto; done.
  - rewrite enc_ptr by done. by apply IHrt.
  - rewrite enc_ptr_nil by done. destruct H1 as [-> | ->]; intros [= <-].
    + by apply (Hstr []).
    + by apply (Hlist []).
  - change (enc_val (iface_list (VList l)) TInterface (tail ts))
      with (enc_val (VList l) (TSlice TInterface) false).
    rewrite enc_val_slice by done. destruct (enc_elems TInterface l); simpl; eauto; done.
  - apply Hstr.
Qed.

(** * Decoding *)
Lemma swrap_ok {A} (m : SR A) s a s' : swrap m s = (Ok a, s') <-> m s = (Ok a, s').
Proof. unfold swrap. destruct (m s) as [[] ?]; naive_solver. Qed.

Lemma smap_run {A B} (f : A -> B) (m : SR A) s a s' : m s = (Ok a, s') -> smap f m s = (Ok (f a), s').
Proof. intros H. unfold smap. by rewrite (sbind_run _ _ _ _ _ H). Qed.

(** At the end of the innermost list every decoder returns [EOL]. *)
Definition at_eol (s : Stream) : Prop :=
  kind s = None /\ match stack s with [] => False | t :: _ => pos t = lsize t end.

Lemma GetKind_eol s : at_eol s -> GetKind s = (Err EOL, set_kinderr None s).
Proof.
  intros [Hk Hst]. unfold GetKind. rewrite Hk. simpl. destruct (stack s); [done|].
  by rewrite Hst, Z.eqb_refl.
Qed.

Lemma sbind_eol {A} (f : Kind * Z -> SR A) s :
  at_eol s -> sbind GetKind f s = (Err EOL, set_kinderr None s).
Proof. intros H. unfold sbind. by rewrite GetKind_eol. Qed.

Lemma decoder_ptr fuel e ts :
  e <> TBigInt ->
  decoder (S fuel) (TPtr e) ts =
    if nilOK ts then decodeOptionalPtr (decoder fuel e noTags)
    else smap VPtr (decoder fuel e noTags).
Proof. by destruct e. Qed.

Lemma is_big_int_dec (e : typ) : e = TBigInt \/ e <> TBigInt.
Proof. destruct e; (by left) || (by right). Qed.

Lemma genTypeInfo_ptr e : e <> TBigInt -> genTypeInfo (TPtr e) = genTypeInfo e.
Proof. by destruct e. Qed.

Lemma decoder_eol t fuel s :
  at_eol s -> (tdepth t <= fuel)%nat -> genTypeInfo t = None ->
  exists s', decoder fuel t noTags s = (Err EOL, s') /\ kind s' = None /\ adv 0 (input s) s s'.
Proof.
  intros Heol. assert (kind s = None) as Hk by apply Heol.
  assert (adv 0 (input s) s (set_kinderr None s)) as Ha.
  { constructor; simpl; try done; [destruct (limited s); lia|by rewrite bump_0]. }
  revert t; induction fuel as [|fuel IH]; intros t Hf Hgen; [pose proof (tdepth_pos t); lia|].
  assert (forall A (m : SR A) (f : A -> val) e, m = sbind GetKind e -> exists s',
    smap f (swrap m) s = (Err EOL, s') /\ kind s' = None /\ adv 0 (input s) s s') as Hleaf.
  { intros A m f e ->. exists (set_kinderr None s). split; [|done].
    unfold smap, sbind at 1, swrap. by rewrite sbind_eol. }
  destruct t as [ | | |bits| | |e|n e|fs|e| ].
  10: destruct (is_big_int_dec e) as [->|Hneb]; [|rewrite decoder_ptr by done; cbn [nilOK noTags]].
  11: { destruct (IH e) as (s' & Hd & Hr); [simpl in Hf; lia|by rewrite genTypeInfo_ptr in Hgen|].
    exists s'. unfold smap, sbind. by rewrite Hd. }
  all: cbn [decoder]; try done; try (by eapply Hleaf).
  all: try (destruct (isByte e) eqn:He; [try (by eapply Hleaf)|]); cbn [tail noTags].
  all: exists (set_kinderr None s); (split; [|done]).
  all: unfold decodeRawValue, decodeBool, decodeListSlice, decodeListArray, decodeByteArray,
    decodeBigInt, decodeInterface, smap, swrap, Raw, Bool, uint, Bytes, ListStart.
  all: unfold sbind; by rewrite GetKind_eol.
Qed.

(** The innermost list ends after [n] more bytes. *)
Definition ends_after (n : Z) (s : Stream) : Prop :=
  match stack s with [] => False | t :: _ => pos t + n = lsize t end.

Lemma ends_after_adv n m r s s' : adv n r s s' -> ends_after (n + m) s -> ends_after m s'.
Proof.
  intros [_ _ _ Hst] He. unfold ends_after in *. rewrite Hst. destruct (stack s); simpl; [done|lia].
Qed.

(** [reads dec b v]: on a stream whose input starts with [b], [dec] returns [v] and
    stops behind [b]; [reads_to_end]: if [b] is the rest of the innermost list. *)
Definition reads {A} (dec : SR A) (b : bytes) (v : A) : Prop :=
  forall s r, kind s = None -> wf_stream s -> input s = b ++ r -> room (zlen b) s ->
  exists s', dec s = (Ok v, s') /\ kind s' = None /\ adv (zlen b) r s s'.

Definition reads_to_end {A} (dec : SR A) (b : bytes) (v : A) : Prop :=
  forall s r, kind s = None -> wf_stream s -> input s = b ++ r -> room (zlen b) s ->
  ends_after (zlen b) s ->
  exists s', dec s = (Ok v, s') /\ kind s' = None /\ adv (zlen b) r s s'.

Lemma reads_map {A B} (f : A -> B) (m : SR A) b a : reads m b a -> reads (smap f m) b (f a).
Proof.
  intros Hm s r Hk Hwf Hi Hr. destruct (Hm s r Hk Hwf Hi Hr) as (s' & Hd & H').
  exists s'. split; [|done]. by apply smap_run.
Qed.

Lemma reads_swrap {A} (m : SR A) b a : reads m b a -> reads (swrap m) b a.
Proof.
  intros Hm s r Hk Hwf Hi Hr. destruct (Hm s r Hk Hwf Hi Hr) as (s' & Hd & H').
  exists s'. split; [|done]. by apply swrap_ok.
Qed.

Lemma reads_Bytes c : zlen (enc_string c) < 2 ^ 63 -> reads Bytes (enc_string c) c.
Proof.
  intros Hl s r Hk Hwf Hi Hr. apply Bytes_complete; [done..| |done].
  destruct (enc_string_cases c) as [(x & -> & _)|[_ He]]; [done|].
  rewrite He, zlen_app in Hl. pose proof (zlen_nonneg (enc_head 128 183 (zlen c))). lia.
Qed.

(** A list: head, a payload read by [body] inside the list, then [ListEnd]. *)
Lemma reads_list {A B} (body : Z -> SR A) (wrap_end : SR unit -> SR unit) p (v : A) (f : A -> B) :
  (forall s u s', wrap_end ListEnd s = (Ok u, s') <-> ListEnd s = (Ok u, s')) ->
  zlen (enc_list p) < 2 ^ 63 ->
  reads_to_end (body (zlen p)) p v ->
  reads (do! n := swrap ListStart in do! l := body n in
         do! _ := wrap_end ListEnd in sret (f l)) (enc_list p) (f v).
Proof.
  intros Hwrap Hlen Hbody s r Hk Hwf Hi Hr. unfold enc_list in *. rewrite <-app_assoc in Hi.
  rewrite zlen_app in *. set (h := enc_head 192 247 (zlen p)) in *.
  pose proof (zlen_nonneg p). pose proof (zlen_nonneg h).
  destruct (ListStart_complete (zlen p) (p ++ r) s) as (s1 & Hs & Ha); [done|done|lia|done|done|].
  fold h in Ha.
  assert (wf_stream s1) as Hwf1.
  { eapply adv_wf; [exact Ha|done|done|eapply room_mono; [|exact Hr]; lia|done]. }
  assert (room (zlen p) s1) as Hr1 by (by eapply adv_room).
  destruct (Hbody (opened (zlen p) s1) r) as (s2 & Hb & _ & Ha2).
  - done.
  - apply wf_opened; [done|lia|]. by destruct Hr1.
  - by apply Ha.
  - apply room_opened; [lia|done].
  - done.
  - destruct (ListEnd_complete (zlen p) r s s1 s2 (zlen h) (p ++ r)) as (s3 & He & Hk3 & Ha3);
      [done|done|lia|by destruct Hr1|done|].
    exists s3. split; [|done].
    rewrite (sbind_run _ _ _ _ _ (proj2 (swrap_ok _ _ _ _) Hs)).
    rewrite (sbind_run _ _ _ _ _ Hb).
    by rewrite (sbind_run _ _ _ _ _ (proj2 (Hwrap _ _ _) He)).
Qed.

Lemma reads_uint bits n :
  8 <= bits <= 64 -> bits mod 8 = 0 -> 0 <= n < 2 ^ bits -> reads (uint bits) (enc_uint n) n.
Proof.
  intros Hb Hm Hn s r Hk Hwf Hi Hr.
  assert (2 ^ bits <= 2 ^ 64) by (apply Z.pow_le_mono_r; lia).
  apply uint_complete; try done; [lia|].
  assert (bits = 8 * (bits / 8)) as Hb8 by (pose proof (Z.div_mod bits 8); lia).
  apply bytelen_upper; [|lia]. rewrite pow256_2, <-Hb8 by lia. done.
Qed.

Lemma reads_bool (b : bool) : reads Bool (enc_uint (if b then 1 else 0)) b.
Proof.
  intros s r Hk Hwf Hi Hr.
  destruct (reads_uint 8 (if b then 1 else 0)) with s r as (s' & Hu & Hs'); try done.
  { by destruct b. }
  exists s'. split; [|done]. unfold Bool. rewrite (sbind_run _ _ _ _ _ Hu). by destruct b.
Qed.

Lemma reads_bigint i :
  0 <= i -> zlen (enc_uint i) < 2 ^ 63 -> reads decodeBigInt (enc_uint i) (VBig i).
Proof.
  intros Hi Hl s r Hk Hwf Hs Hr.
  destruct (reads_Bytes (big_bytes i) Hl s r Hk Hwf Hs Hr) as (s' & Hb & Hs').
  exists s'. split; [|done]. unfold decodeBigInt.
  rewrite (sbind_run _ _ _ _ _ (proj2 (swrap_ok _ _ _ _) Hb)).
  rewrite be_to_Z_big_bytes by done.
  destruct (decide (i = 0)) as [->|Hn]; [done|].
  destruct (big_bytes_head i ltac:(lia)) as (x & l & -> & Hx). by destruct x.
Qed.

Lemma reads_raw k c e : is_raw k c e -> zlen e < 2 ^ 63 -> reads Raw e e.
Proof. intros Hraw Hl s r Hk Hwf Hi Hr. by eapply Raw_complete. Qed.

Lemma reads_bytearray b :
  b <> [0] -> zlen (enc_string b) < 2 ^ 63 ->
  reads (decodeByteArray (length b)) (enc_string b) (VBytes b).
Proof.
  intros Hb0 Hl s r Hk Hwf Hi Hr.
  destruct (enc_string_cases b) as [(x & -> & Hx & He)|[Hx He]]; rewrite He in *.
  - destruct (GetKind_complete s Byte 0 x [x] r) as (s1 & Hg & Hrd & Ha); [done..|].
    exists (set_kind None s1). split; [|split; [done|destruct Ha; by constructor]].
    unfold decodeByteArray. rewrite (sbind_run _ _ _ _ _ Hg). cbn [length Nat.eqb Nat.ltb Nat.leb].
    unfold Uint, uint, sbind. rewrite (GetKind_ready _ _ _ _ Hrd), (ready_byte _ _ _ _ Hrd).
    case_if; [congruence|done].
  - rewrite <-app_assoc in Hi. rewrite zlen_app in *. pose proof (zlen_nonneg b).
    pose proof (zlen_nonneg (enc_head 128 183 (zlen b))).
    destruct (GetKind_complete s String (zlen b) 0 (enc_head 128 183 (zlen b)) (b ++ r))
      as (s1 & Hg & Hrd & Ha); [done|done|repeat split; lia|done|done|].
    assert (wf_stream s1) as Hwf1.
    { eapply adv_wf; [exact Ha|done|done|eapply room_mono; [|exact Hr]; lia|done]. }
    destruct (readFull_adv (zlen b) b r s1) as (s2 & Hf & Hk2 & Ha2);
      [done..|by apply Ha|done|by eapply adv_room|].
    exists s2. split; [|split; [done|by eapply adv_took]].
    unfold decodeByteArray. rewrite (sbind_run _ _ _ _ _ Hg). fold (zlen b).
    rewrite Z.ltb_irrefl. rewrite (sbind_run _ _ _ _ _ Hf). case_if; [|done].
    destruct b as [|y [|??]]; [done| |unfold zlen in *; simpl in *; lia].
    specialize (Hx y eq_refl). simpl in *. lia.
Qed.

(** Two parts read one after the other. *)
Lemma reads_step {A} (dec : SR A) b v p s r :
  reads dec b v -> kind s = None -> wf_stream s -> input s = b ++ p ++ r ->
  room (zlen (b ++ p)) s ->
  exists s1, dec s = (Ok v, s1) /\ kind s1 = None /\ adv (zlen b) (p ++ r) s s1 /\
    wf_stream s1 /\ room (zlen p) s1.
Proof.
  intros Hd Hk Hwf Hi Hr. rewrite zlen_app in Hr. pose proof (zlen_nonneg p).
  assert (room (zlen b) s) as Hrb by (eapply room_mono; [|exact Hr]; lia).
  destruct (Hd s (p ++ r) Hk Hwf Hi Hrb) as (s1 & Hs1 & Hk1 & Ha). exists s1.
  split_and!; [done..| |by eapply adv_room].
  eapply adv_wf; [exact Ha|done|apply zlen_nonneg|done|done].
Qed.

(** One element, then the others. *)
Definition elem_ok (dec : SR val) (v : val) (b : bytes) : Prop := b <> [] /\ reads dec b v.

Lemma slice_loop dec l bs fuel acc :
  (forall s, at_eol s -> exists s', dec s = (Err EOL, s') /\ kind s' = None /\ adv 0 (input s) s s') ->
  Forall2 (elem_ok dec) l bs -> (length l < fuel)%nat ->
  reads_to_end (decodeSliceElems fuel dec acc) (concat bs) (acc ++ l).
Proof.
  intros Heol HF. revert fuel acc. induction HF as [|v b l bs [Hne Hb] HF IH];
    intros [|fuel] acc Hf s r Hk Hwf Hi Hr Hend; cbn [length] in Hf; try lia.
  - destruct (Heol s) as (s' & Hd & Hk' & Ha).
    { split; [done|]. unfold ends_after in Hend. destruct (stack s); [done|].
      unfold zlen in Hend. simpl in Hend. lia. }
    exists s'. cbn [decodeSliceElems]. rewrite Hd, app_nil_r. simpl in Hi. by rewrite Hi in Ha.
  - cbn [concat] in *. rewrite <-app_assoc in Hi.
    destruct (reads_step _ _ _ _ _ _ Hb Hk Hwf Hi Hr) as (s1 & Hd & Hk1 & Ha & Hwf1 & Hr1).
    rewrite zlen_app in *.
    destruct (IH fuel (acc ++ [v]) ltac:(lia) s1 r) as (s2 & Hd2 & Hk2 & Ha2); [done|done| |done| |].
    { by apply Ha. } { by eapply ends_after_adv. }
    exists s2. cbn [decodeSliceElems]. rewrite Hd, Hd2, <-app_assoc.
    split; [done|]. split; [done|]. by eapply adv_took.
Qed.

Lemma array_loop dec l bs :
  Forall2 (elem_ok dec) l bs -> reads (decodeArrayElems (length l) dec) (concat bs) l.
Proof.
  induction 1 as [|v b l bs [Hne Hb] HF IH]; intros s r Hk Hwf Hi Hr.
  - exists s. split; [done|]. split; [done|]. simpl in Hi. subst r.
    constructor; [done|done|destruct (limited s); unfold zlen; simpl; lia|by rewrite bump_0].
  - cbn [concat] in *. rewrite <-app_assoc in Hi.
    destruct (reads_step _ _ _ _ _ _ Hb Hk Hwf Hi Hr) as (s1 & Hd & Hk1 & Ha & Hwf1 & Hr1).
    destruct (IH s1 r) as (s2 & Hd2 & Hk2 & Ha2); [done|done|by apply Ha|done|].
    exists s2. cbn [length decodeArrayElems]. rewrite Hd, (smap_run _ _ _ _ _ Hd2).
    split; [done|]. split; [done|]. rewrite zlen_app. by eapply adv_took.
Qed.

Lemma length_elems dec l bs : Forall2 (elem_ok dec) l bs -> (length l <= length (concat bs))%nat.
Proof.
  induction 1 as [|v b l bs [Hne _] HF IH]; simpl; [done|]. rewrite length_app.
  destruct b; simpl; [done|lia].
Qed.

Lemma reads_to_end_of {A} (dec : SR A) b v : reads dec b v -> reads_to_end dec b v.
Proof. intros H s r Hk Hwf Hi Hr _. by apply H. Qed.

Lemma swrap_end s u s' : swrap ListEnd s = (Ok u, s') <-> ListEnd s = (Ok u, s').
Proof. apply swrap_ok. Qed.

Lemma length_enc_list p : (length p < length (enc_list p))%nat.
Proof. unfold enc_list, enc_head. rewrite length_app. case_if; simpl; lia. Qed.

Lemma zlen_enc_list p : zlen p < zlen (enc_list p).
Proof. pose proof (length_enc_list p). unfold zlen. lia. Qed.

Lemma reads_ext {A} (m m' : SR A) b v : (forall s, m s = m' s) -> reads m b v -> reads m' b v.
Proof. intros Heq Hm s r Hk Hwf Hi Hr. rewrite <-Heq. by apply Hm. Qed.

Lemma reads_listslice dec l bs fuel :
  (forall s, at_eol s -> exists s', dec s = (Err EOL, s') /\ kind s' = None /\ adv 0 (input s) s s') ->
  Forall2 (elem_ok dec) l bs -> (length l < fuel)%nat -> zlen (enc_list (concat bs)) < 2 ^ 63 ->
  reads (decodeListSlice fuel dec) (enc_list (concat bs)) (VList l).
Proof.
  intros Heol HF Hf Hlen.
  apply (reads_ext (do! n := swrap ListStart in
    do! l := (if n =? 0 then sret [] else decodeSliceElems fuel dec []) in
    do! _ := ListEnd in sret (VList l))).
  { intros s. unfold decodeListSlice, sbind. destruct (swrap ListStart s) as [[] ?]; try done.
    by destruct (_ =? _). }
  apply (reads_list (fun n => if n =? 0 then sret [] else decodeSliceElems fuel dec [])
           (fun m => m) (concat bs) l VList); [done..|].
  case_if; [|by apply (slice_loop dec l bs fuel [])].
  destruct HF as [|v b l bs [Hne _] HF].
  - apply reads_to_end_of. apply (array_loop dec [] []). constructor.
  - exfalso. cbn [concat] in *. rewrite zlen_app in *. pose proof (zlen_nonneg (concat bs)).
    destruct b; [done|]. rewrite zlen_cons in *. pose proof (zlen_nonneg b). lia.
Qed.

Lemma reads_listarray dec l bs :
  Forall2 (elem_ok dec) l bs -> zlen (enc_list (concat bs)) < 2 ^ 63 ->
  reads (decodeListArray (length l) dec) (enc_list (concat bs)) (VList l).
Proof.
  intros HF Hlen s r Hk Hwf Hi Hr.
  destruct (reads_list (fun _ => decodeArrayElems (length l) dec) swrap (concat bs) l VList)
    with s r as (s' & Hd & Hs'); try done.
  { apply swrap_end. } { by apply reads_to_end_of, array_loop. }
  exists s'. split; [|done]. unfold decodeListArray.
  apply sbind_ok in Hd as (n & s1 & Hs1 & Hd). rewrite (sbind_run _ _ _ _ _ Hs1).
  apply sbind_ok in Hd as (l' & s2 & Hs2 & Hd). rewrite (sbind_run _ _ _ _ _ Hs2).
  assert (l' = l) as ->.
  { apply sbind_ok in Hd as (u & s3 & _ & Hd). by injection Hd. }
  by rewrite Nat.ltb_irrefl.
Qed.

(** ** Decoders that may run after [GetKind] *)
Lemma starts_map {A B} (f : A -> B) (m : SR A) : starts_with_kind m -> starts_with_kind (smap f m).
Proof. intros Hm s x s1 H. unfold smap, sbind. by rewrite (Hm s x s1 H). Qed.

Lemma starts_sbind {A B} (m : SR A) (f : A -> SR B) : starts_with_kind m -> starts_with_kind (sbind m f).
Proof. intros Hm s x s1 H. unfold sbind. by rewrite (Hm s x s1 H). Qed.

Lemma starts_swrap {A} (m : SR A) : starts_with_kind m -> starts_with_kind (swrap m).
Proof. intros Hm s x s1 H. unfold swrap. by rewrite (Hm s x s1 H). Qed.

#[local] Hint Resolve starts_map starts_swrap starts_bind starts_sbind : core.

Lemma starts_listslice fuel dec : starts_with_kind (decodeListSlice fuel dec).
Proof. apply starts_sbind, starts_swrap, starts_bind. Qed.

Lemma decoder_starts fuel t :
  (tdepth t <= fuel)%nat -> genTypeInfo t = None -> starts_with_kind (decoder fuel t noTags).
Proof.
  revert t. induction fuel as [|fuel IH]; intros t Hf Hgen; [pose proof (tdepth_pos t); lia|].
  destruct t as [ | | |bits| | |e|n e|fs|e| ].
  10: destruct (is_big_int_dec e) as [->|Hne]; [|rewrite decoder_ptr by done].
  11: { apply starts_map, IH; [simpl in Hf; lia|by rewrite genTypeInfo_ptr in Hgen]. }
  all: cbn [decoder tail noTags]; try (destruct (isByte e)).
  all: try (apply starts_map, starts_swrap, starts_bind).
  all: try (apply starts_map, starts_bind).
  all: try (apply starts_bind).
  all: try (apply starts_sbind, starts_swrap, starts_bind).
  - apply starts_map, starts_swrap. apply starts_sbind, starts_bind.
  - apply starts_map, starts_sbind, starts_swrap, starts_bind.
  - done.
Qed.

(** The kind of a canonical value. *)
Lemma GetKind_raw k c b s r :
  is_raw k c b -> kind s = None -> wf_stream s -> input s = b ++ r -> room (zlen b) s ->
  zlen b < 2 ^ 63 ->
  exists size s1, GetKind s = (Ok (k, size), s1) /\
    (size = 0 -> k <> Byte -> (b = [128] \/ b = [192]) /\ adv (zlen b) r s s1).
Proof.
  intros Hraw Hk Hwf Hi Hr Hlen.
  assert (forall st lt, b = enc_head st lt (zlen c) ++ c ->
    (k = String /\ st = 128 /\ lt = 183 \/ k = List /\ st = 192 /\ lt = 247) ->
    exists size s1, GetKind s = (Ok (k, size), s1) /\
    (size = 0 -> k <> Byte -> (b = [128] \/ b = [192]) /\ adv (zlen b) r s s1)) as Hlong.
  { intros st lt -> Hkk. pose proof (zlen_nonneg c).
    rewrite zlen_app in *. rewrite <-app_assoc in Hi.
    pose proof (zlen_nonneg (enc_head st lt (zlen c))).
    destruct (GetKind_complete s k (zlen c) 0 (enc_head st lt (zlen c)) (c ++ r))
      as (s1 & Hg & _ & Ha); [done|done| |done|done|].
    { destruct Hkk as [(-> & -> & ->)|(-> & -> & ->)]; simpl; repeat split; lia. }
    exists (zlen c), s1. split; [done|]. intros Hz _.
    destruct c; [|rewrite zlen_cons in Hz; pose proof (zlen_nonneg c); lia].
    simpl in Ha. change (zlen []) with 0 in *. rewrite app_nil_r, Z.add_0_r. split; [|done].
    destruct Hkk as [(-> & -> & ->)|(-> & -> & ->)]; [by left|by right]. }
  destruct k; simpl in Hraw.
  - destruct Hraw as (x & -> & -> & Hx).
    destruct (GetKind_complete s Byte 0 x [x] r) as (s1 & Hg & _); [done..|].
    by exists 0, s1.
  - destruct Hraw as [-> _]. apply (Hlong 128 183); [done|by left].
  - apply (Hlong 192 247); [done|by right].
Qed.

Lemma reads_optional dec k c b v :
  starts_with_kind dec -> reads dec b v -> is_raw k c b -> zlen b < 2 ^ 63 ->
  b <> [128] -> b <> [192] -> reads (decodeOptionalPtr dec) b (VPtr v).
Proof.
  intros Hst Hd Hraw Hlen H128 H192 s r Hk Hwf Hi Hr.
  destruct (GetKind_raw k c b s r) as (size & s1 & Hg & Hz); [done..|].
  destruct (Hd s r Hk Hwf Hi Hr) as (s' & Hs' & Hres). exists s'. split; [|done].
  unfold decodeOptionalPtr. rewrite Hg. case_if.
  - exfalso. match goal with H : bool_decide _ = false |- _ => apply bool_decide_eq_false in H end.
    naive_solver.
  - apply smap_run. by rewrite (Hst _ _ _ Hg).
Qed.

Lemma reads_optional_nil dec b :
  b = [128] \/ b = [192] -> reads (decodeOptionalPtr dec) b VNil.
Proof.
  intros Hb s r Hk Hwf Hi Hr.
  assert (exists k, is_raw k [] b /\ k <> Byte) as (k & Hraw & Hkb).
  { destruct Hb as [-> | ->]; [exists String|exists List]; done. }
  destruct (GetKind_raw k [] b s r) as (size & s1 & Hg & Hz); [try done..|].
  { by destruct Hb as [-> | ->]. }
  assert (size = 0) as ->.
  { destruct Hb as [-> | ->].
    - destruct (GetKind_complete s String 0 0 [128] r) as (s2 & Hg2 & _); [done..|]. congruence.
    - destruct (GetKind_complete s List 0 0 [192] r) as (s2 & Hg2 & _); [done..|]. congruence. }
  destruct (Hz eq_refl Hkb) as [_ Ha]. exists (set_kind None s1).
  split; [|split; [done|destruct Ha; by constructor]].
  unfold decodeOptionalPtr. rewrite Hg, bool_decide_false by done. done.
Qed.

Lemma reads_iface_list fuel dec p v :
  reads (decodeListSlice fuel dec) (enc_list p) v -> zlen (enc_list p) < 2 ^ 63 ->
  reads (decodeInterface fuel dec) (enc_list p) (iface_list v).
Proof.
  intros Hd Hlen s r Hk Hwf Hi Hr.
  destruct (GetKind_raw List p (enc_list p) s r) as (size & s1 & Hg & _); [done..|].
  destruct (Hd s r Hk Hwf Hi Hr) as (s' & Hs' & Hres). exists s'. split; [|done].
  unfold decodeInterface. rewrite (sbind_run _ _ _ _ _ Hg). apply smap_run.
  by rewrite (starts_listslice _ _ _ _ _ Hg).
Qed.

Lemma reads_iface_bytes fuel dec c :
  zlen (enc_string c) < 2 ^ 63 -> reads (decodeInterface fuel dec) (enc_string c) (iface_bytes c).
Proof.
  intros Hlen s r Hk Hwf Hi Hr. destruct (enc_string_raw c) as (k & Hraw).
  destruct (GetKind_raw k c (enc_string c) s r) as (size & s1 & Hg & _); [done..|].
  destruct (reads_Bytes c Hlen s r Hk Hwf Hi Hr) as (s' & Hs' & Hres). exists s'. split; [|done].
  unfold decodeInterface. rewrite (sbind_run _ _ _ _ _ Hg).
  assert (smap iface_bytes Bytes s1 = (Ok (iface_bytes c), s')) as Hb.
  { apply smap_run. by rewrite ((starts_bind _ : starts_with_kind Bytes) _ _ _ Hg). }
  destruct k; [done|done|]. exfalso. simpl in Hraw. revert Hraw. unfold enc_list, enc_string, enc_head.
  destruct c as [|x [|y c]]; repeat case_if; simpl; intros [= Hc]; try lia.
Qed.

(** ** The round trip, by induction on the value *)
Definition RT (t : typ) (ts : tags) (v : val) : Prop :=
  genTypeInfo t = None -> forall b fuel,
  enc_val v t (tail ts) = Ok b -> zlen b < 2 ^ 63 -> (tdepth t + length b <= fuel)%nat ->
  if is_tail t ts then reads_to_end (decoder fuel t ts) b v else reads (decoder fuel t ts) b v.

Definition RTL (e : typ) (l : list val) : Prop :=
  genTypeInfo e = None -> forall p fuel,
  enc_elems e l = Ok p -> zlen p < 2 ^ 63 -> (tdepth e + length p <= fuel)%nat ->
  exists bs, p = concat bs /\ Forall2 (elem_ok (decoder fuel e noTags)) l bs.

Definition RTF (fs : list (typ * tags)) (l : list val) : Prop :=
  genTypeInfo (TStruct fs) = None -> forall p fuel,
  enc_fields fs l = Ok p -> zlen p < 2 ^ 63 -> (fdepth fs + length p <= fuel)%nat ->
  reads_to_end (decodeFields (decoder fuel) fs) p l.

Lemma is_raw_cons k c b : is_raw k c b -> b <> [].
Proof.
  destruct k; simpl; unfold enc_list, enc_head; [by intros (x & -> & -> & _)|intros [-> _]|intros ->];
    by case_if.
Qed.

Lemma RTL_cons e v l : rt e noTags v -> RT e noTags v -> RTL e l -> RTL e (v :: l).
Proof.
  intros Hrt Hv Hl Hgen p fuel. cbn [enc_elems].
  destruct (enc_val v e false) as [b|?|] eqn:Eb; [|done..]. cbn [rbind].
  destruct (enc_elems e l) as [q|?|] eqn:Eq; [|done..]. cbn [rmap]. intros [= <-] Hz Hf.
  rewrite zlen_app in Hz. rewrite length_app in Hf.
  pose proof (zlen_nonneg b). pose proof (zlen_nonneg q).
  destruct (Hl Hgen q fuel) as (bs & -> & HF); [done|lia|lia|].
  assert (is_tail e noTags = false) as Ht by done.
  exists (b :: bs). split; [done|]. constructor; [|done]. split.
  - destruct (rt_raw_value e noTags v Hrt Ht b Eb) as (k & c & Hraw). by eapply is_raw_cons.
  - specialize (Hv Hgen b fuel Eb ltac:(lia) ltac:(lia)). by rewrite Ht in Hv.
Qed.

Lemma genTypeInfo_cons t ts fs :
  genTypeInfo (TStruct ((t, ts) :: fs)) = None ->
  genTypeInfo t = None /\ genTypeInfo (TStruct fs) = None.
Proof.
  cbn [genTypeInfo]. destruct (parseStructTag _ _); [done|].
  destruct (genTypeInfo t); done.
Qed.

Lemma RTF_cons t ts v fs l :
  RT t ts v -> (is_tail t ts = true -> fs = []) -> RTF fs l -> RTF ((t, ts) :: fs) (v :: l).
Proof.
  intros Hv Hlast Hl Hgen p fuel. apply genTypeInfo_cons in Hgen as [Hgt Hgf].
  cbn [enc_fields]. destruct (enc_val v t (tail ts)) as [b|?|] eqn:Eb; [|done..]. cbn [rbind].
  destruct (enc_fields fs l) as [q|?|] eqn:Eq; [|done..]. cbn [rmap]. intros [= <-] Hz Hf.
  rewrite zlen_app in Hz. rewrite length_app in Hf. cbn [fdepth] in Hf.
  pose proof (zlen_nonneg b). pose proof (zlen_nonneg q).
  specialize (Hv Hgt b fuel Eb ltac:(lia) ltac:(lia)).
  specialize (Hl Hgf q fuel Eq ltac:(lia) ltac:(lia)).
  assert (forall s1 s r, decoder fuel t ts s = (Ok v, s1) -> kind s1 = None ->
    adv (zlen b) (q ++ r) s s1 -> wf_stream s1 -> room (zlen q) s1 ->
    ends_after (zlen (b ++ q)) s ->
    exists s', decodeFields (decoder fuel) ((t, ts) :: fs) s = (Ok (v :: l), s') /\
      kind s' = None /\ adv (zlen (b ++ q)) r s s') as Hnext.
  { intros s1 s r Hd Hk1 Ha Hwf1 Hr1 He. rewrite zlen_app in *.
    destruct (Hl s1 r) as (s2 & Hd2 & Hk2 & Ha2); [done|done|by apply Ha|done| |].
    { by eapply ends_after_adv. }
    exists s2. cbn [decodeFields]. rewrite Hd, (smap_run _ _ _ _ _ Hd2).
    split; [done|]. split; [done|]. by eapply adv_took. }
  intros s r Hk Hwf Hi Hr He. rewrite <-app_assoc in Hi. destruct (is_tail t ts).
  - assert (q = []) as ->.
    { rewrite (Hlast eq_refl) in Eq. destruct l; [by injection Eq|done]. }
    rewrite app_nil_r in *. cbn [app] in Hi.
    destruct (Hv s r) as (s1 & Hd & Hk1 & Ha); [done..|].
    apply (Hnext s1 s r); [done..| | |done].
    + eapply adv_wf; [exact Ha|done|done|done|done].
    + eapply adv_room; [exact Ha|]. by rewrite Z.add_0_r.
  - destruct (reads_step _ _ _ _ _ _ Hv Hk Hwf Hi Hr) as (s1 & Hd & Hk1 & Ha & Hwf1 & Hr1).
    by eapply Hnext.
Qed.

Lemma decoder_dec_eol fuel e :
  (tdepth e <= fuel)%nat -> genTypeInfo e = None -> forall s, at_eol s ->
  exists s', decoder fuel e noTags s = (Err EOL, s') /\ kind s' = None /\ adv 0 (input s) s s'.
Proof. intros Hf Hg s Hs. by apply decoder_eol. Qed.

Lemma RT_slice e ts l : isByte e = false -> RTL e l -> RT (TSlice e) ts (VList l).
Proof.
  intros He Hl Hgen b fuel. rewrite enc_val_slice by done.
  cbn [genTypeInfo] in Hgen. rewrite He in Hgen.
  destruct (enc_elems e l) as [p|?|] eqn:Ep; [|done..]. cbn [rbind]. intros [= <-] Hz Hf.
  cbn [tdepth] in Hf. destruct fuel as [|fuel]; [lia|].
  unfold is_tail. rewrite He, andb_true_r. cbn [negb decoder]. rewrite He.
  pose proof (length_enc_list p). pose proof (zlen_enc_list p). pose proof (tdepth_pos e).
  destruct (Hl Hgen p fuel) as (bs & -> & HF); [done|destruct (tail ts); lia..|].
  pose proof (length_elems _ _ _ HF). destruct (tail ts).
  - intros s r Hk Hwf Hi Hr Hend.
    destruct (slice_loop (decoder fuel e noTags) l bs fuel []) with s r as (s' & Hd & Hs');
      try done; [apply decoder_dec_eol; [lia|done]|lia|].
    exists s'. split; [|done]. by apply smap_run.
  - apply reads_listslice; [apply decoder_dec_eol; [lia|done]|done|lia|done].
Qed.

Lemma RT_array e ts l :
  isByte e = false -> tail ts = false -> RTL e l -> RT (TArray (length l) e) ts (VList l).
Proof.
  intros He Ht Hl Hgen b fuel. rewrite enc_val_array, Ht by done.
  cbn [genTypeInfo] in Hgen. rewrite He in Hgen.
  destruct (enc_elems e l) as [p|?|] eqn:Ep; [|done..]. cbn [rbind]. intros [= <-] Hz Hf.
  cbn [tdepth] in Hf. destruct fuel as [|fuel]; [lia|].
  unfold is_tail. rewrite Ht. cbn [andb decoder]. rewrite He.
  pose proof (length_enc_list p). pose proof (zlen_enc_list p).
  destruct (Hl Hgen p fuel) as (bs & -> & HF); [done|lia..|].
  by apply reads_listarray.
Qed.

Lemma RT_struct fs ts l : RTF fs l -> RT (TStruct fs) ts (VList l).
Proof.
  intros Hl Hgen b fuel. rewrite enc_val_struct.
  destruct (enc_fields fs l) as [p|?|] eqn:Ep; [|done..]. cbn [rbind]. intros [= <-] Hz Hf.
  rewrite tdepth_struct in Hf. destruct fuel as [|fuel]; [lia|].
  unfold is_tail. rewrite andb_false_r. cbn [decoder].
  pose proof (length_enc_list p). pose proof (zlen_enc_list p).
  apply (reads_list (fun _ => decodeFields (decoder fuel) fs) swrap p l VList);
    [apply swrap_end|done|]. apply Hl; [done..|lia|lia].
Qed.

Lemma RT_ptr e ts v :
  e <> TBigInt -> rt e noTags v ->
  (nilOK ts = true -> enc_val v e false <> Ok [128] /\ enc_val v e false <> Ok [192]) ->
  RT e noTags v -> RT (TPtr e) ts (VPtr v).
Proof.
  intros Hne Hrt Hnil Hv Hgen b fuel Hb Hz Hf. rewrite enc_ptr in Hb by done.
  rewrite genTypeInfo_ptr in Hgen by done. cbn [tdepth] in Hf. destruct fuel as [|fuel]; [lia|].
  rewrite decoder_ptr by done.
  specialize (Hv Hgen b fuel Hb Hz ltac:(lia)). rewrite (eq_refl : is_tail e noTags = false) in Hv.
  unfold is_tail. rewrite andb_false_r. destruct (nilOK ts); [|by apply reads_map].
  destruct (rt_raw_value e noTags v Hrt eq_refl b Hb) as (k & c & Hraw).
  destruct Hnil as [H128 H192]; [done|].
  eapply reads_optional; [apply decoder_starts; [lia|done]|done|done|done|congruence|congruence].
Qed.

Lemma RT_nil e ts :
  e <> TBigInt -> nilOK ts = true -> enc_nil e = Ok [128] \/ enc_nil e = Ok [192] ->
  RT (TPtr e) ts VNil.
Proof.
  intros Hne Hnil He Hgen b [|fuel] Hb Hz Hf; [cbn in Hf; lia|]. rewrite enc_ptr_nil in Hb by done.
  unfold is_tail. rewrite andb_false_r, decoder_ptr, Hnil by done. apply reads_optional_nil.
  naive_solver congruence.
Qed.

Lemma RT_iface_list ts l : RTL TInterface l -> RT TInterface ts (iface_list (VList l)).
Proof.
  intros Hl Hgen b fuel.
  change (enc_val (iface_list (VList l)) TInterface (tail ts))
    with (enc_val (VList l) (TSlice TInterface) false).
  rewrite enc_val_slice by done. intros Hb Hz Hf.
  destruct (enc_elems TInterface l) as [p|?|] eqn:Ep; [|done..]. injection Hb as <-.
  destruct fuel as [|fuel]; [cbn in Hf; lia|]. cbn [tdepth] in Hf.
  pose proof (length_enc_list p). pose proof (zlen_enc_list p).
  destruct (Hl Hgen p fuel) as (bs & -> & HF); [done|cbn [tdepth]; lia..|].
  pose proof (length_elems _ _ _ HF).
  unfold is_tail. rewrite andb_false_r. cbn [decoder]. apply reads_iface_list; [|done].
  apply reads_listslice; [apply decoder_dec_eol; [cbn; lia|done]|done|lia|done].
Qed.

Lemma RT_all :
  (forall t ts v, rt t ts v -> RT t ts v) /\ (forall e l, rt_list e l -> RTL e l) /\
  (forall fs l, rt_fields fs l -> RTF fs l).
Proof.
  apply rt_mutind; intros; subst;
    eauto using RT_slice, RT_array, RT_struct, RT_ptr, RT_nil, RT_iface_list, RTL_cons, RTF_cons.
  all: try (intros Hgen b' [|fuel] Hb Hz Hf; [cbn in Hf; lia|]; unfold is_tail;
    rewrite ?andb_false_r; cbn [enc_val] in Hb; try injection Hb as <-;
    try match goal with H : isByte _ = true |- _ => rename H into He end).
  - by eapply reads_map, reads_raw.
  - by apply reads_map, reads_swrap, reads_uint.
  - by apply reads_map, reads_swrap, reads_bool.
  - by apply reads_map, reads_swrap, reads_Bytes.
  - case_if_in Hb; [lia|]. injection Hb as <-. by apply reads_bigint.
  - case_if_in Hb; [lia|]. injection Hb as <-. by apply reads_map, reads_bigint.
  - rewrite He in *. injection Hb as <-. rewrite andb_false_r. cbn [decoder]. rewrite He.
    by apply reads_map, reads_swrap, reads_Bytes.
  - rewrite He in *. injection Hb as <-. cbn [decoder]. rewrite He. by apply reads_bytearray.
  - by apply reads_iface_bytes.
  - intros _ p fuel [= <-] _ _. by exists [].
  - intros _ p fuel [= <-] _ _. apply reads_to_end_of, (array_loop spanic [] []). constructor.
Qed.

(** Such values can be encoded, and the encoding consists of bytes. *)
Lemma rt_enc :
  (forall t ts v, rt t ts v -> forall tl, exists b, enc_val v t tl = Ok b) /\
  (forall e l, rt_list e l -> exists b, enc_elems e l = Ok b) /\
  (forall fs l, rt_fields fs l -> exists b, enc_fields fs l = Ok b).
Proof.
  apply rt_mutind; intros; try (cbn [enc_val]; by eexists);
    try (cbn [enc_val]; case_if; [lia|]; by eexists).
  - exists (enc_string b). cbn [enc_val]. by rewrite e0.
  - exists (enc_string b). cbn [enc_val]. by rewrite e0.
  - rewrite enc_val_slice by done. destruct H as [p ->]. by eexists.
  - rewrite enc_val_array by done. destruct H as [p ->]. by eexists.
  - rewrite enc_val_struct. destruct H as [p ->]. by eexists.
  - rewrite enc_ptr by done. apply H.
  - rewrite enc_ptr_nil by done. naive_solver.
  - change (enc_val (iface_list (VList l)) TInterface tl)
      with (enc_val (VList l) (TSlice TInterface) false).
    rewrite enc_val_slice by done. destruct H as [p ->]. by eexists.
  - destruct (H false) as [b Hb], H0 as [p Hp]. exists (b ++ p). cbn [enc_elems]. by rewrite Hb, Hp.
  - destruct (H (tail ts)) as [b Hb], H0 as [p Hp]. exists (b ++ p).
    cbn [enc_fields]. by rewrite Hb, Hp.
Qed.

Lemma wf_enc_head st lt sz :
  0 <= st <= 192 -> 0 <= lt <= 247 -> 0 <= sz < 2 ^ 64 -> wf_bytes (enc_head st lt sz).
Proof.
  intros Hst Hlt Hsz. unfold enc_head. pose proof (bytelen_u64 sz Hsz).
  case_if; apply wf_bytes_cons; (split; [unfold is_byte; lia|]); [constructor|apply wf_big_bytes].
Qed.

Lemma wf_enc_string c : wf_bytes c -> zlen (enc_string c) < 2 ^ 64 -> wf_bytes (enc_string c).
Proof.
  intros Hc. pose proof (zlen_nonneg c). destruct (enc_string_cases c) as [(x & -> & _ & ->)|[_ ->]]; [done|].
  rewrite zlen_app. pose proof (zlen_nonneg (enc_head 128 183 (zlen c))). intros Hl.
  apply wf_bytes_app. split; [apply wf_enc_head; lia|done].
Qed.

Lemma wf_enc_list p : wf_bytes p -> zlen (enc_list p) < 2 ^ 64 -> wf_bytes (enc_list p).
Proof.
  intros Hp Hl. pose proof (zlen_nonneg p). pose proof (zlen_enc_list p).
  apply wf_bytes_app. split; [apply wf_enc_head; lia|done].
Qed.

Definition wf_enc (v : val) : Prop := forall t tl b,
  enc_val v t tl = Ok b -> zlen b < 2 ^ 64 -> wf_bytes b.

Lemma wf_enc_elems l : Forall wf_enc l -> forall e p,
  enc_elems e l = Ok p -> zlen p < 2 ^ 64 -> wf_bytes p.
Proof.
  induction 1 as [|v l Hv Hl IH]; intros e p; cbn [enc_elems]; [intros [= <-]; constructor|].
  destruct (enc_val v e false) as [b|?|] eqn:Eb; [|done..]. cbn [rbind].
  destruct (enc_elems e l) as [q|?|] eqn:Eq; [|done..]. cbn [rmap]. intros [= <-].
  rewrite zlen_app. pose proof (zlen_nonneg b). pose proof (zlen_nonneg q). intros Hlen.
  apply wf_bytes_app. split; [eapply Hv|eapply IH]; try done; lia.
Qed.

Lemma wf_enc_fields l : Forall wf_enc l -> forall fs p,
  enc_fields fs l = Ok p -> zlen p < 2 ^ 64 -> wf_bytes p.
Proof.
  induction 1 as [|v l Hv Hl IH]; intros [|[t ts] fs] p; cbn [enc_fields]; try done;
    [intros [= <-]; constructor|].
  destruct (enc_val v t (tail ts)) as [b|?|] eqn:Eb; [|done..]. cbn [rbind].
  destruct (enc_fields fs l) as [q|?|] eqn:Eq; [|done..]. cbn [rmap]. intros [= <-].
  rewrite zlen_app. pose proof (zlen_nonneg b). pose proof (zlen_nonneg q). intros Hlen.
  apply wf_bytes_app. split; [eapply Hv|eapply IH]; try done; lia.
Qed.

Lemma wf_enc_nil e b : enc_nil e = Ok b -> wf_bytes b.
Proof.
  assert (wf_bytes [128] /\ wf_bytes [192]) as [? ?] by (split; by_decide).
  revert b. induction e as [ | | | | | |e|n e| |e IH| ]; intros b; cbn [enc_nil]; try (by intros [= <-]; try constructor).
  - intros [= <-]. by destruct (isByte e).
  - intros [= <-]. by destruct (isByte e).
  - destruct e; by apply IH.
Qed.

Lemma wf_enc_slice l tl : Forall wf_enc l -> forall e b,
  isByte e = false -> enc_val (VList l) (TSlice e) tl = Ok b -> zlen b < 2 ^ 64 -> wf_bytes b.
Proof.
  intros Hl e b He. rewrite enc_val_slice by done.
  destruct (enc_elems e l) as [p|?|] eqn:Ep; [|done..]. intros [= <-] Hz.
  pose proof (zlen_enc_list p). assert (wf_bytes p) by (eapply wf_enc_elems; [..|destruct tl; lia]; done).
  destruct tl; [done|by apply wf_enc_list].
Qed.

Lemma wf_enc_val v : wf_val v -> wf_enc v.
Proof.
  induction v as [n|b|i|b|l IH| |v IH|t' v IH] using val_ind'; inversion_clear 1; intros t tl b' Hb Hz.
  5: { assert (Forall wf_enc l) as Hl by (rewrite Forall_forall in *; eauto).
    destruct t as [ | | | | | |e|k e|fs|e| ]; try done.
    - destruct (isByte e) eqn:He; [cbn in Hb; by rewrite He in Hb|]. by eapply wf_enc_slice.
    - destruct (isByte e) eqn:He; [cbn in Hb; by rewrite He in Hb|].
      rewrite enc_val_array, <-enc_val_slice in Hb by done. by eapply wf_enc_slice.
    - rewrite enc_val_struct in Hb. destruct (enc_fields fs l) as [p|?|] eqn:Ep; [|done..].
      injection Hb as <-. pose proof (zlen_enc_list p).
      apply wf_enc_list; [|done]. eapply wf_enc_fields; [..|lia]; done.
    - by destruct e. }
  all: destruct t as [ | | | | | |e|k e|fs|e| ]; cbn [enc_val] in Hb; try done;
    try (destruct (isByte e); [|done]); try (case_if_in Hb; [done|]);
    try (injection Hb as <-; by apply wf_enc_string; [apply wf_big_bytes || done|]).
  all: try (destruct e; done).
  - by injection Hb as <-.
  - injection Hb as <-. by_decide.
  - destruct e; try (by eapply wf_enc_nil). injection Hb as <-. by_decide.
  - destruct e; try (by eapply IH). destruct v; try done. case_if_in Hb; [done|].
    injection Hb as <-. apply wf_enc_string; [apply wf_big_bytes|done].
  - destruct (genTypeInfo t'); [done|]. by eapply IH.
Qed.

(** * Results *)

(** C10: encoding a value with [EncodeToBytes] and decoding the bytes into a fresh
    value of the same type with [DecodeBytes] succeeds and gives the value back,
    for the values of serializable types that the encoding records in full
    ([rt]): not nil where the decoder allocates, no non-nil pointer to an empty
    value under the tag [nil], no negative big integer, interfaces with the
    decoder's dynamic types, raw values that are one canonical value, and not
    the byte array [[1]byte{0}]; and for encodings shorter than 2^63 bytes. The
    decoder needs no more fuel than the depth of the type plus the length of the
    input. *)
Theorem DecodeBytes_EncodeToBytes pooled t v :
  length (sizebuf pooled) = 9%nat -> wf_val v -> genTypeInfo t = None -> rt t noTags v ->
  (forall b, enc_val v t false = Ok b -> zlen b < 2 ^ 63) ->
  exists b, EncodeToBytes pooled t v = Ok b /\
    forall fuel, (tdepth t + length b <= fuel)%nat -> DecodeBytes fuel b t = Ok v.
Proof.
  intros Hsb Hv Hgen Hrt Hlen. destruct (proj1 rt_enc _ _ _ Hrt false) as [b Hb].
  pose proof (Hlen b Hb) as Hlb. pose proof (zlen_nonneg b). exists b. split.
  { rewrite EncodeToBytes_enc; [done..|]. intros b' Hb'. specialize (Hlen b' Hb'). lia. }
  intros fuel Hf. unfold DecodeBytes. rewrite Hgen.
  pose proof (proj1 RT_all _ _ _ Hrt Hgen b fuel Hb ltac:(lia) Hf) as Hd.
  cbn [is_tail noTags tail andb] in Hd.
  destruct (Hd (NewStream b (zlen b)) []) as (s' & -> & _ & Ha).
  - done.
  - split; [simpl; eapply wf_enc_val; [exact Hv|exact Hb|lia]|]. split; [|done]. simpl. case_if; unfold is_u64; lia.
  - by rewrite app_nil_r.
  - split; [done|]. simpl. intros _. case_if; reflexivity.
  - by rewrite (adv_input _ _ _ _ Ha).
Qed.

Lemma DecodeBytes_EncodeToBytes_witness :
  let t := TStruct [(TUint 64, noTags); (TPtr TString, Tags true false); (TArray 2 TBool, noTags);
                    (TSlice TInterface, Tags false true)] in
  let v := VList [VUint 1024; VNil; VList [VBool true; VBool false];
                  VList [iface_bytes [100; 111; 103]; iface_list (VList [])]] in
  exists b, EncodeToBytes newEncbuf t v = Ok b /\
    forall fuel, (tdepth t + length b <= fuel)%nat -> DecodeBytes fuel b t = Ok v.
Proof.
  intros t v. apply DecodeBytes_EncodeToBytes; [reflexivity| |reflexivity| |].
  - repeat constructor; by_decide.
  - repeat constructor; try done; try lia; try reflexivity.
  - intros b Hb. vm_compute in Hb. injection Hb as <-. by_compute.
Defined.

(** A decoder that succeeds without consuming keeps the element loop going. *)
Lemma slice_loop_stuck dec v s fuel acc :
  dec s = (Ok v, s) -> decodeSliceElems fuel dec acc s = (Err errOutOfFuel, s).
Proof.
  intros Hd. revert acc. induction fuel as [|fuel IH]; intros acc; [done|].
  cbn [decodeSliceElems]. rewrite Hd. apply IH.
Qed.

(** C33: [[][1]byte{{0}}] is encoded to two bytes on which the decoder of the same
    type does not terminate: no fuel is enough, since the element decoder reports
    success without consuming the byte. *)
Theorem decodeByteArray_zero_diverges :
  let t := TSlice (TArray 1 (TUint 8)) in
  EncodeToBytes newEncbuf t (VList [VBytes [0]]) = Ok [193; 0] /\
  forall fuel, DecodeBytes fuel [193; 0] t = Err errOutOfFuel.
Proof.
  intros t. split; [by_compute|]. intros [|[|fuel]]; [by_compute..|]. subst t.
  set (s1 := (swrap ListStart (NewStream [193; 0] 2)).2).
  set (s2 := (decodeByteArray 1 s1).2).
  assert (swrap ListStart (NewStream [193; 0] 2) = (Ok 1, s1)) as Hs1 by by_compute.
  assert (decodeByteArray 1 s1 = (Ok (VBytes [0]), s2)) as Hd1 by by_compute.
  assert (decodeByteArray 1 s2 = (Ok (VBytes [0]), s2)) as Hd2 by by_compute.
  assert (decodeListSlice (S fuel) (decodeByteArray 1) (NewStream [193; 0] 2) =
    (Err errOutOfFuel, s2)) as Hd.
  { unfold decodeListSlice. rewrite (sbind_run _ _ _ _ _ Hs1). unfold sbind. simpl (1 =? 0).
    cbn [decodeSliceElems]. by rewrite Hd1, (slice_loop_stuck _ _ _ _ _ Hd2). }
  unfold DecodeBytes. change (zlen [193; 0]) with 2.
  change (decoder (S (S fuel)) (TSlice (TArray 1 (TUint 8))) noTags)
    with (decodeListSlice (S fuel) (decodeByteArray 1)).
  by rewrite Hd.
Qed.
