(* ===== verification/RlpCanon.v ===== *)
(** rlp/decode.go: what the decoders accept.  A successful decoding consumed
    exactly the encoding of the value it returns, so an input has at most one
    accepted encoding per value (the canonicity checks of [Stream] are complete). *)

From S2P Require Import Prelude RlpTypes RlpEncode RlpRaw RlpStream RlpDecode.

(** Types whose decoder accepts one encoding only.  Left out: pointers tagged
    [nil] (both empty values decode to nil), raw values, and [[1]byte] (see
    [decodeByteArray_zero_diverges]). *)
Fixpoint canon (t : typ) : Prop :=
  match t with
  | TRawValue | TOther => False
  | TInterface | TBigInt | TBool | TString => True
  | TUint bits => 0 <= bits <= 64
  | TSlice e => if isByte e then True else canon e
  | TArray n e => if isByte e then n <> 1%nat else canon e
  | TPtr e => canon e
  | TStruct fs =>
      (fix fields (fs : list (typ * tags)) : Prop :=
         match fs with
         | [] => True
         | (t, ts) :: fs => nilOK ts = false /\ canon t /\ fields fs
         end) fs
  end.

(** * The end of a list *)

Definition noEOL {A} (m : SR A) : Prop := forall s s', m s <> (Err EOL, s').

(** [EOL] is returned only at the end of a list, with nothing consumed. *)
Definition eol_ok {A} (m : SR A) : Prop := forall s s',
  kind s = None -> m s = (Err EOL, s') -> kind s' = None /\ adv 0 (input s) s s'.

Lemma noEOL_ret {A} (a : A) : noEOL (sret a).
Proof. done. Qed.
Lemma noEOL_err {A} e : e <> EOL -> noEOL (@serr A e).
Proof. intros He s s'. unfold serr. congruence. Qed.
Lemma noEOL_panic {A} : noEOL (@spanic A).
Proof. done. Qed.
Lemma noEOL_bind {A B} (m : SR A) (f : A -> SR B) :
  noEOL m -> (forall a, noEOL (f a)) -> noEOL (sbind m f).
Proof.
  intros Hm Hf s s'. unfold sbind. destruct (m s) as [[a|e|] s1] eqn:E; [apply Hf| |done].
  intros [= -> ->]. by apply (Hm s s').
Qed.
Lemma noEOL_swrap {A} (m : SR A) : noEOL m -> noEOL (swrap m).
Proof.
  intros Hm s s'. unfold swrap. destruct (m s) as [[a|e|] s1] eqn:E; [done| |done].
  intros [= He ->]. destruct e; try done. by apply (Hm s s').
Qed.
Lemma noEOL_map {A B} (f : A -> B) (m : SR A) : noEOL m -> noEOL (smap f m).
Proof. intros. by apply noEOL_bind. Qed.
Lemma noEOL_willRead n : noEOL (willRead n).
Proof. intros s s'. unfold willRead. destruct (stack _); repeat case_if; done. Qed.
Lemma noEOL_readByte : noEOL readByte.
Proof. apply noEOL_bind; [apply noEOL_willRead|]. intros _ s s'. by destruct (input s). Qed.
Lemma noEOL_readFull n : noEOL (readFull n).
Proof. apply noEOL_bind; [apply noEOL_willRead|]. intros _ s s'. by case_if. Qed.
Lemma noEOL_readUint n : noEOL (readUint n).
Proof.
  unfold readUint. repeat case_if; [done|apply noEOL_readByte|done|].
  apply noEOL_bind; [apply noEOL_readFull|]. intros d. by case_if.
Qed.
Lemma noEOL_ListEnd : noEOL ListEnd.
Proof. intros s s'. unfold ListEnd. destruct (stack s); [done|]. by case_if. Qed.

#[local] Hint Resolve noEOL_ret noEOL_err noEOL_panic noEOL_bind noEOL_swrap noEOL_map
  noEOL_readByte noEOL_readFull noEOL_readUint noEOL_ListEnd : core.

Lemma readKind_noEOL s k size s' : readKind s <> (Ok (k, size, Some EOL), s').
Proof.
  assert (forall k' n s1, readSizedKind k' n s1 <> (Ok (k, size, Some EOL), s')) as Hs.
  { intros k' n s1. unfold readSizedKind.
    destruct (readUint n s1) as [[sz|e|] s2] eqn:E; [by case_if| |done].
    intros [= _ _ -> ->]. by apply (noEOL_readUint n s1 s'). }
  unfold readKind. destruct (readByte s) as [[b|e|] s1] eqn:E; [|..|done].
  - repeat case_if; done || apply Hs.
  - intros H. assert (e = EOL) as ->.
    { destruct (stack s1), e; simplify_eq; done. }
    by apply (noEOL_readByte s s1).
Qed.

Lemma GetKind_eol_inv s s' :
  kind s = None -> GetKind s = (Err EOL, s') -> kind s' = None /\ adv 0 (input s) s s'.
Proof.
  intros Hk. unfold GetKind. rewrite Hk.
  destruct (match stack (set_kinderr None s) with [] => false | _ => _ end).
  { intros [= <-]. split; [done|].
    constructor; simpl; try done; [destruct (limited s); lia|by rewrite bump_0]. }
  destruct (readKind _) as [[[[k size] err]|e|] s1] eqn:Er; [|..|done].
  - intros H. exfalso. destruct err as [e|].
    + injection H as -> _. by eapply readKind_noEOL.
    + destruct (stack s1); by case_if_in H.
  - intros [= -> ->]. unfold readKind in Er. destruct (readByte _) as [[?|?|] ?]; try done.
    + repeat case_if_in Er; try done; unfold readSizedKind in Er;
        by destruct (readUint _ _) as [[]].
    + destruct (stack _); [by destruct e|done].
Qed.

Lemma eol_kind {A} (f : Kind * Z -> SR A) : (forall x, noEOL (f x)) -> eol_ok (sbind GetKind f).
Proof.
  intros Hf s s' Hk. unfold sbind. destruct (GetKind s) as [[x|e|] s1] eqn:E; [|..|done].
  - intros H. by apply Hf in H.
  - intros [= -> ->]. by apply GetKind_eol_inv.
Qed.

Lemma eol_bind {A B} (m : SR A) (f : A -> SR B) :
  eol_ok m -> (forall a, noEOL (f a)) -> eol_ok (sbind m f).
Proof.
  intros Hm Hf s s' Hk. unfold sbind. destruct (m s) as [[a|e|] s1] eqn:E; [|..|done].
  - intros H. by apply Hf in H.
  - intros [= -> ->]. by apply Hm.
Qed.

Lemma eol_swrap {A} (m : SR A) : eol_ok m -> eol_ok (swrap m).
Proof.
  intros Hm s s' Hk. unfold swrap. destruct (m s) as [[a|e|] s1] eqn:E; [done| |done].
  intros [= He ->]. destruct e; try done. by apply Hm.
Qed.

Lemma eol_map {A B} (f : A -> B) (m : SR A) : eol_ok m -> eol_ok (smap f m).
Proof. intros. by apply eol_bind. Qed.

Lemma eol_none {A} (m : SR A) : noEOL m -> eol_ok m.
Proof. intros Hm s s' _ H. by apply Hm in H. Qed.

Lemma noEOL_slice_loop fuel dec acc : noEOL (decodeSliceElems fuel dec acc).
Proof.
  revert acc. induction fuel as [|fuel IH]; intros acc s s'; [done|]. cbn [decodeSliceElems].
  destruct (dec s) as [[v|e|] s1]; [apply IH| |done]. by destruct e.
Qed.

Lemma noEOL_array_loop n dec : noEOL (decodeArrayElems n dec).
Proof.
  induction n as [|n IH]; intros s s'; [done|]. cbn [decodeArrayElems].
  destruct (dec s) as [[v|e|] s1]; [by apply noEOL_map| |done]. by destruct e.
Qed.

Lemma noEOL_fields dec fs : noEOL (decodeFields dec fs).
Proof.
  induction fs as [|[t ts] fs IH]; intros s s'; [done|]. cbn [decodeFields].
  destruct (dec t ts s) as [[v|e|] s1]; [by apply noEOL_map| |done]. by destruct e.
Qed.
#[local] Hint Resolve noEOL_slice_loop noEOL_array_loop noEOL_fields : core.

Lemma eol_ListStart : eol_ok (swrap ListStart).
Proof. apply eol_swrap, eol_kind. by intros [[] ?]. Qed.

Lemma eol_Bytes : eol_ok Bytes.
Proof.
  apply eol_kind. intros [[] size]; [done| |by auto].
  case_if; [done|]. apply noEOL_bind; [auto|]. intros b. case_if; auto.
Qed.

Lemma eol_uint bits : eol_ok (uint bits).
Proof.
  apply eol_kind. intros [[] size]; [|case_if; [by auto|]|by auto].
  - intros s s'. by case_if.
  - intros s s'. destruct (readUint _ s) as [[v|e|] s1] eqn:Eu; [by case_if| |done].
    intros H. assert (e = EOL) as -> by (destruct e; simplify_eq; done).
    by apply noEOL_readUint in Eu.
Qed.

Lemma eol_listslice fuel dec : eol_ok (decodeListSlice fuel dec).
Proof.
  apply eol_bind; [apply eol_ListStart|]. intros n.
  case_if; repeat (apply noEOL_bind; [auto|intros ?]); auto.
Qed.

Lemma eol_after_kind {A} (m : Kind * Z -> SR A) :
  (forall x, eol_ok (m x)) -> (forall x, starts_with_kind (m x)) -> eol_ok (sbind GetKind m).
Proof.
  intros Hm Hs s s' Hk. unfold sbind. destruct (GetKind s) as [[x|e|] s1] eqn:E; [|..|done].
  - rewrite (Hs x s x s1 E). by apply Hm.
  - intros [= -> ->]. by apply GetKind_eol_inv.
Qed.

Lemma eol_bigint : eol_ok decodeBigInt.
Proof.
  apply eol_bind; [apply eol_swrap, eol_Bytes|]. intros [|[] l]; auto.
Qed.

Lemma eol_bytearray n : eol_ok (decodeByteArray n).
Proof.
  apply eol_kind. intros [[] size]; repeat case_if; auto.
  - intros s s'. by destruct (Uint s) as [[]].
  - apply noEOL_bind; [auto|]. intros b. case_if; auto.
Qed.

Lemma decoder_eol_ok fuel t ts : nilOK ts = false -> canon t -> eol_ok (decoder fuel t ts).
Proof.
  revert t ts. induction fuel as [|fuel IH]; intros t ts Hn Hc; [done|].
  destruct t as [ | | |bits| | |e|n e|fs|e| ]; try done.
  9: destruct (is_big_int_dec e) as [->|Hne];
    [|rewrite decoder_ptr, Hn by done; by apply eol_map, IH].
  all: cbn [decoder]; try (destruct (isByte e)).
  all: try (apply eol_map; try apply eol_swrap; apply eol_Bytes || apply eol_uint || apply eol_bigint).
  - apply eol_after_kind; intros [[] ?].
    3, 6: (apply eol_map, eol_listslice || apply starts_map, starts_listslice).
    all: (apply eol_map, eol_Bytes || apply starts_map, starts_bind).
  - apply eol_bigint.
  - apply eol_map, eol_swrap, eol_bind; [apply eol_uint|]. intros n. repeat case_if; auto.
  - case_if; [by apply eol_none, noEOL_map|apply eol_listslice].
  - apply eol_bytearray.
  - apply eol_bind; [apply eol_ListStart|]. intros k. apply noEOL_bind; [auto|]. intros l.
    case_if; [by apply noEOL_err|]. repeat (apply noEOL_bind; [auto|intros ?]); auto.
  - apply eol_bind; [apply eol_ListStart|]. intros k. repeat (apply noEOL_bind; [auto|intros ?]); auto.
Qed.

(** * What was consumed *)

(** [yields m E]: a successful run of [m] consumed some [b] related to its result. *)
Definition yields {A} (m : SR A) (E : A -> bytes -> Prop) : Prop := forall s a s',
  kind s = None -> wf_stream s -> m s = (Ok a, s') ->
  exists b r, E a b /\ input s = b ++ r /\ room (zlen b) s /\ kind s' = None /\
    adv (zlen b) r s s'.

Definition enc_is (t : typ) (tl : bool) (v : val) (b : bytes) : Prop :=
  wf_val v /\ enc_val v t tl = Ok b.

Lemma yields_wf {A} (m : SR A) E s a s' :
  yields m E -> kind s = None -> wf_stream s -> m s = (Ok a, s') ->
  exists b r, E a b /\ input s = b ++ r /\ room (zlen b) s /\ kind s' = None /\
    adv (zlen b) r s s' /\ wf_stream s' /\ wf_bytes b.
Proof.
  intros Hm Hk Hwf Hr. destruct (Hm s a s' Hk Hwf Hr) as (b & r & HE & Hi & Hroom & Hk' & Ha).
  exists b, r. split_and!; try done.
  - eapply adv_wf; [exact Ha|done|apply zlen_nonneg|done|done].
  - destruct Hwf as [Hwf _]. rewrite Hi in Hwf. by apply wf_bytes_app in Hwf as [? _].
Qed.

Lemma yields_map {A B} (f : A -> B) (m : SR A) E E' :
  yields m E -> (forall a b, E a b -> wf_bytes b -> E' (f a) b) -> yields (smap f m) E'.
Proof.
  intros Hm HE s v s' Hk Hwf Hr. apply sbind_ok in Hr as (a & s1 & Ha & Hr). injection Hr as <- <-.
  destruct (yields_wf m E s a s1 Hm Hk Hwf Ha) as (b & r & HEa & Hi & Hroom & Hk1 & Had & _ & Hb).
  exists b, r. split_and!; auto.
Qed.

Lemma yields_swrap {A} (m : SR A) E : yields m E -> yields (swrap m) E.
Proof. intros Hm s v s' Hk Hwf Hr. apply (proj1 (swrap_ok _ _ _ _)) in Hr. by apply Hm. Qed.

Lemma yields_Bytes : yields Bytes (fun c b => b = enc_string c /\ wf_bytes c).
Proof.
  intros s c s' Hk Hwf Hr. destruct (Bytes_sound c s s' Hk Hwf Hr) as (r & Hi & Hroom & Hk' & Ha).
  exists (enc_string c), r. split_and!; try done.
  destruct Hwf as [Hwf _]. rewrite Hi in Hwf. apply wf_bytes_app in Hwf as [Hc _].
  destruct (enc_string_cases c) as [(x & -> & _ & He)|[_ He]]; rewrite He in Hc; [done|].
  by apply wf_bytes_app in Hc as [_ ?].
Qed.

Lemma yields_uint bits :
  0 <= bits <= 64 -> yields (uint bits) (fun i b => b = enc_uint i /\ is_u64 i).
Proof.
  intros Hb s i s' Hk Hwf Hr.
  destruct (uint_sound bits i s s' Hk Hwf Hb Hr) as (r & Hin & Hi & Hroom & Hk' & Ha).
  exists (enc_uint i), r. split_and!; try done. unfold is_u64.
  assert (bits / 8 <= 8) by (apply Z.div_le_upper_bound; lia).
  assert (256 ^ Z.max 1 (bits / 8) <= 256 ^ 8) by (apply Z.pow_le_mono_r; lia).
  change (256 ^ 8) with (2 ^ 64) in *. lia.
Qed.

Lemma yields_bool : yields Bool (fun x b => b = enc_uint (if x then 1 else 0)).
Proof.
  intros s x s' Hk Hwf Hr. apply sbind_ok in Hr as (i & s1 & Hu & Hr).
  destruct (yields_uint 8 ltac:(lia) s i s1 Hk Hwf Hu) as (b & r & [-> _] & Hi & Hroom & Hk' & Ha).
  exists (enc_uint i), r.
  case_if_in Hr; [|case_if_in Hr; [|done]]; injection Hr as <- <-; by subst i.
Qed.

Lemma yields_bigint : yields decodeBigInt (enc_is TBigInt false).
Proof.
  intros s v s' Hk Hwf Hr. apply sbind_ok in Hr as (c & s1 & Hc & Hr).
  apply (proj1 (swrap_ok _ _ _ _)) in Hc.
  destruct (yields_Bytes s c s1 Hk Hwf Hc) as (b & r & [-> Hwc] & Hi & Hroom & Hk' & Ha).
  exists (enc_string c), r.
  assert (v = VBig (be_to_Z c) /\ s1 = s' /\ big_bytes (be_to_Z c) = c) as (-> & -> & Hbb).
  { destruct c as [|x c]; [by injection Hr as <- <-|].
    destruct x; [done|..]; injection Hr as <- <-; (split_and!; [done..|]; by apply big_bytes_be_to_Z). }
  split_and!; try done. split; [constructor|]. cbn [enc_val]. pose proof (be_to_Z_bound c Hwc).
  case_if; [lia|]. unfold enc_uint. by rewrite Hbb.
Qed.

Lemma yields_bytearray n :
  n <> 1%nat -> yields (decodeByteArray n) (fun v b => exists c, v = VBytes c /\ wf_bytes c /\ b = enc_string c).
Proof.
  intros Hn s v s' Hk Hwf Hr. apply sbind_ok in Hr as ([k size] & s1 & Hg & Hr).
  apply GetKind_sound in Hg as (h & r & bv & Hh & Hi & Hroom & Hrd & Ha & _); [|done..].
  pose proof (zlen_nonneg h). destruct k; [|simpl in Hh; destruct Hh as (-> & Hsz & ->)|done].
  { by destruct n as [|[|n]]. }
  do 2 (case_if_in Hr; [done|]). assert (size = Z.of_nat n) as -> by lia.
  apply sbind_ok in Hr as (c & s2 & Hf & Hr). case_if_in Hr; [done|]. injection Hr as <- <-.
  assert (wf_stream s1) as Hwf1 by (eapply adv_wf; [exact Ha|done..]).
  apply readFull_iff in Hf as (r' & Hi' & Hlc & Hroom' & ->); [|done|lia].
  rewrite (adv_input _ _ _ _ Ha) in Hi'. subst r.
  assert (wf_bytes c) as Hwc.
  { destruct Hwf as [Hwf _]. rewrite Hi in Hwf. apply wf_bytes_app in Hwf as [_ Hwf].
    by apply wf_bytes_app in Hwf as [? _]. }
  assert (enc_string c = enc_head 128 183 (Z.of_nat n) ++ c) as He.
  { destruct (enc_string_cases c) as [(x & -> & _)|[_ He]]; [|by rewrite He, Hlc].
    change (zlen [x]) with 1 in Hlc. lia. }
  exists (enc_string c), r'. rewrite He, zlen_app, Hlc, <-app_assoc. split_and!; try done.
  - by exists c.
  - by eapply adv_room_back.
  - eapply adv_took; [exact Ha|]. by constructor.
Qed.

(** Lists: what the body yields is the list's payload. *)
Lemma yields_list {A B} (body : Z -> SR A) (wrap_end : SR unit -> SR unit) (f : A -> B) E
    (check : A -> bool) err :
  (forall s u s', wrap_end ListEnd s = (Ok u, s') <-> ListEnd s = (Ok u, s')) ->
  (forall n, yields (body n) E) ->
  yields (do! n := swrap ListStart in do! l := body n in
          if check l then serr err else do! _ := wrap_end ListEnd in sret (f l))
    (fun v b => exists l p, v = f l /\ check l = false /\ E l p /\ b = enc_list p).
Proof.
  intros Hwrap Hbody s v s' Hk Hwf Hr.
  apply sbind_ok in Hr as (n & s1 & Hs1 & Hr). apply (proj1 (swrap_ok _ _ _ _)) in Hs1.
  apply sbind_ok in Hr as (l & s2 & Hl & Hr). destruct (check l) eqn:Ec; [done|].
  apply sbind_ok in Hr as ([] & s3 & He & Hr). injection Hr as <- <-. apply Hwrap in He.
  destruct (ListStart_sound n s s1 Hk Hwf Hs1) as (r & s0 & Hn & Hi & Hroom & Ha & -> & Hwfo & Hfit).
  destruct (Hbody n (opened n s0) l s2) as (p & r' & HE & Hi' & Hroom' & _ & Ha'); [done..|].
  destruct (ListEnd_sound s2 s3 He) as (t & st & Hst & Hpos & Hk3).
  assert (zlen p = n) as Hzp.
  { rewrite (adv_stack _ _ _ _ Ha') in Hst. simpl in Hst. injection Hst as <- _. simpl in Hpos. lia. }
  simpl in Hi'. rewrite (adv_input _ _ _ _ Ha) in Hi'. subst r. rewrite <-Hzp in Hi, Ha, Hroom.
  assert (wf_stream s0) as Hwf0 by (eapply adv_wf; [exact Ha|done|apply zlen_nonneg|done|done]).
  destruct (ListEnd_complete n r' s s0 s2 (zlen (enc_head 192 247 (zlen p))) (p ++ r'))
    as (s3' & He' & _ & Ha3); [done..|by rewrite Hzp in Ha'|].
  assert (s3' = s3) as -> by congruence. unfold enc_list.
  exists (enc_head 192 247 (zlen p) ++ p), r'. rewrite zlen_app, <-app_assoc.
  split_and!; try done.
  - by exists l, p.
  - eapply adv_room_back; [exact Ha|]. split; [by rewrite Hzp|]. by destruct Hroom'.
  - by rewrite Hzp in *.
Qed.

Definition elems_are (e : typ) (l : list val) (p : bytes) : Prop :=
  Forall wf_val l /\ enc_elems e l = Ok p.

Definition fields_are (fs : list (typ * tags)) (l : list val) (p : bytes) : Prop :=
  Forall wf_val l /\ enc_fields fs l = Ok p.

(** One value, then others. *)
Lemma yields_cons {A} (dec : SR val) (E : val -> bytes -> Prop) (rest : SR A)
    (E1 : A -> bytes -> Prop) s v s1 a s2 :
  yields dec E -> yields rest E1 -> kind s = None -> wf_stream s ->
  dec s = (Ok v, s1) -> rest s1 = (Ok a, s2) ->
  exists b p r, E v b /\ E1 a p /\ input s = (b ++ p) ++ r /\ room (zlen (b ++ p)) s /\
    kind s2 = None /\ adv (zlen (b ++ p)) r s s2.
Proof.
  intros Hd Hrest Hk Hwf H1 H2.
  destruct (yields_wf _ _ _ _ _ Hd Hk Hwf H1) as (b & r & HE & Hi & Hroom & Hk1 & Ha & Hwf1 & _).
  destruct (Hrest _ _ _ Hk1 Hwf1 H2) as (p & r' & HE1 & Hi1 & Hroom1 & Hk2 & Ha1).
  exists b, p, r'. rewrite (adv_input _ _ _ _ Ha) in Hi1. subst r.
  rewrite <-app_assoc, zlen_app. split_and!; try done.
  - by eapply adv_room_back.
  - by eapply adv_took.
Qed.

Lemma yields_nothing {A} (a : A) (E : A -> bytes -> Prop) s s' :
  E a [] -> kind s' = None -> adv 0 (input s) s s' -> wf_stream s ->
  exists b r, E a b /\ input s = b ++ r /\ room (zlen b) s /\ kind s' = None /\
    adv (zlen b) r s s'.
Proof.
  intros HE Hk Ha (_ & Hrem & Hst). exists [], (input s). change (zlen []) with 0.
  split_and!; try done. split; [|unfold is_u64 in Hrem; lia].
  destruct (stack s); [done|]. simpl in Hst. lia.
Qed.

Lemma elems_are_nil e : elems_are e [] [].
Proof. done. Qed.

Lemma elems_are_cons e v b l p :
  enc_is e false v b -> elems_are e l p -> elems_are e (v :: l) (b ++ p).
Proof.
  intros [Hv Hb] [Hl Hp]. split; [by constructor|]. cbn [enc_elems]. by rewrite Hb, Hp.
Qed.

Section elements.
Context (e : typ) (dec : SR val) (Hdec : yields dec (enc_is e false)) (Heol : eol_ok dec).

Lemma yields_array n : yields (decodeArrayElems n dec) (elems_are e).
Proof.
  induction n as [|n IH]; intros s l s' Hk Hwf; cbn [decodeArrayElems].
  { intros [= <- <-]. apply (yields_nothing [] (elems_are e)); [done..| |done].
    constructor; try done; [destruct (limited s); lia|by rewrite bump_0]. }
  destruct (dec s) as [[v|e'|] s1] eqn:Ed; [|..|done].
  - intros Hr. apply sbind_ok in Hr as (l' & s2 & Hl & Hr). injection Hr as <- <-.
    destruct (yields_cons dec _ _ _ s v s1 l' s2 Hdec IH Hk Hwf Ed Hl) as (b & p & r & HE & Hp & H).
    exists (b ++ p), r. split; [by apply elems_are_cons|done].
  - intros Hr. assert (e' = EOL /\ l = [] /\ s' = s1) as (-> & -> & ->) by (destruct e'; simplify_eq; done).
    destruct (Heol s s1 Hk Ed). by apply (yields_nothing [] (elems_are e)).
Qed.

Lemma yields_slice fuel acc :
  yields (decodeSliceElems fuel dec acc) (fun l p => exists l', l = acc ++ l' /\ elems_are e l' p).
Proof.
  revert acc. induction fuel as [|fuel IH]; intros acc s l s' Hk Hwf; cbn [decodeSliceElems]; [done|].
  destruct (dec s) as [[v|e'|] s1] eqn:Ed; [|..|done].
  - intros Hl. destruct (yields_cons dec _ _ _ s v s1 l s' Hdec (IH (acc ++ [v])) Hk Hwf Ed Hl)
      as (b & p & r & HE & (l' & -> & Hp) & H).
    exists (b ++ p), r. split; [|done]. exists (v :: l'). rewrite <-app_assoc.
    split; [done|by apply elems_are_cons].
  - intros Hr. assert (e' = EOL /\ l = acc /\ s' = s1) as (-> & -> & ->) by (destruct e'; simplify_eq; done).
    destruct (Heol s s1 Hk Ed). apply (yields_nothing acc (fun l p => exists l', l = acc ++ l' /\ elems_are e l' p)); try done.
    exists []. by rewrite app_nil_r.
Qed.

Lemma yields_listslice fuel :
  isByte e = false -> yields (decodeListSlice fuel dec) (enc_is (TSlice e) false).
Proof.
  intros He s v s' Hk Hwf Hr.
  destruct (yields_list (fun n => if n =? 0 then sret [] else decodeSliceElems fuel dec [])
    (fun m => m) VList (elems_are e) (fun _ => false) EOL) with s v s'
    as (b & r & (l & p & -> & _ & [Hl Hp] & ->) & H); try done.
  - intros n. case_if; [apply (yields_array 0)|]. intros s0 l s1 Hk0 Hwf0 Hl.
    destruct (yields_slice fuel [] s0 l s1 Hk0 Hwf0 Hl) as (b & r & (l' & -> & Hl') & H').
    by exists b, r.
  - revert Hr. unfold decodeListSlice, sbind. destruct (swrap ListStart s) as [[n| |] s1]; try done.
    by destruct (n =? 0).
  - exists (enc_list p), r. split; [|done]. split; [by constructor|].
    by rewrite enc_val_slice, Hp by done.
Qed.

Lemma yields_listarray n :
  isByte e = false -> yields (decodeListArray n dec) (enc_is (TArray n e) false).
Proof.
  intros He s v s' Hk Hwf Hr.
  destruct (yields_list (fun _ => decodeArrayElems n dec) swrap VList
    (elems_are e) (fun l => (length l <? n)%nat) (decodeError msgListTooFewElems)) with s v s'
    as (b & r & (l & p & -> & _ & [Hl Hp] & ->) & H1); try done;
    [apply swrap_end|intros; apply yields_array|].
  exists (enc_list p), r. split; [|done]. split; [by constructor|].
  by rewrite enc_val_array, Hp by done.
Qed.
End elements.

Lemma yields_struct (dec : typ -> tags -> SR val) fs tl :
  yields (decodeFields dec fs) (fields_are fs) ->
  yields (do! _ := swrap ListStart in do! l := decodeFields dec fs in
          do! _ := swrap ListEnd in sret (VList l)) (enc_is (TStruct fs) tl).
Proof.
  intros Hf s v s' Hk Hwf Hr.
  destruct (yields_list (fun _ => decodeFields dec fs) swrap VList
    (fields_are fs) (fun _ => false) EOL) with s v s'
    as (b & r & (l & p & -> & _ & [Hl Hp] & ->) & H1); try done; [apply swrap_end|].
  exists (enc_list p), r. split; [|done]. split; [by constructor|].
  by rewrite enc_val_struct, Hp by done.
Qed.

Lemma yields_fields (dec : typ -> tags -> SR val) fs :
  Forall (fun f => yields (dec f.1 f.2) (enc_is f.1 (tail f.2))) fs ->
  yields (decodeFields dec fs) (fields_are fs).
Proof.
  induction 1 as [|[t ts] fs Hd HF IH]; intros s l s' Hk Hwf; cbn [decodeFields].
  { intros [= <- <-]. apply (yields_nothing [] (fields_are [])); [done..| |done].
    constructor; try done; [destruct (limited s); lia|by rewrite bump_0]. }
  destruct (dec t ts s) as [[v|e|] s1] eqn:Ed; [|by destruct e|done].
  intros Hr. apply sbind_ok in Hr as (l' & s2 & Hl & Hr). injection Hr as <- <-.
  destruct (yields_cons _ _ _ _ s v s1 l' s2 Hd IH Hk Hwf Ed Hl)
    as (b & p & r & [Hv Hb] & [Hl' Hp] & H).
  exists (b ++ p), r. split; [|done]. split; [by constructor|]. cbn [enc_fields tail]. 
  simpl in Hb. by rewrite Hb, Hp.
Qed.

Lemma canon_fields fs :
  canon (TStruct fs) -> genTypeInfo (TStruct fs) = None ->
  Forall (fun f => nilOK f.2 = false /\ (tail f.2 = true -> isSlice f.1 = true) /\
    canon f.1 /\ genTypeInfo f.1 = None) fs.
Proof.
  induction fs as [|[t ts] fs IH]; [constructor|]. intros (Hn & Hc & Hcs) Hg.
  pose proof (genTypeInfo_cons _ _ _ Hg) as [Hgt Hgs].
  constructor; [|by apply IH]. split_and!; try done. intros Ht. simpl in *.
  unfold parseStructTag in Hg. simpl in Hg. rewrite Ht in Hg.
  destruct fs; simpl in Hg; [|done]. by destruct (isSlice t).
Qed.

Lemma yields_iface fuel dec :
  yields dec (enc_is TInterface false) -> eol_ok dec ->
  yields (decodeInterface fuel dec) (enc_is TInterface false).
Proof.
  intros Hd He s v s' Hk Hwf Hr. apply sbind_ok in Hr as ([k size] & s1 & Hg & Hr).
  assert (match k with
    | List => yields (smap iface_list (decodeListSlice fuel dec)) (enc_is TInterface false)
    | _ => yields (smap iface_bytes Bytes) (enc_is TInterface false) end) as Hy.
  { destruct k; (eapply yields_map; [apply yields_Bytes || by eapply yields_listslice|]).
    1-2: by intros c b [-> Hc] Hb; (split; [repeat constructor|]).
    intros l b [Hl Hb] _. split; [by constructor|done]. }
  destruct k; (eapply Hy; [done..|]).
  1-2: by rewrite <-(starts_map iface_bytes Bytes (starts_bind _) _ _ _ Hg).
  by rewrite <-(starts_map iface_list _ (starts_listslice fuel dec) _ _ _ Hg).
Qed.

Lemma decoder_yields fuel t ts :
  nilOK ts = false -> (tail ts = true -> isSlice t = true) -> canon t -> genTypeInfo t = None ->
  yields (decoder fuel t ts) (enc_is t (tail ts)).
Proof.
  revert t ts. induction fuel as [|fuel IH]; intros t ts Hn Ht Hc Hg; [done|].
  assert (isSlice t = false -> tail ts = false) as Htf by (destruct (tail ts); naive_solver congruence).
  destruct t as [ | | |bits| | |e|n e|fs|e| ]; try done.
  9: destruct (is_big_int_dec e) as [->|Hne]; [|rewrite decoder_ptr, Hn by done].
  10: { rewrite genTypeInfo_ptr in Hg by done.
    eapply yields_map; [by apply (IH e noTags)|]. intros v b [Hv Hb] _.
    split; [by constructor|]. by rewrite enc_ptr. }
  all: cbn [decoder].
  - rewrite Htf by done. by apply yields_iface; [apply (IH TInterface noTags)|apply decoder_eol_ok].
  - rewrite Htf by done. apply yields_bigint.
  - eapply yields_map; [by apply yields_swrap, yields_uint|]. intros i b [-> Hi] _.
    by split; [constructor|].
  - eapply yields_map; [by apply yields_swrap, yields_bool|]. intros x b -> _. by split; [constructor|].
  - eapply yields_map; [by apply yields_swrap, yields_Bytes|]. intros c b [-> ?] _. by split; [constructor|].
  - cbn [canon genTypeInfo] in Hc, Hg. destruct (isByte e) eqn:He.
    { eapply yields_map; [by apply yields_swrap, yields_Bytes|]. intros c b [-> ?] _.
      split; [by constructor|]. cbn [enc_val]. by rewrite He. }
    assert (yields (decoder fuel e noTags) (enc_is e false)) as Hd by (by apply (IH e noTags)).
    assert (eol_ok (decoder fuel e noTags)) by (by apply decoder_eol_ok).
    destruct (tail ts); [|by apply yields_listslice].
    eapply yields_map; [by apply yields_slice|]. intros l b (l' & -> & Hl & Hp) _.
    split; [by constructor|]. rewrite enc_val_slice by done. simpl. by rewrite Hp.
  - rewrite Htf by done. cbn [canon genTypeInfo] in Hc, Hg. destruct (isByte e) eqn:He.
    { intros s v s' Hk Hwf Hr.
      destruct (yields_bytearray n Hc s v s' Hk Hwf Hr) as (b & r & (c & -> & Hwc & ->) & H).
      exists (enc_string c), r. split; [|done]. split; [by constructor|]. cbn [enc_val]. by rewrite He. }
    assert (yields (decoder fuel e noTags) (enc_is e false)) as Hd by (by apply (IH e noTags)).
    assert (eol_ok (decoder fuel e noTags)) by (by apply decoder_eol_ok).
    by apply yields_listarray.
  - apply yields_struct, yields_fields. eapply Forall_impl; [|exact (canon_fields fs Hc Hg)].
    intros [ft fts] (? & ? & ? & ?). by apply IH.
  - eapply yields_map; [apply yields_bigint|]. intros v b [Hv Hb] _.
    split; [by constructor|]. by destruct v.
Qed.

(** * Results *)

(** C11: what [DecodeBytes] accepts is canonical, for the types [canon]: all
    serializable types built without raw values, without fields tagged [nil],
    which accept both empty encodings, and without byte arrays of length one. If
    [b], of less than 2^64 bytes, is decoded into a value of such a type, then
    [EncodeToBytes] of that value is [b], whatever the fuel and the nesting of
    the type. So no two inputs decode to the same value, and re-encoding a
    decoded value never changes it. *)
Theorem DecodeBytes_canonical pooled fuel b t v :
  canon t -> wf_bytes b -> zlen b < 2 ^ 64 -> length (sizebuf pooled) = 9%nat ->
  DecodeBytes fuel b t = Ok v -> EncodeToBytes pooled t v = Ok b.
Proof.
  intros Hc Hwf Hlen Hsb. unfold DecodeBytes. destruct (genTypeInfo t) eqn:Hg; [done|].
  destruct (decoder fuel t noTags (NewStream b (zlen b))) as [[w|e|] s'] eqn:Ed; [|done..].
  case_if; [done|]. intros [= <-]. pose proof (zlen_nonneg b).
  destruct (decoder_yields fuel t noTags eq_refl) with (NewStream b (zlen b)) w s'
    as (b' & r & [Hv He] & Hi & _ & _ & Ha); try done.
  { split; [done|]. split; [|done]. simpl. case_if; unfold is_u64; lia. }
  rewrite (adv_input _ _ _ _ Ha) in E. simpl in Hi.
  assert (r = []) as -> by (destruct r; [done|rewrite zlen_cons in E; pose proof (zlen_nonneg r); lia]).
  rewrite app_nil_r in Hi. subst b'. cbn [tail noTags] in He.
  rewrite EncodeToBytes_enc; [done..|]. intros b' Hb'. rewrite He in Hb'. by injection Hb' as <-.
Qed.

Lemma DecodeBytes_canonical_witness :
  let t := TStruct [(TPtr TBigInt, noTags); (TArray 2 (TUint 8), noTags); (TSlice TInterface, noTags)] in
  let b := [203; 130; 1; 0; 130; 7; 0; 196; 193; 128; 192; 5] in
  DecodeBytes 30 b t = Ok (VList [VPtr (VBig 256); VBytes [7; 0];
    VList [iface_list (VList [iface_bytes []]); iface_list (VList []); iface_bytes [5]]]) /\
  EncodeToBytes newEncbuf t (VList [VPtr (VBig 256); VBytes [7; 0];
    VList [iface_list (VList [iface_bytes []]); iface_list (VList []); iface_bytes [5]]]) = Ok b.
Proof.
  intros t b. split; [by_compute|].
  apply (DecodeBytes_canonical newEncbuf 30); [|by_decide|by_compute|reflexivity|by_compute].
  split_and!; done.
Defined.
