(* ===== verification/TxSorted.v ===== *)
(** The transactions of one account, sorted by nonce: [nonceHeap] and
    [txSortedMap] of core/tx_list.go.  Go iterates over a map in any order; the
    order is an argument. *)
From stdpp Require Import gmap sorting.
From S2P Require Import Prelude GoMath GoHeap.

(** [txdata] of core/types/transaction.go, without the signature; the hash
    stands for the rest of the contents. *)
Record Transaction := mkTransaction {
  AccountNonce : Z;
  Price : Z;
  TxGasLimit : Z;
  Recipient : option Z;
  Amount : Z;
  Payload : bytes;
  TxHash : Z
}.

Definition Cost (tx : Transaction) : Z := Price tx * TxGasLimit tx + Amount tx.

(** [nonceHeap.Less] *)
Definition nonce_less (x y : Z) : bool := x <? y.

#[export] Instance nonce_less_order : LessOrder nonce_less.
Proof. split; unfold nonce_less; intros; lia. Qed.

Record txSortedMap := mkSorted {
  items : gmap Z Transaction;
  index : list Z;
  cache : option (list Transaction)
}.

Definition newTxSortedMap : txSortedMap := mkSorted ∅ [] None.

(** [TxByNonce] *)
Definition by_nonce (x y : Transaction) : Prop := AccountNonce x <= AccountNonce y.
#[export] Instance by_nonce_dec x y : Decision (by_nonce x y).
Proof. unfold by_nonce. apply _. Defined.

Section SortedMap.
Context (range : gmap Z Transaction -> list (Z * Transaction)).

Definition Get (m : txSortedMap) (nonce : Z) : option Transaction := items m !! nonce.

Definition Put (tx : Transaction) (m : txSortedMap) : txSortedMap :=
  let nonce := AccountNonce tx in
  let index' := match items m !! nonce with None => heap_Push nonce_less nonce (index m) | Some _ => index m end in
  mkSorted (<[nonce := tx]> (items m)) index' None.

(** [append(l, m.items[nonce])], for a nonce of the index. *)
Definition append_item (l : list Transaction) (items : gmap Z Transaction) (nonce : Z) : list Transaction :=
  match items !! nonce with Some tx => l ++ [tx] | None => l end.

Fixpoint forward_loop (fuel : nat) (threshold : Z) (items : gmap Z Transaction) (index : list Z) (removed : list Transaction)
    : gmap Z Transaction * list Z * list Transaction :=
  match fuel with
  | O => (items, index, removed)
  | S fuel =>
      if match index with [] => false | top :: _ => top <? threshold end then
        match heap_Pop nonce_less index with
        | Some (nonce, index) => forward_loop fuel threshold (delete nonce items) index (append_item removed items nonce)
        | None => (items, index, removed)
        end
      else (items, index, removed)
  end.

Definition Forward (threshold : Z) (m : txSortedMap) : list Transaction * txSortedMap :=
  let '(items', index', removed) := forward_loop (length (index m)) threshold (items m) (index m) [] in
  (removed, mkSorted items' index' (drop (length removed) <$> cache m)).

(** The loop over the map; deleting while iterating is safe in Go. *)
Fixpoint filter_loop (f : Transaction -> bool) (l : list (Z * Transaction)) (items : gmap Z Transaction) (removed : list Transaction)
    : gmap Z Transaction * list Transaction :=
  match l with
  | [] => (items, removed)
  | (nonce, tx) :: l => if f tx then filter_loop f l (delete nonce items) (removed ++ [tx]) else filter_loop f l items removed
  end.

Definition Filter (f : Transaction -> bool) (m : txSortedMap) : list Transaction * txSortedMap :=
  let '(items', removed) := filter_loop f (range (items m)) (items m) [] in
  (removed, if 0 <? zlen removed then mkSorted items' (heap_Init nonce_less (map fst (range items'))) None
            else mkSorted items' (index m) (cache m)).

(** The loop of [Cap] drops the last [n] of the sorted index. *)
Fixpoint cap_loop (n : nat) (size : nat) (index : list Z) (items : gmap Z Transaction) (drops : list Transaction)
    : gmap Z Transaction * list Transaction :=
  match n with
  | O => (items, drops)
  | S n =>
      let nonce := index !!! (size - 1)%nat in
      cap_loop n (size - 1) index (delete nonce items) (append_item drops items nonce)
  end.

(** A negative threshold indexes out of range. *)
Definition Cap (threshold : Z) (m : txSortedMap) : option (list Transaction * txSortedMap) :=
  let size := Z.of_nat (size (items m)) in
  if size <=? threshold then Some ([], m)
  else if threshold <? 0 then None
  else
    let sorted := merge_sort Z.le (index m) in
    let '(items', drops) := cap_loop (Z.to_nat (size - threshold)) (Z.to_nat size) sorted (items m) [] in
    Some (drops, mkSorted items' (heap_Init nonce_less (take (Z.to_nat threshold) sorted))
                   ((fun c => take (length c - length drops) c) <$> cache m)).

Definition Remove (nonce : Z) (m : txSortedMap) : bool * txSortedMap :=
  match items m !! nonce with
  | None => (false, m)
  | Some _ =>
      let index' :=
        match list_find (fun x => x = nonce) (index m) with
        | Some (i, _) => match heap_Remove nonce_less i (index m) with Some (_, h) => h | None => index m end
        | None => index m
        end in
      (true, mkSorted (delete nonce (items m)) index' None)
  end.

(** The run of consecutive nonces from [next] on; [next++] wraps around. *)
Fixpoint ready_loop (fuel : nat) (next : Z) (items : gmap Z Transaction) (index : list Z) (ready : list Transaction)
    : gmap Z Transaction * list Z * list Transaction :=
  match fuel with
  | O => (items, index, ready)
  | S fuel =>
      if match index with [] => false | top :: _ => top =? next end then
        match heap_Pop nonce_less index with
        | Some (_, index) => ready_loop fuel (u64 (next + 1)) (delete next items) index (append_item ready items next)
        | None => (items, index, ready)
        end
      else (items, index, ready)
  end.

Definition Ready (start : Z) (m : txSortedMap) : list Transaction * txSortedMap :=
  match index m with
  | [] => ([], m)
  | top :: _ =>
      if start <? top then ([], m)
      else
        let '(items', index', ready) := ready_loop (length (index m)) top (items m) (index m) [] in
        (ready, mkSorted items' index' None)
  end.

Definition Len (m : txSortedMap) : Z := Z.of_nat (size (items m)).

Definition Flatten (m : txSortedMap) : list Transaction * txSortedMap :=
  match cache m with
  | Some c => (c, m)
  | None =>
      let c := merge_sort by_nonce (map snd (range (items m))) in
      (c, mkSorted (items m) (index m) (Some c))
  end.

End SortedMap.
