(* ===== verification/TxSortedCorrect.v ===== *)
(** [txSortedMap] of core/tx_list.go implements a map from nonces to
    transactions with its sorted listing: the heap of nonces and the cache of
    the sorted transactions never disagree with the map. *)
From stdpp Require Import gmap sorting.
From S2P Require Import Prelude GoMath GoHeap TxSorted.

Definition nonce_lt (x y : Transaction) : Prop := AccountNonce x < AccountNonce y.

(** [l] lists the transactions of [m] by ascending nonce. *)
Record listing (m : gmap Z Transaction) (l : list Transaction) : Prop := {
  listing_sorted : StronglySorted nonce_lt l;
  listing_elem tx : tx ∈ l <-> m !! AccountNonce tx = Some tx
}.

Definition keyed (m : gmap Z Transaction) : Prop := forall n tx, m !! n = Some tx -> AccountNonce tx = n /\ is_u64 n.

Record index_ok (m : gmap Z Transaction) (idx : list Z) : Prop := {
  index_heap : heap nonce_less idx;
  index_once : NoDup idx;
  index_elem n : n ∈ idx <-> is_Some (m !! n)
}.

Record sorted_ok (m : txSortedMap) : Prop := {
  sorted_keyed : keyed (items m);
  sorted_index : index_ok (items m) (index m);
  sorted_cache l : cache m = Some l -> listing (items m) l
}.

(** * Listings *)
Lemma nonce_sorted_NoDup l : StronglySorted nonce_lt l -> NoDup l.
Proof.
  induction 1 as [|x l Hs IH Hf]; constructor; [|done]. intros Hx.
  rewrite List.Forall_forall in Hf. apply list_elem_of_In, Hf in Hx. unfold nonce_lt in Hx. lia.
Qed.

Lemma listing_unique m l l' : listing m l -> listing m l' -> l = l'.
Proof.
  intros [Hs He] [Hs' He']. eapply (StronglySorted_unique_strong nonce_lt).
  - unfold nonce_lt. intros. lia.
  - done.
  - done.
  - apply NoDup_Permutation; [by apply nonce_sorted_NoDup..|]. intros x. by rewrite He, He'.
Qed.

Lemma listing_length m l : keyed m -> listing m l -> length l = size m.
Proof.
  intros Hk [Hs He]. rewrite <-length_map_to_list. rewrite <-(length_map snd).
  apply Permutation_length, NoDup_Permutation; [by apply nonce_sorted_NoDup| |].
  - apply NoDup_fmap_2_strong; [|apply NoDup_map_to_list].
    intros [n x] [n' x'] H1%elem_of_map_to_list H2%elem_of_map_to_list E. cbn in E. subst x'.
    apply Hk in H1 as [<- _], H2 as [<- _]. done.
  - intros x. rewrite He. split.
    + intros Hx. apply (list_elem_of_fmap_2' snd _ (AccountNonce x, x)); [|done]. by apply elem_of_map_to_list.
    + intros ([n y] & -> & Hy%elem_of_map_to_list)%list_elem_of_fmap. cbn. by apply Hk in Hy as Hn; destruct Hn as [-> _].
Qed.

Lemma sorted_strict l : StronglySorted by_nonce l -> NoDup (map AccountNonce l) -> StronglySorted nonce_lt l.
Proof.
  induction 1 as [|x l Hs IH Hf]; intros Hn; [constructor|]. apply list.NoDup_cons in Hn as [Hx Hn].
  constructor; [by apply IH|]. apply List.Forall_forall. intros y Hy. rewrite List.Forall_forall in Hf. specialize (Hf y Hy).
  unfold by_nonce, nonce_lt in *. assert (AccountNonce x <> AccountNonce y); [|lia].
  intros E. apply Hx. rewrite E. apply list_elem_of_In. by apply in_map.
Qed.

Lemma listing_exists range m :
  keyed m -> range ≡ₚ map_to_list m -> listing m (merge_sort by_nonce (map snd range)).
Proof.
  intros Hk Hr. pose proof (merge_sort_Permutation by_nonce (map snd range)) as Hp.
  assert (Hn : NoDup (map AccountNonce (map snd range))).
  { rewrite Hr, map_map. assert (E : map (fun kv => AccountNonce kv.2) (map_to_list m) = (map_to_list m).*1).
    { apply map_ext_in. intros [n x] Hx%list_elem_of_In%elem_of_map_to_list. by apply Hk in Hx as [<- _]. }
    unfold fmap in E. rewrite E. apply NoDup_fst_map_to_list. }
  split.
  - assert (Hs : StronglySorted by_nonce (merge_sort by_nonce (map snd range))).
    { apply Sorted_StronglySorted; [intros x y z; unfold by_nonce; lia|]. apply Sorted_merge_sort. intros x y. unfold by_nonce. lia. }
    apply sorted_strict; [done|]. by rewrite Hp.
  - intros tx. rewrite Hp. split.
    + intros ([n x] & -> & Hx)%list_elem_of_fmap. rewrite Hr in Hx. apply elem_of_map_to_list in Hx. cbn.
      by apply Hk in Hx as Hn'; destruct Hn' as [-> _].
    + intros Hx. apply (list_elem_of_fmap_2' snd _ (AccountNonce tx, tx)); [|done]. rewrite Hr. by apply elem_of_map_to_list.
Qed.

Lemma listing_empty l : listing ∅ l <-> l = [].
Proof.
  split.
  - intros [_ He]. destruct l as [|x l]; [done|]. assert (x ∈ x :: l) as H by (by left). apply He in H. by rewrite lookup_empty in H.
  - intros ->. split; [constructor|]. intros tx. rewrite lookup_empty. split; [intros H; by apply list.not_elem_of_nil in H|done].
Qed.

(** The first transaction of a listing is the one of the least nonce. *)
Lemma listing_min m l x :
  keyed m -> listing m l -> is_Some (m !! x) -> (forall n, is_Some (m !! n) -> x <= n) ->
  exists tx l', l = tx :: l' /\ AccountNonce tx = x /\ m !! x = Some tx /\ listing (delete x m) l'.
Proof.
  intros Hk [Hs He] [tx Hx] Hmin. pose proof (Hk _ _ Hx) as [Hn _].
  assert (Hin : tx ∈ l) by (apply He; by rewrite Hn).
  destruct l as [|y l]; [by apply list.not_elem_of_nil in Hin|]. apply StronglySorted_inv in Hs as [Hs Hf].
  assert (Hy : m !! AccountNonce y = Some y) by (apply He; by left).
  assert (Hle : x <= AccountNonce y) by (apply Hmin; by exists y).
  rewrite List.Forall_forall in Hf. assert (tx = y) as <-.
  { apply elem_of_cons in Hin as [->|Hin]; [done|]. apply list_elem_of_In, Hf in Hin. unfold nonce_lt in Hin. lia. }
  exists tx, l. split_and!; try done. split; [done|]. intros z. split.
  - intros Hz. assert (AccountNonce tx < AccountNonce z) by (by apply Hf, list_elem_of_In).
    rewrite lookup_delete_ne by lia. apply He. by right.
  - intros Hz. apply lookup_delete_Some in Hz as [Hne Hz]. apply He, elem_of_cons in Hz as [->|]; [congruence|done].
Qed.

Lemma keyed_delete m x : keyed m -> keyed (delete x m).
Proof. intros Hk n tx [_ H]%lookup_delete_Some. by apply Hk. Qed.

Lemma index_perm m idx idx' : heap nonce_less idx' -> idx' ≡ₚ idx -> index_ok m idx -> index_ok m idx'.
Proof. intros Hh Hp [_ Hn He]. split; [done|by rewrite Hp|]. intros n. by rewrite Hp. Qed.

Lemma index_delete m x idx : heap nonce_less idx -> index_ok m (x :: idx) \/ (NoDup (x :: idx) /\ forall n, n ∈ x :: idx <-> is_Some (m !! n)) ->
  index_ok (delete x m) idx.
Proof.
  intros Hh H. assert (NoDup (x :: idx) /\ forall n, n ∈ x :: idx <-> is_Some (m !! n)) as [Hn He] by (destruct H as [[]|]; done).
  apply list.NoDup_cons in Hn as [Hx Hn]. split; [done..|]. intros n. rewrite lookup_delete_is_Some, <-He, elem_of_cons.
  split; [intros Hin; split; [congruence|by right]|intros [Hne [->|]]; done].
Qed.

Lemma index_pop m idx :
  index_ok m idx -> idx <> [] ->
  exists x idx', heap_Pop nonce_less idx = Some (x, idx') /\ idx !! 0%nat = Some x /\ index_ok (delete x m) idx' /\
    is_Some (m !! x) /\ (forall n, is_Some (m !! n) -> x <= n) /\ length idx = S (length idx').
Proof.
  intros [Hh Hn He] Hne. destruct (heap_Pop_ok nonce_less idx Hh Hne) as (x & idx' & Hpop & Hh' & Hp & Hx & Hmin).
  exists x, idx'. split; [done|]. split.
  { rewrite Hx. apply list_lookup_lookup_total_lt. destruct idx; [done|cbn; lia]. }
  assert (Hx' : x ∈ idx) by (rewrite Hp; by left). split; [|split; [by apply He|split; [|by rewrite (Permutation_length Hp)]]].
  - apply index_delete; [done|]. right. rewrite <-Hp. split; [done|]. intros n. by rewrite <-Hp.
  - intros n Hin%He. apply Hmin in Hin. unfold le, nonce_less in Hin. lia.
Qed.

Lemma append_item_some l m n tx : m !! n = Some tx -> append_item l m n = l ++ [tx].
Proof. unfold append_item. by intros ->. Qed.

(** * [Forward] *)
Lemma forward_loop_ok fuel t m idx acc l :
  (length idx <= fuel)%nat -> keyed m -> index_ok m idx -> listing m l ->
  exists l1 l2 m' idx', l = l1 ++ l2 /\ Forall (fun tx => AccountNonce tx < t) l1 /\ Forall (fun tx => t <= AccountNonce tx) l2 /\
    forward_loop fuel t m idx acc = (m', idx', acc ++ l1) /\ keyed m' /\ index_ok m' idx' /\ listing m' l2.
Proof.
  revert m idx acc l. induction fuel as [|fuel IH]; intros m idx acc l Hf Hk Hi Hl.
  - destruct idx; [|cbn in Hf; lia]. assert (l = []) as ->.
    { apply listing_empty. assert (m = ∅) as <-; [|done]. apply map_eq. intros n. rewrite lookup_empty.
      destruct (m !! n) eqn:E; [|done]. assert (n ∈ @nil Z) as H by (apply Hi; by eexists). by apply list.not_elem_of_nil in H. }
    exists [], [], m, []. rewrite (app_nil_r acc). split_and!; try done; constructor.
  - cbn [forward_loop]. destruct idx as [|top idx].
    { destruct (IH m [] acc l) as (l1 & l2 & m' & idx' & H); [cbn; lia|done..|]. exists l1, l2, m', idx'.
      destruct fuel; [exact H|]. cbn [forward_loop] in H. exact H. }
    destruct (index_pop m (top :: idx) Hi ltac:(done)) as (x & idx' & Hpop & Htop & Hi' & Hx & Hmin & Hlen).
    injection Htop as ->. destruct (listing_min m l x Hk Hl Hx Hmin) as (tx & l' & -> & Hn & Hm & Hl').
    destruct (x <? t) eqn:E; simp_bool.
    + rewrite Hpop, (append_item_some _ _ _ tx) by done.
      destruct (IH (delete x m) idx' (acc ++ [tx]) l') as (l1 & l2 & m' & idx2 & -> & H1 & H2 & -> & Hrest);
        [lia|by apply keyed_delete|done|done|].
      exists (tx :: l1), l2, m', idx2. split; [done|]. split; [constructor; [lia|done]|]. split; [done|].
      split; [by rewrite <-app_assoc|done].
    + exists [], (tx :: l'), m, (x :: idx). rewrite (app_nil_r acc). split_and!; try done.
      constructor; [lia|]. pose proof (listing_sorted _ _ Hl) as [_ Hf']%StronglySorted_inv.
      eapply List.Forall_impl; [|exact Hf']. intros y Hy. unfold nonce_lt in Hy. cbn. lia.
Qed.

(** * [Ready] *)
Lemma index_nil m : index_ok m [] -> m = ∅.
Proof.
  intros Hi. apply map_eq. intros n. rewrite lookup_empty. destruct (m !! n) eqn:E; [|done].
  assert (n ∈ @nil Z) as H by (apply Hi; by eexists). by apply list.not_elem_of_nil in H.
Qed.

(** Nonces from [next] on, one after the other. *)
Definition consecutive (next : Z) (l : list Transaction) : Prop :=
  forall i tx, l !! i = Some tx -> AccountNonce tx = next + Z.of_nat i.

Lemma ready_loop_ok fuel next m idx acc l :
  (length idx <= fuel)%nat -> keyed m -> index_ok m idx -> listing m l -> (m <> ∅ -> is_u64 next) ->
  exists l1 l2 m' idx', l = l1 ++ l2 /\ consecutive next l1 /\ ready_loop fuel next m idx acc = (m', idx', acc ++ l1) /\
    keyed m' /\ index_ok m' idx' /\ listing m' l2 /\
    (l2 <> [] -> forall tx, l2 !! 0%nat = Some tx -> AccountNonce tx <> next + zlen l1).
Proof.
  revert next m idx acc l. induction fuel as [|fuel IH]; intros next m idx acc l Hf Hk Hi Hl Hnext.
  { destruct idx; [|cbn in Hf; lia]. pose proof (index_nil m Hi); subst m. apply listing_empty in Hl as ->.
    exists [], [], ∅, []. rewrite (app_nil_r acc). split_and!; try done. by apply listing_empty. }
  cbn [ready_loop]. destruct idx as [|top idx].
  { pose proof (index_nil m Hi); subst m. apply listing_empty in Hl as ->.
    exists [], [], ∅, []. rewrite (app_nil_r acc). split_and!; try done. by apply listing_empty. }
  destruct (index_pop m (top :: idx) Hi ltac:(done)) as (x & idx' & Hpop & Htop & Hi' & Hx & Hmin & Hlen).
  injection Htop as ->. destruct (listing_min m l x Hk Hl Hx Hmin) as (tx & l' & -> & Hn & Hm & Hl').
  destruct (x =? next) eqn:E; simp_bool.
  - subst next. rewrite Hpop, (append_item_some _ _ _ tx) by done. assert (Hwrap : delete x m <> ∅ -> u64 (x + 1) = x + 1).
    { intros (n & y & Hy)%map_choose. apply lookup_delete_Some in Hy as [Hne Hy]. pose proof (Hk _ _ Hy) as [_ Hun].
      pose proof (Hmin n ltac:(by eexists)). pose proof (Hnext ltac:(intros ->; by rewrite lookup_empty in Hm)).
      apply u64_small. unfold is_u64 in *. lia. }
    destruct (IH (u64 (x + 1)) (delete x m) idx' (acc ++ [tx]) l') as (l1 & l2 & m' & idx2 & -> & Hcons & -> & Hk2 & Hi2 & Hl2 & Hmax);
      [lia|by apply keyed_delete|done|done|intros _; apply is_u64_u64|].
    exists (tx :: l1), l2, m', idx2. split; [done|]. rewrite <-app_assoc. split_and!; try done.
    + destruct (decide (delete x m = ∅)) as [E0|E0].
      { rewrite E0 in Hl'. apply listing_empty, app_eq_nil in Hl' as [-> _]. intros [|i] y Hy; [injection Hy as <-; lia|done]. }
      rewrite Hwrap in Hcons by done. intros [|i] y Hy; [injection Hy as <-; lia|]. rewrite (Hcons i y Hy). lia.
    + intros Hne y Hy. destruct (decide (delete x m = ∅)) as [E0|E0].
      { rewrite E0 in Hl'. apply listing_empty, app_eq_nil in Hl' as [_ ->]. done. }
      rewrite Hwrap in Hmax by done. rewrite zlen_cons. specialize (Hmax Hne y Hy). lia.
  - exists [], (tx :: l'), m, (x :: idx). rewrite (app_nil_r acc). split_and!; try done.
    intros _ y [= <-]. rewrite zlen_nil. lia.
Qed.

(** * [Filter] *)
Lemma filter_loop_ok f l m acc :
  NoDup (map fst l) -> (forall n tx, (n, tx) ∈ l -> m !! n = Some tx) ->
  exists m', filter_loop f l m acc = (m', acc ++ map snd (List.filter (fun kv => f kv.2) l)) /\
    forall n, m' !! n = match m !! n with Some tx => if f tx && bool_decide (n ∈ map fst l) then None else Some tx | None => None end.
Proof.
  revert m acc. induction l as [|[k y] l IH]; intros m acc Hn Hm; cbn [filter_loop].
  { exists m. cbn. rewrite app_nil_r. split; [done|]. intros n. destruct (m !! n); [|done]. by rewrite andb_false_r. }
  apply list.NoDup_cons in Hn as [Hk Hn]. cbn [List.filter snd].
  assert (Hky : m !! k = Some y) by (apply Hm; by left).
  destruct (f y) eqn:Hf.
  - destruct (IH (delete k m) (acc ++ [y]) Hn) as (m' & E & Hm').
    { intros n tx Hin. rewrite lookup_delete_ne; [apply Hm; by right|]. intros <-. apply Hk.
      apply (list_elem_of_fmap_2' fst _ (k, tx)); done. }
    exists m'. rewrite E. cbn [map snd]. rewrite <-app_assoc. split; [done|]. intros n. rewrite Hm', lookup_delete.
    case_decide as E'; [subst n; rewrite Hky, Hf, bool_decide_eq_true_2 by (by left); done|].
    destruct (m !! n); [|done]. replace (bool_decide (n ∈ k :: map fst l)) with (bool_decide (n ∈ map fst l)); [done|].
    apply bool_decide_ext. rewrite elem_of_cons. naive_solver.
  - destruct (IH m acc Hn) as (m' & E & Hm'); [intros n tx Hin; apply Hm; by right|].
    exists m'. rewrite E. split; [done|]. intros n. rewrite Hm'. destruct (m !! n) as [tx|] eqn:Hmn; [|done].
    destruct (decide (n = k)) as [->|]; [rewrite Hky in Hmn; injection Hmn as <-; by rewrite Hf|].
    replace (bool_decide (n ∈ k :: map fst l)) with (bool_decide (n ∈ map fst l)); [done|].
    apply bool_decide_ext. rewrite elem_of_cons. naive_solver.
Qed.

(** * [Cap] *)
Lemma listing_last m l tx : listing m (l ++ [tx]) -> listing (delete (AccountNonce tx) m) l /\ m !! AccountNonce tx = Some tx.
Proof.
  intros [Hs He]. apply StronglySorted_app in Hs as (Hlt & Hs & _).
  assert (Hin : m !! AccountNonce tx = Some tx) by (apply He, elem_of_app; right; by left). split; [|done]. split; [done|].
  intros z. split.
  - intros Hz. pose proof (Hlt z tx Hz ltac:(by left)) as H. unfold nonce_lt in H. rewrite lookup_delete_ne by lia.
    apply He, elem_of_app. by left.
  - intros [Hne Hz]%lookup_delete_Some. apply He, elem_of_app in Hz as [|Hz]; [done|].
    apply list_elem_of_singleton in Hz as ->. done.
Qed.

Lemma cap_loop_ok n m l rest drops :
  keyed m -> listing m l -> (n <= length l)%nat ->
  exists m', cap_loop n (length l) (map AccountNonce (l ++ rest)) m drops = (m', drops ++ rev (drop (length l - n) l)) /\
    keyed m' /\ listing m' (take (length l - n) l).
Proof.
  revert m l rest drops. induction n as [|n IH]; intros m l rest drops Hk Hl Hn; cbn [cap_loop].
  { exists m. rewrite Nat.sub_0_r, drop_ge, take_ge, app_nil_r by done. done. }
  destruct l as [|tx l' _] using rev_ind; [cbn in Hn; lia|].
  rewrite length_app in Hn |- *. cbn [length] in Hn |- *. replace (length l' + 1 - 1)%nat with (length l') by lia.
  destruct (listing_last m l' tx Hl) as [Hl' Hm].
  assert (E : map AccountNonce ((l' ++ [tx]) ++ rest) !!! length l' = AccountNonce tx).
  { apply list_lookup_total_correct. rewrite <-app_assoc, map_app, lookup_app_r by (by rewrite length_map).
    by rewrite length_map, Nat.sub_diag. }
  rewrite E, (append_item_some _ _ _ tx) by done.
  destruct (IH (delete (AccountNonce tx) m) l' ([tx] ++ rest) (drops ++ [tx])) as (m' & E' & Hk' & Hl2); [by apply keyed_delete|done|lia|].
  exists m'. rewrite app_assoc in E'. rewrite E'. replace (length l' + 1 - S n)%nat with (length l' - n)%nat by lia.
  rewrite drop_app_le, take_app_le, rev_app_distr by lia. cbn. by rewrite <-app_assoc.
Qed.

Lemma listing_inj m m' l : keyed m -> keyed m' -> listing m l -> listing m' l -> m = m'.
Proof.
  intros Hk Hk' [_ He] [_ He']. apply map_eq. intros n. apply option_eq. intros tx. split; intros H.
  - pose proof (Hk _ _ H) as [<- _]. by apply He', He.
  - pose proof (Hk' _ _ H) as [<- _]. by apply He, He'.
Qed.

Definition keep (P : Z -> bool) (m : gmap Z Transaction) : gmap Z Transaction := filter (fun kv => P kv.1 = true) m.

Lemma keep_lookup P m n tx : keep P m !! n = Some tx <-> m !! n = Some tx /\ P n = true.
Proof. apply map_lookup_filter_Some. Qed.

(** A part of a listing lists the part of the map. *)
Lemma listing_split P m l1 l2 :
  listing m (l1 ++ l2) -> Forall (fun tx => P (AccountNonce tx) = true) l1 -> Forall (fun tx => P (AccountNonce tx) = false) l2 ->
  listing (keep P m) l1 /\ listing (keep (fun n => negb (P n)) m) l2.
Proof.
  intros [Hs He] H1 H2. apply StronglySorted_app in Hs as (_ & Hs1 & Hs2). rewrite List.Forall_forall in H1, H2.
  split; (split; [done|]); intros tx; rewrite keep_lookup, <-He, elem_of_app; rewrite !list_elem_of_In; split.
  - intros H. split; [by left|by apply H1].
  - intros [[?|H] HP]; [done|]. apply H2 in H. congruence.
  - intros H. split; [by right|]. by rewrite H2.
  - intros [[H|?] HP]; [|done]. apply H1 in H. by rewrite H in HP.
Qed.

Lemma keyed_keep P m : keyed m -> keyed (keep P m).
Proof. intros Hk n tx [H _]%keep_lookup. by apply Hk. Qed.

(** After a maximal run the next nonce is free. *)
Lemma run_maximal m x l1 l2 z :
  keyed m -> listing m (l1 ++ l2) -> l1 <> [] -> consecutive x l1 ->
  (l2 <> [] -> forall tx, l2 !! 0%nat = Some tx -> AccountNonce tx <> x + zlen l1) ->
  m !! (x + zlen l1) = Some z -> False.
Proof.
  intros Hk [Hs He] Hne Hcons Hmax Hz. pose proof (Hk _ _ Hz) as [Hn _].
  assert (Hin : z ∈ l1 ++ l2) by (apply He; by rewrite Hn). apply StronglySorted_app in Hs as (Hlt & _ & Hs2).
  assert (Hlast : exists y, y ∈ l1 /\ AccountNonce y = x + zlen l1 - 1).
  { destruct l1 as [|y l1 _] using rev_ind; [done|]. exists y. split; [apply elem_of_app; right; by left|].
    rewrite (Hcons (length l1) y); [unfold zlen; rewrite length_app; cbn; lia|]. by rewrite lookup_app_r, Nat.sub_diag. }
  destruct Hlast as (y & Hy & Ey). apply elem_of_app in Hin as [Hin|Hin].
  - apply list_elem_of_lookup in Hin as [i Hi]. rewrite (Hcons i z Hi) in Hn. apply lookup_lt_Some in Hi. unfold zlen in Hn. lia.
  - destruct l2 as [|w l2]; [by apply list.not_elem_of_nil in Hin|].
    pose proof (Hmax ltac:(done) w eq_refl). pose proof (Hlt y w Hy ltac:(by left)) as Hyw. unfold nonce_lt in Hyw.
    apply StronglySorted_inv in Hs2 as [_ Hf]. apply elem_of_cons in Hin as [->|Hin]; [lia|].
    apply list_elem_of_In, (proj1 (List.Forall_forall _ _) Hf) in Hin. unfold nonce_lt in Hin. lia.
Qed.

Section Operations.
Context (range : gmap Z Transaction -> list (Z * Transaction)) (range_all : forall m, range m ≡ₚ map_to_list m).

Lemma listing_of m : keyed m -> listing m (merge_sort by_nonce (map snd (range m))).
Proof. intros Hk. by apply listing_exists. Qed.

Lemma Put_ok tx m : sorted_ok m -> is_u64 (AccountNonce tx) -> sorted_ok (Put tx m).
Proof.
  intros [Hk [Hh Hn He] _] Hu. split; cbn; [|split|done].
  - intros n y. rewrite lookup_insert. case_decide as E; [intros [= <-]; by subst n|apply Hk].
  - destruct (items m !! AccountNonce tx); [done|]. apply (heap_Push_ok nonce_less (AccountNonce tx) (index m) Hh).
  - destruct (items m !! AccountNonce tx) eqn:E; [done|].
    rewrite (proj2 (heap_Push_ok nonce_less (AccountNonce tx) (index m) Hh)). constructor; [|done].
    intros [y Hy]%He. congruence.
  - intros n. rewrite lookup_insert_is_Some. destruct (items m !! AccountNonce tx) eqn:E.
    + rewrite He. split; [destruct (decide (AccountNonce tx = n)); naive_solver|]. intros [<-|[_ ?]]; [by eexists|done].
    + rewrite (proj2 (heap_Push_ok nonce_less (AccountNonce tx) (index m) Hh)), elem_of_cons, He.
      destruct (decide (AccountNonce tx = n)); naive_solver.
Qed.

Lemma Forward_ok t m removed m' :
  sorted_ok m -> Forward t m = (removed, m') ->
  sorted_ok m' /\ listing (keep (fun n => n <? t) (items m)) removed /\ items m' = keep (fun n => negb (n <? t)) (items m).
Proof.
  intros [Hk Hi Hc] E. unfold Forward in E. pose proof (listing_of _ Hk) as Hl.
  destruct (forward_loop_ok (length (index m)) t (items m) (index m) [] _ ltac:(done) Hk Hi Hl)
    as (l1 & l2 & mm & idx & El & H1 & H2 & Ef & Hk' & Hi' & Hl').
  rewrite Ef in E. injection E as <- <-. rewrite El in Hl.
  destruct (listing_split (fun n => n <? t) (items m) l1 l2 Hl) as [G1 G2].
  { eapply List.Forall_impl; [|exact H1]. cbn. intros. lia. }
  { eapply List.Forall_impl; [|exact H2]. cbn. intros. lia. }
  split; [split; [done|done|]|split; [done|]].
  - cbn. intros l Hcl. destruct (cache m) as [c|] eqn:Ec; [|done]. injection Hcl as <-.
    rewrite (listing_unique _ _ _ (Hc c eq_refl) Hl). by rewrite drop_app_length.
  - cbn. eapply listing_inj; [done|by apply keyed_keep|done|done].
Qed.

Lemma Filter_ok f m removed m' :
  sorted_ok m -> Filter range f m = (removed, m') ->
  sorted_ok m' /\ removed ≡ₚ (map_to_list (filter (fun kv => f kv.2 = true) (items m))).*2 /\
  items m' = filter (fun kv => f kv.2 = false) (items m).
Proof.
  intros [Hk Hi Hc] E. unfold Filter in E. pose proof (range_all (items m)) as Hr.
  assert (Hnd : NoDup (map fst (range (items m)))) by (rewrite Hr; apply NoDup_fst_map_to_list).
  destruct (filter_loop_ok f (range (items m)) (items m) [] Hnd) as (mm & Ef & Hm).
  { intros n tx. rewrite Hr. apply elem_of_map_to_list. }
  rewrite Ef in E. injection E as <- <-. cbn [app] in *.
  assert (Em : mm = filter (fun kv => f kv.2 = false) (items m)).
  { apply map_eq. intros n. apply option_eq. intros tx. rewrite Hm, map_lookup_filter_Some. destruct (items m !! n) as [y|] eqn:Ey; [|by split; [|intros [? _]]].
    rewrite bool_decide_eq_true_2, andb_true_r.
    { cbn [snd]. destruct (f y) eqn:Efy; (split; [intros E|intros [E E']]); try done; injection E as <-; [congruence|done]. } rewrite Hr.
    apply (list_elem_of_fmap_2' fst _ (n, y)); [|done]. by apply elem_of_map_to_list. }
  assert (Hkm : keyed mm) by (subst mm; intros n tx [? _]%map_lookup_filter_Some; by apply Hk).
  assert (Hrem : map snd (List.filter (fun kv => f kv.2) (range (items m))) ≡ₚ
    (map_to_list (filter (fun kv => f kv.2 = true) (items m))).*2).
  { apply (fmap_Permutation snd). apply NoDup_Permutation; [|apply NoDup_map_to_list|].
    - apply NoDup_ListNoDup, List.NoDup_filter, NoDup_ListNoDup. rewrite Hr. apply NoDup_map_to_list.
    - intros [n tx]. rewrite elem_of_map_to_list, map_lookup_filter_Some, list_elem_of_In, filter_In, <-list_elem_of_In, Hr,
        elem_of_map_to_list. done. }
  split; [|split; [done|by case_if]]. case_if.
  - split; cbn; [done| |done]. destruct (heap_Init_ok nonce_less (map fst (range mm))) as [Hh Hp]. split; [done| |].
    + rewrite Hp, range_all. apply NoDup_fst_map_to_list.
    + intros n. rewrite Hp, range_all. split.
      * intros ([k y] & -> & Hy%elem_of_map_to_list)%list_elem_of_fmap. by exists y.
      * intros [y Hy]. apply (list_elem_of_fmap_2' fst _ (n, y)); [by apply elem_of_map_to_list|done].
  - assert (mm = items m) as ->; [|by split]. rewrite Em. apply map_filter_id. intros n tx Hx.
    destruct (f tx) eqn:Efx; [|done]. exfalso. assert (tx ∈ map snd (List.filter (fun kv => f kv.2) (range (items m)))) as Hin.
    { apply (list_elem_of_fmap_2' snd _ (n, tx)); [|done]. apply list_elem_of_In, filter_In. split; [|done].
      rewrite <-list_elem_of_In, Hr. by apply elem_of_map_to_list. }
    destruct (map snd _); [by apply list.not_elem_of_nil in Hin|]. rewrite zlen_cons in E. pose proof (zlen_nonneg l). lia.
Qed.

Lemma nonces_elem m l n : keyed m -> listing m l -> n ∈ map AccountNonce l <-> is_Some (m !! n).
Proof.
  intros Hk [_ He]. split.
  - intros (tx & -> & Hx)%list_elem_of_fmap. exists tx. by apply He.
  - intros [tx Hx]. pose proof (Hk _ _ Hx) as [Hn _]. apply (list_elem_of_fmap_2' AccountNonce _ tx); [|done].
    apply He. by rewrite Hn.
Qed.

Lemma nonces_sorted l : StronglySorted nonce_lt l -> StronglySorted Z.lt (map AccountNonce l).
Proof.
  induction 1 as [|x l Hs IH Hf]; constructor; [done|]. apply List.Forall_forall. intros n (y & <- & Hy)%in_map_iff.
  by apply (proj1 (List.Forall_forall _ _) Hf).
Qed.

Lemma Zlt_sorted_NoDup l : StronglySorted Z.lt l -> NoDup l.
Proof.
  induction 1 as [|x l Hs IH Hf]; constructor; [|done]. intros Hx. apply list_elem_of_In, (proj1 (List.Forall_forall _ _) Hf) in Hx. lia.
Qed.

Lemma index_sorted m idx l : keyed m -> index_ok m idx -> listing m l -> merge_sort Z.le idx = map AccountNonce l.
Proof.
  intros Hk [_ Hn He] Hl. pose proof (nonces_sorted _ (listing_sorted _ _ Hl)) as Hs.
  apply (StronglySorted_unique Z.le).
  - apply Sorted_StronglySorted; [intros x y z; lia|]. apply Sorted_merge_sort. intros x y. lia.
  - clear -Hs. induction Hs as [|x l' Hs IH Hf]; constructor; [done|]. eapply List.Forall_impl; [|exact Hf]. intros; lia.
  - rewrite merge_sort_Permutation. apply NoDup_Permutation; [done|by apply Zlt_sorted_NoDup|].
    intros n. by rewrite He, (nonces_elem m l).
Qed.

Lemma index_of_listing m l : keyed m -> listing m l -> index_ok m (heap_Init nonce_less (map AccountNonce l)).
Proof.
  intros Hk Hl. destruct (heap_Init_ok nonce_less (map AccountNonce l)) as [Hh Hp]. split; [done| |].
  - rewrite Hp. apply Zlt_sorted_NoDup, nonces_sorted, Hl.
  - intros n. rewrite Hp. by apply nonces_elem.
Qed.

Lemma Cap_ok t m :
  sorted_ok m -> 0 <= t ->
  exists drops m' l, Cap t m = Some (drops, m') /\ sorted_ok m' /\ listing (items m) (l ++ rev drops) /\
    listing (items m') l /\ zlen l = Z.min t (Len m).
Proof.
  intros [Hk Hi Hc] Ht. unfold Cap, Len. set (l := merge_sort by_nonce (map snd (range (items m)))).
  pose proof (listing_of _ Hk) as Hl. fold l in Hl. pose proof (listing_length _ _ Hk Hl) as Hlen.
  destruct (Z.of_nat (size (items m)) <=? t) eqn:E; simp_bool.
  { exists [], m, l. split; [done|]. split; [by split|]. cbn. rewrite app_nil_r. split; [done|]. split; [done|].
    unfold zlen. lia. }
  replace (t <? 0) with false by lia. rewrite (index_sorted _ _ l Hk Hi Hl).
  destruct (cap_loop_ok (length l - Z.to_nat t) (items m) l [] [] Hk Hl ltac:(lia)) as (mm & Ef & Hk' & Hl').
  rewrite app_nil_r in Ef. replace (length l - (length l - Z.to_nat t))%nat with (Z.to_nat t) in * by lia.
  replace (Z.to_nat (Z.of_nat (size (items m)) - t)) with (length l - Z.to_nat t)%nat by lia.
  rewrite Nat2Z.id, <-Hlen, Ef. cbn [app]. eexists _, _, (take (Z.to_nat t) l). split; [done|]. split; [|split; [|split; [done|]]].
  - split; cbn; [done| |].
    + rewrite firstn_map. by apply index_of_listing.
    + intros c Hcl. destruct (cache m) as [c0|] eqn:Ec; [|done]. injection Hcl as <-.
      rewrite (listing_unique _ _ _ (Hc c0 eq_refl) Hl), length_rev, length_drop.
      by replace (length l - (length l - Z.to_nat t))%nat with (Z.to_nat t) by lia.
  - rewrite rev_involutive, take_drop. done.
  - unfold zlen. rewrite length_take. lia.
Qed.

Lemma Remove_ok n m b m' :
  sorted_ok m -> Remove n m = (b, m') ->
  sorted_ok m' /\ b = bool_decide (is_Some (items m !! n)) /\ items m' = delete n (items m).
Proof.
  intros Hok E. pose proof Hok as [Hk Hi Hc]. unfold Remove in E. destruct (items m !! n) as [tx|] eqn:Hn.
  2:{ injection E as <- <-. split; [done|]. split; [done|]. by rewrite delete_id. }
  injection E as <- <-. cbn [items]. split; [|done]. split; cbn; [by apply keyed_delete| |done].
  destruct Hi as [Hh Hnd He]. destruct (list_find _ (index m)) as [[i x]|] eqn:Ef.
  - apply list_find_Some in Ef as (Hx & -> & _).
    destruct (heap_Remove_ok nonce_less i (index m) Hh) as (h' & -> & Hh' & Hp); [by eapply lookup_lt_Some|].
    rewrite (list_lookup_total_correct _ _ _ Hx) in Hp. apply index_delete; [done|]. right.
    split; [by rewrite <-Hp|]. intros k. by rewrite <-Hp.
  - apply list_find_None in Ef. rewrite List.Forall_forall in Ef. exfalso. apply (Ef n); [|done].
    apply list_elem_of_In, He. by exists tx.
Qed.

Lemma Ready_ok start m ready m' :
  sorted_ok m -> Ready start m = (ready, m') ->
  sorted_ok m' /\ exists l, listing (items m) (ready ++ l) /\ listing (items m') l /\
    match ready with
    | [] => forall n, is_Some (items m !! n) -> start < n
    | tx :: _ => AccountNonce tx <= start /\ consecutive (AccountNonce tx) ready /\
                 items m !! (AccountNonce tx + zlen ready) = None
    end.
Proof.
  intros Hok E. pose proof Hok as [Hk Hi Hc]. unfold Ready in E. pose proof (listing_of _ Hk) as Hl. set (l := merge_sort _ _) in Hl.
  destruct (index m) as [|top idx] eqn:Ei.
  { injection E as <- <-. split; [done|]. exists l. cbn. split; [done|]. split; [done|].
    rewrite (index_nil _ Hi). intros n. rewrite lookup_empty. by intros [? ?]. }
  destruct (index_pop _ _ Hi ltac:(done)) as (x & idx' & _ & Htop & _ & Hx & Hmin & _). injection Htop as ->.
  destruct (start <? x) eqn:Es; simp_bool.
  { injection E as <- <-. split; [done|]. exists l. cbn. split; [done|]. split; [done|]. intros n Hn%Hmin. lia. }
  assert (Hu : is_u64 x) by (destruct Hx as [tx Hx]; by apply (Hk _ _ Hx)).
  destruct (ready_loop_ok (length (x :: idx)) x (items m) (x :: idx) [] l ltac:(done) Hk Hi Hl ltac:(done))
    as (l1 & l2 & mm & idx2 & El & Hcons & Ef & Hk2 & Hi2 & Hl2 & Hmax).
  rewrite Ef in E. injection E as <- <-. cbn [app]. split; [by split|]. exists l2. rewrite <-El. split; [done|]. split; [done|].
  destruct (listing_min _ _ _ Hk Hl Hx Hmin) as (tx & l' & El' & Hn & Hm & _).
  destruct l1 as [|y l1].
  { exfalso. cbn in El. rewrite El' in El. destruct l2 as [|y l2]; [done|]. injection El as <- <-.
    apply (Hmax ltac:(done) tx eq_refl). rewrite zlen_nil. lia. }
  rewrite El' in El. injection El as <- El. rewrite Hn. split; [lia|]. split; [done|].
  destruct (items m !! (x + zlen (tx :: l1))) as [z|] eqn:Ez; [|done]. exfalso.
  apply (run_maximal (items m) x (tx :: l1) l2 z Hk); try done. cbn [app]. by rewrite <-El, <-El'.
Qed.
End Operations.

(** * The map as an abstract machine *)
Inductive sorted_op :=
| OpPut (tx : Transaction)
| OpForward (threshold : Z)
| OpFilter (f : Transaction -> bool)
| OpCap (threshold : Z)
| OpRemove (nonce : Z)
| OpReady (start : Z)
| OpFlatten.

(** The answer of an operation and the new state; [None] is a panic. *)
Definition run_op (range : gmap Z Transaction -> list (Z * Transaction)) (op : sorted_op) (m : txSortedMap)
    : option (bool * list Transaction * txSortedMap) :=
  match op with
  | OpPut tx => Some (true, [], Put tx m)
  | OpForward t => let '(l, m) := Forward t m in Some (true, l, m)
  | OpFilter f => let '(l, m) := Filter range f m in Some (true, l, m)
  | OpCap t => '(l, m) ← Cap t m; Some (true, l, m)
  | OpRemove n => let '(b, m) := Remove n m in Some (b, [], m)
  | OpReady s => let '(l, m) := Ready s m in Some (true, l, m)
  | OpFlatten => let '(l, m) := Flatten range m in Some (true, l, m)
  end.

(** What the operations mean on a map from nonces to transactions. *)
Definition op_spec (op : sorted_op) (m : gmap Z Transaction) (b : bool) (out : list Transaction) (m' : gmap Z Transaction) : Prop :=
  match op with
  | OpPut tx => m' = <[AccountNonce tx := tx]> m
  | OpForward t => listing (keep (fun n => n <? t) m) out /\ m' = keep (fun n => negb (n <? t)) m
  | OpFilter f =>
      out ≡ₚ (map_to_list (filter (fun kv => f kv.2 = true) m)).*2 /\ m' = filter (fun kv => f kv.2 = false) m
  | OpCap t => exists l, listing m (l ++ rev out) /\ listing m' l /\ zlen l = Z.min t (Z.of_nat (size m))
  | OpRemove n => b = bool_decide (is_Some (m !! n)) /\ m' = delete n m
  | OpReady start => exists l, listing m (out ++ l) /\ listing m' l /\
      match out with
      | [] => forall n, is_Some (m !! n) -> start < n
      | tx :: _ => AccountNonce tx <= start /\ consecutive (AccountNonce tx) out /\ m !! (AccountNonce tx + zlen out) = None
      end
  | OpFlatten => listing m out /\ m' = m
  end.

(** The arguments Go's types and the callers ensure. *)
Definition op_ok (op : sorted_op) : Prop :=
  match op with
  | OpPut tx => is_u64 (AccountNonce tx)
  | OpCap t => 0 <= t
  | _ => True
  end.

Lemma newTxSortedMap_ok : sorted_ok newTxSortedMap.
Proof.
  split; [by intros ? ?|split; [by intros ?; cbn; lia|constructor|]|done].
  intros n. cbn. rewrite lookup_empty. split; [intros H; by apply list.not_elem_of_nil in H|by intros []].
Qed.

(** C22: The heap-indexed, cached [txSortedMap] implements a plain map. In
    every state the operations reach from the empty one, each operation
    answers and changes the map as its specification says, whatever the order
    of Go's map iteration: [Forward] returns the lower nonces in order,
    [Filter] those of the predicate, [Cap] the highest ones, [Ready] the
    maximal run of consecutive nonces from the lowest one, [Flatten] all of
    them in order; and the index and the cache stay right. *)
Theorem sorted_map_refines range op m :
  (forall m, range m ≡ₚ map_to_list m) -> sorted_ok m -> op_ok op ->
  sorted_ok newTxSortedMap /\
  exists b out m', run_op range op m = Some (b, out, m') /\ sorted_ok m' /\ op_spec op (items m) b out (items m').
Proof.
  intros Hr Hok Hop. split; [apply newTxSortedMap_ok|].
  destruct op as [tx|t|f|t|n|s|]; cbn [run_op op_spec].
  - eexists _, _, _. split; [done|]. split; [by apply Put_ok|done].
  - destruct (Forward t m) as [l m'] eqn:E. eexists _, _, _. split; [done|]. by eapply Forward_ok.
  - destruct (Filter range f m) as [l m'] eqn:E. eexists _, _, _. split; [done|]. by eapply Filter_ok.
  - destruct (Cap_ok range Hr t m Hok Hop) as (drops & m' & l & -> & Hok' & H1 & H2 & H3).
    eexists _, _, _. split; [done|]. split; [done|]. by exists l.
  - destruct (Remove n m) as [b m'] eqn:E. eexists _, _, _. split; [done|]. by apply Remove_ok.
  - destruct (Ready s m) as [l m'] eqn:E. eexists _, _, _. split; [done|]. by eapply Ready_ok.
  - unfold Flatten. destruct Hok as [Hk Hi Hc]. destruct (cache m) as [c|] eqn:Ec.
    + eexists _, _, _. split; [done|]. split; [by split; [| |rewrite Ec]|]. split; [by apply Hc|done].
    + eexists _, _, _. split; [done|]. pose proof (listing_of range Hr _ Hk). split; [|done].
      split; [done|done|]. intros l [= <-]. done.
Qed.

Definition example_tx (nonce price : Z) : Transaction := mkTransaction nonce price 21000 (Some 9) 5 [] (1000 * nonce + price).
Definition example_map : txSortedMap := Put (example_tx 4 1) (Put (example_tx 9 1) (Put (example_tx 3 1) newTxSortedMap)).

Lemma example_map_ok : sorted_ok example_map.
Proof. repeat (apply Put_ok; [|by_decide]). apply newTxSortedMap_ok. Qed.

Lemma sorted_map_refines_witness :
  exists b out m', run_op map_to_list (OpReady 3) example_map = Some (b, out, m') /\ sorted_ok m' /\
    op_spec (OpReady 3) (items example_map) b out (items m').
Proof. apply (sorted_map_refines map_to_list (OpReady 3) example_map); [done|exact example_map_ok|exact I]. Defined.
