(* ===== verification/TxList.v ===== *)
(** The list of transactions of one account, [txList], and the transactions of
    the pool by price, [txPricedList], of core/tx_list.go. *)
From stdpp Require Import gmap sorting.
From S2P Require Import Prelude GoMath GoHeap TxSorted TxSortedCorrect.

Record txList := mkTxList {
  strict : bool;
  txs : txSortedMap;
  costcap : Z;
  gascap : Z
}.

Definition newTxList (strict : bool) : txList := mkTxList strict newTxSortedMap 0 0.

Definition Overlaps (l : txList) (tx : Transaction) : bool := bool_decide (is_Some (Get (txs l) (AccountNonce tx))).

(** The price a replacement must reach; [int64(priceBump)] as Go converts. *)
Definition price_threshold (old : Transaction) (priceBump : Z) : Z :=
  Price old * (Int64 (100 + Int64 priceBump)) / 100.

Definition list_Add (tx : Transaction) (priceBump : Z) (l : txList) : bool * option Transaction * txList :=
  let old := Get (txs l) (AccountNonce tx) in
  if match old with
     | Some o => (Price tx <=? Price o) || (Price tx <? price_threshold o priceBump)
     | None => false
     end then (false, None, l)
  else
    (true, old, mkTxList (strict l) (Put tx (txs l))
                  (if costcap l <? Cost tx then Cost tx else costcap l)
                  (if gascap l <? TxGasLimit tx then TxGasLimit tx else gascap l)).

Definition set_txs (m : txSortedMap) (l : txList) : txList := mkTxList (strict l) m (costcap l) (gascap l).

Definition list_Forward (threshold : Z) (l : txList) : list Transaction * txList :=
  let '(removed, m) := Forward threshold (txs l) in (removed, set_txs m l).

Section Range.
Context (range : gmap Z Transaction -> list (Z * Transaction)).

(** The lowest nonce among removed transactions. *)
Definition lowest_nonce (removed : list Transaction) : Z :=
  fold_left (fun lowest tx => if AccountNonce tx <? lowest then AccountNonce tx else lowest) removed MaxUint64.

Definition unaffordable (costLimit gasLimit : Z) (tx : Transaction) : bool := (costLimit <? Cost tx) || (gasLimit <? TxGasLimit tx).

Definition list_Filter (costLimit gasLimit : Z) (l : txList) : list Transaction * list Transaction * txList :=
  if (costcap l <=? costLimit) && (gascap l <=? gasLimit) then ([], [], l)
  else
    let '(removed, m) := Filter range (unaffordable costLimit gasLimit) (txs l) in
    let '(invalids, m) :=
      if strict l && (0 <? zlen removed) then Filter range (fun tx => lowest_nonce removed <? AccountNonce tx) m
      else ([], m) in
    (removed, invalids, mkTxList (strict l) m costLimit gasLimit).

Definition list_Cap (threshold : Z) (l : txList) : option (list Transaction * txList) :=
  '(drops, m) ← Cap threshold (txs l); Some (drops, set_txs m l).

Definition list_Remove (tx : Transaction) (l : txList) : bool * list Transaction * txList :=
  let nonce := AccountNonce tx in
  let '(found, m) := Remove nonce (txs l) in
  if negb found then (false, [], set_txs m l)
  else if strict l then
    let '(invalids, m) := Filter range (fun tx => nonce <? AccountNonce tx) m in (true, invalids, set_txs m l)
  else (true, [], set_txs m l).

Definition list_Ready (start : Z) (l : txList) : list Transaction * txList :=
  let '(ready, m) := Ready start (txs l) in (ready, set_txs m l).

Definition list_Len (l : txList) : Z := Len (txs l).
Definition list_Empty (l : txList) : bool := list_Len l =? 0.

Definition list_Flatten (l : txList) : list Transaction * txList :=
  let '(c, m) := Flatten range (txs l) in (c, set_txs m l).
End Range.

(** * Transactions by price *)

(** [priceHeap.Less]: the cheaper first, at one price the higher nonce. *)
Definition price_less (x y : Transaction) : bool :=
  (Price x <? Price y) || ((Price x =? Price y) && (AccountNonce y <? AccountNonce x)).

#[export] Instance price_less_order : LessOrder price_less.
Proof. split; unfold price_less; intros; lia. Qed.

#[export] Instance Transaction_inhabited : Inhabited Transaction := populate (mkTransaction 0 0 0 None 0 [] 0).

(** [txPricedList]; the map of all transactions, by hash, belongs to the pool. *)
Record txPricedList := mkPriced { priced_items : list Transaction; stales : Z }.
Definition newTxPricedList : txPricedList := mkPriced [] 0.

Definition priced_Put (tx : Transaction) (l : txPricedList) : txPricedList :=
  mkPriced (heap_Push price_less tx (priced_items l)) (stales l).

Section Pool.
Context (all : gmap Z Transaction) (range : gmap Z Transaction -> list (Z * Transaction)) (local : Transaction -> bool).

Definition priced_Removed (l : txPricedList) : txPricedList :=
  let stales' := stales l + 1 in
  if stales' <=? zlen (priced_items l) / 4 then mkPriced (priced_items l) stales'
  else mkPriced (heap_Init price_less (map snd (range all))) 0.

Definition is_stale (tx : Transaction) : bool := bool_decide (all !! TxHash tx = None).

(** The loop of [Cap]. *)
Fixpoint priced_cap_loop (fuel : nat) (threshold : Z) (l : txPricedList) (drop save : list Transaction)
    : list Transaction * list Transaction * txPricedList :=
  match fuel with
  | O => (drop, save, l)
  | S fuel =>
      match heap_Pop price_less (priced_items l) with
      | None => (drop, save, l)
      | Some (tx, rest) =>
          if is_stale tx then priced_cap_loop fuel threshold (mkPriced rest (stales l - 1)) drop save
          else if threshold <=? Price tx then (drop, save ++ [tx], mkPriced rest (stales l))
          else if local tx then priced_cap_loop fuel threshold (mkPriced rest (stales l)) drop (save ++ [tx])
          else priced_cap_loop fuel threshold (mkPriced rest (stales l)) (drop ++ [tx]) save
      end
  end.

Definition put_back (save : list Transaction) (l : txPricedList) : txPricedList := foldl (fun l tx => priced_Put tx l) l save.

Definition priced_Cap (threshold : Z) (l : txPricedList) : list Transaction * txPricedList :=
  let '(drop, save, l) := priced_cap_loop (length (priced_items l)) threshold l [] [] in (drop, put_back save l).

(** The loop of [Underpriced] that drops stale heads. *)
Fixpoint drop_stale (fuel : nat) (l : txPricedList) : txPricedList :=
  match fuel with
  | O => l
  | S fuel =>
      match priced_items l with
      | [] => l
      | head :: _ =>
          if is_stale head then
            match heap_Pop price_less (priced_items l) with
            | Some (_, rest) => drop_stale fuel (mkPriced rest (stales l - 1))
            | None => l
            end
          else l
      end
  end.

Definition priced_Underpriced (tx : Transaction) (l : txPricedList) : bool * txPricedList :=
  if local tx then (false, l)
  else
    let l := drop_stale (length (priced_items l)) l in
    match priced_items l with
    | [] => (false, l)
    | cheapest :: _ => (Price tx <=? Price cheapest, l)
    end.

(** The loop of [Discard]. *)
Fixpoint discard_loop (fuel : nat) (count : Z) (l : txPricedList) (drop save : list Transaction)
    : list Transaction * list Transaction * txPricedList :=
  match fuel with
  | O => (drop, save, l)
  | S fuel =>
      if count <=? 0 then (drop, save, l)
      else
        match heap_Pop price_less (priced_items l) with
        | None => (drop, save, l)
        | Some (tx, rest) =>
            if is_stale tx then discard_loop fuel count (mkPriced rest (stales l - 1)) drop save
            else if local tx then discard_loop fuel count (mkPriced rest (stales l)) drop (save ++ [tx])
            else discard_loop fuel (count - 1) (mkPriced rest (stales l)) (drop ++ [tx]) save
        end
  end.

Definition priced_Discard (count : Z) (l : txPricedList) : list Transaction * txPricedList :=
  let '(drop, save, l) := discard_loop (length (priced_items l)) count l [] [] in (drop, put_back save l).
End Pool.
