(* ===== verification/TxListCorrect.v ===== *)
(** [txList] and [txPricedList] of core/tx_list.go: the caps bound the costs,
    filtering removes exactly the transactions that are not affordable and,
    in a strict list, those they strand; discarding takes the cheapest. *)
From stdpp Require Import gmap sorting.
From S2P Require Import Prelude GoMath GoHeap TxSorted TxSortedCorrect TxList.

Definition list_items (l : txList) : gmap Z Transaction := items (txs l).

Record list_ok (l : txList) : Prop := {
  list_sorted : sorted_ok (txs l);
  list_caps n tx : list_items l !! n = Some tx -> Cost tx <= costcap l /\ TxGasLimit tx <= gascap l
}.

Lemma newTxList_ok b : list_ok (newTxList b).
Proof. split; [apply newTxSortedMap_ok|]. intros n tx H. cbn in H. by rewrite lookup_empty in H. Qed.

Lemma list_Add_ok tx bump l b old l' :
  list_ok l -> is_u64 (AccountNonce tx) -> list_Add tx bump l = (b, old, l') ->
  list_ok l' /\
  if b then list_items l' = <[AccountNonce tx := tx]> (list_items l) /\ old = list_items l !! AccountNonce tx /\
            forall o, old = Some o -> Price o < Price tx /\ price_threshold o bump <= Price tx
  else l' = l /\ exists o, list_items l !! AccountNonce tx = Some o /\ (Price tx <= Price o \/ Price tx < price_threshold o bump).
Proof.
  intros Hok Hu. unfold list_Add, Get. fold (list_items l). destruct (match list_items l !! _ with Some _ => _ | None => _ end) eqn:E.
  { intros [= <- <- <-]. split; [done|]. split; [done|]. destruct (list_items l !! _) as [o|]; [|done]. exists o. split; [done|]. lia. }
  intros [= <- <- <-]. destruct Hok as [Hs Hc]. split.
  - split; [by apply Put_ok|]. intros n y. cbn. rewrite lookup_insert. case_decide as En.
    + intros [= <-]. split; case_if; lia.
    + intros Hy. destruct (Hc n y Hy). split; case_if; lia.
  - split; [done|]. split; [done|]. intros o Ho. rewrite Ho in E. lia.
Qed.

(** Operations that only take transactions away keep the caps. *)
Lemma list_ok_sub l m : list_ok l -> sorted_ok m -> items m ⊆ list_items l -> list_ok (set_txs m l).
Proof. intros [_ Hc] Hs Hsub. split; [done|]. intros n tx Hx. by apply (Hc n tx), (lookup_weaken _ _ _ _ Hx). Qed.

Lemma listing_sub m m' l k : keyed m' -> listing m (l ++ k) \/ listing m (k ++ l) -> listing m' l -> m' ⊆ m.
Proof.
  intros Hk Hm [_ He']. apply map_subseteq_spec. intros n tx Hx. pose proof (Hk _ _ Hx) as [<- _].
  apply He' in Hx. destruct Hm as [[_ He]|[_ He]]; apply He, elem_of_app; auto.
Qed.

Section Filtering.
Context (range : gmap Z Transaction -> list (Z * Transaction)) (range_all : forall m, range m ≡ₚ map_to_list m).

Lemma list_Forward_ok t l removed l' : list_ok l -> list_Forward t l = (removed, l') -> list_ok l'.
Proof.
  intros Hok. unfold list_Forward. destruct (Forward t (txs l)) as [r m] eqn:E. intros [= <- <-].
  apply (Forward_ok range range_all) in E as (Hs & _ & Em); [|apply Hok]. apply list_ok_sub; [done..|].
  rewrite Em. apply map_filter_subseteq.
Qed.

Lemma list_Cap_ok t l drops l' : list_ok l -> 0 <= t -> list_Cap t l = Some (drops, l') -> list_ok l'.
Proof.
  intros Hok Ht. unfold list_Cap. destruct (Cap_ok range range_all t (txs l) (list_sorted _ Hok) Ht) as (d & m & k & -> & Hs & H1 & H2 & _).
  intros [= <- <-]. apply list_ok_sub; [done..|]. eapply listing_sub; [apply Hs|by left|done].
Qed.

Lemma list_Ready_ok s l ready l' : list_ok l -> list_Ready s l = (ready, l') -> list_ok l'.
Proof.
  intros Hok. unfold list_Ready. destruct (Ready s (txs l)) as [r m] eqn:E. intros [= <- <-].
  apply (Ready_ok range range_all) in E as (Hs & k & H1 & H2 & _); [|apply Hok].
  apply list_ok_sub; [done..|]. eapply listing_sub; [apply Hs|by right|done].
Qed.

Lemma Filter_lookup f m removed m' :
  sorted_ok m -> Filter range f m = (removed, m') ->
  sorted_ok m' /\ (forall n tx, items m' !! n = Some tx <-> items m !! n = Some tx /\ f tx = false) /\
  (forall tx, tx ∈ removed <-> items m !! AccountNonce tx = Some tx /\ f tx = true).
Proof.
  intros Hok E. apply (Filter_ok range range_all) in E as (Hs & Hp & Em); [|done]. split; [done|]. split.
  - intros n tx. rewrite Em, map_lookup_filter_Some. done.
  - intros tx. rewrite Hp. split.
    + intros ([n y] & -> & Hy%elem_of_map_to_list)%list_elem_of_fmap. apply map_lookup_filter_Some in Hy as [Hy Hf].
      cbn in *. pose proof (sorted_keyed _ Hok _ _ Hy) as [En _]. by rewrite En.
    + intros [Hx Hf]. apply (list_elem_of_fmap_2' snd _ (AccountNonce tx, tx)); [|done].
      by apply elem_of_map_to_list, map_lookup_filter_Some.
Qed.

Lemma list_Remove_ok tx l b invalids l' : list_ok l -> list_Remove range tx l = (b, invalids, l') -> list_ok l'.
Proof.
  intros Hok. unfold list_Remove. destruct (Remove _ (txs l)) as [found m] eqn:E.
  apply Remove_ok in E as (Hs & _ & Em); [|apply Hok].
  assert (Hsub : items m ⊆ list_items l) by (rewrite Em; apply delete_subseteq).
  destruct found; cbn [negb]; [|intros [= <- <- <-]; by apply list_ok_sub]. destruct (strict l).
  - destruct (Filter range _ m) as [inv m'] eqn:E. intros [= <- <- <-].
    apply Filter_lookup in E as (Hs' & Hm' & _); [|done]. apply list_ok_sub; [done..|].
    etransitivity; [|done]. apply map_subseteq_spec. intros n y Hy. by apply Hm' in Hy as [? _].
  - intros [= <- <- <-]. by apply list_ok_sub.
Qed.

Lemma lowest_nonce_ok removed n :
  Forall (fun tx => AccountNonce tx <= MaxUint64) removed -> removed <> [] ->
  lowest_nonce removed < n <-> exists r, r ∈ removed /\ AccountNonce r < n.
Proof.
  intros Hall Hne.
  assert (Hfold : forall l acc, fold_left (fun lowest tx => if AccountNonce tx <? lowest then AccountNonce tx else lowest) l acc < n <->
    acc < n \/ exists r, r ∈ l /\ AccountNonce r < n).
  { induction l as [|x l IH]; intros acc; cbn [fold_left].
    - split; [by left|]. intros [|(r & Hr & _)]; [done|]. by apply list.not_elem_of_nil in Hr.
    - rewrite IH. split.
      + intros [H|(r & Hr & H)]; [|right; exists r; split; [by right|done]].
        case_if_in H; [right; exists x; split; [by left|done]|by left].
      + intros [H|(r & [->|Hr]%elem_of_cons & H)]; [left; case_if; lia|left; case_if; lia|right; by exists r]. }
  unfold lowest_nonce. rewrite Hfold. split; [|by right]. intros [H|]; [|done].
  destruct removed as [|r removed]; [done|]. exists r. split; [by left|]. apply Forall_cons_iff in Hall as [? _]. lia.
Qed.

Definition filtered (costLimit gasLimit : Z) (l : txList) (removed invalids : list Transaction) (l' : txList) : Prop :=
  list_ok l' /\
  (forall tx, tx ∈ removed <-> list_items l !! AccountNonce tx = Some tx /\ unaffordable costLimit gasLimit tx = true) /\
  (forall tx, tx ∈ invalids <-> list_items l !! AccountNonce tx = Some tx /\ unaffordable costLimit gasLimit tx = false /\
     strict l = true /\ exists r, r ∈ removed /\ AccountNonce r < AccountNonce tx) /\
  (forall n tx, list_items l' !! n = Some tx <-> list_items l !! n = Some tx /\ ~ tx ∈ removed /\ ~ tx ∈ invalids).

Lemma not_in_nil (tx : Transaction) : ~ tx ∈ @nil Transaction.
Proof. apply list.not_elem_of_nil. Qed.

(** The short cut: the caps tell that all are affordable. *)
Lemma filter_short costLimit gasLimit l :
  list_ok l -> costcap l <= costLimit -> gascap l <= gasLimit -> filtered costLimit gasLimit l [] [] l.
Proof.
  intros Hok H1 H2. assert (Haff : forall n tx, list_items l !! n = Some tx -> unaffordable costLimit gasLimit tx = false).
  { intros n tx Hx. destruct (list_caps _ Hok n tx Hx). unfold unaffordable. lia. }
  split; [done|]. split; [|split].
  - intros tx. split; [intros Hin; by apply not_in_nil in Hin|]. intros [Hx Hu]. by rewrite (Haff _ _ Hx) in Hu.
  - intros tx. split; [intros Hin; by apply not_in_nil in Hin|]. intros (_ & _ & _ & r & Hr & _). by apply not_in_nil in Hr.
  - intros n tx. split; [intros Hx; split; [done|split; apply not_in_nil]|by intros [? _]].
Qed.

(** One pass, when nothing can be stranded. *)
Lemma filter_once costLimit gasLimit l rem m :
  list_ok l -> strict l && (0 <? zlen rem) = false -> Filter range (unaffordable costLimit gasLimit) (txs l) = (rem, m) ->
  filtered costLimit gasLimit l rem [] (mkTxList (strict l) m costLimit gasLimit).
Proof.
  intros [Hs Hc] Estrict E1. apply Filter_lookup in E1 as (Hs1 & Hm1 & Hr1); [|done].
  split; [|split; [done|split]].
  - split; [done|]. intros n tx Hx. cbn in *. apply Hm1 in Hx as [_ Hu]. unfold unaffordable in Hu. lia.
  - intros tx. split; [intros Hin; by apply not_in_nil in Hin|]. intros (_ & _ & Hst & r & Hr & _). exfalso. rewrite Hst in Estrict.
    cbn in Estrict. simp_bool. destruct rem; [by apply not_in_nil in Hr|]. rewrite zlen_cons in Estrict. pose proof (zlen_nonneg rem). lia.
  - intros n tx. cbn. rewrite Hm1, Hr1. split.
    + intros [Hx Hu]. split; [done|]. split; [intros [_ ?]; congruence|apply not_in_nil].
    + intros (Hx & Hnr & _). destruct (sorted_keyed _ Hs _ _ Hx) as [En _]. rewrite En in Hnr. split; [done|].
      destruct (unaffordable _ _ tx) eqn:Hu; [by destruct Hnr|done].
Qed.

(** Two passes: a strict list also loses what the removed ones strand. *)
Lemma filter_strict costLimit gasLimit l rem m inv m2 :
  list_ok l -> strict l && (0 <? zlen rem) = true -> Filter range (unaffordable costLimit gasLimit) (txs l) = (rem, m) ->
  Filter range (fun tx => lowest_nonce rem <? AccountNonce tx) m = (inv, m2) ->
  filtered costLimit gasLimit l rem inv (mkTxList (strict l) m2 costLimit gasLimit).
Proof.
  intros [Hs Hc] [Estr Hpos]%andb_prop E1 E2. apply Filter_lookup in E1 as (Hs1 & Hm1 & Hr1); [|done].
  apply Filter_lookup in E2 as (Hs2 & Hm2 & Hr2); [|done].
  assert (Hlow : forall n, lowest_nonce rem < n <-> exists r, r ∈ rem /\ AccountNonce r < n).
  { intros n. apply lowest_nonce_ok; [|by destruct rem]. apply List.Forall_forall. intros r Hr%list_elem_of_In.
    apply Hr1 in Hr as [Hr _]. apply (sorted_keyed _ Hs) in Hr as [_ Hu]. unfold MaxUint64, is_u64 in *. lia. }
  assert (Hinv : forall tx, tx ∈ inv <-> list_items l !! AccountNonce tx = Some tx /\ unaffordable costLimit gasLimit tx = false /\
    strict l = true /\ exists r, r ∈ rem /\ AccountNonce r < AccountNonce tx).
  { intros tx. rewrite Hr2, Hm1, <-Hlow, Z.ltb_lt. unfold list_items. naive_solver. }
  split; [|split; [done|split; [done|]]].
  - split; [done|]. intros n tx Hx. cbn in *. apply Hm2 in Hx as [Hx _]. apply Hm1 in Hx as [_ Hu]. unfold unaffordable in Hu. lia.
  - intros n tx. cbn. rewrite Hm2, Hm1, Hr1, Hinv. split.
    + intros [[Hx Hu] Hlt]. split; [done|]. destruct (sorted_keyed _ Hs _ _ Hx) as [En _]. split; [intros [_ ?]; congruence|].
      intros (_ & _ & _ & Hex). apply Hlow in Hex. lia.
    + intros (Hx & Hnr & Hni). destruct (sorted_keyed _ Hs _ _ Hx) as [En _]. rewrite En in *. fold (list_items l) in *.
      destruct (unaffordable _ _ tx) eqn:Hu; [by destruct Hnr|]. split; [done|]. apply Z.ltb_ge.
      destruct (decide (lowest_nonce rem < n)) as [Hlt|]; [|lia]. exfalso. apply Hni. by apply Hlow in Hlt.
Qed.

Lemma list_Filter_filtered costLimit gasLimit l removed invalids l' :
  list_ok l -> list_Filter range costLimit gasLimit l = (removed, invalids, l') -> filtered costLimit gasLimit l removed invalids l'.
Proof.
  intros Hok E. unfold list_Filter in E. destruct (_ && _) eqn:Ecap.
  { injection E as <- <- <-. simp_bool. by apply filter_short. }
  destruct (Filter range (unaffordable _ _) (txs l)) as [rem m] eqn:E1. destruct (strict l && _) eqn:Estrict.
  - destruct (Filter range _ m) as [inv m2] eqn:E2. injection E as <- <- <-. by eapply filter_strict.
  - injection E as <- <- <-. by apply filter_once.
Qed.

(** [txList.Filter] removes what the account cannot pay, and nothing else
    by mistake. On a list whose caps bound its transactions, the transactions
    above the limits of cost and gas are removed, also when the short cut over
    the caps is taken; in a strict list the affordable ones with a nonce above
    a removed one are invalidated; all others stay, and the caps bound them
    again. *)
Theorem list_Filter_exact costLimit gasLimit l removed invalids l' :
  list_ok l -> list_Filter range costLimit gasLimit l = (removed, invalids, l') ->
  list_ok l' /\
  (forall tx, tx ∈ removed <-> list_items l !! AccountNonce tx = Some tx /\ unaffordable costLimit gasLimit tx = true) /\
  (forall tx, tx ∈ invalids <-> list_items l !! AccountNonce tx = Some tx /\ unaffordable costLimit gasLimit tx = false /\
     strict l = true /\ exists r, r ∈ removed /\ AccountNonce r < AccountNonce tx) /\
  (forall n tx, list_items l' !! n = Some tx <-> list_items l !! n = Some tx /\ ~ tx ∈ removed /\ ~ tx ∈ invalids).
Proof.
  intros Hok E. by apply list_Filter_filtered.
Qed.
End Filtering.

(** * Discarding the cheapest *)
Section Discarding.
Context (all : gmap Z Transaction) (local : Transaction -> bool).

Definition live_remote (tx : Transaction) : Prop := is_stale all tx = false /\ local tx = false.

(** What a run of the loop takes out: the dropped, the saved and the stale. *)
Record discarded (count : Z) (old new : list Transaction) (d sv st : list Transaction) : Prop := {
  dis_heap : heap price_less new;
  dis_perm : old ≡ₚ d ++ sv ++ st ++ new;
  dis_drop : Forall live_remote d;
  dis_save : Forall (fun tx => local tx = true) sv;
  dis_stale : Forall (fun tx => is_stale all tx = true) st;
  dis_least x y : x ∈ d -> y ∈ new -> le price_less x y;
  dis_count : zlen d <= Z.max 0 count;
  dis_all : zlen d < count -> new = []
}.

Lemma discard_loop_ok fuel count l drop save drop' save' l' :
  heap price_less (priced_items l) -> (length (priced_items l) <= fuel)%nat ->
  discard_loop all local fuel count l drop save = (drop', save', l') ->
  exists d sv st, drop' = drop ++ d /\ save' = save ++ sv /\ discarded count (priced_items l) (priced_items l') d sv st.
Proof.
  assert (Hstop : forall l count, heap price_less (priced_items l) -> (0 < count -> priced_items l = []) ->
    discarded count (priced_items l) (priced_items l) [] [] []).
  { intros k c Hh Hc. split; try done; try constructor; [by intros x y Hx; apply list.not_elem_of_nil in Hx|unfold zlen; cbn; lia]. }
  revert count l drop save. induction fuel as [|fuel IH]; intros count l drop save Hh Hf E; cbn [discard_loop] in E.
  { injection E as <- <- <-. exists [], [], []. rewrite !app_nil_r. split; [done|]. split; [done|]. apply Hstop; [done|].
    intros _. by destruct (priced_items l); [|cbn in Hf; lia]. }
  destruct (count <=? 0) eqn:Ec; simp_bool.
  { injection E as <- <- <-. exists [], [], []. rewrite !app_nil_r. split; [done|]. split; [done|]. apply Hstop; [done|lia]. }
  destruct (decide (priced_items l = [])) as [Enil|Hne].
  { rewrite Enil in E. cbn in E. injection E as <- <- <-. exists [], [], []. rewrite !app_nil_r.
    split; [done|]. split; [done|]. by apply Hstop. }
  destruct (heap_Pop_ok price_less (priced_items l) Hh Hne) as (tx & rest & Hpop & Hh' & Hp & _ & Hmin). rewrite Hpop in E.
  pose proof (Permutation_length Hp) as Hlen. cbn in Hlen.
  destruct (is_stale all tx) eqn:Est; [|destruct (local tx) eqn:Eloc].
  - apply IH in E as (d & sv & st & -> & -> & [H1 H2 H3 H4 H5 H6 H7 H8]); [|done|cbn; lia]. cbn in H2.
    exists d, sv, (tx :: st). split; [done|]. split; [done|]. split; try done; [|by constructor].
    rewrite Hp, H2. solve_Permutation.
  - apply IH in E as (d & sv & st & -> & -> & [H1 H2 H3 H4 H5 H6 H7 H8]); [|done|cbn; lia]. cbn in H2.
    exists d, (tx :: sv), st. rewrite <-app_assoc. split; [done|]. split; [done|]. split; try done; [|by constructor].
    rewrite Hp, H2. solve_Permutation.
  - apply IH in E as (d & sv & st & -> & -> & [H1 H2 H3 H4 H5 H6 H7 H8]); [|done|cbn; lia]. cbn in H2.
    exists (tx :: d), sv, st. rewrite <-app_assoc. split; [done|]. split; [done|]. split; try done.
    + rewrite Hp, H2. done.
    + by constructor.
    + intros x y [->|Hx]%elem_of_cons Hy; [|by apply H6]. apply Hmin. rewrite Hp, H2. right. rewrite !elem_of_app. by right; right; right.
    + rewrite zlen_cons. lia.
    + rewrite zlen_cons. intros. apply H8. lia.
Qed.

Lemma put_back_ok save l :
  heap price_less (priced_items l) ->
  heap price_less (priced_items (put_back save l)) /\ priced_items (put_back save l) ≡ₚ save ++ priced_items l.
Proof.
  unfold put_back. revert l. induction save as [|tx save IH]; intros l Hh; cbn; [done|].
  destruct (heap_Push_ok price_less tx (priced_items l) Hh) as [H1 H2].
  destruct (IH (priced_Put tx l) H1) as [H3 H4]. split; [done|]. rewrite H4. cbn. rewrite H2. by rewrite Permutation_middle.
Qed.

(** Besides [drop] only stale entries leave the heap. *)
Definition losing (l : txPricedList) (drop : list Transaction) (l' : txPricedList) : Prop :=
  heap price_less (priced_items l') /\
  exists stale, priced_items l ≡ₚ drop ++ stale ++ priced_items l' /\ Forall (fun tx => is_stale all tx = true) stale.

Lemma Discard_losing count l drop l' :
  heap price_less (priced_items l) -> priced_Discard all local count l = (drop, l') -> losing l drop l'.
Proof.
  intros Hh. unfold priced_Discard. destruct (discard_loop _ _ _ _ _ _ _) as [[d sv] l1] eqn:E. intros [= <- <-].
  apply discard_loop_ok in E as (d' & sv' & st & -> & -> & [H1 H2 H3 H4 H5 H6 H7 H8]); [|done|done]. cbn [app] in *.
  destruct (put_back_ok sv' l1 H1) as [G1 G2]. split; [done|]. exists st. split; [|done]. rewrite H2, G2. solve_Permutation.
Qed.

Lemma priced_cap_loop_ok fuel t l drop save drop' save' l' :
  heap price_less (priced_items l) -> priced_cap_loop all local fuel t l drop save = (drop', save', l') ->
  heap price_less (priced_items l') /\
  exists d sv st, drop' = drop ++ d /\ save' = save ++ sv /\ priced_items l ≡ₚ d ++ sv ++ st ++ priced_items l' /\
    Forall (fun tx => is_stale all tx = true) st.
Proof.
  revert l drop save. induction fuel as [|fuel IH]; intros l drop save Hh E; cbn [priced_cap_loop] in E.
  { injection E as <- <- <-. split; [done|]. exists [], [], []. rewrite !app_nil_r. done. }
  destruct (decide (priced_items l = [])) as [Enil|Hne].
  { rewrite Enil in E. cbn in E. injection E as <- <- <-. split; [done|]. exists [], [], []. rewrite !app_nil_r. done. }
  destruct (heap_Pop_ok price_less (priced_items l) Hh Hne) as (tx & rest & Hpop & Hh' & Hp & _). rewrite Hpop in E.
  destruct (is_stale all tx) eqn:Est; [|destruct (t <=? Price tx); [|destruct (local tx)]].
  - apply IH in E as (G & d & sv & st & -> & -> & H2 & H5); [|done]. split; [done|]. exists d, sv, (tx :: st).
    split; [done|]. split; [done|]. split; [|by constructor]. rewrite Hp. cbn in H2. rewrite H2. solve_Permutation.
  - injection E as <- <- <-. split; [done|]. exists [], [tx], []. rewrite app_nil_r. split; [done|]. split; [done|]. split; [by rewrite Hp|constructor].
  - apply IH in E as (G & d & sv & st & -> & -> & H2 & H5); [|done]. split; [done|]. exists d, (tx :: sv), st. rewrite <-app_assoc.
    split; [done|]. split; [done|]. split; [|done]. rewrite Hp. cbn in H2. rewrite H2. solve_Permutation.
  - apply IH in E as (G & d & sv & st & -> & -> & H2 & H5); [|done]. split; [done|]. exists (tx :: d), sv, st. rewrite <-app_assoc.
    split; [done|]. split; [done|]. split; [|done]. rewrite Hp. cbn in H2. by rewrite H2.
Qed.

Lemma Cap_losing t l drop l' :
  heap price_less (priced_items l) -> priced_Cap all local t l = (drop, l') -> losing l drop l'.
Proof.
  intros Hh. unfold priced_Cap. destruct (priced_cap_loop _ _ _ _ _ _ _) as [[d sv] l1] eqn:E. intros [= <- <-].
  apply priced_cap_loop_ok in E as (H1 & d' & sv' & st & -> & -> & H2 & H5); [|done]. cbn [app] in *.
  destruct (put_back_ok sv' l1 H1) as [G1 G2]. split; [done|]. exists st. split; [|done]. rewrite H2, G2. solve_Permutation.
Qed.

Lemma drop_stale_losing fuel l : heap price_less (priced_items l) -> losing l [] (drop_stale all fuel l).
Proof.
  revert l. induction fuel as [|fuel IH]; intros l Hh; cbn [drop_stale]; [by split; [|exists []]|].
  destruct (priced_items l) as [|x k] eqn:El; [split; [by rewrite El|exists []; by rewrite El]|].
  destruct (is_stale all x) eqn:Est; [|by split; [rewrite El|exists []; rewrite El]].
  destruct (heap_Pop_ok price_less (x :: k)) as (tx & rest & Hpop & Hh' & Hp & Htop & _); [done|done|]. rewrite Hpop.
  destruct (IH (mkPriced rest (stales l - 1)) Hh') as [G (st & H2 & H5)]. split; [done|].
  exists (x :: st). cbn in *. split; [|by constructor].
  cbn in Htop. subst tx. rewrite El, Hp. apply Permutation_cons; [done|exact H2].
Qed.

(** [txPricedList.Discard] frees the cheapest places. On a heap of
    transactions it returns at most [count] transactions, none of them local
    and all of them still in the pool; besides them only stale entries leave
    the heap; and a remote transaction of the pool stays only when [count] are
    dropped, each of them cheaper or, at one price, of a later nonce. *)
Theorem Discard_takes_cheapest count l drop l' :
  heap price_less (priced_items l) -> 0 <= count -> priced_Discard all local count l = (drop, l') ->
  heap price_less (priced_items l') /\ Forall live_remote drop /\ zlen drop <= count /\
  (exists stale, priced_items l ≡ₚ drop ++ stale ++ priced_items l' /\ Forall (fun tx => is_stale all tx = true) stale) /\
  forall x, x ∈ priced_items l' -> live_remote x ->
    zlen drop = count /\ forall d, d ∈ drop -> Price d < Price x \/ (Price d = Price x /\ AccountNonce x <= AccountNonce d).
Proof.
  intros Hh Hc. unfold priced_Discard. destruct (discard_loop _ _ _ _ _ _ _) as [[d sv] l1] eqn:E. intros [= <- <-].
  apply discard_loop_ok in E as (d' & sv' & st & -> & -> & [H1 H2 H3 H4 H5 H6 H7 H8]); [|done|done]. cbn [app] in *.
  destruct (put_back_ok sv' l1 H1) as [G1 G2]. split; [done|]. split; [done|]. split; [lia|]. split.
  - exists st. split; [|done]. rewrite H2, G2. solve_Permutation.
  - intros x Hx [Hlive Hrem]. rewrite G2, elem_of_app in Hx. destruct Hx as [Hx|Hx].
    { apply list_elem_of_In, (proj1 (List.Forall_forall _ _) H4) in Hx. congruence. }
    split.
    + destruct (decide (zlen d' < count)) as [Hlt|]; [|lia]. rewrite (H8 Hlt) in Hx. by apply list.not_elem_of_nil in Hx.
    + intros y Hy. pose proof (H6 y x Hy Hx) as Hle. unfold le, price_less in Hle. lia.
Qed.
End Discarding.

(** * Examples *)
Definition example_list : txList :=
  let '(_, _, l) := list_Add (example_tx 3 2) 10 (newTxList true) in
  let '(_, _, l) := list_Add (example_tx 4 7) 10 l in
  let '(_, _, l) := list_Add (example_tx 5 2) 10 l in l.

Lemma example_list_ok : list_ok example_list.
Proof.
  unfold example_list. repeat match goal with
  | |- context [list_Add ?tx ?b ?l] =>
      assert (list_ok (list_Add tx b l).2) by (destruct (list_Add tx b l) as [[? ?] ?] eqn:E;
        eapply (list_Add_ok tx b l); [first [assumption|apply newTxList_ok]|by_decide|exact E]);
      destruct (list_Add tx b l) as [[? ?] ?]
  end. done.
Qed.

(** The second transaction costs too much, and strands the third one. *)
Lemma list_Filter_exact_witness :
  list_Filter map_to_list 50000 30000 example_list =
    ([example_tx 4 7], [example_tx 5 2], (list_Filter map_to_list 50000 30000 example_list).2) /\
  list_ok (list_Filter map_to_list 50000 30000 example_list).2.
Proof.
  split; [by_compute|].
  destruct (list_Filter map_to_list 50000 30000 example_list) as [[removed invalids] l'] eqn:E.
  apply (list_Filter_exact map_to_list (fun m => reflexivity _) 50000 30000 example_list removed invalids l' example_list_ok E).
Defined.

Definition example_priced : txPricedList :=
  priced_Put (example_tx 1 30) (priced_Put (example_tx 2 10) (priced_Put (example_tx 3 20) newTxPricedList)).
Definition example_pool : gmap Z Transaction :=
  list_to_map (map (fun tx => (TxHash tx, tx)) [example_tx 1 30; example_tx 2 10; example_tx 3 20]).

Lemma example_priced_ok : heap price_less (priced_items example_priced).
Proof. do 3 (refine (proj1 (heap_Push_ok price_less _ _ _))). intros c. cbn. lia. Qed.

Lemma Discard_takes_cheapest_witness :
  exists l', priced_Discard example_pool (fun _ => false) 2 example_priced = ([example_tx 2 10; example_tx 3 20], l') /\
    heap price_less (priced_items l').
Proof.
  destruct (priced_Discard example_pool (fun _ => false) 2 example_priced) as [drop l'] eqn:E. exists l'.
  assert (drop = [example_tx 2 10; example_tx 3 20]) as -> by (vm_compute in E; by injection E).
  split; [reflexivity|].
  apply (Discard_takes_cheapest example_pool (fun _ => false) 2 example_priced _ l' example_priced_ok ltac:(lia) E).
Defined.
