(* ===== verification/BlockHeader.v ===== *)
(** Block headers, core/types/block.go: the fields, their RLP encoding and the
    hash of a header.  The hash function of golang.org/x/crypto/sha3 is an
    argument. *)
From S2P Require Import Prelude GoMath RlpTypes RlpEncode.

(** Hashes and addresses are kept as the numbers of their bytes; a [nil]
    [*big.Int] is [None]. *)
Record Header := mkHeader {
  ParentHash : Z;
  UncleHash : Z;
  Coinbase : Z;
  Root : Z;
  TxHash : Z;
  ReceiptHash : Z;
  Bloom : Z;
  Difficulty : option Z;
  Number : option Z;
  GasLimit : Z;
  GasUsed : Z;
  Time : option Z;
  Extra : bytes;
  MixDigest : Z;
  Nonce : bytes
}.

Definition set_Extra (x : bytes) (h : Header) : Header :=
  mkHeader (ParentHash h) (UncleHash h) (Coinbase h) (Root h) (TxHash h) (ReceiptHash h) (Bloom h) (Difficulty h)
    (Number h) (GasLimit h) (GasUsed h) (Time h) x (MixDigest h) (Nonce h).

Definition byte_array (n : nat) : typ := TArray n (TUint 8).
Definition hash_val (h : Z) : val := VBytes (Z_to_be 32 h).
Definition big_val (x : option Z) : val := match x with Some i => VPtr (VBig i) | None => VNil end.

Definition Header_typ : typ :=
  TStruct (map (fun t => (t, noTags))
    [byte_array 32; byte_array 32; byte_array 20; byte_array 32; byte_array 32; byte_array 32; byte_array 256;
     TPtr TBigInt; TPtr TBigInt; TUint 64; TUint 64; TPtr TBigInt; TSlice (TUint 8); byte_array 32; byte_array 8]).

Definition Header_val (h : Header) : val :=
  VList [hash_val (ParentHash h); hash_val (UncleHash h); VBytes (Z_to_be 20 (Coinbase h)); hash_val (Root h);
         hash_val (TxHash h); hash_val (ReceiptHash h); VBytes (Z_to_be 256 (Bloom h)); big_val (Difficulty h);
         big_val (Number h); VUint (GasLimit h); VUint (GasUsed h); big_val (Time h); VBytes (Extra h);
         hash_val (MixDigest h); VBytes (Nonce h)].

(** [rlpHash] ignores the error of [rlp.Encode], which then wrote nothing. *)
Definition rlpHash (keccak256 : bytes -> bytes) (t : typ) (v : val) : Z :=
  be_to_Z (keccak256 (match EncodeToBytes newEncbuf t v with Ok b => b | _ => [] end)).

Definition Header_Hash (keccak256 : bytes -> bytes) (h : Header) : Z := rlpHash keccak256 Header_typ (Header_val h).

(** [header.Number.Uint64()], which panics on a [nil] number. *)
Definition number_of {E} (h : Header) : result E Z := rmap Uint64 (or_panic (Number h)).
