(* ===== verification/HeaderChain.v ===== *)
(** The chain of headers: core/headerchain.go over the accessors of
    core/rawdb/accessors_chain.go.

    A table of the database is a map; headers and difficulties are stored by hash
    and number.  The LRU caches are keyed by hash alone; what they evict is an
    argument, and so are the hash of a header, the coin that breaks ties, and the
    engine.  A [nil] dereference or a missing number is [None]. *)
From stdpp Require Import gmap.
From S2P Require Import Prelude GoMath BlockHeader.

(** * Database *)
Record ChainDB := mkDB {
  db_headers : gmap (Z * Z) Header;
  db_tds : gmap (Z * Z) Z;
  db_numbers : gmap Z Z;
  db_canonical : gmap Z Z;
  db_headHeader : Z }.

(** A missing hash is the zero hash. *)
Definition ReadCanonicalHash (db : ChainDB) (number : Z) : Z := default 0 (db_canonical db !! number).
Definition set_canonical (c : gmap Z Z) (db : ChainDB) : ChainDB := mkDB (db_headers db) (db_tds db) (db_numbers db) c (db_headHeader db).
Definition WriteCanonicalHash (hash number : Z) (db : ChainDB) : ChainDB := set_canonical (<[number := hash]> (db_canonical db)) db.
Definition DeleteCanonicalHash (number : Z) (db : ChainDB) : ChainDB := set_canonical (delete number (db_canonical db)) db.
Definition ReadHeaderNumber (db : ChainDB) (hash : Z) : option Z := db_numbers db !! hash.
Definition WriteHeadHeaderHash (hash : Z) (db : ChainDB) : ChainDB := mkDB (db_headers db) (db_tds db) (db_numbers db) (db_canonical db) hash.
Definition ReadHeader (db : ChainDB) (hash number : Z) : option Header := db_headers db !! (hash, number).
Definition db_HasHeader (db : ChainDB) (hash number : Z) : bool := bool_decide (is_Some (db_headers db !! (hash, number))).
Definition DeleteHeader (hash number : Z) (db : ChainDB) : ChainDB :=
  mkDB (delete (hash, number) (db_headers db)) (db_tds db) (delete hash (db_numbers db)) (db_canonical db) (db_headHeader db).
Definition ReadTd (db : ChainDB) (hash number : Z) : option Z := db_tds db !! (hash, number).
Definition db_WriteTd (hash number td : Z) (db : ChainDB) : ChainDB :=
  mkDB (db_headers db) (<[(hash, number) := td]> (db_tds db)) (db_numbers db) (db_canonical db) (db_headHeader db).
Definition DeleteTd (hash number : Z) (db : ChainDB) : ChainDB :=
  mkDB (db_headers db) (delete (hash, number) (db_tds db)) (db_numbers db) (db_canonical db) (db_headHeader db).

(** [header.Number.Uint64()] *)
Definition number_u64 (h : Header) : option Z := Uint64 <$> Number h.

Inductive WriteStatus := NonStatTy | CanonStatTy | SideStatTy.
Inductive ChainError := ErrUnknownAncestor | ErrBlacklistedHash | ErrAborted | ErrNonContiguous | ErrEngine (e : Z).

Section HeaderChain.
Context (Hash : Header -> Z) (evict : forall A, gmap Z A -> gmap Z A).

(** [rawdb.WriteHeader] *)
Definition db_WriteHeader (header : Header) (number : Z) (db : ChainDB) : ChainDB :=
  mkDB (<[(Hash header, number) := header]> (db_headers db)) (db_tds db) (<[Hash header := number]> (db_numbers db)) (db_canonical db) (db_headHeader db).

Record HeaderChain := mkHeaderChain {
  chainDb : ChainDB;
  genesisHeader : Header;
  currentHeader : option Header;
  currentHeaderHash : Z;
  headerCache : gmap Z Header;
  tdCache : gmap Z Z;
  numberCache : gmap Z Z }.

Definition lru_Add {A} (k : Z) (v : A) (c : gmap Z A) : gmap Z A := evict A (<[k := v]> c).

Definition set_chainDb x hc := mkHeaderChain x (genesisHeader hc) (currentHeader hc) (currentHeaderHash hc) (headerCache hc) (tdCache hc) (numberCache hc).
Definition set_current h x hc := mkHeaderChain (chainDb hc) (genesisHeader hc) h x (headerCache hc) (tdCache hc) (numberCache hc).
Definition set_headerCache x hc := mkHeaderChain (chainDb hc) (genesisHeader hc) (currentHeader hc) (currentHeaderHash hc) x (tdCache hc) (numberCache hc).
Definition set_tdCache x hc := mkHeaderChain (chainDb hc) (genesisHeader hc) (currentHeader hc) (currentHeaderHash hc) (headerCache hc) x (numberCache hc).
Definition set_numberCache x hc := mkHeaderChain (chainDb hc) (genesisHeader hc) (currentHeader hc) (currentHeaderHash hc) (headerCache hc) (tdCache hc) x.

(** * Reading, through the caches *)
Definition GetBlockNumber (hash : Z) (hc : HeaderChain) : option Z * HeaderChain :=
  match numberCache hc !! hash with
  | Some number => (Some number, hc)
  | None =>
      match ReadHeaderNumber (chainDb hc) hash with
      | Some number => (Some number, set_numberCache (lru_Add hash number (numberCache hc)) hc)
      | None => (None, hc)
      end
  end.

Definition GetTd (hash number : Z) (hc : HeaderChain) : option Z * HeaderChain :=
  match tdCache hc !! hash with
  | Some td => (Some td, hc)
  | None =>
      match ReadTd (chainDb hc) hash number with
      | None => (None, hc)
      | Some td => (Some td, set_tdCache (lru_Add hash td (tdCache hc)) hc)
      end
  end.

Definition GetHeader (hash number : Z) (hc : HeaderChain) : option Header * HeaderChain :=
  match headerCache hc !! hash with
  | Some header => (Some header, hc)
  | None =>
      match ReadHeader (chainDb hc) hash number with
      | None => (None, hc)
      | Some header => (Some header, set_headerCache (lru_Add hash header (headerCache hc)) hc)
      end
  end.

Definition HasHeader (hash number : Z) (hc : HeaderChain) : bool :=
  bool_decide (is_Some (numberCache hc !! hash)) || bool_decide (is_Some (headerCache hc !! hash)) || db_HasHeader (chainDb hc) hash number.

Definition GetHeaderByHash (hash : Z) (hc : HeaderChain) : option Header * HeaderChain :=
  match GetBlockNumber hash hc with
  | (None, hc) => (None, hc)
  | (Some number, hc) => GetHeader hash number hc
  end.

Definition GetTdByHash (hash : Z) (hc : HeaderChain) : option Z * HeaderChain :=
  match GetBlockNumber hash hc with
  | (None, hc) => (None, hc)
  | (Some number, hc) => GetTd hash number hc
  end.

Definition GetHeaderByNumber (number : Z) (hc : HeaderChain) : option Header * HeaderChain :=
  let hash := ReadCanonicalHash (chainDb hc) number in
  if hash =? 0 then (None, hc) else GetHeader hash number hc.

(** * Writing *)
Definition WriteTd (hash number td : Z) (hc : HeaderChain) : HeaderChain :=
  set_tdCache (lru_Add hash td (tdCache hc)) (set_chainDb (db_WriteTd hash number td (chainDb hc)) hc).

(** The canonical numbers from [i] up to the first that is free are deleted. *)
Fixpoint delete_above (fuel : nat) (i : Z) (c : gmap Z Z) : option (gmap Z Z) :=
  if default 0 (c !! i) =? 0 then Some c
  else match fuel with O => None | S fuel => delete_above fuel (u64 (i + 1)) (delete i c) end.

(** The ancestors become canonical down to the first that is; a [nil] header
    panics. *)
Fixpoint overwrite (fuel : nat) (headHash headNumber : Z) (headHeader : option Header) (hc : HeaderChain) : option HeaderChain :=
  if ReadCanonicalHash (chainDb hc) headNumber =? headHash then Some hc
  else
    match fuel with
    | O => None
    | S fuel =>
        let hc := set_chainDb (WriteCanonicalHash headHash headNumber (chainDb hc)) hc in
        h ← headHeader;
        n ← number_u64 h;
        let '(next, hc) := GetHeader (ParentHash h) (u64 (n - 1)) hc in
        overwrite fuel (ParentHash h) (u64 (n - 1)) next hc
    end.

(** The new header becomes the head of the canonical chain. *)
Definition make_canonical (header : Header) (hash number : Z) (hc : HeaderChain) : option HeaderChain :=
  let c := db_canonical (chainDb hc) in
  c ← delete_above (size c) (u64 (number + 1)) c;
  let hc := set_chainDb (set_canonical c (chainDb hc)) hc in
  let headHash := ParentHash header in
  let headNumber := u64 (number - 1) in
  let '(headHeader, hc) := GetHeader headHash headNumber hc in
  hc ← overwrite (Z.to_nat number) headHash headNumber headHeader hc;
  let db := WriteHeadHeaderHash hash (WriteCanonicalHash hash number (chainDb hc)) in
  Some (set_current (Some header) hash (set_chainDb db hc)).

(** [coin] is [mrand.Float64() < 0.5]. *)
Definition WriteHeader (coin : bool) (header : Header) (hc : HeaderChain) : option (WriteStatus * option ChainError * HeaderChain) :=
  let hash := Hash header in
  number ← number_u64 header;
  let '(ptd, hc) := GetTd (ParentHash header) (u64 (number - 1)) hc in
  match ptd with
  | None => Some (NonStatTy, Some ErrUnknownAncestor, hc)
  | Some ptd =>
      current ← currentHeader hc;
      currentNumber ← number_u64 current;
      let '(localTd, hc) := GetTd (currentHeaderHash hc) currentNumber hc in
      difficulty ← Difficulty header;
      let externTd := difficulty + ptd in
      let hc := WriteTd hash number externTd hc in
      let hc := set_chainDb (db_WriteHeader header number (chainDb hc)) hc in
      localTd ← localTd;
      '(status, hc) ←
        (if (localTd <? externTd) || ((externTd =? localTd) && coin)
         then hc ← make_canonical header hash number hc; Some (CanonStatTy, hc)
         else Some (SideStatTy, hc));
      let hc := set_headerCache (lru_Add hash header (headerCache hc)) hc in
      Some (status, None, set_numberCache (lru_Add hash number (numberCache hc)) hc)
  end.

Definition SetCurrentHeader (head : Header) (hc : HeaderChain) : HeaderChain :=
  set_current (Some head) (Hash head) (set_chainDb (WriteHeadHeaderHash (Hash head) (chainDb hc)) hc).

(** * Rewinding *)

(** The headers above [head] are deleted, from the current one down; the
    deletions go to the batch [b], the reads to the database. *)
Fixpoint rewind (fuel : nat) (head : Z) (b : ChainDB) (hc : HeaderChain) : option (ChainDB * HeaderChain) :=
  match currentHeader hc with
  | None => Some (b, hc)
  | Some hdr =>
      num ← number_u64 hdr;
      if num <=? head then Some (b, hc)
      else
        match fuel with
        | O => None
        | S fuel =>
            let b := DeleteTd (Hash hdr) num (DeleteHeader (Hash hdr) num b) in
            let '(parent, hc) := GetHeader (ParentHash hdr) (u64 (num - 1)) hc in
            rewind fuel head b (set_current parent (currentHeaderHash hc) hc)
        end
  end.

(** The canonical numbers from [height] down to the one above [head]. *)
Fixpoint delete_down (k : nat) (head : Z) (b : ChainDB) : ChainDB :=
  match k with O => b | S k => delete_down k head (DeleteCanonicalHash (head + Z.of_nat (S k)) b) end.

(** [SetHead] without a callback. *)
Definition SetHead (head : Z) (hc : HeaderChain) : option HeaderChain :=
  height ← match currentHeader hc with Some hdr => number_u64 hdr | None => Some 0 end;
  '(b, hc) ← rewind (Z.to_nat height) head (chainDb hc) hc;
  let b := delete_down (Z.to_nat (height - head)) head b in
  let current := match currentHeader hc with Some h => h | None => genesisHeader hc end in
  let hash := Hash current in
  Some (mkHeaderChain (WriteHeadHeaderHash hash b) (genesisHeader hc) (Some current) hash ∅ ∅ ∅).

(** * Opening *)

(** [headBlock] is the hash of the head block in the database, zero for none. *)
Definition NewHeaderChain (db : ChainDB) (headBlock : Z) : option HeaderChain :=
  let '(genesis, hc) := GetHeaderByNumber 0 (mkHeaderChain db (mkHeader 0 0 0 0 0 0 0 None None 0 0 None [] 0 []) None 0 ∅ ∅ ∅) in
  genesis ← genesis;
  let hc := mkHeaderChain (chainDb hc) genesis (Some genesis) 0 (headerCache hc) (tdCache hc) (numberCache hc) in
  let '(chead, hc) := if headBlock =? 0 then (None, hc) else GetHeaderByHash headBlock hc in
  let current := default genesis chead in
  Some (set_current (Some current) (Hash current) hc).

(** * Batches of headers *)

(** Each header is the child of the one before. *)
Fixpoint contiguous (prev : Header) (chain : list Header) : option bool :=
  match chain with
  | [] => Some true
  | h :: chain =>
      n ← number_u64 h;
      m ← number_u64 prev;
      if negb (n =? u64 (m + 1)) || negb (ParentHash h =? Hash prev) then Some false else contiguous h chain
  end.

(** The seals to verify: one in each group of [checkFreq], drawn by [Intn], and the
    last. *)
Fixpoint draw_seals (k : nat) (checkFreq : Z) (Intn : Z -> Z) (seals : list bool) : list bool :=
  match k with
  | O => seals
  | S k =>
      let seals := draw_seals k checkFreq Intn seals in
      let index := Z.of_nat k * checkFreq + Intn (Z.of_nat k) in
      let index := if zlen seals <=? index then zlen seals - 1 else index in
      <[Z.to_nat index := true]> seals
  end.

Definition choose_seals (n : nat) (checkFreq : Z) (Intn : Z -> Z) : option (list bool) :=
  if checkFreq =? 0 then None
  else
    let seals := draw_seals (Z.to_nat (Z.of_nat n / checkFreq)) checkFreq Intn (replicate n false) in
    match n with O => None | S m => Some (<[m := true]> seals) end.

(** The results of the engine, in order; [interrupted] tells of each header
    whether the process was asked to stop.  A result that never comes blocks. *)
Fixpoint check_results (BadHashes : gset Z) (interrupted : Z -> bool) (i : Z) (chain : list Header) (results : list (option ChainError))
    : option (Z * option ChainError) :=
  match chain with
  | [] => Some (0, None)
  | h :: chain =>
      if interrupted i then Some (0, Some ErrAborted)
      else if bool_decide (Hash h ∈ BadHashes) then Some (i, Some ErrBlacklistedHash)
      else
        match results with
        | Some e :: _ => Some (i, Some e)
        | None :: results => check_results BadHashes interrupted (i + 1) chain results
        | [] => None
        end
  end.

(** [VerifyHeaders] is the engine's. *)
Definition ValidateHeaderChain (VerifyHeaders : list Header -> list bool -> list (option ChainError)) (BadHashes : gset Z)
    (interrupted : Z -> bool) (Intn : Z -> Z) (chain : list Header) (checkFreq : Z) : option (Z * option ChainError) :=
  ok ← match chain with [] => Some true | h :: chain => contiguous h chain end;
  if negb ok then Some (0, Some ErrNonContiguous)
  else
    seals ← choose_seals (length chain) checkFreq Intn;
    check_results BadHashes interrupted 0 chain (VerifyHeaders chain seals).

(** The loop of [InsertHeaderChain] with [WriteHeader] as callback. *)
Fixpoint insert_headers (interrupted coin : Z -> bool) (i : Z) (chain : list Header) (hc : HeaderChain) : option (Z * option ChainError * HeaderChain) :=
  match chain with
  | [] => Some (0, None, hc)
  | h :: chain =>
      if interrupted i then Some (i, Some ErrAborted, hc)
      else
        n ← number_u64 h;
        if HasHeader (Hash h) n hc then insert_headers interrupted coin (i + 1) chain hc
        else
          '(_, err, hc) ← WriteHeader (coin i) h hc;
          match err with
          | Some e => Some (i, Some e, hc)
          | None => insert_headers interrupted coin (i + 1) chain hc
          end
  end.

(** An empty chain, or a last header without a time, panics in the report. *)
Definition InsertHeaderChain (interrupted coin : Z -> bool) (chain : list Header) (hc : HeaderChain) : option (Z * option ChainError * HeaderChain) :=
  '(i, err, hc) ← insert_headers interrupted coin 0 chain hc;
  match err with
  | Some _ => Some (i, err, hc)
  | None => last ← list.last chain; _ ← Time last; Some (i, None, hc)
  end.

(** * Ancestors *)
Fixpoint hashes_below (max : nat) (header : Header) (hc : HeaderChain) : option (list Z * HeaderChain) :=
  match max with
  | O => Some ([], hc)
  | S max =>
      n ← number_u64 header;
      let next := ParentHash header in
      match GetHeader next (u64 (n - 1)) hc with
      | (None, hc) => Some ([], hc)
      | (Some header, hc) =>
          m ← Number header;
          if m =? 0 then Some ([next], hc)
          else '(l, hc) ← hashes_below max header hc; Some (next :: l, hc)
      end
  end.

Definition GetBlockHashesFromHash (hash : Z) (max : nat) (hc : HeaderChain) : option (list Z * HeaderChain) :=
  match GetHeaderByHash hash hc with
  | (None, hc) => Some ([], hc)
  | (Some header, hc) => hashes_below max header hc
  end.

(** [maxNonCanonical] counts down; the zero hash and number for no answer. *)
Fixpoint ancestor_loop (ancestor : nat) (hash number max : Z) (hc : HeaderChain) : Z * Z * Z * HeaderChain :=
  match ancestor with
  | O => (hash, number, max, hc)
  | S k =>
      if ReadCanonicalHash (chainDb hc) number =? hash then
        let number := number - Z.of_nat ancestor in (ReadCanonicalHash (chainDb hc) number, number, max, hc)
      else if max =? 0 then (0, 0, max, hc)
      else
        match GetHeader hash number hc with
        | (None, hc) => (0, 0, max - 1, hc)
        | (Some header, hc) => ancestor_loop k (ParentHash header) (number - 1) (max - 1) hc
        end
  end.

Definition GetAncestor (hash number ancestor max : Z) (hc : HeaderChain) : Z * Z * Z * HeaderChain :=
  if number <? ancestor then (0, 0, max, hc)
  else if ancestor =? 1 then
    match GetHeader hash number hc with
    | (Some header, hc) => (ParentHash header, number - 1, max, hc)
    | (None, hc) => (0, 0, max, hc)
    end
  else ancestor_loop (Z.to_nat ancestor) hash number max hc.
End HeaderChain.
