(* ===== verification/HeaderChainCorrect.v ===== *)
(** The invariant of the header chain and that its operations keep it.

    The stored headers form a tree below the genesis header in which every total
    difficulty is that of the parent plus the header's own; the canonical numbers
    are the ancestry of the current header, which is a heaviest one; a cache holds
    what the database holds. *)
From stdpp Require Import gmap.
From S2P Require Import Prelude GoMath BlockHeader HeaderChain.

Definition stored (db : ChainDB) (h n : Z) (x : Header) : Prop := db_headers db !! (h, n) = Some x.

(** The canonical numbers up to [m] are the ancestry of the header [h]. *)
Definition linked (Hash : Header -> Z) (db : ChainDB) (c : gmap Z Z) (m h : Z) : Prop :=
  c !! m = Some h /\
  forall n, 0 <= n <= m -> exists x, stored db (Hash x) n x /\ c !! n = Some (Hash x) /\ (0 < n -> c !! (n - 1) = Some (ParentHash x)).

Record tree_ok (Hash : Header -> Z) (g : Header) (db : ChainDB) : Prop := {
  tree_key h n x : stored db h n x -> Hash x = h /\ Number x = Some n /\ 0 <= n /\ n + 1 < 2 ^ 64;
  tree_genesis : stored db (Hash g) 0 g;
  tree_root h x : stored db h 0 x -> x = g;
  tree_number h n : db_numbers db !! h = Some n <-> exists x, stored db h n x;
  tree_td k : is_Some (db_tds db !! k) <-> is_Some (db_headers db !! k);
  tree_parent h n x : stored db h n x -> 0 < n ->
    exists p d td, stored db (ParentHash x) (n - 1) p /\ Difficulty x = Some d /\
      db_tds db !! (ParentHash x, n - 1) = Some td /\ db_tds db !! (h, n) = Some (d + td) }.

Record caches_ok (hc : HeaderChain) : Prop := {
  cache_header h x : headerCache hc !! h = Some x -> exists n, stored (chainDb hc) h n x;
  cache_td h t : tdCache hc !! h = Some t -> exists n, db_tds (chainDb hc) !! (h, n) = Some t;
  cache_number h n : numberCache hc !! h = Some n -> db_numbers (chainDb hc) !! h = Some n }.

(** The current header [cur] at number [m], with total difficulty [T]. *)
Record head_ok (Hash : Header -> Z) (hc : HeaderChain) (cur : Header) (m T : Z) : Prop := {
  head_current : currentHeader hc = Some cur /\ currentHeaderHash hc = Hash cur /\ db_headHeader (chainDb hc) = Hash cur;
  head_stored : stored (chainDb hc) (Hash cur) m cur;
  head_linked : linked Hash (chainDb hc) (db_canonical (chainDb hc)) m (Hash cur);
  head_above n : m < n -> db_canonical (chainDb hc) !! n = None;
  head_td : db_tds (chainDb hc) !! (Hash cur, m) = Some T;
  head_heaviest k t : db_tds (chainDb hc) !! k = Some t -> t <= T }.

Definition chain_ok (Hash : Header -> Z) (hc : HeaderChain) : Prop :=
  tree_ok Hash (genesisHeader hc) (chainDb hc) /\ caches_ok hc /\ exists cur m T, head_ok Hash hc cur m T.

(** What the consensus rules demand of a header before it is written. *)
Definition child_ok (hc : HeaderChain) (header : Header) : Prop :=
  exists n d, Number header = Some n /\ Difficulty header = Some d /\ 0 <= n /\ n + 1 < 2 ^ 64 /\
    forall m p, stored (chainDb hc) (ParentHash header) m p -> n = m + 1.

(** Only the caches differ. *)
Definition same_but_caches (hc hc' : HeaderChain) : Prop :=
  chainDb hc' = chainDb hc /\ genesisHeader hc' = genesisHeader hc /\ currentHeader hc' = currentHeader hc /\ currentHeaderHash hc' = currentHeaderHash hc.

(** * Canonical numbers *)
Lemma linked_below Hash db c m h j : linked Hash db c m h -> 0 <= j <= m -> exists h', linked Hash db c j h' /\ exists x, h' = Hash x /\ stored db h' j x.
Proof.
  intros [Hm Hl] Hj. destruct (Hl j Hj) as (x & Hx & Hc & _). exists (Hash x). split; [|by exists x].
  split; [done|]. intros n Hn. apply Hl. lia.
Qed.

Lemma linked_ext Hash db c c' m h : linked Hash db c m h -> 0 <= m -> (forall n, n <= m -> c' !! n = c !! n) -> linked Hash db c' m h.
Proof.
  intros [Hm Hl] H0 He. split; [by rewrite He by lia|]. intros n Hn. destruct (Hl n Hn) as (x & Hx & Hc & Hp).
  exists x. rewrite !He by lia. done.
Qed.

Lemma linked_db Hash db db' c m h : linked Hash db c m h -> db_headers db ⊆ db_headers db' -> linked Hash db' c m h.
Proof.
  intros [Hm Hl] Hs. split; [done|]. intros n Hn. destruct (Hl n Hn) as (x & Hx & Hc & Hp).
  exists x. split; [|done]. exact (lookup_weaken _ _ _ _ Hx Hs).
Qed.

Lemma linked_step Hash db c m x : linked Hash db c (m - 1) (ParentHash x) -> stored db (Hash x) m x -> c !! m = Some (Hash x) -> linked Hash db c m (Hash x).
Proof.
  intros [Hp Hl] Hx Hm. split; [done|]. intros n Hn. destruct (decide (n = m)) as [->|]; [by exists x|].
  apply Hl. lia.
Qed.

Lemma delete_above_ok fuel c i m :
  (size c <= fuel)%nat -> 0 <= i -> m + 1 < 2 ^ 64 -> (forall n, m < n -> c !! n = None) ->
  (forall n, i <= n <= m -> exists h, c !! n = Some h /\ h <> 0) ->
  exists c', delete_above fuel i c = Some c' /\ forall n, c' !! n = if i <=? n then None else c !! n.
Proof.
  intros Hs Hi Hm Hn Hc. induction fuel as [|fuel IH] in c, i, Hs, Hi, Hn, Hc |- *; cbn [delete_above].
  - assert (c = ∅) as -> by (apply map_size_empty_inv; lia).
    rewrite lookup_empty. exists ∅. split; [done|]. intros n. by case_if.
  - destruct (decide (m < i)) as [Hlt|Hge].
    { rewrite Hn by lia. exists c. split; [done|]. intros n. destruct (i <=? n) eqn:Hin; [|done]. apply Hn. lia. }
    destruct (Hc i) as (h & Hh & Hz); [lia|]. rewrite Hh.
    replace (default 0 (Some h) =? 0) with false by (cbn; lia).
    assert (u64 (i + 1) = i + 1) as -> by (apply Z.mod_small; lia).
    destruct (IH (delete i c) (i + 1)) as (c' & -> & Hc').
    + rewrite map_size_delete_Some by eauto. lia.
    + lia.
    + intros n Hlt. rewrite lookup_delete_ne by lia. by apply Hn.
    + intros n Hb. rewrite lookup_delete_ne by lia. apply Hc. lia.
    + exists c'. split; [done|]. intros n. rewrite Hc'. destruct (decide (n = i)) as [->|Hni].
      * rewrite lookup_delete_eq. repeat case_if; done || lia.
      * rewrite lookup_delete_ne by done. repeat case_if; done || lia.
Qed.

Section Chain.
Context (Hash : Header -> Z) (evict : forall A, gmap Z A -> gmap Z A).
(** Hashes do not collide, no header has the zero hash, and a cache only loses
    entries. *)
Hypothesis Hash_inj : forall x y, Hash x = Hash y -> x = y.
Hypothesis Hash_nonzero : forall x, Hash x <> 0.
Hypothesis evict_subseteq : forall A (c : gmap Z A), evict A c ⊆ c.

(** * Caches *)
Lemma lru_Add_lookup {A} k (v : A) c j w : lru_Add evict k v c !! j = Some w -> (j = k /\ w = v) \/ c !! j = Some w.
Proof.
  intros H. pose proof (lookup_weaken _ _ _ _ H (evict_subseteq _ _)) as H'.
  rewrite lookup_insert in H'. case_decide; simplify_eq; auto.
Qed.

Lemma stored_unique g db h n m x y : tree_ok Hash g db -> stored db h n x -> stored db h m y -> n = m /\ x = y.
Proof.
  intros Ht Hx Hy. destruct (tree_key _ _ _ Ht _ _ _ Hx) as (E & N & _), (tree_key _ _ _ Ht _ _ _ Hy) as (E' & N' & _).
  assert (x = y) as -> by (apply Hash_inj; congruence). split; congruence.
Qed.

Lemma GetHeader_ok g h n hc : tree_ok Hash g (chainDb hc) -> caches_ok hc ->
  exists r hc', GetHeader evict h n hc = (r, hc') /\ same_but_caches hc hc' /\ caches_ok hc' /\
    (forall x, stored (chainDb hc) h n x -> r = Some x) /\ (forall x, r = Some x -> exists m, stored (chainDb hc) h m x).
Proof.
  intros Ht Hc. unfold GetHeader, ReadHeader. destruct (headerCache hc !! h) as [y|] eqn:Hh.
  - exists (Some y), hc. destruct (cache_header _ Hc _ _ Hh) as [m Hm]. repeat (split; [done|]). split.
    + intros x Hx. by destruct (stored_unique _ _ _ _ _ _ _ Ht Hm Hx) as [_ ->].
    + intros x [= ->]. eauto.
  - destruct (db_headers (chainDb hc) !! (h, n)) as [y|] eqn:Hy.
    + eexists _, _. split; [done|]. split; [done|]. split; [|split].
      * destruct Hc as [H1 H2 H3]. split; cbn; [|done..].
        intros j x [[-> ->]|Hj]%lru_Add_lookup; [by exists n|eauto].
      * unfold stored. congruence.
      * intros x [= ->]. by exists n.
    + exists None, hc. repeat (split; [done|]). split; [unfold stored; congruence|done].
Qed.

Lemma td_unique g db h n m t u : tree_ok Hash g db -> db_tds db !! (h, n) = Some t -> db_tds db !! (h, m) = Some u -> n = m /\ t = u.
Proof.
  intros Ht Hn Hm. destruct (proj1 (tree_td _ _ _ Ht (h, n)) (mk_is_Some _ _ Hn)) as [x Hx].
  destruct (proj1 (tree_td _ _ _ Ht (h, m)) (mk_is_Some _ _ Hm)) as [y Hy].
  destruct (stored_unique _ _ _ _ _ _ _ Ht Hx Hy) as [-> _]. split; congruence.
Qed.

Lemma GetTd_ok g h n hc : tree_ok Hash g (chainDb hc) -> caches_ok hc ->
  exists r hc', GetTd evict h n hc = (r, hc') /\ same_but_caches hc hc' /\ caches_ok hc' /\
    (forall t, db_tds (chainDb hc) !! (h, n) = Some t -> r = Some t) /\ (forall t, r = Some t -> exists m, db_tds (chainDb hc) !! (h, m) = Some t).
Proof.
  intros Ht Hc. unfold GetTd, ReadTd. destruct (tdCache hc !! h) as [u|] eqn:Hh.
  - exists (Some u), hc. destruct (cache_td _ Hc _ _ Hh) as [m Hm]. repeat (split; [done|]). split.
    + intros t Hx. by destruct (td_unique _ _ _ _ _ _ _ Ht Hm Hx) as [_ ->].
    + intros t [= ->]. eauto.
  - destruct (db_tds (chainDb hc) !! (h, n)) as [u|] eqn:Hu.
    + eexists _, _. split; [done|]. split; [done|]. split; [|split].
      * destruct Hc as [H1 H2 H3]. split; cbn; [done| |done].
        intros j t [[-> ->]|Hj]%lru_Add_lookup; [by exists n|eauto].
      * congruence.
      * intros t [= ->]. by exists n.
    + by exists None, hc.
Qed.

(** * Making a header canonical *)
Definition canonical_set (c : gmap Z Z) (hc hc' : HeaderChain) : Prop :=
  chainDb hc' = set_canonical c (chainDb hc) /\ genesisHeader hc' = genesisHeader hc /\ currentHeader hc' = currentHeader hc /\ currentHeaderHash hc' = currentHeaderHash hc.

Lemma tree_ok_same g db db' : db_headers db' = db_headers db -> db_tds db' = db_tds db -> db_numbers db' = db_numbers db -> tree_ok Hash g db -> tree_ok Hash g db'.
Proof. destruct db, db'; cbn. intros -> -> -> [H1 H2 H3 H4 H5 H6]. by split. Qed.

Lemma caches_ok_same hc hc' :
  db_headers (chainDb hc') = db_headers (chainDb hc) -> db_tds (chainDb hc') = db_tds (chainDb hc) -> db_numbers (chainDb hc') = db_numbers (chainDb hc) ->
  headerCache hc' = headerCache hc -> tdCache hc' = tdCache hc -> numberCache hc' = numberCache hc -> caches_ok hc -> caches_ok hc'.
Proof. destruct hc as [[] ], hc' as [[] ]; cbn. intros -> -> -> -> -> -> [H1 H2 H3]. by split. Qed.

Lemma u64_pred m : 0 < m -> m + 1 < 2 ^ 64 -> u64 (m - 1) = m - 1.
Proof. intros. apply Z.mod_small. lia. Qed.

Lemma number_u64_formed h n : Number h = Some n -> 0 <= n -> n + 1 < 2 ^ 64 -> number_u64 h = Some n.
Proof.
  intros Hn H0 H1. unfold number_u64. rewrite Hn. cbn. f_equal. unfold Uint64. rewrite Z.abs_eq by done. apply Z.mod_small. lia.
Qed.

Lemma number_u64_stored g db h n x : tree_ok Hash g db -> stored db h n x -> number_u64 x = Some n.
Proof.
  intros Ht Hx. destruct (tree_key _ _ _ Ht _ _ _ Hx) as (_ & Hn & H0 & H1).
  by apply number_u64_formed.
Qed.

Lemma ReadCanonicalHash_eq db m x : (ReadCanonicalHash db m =? Hash x) = true -> db_canonical db !! m = Some (Hash x).
Proof.
  unfold ReadCanonicalHash. intros H%Z.eqb_eq. destruct (db_canonical db !! m) as [h|]; [by rewrite <- H|].
  by destruct (Hash_nonzero x).
Qed.

Lemma overwrite_ok g fuel m h x hc :
  tree_ok Hash g (chainDb hc) -> caches_ok hc -> stored (chainDb hc) h m x -> m <= Z.of_nat fuel ->
  db_canonical (chainDb hc) !! 0 = Some (Hash g) ->
  (forall j h', 0 <= j <= m -> db_canonical (chainDb hc) !! j = Some h' -> linked Hash (chainDb hc) (db_canonical (chainDb hc)) j h') ->
  exists hc' c', overwrite evict fuel h m (Some x) hc = Some hc' /\ canonical_set c' hc hc' /\ caches_ok hc' /\
    linked Hash (chainDb hc) c' m h /\ forall n, m < n -> c' !! n = db_canonical (chainDb hc) !! n.
Proof.
  induction fuel as [|fuel IH] in m, h, x, hc |- *; intros Ht Hc Hx Hf H0 Hl; cbn [overwrite].
  all: destruct (tree_key _ _ _ Ht _ _ _ Hx) as (<- & Hn & Hn0 & Hn1).
  all: destruct (ReadCanonicalHash (chainDb hc) m =? Hash x) eqn:Hr.
  1, 3: exists hc, (db_canonical (chainDb hc)); repeat (split; [done || by destruct hc as [[] ]|]); split; [|done];
    apply Hl; [lia|]; by apply ReadCanonicalHash_eq.
  all: assert (0 < m) as Hpos by (destruct (decide (m = 0)) as [->|]; [|lia]; unfold ReadCanonicalHash in Hr; rewrite H0, (tree_root _ _ _ Ht _ _ Hx) in Hr; cbn in Hr; lia).
  1: lia.
  cbn [mbind option_bind]. rewrite (number_u64_stored _ _ _ _ _ Ht Hx). cbn [mbind option_bind]. rewrite u64_pred by done.
  destruct (tree_parent _ _ _ Ht _ _ _ Hx Hpos) as (p & d & td & Hp & _).
  set (hc1 := set_chainDb _ hc). set (c1 := <[m := Hash x]> (db_canonical (chainDb hc))).
  assert (tree_ok Hash g (chainDb hc1)) as Ht1 by by apply (tree_ok_same g (chainDb hc)).
  destruct (GetHeader_ok g (ParentHash x) (m - 1) hc1 Ht1) as (r & hc2 & -> & (Hdb & Hg & Hcur & Hch) & Hc2 & Hr2 & _); [by apply (caches_ok_same hc)|].
  rewrite (Hr2 p Hp). clear Hr2.
  assert (forall n, n <= m - 1 -> c1 !! n = db_canonical (chainDb hc) !! n) as Hsame by (intros n Hle; apply lookup_insert_ne; lia).
  destruct (IH (m - 1) (ParentHash x) p hc2) as (hc3 & c3 & -> & (Hdb3 & Hg3 & Hcur3 & Hch3) & Hc3 & Hl3 & Hab); rewrite ?Hdb; [done..|lia| | |].
  - cbn. by rewrite lookup_insert_ne by lia.
  - intros j h' Hj Hcj. cbn in Hcj. rewrite lookup_insert_ne in Hcj by lia.
    eapply linked_ext; [apply Hl; [lia|exact Hcj]|lia|]. intros n Hle. apply Hsame. lia.
  - rewrite Hdb in Hdb3, Hl3, Hab. exists hc3, c3. split; [done|]. split; [by repeat split; etrans|]. split; [done|].
    split; [|intros n Hlt; rewrite Hab by lia; by apply lookup_insert_ne; lia].
    apply linked_step; [exact Hl3|done|]. rewrite Hab by lia. apply lookup_insert_eq.
Qed.

Lemma linked_genesis g db c m h : tree_ok Hash g db -> linked Hash db c m h -> 0 <= m -> c !! 0 = Some (Hash g).
Proof.
  intros Ht [_ Hl] Hm. destruct (Hl 0) as (x & Hx & Hc & _); [lia|]. by rewrite (tree_root _ _ _ Ht _ _ Hx) in Hc.
Qed.

Lemma make_canonical_ok g header n m h hc :
  tree_ok Hash g (chainDb hc) -> caches_ok hc -> stored (chainDb hc) (Hash header) n header -> 0 < n ->
  0 <= m -> m + 1 < 2 ^ 64 -> linked Hash (chainDb hc) (db_canonical (chainDb hc)) m h -> (forall k, m < k -> db_canonical (chainDb hc) !! k = None) ->
  exists hc' c', make_canonical evict header (Hash header) n hc = Some hc' /\
    chainDb hc' = WriteHeadHeaderHash (Hash header) (set_canonical c' (chainDb hc)) /\ genesisHeader hc' = genesisHeader hc /\
    currentHeader hc' = Some header /\ currentHeaderHash hc' = Hash header /\ caches_ok hc' /\
    linked Hash (chainDb hc) c' n (Hash header) /\ forall k, n < k -> c' !! k = None.
Proof.
  intros Ht Hc Hx Hn Hm0 Hm1 Hl Hab. destruct (tree_key _ _ _ Ht _ _ _ Hx) as (_ & _ & _ & Hn1).
  destruct (tree_parent _ _ _ Ht _ _ _ Hx Hn) as (p & d & td & Hp & _).
  unfold make_canonical. rewrite u64_pred by done.
  assert (u64 (n + 1) = n + 1) as -> by (apply Z.mod_small; lia).
  destruct (delete_above_ok (size (db_canonical (chainDb hc))) (db_canonical (chainDb hc)) (n + 1) m) as (c1 & -> & Hc1); [lia..|done| |].
  { intros k Hk. destruct Hl as [_ Hl]. destruct (Hl k) as (x & _ & Hck & _); [lia|]. eauto. }
  cbn [mbind option_bind]. set (hc1 := set_chainDb (set_canonical c1 (chainDb hc)) hc).
  assert (tree_ok Hash g (chainDb hc1)) as Ht1 by by apply (tree_ok_same g (chainDb hc)).
  assert (forall k, k <= n -> c1 !! k = db_canonical (chainDb hc) !! k) as Hc1' by (intros k Hk; rewrite Hc1; by case_if; [lia|]).
  destruct (GetHeader_ok g (ParentHash header) (n - 1) hc1 Ht1) as (r & hc2 & -> & (Hdb & Hg & Hcur & Hch) & Hc2 & Hr & _); [by apply (caches_ok_same hc)|].
  rewrite (Hr p Hp).
  destruct (overwrite_ok g (Z.to_nat n) (n - 1) (ParentHash header) p hc2) as (hc3 & c3 & -> & (Hdb3 & Hg3 & Hcur3 & Hch3) & Hc3 & Hl3 & Hab3); rewrite ?Hdb; [done..|lia| | |].
  - cbn. rewrite Hc1' by lia. by eapply linked_genesis.
  - intros j h' Hj Hcj. cbn in Hcj. rewrite Hc1' in Hcj by lia.
    destruct (decide (j <= m)) as [Hjm|]; [|rewrite Hab in Hcj by lia; done].
    destruct (linked_below _ _ _ _ _ j Hl) as (h'' & Hl' & _); [lia|].
    assert (h'' = h') as -> by (destruct Hl'; congruence).
    eapply linked_ext; [exact Hl'|lia|]. intros k Hk. apply Hc1'. lia.
  - rewrite Hdb in Hdb3, Hl3, Hab3. cbn in Hab3. eexists _, (<[n := Hash header]> c3). cbn [mbind option_bind]. split; [done|].
    cbn. rewrite Hdb3. split; [done|]. split; [by etrans|]. split; [done|]. split; [done|]. split; [|split].
    + apply (caches_ok_same hc3); cbn; rewrite ?Hdb3; done.
    + apply linked_step; [|done|apply lookup_insert_eq]. eapply linked_ext; [exact Hl3|lia|]. intros k Hk. apply lookup_insert_ne. lia.
    + intros k Hk. rewrite lookup_insert_ne, Hab3, Hc1 by lia. case_if; [done|lia].
Qed.

(** * Writing a header *)
Definition write_db (header : Header) (n t : Z) (db : ChainDB) : ChainDB := db_WriteHeader Hash header n (db_WriteTd (Hash header) n t db).

Lemma subseteq_insert {A} (m : gmap (Z * Z) A) i x : (forall y, m !! i = Some y -> y = x) -> m ⊆ <[i := x]> m.
Proof.
  intros H. destruct (m !! i) as [y|] eqn:Hi; [|by apply insert_subseteq]. rewrite (H y) in Hi by done. by rewrite insert_id.
Qed.

Lemma write_db_subseteq g db header n d p td :
  tree_ok Hash g db -> Difficulty header = Some d -> 0 < n -> stored db (ParentHash header) (n - 1) p -> db_tds db !! (ParentHash header, n - 1) = Some td ->
  db_headers db ⊆ db_headers (write_db header n (d + td) db) /\ db_tds db ⊆ db_tds (write_db header n (d + td) db).
Proof.
  intros Ht Hd Hn Hp Htd.
  assert (forall y, stored db (Hash header) n y -> y = header) as Hy by (intros y Hy; apply Hash_inj; apply (tree_key _ _ _ Ht _ _ _ Hy)).
  split; apply subseteq_insert; [exact Hy|]. intros t Hk.
  destruct (proj1 (tree_td _ _ _ Ht _) (mk_is_Some _ _ Hk)) as [y Hs]. rewrite (Hy y Hs) in Hs.
  destruct (tree_parent _ _ _ Ht _ _ _ Hs Hn) as (p' & d' & td' & _ & Hd' & Ht' & Hk'). congruence.
Qed.

Lemma write_db_ok g db header n d p td :
  tree_ok Hash g db -> Number header = Some n -> n + 1 < 2 ^ 64 -> Difficulty header = Some d -> 0 < n ->
  stored db (ParentHash header) (n - 1) p -> db_tds db !! (ParentHash header, n - 1) = Some td -> tree_ok Hash g (write_db header n (d + td) db).
Proof.
  intros Ht Hnum Hn1 Hd Hn Hp Htd. destruct (write_db_subseteq _ _ _ _ _ _ _ Ht Hd Hn Hp Htd) as [Hsh Hst].
  set (db' := write_db _ _ _ _) in *.
  assert (forall h k x, stored db' h k x -> (h = Hash header /\ k = n /\ x = header) \/ stored db h k x) as Hcase.
  { intros h k x Hs. unfold stored in Hs. cbn in Hs. rewrite lookup_insert in Hs. case_decide; simplify_eq; auto. }
  assert (forall h k x, stored db h k x -> stored db' h k x) as Hup by (intros h k x Hs; exact (lookup_weaken _ _ _ _ Hs Hsh)).
  assert (stored db' (Hash header) n header) as Hnew by apply lookup_insert_eq.
  assert (db_tds db' !! (Hash header, n) = Some (d + td)) as Hnewtd by apply lookup_insert_eq.
  split.
  - intros h k x [(-> & -> & ->)|Hs]%Hcase; [repeat split; done || lia|by apply (tree_key _ _ _ Ht)].
  - apply Hup, Ht.
  - intros h x [(_ & E & _)|Hs]%Hcase; [lia|by apply (tree_root _ _ _ Ht _ _ Hs)].
  - intros h k. cbn. rewrite lookup_insert. case_decide as E; [subst h|rewrite (tree_number _ _ _ Ht)].
    + split; [intros [= <-]; by exists header|]. intros [x [(_ & -> & _)|Hs]%Hcase]; [done|].
      destruct (tree_key _ _ _ Ht _ _ _ Hs) as (Hh & Hk & _). apply Hash_inj in Hh as ->. congruence.
    + split; intros [x Hs]; [by exists x; apply Hup|]. apply Hcase in Hs as [(? & _)|Hs]; [congruence|eauto].
  - intros k. cbn. rewrite !lookup_insert. case_decide; [by split; eauto|apply (tree_td _ _ _ Ht)].
  - intros h k x [(-> & -> & ->)|Hs]%Hcase Hk.
    + exists p, d, td. split; [by apply Hup|]. split; [done|]. split; [exact (lookup_weaken _ _ _ _ Htd Hst)|done].
    + destruct (tree_parent _ _ _ Ht _ _ _ Hs Hk) as (q & e & t & Hq & He & H1 & H2). exists q, e, t.
      split; [by apply Hup|]. split; [done|]. split; eapply lookup_weaken; eassumption.
Qed.

(** The caches after the two writes to the database. *)
Lemma caches_written hc db' k t : db_headers (chainDb hc) ⊆ db_headers db' -> db_tds (chainDb hc) ⊆ db_tds db' ->
  (forall h n, db_numbers (chainDb hc) !! h = Some n -> db_numbers db' !! h = Some n) -> (exists n, db_tds db' !! (k, n) = Some t) ->
  caches_ok hc -> caches_ok (set_tdCache (lru_Add evict k t (tdCache hc)) (set_chainDb db' hc)).
Proof.
  intros Hh Ht Hn Hk [H1 H2 H3]. split; cbn.
  - intros h x [n Hx]%H1. exists n. exact (lookup_weaken _ _ _ _ Hx Hh).
  - intros h u [[-> ->]|[n Hu]%H2]%lru_Add_lookup; [done|]. exists n. exact (lookup_weaken _ _ _ _ Hu Ht).
  - intros h n Hx. by apply Hn, H3.
Qed.

Lemma caches_added hc header n : caches_ok hc -> stored (chainDb hc) (Hash header) n header -> db_numbers (chainDb hc) !! Hash header = Some n ->
  caches_ok (set_numberCache (lru_Add evict (Hash header) n (numberCache hc)) (set_headerCache (lru_Add evict (Hash header) header (headerCache hc)) hc)).
Proof.
  intros [H1 H2 H3] Hs Hn. split; cbn; [|done|].
  - intros h x [[-> ->]|Hx]%lru_Add_lookup; eauto.
  - intros h x [[-> ->]|Hx]%lru_Add_lookup; eauto.
Qed.

(** The parent of a valid header: found by its difficulty, or not stored. *)
Lemma parent_td g hc header n : tree_ok Hash g (chainDb hc) -> caches_ok hc -> Number header = Some n -> 0 <= n -> n + 1 < 2 ^ 64 ->
  (forall m p, stored (chainDb hc) (ParentHash header) m p -> n = m + 1) ->
  exists r hc', GetTd evict (ParentHash header) (u64 (n - 1)) hc = (r, hc') /\ same_but_caches hc hc' /\ caches_ok hc' /\
    match r with
    | None => forall m p, ~ stored (chainDb hc) (ParentHash header) m p
    | Some td => 0 < n /\ db_tds (chainDb hc) !! (ParentHash header, n - 1) = Some td /\ exists p, stored (chainDb hc) (ParentHash header) (n - 1) p
    end.
Proof.
  intros Ht Hc Hn H0 H1 Hp. destruct (GetTd_ok _ (ParentHash header) (u64 (n - 1)) hc Ht Hc) as (r & hc' & Heq & Hsame & Hc' & Hr1 & Hr2).
  exists r, hc'. repeat (split; [done|]). destruct r as [td|].
  - destruct (Hr2 td eq_refl) as [m Hm]. destruct (proj1 (tree_td _ _ _ Ht _) (mk_is_Some _ _ Hm)) as [p Hs].
    destruct (tree_key _ _ _ Ht _ _ _ Hs) as (_ & _ & Hm0 & _). pose proof (Hp m p Hs) as ->.
    replace (m + 1 - 1) with m by lia. split; [lia|]. eauto.
  - intros m p Hs. pose proof (Hp m p Hs) as ->. destruct (tree_key _ _ _ Ht _ _ _ Hs) as (_ & _ & Hm0 & _).
    destruct (proj2 (tree_td _ _ _ Ht _) (mk_is_Some _ _ Hs)) as [td Htd]. replace (u64 (m + 1 - 1)) with m in Hr1.
    + by specialize (Hr1 td Htd).
    + unfold u64. rewrite Z.mod_small; lia.
Qed.

(** The choice between the current head and the header just stored. *)
Definition choose (coin : bool) (header : Header) (n externTd localTd : Z) (hc : HeaderChain) : option (WriteStatus * HeaderChain) :=
  if (localTd <? externTd) || ((externTd =? localTd) && coin)
  then hc ← make_canonical evict header (Hash header) n hc; Some (CanonStatTy, hc)
  else Some (SideStatTy, hc).

Lemma choose_ok coin header n t cur m T hc :
  tree_ok Hash (genesisHeader hc) (chainDb hc) -> caches_ok hc -> stored (chainDb hc) (Hash header) n header -> 0 < n ->
  db_tds (chainDb hc) !! (Hash header, n) = Some t -> (forall k u, db_tds (chainDb hc) !! k = Some u -> u <= T \/ u = t) ->
  currentHeader hc = Some cur /\ currentHeaderHash hc = Hash cur /\ db_headHeader (chainDb hc) = Hash cur ->
  stored (chainDb hc) (Hash cur) m cur -> linked Hash (chainDb hc) (db_canonical (chainDb hc)) m (Hash cur) ->
  (forall k, m < k -> db_canonical (chainDb hc) !! k = None) -> db_tds (chainDb hc) !! (Hash cur, m) = Some T ->
  exists status hc', choose coin header n t T hc = Some (status, hc') /\ chain_ok Hash hc' /\ genesisHeader hc' = genesisHeader hc /\
    db_headers (chainDb hc') = db_headers (chainDb hc) /\ db_tds (chainDb hc') = db_tds (chainDb hc) /\ db_numbers (chainDb hc') = db_numbers (chainDb hc) /\
    (status = CanonStatTy /\ T <= t /\ currentHeader hc' = Some header \/ status = SideStatTy /\ t <= T /\ currentHeader hc' = Some cur).
Proof.
  intros Ht Hc Hs Hn Htd Hmax Hcur Hsc Hl Hab HT. destruct (tree_key _ _ _ Ht _ _ _ Hsc) as (_ & _ & Hm0 & Hm1).
  unfold choose. destruct ((T <? t) || _) eqn:Hcond.
  - destruct (make_canonical_ok _ header n m (Hash cur) hc Ht Hc Hs Hn Hm0 Hm1 Hl Hab) as (hc' & c' & -> & Hdb & Hg & Hcur' & Hch & Hc' & Hl' & Hab').
    exists CanonStatTy, hc'. cbn [mbind option_bind]. rewrite Hdb, Hg. split; [done|]. split.
    + split; [rewrite Hg, Hdb; by apply (tree_ok_same _ (chainDb hc))|]. split; [done|].
      exists header, n, t. split; rewrite ?Hdb; try done. intros k u Hu. destruct (Hmax k u Hu); lia.
    + repeat (split; [done|]). left. split; [done|]. split; [lia|done].
  - exists SideStatTy, hc. split; [done|]. split.
    + split; [done|]. split; [done|]. exists cur, m, T. split; try done. intros k u Hu. destruct (Hmax k u Hu); lia.
    + repeat (split; [done|]). right. split; [done|]. split; [lia|]. by apply Hcur.
Qed.

(** What writing a header does. *)
Definition written (hc : HeaderChain) (header : Header) (status : WriteStatus) (err : option ChainError) (hc' : HeaderChain) : Prop :=
  genesisHeader hc' = genesisHeader hc /\
  match err with
  | Some e => e = ErrUnknownAncestor /\ status = NonStatTy /\ chainDb hc' = chainDb hc /\ currentHeader hc' = currentHeader hc /\
      forall m p, ~ stored (chainDb hc) (ParentHash header) m p
  | None => exists n, Number header = Some n /\ db_headers (chainDb hc') = <[(Hash header, n) := header]> (db_headers (chainDb hc)) /\
      (exists p, stored (chainDb hc) (ParentHash header) (n - 1) p) /\
      (status = CanonStatTy /\ currentHeader hc' = Some header \/ status = SideStatTy /\ currentHeader hc' = currentHeader hc)
  end.

Lemma WriteHeader_ok coin header hc : chain_ok Hash hc -> child_ok hc header ->
  exists status err hc', WriteHeader Hash evict coin header hc = Some (status, err, hc') /\ chain_ok Hash hc' /\ written hc header status err hc'.
Proof.
  intros Hok (n & d & Hnum & Hd & H0 & H1 & Hpar). unfold WriteHeader.
  rewrite (number_u64_formed header n) by done. cbn [mbind option_bind]. destruct (parent_td _ hc header n (proj1 Hok) (proj1 (proj2 Hok)) Hnum H0 H1 Hpar) as (r & hc1 & -> & (Hdb & Hg & Hcur & Hch) & Hc1 & Hr).
  destruct Hok as (Ht & Hc & cur & m & T & [Hhead Hst Hl Hab HT Hmax]). destruct r as [ptd|].
  2: { exists NonStatTy, (Some ErrUnknownAncestor), hc1. split; [done|]. split; [|by repeat split].
    split; [by rewrite Hg, Hdb|]. split; [done|]. exists cur, m, T. split; rewrite ?Hdb, ?Hcur, ?Hch; done. }
  destruct Hr as (Hn & Hptd & p & Hp). rewrite Hcur, (proj1 Hhead). cbn [mbind option_bind].
  rewrite (number_u64_stored _ _ _ _ _ Ht Hst). cbn [mbind option_bind]. rewrite Hch, (proj1 (proj2 Hhead)).
  destruct (GetTd_ok (genesisHeader hc) (Hash cur) m hc1) as (r & hc2 & -> & (Hdb2 & Hg2 & Hcur2 & Hch2) & Hc2 & Hr & _); [by rewrite Hdb|done|].
  rewrite (Hr T) by by rewrite Hdb. rewrite Hd. cbn [mbind option_bind].
  set (hc3 := set_chainDb _ _).
  assert (chainDb hc3 = write_db header n (d + ptd) (chainDb hc)) as Hdb3 by (cbn; by rewrite Hdb2, Hdb).
  pose proof (write_db_ok _ _ _ _ _ _ _ Ht Hnum H1 Hd Hn Hp Hptd) as Ht3. destruct (write_db_subseteq _ _ _ _ _ _ _ Ht Hd Hn Hp Hptd) as [Hsh Hstd].
  assert (stored (chainDb hc3) (Hash header) n header) as Hs3 by (rewrite Hdb3; apply lookup_insert_eq).
  assert (db_numbers (chainDb hc3) !! Hash header = Some n) as Hn3 by (rewrite Hdb3; apply lookup_insert_eq).
  destruct (choose_ok coin header n (d + ptd) cur m T hc3) as (status & hc4 & Heq & (Ht4 & Hc4 & Hh4) & Hg4 & Hdh & Hdt & Hdn & Hst4).
  - replace (genesisHeader hc3) with (genesisHeader hc) by (cbn; congruence). by rewrite Hdb3.
  - refine (caches_written hc2 _ _ _ _ _ _ _ Hc2); cbn; rewrite Hdb2, Hdb; [exact Hsh|exact Hstd| |exists n; apply lookup_insert_eq].
    intros h k Hk. apply (tree_number _ _ _ Ht) in Hk as [x Hx]. apply (tree_number _ _ _ Ht3). exists x. exact (lookup_weaken _ _ _ _ Hx Hsh).
  - done.
  - done.
  - rewrite Hdb3. apply lookup_insert_eq.
  - intros k u. rewrite Hdb3. cbn. rewrite lookup_insert. case_decide; [intros [= <-]; by right|]. intros Hu. left. by eapply Hmax.
  - rewrite Hdb3. cbn. rewrite Hcur2, Hch2, Hcur, Hch. exact Hhead.
  - rewrite Hdb3. exact (lookup_weaken _ _ _ _ Hst Hsh).
  - rewrite Hdb3. exact (linked_db _ _ _ _ _ _ Hl Hsh).
  - intros k Hk. rewrite Hdb3. by apply Hab.
  - rewrite Hdb3. exact (lookup_weaken _ _ _ _ HT Hstd).
  - unfold choose in Heq. rewrite Heq. cbn [mbind option_bind]. eexists _, _, _. split; [done|]. split.
    + split; [exact Ht4|]. split; [refine (caches_added hc4 header n Hc4 _ _); [unfold stored; by rewrite Hdh|by rewrite Hdn]|].
      destruct Hh4 as (c4 & m4 & T4 & [? ? ? ? ? ?]). exists c4, m4, T4. by split.
    + split; [cbn; rewrite Hg4; cbn; congruence|]. exists n. split; [done|]. split; [cbn; by rewrite Hdh, Hdb3|]. split; [by exists p|].
      rewrite (proj1 Hhead). destruct Hst4 as [(-> & _ & ?)|(-> & _ & ?)]; [by left|by right].
Qed.

(** * Batches *)
Definition header_formed (h : Header) : Prop :=
  exists n d t, Number h = Some n /\ Difficulty h = Some d /\ Time h = Some t /\ 0 <= n /\ n + 1 < 2 ^ 64.

Lemma HasHeader_stored h n hc : chain_ok Hash hc -> Number h = Some n -> HasHeader (Hash h) n hc = true -> stored (chainDb hc) (Hash h) n h.
Proof.
  intros (Ht & Hc & _) Hn H. assert (exists m x, stored (chainDb hc) (Hash h) m x) as (m & x & Hx).
  { unfold HasHeader, db_HasHeader in H. apply orb_true_iff in H as [H|H]; [apply orb_true_iff in H as [H|H]|]; apply bool_decide_eq_true in H as [x Hx].
    - apply (cache_number _ Hc), (tree_number _ _ _ Ht) in Hx as [y Hy]. eauto.
    - apply (cache_header _ Hc) in Hx as [m Hm]. eauto.
    - eauto. }
  destruct (tree_key _ _ _ Ht _ _ _ Hx) as (E & Hm & _). apply Hash_inj in E as ->. congruence.
Qed.

Lemma child_of_previous g h h' hc : tree_ok Hash g (chainDb hc) -> header_formed h -> header_formed h' -> contiguous Hash h [h'] = Some true ->
  child_ok hc h' /\ ParentHash h' = Hash h.
Proof.
  intros Ht (n & d & t & Hn & _ & _ & H0 & H1) (n' & d' & t' & Hn' & Hd' & _ & H0' & H1') Hcon. cbn in Hcon.
  rewrite (number_u64_formed h n), (number_u64_formed h' n') in Hcon by done. cbn in Hcon.
  assert (u64 (n + 1) = n + 1) as Hu by (apply Z.mod_small; lia). rewrite Hu in Hcon.
  destruct (negb (n' =? n + 1) || negb (ParentHash h' =? Hash h)) eqn:Hb; [done|]. simp_bool.
  assert (ParentHash h' = Hash h) as Hp by lia. split; [|done]. exists n', d'. repeat (split; [done|]). intros m p Hs.
  destruct (tree_key _ _ _ Ht _ _ _ Hs) as (E & Hm & _). rewrite Hp in E. apply Hash_inj in E as ->. assert (m = n) as -> by congruence. lia.
Qed.

Lemma contiguous_cons h h' chain : contiguous Hash h (h' :: chain) = Some true -> contiguous Hash h [h'] = Some true /\ contiguous Hash h' chain = Some true.
Proof.
  cbn. destruct (number_u64 h') as [n|]; [|done]. destruct (number_u64 h) as [m|]; [|done]. cbn. by case_if.
Qed.

Definition inserted (interrupted : Z -> bool) (hc : HeaderChain) (i : Z) (h : Header) (chain : list Header) (i' : Z) (err : option ChainError) (hc' : HeaderChain) : Prop :=
  chain_ok Hash hc' /\ genesisHeader hc' = genesisHeader hc /\ db_headers (chainDb hc) ⊆ db_headers (chainDb hc') /\
  match err with
  | None => i' = 0 /\ forall x n, x ∈ h :: chain -> Number x = Some n -> stored (chainDb hc') (Hash x) n x
  | Some e => e = ErrAborted /\ interrupted i' = true \/
      e = ErrUnknownAncestor /\ i' = i /\ forall m p, ~ stored (chainDb hc) (ParentHash h) m p
  end.

(** One header: the loop stops at it or goes on with it stored. *)
Lemma insert_one interrupted coin i h chain hc : chain_ok Hash hc -> header_formed h -> child_ok hc h ->
  (exists i' e hc', insert_headers Hash evict interrupted coin i (h :: chain) hc = Some (i', Some e, hc') /\ inserted interrupted hc i h chain i' (Some e) hc') \/
  (exists hc', insert_headers Hash evict interrupted coin i (h :: chain) hc = insert_headers Hash evict interrupted coin (i + 1) chain hc' /\
    chain_ok Hash hc' /\ genesisHeader hc' = genesisHeader hc /\ db_headers (chainDb hc) ⊆ db_headers (chainDb hc') /\
    forall n, Number h = Some n -> stored (chainDb hc') (Hash h) n h).
Proof.
  intros Hok (n & d & t & Hn & Hd & Ht & H0 & H1) Hch. cbn [insert_headers]. destruct (interrupted i) eqn:Hi.
  { left. exists i, ErrAborted, hc. repeat (split; [done|]). by left. }
  rewrite (number_u64_formed h n) by done. cbn [mbind option_bind]. destruct (HasHeader (Hash h) n hc) eqn:Hh.
  { right. exists hc. repeat (split; [done|]). intros k Hk. assert (k = n) as -> by congruence. by apply HasHeader_stored. }
  destruct (WriteHeader_ok (coin i) h hc Hok Hch) as (st & err & hc' & -> & Hok' & Hg & Hw). cbn [mbind option_bind]. destruct err as [e|].
  - left. destruct Hw as (-> & _ & Hdb & _ & Hno). exists i, ErrUnknownAncestor, hc'. split; [done|].
    split; [done|]. split; [done|]. split; [by rewrite Hdb|]. by right.
  - right. destruct Hw as (k & Hk & Hdb & _). assert (k = n) as -> by congruence. exists hc'. repeat (split; [done|]).
    assert (stored (chainDb hc') (Hash h) n h) as Hs by (unfold stored; rewrite Hdb; apply lookup_insert_eq).
    split; [|intros k' Hk'; congruence]. rewrite Hdb. apply subseteq_insert. intros y Hy.
    destruct Hok as (Htree & _). apply Hash_inj. by apply (tree_key _ _ _ Htree _ _ _ Hy).
Qed.

Lemma insert_headers_ok interrupted coin i h chain hc : chain_ok Hash hc -> Forall header_formed (h :: chain) -> child_ok hc h -> contiguous Hash h chain = Some true ->
  exists i' err hc', insert_headers Hash evict interrupted coin i (h :: chain) hc = Some (i', err, hc') /\ inserted interrupted hc i h chain i' err hc'.
Proof.
  induction chain as [|h' chain IH] in i, h, hc |- *; intros Hok Hfs Hch Hcon; pose proof (Forall_inv Hfs) as Hf; apply Forall_inv_tail in Hfs.
  all: match type of Hcon with contiguous _ _ ?l = _ => destruct (insert_one interrupted coin i h l hc Hok Hf Hch) as [(i' & e & hc' & -> & Hi)|(hc1 & -> & Hok1 & Hg1 & Hsub1 & Hs1)] end; [by eauto|].
  - exists 0, None, hc1. repeat (split; [done|]). intros x n ->%list_elem_of_singleton Hn. by apply Hs1.
  - apply contiguous_cons in Hcon as [Hc1 Hc2]. pose proof (Forall_inv Hfs) as Hf'.
    destruct (child_of_previous _ h h' hc1 (proj1 Hok1) Hf Hf' Hc1) as [Hch' Hp].
    destruct (IH (i + 1) h' hc1 Hok1 Hfs Hch' Hc2) as (i' & err & hc' & -> & Hok' & Hg & Hsub & He).
    exists i', err, hc'. split; [done|]. split; [done|]. split; [congruence|]. split; [by etrans|]. destruct err as [e|].
    + destruct He as [He|(-> & _ & Hno)]; [by left|]. destruct Hf as (n & _ & _ & Hn & _). rewrite Hp in Hno. by destruct (Hno n h (Hs1 n Hn)).
    + destruct He as [-> He]. split; [done|]. intros x n [->|Hx]%elem_of_cons Hn; [exact (lookup_weaken _ _ _ _ (Hs1 n Hn) Hsub)|by apply He].
Qed.

Lemma ValidateHeaderChain_contiguous VerifyHeaders BadHashes halted Intn h chain freq i :
  ValidateHeaderChain Hash VerifyHeaders BadHashes halted Intn (h :: chain) freq = Some (i, None) -> contiguous Hash h chain = Some true.
Proof. unfold ValidateHeaderChain. destruct (contiguous Hash h chain) as [[]|]; done. Qed.

(** C9: a batch of well-formed headers that [ValidateHeaderChain] accepted and whose
    first header is numbered after its parent is inserted without a panic, at any
    toss of the coin: the stored headers stay a tree with the total difficulties of
    their ancestries, the canonical numbers stay the ancestry of the current header
    and that header stays a heaviest one; when no error is reported every header of
    the batch is stored, and the only errors are an interrupt and a first header
    without a stored parent. *)
Theorem insert_validated_headers VerifyHeaders BadHashes halted Intn freq k interrupted coin h chain hc :
  chain_ok Hash hc -> Forall header_formed (h :: chain) -> child_ok hc h ->
  ValidateHeaderChain Hash VerifyHeaders BadHashes halted Intn (h :: chain) freq = Some (k, None) ->
  exists i err hc', InsertHeaderChain Hash evict interrupted coin (h :: chain) hc = Some (i, err, hc') /\
    chain_ok Hash hc' /\ genesisHeader hc' = genesisHeader hc /\ db_headers (chainDb hc) ⊆ db_headers (chainDb hc') /\
    match err with
    | None => i = 0 /\ forall x n, x ∈ h :: chain -> Number x = Some n -> stored (chainDb hc') (Hash x) n x
    | Some e => e = ErrAborted /\ interrupted i = true \/
        e = ErrUnknownAncestor /\ i = 0 /\ forall m p, ~ stored (chainDb hc) (ParentHash h) m p
    end.
Proof.
  intros Hok Hf Hch Hv%ValidateHeaderChain_contiguous.
  destruct (insert_headers_ok interrupted coin 0 h chain hc Hok Hf Hch Hv) as (i & err & hc' & Heq & Hi).
  exists i, err, hc'. split; [|exact Hi]. unfold InsertHeaderChain. rewrite Heq. cbn [mbind option_bind]. destruct err as [e|]; [done|].
  destruct (list.last (h :: chain)) as [x|] eqn:Hl; [|by apply last_None in Hl].
  apply last_Some_elem_of, list_elem_of_In in Hl. rewrite Forall_forall in Hf. destruct (Hf x Hl) as (n & d & t & _ & _ & Ht & _).
  cbn [mbind option_bind]. by rewrite Ht.
Qed.
End Chain.
