(* ===== verification/HeaderChainRewind.v ===== *)
(** Ancestors and rewinding in the header chain, with examples: the shortcut of
    [GetAncestor] through the canonical numbers, and what [SetHead] leaves. *)
From stdpp Require Import gmap.
From S2P Require Import Prelude GoMath BlockHeader HeaderChain HeaderChainCorrect.

(** The ancestor by the parent hashes alone. *)
Fixpoint nth_parent (db : ChainDB) (a : nat) (h n : Z) : option Z :=
  match a with
  | O => Some h
  | S a => x ← db_headers db !! (h, n); nth_parent db a (ParentHash x) (n - 1)
  end.

Section Ancestors.
Context (Hash : Header -> Z) (evict : forall A, gmap Z A -> gmap Z A).
Hypothesis Hash_inj : forall x y, Hash x = Hash y -> x = y.
Hypothesis Hash_nonzero : forall x, Hash x <> 0.
Hypothesis evict_subseteq : forall A (c : gmap Z A), evict A c ⊆ c.

Lemma chain_ok_same hc hc' : chain_ok Hash hc -> same_but_caches hc hc' -> caches_ok hc' -> chain_ok Hash hc'.
Proof.
  intros (Ht & _ & cur & m & T & Hh) (Hdb & Hg & Hcur & Hch) Hc. split; [by rewrite Hg, Hdb|]. split; [done|].
  exists cur, m, T. destruct Hh. split; rewrite ?Hdb, ?Hcur, ?Hch; done.
Qed.

Lemma linked_nth_parent db c a n h : linked Hash db c n h -> Z.of_nat a <= n -> nth_parent db a h n = c !! (n - Z.of_nat a).
Proof.
  induction a as [|a IH] in n, h |- *; intros Hl Ha; cbn [nth_parent].
  - replace (n - Z.of_nat 0) with n by lia. symmetry. apply Hl.
  - destruct Hl as [Hc Hl]. destruct (Hl n) as (x & Hx & Hcx & Hp); [lia|]. assert (h = Hash x) as -> by congruence.
    unfold stored in Hx. rewrite Hx. cbn [mbind option_bind]. rewrite IH by (lia || (split; [apply Hp; lia|intros j Hj; apply Hl; lia])).
    f_equal. lia.
Qed.

(** A stored header whose number is assigned to it is on the canonical chain. *)
Lemma canonical_linked hc h n x : chain_ok Hash hc -> stored (chainDb hc) h n x -> (ReadCanonicalHash (chainDb hc) n =? h) = true ->
  linked Hash (chainDb hc) (db_canonical (chainDb hc)) n h.
Proof.
  intros (Ht & _ & cur & m & T & [_ _ Hl Hab _ _]) Hx Hr. destruct (tree_key _ _ _ Ht _ _ _ Hx) as (<- & _ & H0 & _).
  apply (ReadCanonicalHash_eq Hash Hash_nonzero) in Hr. destruct (decide (n <= m)) as [Hle|]; [|rewrite Hab in Hr by lia; done].
  destruct (linked_below _ _ _ _ _ n Hl) as (h' & Hl' & _); [lia|]. assert (h' = Hash x) as -> by (destruct Hl'; congruence). done.
Qed.

Definition ancestor_found (hc : HeaderChain) (a : nat) (h n max : Z) (res : Z * Z * Z * HeaderChain) : Prop :=
  let '(r, k, max', hc') := res in
  chain_ok Hash hc' /\ same_but_caches hc hc' /\ 0 <= max' <= max /\
  (nth_parent (chainDb hc) a h n = Some r /\ k = n - Z.of_nat a \/ r = 0 /\ k = 0 /\ max' = 0 /\ max < Z.of_nat a).

Lemma ancestor_loop_ok a h n x max hc : chain_ok Hash hc -> stored (chainDb hc) h n x -> Z.of_nat a <= n -> 0 <= max ->
  ancestor_found hc a h n max (ancestor_loop evict a h n max hc).
Proof.
  induction a as [|a IH] in h, n, x, max, hc |- *; intros Hok Hx Ha Hmax; cbn [ancestor_loop].
  - repeat (split; [done || lia|]). left. split; [done|lia].
  - destruct (ReadCanonicalHash (chainDb hc) n =? h) eqn:Hr.
    { pose proof (canonical_linked _ _ _ _ Hok Hx Hr) as Hl. repeat (split; [done || lia|]). left. split; [|done].
      rewrite (linked_nth_parent _ _ _ _ _ Hl) by done. unfold ReadCanonicalHash.
      destruct Hl as [_ Hl]. destruct (Hl (n - Z.of_nat (S a))) as (y & _ & -> & _); [lia|done]. }
    destruct (max =? 0) eqn:Hz; [repeat (split; [done || lia|]); right; lia|].
    destruct Hok as (Ht & Hc & Hh) eqn:Hok'. destruct (GetHeader_ok Hash evict Hash_inj evict_subseteq _ h n hc Ht Hc) as (r & hc1 & -> & Hsame & Hc1 & Hr1 & _).
    rewrite (Hr1 x Hx). destruct (tree_parent _ _ _ Ht _ _ _ Hx) as (p & _ & _ & Hp & _); [lia|].
    pose proof (chain_ok_same _ _ Hok Hsame Hc1) as Hok1. destruct Hsame as (Hdb & Hg & Hcur & Hch).
    specialize (IH (ParentHash x) (n - 1) p (max - 1) hc1 Hok1). rewrite Hdb in IH. specialize (IH Hp ltac:(lia) ltac:(lia)).
    destruct (ancestor_loop _ _ _ _ _ _) as [[[r' k] max'] hc']. destruct IH as (Ho & (Hdb' & Hg' & Hcur' & Hch') & Hb & Hres).
    split; [done|]. split; [by repeat split; etrans|]. split; [lia|]. rewrite Hdb in Hres. cbn [nth_parent]. unfold stored in Hx. rewrite Hx.
    cbn [mbind option_bind]. destruct Hres as [[? ?]|?]; [left|right]; [split; [done|lia]|lia].
Qed.

(** C20: [GetAncestor] of a stored header is the ancestor that following the parent
    hashes finds, with its number, although it jumps through the canonical numbers
    as soon as it meets them; it gives up only when its budget of headers off the
    canonical chain is smaller than the distance, and then the budget is spent. *)
Theorem GetAncestor_equiv h n x a max hc : chain_ok Hash hc -> stored (chainDb hc) h n x -> 0 <= a <= n -> 0 <= max ->
  exists r k max' hc', GetAncestor evict h n a max hc = (r, k, max', hc') /\ chain_ok Hash hc' /\ chainDb hc' = chainDb hc /\ 0 <= max' <= max /\
    (nth_parent (chainDb hc) (Z.to_nat a) h n = Some r /\ k = n - a \/ r = 0 /\ k = 0 /\ max' = 0 /\ max < a).
Proof.
  intros Hok Hx Ha Hmax. unfold GetAncestor. assert ((n <? a) = false) as -> by lia. destruct (a =? 1) eqn:H1.
  - destruct (GetHeader_ok Hash evict Hash_inj evict_subseteq _ h n hc (proj1 Hok) (proj1 (proj2 Hok))) as (r & hc1 & -> & Hsame & Hc1 & Hr1 & _).
    rewrite (Hr1 x Hx). exists (ParentHash x), (n - 1), max, hc1. split; [done|]. split; [by eapply chain_ok_same|]. split; [apply Hsame|]. split; [lia|].
    left. replace (Z.to_nat a) with 1%nat by lia. cbn [nth_parent]. unfold stored in Hx. rewrite Hx. split; [done|lia].
  - pose proof (ancestor_loop_ok (Z.to_nat a) h n x max hc Hok Hx ltac:(lia) Hmax) as H.
    destruct (ancestor_loop _ _ _ _ _ _) as [[[r k] max'] hc']. destruct H as (Ho & (Hdb & _) & Hb & Hres). exists r, k, max', hc'.
    rewrite Z2Nat.id in Hres by lia. done.
Qed.

(** * Rewinding *)

(** The canonical entries above [head], up to [j]. *)
Definition removed (head j : Z) (c : gmap Z Z) (h n : Z) : bool := (head <? n) && (n <=? j) && bool_decide (c !! n = Some h).

Lemma removed_step head j c h h0 n : head < j -> c !! j = Some h0 ->
  removed head j c h n = removed head (j - 1) c h n || bool_decide ((h, n) = (h0, j)).
Proof.
  intros Hj Hc. unfold removed. destruct (decide (n = j)) as [->|Hn].
  - rewrite Hc. assert ((head <? j) = true /\ (j <=? j) = true /\ (j <=? j - 1) = false) as (-> & -> & ->) by lia. cbn.
    apply bool_decide_ext. split; congruence.
  - rewrite (bool_decide_eq_false_2 ((h, n) = _)) by congruence. rewrite orb_false_r. by replace (n <=? j) with (n <=? j - 1) by lia.
Qed.

(** The deletions of the loop. *)
Record rewound (head j : Z) (c : gmap Z Z) (b b' : ChainDB) : Prop := {
  rewound_headers h n : db_headers b' !! (h, n) = if removed head j c h n then None else db_headers b !! (h, n);
  rewound_tds h n : db_tds b' !! (h, n) = if removed head j c h n then None else db_tds b !! (h, n);
  rewound_canonical : db_canonical b' = db_canonical b }.

Lemma rewound_none head j c b : j <= head -> rewound head j c b b.
Proof.
  intros Hj. assert (forall h n, removed head j c h n = false) as H.
  { intros h n. unfold removed. destruct ((head <? n) && (n <=? j)) eqn:E; [lia|done]. }
  split; [intros; by rewrite H..|done].
Qed.

Lemma rewound_step head j c h0 b b' : head < j -> c !! j = Some h0 ->
  rewound head (j - 1) c (DeleteTd h0 j (DeleteHeader h0 j b)) b' -> rewound head j c b b'.
Proof.
  intros Hj Hc [H1 H2 H3]. split; [| |by rewrite H3]; intros h n; rewrite ?H1, ?H2, (removed_step _ _ _ _ _ _ Hj Hc); cbn.
  all: destruct (removed head (j - 1) c h n); cbn; [done|]; rewrite lookup_delete; by repeat (case_bool_decide || case_decide).
Qed.

Lemma rewind_ok g fuel head j x b hc : tree_ok Hash g (chainDb hc) -> caches_ok hc -> 0 <= head -> j - head <= Z.of_nat fuel ->
  currentHeader hc = Some x -> stored (chainDb hc) (Hash x) j x -> linked Hash (chainDb hc) (db_canonical (chainDb hc)) j (Hash x) ->
  exists b' hc' y, rewind Hash evict fuel head b hc = Some (b', hc') /\ chainDb hc' = chainDb hc /\ genesisHeader hc' = genesisHeader hc /\
    currentHeader hc' = Some y /\ stored (chainDb hc) (Hash y) (Z.min j head) y /\
    linked Hash (chainDb hc) (db_canonical (chainDb hc)) (Z.min j head) (Hash y) /\ rewound head j (db_canonical (chainDb hc)) b b'.
Proof.
  induction fuel as [|fuel IH] in j, x, b, hc |- *; intros Ht Hc Hh Hf Hcur Hx Hl; cbn [rewind]; rewrite Hcur, (number_u64_stored Hash _ _ _ _ _ Ht Hx); cbn [mbind option_bind].
  all: destruct (j <=? head) eqn:Hle; [exists b, hc, x; rewrite Z.min_l by lia; repeat (split; [done|]); apply rewound_none; lia|].
  1: lia.
  destruct (tree_key _ _ _ Ht _ _ _ Hx) as (_ & _ & Hj0 & Hj1). rewrite u64_pred by lia.
  destruct (tree_parent _ _ _ Ht _ _ _ Hx) as (p & _ & _ & Hp & _); [lia|].
  destruct (GetHeader_ok Hash evict Hash_inj evict_subseteq _ (ParentHash x) (j - 1) hc Ht Hc) as (r & hc1 & -> & (Hdb & Hg & _) & Hc1 & Hr & _).
  rewrite (Hr p Hp). set (hc2 := set_current _ _ hc1). destruct (tree_key _ _ _ Ht _ _ _ Hp) as (Ep & _).
  assert (chainDb hc2 = chainDb hc) as Hdb2 by done.
  destruct (IH (j - 1) p (DeleteTd (Hash x) j (DeleteHeader (Hash x) j b)) hc2) as (b' & hc' & y & -> & Hdb' & Hg' & Hcur' & Hy & Hl' & Hrew); rewrite ?Hdb2, ?Ep; [done| |done|lia|done|done| |].
  - by apply (caches_ok_same hc1).
  - destruct Hl as [Hcj Hl]. destruct (Hl j) as (x' & _ & Hcx & Hpx); [lia|]. assert (x' = x) as -> by (apply Hash_inj; congruence).
    split; [apply Hpx; lia|]. intros n Hn. apply Hl. lia.
  - rewrite Hdb2 in Hdb', Hy, Hl', Hrew. exists b', hc', y. replace (Z.min (j - 1) head) with (Z.min j head) in * by lia.
    split; [done|]. split; [done|]. split; [by etrans|]. repeat (split; [done|]). apply (rewound_step _ _ _ (Hash x)); [lia|apply Hl|done].
Qed.

Lemma delete_down_eq k head b : 0 <= head ->
  let b' := delete_down k head b in
  db_headers b' = db_headers b /\ db_tds b' = db_tds b /\
  forall n, db_canonical b' !! n = if (head <? n) && (n <=? head + Z.of_nat k) then None else db_canonical b !! n.
Proof.
  intros Hh. induction k as [|k IH] in b |- *; cbn [delete_down]; [split; [done|]; split; [done|]; intros n; case_if; lia || done|].
  destruct (IH (DeleteCanonicalHash (head + Z.of_nat (S k)) b)) as (H1 & H2 & H3). split; [done|]. split; [done|].
  intros n. rewrite H3. cbn [db_canonical DeleteCanonicalHash set_canonical]. rewrite lookup_delete.
  clear. destruct (Z.ltb_spec head n), (Z.leb_spec n (head + Z.of_nat k)), (Z.leb_spec n (head + Z.of_nat (S k))), (decide (head + Z.of_nat (S k) = n)); cbn; done || lia.
Qed.

(** The database after [SetHead], for the theorems below. *)
Lemma SetHead_ok head cur m hc : chain_ok Hash hc -> 0 <= head -> currentHeader hc = Some cur -> Number cur = Some m ->
  exists hc' y, SetHead Hash evict head hc = Some hc' /\
    currentHeader hc' = Some y /\ currentHeaderHash hc' = Hash y /\ db_headHeader (chainDb hc') = Hash y /\
    Number y = Some (Z.min m head) /\ linked Hash (chainDb hc') (db_canonical (chainDb hc')) (Z.min m head) (Hash y) /\
    (forall n, db_canonical (chainDb hc') !! n = if head <? n then None else db_canonical (chainDb hc) !! n) /\
    forall h n, let gone := removed head m (db_canonical (chainDb hc)) h n in
      db_headers (chainDb hc') !! (h, n) = (if gone then None else db_headers (chainDb hc) !! (h, n)) /\
      db_tds (chainDb hc') !! (h, n) = (if gone then None else db_tds (chainDb hc) !! (h, n)).
Proof.
  intros (Ht & Hc & cur' & m' & T & [(Hcur' & _) Hst Hl Hab _ _]) Hh Hcur Hm. assert (cur' = cur) as -> by congruence.
  destruct (tree_key _ _ _ Ht _ _ _ Hst) as (_ & Hm' & Hm0 & _). assert (m' = m) as -> by congruence. clear Hm' Hcur'.
  unfold SetHead. rewrite Hcur, (number_u64_stored Hash _ _ _ _ _ Ht Hst). cbn [mbind option_bind].
  destruct (rewind_ok _ (Z.to_nat m) head m cur (chainDb hc) hc Ht Hc Hh) as (b & hc' & y & -> & Hdb & Hg & Hcy & Hy & Hly & [H1 H2 H3]); [lia|done..|].
  cbn [mbind option_bind]. rewrite Hcy.
  destruct (delete_down_eq (Z.to_nat (m - head)) head b Hh) as (D1 & D2 & D3).
  assert (forall n, db_canonical (delete_down (Z.to_nat (m - head)) head b) !! n = if head <? n then None else db_canonical (chainDb hc) !! n) as Hcan.
  { intros n. rewrite D3, H3. destruct (Z.ltb_spec head n), (Z.leb_spec n (head + Z.of_nat (Z.to_nat (m - head)))); cbn; [done|apply Hab; lia|done|done]. }
  eexists _, y. split; [done|]. cbn. repeat (split; [done|]). destruct (tree_key _ _ _ Ht _ _ _ Hy) as (_ & Hny & _). split; [done|].
  split; [|split; [done|intros h n; by rewrite D1, D2, H1, H2]].
  eapply linked_ext; [|lia|intros n Hn; rewrite Hcan; destruct (Z.ltb_spec head n); [lia|done]].
  destruct Hly as [Hc1 Hc2]. split; [done|]. intros n Hn. destruct (Hc2 n Hn) as (x & Hx & Hcx & Hp). exists x. split; [|done].
  unfold stored. cbn. rewrite D1, H1. unfold removed. by replace (head <? n) with false by lia.
Qed.

(** C19: [SetHead] never panics on a well-formed chain: the new current header is the
    canonical one at [head] (the old one if [head] is not below it), the canonical
    numbers above are deleted and the others untouched, and of the headers and
    difficulties exactly those of the canonical chain above [head] are deleted. *)
Theorem SetHead_rewinds head cur m hc : chain_ok Hash hc -> 0 <= head -> currentHeader hc = Some cur -> Number cur = Some m ->
  exists hc' y, SetHead Hash evict head hc = Some hc' /\
    currentHeader hc' = Some y /\ currentHeaderHash hc' = Hash y /\ db_headHeader (chainDb hc') = Hash y /\
    Number y = Some (Z.min m head) /\ linked Hash (chainDb hc') (db_canonical (chainDb hc')) (Z.min m head) (Hash y) /\
    (forall n, db_canonical (chainDb hc') !! n = if head <? n then None else db_canonical (chainDb hc) !! n) /\
    forall h n, let gone := removed head m (db_canonical (chainDb hc)) h n in
      db_headers (chainDb hc') !! (h, n) = (if gone then None else db_headers (chainDb hc) !! (h, n)) /\
      db_tds (chainDb hc') !! (h, n) = (if gone then None else db_tds (chainDb hc) !! (h, n)).
Proof. apply SetHead_ok. Qed.

(** * A write after a rewind *)

(** A header at [n] whose parent is missing, with no canonical numbers at [n] and
    below. *)
Lemma overwrite_missing fuel s n p hc : Number s = Some n -> 0 < n -> n + 1 < 2 ^ 64 -> ParentHash s = Hash p -> Hash p <> Hash s ->
  db_canonical (chainDb hc) !! n = None -> db_canonical (chainDb hc) !! (n - 1) = None ->
  db_headers (chainDb hc) !! (Hash p, n - 1) = None -> headerCache hc !! Hash p = None -> overwrite evict fuel (Hash s) n (Some s) hc = None.
Proof.
  intros Hn H0 H1 Hp Hne Hc Hc' Hh Hcache. assert (forall db m x, db_canonical db !! m = None -> (ReadCanonicalHash db m =? Hash x) = false) as Hcan.
  { intros db m x E. unfold ReadCanonicalHash. rewrite E. unfold default, from_option. apply Z.eqb_neq. intros E0. by destruct (Hash_nonzero x). }
  destruct fuel as [|fuel]; cbn [overwrite]; rewrite Hcan by done; [done|]. cbn [mbind option_bind].
  rewrite (number_u64_formed s n) by (done || lia). cbn [mbind option_bind]. rewrite u64_pred by lia. rewrite Hp.
  unfold GetHeader, ReadHeader. cbn [headerCache set_chainDb chainDb WriteCanonicalHash set_canonical db_headers]. rewrite Hcache, Hh.
  assert (forall m, db_canonical (WriteCanonicalHash (Hash s) n (chainDb hc)) !! (n - 1) = m -> m = None) as Hw.
  { intros m <-. cbn. rewrite lookup_insert_ne by lia. done. }
  destruct fuel as [|fuel]; cbn [overwrite]; rewrite Hcan; [done|by eapply Hw|done|by eapply Hw].
Qed.

(** Such a header with its number as a child's parent. *)
Lemma make_canonical_orphan x s p n hash hc : ParentHash x = Hash s -> Number s = Some n -> 0 < n -> n + 2 < 2 ^ 64 -> ParentHash s = Hash p -> Hash p <> Hash s ->
  (forall k, n - 1 <= k -> db_canonical (chainDb hc) !! k = None) -> db_headers (chainDb hc) !! (Hash s, n) = Some s ->
  db_headers (chainDb hc) !! (Hash p, n - 1) = None -> headerCache hc = ∅ -> make_canonical evict x hash (n + 1) hc = None.
Proof.
  intros Ex Hn H0 H1 Es Hne Hfree Hs Hp Hc. unfold make_canonical. rewrite Ex.
  assert (forall fuel, delete_above fuel (u64 (n + 1 + 1)) (db_canonical (chainDb hc)) = Some (db_canonical (chainDb hc))) as ->.
  { intros fuel. rewrite u64_small by (unfold is_u64; lia). destruct fuel; cbn [delete_above]; by rewrite Hfree by lia. }
  cbn [mbind option_bind]. replace (u64 (n + 1 - 1)) with n by (symmetry; rewrite Z.add_simpl_r; apply Z.mod_small; lia).
  unfold GetHeader, ReadHeader. cbn [headerCache set_chainDb chainDb set_canonical db_headers]. rewrite Hc, lookup_empty, Hs.
  rewrite (overwrite_missing _ s n p); try done; [lia|cbn; by apply Hfree; lia..|].
  cbn [headerCache set_headerCache]. destruct (_ !! Hash p) eqn:E; [|done]. apply (lru_Add_lookup evict evict_subseteq) in E as [[E _]|E]; [done|]. by rewrite lookup_empty in E.
Qed.

Lemma GetTd_fresh h n t hc : tdCache hc !! h = None -> db_tds (chainDb hc) !! (h, n) = Some t ->
  exists c, GetTd evict h n hc = (Some t, set_tdCache c hc) /\ forall k, k <> h -> tdCache hc !! k = None -> c !! k = None.
Proof.
  intros Hc Ht. unfold GetTd, ReadTd. rewrite Hc, Ht. eexists. split; [done|]. intros k Hk Hn.
  destruct (lru_Add evict h t (tdCache hc) !! k) eqn:E; [|done]. apply (lru_Add_lookup evict evict_subseteq) in E as [[-> _]|E]; [done|congruence].
Qed.

Lemma SetHead_caches head hc hc' : SetHead Hash evict head hc = Some hc' -> headerCache hc' = ∅ /\ tdCache hc' = ∅.
Proof.
  unfold SetHead. destruct (match currentHeader hc with Some _ => _ | None => _ end); cbn [mbind option_bind]; [|done].
  destruct (rewind _ _ _ _ _ _) as [[b hc1]|]; cbn [mbind option_bind]; [|done]. by intros [= <-].
Qed.

(** C38: a rewind can leave a header without its parent.  On a well-formed chain, let
    [s] be a header of a side branch whose parent [p] is canonical and above [head].
    After [SetHead] to [head] the header [s] and its total difficulty are still
    stored, and [p] is not.  Writing a child [x] of [s] that is heavier than the new
    head panics, at either toss of the coin: the loop that makes the ancestors
    canonical dereferences the missing parent, however often it may run. *)
Theorem write_after_rewind_panics coin head s p x n d ts hh th hc : chain_ok Hash hc -> 0 <= head -> head < n - 1 ->
  stored (chainDb hc) (Hash s) n s -> db_canonical (chainDb hc) !! n <> Some (Hash s) -> db_tds (chainDb hc) !! (Hash s, n) = Some ts ->
  stored (chainDb hc) (Hash p) (n - 1) p -> ParentHash s = Hash p -> db_canonical (chainDb hc) !! (n - 1) = Some (Hash p) ->
  ParentHash x = Hash s -> Number x = Some (n + 1) -> n + 2 < 2 ^ 64 -> Difficulty x = Some d ->
  db_canonical (chainDb hc) !! head = Some hh -> db_tds (chainDb hc) !! (hh, head) = Some th -> th < d + ts ->
  exists hc', SetHead Hash evict head hc = Some hc' /\ stored (chainDb hc') (Hash s) n s /\ db_headers (chainDb hc') !! (Hash p, n - 1) = None /\
    (forall fuel, overwrite evict fuel (Hash s) n (Some s) hc' = None) /\ WriteHeader Hash evict coin x hc' = None.
Proof.
  intros Hok Hh Hlt Hs Hside Hts Hp Eps Hcp Exs Hnx Hnx2 Hd Hch Hth Hheavy.
  pose proof Hok as (Ht & _ & cur & m & T & [(Hcur & _) Hst Hl Hab _ _]). destruct (tree_key _ _ _ Ht _ _ _ Hst) as (_ & Hm & _).
  destruct (tree_key _ _ _ Ht _ _ _ Hs) as (_ & Hns & Hn0 & Hn1). destruct (tree_key _ _ _ Ht _ _ _ Hp) as (_ & Hnp & _).
  assert (n - 1 <= m) as Hnm by (destruct (decide (n - 1 <= m)) as [|Hgt]; [done|]; rewrite Hab in Hcp by lia; done).
  assert (Hash p <> Hash s) as Hne by (intros E%Hash_inj; subst p; rewrite Hns in Hnp; injection Hnp; lia).
  destruct (SetHead_ok head cur m hc Hok Hh Hcur Hm) as (hc' & y & Heq & Hcy & Hhy & _ & Hny & [Hly _] & Hcan & Hdb).
  rewrite Z.min_r in Hny, Hly by lia. rewrite Hcan, (proj2 (Z.ltb_ge _ _)), Hch in Hly by lia. injection Hly as ->.
  destruct (Hdb (Hash s) n) as [Hs1 Hs2]. destruct (Hdb (Hash p) (n - 1)) as [Hp1 _]. destruct (Hdb (Hash y) head) as [_ Hy2].
  unfold removed in *. rewrite (bool_decide_eq_false_2 (_ !! n = _)), andb_false_r in Hs1, Hs2 by done.
  rewrite (bool_decide_eq_true_2 _ Hcp), (proj2 (Z.ltb_lt _ _)), (proj2 (Z.leb_le _ _)) in Hp1 by lia. cbn [andb] in Hp1.
  rewrite Z.ltb_irrefl in Hy2. cbn [andb] in Hy2. rewrite Hs in Hs1. rewrite Hts in Hs2. rewrite Hth in Hy2.
  assert (forall k, head < k -> db_canonical (chainDb hc') !! k = None) as Hfree by (intros k Hk; rewrite Hcan; by rewrite (proj2 (Z.ltb_lt _ _))).
  assert (headerCache hc' = ∅ /\ tdCache hc' = ∅) as [Hec Het] by by eapply SetHead_caches.
  assert (Hash y <> Hash s) as Hys by (intros E%Hash_inj; subst y; rewrite Hns in Hny; injection Hny; lia).
  exists hc'. split; [done|]. split; [done|]. split; [done|]. split.
  { intros fuel. apply (overwrite_missing fuel s n p); try done; [lia|by apply Hfree; lia..|by rewrite Hec]. }
  unfold WriteHeader. rewrite (number_u64_formed x (n + 1)) by (done || lia). cbn [mbind option_bind]. rewrite Exs.
  replace (u64 (n + 1 - 1)) with n by (symmetry; rewrite Z.add_simpl_r; apply Z.mod_small; lia).
  destruct (GetTd_fresh (Hash s) n ts hc') as (c1 & -> & Hc1); [by rewrite Het|done|].
  cbn [currentHeader currentHeaderHash set_tdCache mbind option_bind]. rewrite Hcy. cbn [mbind option_bind].
  rewrite (number_u64_formed y head) by (done || lia). cbn [mbind option_bind]. rewrite Hhy.
  destruct (GetTd_fresh (Hash y) head th (set_tdCache c1 hc')) as (c2 & -> & _); [cbn; apply Hc1; [done|by rewrite Het]|done|].
  rewrite Hd. cbn [mbind option_bind]. rewrite (proj2 (Z.ltb_lt _ _)) by lia. cbn [orb].
  rewrite (make_canonical_orphan x s p n); try done; [lia|cbn; intros k Hk; apply Hfree; lia|cbn..].
  - rewrite lookup_insert_ne; [done|]. intros [= E _]. apply Hash_inj in E. subst x. rewrite Hns in Hnx. injection Hnx. lia.
  - rewrite lookup_insert_ne; [done|]. intros [= E _]. apply Hash_inj in E. subst x. rewrite Hnp in Hnx. injection Hnx. lia.
Qed.
End Ancestors.

(** * Examples *)
Definition opt_list (o : option Z) : list Z := match o with Some x => [x] | None => [] end.

(** An injective hash, never zero. *)
Definition header_hash (h : Header) : Z :=
  Zpos (encode (ParentHash h,
    [[UncleHash h; Coinbase h; Root h; TxHash h; ReceiptHash h; Bloom h; GasLimit h; GasUsed h; MixDigest h];
     opt_list (Difficulty h); opt_list (Number h); opt_list (Time h); Extra h; Nonce h])).

Lemma opt_list_inj a b : opt_list a = opt_list b -> a = b.
Proof. destruct a, b; cbn; congruence. Qed.

Lemma header_hash_inj x y : header_hash x = header_hash y -> x = y.
Proof.
  intros [= H%(inj encode)]. destruct x, y; cbn in H. injection H. intros. subst.
  repeat match goal with H : opt_list _ = opt_list _ |- _ => apply opt_list_inj in H end. by subst.
Qed.

Lemma header_hash_nonzero x : header_hash x <> 0.
Proof. done. Qed.

(** A cache that keeps everything. *)
Definition keep (A : Type) (c : gmap Z A) : gmap Z A := c.

Lemma keep_subseteq A (c : gmap Z A) : keep A c ⊆ c.
Proof. done. Qed.

(** * The database of a genesis block *)
Definition genesis_db (Hash : Header -> Z) (g : Header) (d : Z) : ChainDB :=
  mkDB {[(Hash g, 0) := g]} {[(Hash g, 0) := d]} {[Hash g := 0]} {[0 := Hash g]} (Hash g).

Lemma genesis_db_ok Hash g d : Number g = Some 0 -> tree_ok Hash g (genesis_db Hash g d).
Proof.
  intros Hn. assert (forall h n x, stored (genesis_db Hash g d) h n x <-> h = Hash g /\ n = 0 /\ x = g) as Hs.
  { intros h n x. unfold stored. cbn. rewrite lookup_singleton_Some. naive_solver. }
  split.
  - intros h n x (-> & -> & ->)%Hs. repeat split; done || lia.
  - by apply Hs.
  - by intros h x (_ & _ & ->)%Hs.
  - intros h n. cbn. rewrite lookup_singleton_Some. setoid_rewrite Hs. naive_solver.
  - intros k. cbn. destruct (decide (k = (Hash g, 0))) as [->|Hk].
    + rewrite !lookup_singleton_eq. by split; eauto.
    + by rewrite !lookup_singleton_ne.
  - intros h n x (_ & -> & _)%Hs. lia.
Qed.

(** A chain opened on it is well-formed. *)
Lemma NewHeaderChain_genesis Hash evict g d : Number g = Some 0 -> (forall x, Hash x <> 0) -> (forall A (c : gmap Z A), evict A c ⊆ c) ->
  exists hc, NewHeaderChain Hash evict (genesis_db Hash g d) 0 = Some hc /\ chain_ok Hash hc /\ chainDb hc = genesis_db Hash g d.
Proof.
  intros Hn Hnz Hev. unfold NewHeaderChain, GetHeaderByNumber, ReadCanonicalHash. cbn.
  replace (default 0 ({[0 := Hash g]} !! 0)) with (Hash g) by by rewrite lookup_singleton_eq.
  assert ((Hash g =? 0) = false) as -> by (specialize (Hnz g); lia).
  unfold GetHeader, ReadHeader. cbn. rewrite lookup_empty, lookup_singleton_eq. cbn.
  eexists. split; [done|]. split; [|done]. split; [by apply genesis_db_ok|]. split.
  - split; cbn; [|by intros h t; rewrite lookup_empty..]. intros h x [[-> ->]|H]%(lru_Add_lookup evict Hev).
    + exists 0. unfold stored. cbn. by rewrite lookup_singleton_eq.
    + by rewrite lookup_empty in H.
  - exists g, 0, d. split; cbn; [done|by unfold stored; cbn; rewrite lookup_singleton_eq| | | |].
    + split; [by rewrite lookup_singleton_eq|]. intros n Hb. assert (n = 0) as -> by lia. exists g.
      unfold stored. cbn. rewrite !lookup_singleton_eq. repeat split; lia.
    + intros n Hb. rewrite lookup_singleton_ne by lia. done.
    + by rewrite lookup_singleton_eq.
    + intros k t [_ <-]%lookup_singleton_Some. lia.
Qed.

(** * A fork *)
Definition ex_block (parent number name : Z) : Header := mkHeader parent 0 name 0 0 0 0 (Some 2) (Some number) 0 0 (Some number) [] 0 [].
Definition ex_genesis : Header := ex_block 0 0 0.
Definition main1 : Header := ex_block (header_hash ex_genesis) 1 0.
Definition main2 : Header := ex_block (header_hash main1) 2 0.
Definition side2 : Header := ex_block (header_hash main1) 2 1.
Definition side3 : Header := ex_block (header_hash side2) 3 1.

Definition never (i : Z) : bool := false.
Definition opened : HeaderChain := default (mkHeaderChain (genesis_db header_hash ex_genesis 2) ex_genesis None 0 ∅ ∅ ∅) (NewHeaderChain header_hash keep (genesis_db header_hash ex_genesis 2) 0).
Definition insert_all (chain : list Header) (hc : HeaderChain) : HeaderChain :=
  match insert_headers header_hash keep never never 0 chain hc with Some (_, _, hc') => hc' | None => hc end.
(** The headers [main1] and [main2], then [side2] beside [main2]. *)
Definition forked : HeaderChain := insert_all [side2] (insert_all [main1; main2] opened).

Lemma ex_block_formed p n c : 0 <= n -> n + 1 < 2 ^ 64 -> header_formed (ex_block p n c).
Proof. intros. by exists n, 2, n. Qed.

Lemma opened_ok : chain_ok header_hash opened /\ chainDb opened = genesis_db header_hash ex_genesis 2.
Proof.
  destruct (NewHeaderChain_genesis header_hash keep ex_genesis 2) as (hc & Heq & Hok & Hdb); [done|done|apply keep_subseteq|].
  unfold opened. rewrite Heq. done.
Qed.

Lemma main1_child : child_ok opened main1.
Proof.
  exists 1, 2. repeat (split; [done|]). intros m p. unfold stored. rewrite (proj2 opened_ok). cbn [genesis_db db_headers].
  intros [Hk _]%lookup_singleton_Some. apply (f_equal snd) in Hk. cbn [snd] in Hk. lia.
Qed.

Lemma insert_all_ok h chain hc : chain_ok header_hash hc -> Forall header_formed (h :: chain) -> child_ok hc h -> contiguous header_hash h chain = Some true ->
  chain_ok header_hash (insert_all (h :: chain) hc).
Proof.
  intros Hok Hf Hch Hc. unfold insert_all.
  destruct (insert_headers_ok header_hash keep header_hash_inj header_hash_nonzero keep_subseteq never never 0 h chain hc Hok Hf Hch Hc) as (i & err & hc' & -> & Hi & _).
  done.
Qed.

Lemma main_ok : chain_ok header_hash (insert_all [main1; main2] opened).
Proof.
  apply insert_all_ok; [apply opened_ok| |apply main1_child|by_compute]. repeat constructor; by apply ex_block_formed.
Qed.

Lemma forked_ok : chain_ok header_hash forked.
Proof.
  apply insert_all_ok; [apply main_ok|by repeat constructor; apply ex_block_formed| |done].
  eapply (child_of_previous header_hash header_hash_inj _ main1 side2); [apply main_ok|by apply ex_block_formed..|by_compute].
Qed.

Lemma insert_validated_headers_witness :
  exists i err hc', InsertHeaderChain header_hash keep never never [main1; main2] opened = Some (i, err, hc') /\ chain_ok header_hash hc'.
Proof.
  destruct (insert_validated_headers header_hash keep header_hash_inj header_hash_nonzero keep_subseteq
    (fun chain _ => replicate (length chain) None) ∅ never (fun _ => 0) 1 0 never never main1 [main2] opened) as (i & err & hc' & Heq & Hok & _).
  - apply opened_ok.
  - repeat constructor; by apply ex_block_formed.
  - apply main1_child.
  - by_compute.
  - exact (ex_intro _ i (ex_intro _ err (ex_intro _ hc' (conj Heq Hok)))).
Defined.

Lemma side2_stored : stored (chainDb forked) (header_hash side2) 2 side2.
Proof. unfold stored. by_compute. Qed.

Lemma GetAncestor_equiv_witness :
  exists r k max hc', GetAncestor keep (header_hash side2) 2 2 1 forked = (r, k, max, hc') /\
    (nth_parent (chainDb forked) 2 (header_hash side2) 2 = Some r /\ k = 0 \/ r = 0 /\ k = 0 /\ max = 0 /\ 1 < 2).
Proof.
  destruct (GetAncestor_equiv header_hash keep header_hash_inj header_hash_nonzero keep_subseteq (header_hash side2) 2 side2 2 1 forked)
    as (r & k & max & hc' & Heq & _ & _ & _ & Hres); [apply forked_ok|apply side2_stored|lia|lia|].
  exact (ex_intro _ r (ex_intro _ k (ex_intro _ max (ex_intro _ hc' (conj Heq Hres))))).
Defined.

Lemma forked_current : currentHeader forked = Some main2.
Proof. by_compute. Qed.

Lemma SetHead_rewinds_witness :
  exists hc' y, SetHead header_hash keep 1 forked = Some hc' /\ currentHeader hc' = Some y /\ Number y = Some 1.
Proof.
  destruct (SetHead_rewinds header_hash keep header_hash_inj keep_subseteq 1 main2 2 forked)
    as (hc' & y & Heq & Hcur & _ & _ & Hn & _); [exact forked_ok|lia|exact forked_current|reflexivity|].
  exact (ex_intro _ hc' (ex_intro _ y (conj Heq (conj Hcur Hn)))).
Defined.

Lemma write_after_rewind_panics_witness :
  exists hc', SetHead header_hash keep 0 forked = Some hc' /\ WriteHeader header_hash keep false side3 hc' = None /\
    fst <$> WriteHeader header_hash keep false side3 forked = Some (CanonStatTy, None).
Proof.
  destruct (write_after_rewind_panics header_hash keep header_hash_inj header_hash_nonzero keep_subseteq false 0 side2 main1 side3 2 2 6 (header_hash ex_genesis) 2 forked)
    as (hc' & Heq & _ & _ & _ & Hw); [exact forked_ok|lia|lia|exact side2_stored|intros H|by_compute|unfold stored; by_compute|by_compute|by_compute|by_compute|done|lia|done|by_compute|by_compute|lia|].
  - assert (bool_decide (db_canonical (chainDb forked) !! 2 = Some (header_hash side2)) = false) as Hb by by_compute. exact (bool_decide_eq_false_1 _ Hb H).
  - assert (fst <$> WriteHeader header_hash keep false side3 forked = Some (CanonStatTy, None)) as Hbefore by by_compute.
    exact (ex_intro _ hc' (conj Heq (conj Hw Hbefore))).
Defined.
