(* ===== verification/CliqueSnapshot.v ===== *)
(** The proof-of-authority voting of consensus/clique/snapshot.go: signers,
    recent signers, votes and their tally, and the application of headers. *)
From stdpp Require Import gmap sorting.
From S2P Require Import Prelude GoMath BlockHeader.

Inductive CliqueError :=
| errUnknownBlock
| errInvalidCheckpointBeneficiary
| errInvalidVote
| errInvalidCheckpointVote
| errMissingVanity
| errMissingSignature
| errExtraSigners
| errInvalidCheckpointSigners
| errMismatchingCheckpointSigners
| errInvalidMixDigest
| errInvalidUncleHash
| errInvalidDifficulty
| errWrongDifficulty
| ErrInvalidTimestamp
| errInvalidVotingChain
| errUnauthorizedSigner
| errRecentlySigned
| ErrFutureBlock
| ErrUnknownAncestor
| errFork (e : Z)
| errEcrecover (e : Z)
| errUncles.

Record Vote := mkVote { Signer : Z; Block : Z; Address : Z; Authorize : bool }.
Record Tally := mkTally { Tally_Authorize : bool; Tally_Votes : Z }.

Record Snapshot := mkSnapshot {
  Epoch : Z;
  SnapNumber : Z;
  SnapHash : Z;
  Signers : gset Z;
  Recents : gmap Z Z;
  Votes : list Vote;
  Tallies : gmap Z Tally
}.

Definition set_Signers (x : gset Z) (s : Snapshot) : Snapshot :=
  mkSnapshot (Epoch s) (SnapNumber s) (SnapHash s) x (Recents s) (Votes s) (Tallies s).
Definition set_Recents (x : gmap Z Z) (s : Snapshot) : Snapshot :=
  mkSnapshot (Epoch s) (SnapNumber s) (SnapHash s) (Signers s) x (Votes s) (Tallies s).
Definition set_Votes (x : list Vote) (s : Snapshot) : Snapshot :=
  mkSnapshot (Epoch s) (SnapNumber s) (SnapHash s) (Signers s) (Recents s) x (Tallies s).
Definition set_Tallies (x : gmap Z Tally) (s : Snapshot) : Snapshot :=
  mkSnapshot (Epoch s) (SnapNumber s) (SnapHash s) (Signers s) (Recents s) (Votes s) x.

Definition newSnapshot (epoch number hash : Z) (signers : list Z) : Snapshot :=
  mkSnapshot epoch number hash (foldl (fun m s => {[s]} ∪ m) ∅ signers) ∅ [] ∅.

Definition validVote (s : Snapshot) (address : Z) (authorize : bool) : bool :=
  let signer := bool_decide (address ∈ Signers s) in
  (signer && negb authorize) || (negb signer && authorize).

Definition cast (address : Z) (authorize : bool) (s : Snapshot) : Snapshot * bool :=
  if negb (validVote s address authorize) then (s, false)
  else
    let tally :=
      match Tallies s !! address with
      | Some old => mkTally (Tally_Authorize old) (Tally_Votes old + 1)
      | None => mkTally authorize 1
      end in
    (set_Tallies (<[address := tally]> (Tallies s)) s, true).

Definition uncast (address : Z) (authorize : bool) (s : Snapshot) : Snapshot * bool :=
  match Tallies s !! address with
  | None => (s, false)
  | Some tally =>
      if negb (eqb (Tally_Authorize tally) authorize) then (s, false)
      else if 1 <? Tally_Votes tally
      then (set_Tallies (<[address := mkTally (Tally_Authorize tally) (Tally_Votes tally - 1)]> (Tallies s)) s, true)
      else (set_Tallies (delete address (Tallies s)) s, true)
  end.

(** [len(snap.Signers)] *)
Definition signers_len (s : Snapshot) : Z := Z.of_nat (size (Signers s)).

(** [uint64(len(snap.Signers)/2 + 1)] *)
Definition signer_limit (s : Snapshot) : Z := signers_len s / 2 + 1.

Definition nonceAuthVote : bytes := replicate 8 255.
Definition nonceDropVote : bytes := replicate 8 0.

(** * The steps of [apply] on one header *)

(** All votes are dropped on a checkpoint; an epoch of 0 panics. *)
Definition clear_votes (number : Z) (s : Snapshot) : result CliqueError Snapshot :=
  if Epoch s =? 0 then Panic
  else Ok (if number mod Epoch s =? 0 then set_Tallies ∅ (set_Votes [] s) else s).

(** The oldest recent signer may sign again. *)
Definition shift_recents (number : Z) (s : Snapshot) : Snapshot :=
  let limit := signer_limit s in
  if limit <=? number then set_Recents (delete (number - limit) (Recents s)) s else s.

Definition recently_signed (s : Snapshot) (signer : Z) : bool :=
  existsb (fun kv => kv.2 =? signer) (map_to_list (Recents s)).

Definition check_signer (number signer : Z) (s : Snapshot) : result CliqueError Snapshot :=
  if negb (bool_decide (signer ∈ Signers s)) then Err errUnauthorizedSigner
  else if recently_signed s signer then Err errRecentlySigned
  else Ok (set_Recents (<[number := signer]> (Recents s)) s).

(** The first vote of the signer on the account is taken back. *)
Definition discard_vote (signer address : Z) (s : Snapshot) : Snapshot :=
  match list_find (fun v => Signer v = signer /\ Address v = address) (Votes s) with
  | Some (i, v) => set_Votes (delete i (Votes s)) (uncast (Address v) (Authorize v) s).1
  | None => s
  end.

Definition vote_of (nonce : bytes) : result CliqueError bool :=
  if bytes_eqb nonce nonceAuthVote then Ok true
  else if bytes_eqb nonce nonceDropVote then Ok false
  else Err errInvalidVote.

Definition cast_vote (signer number address : Z) (authorize : bool) (s : Snapshot) : Snapshot :=
  let '(s, ok) := cast address authorize s in
  if ok then set_Votes (Votes s ++ [mkVote signer number address authorize]) s else s.

(** The loop that takes back the votes of a signer who is no longer one. *)
Fixpoint discard_by (address : Z) (votes : list Vote) (s : Snapshot) : list Vote * Snapshot :=
  match votes with
  | [] => ([], s)
  | v :: votes =>
      if Signer v =? address then discard_by address votes (uncast (Address v) (Authorize v) s).1
      else let '(rest, s) := discard_by address votes s in (v :: rest, s)
  end.

Definition drop_signer (number address : Z) (s : Snapshot) : Snapshot :=
  let s := set_Signers (Signers s ∖ {[address]}) s in
  let s := shift_recents number s in
  let '(votes, s) := discard_by address (Votes s) s in
  set_Votes votes s.

(** A vote that passed changes the signers and is forgotten. *)
Definition pass_vote (number address : Z) (s : Snapshot) : Snapshot :=
  let tally := default (mkTally false 0) (Tallies s !! address) in
  if signers_len s / 2 <? Tally_Votes tally then
    let s :=
      if Tally_Authorize tally then set_Signers ({[address]} ∪ Signers s) s
      else drop_signer number address s in
    let s := set_Votes (List.filter (fun v => negb (Address v =? address)) (Votes s)) s in
    set_Tallies (delete address (Tallies s)) s
  else s.

(** The signature of a header and its hash come from clique.go. *)
Section Apply.
Context (ecrecover : Header -> result CliqueError Z) (Hash : Header -> Z).

Definition apply_header (header : Header) (snap : Snapshot) : result CliqueError Snapshot :=
  let! number := number_of header in
  let! snap := clear_votes number snap in
  let snap := shift_recents number snap in
  let! signer := ecrecover header in
  let! snap := check_signer number signer snap in
  let snap := discard_vote signer (Coinbase header) snap in
  let! authorize := vote_of (Nonce header) in
  let snap := cast_vote signer number (Coinbase header) authorize snap in
  Ok (pass_vote number (Coinbase header) snap).

Fixpoint apply_headers (headers : list Header) (snap : Snapshot) : result CliqueError Snapshot :=
  match headers with
  | [] => Ok snap
  | h :: headers => let! snap := apply_header h snap in apply_headers headers snap
  end.

Fixpoint check_contiguous (headers : list Header) : result CliqueError unit :=
  match headers with
  | h :: ((h' :: _) as rest) =>
      let! n := number_of h in
      let! n' := number_of h' in
      if negb (n' =? u64 (n + 1)) then Err errInvalidVotingChain else check_contiguous rest
  | _ => Ok tt
  end.

Definition apply (s : Snapshot) (headers : list Header) : result CliqueError Snapshot :=
  match headers with
  | [] => Ok s
  | first :: _ =>
      let! _ := check_contiguous headers in
      let! n := number_of first in
      if negb (n =? u64 (SnapNumber s + 1)) then Err errInvalidVotingChain
      else
        let! snap := apply_headers headers s in
        Ok (mkSnapshot (Epoch snap) (u64 (SnapNumber snap + zlen headers)) (Hash (List.last headers first))
              (Signers snap) (Recents snap) (Votes snap) (Tallies snap))
  end.

End Apply.

(** [signers]: the signers in ascending order. *)
Definition signers (s : Snapshot) : list Z := merge_sort Z.le (elements (Signers s)).

(** The loop that looks for the signer's place. *)
Fixpoint offset_of (signer : Z) (l : list Z) : Z :=
  match l with
  | [] => 0
  | x :: l => if x =? signer then 0 else 1 + offset_of signer l
  end.

(** [inturn]: without signers the remainder panics. *)
Definition inturn (s : Snapshot) (number signer : Z) : option bool :=
  let sigs := signers s in
  if zlen sigs =? 0 then None else Some (number mod zlen sigs =? offset_of signer sigs).
