(* ===== verification/CliqueVotes.v ===== *)
(** The voting of consensus/clique/snapshot.go is right: the tally is a cache
    of the votes, every vote is of a present signer and would change
    something, signers change by a majority, and nobody signs twice in a row. *)
From stdpp Require Import gmap sorting.
From S2P Require Import Prelude GoMath BlockHeader CliqueSnapshot.

(** * The tally as a function of the votes *)
Definition votes_on (a : Z) (votes : list Vote) : list Vote := List.filter (fun v => Address v =? a) votes.
Definition is_signer (signers : gset Z) (a : Z) : bool := bool_decide (a ∈ signers).

Definition tally_for (signers : gset Z) (votes : list Vote) (a : Z) : option Tally :=
  if zlen (votes_on a votes) =? 0 then None
  else Some (mkTally (negb (is_signer signers a)) (zlen (votes_on a votes))).

Definition cached (signers : gset Z) (votes : list Vote) (tallies : gmap Z Tally) : Prop :=
  forall a, tallies !! a = tally_for signers votes a.

(** A vote counts when it would change the signers. *)
Definition sensible (signers : gset Z) (v : Vote) : Prop := Authorize v = negb (is_signer signers (Address v)).

Record votes_ok (signers : gset Z) (votes : list Vote) (tallies : gmap Z Tally) : Prop := {
  ok_cached : cached signers votes tallies;
  ok_sensible : Forall (sensible signers) votes;
  ok_voters : Forall (fun v => Signer v ∈ signers) votes;
  ok_once : NoDup (map (fun v => (Signer v, Address v)) votes)
}.

Lemma votes_on_app a v w : votes_on a (v ++ w) = votes_on a v ++ votes_on a w.
Proof. apply List.filter_app. Qed.

Lemma votes_on_cons a v w : votes_on a (v :: w) = if Address v =? a then v :: votes_on a w else votes_on a w.
Proof. reflexivity. Qed.

Lemma tally_for_perm signers v w a : v ≡ₚ w -> tally_for signers v a = tally_for signers w a.
Proof.
  intros H. assert (zlen (votes_on a v) = zlen (votes_on a w)) as E; [|unfold tally_for; by rewrite E].
  unfold zlen. f_equal. apply Permutation_length. induction H as [|x v w _ IH|x y v|v w u _ IH1 _ IH2]; rewrite ?votes_on_cons.
  - done.
  - case_if; [by f_equiv|done].
  - repeat case_if; try done. apply perm_swap.
  - by etransitivity.
Qed.

Lemma cached_perm signers v w t : v ≡ₚ w -> cached signers v t -> cached signers w t.
Proof. intros H Hc a. rewrite Hc. by apply tally_for_perm. Qed.

Lemma tally_for_cons signers v w a :
  tally_for signers (v :: w) a =
  if Address v =? a then Some (mkTally (negb (is_signer signers a)) (zlen (votes_on a w) + 1)) else tally_for signers w a.
Proof.
  unfold tally_for. rewrite votes_on_cons. destruct (Address v =? a); [|done]. rewrite zlen_cons. pose proof (zlen_nonneg (votes_on a w)).
  replace (1 + zlen (votes_on a w) =? 0) with false by lia. do 2 f_equal. lia.
Qed.

Lemma uncast_cached signers v w s :
  cached signers (v :: w) (Tallies s) -> sensible signers v ->
  exists t, (uncast (Address v) (Authorize v) s).1 = set_Tallies t s /\ cached signers w t.
Proof.
  intros Hc Hv. unfold uncast. pose proof (Hc (Address v)) as Ha. rewrite tally_for_cons, Z.eqb_refl in Ha. rewrite Ha. cbn.
  rewrite Hv, eqb_reflx. cbn. pose proof (zlen_nonneg (votes_on (Address v) w)).
  assert (Hw : forall a, tally_for signers (v :: w) a = if Address v =? a then
    Some (mkTally (negb (is_signer signers a)) (zlen (votes_on a w) + 1)) else tally_for signers w a) by apply tally_for_cons.
  case_if; eexists; (split; [reflexivity|]); intros a; specialize (Hc a); rewrite Hw in Hc.
  - destruct (Z.eqb_spec (Address v) a) as [Ea|Ea]; [subst a|by rewrite lookup_insert_ne].
    rewrite lookup_insert_eq. unfold tally_for. replace (zlen _ =? 0) with false by lia. do 2 f_equal. lia.
  - destruct (Z.eqb_spec (Address v) a) as [Ea|Ea]; [subst a|by rewrite lookup_delete_ne].
    rewrite lookup_delete_eq. unfold tally_for. by replace (zlen _ =? 0) with true by lia.
Qed.

Lemma cast_cached votes s v s' ok :
  cached (Signers s) votes (Tallies s) -> cast (Address v) (Authorize v) s = (s', ok) ->
  if ok then sensible (Signers s) v /\ exists t, s' = set_Tallies t s /\ cached (Signers s) (v :: votes) t
  else s' = s.
Proof.
  intros Hc. unfold cast, validVote. destruct (negb _) eqn:E; intros [= <- <-]; [done|].
  assert (Hv : sensible (Signers s) v).
  { unfold sensible, is_signer. by destruct (bool_decide _), (Authorize v). }
  split; [done|]. eexists. split; [reflexivity|]. intros a. rewrite tally_for_cons.
  destruct (Z.eqb_spec (Address v) a) as [Ea|Ea]; [subst a|by rewrite lookup_insert_ne].
  rewrite lookup_insert_eq, Hc. unfold tally_for. case_if; [|done]. rewrite E0, Hv. done.
Qed.

(** * The steps of [apply] keep the votes right *)
Lemma NoDup_remove_vote v w votes :
  votes ≡ₚ v :: w -> NoDup (map (fun v => (Signer v, Address v)) votes) ->
  NoDup (map (fun v => (Signer v, Address v)) w) /\
  forall u, u ∈ w -> ~ (Signer u = Signer v /\ Address u = Address v).
Proof.
  intros Hp Hn. rewrite Hp in Hn. apply list.NoDup_cons in Hn as [Hv Hn]. split; [done|].
  intros u Hu [Es Ea]. apply Hv. rewrite <-Es, <-Ea. by apply (list_elem_of_fmap_2 (fun v => (Signer v, Address v))).
Qed.

Lemma votes_ok_remove signers votes v w s :
  votes_ok signers votes (Tallies s) -> votes ≡ₚ v :: w ->
  exists t, (uncast (Address v) (Authorize v) s).1 = set_Tallies t s /\ votes_ok signers w t.
Proof.
  intros [Hc Hs Hv Hn] Hp. rewrite Hp in Hs, Hv. apply Forall_cons_iff in Hs as [Hs0 Hs], Hv as [Hv0 Hv].
  destruct (uncast_cached signers v w s) as (t & Et & Ht); [by eapply cached_perm|done|].
  exists t. split; [done|]. split; [done..|]. by eapply NoDup_remove_vote.
Qed.

Definition no_vote (signer address : Z) (votes : list Vote) : Prop :=
  forall v, v ∈ votes -> ~ (Signer v = signer /\ Address v = address).

Lemma discard_vote_ok signer address s :
  votes_ok (Signers s) (Votes s) (Tallies s) ->
  exists t w, discard_vote signer address s = set_Votes w (set_Tallies t s) /\
    votes_ok (Signers s) w t /\ no_vote signer address w /\ w ⊆ Votes s.
Proof.
  intros Hok. unfold discard_vote. destruct (list_find _ _) as [[i v]|] eqn:E.
  - apply list_find_Some in E as (Hi & [<- <-] & _). pose proof (delete_Permutation _ _ _ Hi) as Hp.
    destruct (votes_ok_remove _ _ _ _ s Hok Hp) as (t & -> & Ht). exists t, (delete i (Votes s)).
    split; [done|]. split; [done|]. split; [exact (proj2 (NoDup_remove_vote _ _ _ Hp (ok_once _ _ _ Hok)))|].
    intros u Hu. rewrite Hp. by right.
  - exists (Tallies s), (Votes s). split; [by destruct s|]. split; [done|]. split; [|done]. intros v Hv.
    apply list_find_None in E. rewrite List.Forall_forall in E. by apply E, list_elem_of_In.
Qed.

Lemma cast_vote_ok signer number address authorize s :
  votes_ok (Signers s) (Votes s) (Tallies s) -> no_vote signer address (Votes s) -> signer ∈ Signers s ->
  exists t w, cast_vote signer number address authorize s = set_Votes w (set_Tallies t s) /\ votes_ok (Signers s) w t /\
    w ⊆ Votes s ++ [mkVote signer number address authorize].
Proof.
  intros [Hc Hs Hv Hn] Hnew Hin. unfold cast_vote.
  destruct (cast address authorize s) as [s' ok] eqn:E.
  apply (cast_cached (Votes s) s (mkVote signer number address authorize)) in E; [|done].
  destruct ok; [|subst s'; exists (Tallies s), (Votes s); split; [by destruct s|split; [done|by apply list_subseteq_app_l]]].
  destruct E as (Hsens & t & -> & Ht). exists t, (Votes s ++ [mkVote signer number address authorize]).
  split; [done|]. split; [|done]. pose proof (Permutation_app_comm (Votes s) [mkVote signer number address authorize]) as Hp.
  split; [by eapply cached_perm; [symmetry|]|..]; rewrite Hp; [by constructor..|].
  constructor; [|done]. intros (v & E & Hv')%list_elem_of_fmap. injection E as E1 E2. by eapply Hnew.
Qed.

Lemma discard_by_ok address signers before votes s kept s' :
  votes_ok signers (before ++ votes) (Tallies s) -> discard_by address votes s = (kept, s') ->
  kept = List.filter (fun v => negb (Signer v =? address)) votes /\
  exists t, s' = set_Tallies t s /\ votes_ok signers (before ++ kept) t.
Proof.
  revert before s kept. induction votes as [|v votes IH]; intros before s kept Hok E; cbn in E |- *.
  { injection E as <- <-. split; [done|]. exists (Tallies s). by destruct s. }
  destruct (Signer v =? address); cbn [negb].
  - destruct (votes_ok_remove _ _ v (before ++ votes) s Hok) as (t & Et & Ht); [by rewrite Permutation_middle|].
    rewrite Et in E. apply IH with (before := before) in E as (-> & t' & -> & Ht'); [|done]. split; [done|]. by exists t'.
  - destruct (discard_by _ _ _) as [rest s1] eqn:E1. injection E as <- <-.
    apply IH with (before := before ++ [v]) in E1 as (-> & t & -> & Ht); [|by rewrite <-app_assoc].
    split; [done|]. exists t. by rewrite <-app_assoc in Ht.
Qed.

Lemma filter_subset (f : Vote -> bool) votes : List.filter f votes ⊆ votes.
Proof. intros v Hv. apply list_elem_of_In, filter_In in Hv as [Hv _]. by apply list_elem_of_In. Qed.

(** When the account [a] changes, the votes on it are forgotten. *)
Lemma votes_ok_change a signers signers' votes tallies :
  votes_ok signers votes tallies -> (forall b, b <> a -> (b ∈ signers' <-> b ∈ signers)) ->
  Forall (fun v => Signer v ∈ signers') votes ->
  votes_ok signers' (List.filter (fun v => negb (Address v =? a)) votes) (delete a tallies).
Proof.
  intros [Hc Hs _ Hn] Hsame Hv.
  assert (Hsub : forall P : Vote -> Prop, Forall P votes -> Forall (fun v => P v /\ Address v <> a)
    (List.filter (fun v => negb (Address v =? a)) votes)).
  { intros P HP. apply List.Forall_forall. intros v [Hin Hv']%filter_In. split; [|lia].
    by apply (proj1 (List.Forall_forall _ _) HP). }
  assert (Hsg : forall b, b <> a -> is_signer signers' b = is_signer signers b).
  { intros b Hb. apply bool_decide_ext. by apply Hsame. }
  split.
  - intros b. destruct (decide (b = a)) as [->|Hb].
    + rewrite lookup_delete_eq. unfold tally_for. replace (votes_on _ _) with (@nil Vote); [done|].
      clear. induction votes as [|v votes IH]; [done|]. cbn. destruct (Address v =? a) eqn:E; cbn; [done|]. by rewrite E.
    + rewrite lookup_delete_ne, Hc by done. unfold tally_for. rewrite Hsg by done.
      replace (votes_on b (List.filter _ votes)) with (votes_on b votes); [done|].
      clear -Hb. induction votes as [|v votes IH]; [done|]. cbn. destruct (Z.eqb_spec (Address v) b), (Z.eqb_spec (Address v) a);
        cbn; [lia|rewrite (proj2 (Z.eqb_eq _ _)) by done; by f_equal|done|by rewrite (proj2 (Z.eqb_neq _ _)) by done].
  - eapply List.Forall_impl; [|apply (Hsub _ Hs)]. intros v [Hv' Ha]. unfold sensible in *. by rewrite Hsg.
  - eapply List.Forall_impl; [|apply (Hsub _ Hv)]. by intros v [? _].
  - clear -Hn. induction votes as [|v votes IH]; [constructor|]. apply list.NoDup_cons in Hn as [Hv Hn]. cbn.
    destruct (negb _); [|by apply IH]. cbn. constructor; [|by apply IH]. intros (u & E & Hu)%list_elem_of_fmap.
    apply Hv. rewrite E. apply (list_elem_of_fmap_2 (fun v => (Signer v, Address v))).
    apply list_elem_of_In, filter_In in Hu as [Hu _]. by apply list_elem_of_In.
Qed.

(** The signers who voted on [a], which are as many as the votes on it. *)
Definition voters (a : Z) (votes : list Vote) : gset Z := list_to_set (map Signer (votes_on a votes)).

Lemma voters_size signers votes tallies a :
  votes_ok signers votes tallies -> Z.of_nat (size (voters a votes)) = zlen (votes_on a votes) /\ voters a votes ⊆ signers.
Proof.
  intros [_ _ Hv Hn]. split.
  - unfold voters, zlen. rewrite size_list_to_set, length_map; [done|].
    clear -Hn. induction votes as [|v votes IH]; [constructor|]. apply list.NoDup_cons in Hn as [Hv Hn]. cbn.
    destruct (Z.eqb_spec (Address v) a) as [<-|]; [|by apply IH]. cbn. constructor; [|by apply IH].
    intros (u & E & Hu)%list_elem_of_fmap. apply Hv. apply list_elem_of_In, filter_In in Hu as [Hu Ha].
    apply Z.eqb_eq in Ha. rewrite E, <-Ha. apply (list_elem_of_fmap_2 (fun v => (Signer v, Address v))). by apply list_elem_of_In.
  - intros x. unfold voters. rewrite elem_of_list_to_set. intros (v & -> & Hin)%list_elem_of_fmap.
    apply list_elem_of_In, filter_In in Hin as [Hin _]. by apply (proj1 (List.Forall_forall _ _) Hv).
Qed.

(** * Recent signers *)

(** Only the signers of the last [signer_limit] blocks are kept, each once. *)
Record recents_ok (number : Z) (s : Snapshot) : Prop := {
  recents_window k x : Recents s !! k = Some x -> 0 <= k <= number /\ number < k + signer_limit s;
  recents_once k k' x : Recents s !! k = Some x -> Recents s !! k' = Some x -> k = k'
}.

Lemma signer_limit_pos s : 1 <= signer_limit s.
Proof. unfold signer_limit, signers_len. pose proof (Z.div_pos (Z.of_nat (size (Signers s))) 2). lia. Qed.

Lemma signer_limit_mono s t : Signers s ⊆ Signers t -> signer_limit s <= signer_limit t.
Proof.
  intros H. unfold signer_limit, signers_len. apply Z.add_le_mono_r, Z.div_le_mono; [done|].
  pose proof (subseteq_size _ _ H). lia.
Qed.

Lemma recently_signed_spec s signer : recently_signed s signer = true <-> exists k, Recents s !! k = Some signer.
Proof.
  unfold recently_signed. rewrite existsb_exists. split.
  - intros ([k x] & Hin & E). cbn in E. apply Z.eqb_eq in E as ->. exists k. by apply elem_of_map_to_list, list_elem_of_In.
  - intros [k Hk]. exists (k, signer). split; [by apply list_elem_of_In, elem_of_map_to_list|apply Z.eqb_refl].
Qed.

Lemma shift_recents_lookup number s k :
  Recents (shift_recents number s) !! k = if k + signer_limit s =? number then
    (if signer_limit s <=? number then None else Recents s !! k) else Recents s !! k.
Proof.
  unfold shift_recents. destruct (signer_limit s <=? number) eqn:E; cbn; [|by case_if].
  case_if; [replace (number - signer_limit s) with k by lia; by rewrite lookup_delete_eq|].
  rewrite lookup_delete_ne; [done|lia].
Qed.

Lemma shift_recents_ok number s :
  recents_ok (number - 1) s -> 0 <= number ->
  forall k x, Recents (shift_recents number s) !! k = Some x ->
  Recents s !! k = Some x /\ 0 <= k < number /\ number < k + signer_limit s.
Proof.
  intros [Hw _] Hn k x. rewrite shift_recents_lookup. pose proof (Hw k x) as Hk.
  destruct (k + signer_limit s =? number) eqn:E1; simp_bool.
  - case_if; [done|]. intros Hx. apply Hk in Hx as ?. lia.
  - intros Hx. apply Hk in Hx as ?. split; [done|]. lia.
Qed.

Lemma check_signer_ok number signer s s' :
  recents_ok (number - 1) s -> 0 <= number -> check_signer number signer (shift_recents number s) = Ok s' ->
  signer ∈ Signers s /\ recents_ok number s' /\
  (forall k, Recents (shift_recents number s) !! k <> Some signer) /\
  s' = set_Recents (<[number := signer]> (Recents (shift_recents number s))) s.
Proof.
  intros Hr Hn. unfold check_signer.
  assert (Es : Signers (shift_recents number s) = Signers s) by (unfold shift_recents; by case_if). rewrite Es.
  destruct (bool_decide _) eqn:Hin; cbn; [|done]. apply bool_decide_eq_true in Hin.
  destruct (recently_signed _ _) eqn:Hrec; [done|]. intros [= <-].
  assert (Hno : forall k, Recents (shift_recents number s) !! k <> Some signer).
  { intros k Hk. assert (recently_signed (shift_recents number s) signer = true); [|congruence].
    apply recently_signed_spec. by exists k. }
  pose proof (shift_recents_ok number s Hr Hn) as Hsh. pose proof (signer_limit_pos s).
  split; [done|]. split; [|split; [done|unfold shift_recents; by case_if]].
  split; cbn; [intros k x|intros k k' x]; rewrite !lookup_insert.
  - change (signer_limit (set_Recents ?r ?t)) with (signer_limit t).
    replace (signer_limit (shift_recents number s)) with (signer_limit s) by (unfold signer_limit, signers_len; by rewrite Es).
    case_decide; [intros _; lia|]. intros Hx. apply Hsh in Hx. lia.
  - destruct Hr as [_ Ho]. repeat case_decide; subst; try done.
    + intros [= <-] Hk. by apply Hno in Hk.
    + intros Hk [= <-]. by apply Hno in Hk.
    + intros Hk Hk'. apply Hsh in Hk as [Hk _], Hk' as [Hk' _]. by eapply Ho.
Qed.

(** * A vote that passes *)

(** The signers change only on the account [a], by a majority of [electors]. *)
Definition changed_by (a : Z) (electors : gset Z) (old new : gset Z) : Prop :=
  electors ⊆ old /\ (size old < 2 * size electors)%nat /\ new = if is_signer old a then old ∖ {[a]} else {[a]} ∪ old.

Lemma size_drop (a : Z) (x : gset Z) : (size (x ∖ {[a]}) <= size x <= size (x ∖ {[a]}) + 1)%nat.
Proof.
  split; [apply subseteq_size; set_solver|]. etransitivity; [apply (subseteq_size x ({[a]} ∪ x ∖ {[a]}))|].
  - intros b Hb. destruct (decide (b = a)); set_solver.
  - pose proof (size_union_alt {[a]} (x ∖ {[a]})) as E. rewrite E, size_singleton.
    pose proof (subseteq_size (x ∖ {[a]} ∖ {[a]}) (x ∖ {[a]}) ltac:(set_solver)). lia.
Qed.

Lemma drop_signer_ok number a s :
  votes_ok (Signers s) (Votes s) (Tallies s) -> recents_ok number s ->
  exists t w r, drop_signer number a s = mkSnapshot (Epoch s) (SnapNumber s) (SnapHash s) (Signers s ∖ {[a]}) r w t /\
    votes_ok (Signers s) w t /\ Forall (fun v => Signer v <> a) w /\ w ⊆ Votes s /\ recents_ok number (drop_signer number a s) /\
    forall k, r !! k = Recents s !! k \/ k + signer_limit (drop_signer number a s) = number.
Proof.
  intros Hok [Hw Ho]. unfold drop_signer. set (s1 := set_Signers (Signers s ∖ {[a]}) s).
  assert (E1 : exists r, shift_recents number s1 = set_Recents r s1) by (unfold shift_recents; case_if; [by eexists|exists (Recents s1); done]).
  destruct E1 as [r E1]. rewrite E1. cbn.
  destruct (discard_by _ _ _) as [kept s2] eqn:E2.
  eapply (discard_by_ok a (Signers s) []) in E2 as (-> & t & -> & Ht); [|done]. cbn in *.
  exists t, (List.filter (fun v => negb (Signer v =? a)) (Votes s)), r. split; [done|]. split; [done|].
  split; [apply List.Forall_forall; intros v [_ Hv]%filter_In; lia|]. split; [apply filter_subset|].
  assert (Hlim : signer_limit s <= signer_limit s1 + 1 /\ signer_limit s1 <= signer_limit s).
  { unfold signer_limit, signers_len. cbn. pose proof (size_drop a (Signers s)). split.
    - transitivity ((Z.of_nat (size (Signers s ∖ {[a]})) + 1 * 2) / 2 + 1); [|rewrite Z.div_add; lia].
      apply Z.add_le_mono_r, Z.div_le_mono; lia.
    - apply (signer_limit_mono s1 s). cbn. set_solver. }
  pose proof (shift_recents_lookup number s1) as Hl. rewrite E1 in Hl. cbn in Hl. pose proof (signer_limit_pos s1).
  change (signer_limit (set_Votes _ _)) with (signer_limit s1). split.
  - split; cbn; [intros k x|intros k k' x]; rewrite !Hl; change (signer_limit (set_Votes _ _)) with (signer_limit s1).
    + intros Hx. assert (Hx' : Recents s !! k = Some x) by (repeat case_if_in Hx; done). pose proof (Hw k x Hx').
      repeat case_if_in Hx; [done|lia|lia].
    + intros Hx Hx'. apply (Ho k k' x); [repeat case_if_in Hx; done|repeat case_if_in Hx'; done].
  - intros k. rewrite Hl. case_if; [by right|by left].
Qed.

Lemma pass_vote_ok number a s :
  votes_ok (Signers s) (Votes s) (Tallies s) -> recents_ok number s ->
  let s' := pass_vote number a s in
  votes_ok (Signers s') (Votes s') (Tallies s') /\ recents_ok number s' /\ Epoch s' = Epoch s /\ SnapNumber s' = SnapNumber s /\
  (Signers s' = Signers s \/ changed_by a (voters a (Votes s)) (Signers s) (Signers s')) /\
  Votes s' ⊆ Votes s /\
  forall k, Recents s' !! k = Recents s !! k \/ k + signer_limit s' = number.
Proof.
  intros Hok Hr. cbn zeta. unfold pass_vote. rewrite (ok_cached _ _ _ Hok a). unfold tally_for.
  destruct (voters_size _ _ _ a Hok) as [Hsz Hsub]. pose proof (Z.div_pos (signers_len s) 2) as Hpos. unfold signers_len in *.
  destruct (zlen (votes_on a (Votes s)) =? 0) eqn:E0; cbn [default Tally_Votes Tally_Authorize from_option id].
  { replace (_ <? 0) with false by lia. split_and!; auto. }
  case_if; [|split_and!; auto]. cbn.
  assert (Hmaj : (size (Signers s) < 2 * size (voters a (Votes s)))%nat).
  { pose proof (Z.div_mod (Z.of_nat (size (Signers s))) 2). pose proof (Z.mod_pos_bound (Z.of_nat (size (Signers s))) 2). lia. }
  destruct (is_signer (Signers s) a) eqn:Hs; cbn [negb].
  - destruct (drop_signer_ok number a s Hok Hr) as (t & w & r & Ed & Ht & Hw & Hww & Hrd & Hk). rewrite Ed in *. cbn in *.
    split_and!; try done.
    + apply (votes_ok_change a (Signers s)); [done|set_solver|].
      apply List.Forall_forall. intros v Hv. pose proof (proj1 (List.Forall_forall _ _) Hw v Hv).
      pose proof (proj1 (List.Forall_forall _ _) (ok_voters _ _ _ Ht) v Hv). set_solver.
    + destruct Hrd as [H1 H2]. by split.
    + right. unfold changed_by. by rewrite Hs.
    + etransitivity; [apply filter_subset|done].
  - cbn. split_and!; try done.
    + apply (votes_ok_change a (Signers s)); [done|set_solver|].
      eapply List.Forall_impl; [|apply (ok_voters _ _ _ Hok)]. set_solver.
    + destruct Hr as [Hw Ho]. split; [|done]. intros k x Hx. cbn in Hx. apply Hw in Hx as ?.
      match goal with |- _ /\ _ < _ + signer_limit ?t =>
        assert (signer_limit s <= signer_limit t) by (apply signer_limit_mono; cbn; set_solver) end. lia.
    + right. unfold changed_by. by rewrite Hs.
    + apply filter_subset.
    + auto.
Qed.
