(* ===== verification/CliqueCorrect.v ===== *)
(** What the snapshots of consensus/clique/snapshot.go guarantee of a chain of
    headers: the well-formedness of the voting state, changes by majority,
    the distance between two blocks of one signer, and the signer in turn. *)
From stdpp Require Import gmap sorting.
From S2P Require Import Prelude GoMath BlockHeader CliqueSnapshot CliqueVotes.

Record snapshot_ok (number : Z) (s : Snapshot) : Prop := {
  snap_votes : votes_ok (Signers s) (Votes s) (Tallies s);
  snap_recents : recents_ok number s;
  snap_epoch : 0 < Epoch s
}.

Lemma votes_ok_empty signers : votes_ok signers [] ∅.
Proof. split; [|constructor..]. intros a. apply lookup_empty. Qed.

Lemma newSnapshot_ok epoch number hash signers : 0 < epoch -> snapshot_ok number (newSnapshot epoch number hash signers).
Proof.
  intros He. split; [apply votes_ok_empty| |done]. split; intros k; cbn; by rewrite lookup_empty.
Qed.

Lemma clear_votes_ok number s n :
  snapshot_ok n s -> exists s', clear_votes number s = Ok s' /\ snapshot_ok n s' /\ Signers s' = Signers s /\
    Recents s' = Recents s /\ Epoch s' = Epoch s /\ SnapNumber s' = SnapNumber s /\ Votes s' ⊆ Votes s.
Proof.
  intros Hok. pose proof Hok as [Hv Hr He]. unfold clear_votes. replace (Epoch s =? 0) with false by lia. eexists. split; [done|].
  case_if; [|by split_and!]. split_and!; try done; [|apply list_subseteq_nil].
  split; [apply votes_ok_empty|destruct Hr; by split|done].
Qed.

Section Chain.
Context (ecrecover : Header -> result CliqueError Z) (Hash : Header -> Z).

(** The vote the header casts when [signer] signed it. *)
Definition cast_by (h : Header) (signer : Z) (v : Vote) : Prop :=
  Signer v = signer /\ Address v = Coinbase h /\ vote_of (Nonce h) = Ok (Authorize v).

(** Who signed the header, and what it did to the snapshot. *)
Record applied (number : Z) (h : Header) (s s' : Snapshot) (signer : Z) : Prop := {
  applied_signer : ecrecover h = Ok signer;
  applied_authorized : signer ∈ Signers s;
  applied_recent : Recents s' !! number = Some signer;
  applied_kept k x : Recents s !! k = Some x -> number < k + signer_limit s -> number < k + signer_limit s' ->
    Recents s' !! k = Some x /\ x <> signer;
  applied_votes v : v ∈ Votes s' -> v ∈ Votes s \/ cast_by h signer v;
  applied_change : Signers s' = Signers s \/
    exists electors, changed_by (Coinbase h) electors (Signers s) (Signers s') /\
      forall e, e ∈ electors -> exists v, Signer v = e /\ Address v = Coinbase h /\ sensible (Signers s) v /\
        (v ∈ Votes s \/ cast_by h signer v)
}.

Lemma voters_elem a votes e : e ∈ voters a votes <-> exists v, v ∈ votes /\ Signer v = e /\ Address v = a.
Proof.
  unfold voters. rewrite elem_of_list_to_set. split.
  - intros (v & -> & Hin)%list_elem_of_fmap. apply list_elem_of_In, filter_In in Hin as [Hin Ha].
    exists v. split; [by apply list_elem_of_In|]. split; [done|lia].
  - intros (v & Hin & <- & <-). apply list_elem_of_fmap_2. apply list_elem_of_In, filter_In.
    split; [by apply list_elem_of_In|apply Z.eqb_refl].
Qed.

Lemma apply_header_ok number h s s' :
  snapshot_ok (number - 1) s -> 0 <= number -> number_of h = @Ok CliqueError _ number -> apply_header ecrecover h s = Ok s' ->
  snapshot_ok number s' /\ SnapNumber s' = SnapNumber s /\ Epoch s' = Epoch s /\ exists signer, applied number h s s' signer.
Proof.
  intros Hok Hn Hnum. unfold apply_header. rewrite Hnum. cbn [rbind].
  destruct (clear_votes_ok number s _ Hok) as (s1 & -> & [Hv1 Hr1 He1] & Es1 & Er1 & Ee1 & En1 & Hv). cbn [rbind].
  destruct (ecrecover h) as [signer| |] eqn:Hsig; cbn [rbind]; [|done..].
  destruct (check_signer _ _ _) as [s2| |] eqn:Hchk; cbn [rbind]; [|done..].
  apply check_signer_ok in Hchk as (Hin & Hr2 & Hno & E2); [|done..].
  destruct (discard_vote_ok signer (Coinbase h) s2) as (t3 & w3 & E3 & Hv3 & Hnew & Hw3); [by subst s2|].
  rewrite E3. destruct (vote_of _) as [authorize| |] eqn:Hvote; cbn [rbind]; [|done..]. intros [= <-].
  destruct (cast_vote_ok signer number (Coinbase h) authorize (set_Votes w3 (set_Tallies t3 s2))) as (t4 & w4 & E4 & Hv4 & Hw4);
    [done|done|by subst s2|]. rewrite E4. set (s4 := set_Votes w4 _) in *.
  assert (Hr4 : recents_ok number s4) by (destruct Hr2; by split).
  destruct (pass_vote_ok number (Coinbase h) s4) as (Hv5 & Hr5 & He5 & Hn5 & Hc5 & Hw5 & Hk5); [done..|].
  assert (Hrec4 : Recents s4 = <[number := signer]> (Recents (shift_recents number s1))) by (by subst s4 s2).
  assert (Es4 : Signers s4 = Signers s) by (subst s4 s2; by cbn).
  split; [split; [done|done|rewrite He5; subst s4 s2; by cbn]|]. split; [rewrite Hn5; subst s4 s2; by cbn|].
  split; [rewrite He5; subst s4 s2; by cbn|]. exists signer.
  assert (Hcast : forall v, v ∈ w4 -> v ∈ Votes s \/ cast_by h signer v).
  { intros v [Hv'|Hv']%Hw4%elem_of_app; [left; apply Hw3 in Hv'; subst s2; by apply Hv|].
    apply list_elem_of_singleton in Hv' as ->. by right. }
  split; [done|by rewrite <-Es1| | | |].
  - destruct (Hk5 number) as [->|]; [by rewrite Hrec4, lookup_insert_eq|].
    pose proof (signer_limit_pos (pass_vote number (Coinbase h) s4)). lia.
  - intros k x Hk Hlim Hlim'. pose proof Hok as [_ [Hwin _] _]. pose proof (Hwin k x Hk).
    assert (Hsh : Recents (shift_recents number s1) !! k = Some x).
    { rewrite shift_recents_lookup, Er1, Hk. replace (signer_limit s1) with (signer_limit s)
        by (unfold signer_limit, signers_len; by rewrite Es1). by replace (_ =? number) with false by lia. }
    split; [|intros ->; by eapply Hno].
    destruct (Hk5 k) as [->|]; [|lia]. by rewrite Hrec4, lookup_insert_ne by lia.
  - intros v Hv'. by apply Hcast, Hw5.
  - rewrite Es4 in Hc5. destruct Hc5 as [|Hc5]; [by left|right]. eexists. split; [done|].
    intros e (v & Hv' & <- & Ha)%voters_elem. exists v. split_and!; [done..| |by apply Hcast].
    rewrite <-Es4. by apply (proj1 (List.Forall_forall _ _) (ok_sensible _ _ _ Hv4)), list_elem_of_In.
Qed.

(** * Chains of headers *)
Lemma apply_headers_app l1 l2 s :
  apply_headers ecrecover (l1 ++ l2) s = rbind (apply_headers ecrecover l1 s) (apply_headers ecrecover l2).
Proof. revert s. induction l1 as [|h l1 IH]; intros s; cbn; [done|]. destruct (apply_header _ _ _); cbn; [apply IH|done..]. Qed.

Definition numbered (n : Z) (headers : list Header) : Prop :=
  forall i h, headers !! i = Some h -> number_of h = @Ok CliqueError _ (n + Z.of_nat i).

Lemma check_contiguous_cons h h' headers :
  check_contiguous (h :: h' :: headers) =
  rbind (number_of h) (fun n => rbind (number_of h') (fun n' =>
    if negb (n' =? u64 (n + 1)) then Err errInvalidVotingChain else check_contiguous (h' :: headers))).
Proof. reflexivity. Qed.

Lemma check_contiguous_ok n headers h :
  check_contiguous headers = Ok tt -> headers !! 0%nat = Some h -> number_of h = @Ok CliqueError _ n ->
  0 <= n -> n + zlen headers <= 2 ^ 64 -> numbered n headers.
Proof.
  revert n h. induction headers as [|h0 headers IH]; intros n h Hc [= ->] Hn H0 Hlen.
  intros [|i] h' Hi; [injection Hi as <-; by rewrite Z.add_0_r|]. cbn in Hi.
  destruct headers as [|h1 headers]; [done|]. rewrite check_contiguous_cons, Hn in Hc. cbn [rbind] in Hc.
  rewrite !zlen_cons in Hlen. pose proof (zlen_nonneg headers).
  destruct (number_of h1) as [n1| |] eqn:H1; cbn [rbind] in Hc; [|done..]. case_if_in Hc; [done|].
  rewrite u64_small in E by (split; lia). subst n1.
  rewrite (IH (n + 1) h1 Hc eq_refl H1 ltac:(lia) ltac:(rewrite zlen_cons; lia) i h' Hi). f_equal. lia.
Qed.

Lemma apply_inv s headers s' :
  0 <= SnapNumber s -> SnapNumber s + zlen headers < 2 ^ 64 -> apply ecrecover Hash s headers = Ok s' ->
  numbered (SnapNumber s + 1) headers /\
  exists t, apply_headers ecrecover headers s = Ok t /\ Signers s' = Signers t /\ Recents s' = Recents t /\
    Votes s' = Votes t /\ Tallies s' = Tallies t /\ Epoch s' = Epoch t /\
    (headers <> [] -> SnapNumber s' = u64 (SnapNumber t + zlen headers)) /\ (headers = [] -> s' = s).
Proof.
  intros H0 Hlen. destruct headers as [|h headers].
  { intros [= <-]. split; [by intros i ?|]. by exists s. }
  unfold apply. rewrite zlen_cons in Hlen. pose proof (zlen_nonneg headers).
  destruct (check_contiguous _) as [[]| |] eqn:Hc; cbn [rbind]; [|done..].
  destruct (number_of h) as [n| |] eqn:Hn; cbn [rbind]; [|done..].
  destruct (negb _) eqn:E; [done|]. simp_bool. rewrite u64_small in E by (split; lia). subst n.
  destruct (apply_headers _ _ _) as [t| |] eqn:Ht; cbn [rbind]; [|done..]. intros [= <-].
  split; [apply (check_contiguous_ok _ _ h); [done..|lia|rewrite zlen_cons; lia]|].
  exists t. by split_and!.
Qed.

(** Every prefix of a chain that is applied leaves a well-formed snapshot. *)
Lemma prefix_ok n headers s t k :
  snapshot_ok n s -> 0 <= n -> numbered (n + 1) headers -> apply_headers ecrecover headers s = Ok t ->
  (k <= length headers)%nat ->
  exists u, apply_headers ecrecover (take k headers) s = Ok u /\ snapshot_ok (n + Z.of_nat k) u /\
    SnapNumber u = SnapNumber s /\ Epoch u = Epoch s.
Proof.
  intros Hs Hn Hnum Ht. induction k as [|k IH]; intros Hk; [exists s; by rewrite Z.add_0_r|].
  destruct IH as (u & Hu & Hok & Hnu & Heu); [lia|].
  destruct (lookup_lt_is_Some_2 headers k) as [h Hh]; [lia|].
  rewrite (take_S_r _ _ h), apply_headers_app, Hu by done. cbn [rbind apply_headers].
  rewrite <-(take_drop_middle headers k h Hh), apply_headers_app, Hu in Ht. cbn [rbind apply_headers] in Ht.
  destruct (apply_header ecrecover h u) as [u'| |] eqn:Hu'; [|done..]. cbn [rbind].
  apply (apply_header_ok (n + Z.of_nat (S k))) in Hu' as (Hok' & ? & ? & _); [|by replace (_ - 1) with (n + Z.of_nat k) by lia|lia|].
  - exists u'. split; [done|]. split; [done|]. split; congruence.
  - rewrite (Hnum _ _ Hh). f_equal. lia.
Qed.

Lemma step_at n headers s t k h :
  snapshot_ok n s -> 0 <= n -> numbered (n + 1) headers -> apply_headers ecrecover headers s = Ok t ->
  headers !! k = Some h ->
  exists u u' signer, apply_headers ecrecover (take k headers) s = Ok u /\
    apply_headers ecrecover (take (S k) headers) s = Ok u' /\ snapshot_ok (n + Z.of_nat k) u /\
    applied (n + 1 + Z.of_nat k) h u u' signer.
Proof.
  intros Hs Hn Hnum Ht Hh. pose proof (lookup_lt_Some _ _ _ Hh).
  destruct (prefix_ok n headers s t k) as (u & Hu & Hok & _); [done..|lia|].
  destruct (prefix_ok n headers s t (S k)) as (u' & Hu' & _); [done..|].
  exists u, u'. pose proof Hu' as Hstep. rewrite (take_S_r _ _ h), apply_headers_app, Hu in Hstep by done. cbn in Hstep.
  destruct (apply_header ecrecover h u) as [v| |] eqn:Hv; cbn in Hstep; [|done..]. injection Hstep as ->.
  apply (apply_header_ok (n + 1 + Z.of_nat k)) in Hv as (_ & _ & _ & signer & Ha);
    [by exists signer|by replace (_ - 1) with (n + Z.of_nat k) by lia|lia|]. by apply Hnum.
Qed.

Lemma apply_ok s headers s' :
  snapshot_ok (SnapNumber s) s -> 0 <= SnapNumber s -> SnapNumber s + zlen headers < 2 ^ 64 ->
  apply ecrecover Hash s headers = Ok s' ->
  snapshot_ok (SnapNumber s') s' /\ SnapNumber s' = SnapNumber s + zlen headers.
Proof.
  intros Hok H0 Hlen Ha. pose proof (zlen_nonneg headers).
  apply apply_inv in Ha as (Hnum & t & Ht & Es & Er & Ev & Et & Ee & En & Enil); [|done..].
  destruct (prefix_ok _ _ _ _ (length headers) Hok H0 Hnum Ht) as (u & Hu & [Hv Hr He] & Hnu & Heu); [done|].
  rewrite take_ge, Ht in Hu by done. injection Hu as <-.
  assert (En' : SnapNumber s' = SnapNumber s + zlen headers).
  { destruct headers; [rewrite Enil by done; rewrite zlen_nil; lia|].
    rewrite En, Hnu, u64_small by done || (split; lia). done. }
  split; [|done]. rewrite En'. split; [by rewrite Es, Ev, Et| |by rewrite Ee].
  destruct Hr as [H1 H2]. split; intros k; rewrite Er; [|apply H2].
  intros x Hx. unfold signer_limit, signers_len in *. rewrite Es. apply (H1 k x Hx).
Qed.

(** Applying headers to a well-formed snapshot leaves a well-formed one:
    the tally of an account counts exactly the votes on it, every counted vote
    is of a present signer, would change something and is the signer's only
    one on the account, and the recent signers are those of the last blocks,
    each once. The genesis snapshot is well-formed. *)
Theorem apply_keeps_snapshot s headers s' :
  snapshot_ok (SnapNumber s) s -> 0 <= SnapNumber s -> SnapNumber s + zlen headers < 2 ^ 64 ->
  apply ecrecover Hash s headers = Ok s' ->
  snapshot_ok (SnapNumber s') s' /\ SnapNumber s' = SnapNumber s + zlen headers /\
  forall epoch number hash signers, 0 < epoch -> snapshot_ok number (newSnapshot epoch number hash signers).
Proof.
  intros Hok H0 Hlen Ha. destruct (apply_ok _ _ _ Hok H0 Hlen Ha) as [Hok' Hn].
  split; [done|]. split; [done|apply newSnapshot_ok].
Qed.

(** A header of the first [k] casts the vote. *)
Definition cast_in (headers : list Header) (k : nat) (v : Vote) : Prop :=
  exists i h, (i < k)%nat /\ headers !! i = Some h /\ ecrecover h = Ok (Signer v) /\ cast_by h (Signer v) v.

Lemma votes_from_chain n headers s t k u v :
  snapshot_ok n s -> 0 <= n -> numbered (n + 1) headers -> apply_headers ecrecover headers s = Ok t -> Votes s = [] ->
  (k <= length headers)%nat -> apply_headers ecrecover (take k headers) s = Ok u -> v ∈ Votes u -> cast_in headers k v.
Proof.
  intros Hs Hn Hnum Ht Hv0. revert u v. induction k as [|k IH]; intros u v Hk Hu Hv.
  { injection Hu as <-. rewrite Hv0 in Hv. by apply list.not_elem_of_nil in Hv. }
  destruct (lookup_lt_is_Some_2 headers k) as [h Hh]; [lia|].
  destruct (step_at n headers s t k h) as (u0 & u1 & signer & Hu0 & Hu1 & _ & Ha); [done..|].
  rewrite Hu in Hu1. injection Hu1 as <-. destruct (applied_votes _ _ _ _ _ Ha v Hv) as [Hv'|Hv'].
  - destruct (IH u0 v) as (i & h' & Hi & Hrest); [lia|done..|]. exists i, h'. split; [lia|done].
  - exists k, h. pose proof Hv' as [-> _]. split; [lia|]. split; [done|]. split; [apply Ha|done].
Qed.

(** C21: The set of signers changes only by a majority. Take a chain that is
    applied to a well-formed snapshot without open votes, as at genesis: every
    header is signed by one of the signers at that point, and when the header
    changes the signers, it adds or removes just the account it votes on, and
    more than half of the signers have each signed a header of the chain, up
    to this one, that votes for that change. *)
Theorem signers_change_by_majority s headers s' :
  snapshot_ok (SnapNumber s) s -> 0 <= SnapNumber s -> SnapNumber s + zlen headers < 2 ^ 64 -> Votes s = [] ->
  apply ecrecover Hash s headers = Ok s' ->
  forall k h, headers !! k = Some h ->
  exists u u' signer, apply_headers ecrecover (take k headers) s = Ok u /\
    apply_headers ecrecover (take (S k) headers) s = Ok u' /\ ecrecover h = Ok signer /\ signer ∈ Signers u /\
    (Signers u' = Signers u \/
     let a := Coinbase h in
     Signers u' = (if bool_decide (a ∈ Signers u) then Signers u ∖ {[a]} else {[a]} ∪ Signers u) /\
     exists electors, electors ⊆ Signers u /\ (size (Signers u) < 2 * size electors)%nat /\
       forall e, e ∈ electors -> exists i h', (i <= k)%nat /\ headers !! i = Some h' /\ ecrecover h' = Ok e /\
         Coinbase h' = a /\ vote_of (Nonce h') = Ok (negb (bool_decide (a ∈ Signers u)))).
Proof.
  intros Hok H0 Hlen Hv0 Ha k h Hh. apply apply_inv in Ha as (Hnum & t & Ht & _); [|done..].
  destruct (step_at _ _ _ _ _ _ Hok H0 Hnum Ht Hh) as (u & u' & signer & Hu & Hu' & _ & [Hsig Hin _ _ _ Hc]).
  exists u, u', signer. split_and!; try done. destruct Hc as [|(electors & (Hsub & Hmaj & Hnew) & Hel)]; [by left|right].
  split; [done|]. exists electors. split_and!; try done. intros e He.
  destruct (Hel e He) as (v & <- & Hav & Hsens & [Hv|Hv]); unfold sensible in Hsens; rewrite Hav in Hsens.
  - destruct (votes_from_chain (SnapNumber s) headers s t k u v) as (i & h' & Hi & Hh' & Hs' & _ & Ha' & Hvo); try done.
    { apply lookup_lt_Some in Hh. lia. }
    exists i, h'. split; [lia|]. split_and!; try done; [congruence|]. by rewrite Hvo, Hsens.
  - destruct Hv as (Hs' & Ha' & Hvo). exists k, h. rewrite Hs'. split_and!; try done. by rewrite Hvo, Hsens.
Qed.

(** A signer stays among the recent ones for half of the signers' blocks. *)
Lemma recent_stays n headers s t N i x u d :
  snapshot_ok n s -> 0 <= n -> numbered (n + 1) headers -> apply_headers ecrecover headers s = Ok t ->
  (forall k w, apply_headers ecrecover (take k headers) s = Ok w -> N <= signers_len w) ->
  apply_headers ecrecover (take (S i) headers) s = Ok u -> Recents u !! (n + 1 + Z.of_nat i) = Some x ->
  Z.of_nat d <= N / 2 -> (S i + d <= length headers)%nat ->
  exists w, apply_headers ecrecover (take (S i + d) headers) s = Ok w /\ Recents w !! (n + 1 + Z.of_nat i) = Some x /\
    forall h, headers !! (S i + d)%nat = Some h -> Z.of_nat d < N / 2 -> ecrecover h <> Ok x.
Proof.
  intros Hs Hn Hnum Ht HN Hu Hx. 
  assert (Hlim : forall k w, apply_headers ecrecover (take k headers) s = Ok w -> N / 2 < signer_limit w).
  { intros k w Hw. pose proof (Z.div_le_mono _ _ 2 ltac:(lia) (HN k w Hw)). unfold signer_limit. lia. }
  assert (Hnext : forall d w h, apply_headers ecrecover (take (S i + d) headers) s = Ok w ->
    Recents w !! (n + 1 + Z.of_nat i) = Some x -> headers !! (S i + d)%nat = Some h -> Z.of_nat d < N / 2 ->
    ecrecover h <> Ok x /\ exists w', apply_headers ecrecover (take (S (S i + d)) headers) s = Ok w' /\
      Recents w' !! (n + 1 + Z.of_nat i) = Some x).
  { intros d' w h Hw Hrw Hh Hd. destruct (step_at _ _ _ _ _ _ Hs Hn Hnum Ht Hh) as (w0 & w' & y & Hw0 & Hw' & _ & Ha).
    rewrite Hw in Hw0. injection Hw0 as <-.
    destruct (applied_kept _ _ _ _ _ Ha _ _ Hrw) as [Hrw' Hne]; [pose proof (Hlim _ _ Hw); lia|pose proof (Hlim _ _ Hw'); lia|].
    split; [|by exists w']. rewrite (applied_signer _ _ _ _ _ Ha). congruence. }
  induction d as [|d IH]; intros Hd Hl.
  - exists u. rewrite Nat.add_0_r in *. split; [done|]. split; [done|]. intros h Hh Hd'.
    eapply (Hnext O u h); rewrite ?Nat.add_0_r; done.
  - destruct IH as (w & Hw & Hrw & _); [lia..|].
    destruct (lookup_lt_is_Some_2 headers (S i + d)) as [h Hh]; [lia|].
    destruct (Hnext d w h Hw Hrw Hh ltac:(lia)) as (_ & w' & Hw' & Hrw'). rewrite <-Nat.add_succ_r in Hw'.
    exists w'. split; [done|]. split; [done|]. intros h' Hh' Hd'. by eapply Hnext.
Qed.

(** C29: No signer signs two blocks close to each other. In a chain that is
    applied to a well-formed snapshot and never has fewer than [N] signers,
    two blocks of one signer are more than [N/2] blocks apart, so that any
    [N/2+1] blocks in a row have as many signers. *)
Theorem signers_take_turns s headers s' N :
  snapshot_ok (SnapNumber s) s -> 0 <= SnapNumber s -> SnapNumber s + zlen headers < 2 ^ 64 ->
  apply ecrecover Hash s headers = Ok s' ->
  (forall k u, apply_headers ecrecover (take k headers) s = Ok u -> N <= signers_len u) ->
  forall i j hi hj x, (i < j)%nat -> headers !! i = Some hi -> headers !! j = Some hj ->
  ecrecover hi = Ok x -> ecrecover hj = Ok x -> N / 2 < Z.of_nat j - Z.of_nat i.
Proof.
  intros Hok H0 Hlen Ha HN i j hi hj x Hij Hi Hj Hxi Hxj. apply apply_inv in Ha as (Hnum & t & Ht & _); [|done..].
  destruct (step_at _ _ _ _ _ _ Hok H0 Hnum Ht Hi) as (u & u' & y & _ & Hu' & _ & Hap).
  pose proof (applied_signer _ _ _ _ _ Hap) as Hy. rewrite Hxi in Hy. injection Hy as <-.
  destruct (decide (N / 2 < Z.of_nat j - Z.of_nat i)) as [|Hc]; [done|exfalso].
  pose proof (lookup_lt_Some _ _ _ Hj).
  destruct (recent_stays (SnapNumber s) headers s t N i x u' (j - S i)) as (w & _ & _ & Hw); try done; [|lia|lia|].
  - apply (applied_recent _ _ _ _ _ Hap).
  - replace (S i + (j - S i))%nat with j in Hw by lia. by eapply Hw; [done|lia|].
Qed.
End Chain.
