(* ===== verification/CliqueEngine.v ===== *)
(** The proof-of-authority engine of consensus/clique/clique.go: signatures of
    headers, the retrieval of snapshots through the caches, the verification
    of headers and seals, and the preparation of a header; with
    consensus/misc/forks.go.

    The hash function and the recovery of a public key are arguments.  The
    database of snapshots is a map whose writes succeed. *)
From stdpp Require Import gmap sorting.
From S2P Require Import Prelude GoMath RlpTypes RlpEncode BlockHeader CliqueSnapshot.

Definition checkpointInterval : Z := 1024.
Definition epochLength : Z := 30000.
Definition extraVanity : Z := 32.
Definition extraSeal : Z := 65.
Definition AddressLength : Z := 20.
Definition diffInTurn : Z := 2.
Definition diffNoTurn : Z := 1.

(** * Signatures *)
Section Signatures.
Context (keccak256 : bytes -> bytes) (Ecrecover : bytes -> bytes -> result Z bytes).

Definition iface (t : typ) (v : val) : val := VIface t v.

(** [sigHash] panics when the extra data are too short. *)
Definition sigHash (h : Header) : option Z :=
  match slice (Extra h) 0 (zlen (Extra h) - 65) with
  | None => None
  | Some extra =>
      Some (rlpHash keccak256 (TSlice TInterface)
        (VList [iface (byte_array 32) (hash_val (ParentHash h)); iface (byte_array 32) (hash_val (UncleHash h));
                iface (byte_array 20) (VBytes (Z_to_be 20 (Coinbase h))); iface (byte_array 32) (hash_val (Root h));
                iface (byte_array 32) (hash_val (TxHash h)); iface (byte_array 32) (hash_val (ReceiptHash h));
                iface (byte_array 256) (VBytes (Z_to_be 256 (Bloom h))); iface (TPtr TBigInt) (big_val (Difficulty h));
                iface (TPtr TBigInt) (big_val (Number h)); iface (TUint 64) (VUint (GasLimit h));
                iface (TUint 64) (VUint (GasUsed h)); iface (TPtr TBigInt) (big_val (Time h));
                iface (TSlice (TUint 8)) (VBytes extra); iface (byte_array 32) (hash_val (MixDigest h));
                iface (byte_array 8) (VBytes (Nonce h))]))
  end.

(** The recovery without the cache. *)
Definition recover (h : Header) : result CliqueError Z :=
  if zlen (Extra h) <? extraSeal then Err errMissingSignature
  else
    let! signature := or_panic (slice (Extra h) (zlen (Extra h) - extraSeal) (zlen (Extra h))) in
    let! hash := or_panic (sigHash h) in
    match Ecrecover (Z_to_be 32 hash) signature with
    | Err e => Err (errEcrecover e)
    | Panic => Panic
    | Ok pubkey =>
        let! key := or_panic (slice pubkey 1 (zlen pubkey)) in
        let! addr := or_panic (slice (keccak256 key) 12 (zlen (keccak256 key))) in
        Ok (be_to_Z (take 20 addr))
    end.

(** [ecrecover] looks into the cache first and adds to it what it found. *)
Definition ecrecover (sigcache : gmap Z Z) (h : Header) : result CliqueError Z * gmap Z Z :=
  let hash := Header_Hash keccak256 h in
  match sigcache !! hash with
  | Some address => (Ok address, sigcache)
  | None =>
      match recover h with
      | Ok signer => (Ok signer, <[hash := signer]> sigcache)
      | e => (e, sigcache)
      end
  end.

(** [CalcUncleHash nil], the hash of an empty list. *)
Definition uncleHash : Z := rlpHash keccak256 (TSlice (TPtr Header_typ)) (VList []).

(** A cache of earlier results, keyed by hashes that tell signers apart, does
    not change what [ecrecover] returns, and stays such a cache. *)
Definition sigcache_ok (sigcache : gmap Z Z) : Prop :=
  forall h a, sigcache !! Header_Hash keccak256 h = Some a -> recover h = Ok a.

Lemma ecrecover_transparent sigcache h :
  (forall h', Header_Hash keccak256 h = Header_Hash keccak256 h' -> recover h = recover h') -> sigcache_ok sigcache ->
  (ecrecover sigcache h).1 = recover h /\ sigcache_ok (ecrecover sigcache h).2.
Proof.
  intros Hinj Hok. unfold ecrecover. destruct (sigcache !! _) as [a|] eqn:Ha; [split; [symmetry; by apply Hok|done]|].
  destruct (recover h) as [a| |] eqn:Hr; [|done..]. split; [done|]. intros h' b. cbn [snd].
  rewrite lookup_insert. case_decide as E; [intros [= <-]; by rewrite <-(Hinj _ E)|apply Hok].
Qed.

End Signatures.

(** * The engine *)
Record Clique := mkClique {
  ConfigEpoch : Z;
  Period : Z;
  recents : gmap Z Snapshot;
  disk : gmap Z Snapshot;
  proposals : gmap Z bool;
  self : Z;
  fakeDiff : bool
}.

Definition set_recents (x : gmap Z Snapshot) (c : Clique) : Clique :=
  mkClique (ConfigEpoch c) (Period c) x (disk c) (proposals c) (self c) (fakeDiff c).
Definition set_disk (x : gmap Z Snapshot) (c : Clique) : Clique :=
  mkClique (ConfigEpoch c) (Period c) (recents c) x (proposals c) (self c) (fakeDiff c).

Definition New (epoch period : Z) (db : gmap Z Snapshot) : Clique :=
  mkClique (if epoch =? 0 then epochLength else epoch) period ∅ db ∅ 0 false.

(** [Authorize] *)
Definition Authorize_ (signer : Z) (c : Clique) : Clique :=
  mkClique (ConfigEpoch c) (Period c) (recents c) (disk c) (proposals c) signer (fakeDiff c).

(** [Propose] and [Discard] of the API. *)
Definition set_proposals (x : gmap Z bool) (c : Clique) : Clique :=
  mkClique (ConfigEpoch c) (Period c) (recents c) (disk c) x (self c) (fakeDiff c).
Definition Propose (address : Z) (auth : bool) (c : Clique) : Clique :=
  set_proposals (<[address := auth]> (proposals c)) c.
Definition Discard (address : Z) (c : Clique) : Clique := set_proposals (delete address (proposals c)) c.

(** [snap.store] *)
Definition store (s : Snapshot) (c : Clique) : Clique := set_disk (<[SnapHash s := s]> (disk c)) c.

Section Engine.
Context (ecrecover : Header -> result CliqueError Z) (Hash : Header -> Z) (uncleHash : Z).
(** The chain the engine reads, the fork its configuration pins and the clock. *)
Context (GetHeader : Z -> Z -> option Header) (GetHeaderByNumber : Z -> option Header).
Context (EIP150Block : option Z) (EIP150Hash : Z) (now : Z).

Definition VerifyForkHashes (h : Header) (uncle : bool) : option CliqueError :=
  if uncle then None
  else
    match EIP150Block with
    | Some b =>
        if bool_decide (Some b = Number h) && negb (EIP150Hash =? 0) && negb (EIP150Hash =? Hash h)
        then Some (errFork (Hash h)) else None
    | None => None
    end.

(** The signers in the extra data of a checkpoint header; a header too short
    for them panics in [make]. *)
Fixpoint take_signers (n : nat) (extra : bytes) : list Z :=
  match n with
  | O => []
  | S n => be_to_Z (take 20 extra) :: take_signers n (drop 20 extra)
  end.

Definition checkpoint_signers (h : Header) : result CliqueError (list Z) :=
  let n := (zlen (Extra h) - extraVanity - extraSeal) ÷ AddressLength in
  if n <? 0 then Panic else Ok (take_signers (Z.to_nat n) (drop 32 (Extra h))).

(** A result and the engine with its caches, which an error leaves as they are by
    then. *)
Definition keep {A B} (r : result CliqueError A * Clique) (f : A -> Clique -> option (result CliqueError B * Clique))
    : option (result CliqueError B * Clique) :=
  match r with
  | (Ok a, c) => f a c
  | (Err e, c) => Some (Err e, c)
  | (Panic, c) => Some (Panic, c)
  end.

(** The loop of [snapshot] that walks back to a known snapshot; [None] is a
    walk longer than [fuel]. *)
Fixpoint find_snapshot (fuel : nat) (c : Clique) (number hash : Z) (parents headers : list Header)
    : option (result CliqueError (Snapshot * list Header) * Clique) :=
  match fuel with
  | O => None
  | S fuel =>
      let walk :=
        match List.rev parents with
        | h :: rest =>
            keep (number_of h, c) (fun n c =>
              if negb (Hash h =? hash) || negb (n =? number) then Some (Err ErrUnknownAncestor, c)
              else find_snapshot fuel c (u64 (number - 1)) (ParentHash h) (List.rev rest) (headers ++ [h]))
        | [] =>
            match GetHeader hash number with
            | Some h => find_snapshot fuel c (u64 (number - 1)) (ParentHash h) [] (headers ++ [h])
            | None => Some (Err ErrUnknownAncestor, c)
            end
        end in
      match recents c !! hash with
      | Some s => Some (Ok (s, headers), c)
      | None =>
          match (if number mod checkpointInterval =? 0 then disk c !! hash else None) with
          | Some s => Some (Ok (s, headers), c)
          | None =>
              if (number =? 0) || ((number mod ConfigEpoch c =? 0) && bool_decide (GetHeaderByNumber (u64 (number - 1)) = None)) then
                match GetHeaderByNumber number with
                | Some checkpoint =>
                    keep (checkpoint_signers checkpoint, c) (fun sigs c =>
                      let s := newSnapshot (ConfigEpoch c) number (Hash checkpoint) sigs in
                      Some (Ok (s, headers), store s c))
                | None => walk
                end
              else walk
          end
      end
  end.

Definition snapshot (fuel : nat) (c : Clique) (number hash : Z) (parents : list Header)
    : option (result CliqueError Snapshot * Clique) :=
  r ← find_snapshot fuel c number hash parents [];
  keep r (fun '(base, headers) c =>
    keep (apply ecrecover Hash base (List.rev headers), c) (fun snap c =>
      let c := set_recents (<[SnapHash snap := snap]> (recents c)) c in
      let c := if (SnapNumber snap mod checkpointInterval =? 0) && (0 <? zlen headers) then store snap c else c in
      Some (Ok snap, c))).

(** The walk back to genesis takes at most one step per block. *)
Definition snapshot_fuel (number : Z) : nat := S (Z.to_nat number).

(** [CalcDifficulty]; without signers [inturn] panics. *)
Definition CalcDifficulty (s : Snapshot) (signer : Z) : option Z :=
  match inturn s (u64 (SnapNumber s + 1)) signer with
  | Some b => Some (if b then diffInTurn else diffNoTurn)
  | None => None
  end.

(** The checks of [verifySeal] on the snapshot before the header; the
    difference [number-limit] is taken on [uint64]. *)
Definition seal_checks (c : Clique) (snap : Snapshot) (number : Z) (h : Header) : result CliqueError unit :=
  let! signer := ecrecover h in
  if negb (bool_decide (signer ∈ Signers snap)) then Err errUnauthorizedSigner
  else if existsb (fun kv => (kv.2 =? signer) && (u64 (number - signer_limit snap) <? kv.1)) (map_to_list (Recents snap))
  then Err errRecentlySigned
  else if fakeDiff c then Ok tt
  else
    let! turn := or_panic (inturn snap number signer) in
    let! difficulty := or_panic (Difficulty h) in
    if turn && negb (difficulty =? diffInTurn) then Err errWrongDifficulty
    else if negb turn && negb (difficulty =? diffNoTurn) then Err errWrongDifficulty
    else Ok tt.

Definition verifySeal (fuel : nat) (c : Clique) (h : Header) (parents : list Header) : option (result CliqueError unit * Clique) :=
  keep (number_of h, c) (fun number c =>
    if number =? 0 then Some (Err errUnknownBlock, c)
    else
      r ← snapshot fuel c (u64 (number - 1)) (ParentHash h) parents;
      keep r (fun snap c => Some (seal_checks c snap number h, c))).

(** The signer list a checkpoint header carries. *)
Definition signer_bytes (s : Snapshot) : bytes := concat (map (Z_to_be 20) (signers s)).

(** The end of [verifyCascadingFields]: the signers a checkpoint lists, and the
    seal. *)
Definition check_seal (fuel : nat) (c : Clique) (h : Header) (number : Z) (parents : list Header)
    : option (result CliqueError unit * Clique) :=
  r ← snapshot fuel c (u64 (number - 1)) (ParentHash h) parents;
  keep r (fun snap c =>
    if (number mod ConfigEpoch c =? 0) then
      match slice (Extra h) extraVanity (zlen (Extra h) - extraSeal) with
      | None => Some (Panic, c)
      | Some listed =>
          if negb (bytes_eqb listed (signer_bytes snap)) then Some (Err errMismatchingCheckpointSigners, c)
          else verifySeal fuel c h parents
      end
    else verifySeal fuel c h parents).

Definition verifyCascadingFields (fuel : nat) (c : Clique) (h : Header) (parents : list Header)
    : option (result CliqueError unit * Clique) :=
  keep (number_of h, c) (fun number c =>
    if number =? 0 then Some (Ok tt, c)
    else
      let parent :=
        match List.rev parents with
        | p :: _ => Some p
        | [] => GetHeader (ParentHash h) (u64 (number - 1))
        end in
      match parent with
      | None => Some (Err ErrUnknownAncestor, c)
      | Some parent =>
          keep (number_of parent, c) (fun pn c =>
            if negb (pn =? u64 (number - 1)) || negb (Hash parent =? ParentHash h) then Some (Err ErrUnknownAncestor, c)
            else
              match Time parent, Time h with
              | Some pt, Some t =>
                  if Uint64 t <? u64 (Uint64 pt + Period c) then Some (Err ErrInvalidTimestamp, c)
                  else check_seal fuel c h number parents
              | _, _ => Some (Panic, c)
              end)
      end).

(** The checks of [verifyHeader] that need the header alone. *)
Definition header_checks (c : Clique) (h : Header) : option CliqueError :=
  match Number h, Time h with
  | None, _ => Some errUnknownBlock
  | Some n, Some t =>
      let number := Uint64 n in
      let checkpoint := number mod ConfigEpoch c =? 0 in
      let signersBytes := zlen (Extra h) - extraVanity - extraSeal in
      if now <? t then Some ErrFutureBlock
      else if checkpoint && negb (Coinbase h =? 0) then Some errInvalidCheckpointBeneficiary
      else if negb (bytes_eqb (Nonce h) nonceAuthVote) && negb (bytes_eqb (Nonce h) nonceDropVote) then Some errInvalidVote
      else if checkpoint && negb (bytes_eqb (Nonce h) nonceDropVote) then Some errInvalidCheckpointVote
      else if zlen (Extra h) <? extraVanity then Some errMissingVanity
      else if zlen (Extra h) <? extraVanity + extraSeal then Some errMissingSignature
      else if negb checkpoint && negb (signersBytes =? 0) then Some errExtraSigners
      else if checkpoint && negb (signersBytes mod AddressLength =? 0) then Some errInvalidCheckpointSigners
      else if negb (MixDigest h =? 0) then Some errInvalidMixDigest
      else if negb (UncleHash h =? uncleHash) then Some errInvalidUncleHash
      else if (0 <? number) &&
              match Difficulty h with
              | None => true
              | Some d => negb (d =? diffInTurn) && negb (d =? diffNoTurn)
              end then Some errInvalidDifficulty
      else VerifyForkHashes h false
  | Some _, None => None
  end.

(** [verifyHeader]; a [nil] time panics in the comparison with the clock. *)
Definition verifyHeader (fuel : nat) (c : Clique) (h : Header) (parents : list Header) : option (result CliqueError unit * Clique) :=
  match Number h, Time h with
  | Some _, None => Some (Panic, c)
  | _, _ =>
      match header_checks c h with
      | Some e => Some (Err e, c)
      | None => verifyCascadingFields fuel c h parents
      end
  end.

Definition VerifyHeader (fuel : nat) (c : Clique) (h : Header) : option (result CliqueError unit * Clique) :=
  verifyHeader fuel c h [].

(** [VerifyHeaders] without an abort: the errors in the order of the headers. *)
Fixpoint verify_batch (fuel : nat) (c : Clique) (before headers : list Header) : option (list (option CliqueError) * Clique) :=
  match headers with
  | [] => Some ([], c)
  | h :: headers =>
      '(r, c) ← verifyHeader fuel c h before;
      err ← match r with Ok _ => Some None | Err e => Some (Some e) | Panic => None end;
      '(errs, c) ← verify_batch fuel c (before ++ [h]) headers;
      Some (err :: errs, c)
  end.
Definition VerifyHeaders (fuel : nat) (c : Clique) (headers : list Header) : option (list (option CliqueError) * Clique) :=
  verify_batch fuel c [] headers.

Definition VerifyUncles (uncles : list Header) : option CliqueError :=
  if 0 <? zlen uncles then Some errUncles else None.

(** [Seal] up to the signing: whether the engine may sign now. *)
Definition may_seal (c : Clique) (snap : Snapshot) (number : Z) : result CliqueError bool :=
  if negb (bool_decide (self c ∈ Signers snap)) then Err errUnauthorizedSigner
  else
    let limit := signer_limit snap in
    Ok (negb (existsb (fun kv => (kv.2 =? self c) && ((number <? limit) || (u64 (number - limit) <? kv.1)))
                (map_to_list (Recents snap)))).

(** [Prepare] fills in the vote, the difficulty and the extra data; [pick]
    chooses one of the sensible proposals. *)
Definition prepare_vote (c : Clique) (snap : Snapshot) (number : Z) (pick : list Z -> Z) : Z * bytes :=
  if number mod ConfigEpoch c =? 0 then (0, nonceDropVote)
  else
    match List.filter (fun kv => validVote snap kv.1 kv.2) (map_to_list (proposals c)) with
    | [] => (0, nonceDropVote)
    | l => let a := pick (map fst l) in
           (a, if default false (proposals c !! a) then nonceAuthVote else nonceDropVote)
    end.

Definition prepare_extra (c : Clique) (snap : Snapshot) (number : Z) (extra : bytes) : bytes :=
  let vanity := take 32 (extra ++ replicate (32 - length extra) 0) in
  vanity ++ (if number mod ConfigEpoch c =? 0 then signer_bytes snap else []) ++ replicate 65 0.

Definition Prepare (fuel : nat) (c : Clique) (h : Header) (pick : list Z -> Z) : option (result CliqueError Header * Clique) :=
  keep (number_of h, c) (fun number c =>
    r ← snapshot fuel c (u64 (number - 1)) (ParentHash h) [];
    keep r (fun snap c =>
      let '(coinbase, nonce) := prepare_vote c snap number pick in
      keep (or_panic (CalcDifficulty snap (self c)), c) (fun difficulty c =>
        match GetHeader (ParentHash h) (u64 (number - 1)) with
        | None => Some (Err ErrUnknownAncestor, c)
        | Some parent =>
            keep (or_panic (Time parent), c) (fun pt c =>
              let t := pt + Period c in
              Some (Ok (mkHeader (ParentHash h) (UncleHash h) coinbase (Root h) (TxHash h) (ReceiptHash h) (Bloom h)
                (Some difficulty) (Number h) (GasLimit h) (GasUsed h) (Some (if Int64 t <? now then now else t))
                (prepare_extra c snap number (Extra h)) 0 nonce), c))
        end))).

End Engine.
