(* ===== verification/CliqueTurns.v ===== *)
(** Turns and seals of the proof-of-authority engine: one signer is in turn for
    each block, what [verifySeal] accepts can be applied, and where the two
    checks differ; a look at the set of signers that becomes empty. *)
From stdpp Require Import gmap sorting.
From S2P Require Import Prelude GoMath BlockHeader CliqueSnapshot CliqueVotes CliqueCorrect CliqueEngine.

Lemma signers_perm s : signers s ≡ₚ elements (Signers s).
Proof. apply merge_sort_Permutation. Qed.

Lemma signers_NoDup s : NoDup (signers s).
Proof. rewrite signers_perm. apply NoDup_elements. Qed.

Lemma zlen_signers s : zlen (signers s) = signers_len s.
Proof. unfold zlen, signers_len. f_equal. rewrite signers_perm. done. Qed.

Lemma elem_of_signers s x : x ∈ signers s <-> x ∈ Signers s.
Proof. rewrite signers_perm. apply elem_of_elements. Qed.

Lemma offset_of_range x l : 0 <= offset_of x l <= zlen l.
Proof.
  induction l as [|y l IH]; [done|]. cbn. rewrite zlen_cons. case_if; [pose proof (zlen_nonneg l)|]; lia.
Qed.

Lemma offset_of_lookup x l i :
  NoDup l -> 0 <= i < zlen l -> offset_of x l = i <-> l !! Z.to_nat i = Some x.
Proof.
  intros Hn. revert i. induction Hn as [|y l Hy Hn IH]; intros i Hi; [unfold zlen in Hi; cbn in Hi; lia|].
  rewrite zlen_cons in Hi. cbn [offset_of]. pose proof (offset_of_range x l). destruct (Z.eqb_spec y x) as [->|Hne].
  - split; [intros <-; done|]. intros Hl. destruct (decide (i = 0)) as [->|]; [done|].
    replace (Z.to_nat i) with (S (Z.to_nat (i - 1))) in Hl by lia. cbn in Hl.
    exfalso. apply Hy. by eapply list_elem_of_lookup_2.
  - destruct (decide (i = 0)) as [->|]; [split; [lia|intros [= ->]; done]|].
    replace (Z.to_nat i) with (S (Z.to_nat (i - 1))) by lia. cbn. rewrite <-IH by lia. lia.
Qed.

Lemma signers_pos s : Signers s <> ∅ -> 0 < zlen (signers s).
Proof.
  intros Hne. rewrite zlen_signers. unfold signers_len. assert (size (Signers s) <> 0%nat); [|lia].
  by rewrite size_non_empty_iff, leibniz_equiv_iff.
Qed.

(** The signer of the place [i]. *)
Lemma inturn_true s number x :
  Signers s <> ∅ -> inturn s number x = Some true <-> signers s !! Z.to_nat (number mod zlen (signers s)) = Some x.
Proof.
  intros Hne. unfold inturn. pose proof (signers_pos s Hne) as Hpos.
  replace (zlen (signers s) =? 0) with false by lia.
  pose proof (Z.mod_pos_bound number (zlen (signers s)) Hpos).
  rewrite <-offset_of_lookup by (apply signers_NoDup || done). split.
  - intros [= E]. lia.
  - intros E. f_equal. lia.
Qed.

(** With a non-empty set of signers, exactly one account is in turn for a
    block, and it is a signer. Consecutive blocks go round: every signer is in
    turn for one of any [n] consecutive blocks, [n] the number of signers. *)
Theorem one_signer_in_turn s number :
  Signers s <> ∅ -> 0 <= number ->
  (exists x, x ∈ Signers s /\ forall y, inturn s number y = Some true <-> y = x) /\
  (forall x, x ∈ Signers s -> exists d, 0 <= d < signers_len s /\ inturn s (number + d) x = Some true).
Proof.
  intros Hne Hn.
  pose proof (signers_pos s Hne) as Hpos.
  split.
  - destruct (lookup_lt_is_Some_2 (signers s) (Z.to_nat (number mod zlen (signers s)))) as [x Hx].
    { pose proof (Z.mod_pos_bound number _ Hpos). unfold zlen in *. lia. }
    exists x. split; [apply elem_of_signers; by eapply list_elem_of_lookup_2|].
    intros y. rewrite inturn_true, Hx by done. naive_solver.
  - intros x Hx%elem_of_signers. apply list_elem_of_lookup in Hx as [i Hi]. pose proof (lookup_lt_Some _ _ _ Hi).
    rewrite <-zlen_signers. set (n := zlen (signers s)) in *. exists ((Z.of_nat i - number) mod n).
    split; [apply Z.mod_pos_bound; lia|]. apply inturn_true; [done|]. fold n.
    rewrite Zplus_mod_idemp_r. replace (number + (Z.of_nat i - number)) with (Z.of_nat i) by lia.
    rewrite Z.mod_small by (subst n; unfold zlen; lia). by rewrite Nat2Z.id.
Qed.

Definition turns_example : Snapshot := newSnapshot 30000 0 77 [30; 10; 20].

Lemma one_signer_in_turn_witness :
  inturn turns_example 7 20 = Some true /\
  exists x, x ∈ Signers turns_example /\ forall y, inturn turns_example 7 y = Some true <-> y = x.
Proof.
  split; [by_compute|]. destruct (one_signer_in_turn turns_example 7) as [Hx _]; [by_decide|lia|exact Hx].
Defined.

(** * Seals *)
Section Seals.
Context (ecrecover : Header -> result CliqueError Z) (Hash : Header -> Z).

Lemma apply_single s h n :
  number_of h = @Ok CliqueError _ n -> 0 <= SnapNumber s < 2 ^ 64 - 1 -> n = SnapNumber s + 1 ->
  apply ecrecover Hash s [h] =
  rbind (apply_header ecrecover h s) (fun t =>
    Ok (mkSnapshot (Epoch t) (u64 (SnapNumber t + 1)) (Hash h) (Signers t) (Recents t) (Votes t) (Tallies t))).
Proof.
  intros Hn Hs ->. unfold apply. cbn [check_contiguous rbind]. rewrite Hn. cbn [rbind].
  rewrite u64_small by (split; lia). rewrite Z.eqb_refl. cbn [negb apply_headers].
  by destruct (apply_header ecrecover h s).
Qed.

(** [verifySeal] and [apply] ask the same of the recent signers, once the
    window of recent blocks does not reach before genesis. *)
Lemma recent_checks n snap signer :
  recents_ok (n - 1) snap -> n < 2 ^ 64 -> signer_limit snap <= n ->
  existsb (fun kv => (kv.2 =? signer) && (u64 (n - signer_limit snap) <? kv.1)) (map_to_list (Recents snap)) =
  recently_signed (shift_recents n snap) signer.
Proof.
  intros [Hw _] Hn Hl. pose proof (signer_limit_pos snap). rewrite u64_small by (split; lia). apply eq_true_iff_eq.
  rewrite recently_signed_spec, existsb_exists. setoid_rewrite shift_recents_lookup. split.
  - intros ([k x] & Hin & Hk). cbn in Hk. simp_bool. subst x. exists k. apply list_elem_of_In, elem_of_map_to_list in Hin.
    by replace (k + _ =? n) with false by lia.
  - intros [k Hk]. exists (k, signer). replace (signer_limit snap <=? n) with true in Hk by lia.
    case_if_in Hk; [done|]. split; [by apply list_elem_of_In, elem_of_map_to_list|]. pose proof (Hw k signer Hk). cbn.
    rewrite Z.eqb_refl. cbn. lia.
Qed.

(** What [verifySeal] accepts can be applied: on a well-formed snapshot,
    and from the block on whose number reaches half of the signers, a header
    with a valid vote that passes the checks of the seal gives a new snapshot;
    and a header that can be applied is refused by those checks at most for
    its difficulty. *)
Theorem seal_agrees_with_apply c snap n h b :
  snapshot_ok (SnapNumber snap) snap -> 0 <= SnapNumber snap -> n = SnapNumber snap + 1 -> n < 2 ^ 64 ->
  number_of h = @Ok CliqueError _ n -> vote_of (Nonce h) = Ok b -> signer_limit snap <= n ->
  (seal_checks ecrecover c snap n h = Ok tt -> exists s, apply ecrecover Hash snap [h] = Ok s) /\
  (forall s e, apply ecrecover Hash snap [h] = Ok s -> Signers snap <> ∅ -> Difficulty h <> None ->
   seal_checks ecrecover c snap n h = Err e -> e = errWrongDifficulty).
Proof.
  intros Hok H0 Hn Hlt Hnum Hvote Hlim. rewrite (apply_single snap h n) by (done || lia).
  destruct (clear_votes_ok n snap _ Hok) as (s1 & Hclear & [_ Hr1 _] & Es1 & Er1 & _).
  assert (Hlim1 : signer_limit s1 = signer_limit snap) by (unfold signer_limit, signers_len; by rewrite Es1).
  assert (Hchk : forall signer, existsb (fun kv => (kv.2 =? signer) && (u64 (n - signer_limit snap) <? kv.1))
    (map_to_list (Recents snap)) = recently_signed (shift_recents n s1) signer).
  { intros signer. rewrite <-Er1, <-Hlim1. apply recent_checks; [by replace (n - 1) with (SnapNumber snap) by lia|done|lia]. }
  assert (Es : Signers (shift_recents n s1) = Signers snap) by (rewrite <-Es1; unfold shift_recents; by case_if).
  unfold apply_header, seal_checks, check_signer. rewrite Hnum. cbn [rbind]. rewrite Hclear. cbn [rbind].
  destruct (ecrecover h) as [signer| |]; cbn [rbind]; [|split; done..].
  rewrite Es, Hchk. destruct (negb _); cbn [rbind]; [split; done|].
  destruct (recently_signed _ _); cbn [rbind]; [split; done|]. rewrite Hvote. cbn [rbind].
  split; [by eexists|]. intros s e _ Hne Hd. pose proof (signers_pos snap Hne). unfold inturn.
  replace (zlen (signers snap) =? 0) with false by lia. destruct (Difficulty h); [|done]. cbn.
  repeat case_if; congruence.
Qed.

(** C35: before block [n] reaches the window of recent signers, which spans half of
    the signers and one, the difference [number-limit] of [verifySeal] wraps
    around, and a signer whose last block is still in the window is not seen.  On
    any well-formed snapshot at block [n - 1] such a signer passes the checks of the
    seal of block [n], with the difficulty of its turn, whereas [apply] refuses
    the block: the snapshot after it cannot be built. *)
Theorem early_seal_not_refused c snap n h signer k turn :
  snapshot_ok (SnapNumber snap) snap -> 0 <= SnapNumber snap -> n = SnapNumber snap + 1 ->
  n < 2 ^ 64 -> n < signer_limit snap -> signer_limit snap <= 2 ^ 64 ->
  number_of h = @Ok CliqueError _ n -> ecrecover h = Ok signer -> signer ∈ Signers snap -> Recents snap !! k = Some signer ->
  inturn snap n signer = Some turn -> Difficulty h = Some (if turn then diffInTurn else diffNoTurn) ->
  seal_checks ecrecover c snap n h = Ok tt /\ apply ecrecover Hash snap [h] = Err errRecentlySigned.
Proof.
  intros Hok H0 Hn Hlt Hlim Hlim2 Hnum Hrec Hin Hk Hturn Hd. pose proof Hok as [_ [Hw _] _].
  destruct (clear_votes_ok n snap _ Hok) as (s1 & Hclear & _ & Es1 & Er1 & _). split.
  - unfold seal_checks. rewrite Hrec. cbn [rbind]. rewrite bool_decide_eq_true_2 by done. cbn [negb].
    replace (existsb _ _) with false; [rewrite Hturn, Hd; cbn [or_panic rbind]; by destruct (fakeDiff c), turn|].
    symmetry. apply not_true_iff_false. rewrite existsb_exists. intros ([k' x] & Hin'%list_elem_of_In%elem_of_map_to_list & Hk').
    specialize (Hw _ _ Hin'). cbn in Hk'. simp_bool. unfold u64 in *.
    assert ((n - signer_limit snap) mod 2 ^ 64 = n - signer_limit snap + 2 ^ 64); [|lia].
    rewrite <-(Z.mod_small (n - signer_limit snap + 2 ^ 64) (2 ^ 64)) by lia.
    by rewrite <-(Z.mod_add (n - signer_limit snap) 1 (2 ^ 64)), Z.mul_1_l by lia.
  - rewrite (apply_single snap h n) by (done || lia). unfold apply_header. rewrite Hnum. cbn [rbind]. rewrite Hclear. cbn [rbind]. rewrite Hrec. cbn [rbind].
    assert (signer_limit s1 = signer_limit snap) as El by (unfold signer_limit, signers_len; by rewrite Es1).
    unfold shift_recents, check_signer. rewrite El, (proj2 (Z.leb_gt _ _)), Es1, bool_decide_eq_true_2 by done. cbn [negb].
    replace (recently_signed s1 signer) with true; [done|]. symmetry. apply recently_signed_spec. exists k. by rewrite Er1.
Qed.
End Seals.

(** * Examples

    In the examples the root of a header names its signer. *)
Definition example_recover (h : Header) : result CliqueError Z := Ok (Root h).
Definition example_hash (h : Header) : Z := default 0 (Number h).
Definition example_header (number signer coinbase difficulty : Z) (nonce : bytes) : Header :=
  mkHeader (number - 1) 0 coinbase signer 0 0 0 (Some difficulty) (Some number) 0 0 (Some 0) [] 0 nonce.
Definition example_engine : Clique := New 0 0 ∅.

(** The snapshot after three blocks of different signers. *)
Definition example_chain : list Header :=
  [example_header 1 10 40 1 nonceAuthVote; example_header 2 20 40 1 nonceAuthVote; example_header 3 30 0 2 nonceDropVote].
Definition example_snapshot : Snapshot :=
  match apply example_recover example_hash turns_example example_chain with Ok s => s | _ => turns_example end.

Lemma example_apply : apply example_recover example_hash turns_example example_chain = Ok example_snapshot.
Proof. by_compute. Qed.

Lemma example_snapshot_ok : snapshot_ok (SnapNumber example_snapshot) example_snapshot.
Proof.
  refine (proj1 (apply_ok example_recover example_hash turns_example example_chain example_snapshot _ _ _ example_apply)).
  - by apply newSnapshot_ok.
  - done.
  - done.
Qed.

Lemma seal_agrees_with_apply_witness :
  let h := example_header 4 10 0 2 nonceDropVote in
  seal_checks example_recover example_engine example_snapshot 4 h = Ok tt /\
  exists s, apply example_recover example_hash example_snapshot [h] = Ok s.
Proof.
  cbn zeta. split; [by_compute|]. destruct (seal_agrees_with_apply example_recover example_hash example_engine example_snapshot 4
    (example_header 4 10 0 2 nonceDropVote) false example_snapshot_ok) as [H _]; [by vm_compute|by vm_compute|done|by vm_compute|by vm_compute|by vm_compute|].
  apply H. by_compute.
Defined.

Definition early_snapshot : Snapshot :=
  match apply example_recover example_hash (newSnapshot 30000 0 77 [10; 20; 30; 40]) [example_header 1 30 0 1 nonceDropVote] with Ok s => s | _ => turns_example end.

Lemma early_snapshot_ok : snapshot_ok (SnapNumber early_snapshot) early_snapshot.
Proof.
  refine (proj1 (apply_ok example_recover example_hash (newSnapshot 30000 0 77 [10; 20; 30; 40]) [example_header 1 30 0 1 nonceDropVote] early_snapshot _ _ _ _)).
  - by apply newSnapshot_ok.
  - done.
  - done.
  - by_compute.
Qed.

(** Four signers: the signer of block 1 seals block 2 as well. *)
Lemma early_seal_not_refused_witness :
  let h := example_header 2 30 0 2 nonceDropVote in
  seal_checks example_recover example_engine early_snapshot 2 h = Ok tt /\
  apply example_recover example_hash early_snapshot [h] = Err errRecentlySigned.
Proof.
  apply (early_seal_not_refused example_recover example_hash example_engine early_snapshot 2 (example_header 2 30 0 2 nonceDropVote) 30 1 true early_snapshot_ok).
  - by vm_compute.
  - by vm_compute.
  - by vm_compute.
  - by vm_compute.
  - by vm_compute.
  - done.
  - done.
  - by_decide.
  - by_compute.
  - by_compute.
  - done.
Defined.

Lemma no_signers_no_apply s h s' : Signers s = ∅ -> apply example_recover example_hash s [h] <> Ok s'.
Proof.
  intros Hs. unfold apply. cbn [check_contiguous rbind]. destruct (number_of h) as [n| |] eqn:Hn; cbn [rbind]; [|done..].
  case_if; [done|]. cbn [apply_headers]. unfold apply_header. rewrite Hn. cbn [rbind]. unfold clear_votes.
  destruct (Epoch s =? 0); cbn [rbind]; [done|]. unfold check_signer, example_recover. cbn [rbind].
  replace (bool_decide _) with false; [done|]. symmetry. apply bool_decide_eq_false.
  unfold shift_recents. repeat case_if; cbn; rewrite Hs; set_solver.
Qed.

(** The only signer can vote itself out. Then there is no signer left, no
    header can follow, and the difficulty of the next block cannot be
    computed: [inturn] divides by zero. *)
Theorem last_signer_leaves genesis_hash :
  exists h snap,
    apply example_recover example_hash (newSnapshot 30000 0 genesis_hash [10]) [h] = Ok snap /\
    Signers snap = ∅ /\ (forall signer, CalcDifficulty snap signer = None) /\
    forall next snap', apply example_recover example_hash snap [next] <> Ok snap'.
Proof.
  exists (example_header 1 10 10 2 nonceDropVote), (mkSnapshot 30000 1 1 ∅ {[1 := 10]} [] ∅).
  split; [by_compute|]. split; [done|]. split; [done|]. intros next snap'. by apply no_signers_no_apply.
Qed.
