(* ===== verification/CliqueReplay.v ===== *)
(** The caches of the proof-of-authority engine are transparent: the snapshot
    that clique.go finds through its caches, the database and the parents it
    is given is the one that replaying the chain from genesis gives.  At the
    end the theorems on the engine are applied to a small chain: three signers,
    of whom two vote a fourth in. *)
From stdpp Require Import gmap sorting.
From S2P Require Import Prelude GoMath BlockHeader CliqueSnapshot CliqueVotes CliqueCorrect CliqueEngine CliqueTurns.

(** * Number and hash do not matter to the voting *)
Definition relabel (n x : Z) (s : Snapshot) : Snapshot :=
  mkSnapshot (Epoch s) n x (Signers s) (Recents s) (Votes s) (Tallies s).

Section Relabel.
Context (n x : Z).

Lemma uncast_relabel a b s : uncast a b (relabel n x s) = (relabel n x (uncast a b s).1, (uncast a b s).2).
Proof. unfold uncast. cbn. destruct (_ !! a); [|done]. by repeat case_if. Qed.

Lemma shift_recents_relabel number s : shift_recents number (relabel n x s) = relabel n x (shift_recents number s).
Proof. unfold shift_recents. change (signer_limit (relabel n x s)) with (signer_limit s). by case_if. Qed.

Lemma discard_vote_relabel signer a s : discard_vote signer a (relabel n x s) = relabel n x (discard_vote signer a s).
Proof. unfold discard_vote. cbn. destruct (list_find _ _) as [[i v]|]; [|done]. by rewrite uncast_relabel. Qed.

Lemma cast_vote_relabel signer number a b s :
  cast_vote signer number a b (relabel n x s) = relabel n x (cast_vote signer number a b s).
Proof. unfold cast_vote, cast, validVote. cbn. by case_if. Qed.

Lemma discard_by_relabel a votes s :
  discard_by a votes (relabel n x s) = ((discard_by a votes s).1, relabel n x (discard_by a votes s).2).
Proof.
  revert s. induction votes as [|v votes IH]; intros s; [done|]. cbn [discard_by]. case_if.
  - rewrite uncast_relabel. cbn [fst]. by rewrite IH.
  - rewrite IH. by destruct (discard_by _ _ _).
Qed.

Lemma pass_vote_relabel number a s : pass_vote number a (relabel n x s) = relabel n x (pass_vote number a s).
Proof.
  unfold pass_vote. change (Tallies (relabel n x s)) with (Tallies s). change (signers_len (relabel n x s)) with (signers_len s).
  case_if; [|done]. case_if; [done|]. unfold drop_signer.
  change (set_Signers ?z (relabel n x s)) with (relabel n x (set_Signers z s)). rewrite shift_recents_relabel.
  change (Votes (relabel n x ?z)) with (Votes z). rewrite discard_by_relabel. by destruct (discard_by _ _ _).
Qed.

Lemma apply_header_relabel ecrecover h s :
  apply_header ecrecover h (relabel n x s) = rmap (relabel n x) (apply_header ecrecover h s).
Proof.
  unfold apply_header, rmap, clear_votes. destruct (number_of h) as [number| |]; cbn [rbind]; [|done..].
  cbn [Epoch relabel]. destruct (Epoch s =? 0); cbn [rbind]; [done|].
  destruct (ecrecover h) as [signer| |]; cbn [rbind]; [|done..].
  replace (if number mod Epoch s =? 0 then set_Tallies ∅ (set_Votes [] (relabel n x s)) else relabel n x s) with
    (relabel n x (if number mod Epoch s =? 0 then set_Tallies ∅ (set_Votes [] s) else s)) by (by case_if).
  rewrite shift_recents_relabel. unfold check_signer, recently_signed. cbn [Signers Recents relabel].
  repeat (case_if; cbn [rbind]; [done|]).
  change (set_Recents ?z (relabel n x ?t)) with (relabel n x (set_Recents z t)). rewrite discard_vote_relabel.
  destruct (vote_of _); cbn [rbind]; [|done..]. by rewrite cast_vote_relabel, pass_vote_relabel.
Qed.

Lemma apply_headers_relabel ecrecover l s :
  apply_headers ecrecover l (relabel n x s) = rmap (relabel n x) (apply_headers ecrecover l s).
Proof.
  revert s. induction l as [|h l IH]; intros s; cbn; [done|]. rewrite apply_header_relabel.
  destruct (apply_header ecrecover h s); cbn; [apply IH|done..].
Qed.
End Relabel.

Lemma relabel_self s : relabel (SnapNumber s) (SnapHash s) s = s.
Proof. by destruct s. Qed.

Lemma apply_headers_number ecrecover l s t : apply_headers ecrecover l s = Ok t -> SnapNumber t = SnapNumber s.
Proof.
  rewrite <-(relabel_self s) at 1. rewrite apply_headers_relabel. destruct (apply_headers _ _ _); cbn; [|done..].
  by intros [= <-].
Qed.

(** * Applying a chain in two parts *)
Section Parts.
Context (ecrecover : Header -> result CliqueError Z) (Hash : Header -> Z).

Lemma numbered_contiguous n headers :
  0 <= n -> n + zlen headers <= 2 ^ 64 -> numbered n headers -> check_contiguous headers = Ok tt.
Proof.
  revert n. induction headers as [|h [|h' headers] IH]; intros n Hn Hlen Hnum; [done..|].
  rewrite !zlen_cons in Hlen. pose proof (zlen_nonneg headers).
  rewrite check_contiguous_cons, (Hnum 0%nat h), (Hnum 1%nat h') by done. cbn [rbind].
  rewrite u64_small by (split; lia). rewrite (proj2 (Z.eqb_eq _ _)) by lia. cbn [negb].
  apply (IH (n + 1)); [lia|rewrite zlen_cons; lia|]. intros i hi Hi. rewrite (Hnum (S i) hi Hi). f_equal. lia.
Qed.

Definition labelled (s : Snapshot) (headers : list Header) (t : Snapshot) : Snapshot :=
  match headers with
  | [] => t
  | h :: _ => relabel (SnapNumber s + zlen headers) (Hash (List.last headers h)) t
  end.

Lemma apply_eq s headers :
  0 <= SnapNumber s -> SnapNumber s + zlen headers < 2 ^ 64 -> numbered (SnapNumber s + 1) headers ->
  apply ecrecover Hash s headers = rmap (labelled s headers) (apply_headers ecrecover headers s).
Proof.
  intros H0 Hlen Hnum. destruct headers as [|h headers]; [done|]. unfold apply.
  rewrite (numbered_contiguous (SnapNumber s + 1)) by (done || lia). cbn [rbind]. rewrite (Hnum 0%nat h), Z.add_0_r by done.
  cbn [rbind]. rewrite zlen_cons in Hlen. pose proof (zlen_nonneg headers).
  rewrite u64_small by (split; lia). rewrite Z.eqb_refl. cbn [negb].
  destruct (apply_headers _ _ _) as [t| |] eqn:Ht; cbn; [|done..].
  rewrite (apply_headers_number _ _ _ _ Ht), zlen_cons, u64_small by (split; lia). done.
Qed.

Lemma numbered_app n l1 l2 : numbered n (l1 ++ l2) <-> numbered n l1 /\ numbered (n + zlen l1) l2.
Proof.
  unfold numbered, zlen. split.
  - intros H. split; intros i h Hi; [apply H, lookup_app_l_Some, Hi|].
    rewrite (H (length l1 + i)%nat h); [f_equal; lia|]. rewrite lookup_app_r by lia. by replace (length l1 + i - length l1)%nat with i by lia.
  - intros [H1 H2] i h [Hi|[Hl Hi]]%lookup_app_Some; [by apply H1|]. rewrite (H2 _ _ Hi). f_equal. lia.
Qed.

Lemma last_app_cons (l1 l2 : list Header) h d e : List.last (l1 ++ h :: l2) d = List.last (h :: l2) e.
Proof.
  assert (Hd : forall (l : list Header) y, List.last (y :: l) d = List.last (y :: l) e).
  { induction l as [|z l IH]; intros y; [done|apply (IH z)]. }
  induction l1 as [|x l1 IH]; [apply Hd|]. change ((x :: l1) ++ h :: l2) with (x :: (l1 ++ h :: l2)).
  rewrite <-IH. by destruct l1.
Qed.

Lemma apply_app s l1 l2 :
  0 <= SnapNumber s -> SnapNumber s + zlen (l1 ++ l2) < 2 ^ 64 -> numbered (SnapNumber s + 1) (l1 ++ l2) ->
  apply ecrecover Hash s (l1 ++ l2) = rbind (apply ecrecover Hash s l1) (fun t => apply ecrecover Hash t l2).
Proof.
  intros H0 Hlen Hnum. rewrite apply_eq by done. pose proof Hnum as [Hn1 Hn2]%numbered_app.
  rewrite zlen_app in Hlen. pose proof (zlen_nonneg l2). rewrite (apply_eq s l1) by (done || lia).
  rewrite apply_headers_app. destruct (apply_headers ecrecover l1 s) as [t| |] eqn:Ht; cbn [rbind rmap]; [|done..].
  pose proof (apply_headers_number _ _ _ _ Ht) as Et.
  destruct l1 as [|h1 l1]; [cbn [labelled app]; injection Ht as <-; rewrite apply_eq by done; done|].
  set (u := labelled s (h1 :: l1) t).
  assert (Eu : SnapNumber u = SnapNumber s + zlen (h1 :: l1)) by done. pose proof (zlen_nonneg (h1 :: l1)).
  rewrite (apply_eq u) by (rewrite ?Eu; try lia; by replace (_ + _ + 1) with (SnapNumber s + 1 + zlen (h1 :: l1)) by lia).
  unfold u at 2. cbn [labelled]. rewrite apply_headers_relabel.
  destruct (apply_headers ecrecover l2 t) as [v| |] eqn:Hv; cbn [rbind rmap]; [|done..]. f_equal.
  destruct l2 as [|h2 l2]; [injection Hv as <-; cbn [labelled]; by rewrite app_nil_r|].
  transitivity (relabel (SnapNumber u + zlen (h2 :: l2)) (Hash (List.last (h2 :: l2) h2)) v); [|done].
  rewrite Eu, <-Z.add_assoc, <-zlen_app, <-(last_app_cons (h1 :: l1) l2 h2 h1). done.
Qed.
End Parts.

(** * The walk back to a known snapshot *)
Section Replay.
Context (ecrecover : Header -> result CliqueError Z) (Hash : Header -> Z).
Context (GetHeader : Z -> Z -> option Header) (GetHeaderByNumber : Z -> option Header).
Context (genesis : Header) (rest : list Header) (known : nat) (epoch : Z) (sigs : list Z).
Let headers := genesis :: rest.

(** A chain of headers from genesis, linked by their hashes, of which the
    database has those up to [known]. *)
Record chain_ok : Prop := {
  chain_numbered : numbered 0 headers;
  chain_short : zlen headers < 2 ^ 64;
  chain_linked i p h : headers !! i = Some p -> headers !! S i = Some h -> ParentHash h = Hash p;
  chain_hashes i k p h : headers !! i = Some p -> headers !! k = Some h -> Hash p = Hash h -> i = k;
  chain_known i h : (i <= known)%nat -> headers !! i = Some h -> GetHeader (Hash h) (Z.of_nat i) = Some h;
  chain_by_number i : GetHeaderByNumber (Z.of_nat i) = if (i <=? known)%nat then headers !! i else None;
  chain_genesis : checkpoint_signers genesis = Ok sigs
}.

(** The voting state after [k] blocks, by replaying them all. *)
Definition replay (k : nat) : result CliqueError Snapshot :=
  apply ecrecover Hash (newSnapshot epoch 0 (Hash genesis) sigs) (take k rest).

(** The caches hold only what replaying gives. *)
Record caches_ok (c : Clique) : Prop := {
  caches_epoch : ConfigEpoch c = epoch;
  caches_sound hash s : recents c !! hash = Some s \/ disk c !! hash = Some s ->
    exists k h, headers !! k = Some h /\ Hash h = hash /\ replay k = Ok s
}.

(** The headers the database does not have are passed as parents. *)
Definition parents_of (n : nat) : list Header := drop (S known) (take (S n) headers).

Lemma parents_of_known n : (n <= known)%nat -> parents_of n = [].
Proof. intros. apply drop_ge. rewrite length_take. lia. Qed.

Lemma parents_of_step n h : (known <= n)%nat -> headers !! S n = Some h -> parents_of (S n) = parents_of n ++ [h].
Proof.
  intros Hn Hh. unfold parents_of. rewrite (take_S_r _ _ h Hh). apply drop_app_le.
  apply lookup_lt_Some in Hh. rewrite length_take. lia.
Qed.

Lemma cached_replay c n h s :
  chain_ok -> caches_ok c -> headers !! n = Some h ->
  recents c !! Hash h = Some s \/ disk c !! Hash h = Some s -> replay n = Ok s.
Proof.
  intros Hc [_ Hs] Hh H. destruct (Hs _ _ H) as (k & h' & Hh' & E & Hr). by rewrite (chain_hashes Hc n k h h' Hh Hh').
Qed.

Lemma store_ok c n h s : caches_ok c -> headers !! n = Some h -> SnapHash s = Hash h -> replay n = Ok s -> caches_ok (store s c).
Proof.
  intros [He Hs] Hh E Hr. split; [done|]. intros hash t [H|H]; [apply Hs; by left|].
  unfold store in H. cbn in H. apply lookup_insert_Some in H as [[<- <-]|[_ H]]; [|apply Hs; by right].
  exists n, h. by rewrite E.
Qed.

Lemma store_recent_ok c n h s :
  caches_ok c -> headers !! n = Some h -> SnapHash s = Hash h -> replay n = Ok s ->
  caches_ok (set_recents (<[SnapHash s := s]> (recents c)) c).
Proof.
  intros [He Hs] Hh E Hr. split; [done|]. intros hash t [H|H]; [|apply Hs; by right].
  cbn in H. apply lookup_insert_Some in H as [[<- <-]|[_ H]]; [|apply Hs; by left]. exists n, h. by rewrite E.
Qed.

Lemma find_snapshot_ok fuel n c h acc :
  chain_ok -> caches_ok c -> headers !! n = Some h -> (n < fuel)%nat ->
  exists k s c', (k <= n)%nat /\ replay k = Ok s /\ caches_ok c' /\
    find_snapshot Hash GetHeader GetHeaderByNumber fuel c (Z.of_nat n) (Hash h) (parents_of n) acc =
    Some (Ok (s, acc ++ rev (drop (S k) (take (S n) headers))), c').
Proof.
  intros Hc Hok. revert n h acc. induction fuel as [|fuel IH]; intros n h acc Hh Hf; [lia|]. cbn [find_snapshot].
  assert (Hnil : rev (drop (S n) (take (S n) headers)) = []) by (rewrite drop_ge; [done|rewrite length_take; lia]).
  destruct (recents c !! Hash h) as [s|] eqn:Hrec.
  { exists n, s, c. rewrite Hnil, app_nil_r. split_and!; try done. by eapply cached_replay; [..|left]. }
  destruct (if Z.of_nat n mod checkpointInterval =? 0 then disk c !! Hash h else None) as [s|] eqn:Hdisk.
  { exists n, s, c. rewrite Hnil, app_nil_r. split_and!; try done. case_if_in Hdisk; [|done].
    by eapply cached_replay; [..|right]. }
  clear Hrec Hdisk. destruct n as [|n].
  { injection Hh as <-. cbn [Z.of_nat Z.eqb orb]. pose proof (chain_by_number Hc 0) as E. cbn in E. unfold keep. rewrite E, (chain_genesis Hc).
    set (s := newSnapshot _ _ _ _). exists O, s, (store s c). rewrite Hnil, app_nil_r.
    assert (Hr : replay 0 = Ok s) by (unfold s; by rewrite (caches_epoch _ Hok)). split_and!; try done.
    by apply (store_ok c 0 genesis). }
  rewrite (proj2 (Z.eqb_neq (Z.of_nat (S n)) 0)) by lia. cbn [orb].
  assert (Hlt : Z.of_nat (S n) < 2 ^ 64).
  { pose proof (chain_short Hc). pose proof (lookup_lt_Some _ _ _ Hh). unfold zlen in *. lia. }
  assert (Epred : u64 (Z.of_nat (S n) - 1) = Z.of_nat n) by (rewrite u64_small by (split; lia); lia). rewrite !Epred.
  destruct (lookup_lt_is_Some_2 headers n) as [p Hp]; [apply lookup_lt_Some in Hh; lia|].
  destruct (IH n p (acc ++ [h]) Hp ltac:(lia)) as (k & s & c' & Hk & Hr & Hc' & Hf').
  exists k, s, c'. split; [lia|]. split; [done|]. split; [done|].
  replace (rev (drop (S k) (take (S (S n)) headers))) with (h :: rev (drop (S k) (take (S n) headers))).
  2:{ rewrite (take_S_r _ _ h Hh), drop_app_le, rev_app_distr; [done|]. apply lookup_lt_Some in Hp. rewrite length_take. lia. }
  rewrite <-app_assoc in Hf'. cbn [app] in Hf'. rewrite <-Hf'.
  match goal with |- (if ?b then match _ with Some _ => _ | None => ?w end else _) = ?r => assert (Hw : w = r) end.
  { destruct (decide (n < known)%nat) as [Hn|Hn].
    - rewrite !parents_of_known by lia. cbn [rev]. by rewrite (chain_known Hc (S n) h ltac:(lia) Hh), (chain_linked Hc n p h Hp Hh).
    - rewrite (parents_of_step n h), rev_app_distr by (done || lia). cbn [rev app].
      unfold keep. rewrite (chain_numbered Hc _ _ Hh), Z.add_0_l, !Z.eqb_refl, rev_involutive, (chain_linked Hc n p h Hp Hh). done. }
  rewrite Hw. destruct (_ && _) eqn:Eb; [|done]. apply andb_prop in Eb as [_ Eb]. apply bool_decide_eq_true in Eb.
  rewrite (chain_by_number Hc), Hp in Eb. rewrite (chain_by_number Hc).
  destruct (Nat.leb_spec n known); [done|]. destruct (Nat.leb_spec (S n) known); [lia|done].
Qed.

Lemma rest_numbered : chain_ok -> numbered 1 rest /\ zlen rest < 2 ^ 64.
Proof.
  intros Hc. pose proof (chain_short Hc) as Hl. unfold headers in Hl. rewrite zlen_cons in Hl. split; [|lia].
  intros i h Hi. rewrite (chain_numbered Hc (S i) h Hi). f_equal. lia.
Qed.

Lemma replay_split k n :
  chain_ok -> (k <= n)%nat ->
  replay n = rbind (replay k) (fun s => apply ecrecover Hash s (drop (S k) (take (S n) headers))).
Proof.
  intros [Hnum Hlen]%rest_numbered Hk. unfold replay.
  assert (E : take n rest = take k rest ++ drop k (take n rest)).
  { rewrite <-(take_drop k (take n rest)) at 1. by rewrite take_take, Nat.min_l. }
  change (drop (S k) (take (S n) headers)) with (drop k (take n rest)). rewrite E at 1. apply apply_app; [done|rewrite <-E..].
  - change (0 + zlen (take n rest) < 2 ^ 64). unfold zlen in *. rewrite length_take. lia.
  - intros i h Hi. apply lookup_take_Some in Hi as [Hi _]. by apply Hnum.
Qed.

Lemma replay_hash n h s : chain_ok -> headers !! n = Some h -> replay n = Ok s -> SnapHash s = Hash h.
Proof.
  intros Hc Hh. destruct n as [|n]; [injection Hh as <-; by intros [= <-]|].
  rewrite (replay_split n (S n)) by (done || lia). destruct (replay n) as [t| |]; cbn [rbind]; [|done..].
  rewrite (take_S_r _ _ h Hh). rewrite drop_app_ge by (rewrite length_take; lia).
  pose proof (lookup_lt_Some _ _ _ Hh). rewrite length_take. replace (S n - S n `min` length headers)%nat with O by lia. cbn [drop].
  unfold apply. cbn [check_contiguous rbind]. destruct (number_of h) as [m| |]; cbn [rbind]; [|done..]. case_if; [done|].
  destruct (apply_headers _ _ _); cbn [rbind]; [|done..]. by intros [= <-].
Qed.

(** C27: The snapshot of a block does not depend on the caches. Take a chain of
    headers from genesis, the database having those up to some block, the
    later ones being passed as parents, and caches in memory and on disk that
    hold only results of earlier replays. Then [snapshot] returns, with one
    step per block of fuel, just what replaying the whole chain from genesis
    returns, an error included, and leaves such caches, after an error too. *)
Theorem snapshot_replays n h c :
  chain_ok -> caches_ok c -> headers !! n = Some h ->
  exists c', snapshot ecrecover Hash GetHeader GetHeaderByNumber (snapshot_fuel (Z.of_nat n)) c (Z.of_nat n) (Hash h) (parents_of n)
             = Some (replay n, c') /\ caches_ok c'.
Proof.
  intros Hc Hok Hh. unfold snapshot, snapshot_fuel. rewrite Nat2Z.id.
  destruct (find_snapshot_ok (S n) n c h [] Hc Hok Hh ltac:(lia)) as (k & base & c1 & Hk & Hr & Hok1 & ->).
  cbn [mbind option_bind keep app]. rewrite rev_involutive.
  pose proof (replay_split k n Hc Hk) as Hs. rewrite Hr in Hs. cbn [rbind] in Hs. rewrite <-Hs.
  destruct (replay n) as [s| |] eqn:Hn; cbn [keep]; [|by eexists..]. eexists. split; [done|].
  pose proof (replay_hash n h s Hc Hh Hn) as Hsh.
  pose proof (store_recent_ok c1 n h s Hok1 Hh Hsh Hn). case_if; [by apply (store_ok _ n h)|done].
Qed.
End Replay.

(** * Examples *)
Lemma apply_keeps_snapshot_witness :
  apply example_recover example_hash turns_example example_chain = Ok example_snapshot /\
  snapshot_ok (SnapNumber example_snapshot) example_snapshot.
Proof.
  split; [apply example_apply|].
  destruct (apply_keeps_snapshot example_recover example_hash turns_example example_chain example_snapshot) as (Hok & _);
    [by apply newSnapshot_ok|done|done|apply example_apply|exact Hok].
Defined.

(** The second block makes 40 a signer, by the votes of 10 and 20. *)
Lemma signers_change_by_majority_witness :
  exists u u' signer, apply_headers example_recover (take 1 example_chain) turns_example = Ok u /\
    apply_headers example_recover (take 2 example_chain) turns_example = Ok u' /\ Ok signer = Ok (E := CliqueError) 20 /\
    signer ∈ Signers u.
Proof.
  destruct (signers_change_by_majority example_recover example_hash turns_example example_chain example_snapshot)
    with (k := 1%nat) (h := example_header 2 20 40 1 nonceAuthVote) as (u & u' & signer & H1 & H2 & H3 & H4 & _);
    [by apply newSnapshot_ok|done|done|done|apply example_apply|done|].
  exists u, u', signer. split; [exact H1|]. split; [exact H2|]. split; [exact (eq_sym H3)|exact H4].
Defined.

Definition turns_chain : list Header :=
  [example_header 1 10 0 1 nonceDropVote; example_header 2 20 0 1 nonceDropVote; example_header 3 10 0 1 nonceDropVote].

Lemma turns_signers k u :
  apply_headers example_recover (take k turns_chain) turns_example = Ok u -> 3 <= signers_len u.
Proof.
  intros E. assert (H : match apply_headers example_recover (take k turns_chain) turns_example with
    Ok v => 3 <=? signers_len v | _ => true end = true); [|rewrite E in H; lia]. clear E.
  destruct (decide (3 <= k)%nat); [rewrite take_ge by (cbn; lia); by_compute|].
  destruct k as [|[|[|k]]]; [by_compute..|lia].
Qed.

Lemma signers_take_turns_witness : 3 / 2 < Z.of_nat 2 - Z.of_nat 0.
Proof.
  refine (signers_take_turns example_recover example_hash turns_example turns_chain
    (match apply example_recover example_hash turns_example turns_chain with Ok s => s | _ => turns_example end)
    3 _ _ _ _ turns_signers 0 2 (example_header 1 10 0 1 nonceDropVote) (example_header 3 10 0 1 nonceDropVote) 10 _ _ _ _ _).
  - by apply newSnapshot_ok.
  - done.
  - done.
  - by_compute.
  - lia.
  - done.
  - done.
  - done.
  - done.
Defined.

(** * A chain in a database *)
Definition example_genesis : Header :=
  set_Extra (replicate 32 0 ++ Z_to_be 20 30 ++ Z_to_be 20 10 ++ Z_to_be 20 20 ++ replicate 65 0) (example_header 0 0 0 1 nonceDropVote).

Definition example_headers : list Header := example_genesis :: example_chain.

(** The database has the first two headers. *)
Definition example_by_number (n : Z) : option Header :=
  if (0 <=? n) && (n <=? 1) then example_headers !! Z.to_nat n else None.
Definition example_get (hash n : Z) : option Header := if hash =? n then example_by_number n else None.

Lemma example_chain_ok : chain_ok example_hash example_get example_by_number example_genesis example_chain 1 [30; 10; 20].
Proof.
  split.
  - intros i h Hi. destruct i as [|[|[|[|i]]]]; [injection Hi as <-; reflexivity..|done].
  - done.
  - intros i p h Hp Hh. destruct i as [|[|[|i]]]; [injection Hp as <-; injection Hh as <-; reflexivity..|done].
  - intros i k p h Hp Hh. assert (forall j x, example_headers !! j = Some x -> example_hash x = Z.of_nat j) as Hj.
    { intros j x Hx. destruct j as [|[|[|[|j]]]]; [injection Hx as <-; reflexivity..|done]. }
    rewrite (Hj i p Hp), (Hj k h Hh). lia.
  - intros i h Hi Hh. destruct i as [|[|i]]; [injection Hh as <-; reflexivity..|lia].
  - intros i. unfold example_by_number. destruct i as [|[|i]]; [reflexivity..|].
    destruct (Nat.leb_spec (S (S i)) 1); [lia|]. case_if; [lia|done].
  - by_compute.
Qed.

Lemma snapshot_replays_witness :
  exists s c', snapshot example_recover example_hash example_get example_by_number 4 example_engine 3 3
      [example_header 2 20 40 1 nonceAuthVote; example_header 3 30 0 2 nonceDropVote] = Some (Ok s, c') /\
    replay example_recover example_hash example_genesis example_chain 30000 [30; 10; 20] 3 = Ok s.
Proof.
  destruct (snapshot_replays example_recover example_hash example_get example_by_number example_genesis example_chain 1 30000
    [30; 10; 20] 3 (example_header 3 30 0 2 nonceDropVote) example_engine) as (c' & Hr & Hm).
  - exact example_chain_ok.
  - split; [done|]. intros hash s [H|H]; change ((∅ : gmap Z Snapshot) !! hash = Some s) in H; by rewrite lookup_empty in H.
  - done.
  - assert (Hok : exists s, replay example_recover example_hash example_genesis example_chain 30000 [30; 10; 20] 3 = Ok s)
      by (eexists; vm_compute; reflexivity).
    destruct Hok as [s Hs]. exists s, c'. split; [rewrite <-Hs; exact Hr|exact Hs].
Defined.
