(* ===== verification/TrieEncoding.v ===== *)
(** trie/encoding.go: the key encodings of the trie.  KEYBYTES are the caller's
    bytes, HEX has one nibble per byte and the terminator 16 behind a key that has
    a value, COMPACT packs HEX with a flag nibble and is what is stored. *)

From S2P Require Import Prelude.

(** [hasTerm]: the key ends in the terminator. *)
Definition hasTerm (s : bytes) : bool :=
  (0 <? zlen s) && (nth (length s - 1) s 0 =? 16).

(** [decodeNibbles]: pairs of nibbles are written over the bytes of [buf]; an odd
    nibble, or a buffer that is too short, is an index out of range. *)
Fixpoint decodeNibbles {E} (nibbles buf : bytes) : result E bytes :=
  match nibbles with
  | [] => Ok buf
  | n0 :: n1 :: nibbles =>
      match buf with
      | [] => Panic
      | _ :: buf => rmap (cons (Z.lor (u8 (Z.shiftl n0 4)) n1)) (decodeNibbles nibbles buf)
      end
  | [_] => Panic
  end.

Definition hexToCompact {E} (hex : bytes) : result E bytes :=
  let terminator := if hasTerm hex then 1 else 0 in
  let hex := if hasTerm hex then take (length hex - 1) hex else hex in
  let size := (length hex / 2)%nat in
  let buf0 := u8 (Z.shiftl terminator 5) in
  let odd := Z.land (zlen hex) 1 =? 1 in
  let buf0 := if odd then Z.lor (Z.lor buf0 (Z.shiftl 1 4)) (nth 0 hex 0) else buf0 in
  let hex := if odd then drop 1 hex else hex in
  rmap (cons buf0) (decodeNibbles hex (replicate size 0)).

Fixpoint nibbles (str : bytes) : bytes :=
  match str with
  | [] => []
  | b :: str => b / 16 :: b mod 16 :: nibbles str
  end.

Definition keybytesToHex (str : bytes) : bytes := nibbles str ++ [16].

Definition compactToHex {E} (compact : bytes) : result E bytes :=
  let base := keybytesToHex compact in
  let base := if nth 0 base 0 <? 2 then take (length base - 1) base else base in
  let chop := 2 - Z.land (nth 0 base 0) 1 in
  or_panic (slice base chop (zlen base)).

Definition hexToKeybytes {E} (hex : bytes) : result E bytes :=
  let hex := if hasTerm hex then take (length hex - 1) hex else hex in
  if negb (Z.land (zlen hex) 1 =? 0) then Panic
  else decodeNibbles hex (replicate (length hex / 2)%nat 0).

(** [prefixLen]: length of the common prefix. *)
Fixpoint prefixLen (a b : bytes) : nat :=
  match a, b with
  | x :: a, y :: b => if x =? y then S (prefixLen a b) else O
  | _, _ => O
  end.

(** * Keys *)

(** Nibbles without terminator, and the HEX keys: with a terminator ([hexkey]) or
    with or without one ([hexpath]). *)
Definition is_nibble (x : Z) : Prop := 0 <= x < 16.
Definition nibs (p : bytes) : Prop := Forall is_nibble p.
Definition hexkey (k : bytes) : Prop := exists p, k = p ++ [16] /\ nibs p.
Definition hexpath (k : bytes) : Prop := nibs k \/ hexkey k.

Lemma hasTerm_app p : hasTerm (p ++ [16]) = true.
Proof.
  unfold hasTerm. rewrite zlen_app, length_app. simpl length.
  replace (length p + 1 - 1)%nat with (length p) by lia.
  rewrite app_nth2, Nat.sub_diag by lia. pose proof (zlen_nonneg p).
  change (zlen [16]) with 1. simpl. rewrite andb_true_r. apply Z.ltb_lt. lia.
Qed.

Lemma hasTerm_nibs p : nibs p -> hasTerm p = false.
Proof.
  intros Hp. unfold hasTerm. destruct p as [|x p] using rev_ind; [done|].
  rewrite length_app. simpl length. replace (length p + 1 - 1)%nat with (length p) by lia.
  rewrite app_nth2, Nat.sub_diag by lia. simpl. apply andb_false_intro2, Z.eqb_neq.
  apply Forall_app in Hp as [_ Hx]. apply Forall_cons_iff in Hx as [Hx _]. unfold is_nibble in Hx. lia.
Qed.

Lemma take_term (p : bytes) : take (length (p ++ [16]) - 1) (p ++ [16]) = p.
Proof.
  rewrite length_app. simpl length. replace (length p + 1 - 1)%nat with (length p) by lia.
  apply take_app_length.
Qed.

Lemma nibble_byte n0 n1 :
  is_nibble n0 -> is_nibble n1 ->
  Z.lor (u8 (Z.shiftl n0 4)) n1 = 16 * n0 + n1 /\ is_byte (16 * n0 + n1) /\
  (16 * n0 + n1) / 16 = n0 /\ (16 * n0 + n1) mod 16 = n1.
Proof.
  unfold is_nibble, is_byte. intros H0 H1.
  assert (Z.shiftl n0 4 = 16 * n0) as Hs by (rewrite Z.shiftl_mul_pow2; lia).
  rewrite u8_small by (unfold is_byte; lia).
  rewrite lor_concat by (simpl; lia). change (2 ^ 4) with 16. split; [lia|]. split; [lia|].
  split; [symmetry; by apply (Z.div_unique_pos _ _ _ n1)|symmetry; by apply (Z.mod_unique_pos _ _ n0)].
Qed.

(** Packing pairs of nibbles is the inverse of [nibbles]. *)
Lemma decodeNibbles_ok {E} n p :
  length p = (2 * n)%nat -> nibs p ->
  exists b, @decodeNibbles E p (replicate n 0) = Ok b /\ nibbles b = p /\ wf_bytes b.
Proof.
  revert p. induction n as [|n IH]; intros p Hl Hp.
  - destruct p; [|simpl in Hl; lia]. exists []. split_and!; [done..|constructor].
  - destruct p as [|n0 [|n1 p]]; [simpl in Hl; lia..|].
    apply Forall_cons_iff in Hp as [H0 [H1 Hp]%Forall_cons_iff].
    destruct (IH p) as (b & Hb & Hn & Hwf); [simpl in Hl; lia|done|].
    destruct (nibble_byte n0 n1 H0 H1) as (He & Hby & Hd & Hm).
    exists (16 * n0 + n1 :: b). cbn [decodeNibbles replicate nibbles].
    rewrite Hb, He, Hd, Hm, Hn. split_and!; [done..|by constructor].
Qed.

Lemma decodeNibbles_nibbles {E} b :
  wf_bytes b -> @decodeNibbles E (nibbles b) (replicate (length b) 0) = Ok b.
Proof.
  induction 1 as [|x b Hx Hb IH]; [done|]. cbn [nibbles length replicate decodeNibbles].
  rewrite IH. unfold is_byte in Hx.
  assert (is_nibble (x / 16) /\ is_nibble (x mod 16)) as [Hd Hm].
  { unfold is_nibble. pose proof (Z.mod_pos_bound x 16).
    split; [|lia]. split; [apply Z.div_pos; lia|apply Z.div_lt_upper_bound; lia]. }
  destruct (nibble_byte _ _ Hd Hm) as (He & _). rewrite He, <-Z.div_mod by lia. done.
Qed.

Lemma length_nibbles b : length (nibbles b) = (2 * length b)%nat.
Proof. induction b; simpl; lia. Qed.

Lemma nibs_nibbles b : wf_bytes b -> nibs (nibbles b).
Proof.
  induction 1 as [|x b Hx Hb IH]; [constructor|]. unfold is_byte in Hx. cbn [nibbles].
  pose proof (Z.mod_pos_bound x 16). repeat constructor; try lia; [| |done].
  - apply Z.div_pos; lia.
  - apply Z.div_lt_upper_bound; lia.
Qed.

Lemma hexkey_keybytes b : wf_bytes b -> hexkey (keybytesToHex b).
Proof. intros. exists (nibbles b). split; [done|by apply nibs_nibbles]. Qed.

Lemma nibbles_inj a b : nibbles a = nibbles b -> wf_bytes a -> wf_bytes b -> a = b.
Proof.
  intros Hn Ha Hb. pose proof (@decodeNibbles_nibbles unit a Ha) as H1.
  pose proof (@decodeNibbles_nibbles unit b Hb) as H2.
  pose proof (length_nibbles a). pose proof (length_nibbles b).
  rewrite Hn in H1 at 1. replace (length a) with (length b) in H1 by (rewrite Hn in *; lia). congruence.
Qed.

Lemma keybytesToHex_inj a b :
  wf_bytes a -> wf_bytes b -> keybytesToHex a = keybytesToHex b -> a = b.
Proof. intros Ha Hb H. apply app_inj_tail in H as [H _]. by apply nibbles_inj. Qed.

Lemma land_1 x : Z.land x 1 = x mod 2.
Proof. by apply (Z.land_ones x 1). Qed.

Lemma even_half n : (2 * n / 2 = n)%nat.
Proof. rewrite Nat.mul_comm. by apply Nat.div_mul. Qed.

Lemma hexToCompact_ok {E} (term : bool) p :
  nibs p -> exists b0 b,
    @hexToCompact E (if term then p ++ [16] else p) = Ok (b0 :: b) /\ wf_bytes (b0 :: b) /\
    b0 / 16 = (if term then 2 else 0) + zlen p mod 2 /\
    (zlen p mod 2 = 1 -> b0 mod 16 :: nibbles b = p) /\ (zlen p mod 2 = 0 -> nibbles b = p).
Proof.
  intros Hp. unfold hexToCompact.
  assert (hasTerm (if term then p ++ [16] else p) = term) as ->.
  { destruct term; [apply hasTerm_app|by apply hasTerm_nibs]. }
  assert ((if term then take (length (if term then p ++ [16] else p) - 1)
    (if term then p ++ [16] else p) else if term then p ++ [16] else p) = p) as ->.
  { destruct term; [apply take_term|done]. }
  rewrite land_1. destruct (Nat.Even_or_Odd (length p)) as [[n Hn]|[n Hn]].
  - assert (zlen p mod 2 = 0) as Hz.
    { unfold zlen. rewrite Hn, Nat2Z.inj_mul, Z.mul_comm. apply Z_mod_mult. }
    rewrite Hz, Hn, even_half. destruct (@decodeNibbles_ok E n p Hn Hp) as (b & Hd & Hb & Hwf).
    change (0 =? 1) with false. cbn iota. rewrite Hd. eexists _, b. split; [done|]. split; [constructor; [by destruct term|done]|].
    by destruct term.
  - assert (zlen p mod 2 = 1) as Hz.
    { unfold zlen. rewrite Hn, Nat2Z.inj_add, Nat2Z.inj_mul, Z.add_comm, Z.mul_comm. apply Z_mod_plus_full. }
    rewrite Hz. destruct p as [|x p]; [simpl in Hn; lia|]. apply Forall_cons_iff in Hp as [Hx Hp].
    assert (length p = 2 * n)%nat as Hn' by (simpl in Hn; lia).
    assert (length (x :: p) / 2 = n)%nat as ->.
    { rewrite Hn. symmetry. apply (Nat.div_unique _ 2 n 1); lia. }
    destruct (@decodeNibbles_ok E n p Hn' Hp) as (b & Hd & Hb & Hwf).
    assert (Z.lor (Z.lor (u8 (Z.shiftl (if term then 1 else 0) 5)) (Z.shiftl 1 4)) x =
      16 * (if term then 3 else 1) + x) as Hlor.
    { transitivity (Z.lor (u8 (Z.shiftl (if term then 3 else 1) 4)) x); [by destruct term|].
      apply nibble_byte; [by destruct term|done]. }
    destruct (nibble_byte (if term then 3 else 1) x) as (_ & Hby & Hdiv & Hmod); [by destruct term|done|].
    exists (16 * (if term then 3 else 1) + x), b. simpl (1 =? 1). cbn iota. cbn [nth drop].
    rewrite skipn_O, Hd, Hlor, Hdiv, Hmod, Hb. split; [done|]. split; [by constructor|].
    by destruct term.
Qed.

Lemma compactToHex_cons {E} b0 b :
  @compactToHex E (b0 :: b) =
    let hi := b0 / 16 in
    let tl := nibbles b ++ (if hi <? 2 then [] else [16]) in
    Ok (if hi mod 2 =? 1 then b0 mod 16 :: tl else tl).
Proof.
  unfold compactToHex, keybytesToHex. cbn [nibbles app nth].
  set (hi := b0 / 16). set (tl := nibbles b ++ (if hi <? 2 then [] else [16])).
  assert ((if hi <? 2 then take (length (hi :: b0 mod 16 :: nibbles b ++ [16]) - 1)
    (hi :: b0 mod 16 :: nibbles b ++ [16]) else hi :: b0 mod 16 :: nibbles b ++ [16]) =
    hi :: b0 mod 16 :: tl) as ->.
  { subst tl. case_if; [|done].
    change (hi :: b0 mod 16 :: nibbles b ++ [16]) with ((hi :: b0 mod 16 :: nibbles b) ++ [16]).
    by rewrite take_term, app_nil_r. }
  cbn [nth]. rewrite land_1. pose proof (Z.mod_pos_bound hi 2 ltac:(lia)).
  cbv zeta. case_if.
  - replace (2 - hi mod 2) with (zlen [hi]) by (change (zlen [hi]) with 1; lia).
    change (hi :: b0 mod 16 :: tl) with ([hi] ++ b0 mod 16 :: tl). by rewrite slice_to_end.
  - replace (2 - hi mod 2) with (zlen [hi; b0 mod 16]) by (change (zlen [hi; b0 mod 16]) with 2; lia).
    change (hi :: b0 mod 16 :: tl) with ([hi; b0 mod 16] ++ tl). by rewrite slice_to_end.
Qed.

Lemma compactToHex_hexToCompact {E} k :
  hexpath k -> exists c, @hexToCompact E k = Ok c /\ wf_bytes c /\ @compactToHex E c = Ok k.
Proof.
  intros Hk. assert (exists (term : bool) p, k = (if term then p ++ [16] else p) /\ nibs p)
    as (term & p & -> & Hp).
  { destruct Hk as [Hk|(p & -> & Hp)]; [by exists false, k|by exists true, p]. }
  destruct (@hexToCompact_ok E term p Hp) as (b0 & b & Hc & Hwf & Hdiv & Hodd & Heven).
  exists (b0 :: b). split; [done|]. split; [done|].
  rewrite compactToHex_cons. cbv zeta. rewrite Hdiv.
  destruct (Z.mod_pos_bound (zlen p) 2 ltac:(lia)).
  assert (zlen p mod 2 = 0 \/ zlen p mod 2 = 1) as [Hz|Hz] by lia; rewrite Hz in *.
  - rewrite Heven by done. destruct term; simpl; by rewrite ?app_nil_r.
  - rewrite <-(Hodd eq_refl). destruct term; simpl; by rewrite ?app_nil_r.
Qed.

Lemma hexToKeybytes_keybytesToHex {E} b :
  wf_bytes b -> @hexToKeybytes E (keybytesToHex b) = Ok b.
Proof.
  intros Hb. unfold hexToKeybytes, keybytesToHex. rewrite hasTerm_app, take_term.
  unfold zlen. rewrite length_nibbles, even_half, land_1, Nat2Z.inj_mul, Z.mul_comm, Z_mod_mult.
  simpl. by apply decodeNibbles_nibbles.
Qed.

(** The encodings of trie keys lose nothing. A HEX key, with or without
    terminator, packed by [hexToCompact] is unpacked by [compactToHex] to
    itself, and [hexToKeybytes] recovers the bytes that [keybytesToHex] spread
    out. *)
Theorem key_encodings_roundtrip {E} k b :
  hexpath k -> wf_bytes b ->
  (exists c, @hexToCompact E k = Ok c /\ wf_bytes c /\ @compactToHex E c = Ok k) /\
  @hexToKeybytes E (keybytesToHex b) = Ok b.
Proof. intros Hk Hb. split; [by apply compactToHex_hexToCompact|by apply hexToKeybytes_keybytesToHex]. Qed.

Lemma key_encodings_roundtrip_witness :
  (exists c, @hexToCompact unit [1; 2; 3; 16] = Ok c /\ wf_bytes c /\ @compactToHex unit c = Ok [1; 2; 3; 16]) /\
  @hexToKeybytes unit (keybytesToHex [18; 255]) = Ok [18; 255].
Proof.
  apply (key_encodings_roundtrip [1; 2; 3; 16] [18; 255]); [|by_decide].
  right. exists [1; 2; 3]. split; [done|]. repeat constructor; done.
Defined.
