(* ===== verification/TrieModel.v ===== *)
(** trie/node.go and trie/trie.go: the nodes of the Merkle Patricia trie and its
    lookup, insertion and deletion.  The database behind the trie is its operation
    [Database.node], which loads and decodes the node with a given hash. *)

From S2P Require Import Prelude TrieEncoding.

(** [nodeFlag]; a nil hash is [None]. *)
Record nodeFlag := NodeFlag { fhash : option bytes; fgen : Z; dirty : bool }.

(** [node]: the nil interface, the two structs and the two byte strings. *)
Inductive node :=
| nilNode
| fullNode (Children : list node) (flags : nodeFlag)
| shortNode (Key : bytes) (Val : node) (flags : nodeFlag)
| hashNode (h : bytes)
| valueNode (v : bytes).

Inductive TrieError :=
| MissingNodeError (NodeHash Path : bytes)
| trieOutOfFuel.                    (* not an error of the code: the model's fuel *)

Record Trie := mkTrie { root : node; cachegen : Z; cachelimit : Z }.

Definition set_root (n : node) (t : Trie) : Trie := mkTrie n (cachegen t) (cachelimit t).

Definition is_nil (n : node) : bool := match n with nilNode => true | _ => false end.

(** [newFlag]: of a node made or changed by this trie. *)
Definition newFlag (t : Trie) : nodeFlag := NodeFlag None (cachegen t) true.

Definition set_gen (g : Z) (f : nodeFlag) : nodeFlag := NodeFlag (fhash f) g (dirty f).

(** [n.Children[i] = c] on the copied array. *)
Definition set_child {E} (cs : list node) (i : Z) (c : node) : result E (list node) :=
  if (0 <=? i) && (i <? zlen cs) then Ok (<[Z.to_nat i := c]> cs) else Panic.

(** The loop of [delete] over the children: the position of the only non-nil one,
    -1 without any, -2 with several. *)
Fixpoint only_child (i pos : Z) (cs : list node) : Z :=
  match cs with
  | [] => pos
  | c :: cs =>
      if is_nil c then only_child (i + 1) pos cs
      else if pos =? -1 then only_child (i + 1) i cs
      else -2
  end.

Definition concat (s1 s2 : bytes) : bytes := s1 ++ s2.

Definition empty_children : list node := replicate 17 nilNode.

(** [common.BytesToHash]: cropped from the left or padded on the left to 32 bytes. *)
Definition BytesToHash (b : bytes) : bytes :=
  let b := if 32 <? zlen b then drop (length b - 32) b else b in
  replicate (32 - length b) 0 ++ b.

Section trie.
Context (dbnode : bytes -> Z -> option node) (t : Trie).

Definition resolveHash (n prefix : bytes) : result TrieError node :=
  let hash := BytesToHash n in
  match dbnode hash (cachegen t) with
  | Some n => Ok n
  | None => Err (MissingNodeError hash prefix)
  end.

Definition resolve (n : node) (prefix : bytes) : result TrieError node :=
  match n with hashNode h => resolveHash h prefix | _ => Ok n end.

(** [tryGet]: value, node with the loaded nodes put in, and whether one was loaded. *)
Fixpoint tryGet (fuel : nat) (origNode : node) (key : bytes) (pos : Z) :
    result TrieError (option bytes * node * bool) :=
  match fuel with
  | O => Err trieOutOfFuel
  | S fuel =>
      match origNode with
      | nilNode => Ok (None, nilNode, false)
      | valueNode v => Ok (Some v, valueNode v, false)
      | shortNode k val flags =>
          let! mismatch :=
            if zlen key - pos <? zlen k then Ok true
            else rmap (fun part => negb (bytes_eqb k part)) (or_panic (slice key pos (pos + zlen k))) in
          if mismatch : bool then Ok (None, origNode, false)
          else
            let! (value, newnode, didResolve) := tryGet fuel val key (pos + zlen k) in
            if didResolve : bool then Ok (value, shortNode k newnode (set_gen (cachegen t) flags), true)
            else Ok (value, origNode, false)
      | fullNode cs flags =>
          let! c := or_panic (index key pos) in
          let! child := or_panic (index cs c) in
          let! (value, newnode, didResolve) := tryGet fuel child key (pos + 1) in
          if didResolve : bool then
            let! cs := set_child cs c newnode in
            Ok (value, fullNode cs (set_gen (cachegen t) flags), true)
          else Ok (value, origNode, false)
      | hashNode h =>
          let! path := or_panic (slice key 0 pos) in
          let! child := resolveHash h path in
          let! (value, newnode, _) := tryGet fuel child key pos in
          Ok (value, newnode, true)
      end
  end.

(** [insert]: whether the node changed, and the new node. *)
Fixpoint insert (fuel : nat) (n : node) (prefix key : bytes) (value : node) :
    result TrieError (bool * node) :=
  match fuel with
  | O => Err trieOutOfFuel
  | S fuel =>
      if zlen key =? 0 then
        match n, value with
        | valueNode v, valueNode v' => Ok (negb (bytes_eqb v v'), value)
        | valueNode _, _ => Panic
        | _, _ => Ok (true, value)
        end
      else
        match n with
        | shortNode nKey nVal flags =>
            let matchlen := prefixLen key nKey in
            if (matchlen =? length nKey)%nat then
              let! (dirty, nn) :=
                insert fuel nVal (prefix ++ take matchlen key) (drop matchlen key) value in
              if negb dirty then Ok (false, n) else Ok (true, shortNode nKey nn (newFlag t))
            else
              let! c1 := or_panic (nKey !! matchlen) in
              let! (_, n1) :=
                insert fuel nilNode (prefix ++ take (matchlen + 1) nKey) (drop (matchlen + 1) nKey) nVal in
              let! cs := set_child empty_children c1 n1 in
              let! c2 := or_panic (key !! matchlen) in
              let! (_, n2) :=
                insert fuel nilNode (prefix ++ take (matchlen + 1) key) (drop (matchlen + 1) key) value in
              let! cs := set_child cs c2 n2 in
              let branch := fullNode cs (newFlag t) in
              if (matchlen =? 0)%nat then Ok (true, branch)
              else Ok (true, shortNode (take matchlen key) branch (newFlag t))
        | fullNode cs flags =>
            let! c := or_panic (index key 0) in
            let! child := or_panic (index cs c) in
            let! (dirty, nn) := insert fuel child (prefix ++ [c]) (drop 1 key) value in
            if negb dirty then Ok (false, n)
            else let! cs := set_child cs c nn in Ok (true, fullNode cs (newFlag t))
        | nilNode => Ok (true, shortNode key value (newFlag t))
        | hashNode h =>
            let! rn := resolveHash h prefix in
            let! (dirty, nn) := insert fuel rn prefix key value in
            if negb dirty then Ok (false, rn) else Ok (true, nn)
        | valueNode _ => Panic
        end
  end.

(** The end of [delete] on a full node, with the children after the deletion: a
    single child is taken out of the node. *)
Definition shrink (cs : list node) (prefix : bytes) : result TrieError (bool * node) :=
  let pos := only_child 0 (-1) cs in
  if 0 <=? pos then
    let! last := or_panic (index cs pos) in
    let unmerged := Ok (true, shortNode [pos] last (newFlag t)) in
    if negb (pos =? 16) then
      let! cnode := resolve last prefix in
      match cnode with
      | shortNode cKey cVal _ => Ok (true, shortNode (pos :: cKey) cVal (newFlag t))
      | _ => unmerged
      end
    else unmerged
  else Ok (true, fullNode cs (newFlag t)).

(** [delete]: whether the node changed, and the new node. *)
Fixpoint delete (fuel : nat) (n : node) (prefix key : bytes) : result TrieError (bool * node) :=
  match fuel with
  | O => Err trieOutOfFuel
  | S fuel =>
      match n with
      | shortNode nKey nVal flags =>
          let matchlen := prefixLen key nKey in
          if (matchlen <? length nKey)%nat then Ok (false, n)
          else if (matchlen =? length key)%nat then Ok (true, nilNode)
          else
            let! (dirty, child) :=
              delete fuel nVal (prefix ++ take (length nKey) key) (drop (length nKey) key) in
            if negb dirty then Ok (false, n)
            else
              match child with
              | shortNode cKey cVal _ => Ok (true, shortNode (concat nKey cKey) cVal (newFlag t))
              | _ => Ok (true, shortNode nKey child (newFlag t))
              end
      | fullNode cs flags =>
          let! c := or_panic (index key 0) in
          let! child := or_panic (index cs c) in
          let! (dirty, nn) := delete fuel child (prefix ++ [c]) (drop 1 key) in
          if negb dirty then Ok (false, n)
          else
            let! cs := set_child cs c nn in
            shrink cs prefix
      | valueNode _ => Ok (true, nilNode)
      | nilNode => Ok (false, nilNode)
      | hashNode h =>
          let! rn := resolveHash h prefix in
          let! (dirty, nn) := delete fuel rn prefix key in
          if negb dirty then Ok (false, rn) else Ok (true, nn)
      end
  end.

(** [TryGet], [TryUpdate], [TryDelete]: the value or error, and the trie after it. *)
Definition TryGet (fuel : nat) (key : bytes) : result TrieError (option bytes) * Trie :=
  match tryGet fuel (root t) (keybytesToHex key) 0 with
  | Ok (value, newroot, didResolve) => (Ok value, if didResolve : bool then set_root newroot t else t)
  | Err e => (Err e, t)
  | Panic => (Panic, t)
  end.

Definition TryDelete (fuel : nat) (key : bytes) : result TrieError unit * Trie :=
  match delete fuel (root t) [] (keybytesToHex key) with
  | Ok (_, n) => (Ok tt, set_root n t)
  | Err e => (Err e, t)
  | Panic => (Panic, t)
  end.

Definition TryUpdate (fuel : nat) (key value : bytes) : result TrieError unit * Trie :=
  if negb (zlen value =? 0) then
    match insert fuel (root t) [] (keybytesToHex key) (valueNode value) with
    | Ok (_, n) => (Ok tt, set_root n t)
    | Err e => (Err e, t)
    | Panic => (Panic, t)
    end
  else TryDelete fuel key.
End trie.
