(* ===== verification/TrieSpec.v ===== *)
(** The trie as a finite map.  A node graph with hash references represents a
    reference-free tree; insertion and deletion keep the tree in the one shape that
    its content determines, so that the tree, and with it the root hash, does not
    depend on the order of the operations. *)

From S2P Require Import Prelude TrieEncoding TrieModel.

(** * Trees and their content *)
Inductive tree :=
| TNil
| TVal (v : bytes)
| TShort (k : bytes) (t : tree)
| TFull (ts : list tree).

Fixpoint tget (t : tree) (key : bytes) : option bytes :=
  match t with
  | TNil => None
  | TVal v => Some v
  | TShort k t =>
      if bool_decide (take (length k) key = k) then tget t (drop (length k) key) else None
  | TFull ts =>
      match key with
      | [] => None
      | c :: key => nth (Z.to_nat c) (map (fun t => tget t key) ts) None
      end
  end.

Definition is_full (t : tree) : Prop := exists ts, t = TFull ts.
Definition is_short (t : tree) : Prop := exists k t', t = TShort k t'.

(** Two children at least. *)
Definition branches (ts : list tree) : Prop :=
  exists i j ti tj, i <> j /\ ts !! i = Some ti /\ ts !! j = Some tj /\ ti <> TNil /\ tj <> TNil.

(** The shape of a subtree below a key: leaves, extensions of a branch, branches. *)
Inductive wf_sub : tree -> Prop :=
| wf_leaf p v : nibs p -> v <> [] -> wf_sub (TShort (p ++ [16]) (TVal v))
| wf_ext k ts : k <> [] -> nibs k -> wf_sub (TFull ts) -> wf_sub (TShort k (TFull ts))
| wf_full ts :
    length ts = 17%nat ->
    (forall i t, (i < 16)%nat -> ts !! i = Some t -> t <> TNil -> wf_sub t) ->
    (forall t, ts !! 16%nat = Some t -> t <> TNil -> exists v, t = TVal v /\ v <> []) ->
    branches ts -> wf_sub (TFull ts).

Definition wf_tree (t : tree) : Prop := t = TNil \/ wf_sub t.

(** * Keys *)
Lemma nibs_nil : nibs [].
Proof. constructor. Qed.
#[local] Hint Resolve nibs_nil : core.

Lemma hexkey_nil : ~ hexkey [].
Proof. intros (p & H & _). by destruct p. Qed.

Lemma hexkey_cons x k : hexkey (x :: k) <-> (x = 16 /\ k = []) \/ (is_nibble x /\ hexkey k).
Proof.
  split.
  - intros ([|y p] & H & Hp); simplify_eq/=; [by left|right].
    apply Forall_cons_iff in Hp as [? ?]. split; [done|by exists p].
  - intros [[-> ->]|[Hx (p & -> & Hp)]]; [by exists []|exists (x :: p)]. split; [done|by constructor].
Qed.

Lemma hexkey_app p k : nibs p -> hexkey (p ++ k) <-> hexkey k.
Proof.
  induction 1 as [|x p Hx Hp IH]; [done|]. cbn [app]. rewrite hexkey_cons, IH.
  split; [|by right]. intros [[-> _]|[_ ?]]; [unfold is_nibble in Hx; lia|done].
Qed.

Lemma hexkey_prefix k r : hexkey (k ++ r) -> hexkey k -> r = [].
Proof.
  intros Hkr (p & -> & Hp). rewrite <-app_assoc in Hkr. apply hexkey_app in Hkr; [|done].
  cbn in Hkr. apply hexkey_cons in Hkr as [[_ ?]|[H _]]; [done|unfold is_nibble in H; lia].
Qed.

Lemma hexkey_nibs_app k r : nibs (k ++ r) -> ~ hexkey k.
Proof.
  intros Hkr (p & -> & _). apply Forall_app in Hkr as [[_ H]%Forall_app _].
  apply Forall_cons_iff in H as [H _]. unfold is_nibble in H. lia.
Qed.

(** A proper prefix of a key has no terminator. *)
Lemma hexkey_split p x k : hexkey (p ++ x :: k) -> nibs p /\ hexkey (x :: k).
Proof.
  induction p as [|y p IH]; cbn [app]; [done|].
  rewrite hexkey_cons. intros [[_ H]|[Hy H]]; [by destruct p|].
  destruct (IH H). split; [by constructor|done].
Qed.

Lemma prefixLen_split a b : exists p a' b',
  a = p ++ a' /\ b = p ++ b' /\ prefixLen a b = length p /\
  (a' = [] \/ b' = [] \/ exists x y a'' b'', a' = x :: a'' /\ b' = y :: b'' /\ x <> y).
Proof.
  revert b. induction a as [|x a IH]; intros b.
  { exists [], [], b. split_and!; try done. by left. }
  destruct b as [|y b]. { exists [], (x :: a), []. split_and!; try done. by right; left. }
  cbn [prefixLen]. case_if.
  - subst y. destruct (IH b) as (p & a' & b' & -> & -> & -> & H). by exists (x :: p), a', b'.
  - exists [], (x :: a), (y :: b). split_and!; try done. right; right. by exists x, y, a, b.
Qed.

(** * Lookup *)
Lemma tget_short_app k t r : tget (TShort k t) (k ++ r) = tget t r.
Proof. cbn [tget]. rewrite take_app_length, bool_decide_true, drop_app_length; done. Qed.

Lemma tget_short_ne k t key : (forall r, key <> k ++ r) -> tget (TShort k t) key = None.
Proof.
  intros H. cbn [tget]. rewrite bool_decide_false; [done|]. intros He.
  apply (H (drop (length k) key)). by rewrite <-He at 1; rewrite take_drop.
Qed.

Lemma tget_full ts c key t :
  ts !! Z.to_nat c = Some t -> tget (TFull ts) (c :: key) = tget t key.
Proof.
  intros Ht. cbn [tget]. apply nth_lookup_Some.
  rewrite list_lookup_fmap, Ht. done.
Qed.

(** * The content determines the tree *)
Lemma nibble_nat (i : nat) : (i < 16)%nat -> is_nibble (Z.of_nat i).
Proof. unfold is_nibble. lia. Qed.

Lemma leaf_key p v k w :
  nibs p -> hexkey k -> tget (TShort (p ++ [16]) (TVal v)) k = Some w -> k = p ++ [16] /\ w = v.
Proof.
  intros Hp Hk. cbn [tget]. case_bool_decide as Ht; [|done]. intros [= <-]. split; [|done].
  assert (k = (p ++ [16]) ++ drop (length (p ++ [16])) k) as He
    by (rewrite <-Ht at 1; by rewrite take_drop).
  rewrite He in Hk. pose proof (hexkey_prefix _ _ Hk (ex_intro _ p (conj eq_refl Hp))) as Hr.
  by rewrite He, Hr, app_nil_r.
Qed.

Lemma leaf_get p v : tget (TShort (p ++ [16]) (TVal v)) (p ++ [16]) = Some v.
Proof. rewrite <-(app_nil_r (p ++ [16])) at 2. by rewrite tget_short_app. Qed.

Lemma short_key k t key w : tget (TShort k t) key = Some w -> exists r, key = k ++ r.
Proof.
  cbn [tget]. case_bool_decide as Ht; [|done]. intros _. exists (drop (length k) key).
  by rewrite <-Ht at 1; rewrite take_drop.
Qed.

Lemma full_child_key ts i t k v :
  (i < 16)%nat -> ts !! i = Some t -> hexkey k -> tget t k = Some v ->
  hexkey (Z.of_nat i :: k) /\ tget (TFull ts) (Z.of_nat i :: k) = Some v.
Proof.
  intros Hi Ht Hk Hv. split; [apply hexkey_cons; right; split; [by apply nibble_nat|done]|].
  by rewrite (tget_full _ _ _ t) by (by rewrite Nat2Z.id).
Qed.

(** Every subtree holds a key, a branch holds one below each of its children. *)
Lemma wf_sub_key t : wf_sub t -> exists k v, hexkey k /\ tget t k = Some v.
Proof.
  induction 1 as [p v Hp Hv|k ts Hne Hk _ (k' & v & Hk' & Hv)|ts Hl Hs IH H16 (i & _ & ti & _ & _ & Hi & _ & Hti & _)].
  - exists (p ++ [16]), v. split; [by exists p|apply leaf_get].
  - exists (k ++ k'), v. split; [by apply hexkey_app|by rewrite tget_short_app].
  - pose proof (lookup_lt_Some _ _ _ Hi). destruct (decide (i < 16)%nat) as [Hlt|].
    + destruct (IH i ti Hlt Hi Hti) as (k & v & Hk & Hv).
      exists (Z.of_nat i :: k), v. by apply (full_child_key ts i ti).
    + assert (i = 16%nat) as -> by lia. destruct (H16 ti Hi Hti) as (v & -> & _).
      exists [16], v. split; [by exists []|]. by rewrite (tget_full _ 16 _ (TVal v)).
Qed.

Lemma full_key ts i t :
  wf_sub (TFull ts) -> ts !! i = Some t -> t <> TNil ->
  exists k v, hexkey (Z.of_nat i :: k) /\ tget (TFull ts) (Z.of_nat i :: k) = Some v.
Proof.
  inversion 1 as [|? ? ? ? ?|? Hl Hs H16 _]; subst. intros Hi Ht. pose proof (lookup_lt_Some _ _ _ Hi).
  destruct (decide (i < 16)%nat) as [Hlt|].
  - destruct (wf_sub_key t) as (k & v & Hk & Hv); [by apply (Hs i)|].
    exists k, v. by apply (full_child_key ts i t).
  - assert (i = 16%nat) as -> by lia. destruct (H16 t Hi Ht) as (v & -> & _).
    exists [], v. split; [by exists []|]. by rewrite (tget_full _ 16 _ (TVal v)).
Qed.

Lemma full_two ts :
  wf_sub (TFull ts) -> exists c1 k1 v1 c2 k2 v2, c1 <> c2 /\ hexkey (c1 :: k1) /\
    hexkey (c2 :: k2) /\ tget (TFull ts) (c1 :: k1) = Some v1 /\ tget (TFull ts) (c2 :: k2) = Some v2.
Proof.
  intros Hwf. inversion Hwf as [|? ? ? ? ?|? ? ? ? (i & j & ti & tj & Hij & Hi & Hj & Hti & Htj)]; subst.
  destruct (full_key ts i ti Hwf Hi Hti) as (k1 & v1 & ? & ?).
  destruct (full_key ts j tj Hwf Hj Htj) as (k2 & v2 & ? & ?).
  exists (Z.of_nat i), k1, v1, (Z.of_nat j), k2, v2. split_and!; try done. lia.
Qed.

Lemma fork_prefix (k1 k2 r1 r2 a1 a2 : bytes) c1 c2 :
  k2 ++ c1 :: a1 = k1 ++ r1 -> k2 ++ c2 :: a2 = k1 ++ r2 -> c1 <> c2 -> exists r, k2 = k1 ++ r.
Proof.
  revert k2. induction k1 as [|x k1 IH]; intros k2 H1 H2 Hc; [by exists k2|].
  destruct k2 as [|y k2]; simplify_eq/=. destruct (IH k2) as [r ->]; [done..|]. by exists r.
Qed.

(** Same content, as far as keys with a terminator go. *)
Definition same (t1 t2 : tree) : Prop := forall k, hexkey k -> tget t1 k = tget t2 k.

Lemma same_sym t1 t2 : same t1 t2 -> same t2 t1.
Proof. intros H k Hk. by rewrite H. Qed.

Lemma ext_prefix k1 k2 ts1 ts2 :
  nibs k2 -> wf_sub (TFull ts2) -> same (TShort k1 (TFull ts1)) (TShort k2 (TFull ts2)) ->
  exists r, k2 = k1 ++ r.
Proof.
  intros Hk2 Hwf Hs. destruct (full_two ts2 Hwf) as (c1 & a1 & v1 & c2 & a2 & v2 & Hc & H1 & H2 & Hv1 & Hv2).
  assert (tget (TShort k1 (TFull ts1)) (k2 ++ c1 :: a1) = Some v1) as [r1 Hr1]%short_key.
  { rewrite Hs by (by apply hexkey_app). by rewrite tget_short_app. }
  assert (tget (TShort k1 (TFull ts1)) (k2 ++ c2 :: a2) = Some v2) as [r2 Hr2]%short_key.
  { rewrite Hs by (by apply hexkey_app). by rewrite tget_short_app. }
  exact (fork_prefix _ _ _ _ _ _ _ _ Hr1 Hr2 Hc).
Qed.

Lemma leaf_not_full p v ts : nibs p -> wf_sub (TFull ts) -> ~ same (TShort (p ++ [16]) (TVal v)) (TFull ts).
Proof.
  intros Hp Hwf Hs. destruct (full_two ts Hwf) as (c1 & a1 & v1 & c2 & a2 & v2 & Hc & H1 & H2 & Hv1 & Hv2).
  rewrite <-Hs in Hv1, Hv2 by done. apply leaf_key in Hv1 as [He1 _], Hv2 as [He2 _]; [|done..]. congruence.
Qed.

Lemma leaf_not_ext p v k ts :
  nibs p -> nibs k -> wf_sub (TFull ts) -> ~ same (TShort (p ++ [16]) (TVal v)) (TShort k (TFull ts)).
Proof.
  intros Hp Hk Hwf Hs. destruct (full_two ts Hwf) as (c1 & a1 & v1 & c2 & a2 & v2 & Hc & H1 & H2 & Hv1 & Hv2).
  apply (hexkey_app k) in H1, H2; [|done..].
  rewrite <-(tget_short_app k), <-Hs in Hv1, Hv2 by done.
  apply leaf_key in Hv1 as [He1 _], Hv2 as [He2 _]; [|done..]. simplify_eq. rewrite <-He1 in He2. simplify_eq.
Qed.

Lemma ext_not_full k ts1 ts : k <> [] -> wf_sub (TFull ts) -> ~ same (TShort k (TFull ts1)) (TFull ts).
Proof.
  intros Hk Hwf Hs. destruct (full_two ts Hwf) as (c1 & a1 & v1 & c2 & a2 & v2 & Hc & H1 & H2 & Hv1 & Hv2).
  rewrite <-Hs in Hv1, Hv2 by done. apply short_key in Hv1 as [r1 Hr1], Hv2 as [r2 Hr2].
  destruct k; simplify_eq/=.
Qed.

Lemma same_nil t : wf_tree t -> same t TNil -> t = TNil.
Proof.
  intros [->|Hwf] Hs; [done|]. destruct (wf_sub_key t Hwf) as (k & v & Hk & Hv).
  rewrite Hs in Hv; done.
Qed.

Lemma tree_nil_dec (t : tree) : t = TNil \/ t <> TNil.
Proof. destruct t; (by left) || (by right). Qed.

Lemma same_children ts1 ts2 :
  length ts1 = 17%nat -> length ts2 = 17%nat ->
  (forall i t, (i < 16)%nat -> ts1 !! i = Some t -> t <> TNil -> wf_sub t) ->
  (forall t, ts1 !! 16%nat = Some t -> t <> TNil -> exists v, t = TVal v /\ v <> []) ->
  (forall i t, (i < 16)%nat -> ts2 !! i = Some t -> t <> TNil -> wf_sub t) ->
  (forall t, ts2 !! 16%nat = Some t -> t <> TNil -> exists v, t = TVal v /\ v <> []) ->
  (forall i t, (i < 16)%nat -> ts1 !! i = Some t -> t <> TNil ->
     forall t2, wf_sub t2 -> same t t2 -> t = t2) ->
  same (TFull ts1) (TFull ts2) -> ts1 = ts2.
Proof.
  intros Hl1 Hl2 Hc1 H161 Hc2 H162 IH Hs. apply (list_eq_same_length _ _ 17); [done..|].
  intros i t1 t2 Hi Ht1 Ht2.
  assert (forall k, hexkey (Z.of_nat i :: k) -> tget t1 k = tget t2 k) as Hsub.
  { intros k Hk. pose proof (Hs _ Hk) as H.
    by rewrite !(tget_full _ _ _ _) in H by (rewrite Nat2Z.id; done). }
  destruct (decide (i < 16)%nat) as [Hlt|Hge].
  - assert (same t1 t2) as Hst.
    { intros k Hk. apply Hsub, hexkey_cons. right. split; [by apply nibble_nat|done]. }
    destruct (tree_nil_dec t1) as [->|Hn1].
    { symmetry. apply same_nil; [|by apply same_sym]. destruct (tree_nil_dec t2); [by left|right; eauto]. }
    destruct (tree_nil_dec t2) as [->|Hn2]; [apply same_nil; [right; eauto|done]|].
    eapply IH; eauto.
  - assert (i = 16%nat) as -> by lia. specialize (Hsub [] (ex_intro _ [] (conj eq_refl nibs_nil))).
    destruct (tree_nil_dec t1) as [->|Hn1], (tree_nil_dec t2) as [->|Hn2]; try done.
    + destruct (H162 t2 Ht2 Hn2) as (v & -> & _). done.
    + destruct (H161 t1 Ht1 Hn1) as (v & -> & _). done.
    + destruct (H161 t1 Ht1 Hn1) as (v & -> & _), (H162 t2 Ht2 Hn2) as (v2 & -> & _). by injection Hsub as ->.
Qed.

Lemma wf_sub_eq t1 t2 :
  wf_sub t1 -> wf_sub t2 -> same t1 t2 -> t1 = t2.
Proof.
  intros H1. revert t2. induction H1 as [p v Hp Hv|k ts Hne Hk Hts IH|ts Hl Hch IH H16 Hbr];
    intros t2 H2 Hs.
  - destruct H2 as [p2 v2 Hp2 Hv2|k2 ts2 Hne2 Hk2 Hts2|ts2 ? ? ? ?].
    + pose proof (leaf_get p v) as Hg. rewrite Hs in Hg by (by exists p).
      apply leaf_key in Hg as [He ->]; [by rewrite He|done|by exists p].
    + by apply leaf_not_ext in Hs.
    + apply leaf_not_full in Hs; [done..|by constructor].
  - destruct H2 as [p2 v2 Hp2 Hv2|k2 ts2 Hne2 Hk2 Hts2|ts2 ? ? ? ?].
    + by apply same_sym, leaf_not_ext in Hs.
    + destruct (ext_prefix k k2 ts ts2) as [r Hr]; [done..|].
      destruct (ext_prefix k2 k ts2 ts) as [r' Hr']; [done..|by apply same_sym|].
      assert (k2 = k) as ->.
      { rewrite Hr in Hr'. rewrite <-app_assoc in Hr'. rewrite <-(app_nil_r k) in Hr' at 1.
        apply app_inv_head in Hr'. symmetry in Hr'. apply app_nil in Hr' as [-> _]. by rewrite Hr, app_nil_r. }
      f_equal. apply IH; [done|]. intros key Hkey.
      rewrite <-(tget_short_app k), Hs, tget_short_app; [done|by apply hexkey_app].
    + apply ext_not_full in Hs; [done..|by constructor].
  - destruct H2 as [p2 v2 Hp2 Hv2|k2 ts2 Hne2 Hk2 Hts2|ts2 Hl2 Hch2 H162 Hbr2].
    + apply same_sym, leaf_not_full in Hs; [done..|by constructor].
    + apply same_sym, ext_not_full in Hs; [done..|by constructor].
    + f_equal. by apply same_children.
Qed.

Lemma wf_tree_eq t1 t2 : wf_tree t1 -> wf_tree t2 -> same t1 t2 -> t1 = t2.
Proof.
  intros [->|H1] [->|H2] Hs; [done|..|by apply wf_sub_eq].
  - symmetry. apply same_nil; [by right|by apply same_sym].
  - apply same_nil; [by right|done].
Qed.
