(* ===== verification/TrieUpdate.v ===== *)
(** How the content of a tree changes when parts of it are replaced; the steps of
    insertion and deletion on trees without references. *)

From S2P Require Import Prelude TrieEncoding TrieModel TrieSpec.

(** A position in a tree with the rest [k] of the key that leads there: a subtree
    while nibbles are left, a value or nothing behind the terminator. *)
Definition slot (t : tree) (k : bytes) : Prop :=
  (hexkey k /\ wf_tree t) \/ (k = [] /\ (t = TNil \/ exists v, t = TVal v /\ v <> [])).

(** The keys that may be looked up at the same position as [k]. *)
Definition alike (k k' : bytes) : Prop := (hexkey k /\ hexkey k') \/ (k = [] /\ k' = []).

(** [t'] is [t] with [o] at [key]. *)
Definition updates (t t' : tree) (key : bytes) (o : option bytes) : Prop :=
  forall k, alike key k -> tget t' k = if decide (k = key) then o else tget t k.

Lemma hexkey_16 : hexkey [16].
Proof. exists []. split; [done|constructor]. Qed.

Lemma hexkey_ne k : hexkey k -> k <> [].
Proof. intros H ->. by apply hexkey_nil in H. Qed.

Lemma alike_app k r r' : hexkey (k ++ r) -> hexkey (k ++ r') -> alike r r'.
Proof.
  intros H H'. destruct r as [|x r].
  - rewrite app_nil_r in H. right. split; [done|by apply (hexkey_prefix k)].
  - apply hexkey_split in H as [Hk Hx]. left. split; [done|]. by apply (hexkey_app k).
Qed.

Lemma alike_cons c r r' : hexkey (c :: r) -> hexkey (c :: r') -> alike r r'.
Proof. apply (alike_app [c]). Qed.

Lemma alike_hexkey k k' : alike k k' -> hexkey k -> hexkey k'.
Proof. intros [[_ Hk']|[-> _]] Hk; [done|]. by apply hexkey_nil in Hk. Qed.

Lemma slot_alike t k k' : alike k k' -> slot t k -> slot t k'.
Proof.
  intros [[H1 H2]|[H1 H2]] [[H3 H4]|[H3 H4]]; subst.
  - by left.
  - by apply hexkey_nil in H1.
  - by apply hexkey_nil in H3.
  - by right.
Qed.

Lemma updates_self t key o : tget t key = o -> updates t t key o.
Proof. intros <- k _. case_decide; congruence. Qed.

Lemma tget_short_nil t key : tget (TShort [] t) key = tget t key.
Proof. done. Qed.

Lemma tget_short_prefix p q t r : tget (TShort (p ++ q) t) (p ++ r) = tget (TShort q t) r.
Proof.
  cbn [tget]. rewrite length_app, take_app_add, drop_app_add.
  case_bool_decide as H1; case_bool_decide as H2; try done.
  - by apply app_inv_head in H1.
  - by rewrite H2 in H1.
Qed.

Lemma prefix_or_not (k key : bytes) : (exists r, key = k ++ r) \/ (forall r, key <> k ++ r).
Proof.
  destruct (decide (take (length k) key = k)) as [Hk|Hk].
  - left. exists (drop (length k) key). by rewrite <-Hk at 1; rewrite take_drop.
  - right. intros r ->. by rewrite take_app_length in Hk.
Qed.

Lemma tget_short_merge k k2 t key : tget (TShort k (TShort k2 t)) key = tget (TShort (k ++ k2) t) key.
Proof.
  destruct (prefix_or_not k key) as [[r ->]|Hne]; [by rewrite tget_short_app, tget_short_prefix|].
  rewrite !tget_short_ne; [done|..|done]. intros r. by rewrite <-app_assoc.
Qed.

Lemma updates_short k t t' r o :
  hexkey (k ++ r) -> updates t t' r o -> updates (TShort k t) (TShort k t') (k ++ r) o.
Proof.
  intros Hr Hu key Ha. apply (alike_hexkey _ _ Ha) in Hr as Hkey.
  destruct (prefix_or_not k key) as [[r' ->]|Hne].
  - rewrite !tget_short_app, Hu by (by eapply alike_app).
    repeat case_decide; try done; simplify_eq.
  - rewrite !tget_short_ne by done. case_decide as H; [by apply Hne in H|done].
Qed.

Lemma updates_full ts c t t' r o :
  hexkey (c :: r) -> ts !! Z.to_nat c = Some t -> updates t t' r o ->
  updates (TFull ts) (TFull (<[Z.to_nat c := t']> ts)) (c :: r) o.
Proof.
  intros Hr Ht Hu [|c' key] Ha; apply (alike_hexkey _ _ Ha) in Hr as Hkey; [by apply hexkey_nil in Hkey|].
  destruct (decide (c' = c)) as [->|Hne].
  - rewrite (tget_full _ _ _ t'), (tget_full _ _ _ t);
      [|done|apply list_lookup_insert_eq; by eapply lookup_lt_Some].
    rewrite Hu by (by eapply alike_cons). repeat case_decide; try done; simplify_eq.
  - rewrite decide_False by congruence. cbn [tget].
    assert (Z.to_nat c <> Z.to_nat c') as Hn.
    { apply hexkey_cons in Hr, Hkey. unfold is_nibble in *. lia. }
    rewrite !nth_lookup. f_equal. rewrite !list_lookup_fmap. f_equal. by apply list_lookup_insert_ne.
Qed.

(** * Positions below a node *)
Lemma slot_child ts c r :
  wf_sub (TFull ts) -> hexkey (c :: r) ->
  exists t, ts !! Z.to_nat c = Some t /\ slot t r.
Proof.
  inversion 1 as [|? ? ? ? ?|? Hl Hs H16 _]; subst. intros Hc.
  assert (0 <= c < 17) as Hr by (apply hexkey_cons in Hc; unfold is_nibble in Hc; lia).
  destruct (lookup_lt_is_Some_2 ts (Z.to_nat c)) as [t Ht]; [lia|]. exists t. split; [done|].
  apply hexkey_cons in Hc as [[-> ->]|[Hc Hk]].
  - right. split; [done|]. destruct (tree_nil_dec t); [by left|right]. by apply H16.
  - left. split; [done|]. destruct (tree_nil_dec t); [by left|right].
    unfold is_nibble in Hc. apply (Hs (Z.to_nat c)); [lia|done..].
Qed.

Lemma slot_short k t r : wf_sub (TShort k t) -> hexkey (k ++ r) -> slot t r.
Proof.
  inversion 1 as [p v Hp Hv|k' ts Hne Hk Hts|]; subst; intros Hr.
  - rewrite (hexkey_prefix _ _ Hr (ex_intro _ p (conj eq_refl Hp))). right. split; [done|]. right. by exists v.
  - apply hexkey_app in Hr; [|done]. left. split; [done|by right].
Qed.

Lemma slot_nil t : slot t [] -> t = TNil \/ exists v, t = TVal v /\ v <> [].
Proof. intros [[H _]|[_ H]]; [by apply hexkey_nil in H|done]. Qed.

Lemma slot_wf t k : slot t k -> k <> [] -> hexkey k /\ wf_tree t.
Proof. by intros [?|[-> _]]. Qed.

(** * Insertion *)
Definition mk (k : bytes) (t : tree) : tree := match k with [] => t | _ => TShort k t end.

Lemma tget_mk k t key : tget (mk k t) key = tget (TShort k t) key.
Proof. by destruct k. Qed.

Definition child_ok (c : Z) (t : tree) : Prop :=
  (c = 16 /\ exists v, t = TVal v /\ v <> []) \/ (is_nibble c /\ wf_sub t).

Lemma child_ok_range c t : child_ok c t -> 0 <= c < 17.
Proof. intros [[-> _]|[H _]]; [lia|]. unfold is_nibble in H. lia. Qed.

Lemma child_ok_nil c t : child_ok c t -> t <> TNil.
Proof. intros Hc ->. destruct Hc as [[_ (v & ? & _)]|[_ H]]; [done|inversion H]. Qed.

Lemma leaf_wf key v : hexkey key -> v <> [] -> wf_sub (TShort key (TVal v)).
Proof. intros (p & -> & Hp) Hv. by constructor. Qed.

Lemma leaf_updates key v : hexkey key -> updates TNil (TShort key (TVal v)) key (Some v).
Proof.
  intros (p & -> & Hp) k Ha. case_decide as Hk; [subst k; apply leaf_get|].
  destruct (tget _ k) as [w|] eqn:E; [|done].
  apply leaf_key in E as [? _]; [done..|]. eapply alike_hexkey; [done|by exists p].
Qed.

Lemma leaf_child c k v : hexkey (c :: k) -> v <> [] -> child_ok c (mk k (TVal v)).
Proof.
  intros Hk Hv. apply hexkey_cons in Hk as [[-> ->]|[Hc Hk]]; [left|right].
  - split; [done|by exists v].
  - split; [done|]. destruct k; [by apply hexkey_nil in Hk|by apply leaf_wf].
Qed.

(** What is left of a short node behind a common prefix and a symbol. *)
Lemma rest_child p c k t : wf_sub (TShort (p ++ c :: k) t) -> child_ok c (mk k t).
Proof.
  inversion 1 as [p0 v Hp Hv Hk|k0 ts Hne Hk Hts|]; subst.
  - apply leaf_child; [|done]. apply (hexkey_split p). rewrite <-Hk. by exists p0.
  - apply Forall_app in Hk as [_ Hk]. apply Forall_cons_iff in Hk as [Hc Hk]. right.
    split; [done|]. destruct k; [done|by constructor].
Qed.

Definition fork (y : Z) (t1 : tree) (x : Z) (t2 : tree) : list tree :=
  <[Z.to_nat x := t2]> (<[Z.to_nat y := t1]> (replicate 17 TNil)).

Lemma length_fork y t1 x t2 : length (fork y t1 x t2) = 17%nat.
Proof. unfold fork. by rewrite !length_insert, length_replicate. Qed.

Lemma fork_lookup y t1 x t2 i :
  0 <= y < 17 -> 0 <= x < 17 -> (i < 17)%nat ->
  fork y t1 x t2 !! i =
    Some (if decide (i = Z.to_nat x) then t2 else if decide (i = Z.to_nat y) then t1 else TNil).
Proof.
  intros Hy Hx Hi. unfold fork. case_decide as H1; [subst i|].
  { apply list_lookup_insert_eq. rewrite length_insert, length_replicate. lia. }
  rewrite list_lookup_insert_ne by done. case_decide as H2; [subst i|].
  { apply list_lookup_insert_eq. rewrite length_replicate. lia. }
  rewrite list_lookup_insert_ne by done. by apply lookup_replicate_2.
Qed.

Lemma fork_wf y t1 x t2 : child_ok y t1 -> child_ok x t2 -> x <> y -> wf_sub (TFull (fork y t1 x t2)).
Proof.
  intros H1 H2 Hne. pose proof (child_ok_range _ _ H1). pose proof (child_ok_range _ _ H2).
  constructor; [apply length_fork|..].
  - intros i t Hi. rewrite fork_lookup by lia. intros [= <-].
    destruct (decide (i = Z.to_nat x)) as [->|]; [destruct H2 as [[-> _]|[_ ?]]; [lia|done]|].
    destruct (decide (i = Z.to_nat y)) as [->|]; [destruct H1 as [[-> _]|[_ ?]]; [lia|done]|done].
  - intros t. rewrite fork_lookup by lia. intros [= <-]. unfold child_ok, is_nibble in *.
    case_decide; [|case_decide; [|done]]; intros _; destruct H1 as [[? ?]|[? _]], H2 as [[? ?]|[? _]]; try done; lia.
  - exists (Z.to_nat y), (Z.to_nat x), t1, t2. rewrite !fork_lookup by lia.
    rewrite (decide_True (P := Z.to_nat x = Z.to_nat x)) by done.
    rewrite decide_False, decide_True by lia.
    split_and!; [lia|done|done|by eapply child_ok_nil|by eapply child_ok_nil].
Qed.

Lemma fork_get y t1 x t2 c k :
  0 <= y < 17 -> 0 <= x < 17 -> 0 <= c < 17 ->
  tget (TFull (fork y t1 x t2)) (c :: k) =
    if decide (c = x) then tget t2 k else if decide (c = y) then tget t1 k else None.
Proof.
  intros Hy Hx Hc. erewrite tget_full by (apply fork_lookup; lia).
  repeat case_decide; try done; lia.
Qed.

(** Splitting a short node at the first symbol that differs. *)
Lemma split_updates p x a y b t v :
  hexkey (p ++ x :: a) -> wf_sub (TShort (p ++ y :: b) t) -> x <> y -> v <> [] ->
  updates (TShort (p ++ y :: b) t)
    (TShort p (TFull (fork y (mk b t) x (mk a (TVal v))))) (p ++ x :: a) (Some v).
Proof.
  intros Hkey Hwf Hne Hv k Ha. pose proof (hexkey_split _ _ _ Hkey) as [Hp Hxa].
  pose proof (child_ok_range _ _ (rest_child _ _ _ _ Hwf)).
  pose proof (child_ok_range _ _ (leaf_child x a v Hxa Hv)).
  apply (alike_hexkey _ _ Ha) in Hkey as Hk.
  destruct (prefix_or_not p k) as [[r ->]|Hno].
  - rewrite tget_short_app, tget_short_prefix. apply hexkey_app in Hk as Hr; [|done].
    destruct r as [|c r]; [by apply hexkey_nil in Hr|].
    rewrite fork_get by (done || (apply hexkey_cons in Hr; unfold is_nibble in Hr; lia)).
    assert (forall c' k' t', c <> c' -> tget (TShort (c' :: k') t') (c :: r) = None) as Hd.
    { intros c' k' t' Hc'. apply tget_short_ne. intros r' [= -> _]. done. }
    destruct (decide (c = x)) as [->|Hcx]; [|destruct (decide (c = y)) as [->|Hcy]].
    + rewrite tget_mk, Hd by done. destruct (decide (r = a)) as [->|Hra].
      * rewrite decide_True by done. rewrite <-(app_nil_r a) at 2. by rewrite tget_short_app.
      * rewrite decide_False by (intros ?; simplify_eq).
        pose proof (leaf_updates (x :: a) v Hxa (x :: r) ltac:(by left)) as Hl.
        rewrite decide_False in Hl by (intros ?; simplify_eq).
        by rewrite <-(tget_short_prefix [x] a).
    + rewrite tget_mk, decide_False by (intros ?; simplify_eq). by rewrite <-(tget_short_prefix [y] b).
    + rewrite Hd by done. by rewrite decide_False by (intros ?; simplify_eq).
  - rewrite !tget_short_ne; [by rewrite decide_False by done|..|done].
    intros r. by rewrite <-app_assoc.
Qed.

Lemma updates_mk p t t' key o : updates t (TShort p t') key o -> updates t (mk p t') key o.
Proof. intros H k Hk. rewrite tget_mk. by apply H. Qed.

Lemma mk_wf p ts : nibs p -> wf_sub (TFull ts) -> wf_sub (mk p (TFull ts)).
Proof. intros Hp Hts. destruct p; [done|by constructor]. Qed.

Lemma full_set_wf ts c t' : wf_sub (TFull ts) -> child_ok c t' -> wf_sub (TFull (<[Z.to_nat c := t']> ts)).
Proof.
  intros Hwf Hc. pose proof (child_ok_range _ _ Hc). pose proof (child_ok_nil _ _ Hc) as Hnil.
  inversion Hwf as [|? ? ? ? ?|? Hl Hs H16 (i & j & ti & tj & Hij & Hi & Hj & Hti & Htj)]; subst.
  assert (forall k t, ts !! k = Some t -> t <> TNil ->
    exists t2, <[Z.to_nat c:=t']> ts !! k = Some t2 /\ t2 <> TNil) as Hkeep.
  { intros k t Hk Ht. destruct (decide (k = Z.to_nat c)) as [->|].
    - exists t'. split; [|done]. apply list_lookup_insert_eq. lia.
    - exists t. by rewrite list_lookup_insert_ne. }
  constructor; [by rewrite length_insert|..].
  - intros k t Hk. destruct (decide (k = Z.to_nat c)) as [->|].
    + rewrite list_lookup_insert_eq by lia. intros [= <-] _. destruct Hc as [[-> _]|[_ ?]]; [lia|done].
    + rewrite list_lookup_insert_ne by done. by apply Hs.
  - intros t. destruct (decide (16%nat = Z.to_nat c)) as [Heq|].
    + rewrite Heq, list_lookup_insert_eq by lia. intros [= <-] _.
      destruct Hc as [[_ ?]|[Hn _]]; [done|unfold is_nibble in Hn; lia].
    + rewrite list_lookup_insert_ne by done. by apply H16.
  - destruct (Hkeep i ti Hi Hti) as (ti' & ? & ?), (Hkeep j tj Hj Htj) as (tj' & ? & ?).
    by exists i, j, ti', tj'.
Qed.

Lemma slot_child_ok c r t : hexkey (c :: r) -> slot t r -> t <> TNil -> child_ok c t.
Proof.
  intros Hc Hs Ht. apply hexkey_cons in Hc as [[-> ->]|[Hc Hr]].
  - left. split; [done|]. by destruct (slot_nil _ Hs).
  - right. split; [done|]. apply slot_wf in Hs as [_ [?|?]]; [done..|by apply hexkey_ne].
Qed.

(** * Deletion *)
Lemma leaf_removed key t : wf_sub (TShort key t) -> hexkey key -> updates (TShort key t) TNil key None.
Proof.
  intros Hwf Hk k Ha. case_decide as Hne; [done|]. symmetry.
  inversion Hwf as [p v Hp Hv|? ? ? Hn|]; subst.
  - destruct (tget _ k) as [w|] eqn:E; [|done].
    apply leaf_key in E as [? _]; [done..|]. by eapply alike_hexkey.
  - rewrite <-(app_nil_r key) in Hn. by apply hexkey_nibs_app in Hn.
Qed.

(** A short node above a short node is one short node. *)
Lemma merge_wf k k2 t : nibs k -> wf_sub (TShort k2 t) -> wf_sub (TShort (k ++ k2) t).
Proof.
  intros Hk. inversion 1 as [p v Hp Hv|? ts Hne Hk2 Hts|]; subst.
  - rewrite app_assoc. constructor; [by apply Forall_app|done].
  - constructor; [by destruct k|by apply Forall_app|done].
Qed.

Lemma updates_merge t k k2 t2 key o :
  updates t (TShort k (TShort k2 t2)) key o -> updates t (TShort (k ++ k2) t2) key o.
Proof. intros H k' Hk'. rewrite <-tget_short_merge. by apply H. Qed.

(** A full node with a single child is a short node. *)
Definition single (ts : list tree) (pos : nat) (t : tree) : Prop :=
  ts !! pos = Some t /\ forall j tj, ts !! j = Some tj -> j <> pos -> tj = TNil.

Lemma single_get ts pos t k :
  single ts pos t -> length ts = 17%nat -> hexkey k ->
  tget (TFull ts) k = tget (TShort [Z.of_nat pos] t) k.
Proof.
  intros [Hp Ho] Hl Hk. destruct k as [|c k]; [by apply hexkey_nil in Hk|].
  assert (0 <= c < 17) by (apply hexkey_cons in Hk; unfold is_nibble in Hk; lia).
  destruct (decide (c = Z.of_nat pos)) as [->|Hne].
  - rewrite (tget_full _ _ _ t) by (by rewrite Nat2Z.id).
    symmetry. apply (tget_short_app [Z.of_nat pos]).
  - destruct (lookup_lt_is_Some_2 ts (Z.to_nat c)) as [tj Hj]; [lia|].
    rewrite (tget_full _ _ _ tj) by done. rewrite (Ho _ _ Hj) by lia.
    symmetry. apply tget_short_ne. intros r [= -> _]. done.
Qed.

Lemma updates_single t ts pos tp key o :
  single ts pos tp -> length ts = 17%nat -> hexkey key -> updates t (TFull ts) key o ->
  updates t (TShort [Z.of_nat pos] tp) key o.
Proof.
  intros Hs Hl Hk Hu k Ha. rewrite <-(single_get ts pos tp) by (done || by eapply alike_hexkey).
  by apply Hu.
Qed.

(** The children of a full node before it is put in shape again. *)
Definition kids (ts : list tree) : Prop :=
  length ts = 17%nat /\
  forall i t, ts !! i = Some t -> t <> TNil -> child_ok (Z.of_nat i) t.

Lemma kids_full ts : wf_sub (TFull ts) -> kids ts.
Proof.
  inversion 1 as [|? ? ? ? ?|? Hl Hs H16 _]; subst. split; [done|]. intros i t Hi Ht.
  pose proof (lookup_lt_Some _ _ _ Hi). destruct (decide (i < 16)%nat) as [Hlt|].
  - right. split; [by apply nibble_nat|]. by apply (Hs i).
  - assert (i = 16%nat) as -> by lia. left. split; [done|]. by apply H16.
Qed.

Lemma kids_set ts c t : kids ts -> (t <> TNil -> child_ok c t) -> 0 <= c -> kids (<[Z.to_nat c := t]> ts).
Proof.
  intros [Hl Hk] Hc H0. split; [by rewrite length_insert|]. intros i t' Hi Ht'.
  destruct (decide (Z.to_nat c = i)) as [<-|].
  - pose proof (lookup_lt_Some _ _ _ Hi) as Hlt. rewrite length_insert in Hlt.
    rewrite list_lookup_insert_eq in Hi by done. simplify_eq. rewrite Z2Nat.id by lia. auto.
  - rewrite list_lookup_insert_ne in Hi by done. eauto.
Qed.

Lemma kids_branches ts : kids ts -> branches ts -> wf_sub (TFull ts).
Proof.
  intros [Hl Hk] Hb. constructor; [done|..|done].
  - intros i t Hi Ht Hn. destruct (Hk i t Ht Hn) as [[? _]|[_ ?]]; [lia|done].
  - intros t Ht Hn. destruct (Hk _ t Ht Hn) as [[_ ?]|[H _]]; [done|unfold is_nibble in H; lia].
Qed.
