(* ===== verification/TrieCorrect.v ===== *)
(** trie/trie.go: lookup, insertion and deletion implement a finite map on keys, on
    tries whose subtrees may still be in the database. *)

From stdpp Require Import gmap.
From S2P Require Import Prelude TrieEncoding TrieModel TrieSpec TrieUpdate.

(** The database returns short and full nodes only ([decodeNode]). *)
Definition solid (n : node) : bool :=
  match n with shortNode _ _ _ | fullNode _ _ => true | _ => false end.

Definition hashes (n : node) : nat := match n with hashNode _ => 1 | _ => 0 end.

(** [rep t n]: with the references resolved in the database, [n] is the tree [t]. *)
Section rep.
Context {dbnode : bytes -> Z -> option node} {gen : Z}.

Inductive rep : tree -> node -> Prop :=
| rep_nil : rep TNil nilNode
| rep_val v : rep (TVal v) (valueNode v)
| rep_short k t n f : rep t n -> rep (TShort k t) (shortNode k n f)
| rep_full ts ns f :
    length ts = length ns ->
    (forall i t n, ts !! i = Some t -> ns !! i = Some n -> rep t n) ->
    rep (TFull ts) (fullNode ns f)
| rep_hash h t n :
    dbnode (BytesToHash h) gen = Some n -> solid n = true -> rep t n -> rep t (hashNode h).
End rep.
Arguments rep : clear implicits.

Section correct.
Context (dbnode : bytes -> Z -> option node) (tr : Trie).
#[local] Abbreviation rep := (rep dbnode (cachegen tr)).

Lemma rep_is_nil t n : rep t n -> is_nil n = true <-> t = TNil.
Proof.
  induction 1 as [| | | |h t n Hdb Hs Hr IH]; try done. rewrite <-IH. by destruct n.
Qed.

Lemma rep_value t v : rep t (valueNode v) -> t = TVal v.
Proof. by inversion 1. Qed.

Lemma rep_full_child ts ns f c n :
  rep (TFull ts) (fullNode ns f) -> index ns c = Some n -> exists t, ts !! Z.to_nat c = Some t /\ rep t n.
Proof.
  inversion 1 as [| | |? ? ? Hl Hr|]; subst. unfold index. case_if; [|done]. intros Hn.
  destruct (lookup_lt_is_Some_2 ts (Z.to_nat c)) as [t Ht]; [rewrite Hl; by eapply lookup_lt_Some|].
  exists t. split; [done|]. by eapply Hr.
Qed.

Lemma rep_set_child ts ns f f' i t n :
  rep (TFull ts) (fullNode ns f) -> rep t n -> rep (TFull (<[i := t]> ts)) (fullNode (<[i := n]> ns) f').
Proof.
  inversion 1 as [| | |? ? ? Hl Hr|]; subst. intros Htn. constructor; [by rewrite !length_insert|].
  intros j t' n' Ht' Hn'. destruct (decide (i = j)) as [->|].
  - pose proof (lookup_lt_Some _ _ _ Ht') as Hlt. rewrite length_insert in Hlt.
    rewrite list_lookup_insert_eq in Ht' by done. rewrite list_lookup_insert_eq in Hn' by lia. by simplify_eq.
  - rewrite list_lookup_insert_ne in Ht' by done. rewrite list_lookup_insert_ne in Hn' by done.
    by eapply Hr.
Qed.

Lemma slot_full_index ts ns f c r :
  rep (TFull ts) (fullNode ns f) -> wf_sub (TFull ts) -> hexkey (c :: r) ->
  exists t n, ts !! Z.to_nat c = Some t /\ index ns c = Some n /\ rep t n /\ slot t r /\
    forall n', set_child (E := TrieError) ns c n' = Ok (<[Z.to_nat c := n']> ns).
Proof.
  intros Hrep Hwf Hc. destruct (slot_child ts c r Hwf Hc) as (t & Ht & Hs).
  inversion Hrep as [| | |? ? ? Hl Hr|]; subst.
  assert (0 <= c) by (apply hexkey_cons in Hc; unfold is_nibble in Hc; lia).
  pose proof (lookup_lt_Some _ _ _ Ht). destruct (lookup_lt_is_Some_2 ns (Z.to_nat c)) as [n Hn]; [lia|].
  exists t, n. unfold index, set_child, zlen. case_if; [|lia]. split_and!; try done; [by eapply Hr|].
  intros n'. case_if; [done|]. lia.
Qed.

Lemma solid_no_val t n : rep t n -> solid n = true -> t <> TNil /\ forall v, t <> TVal v.
Proof. by inversion 1. Qed.

Lemma rep_nil_inv n : rep TNil n -> n = nilNode.
Proof. inversion 1 as [| | | |h ? n' Hdb Hs Hr]; [done|]. by apply (solid_no_val _ _ Hr) in Hs as [? _]. Qed.

Lemma rep_val_inv v n : rep (TVal v) n -> n = valueNode v.
Proof.
  inversion 1 as [| | | |h ? n' Hdb Hs Hr]; [done|].
  apply (solid_no_val _ _ Hr) in Hs as [_ Hv]. by destruct (Hv v).
Qed.

(** * Lookup *)
Lemma short_mismatch (p k k' : bytes) :
  (forall r, k <> k' ++ r) ->
  (if zlen p + zlen k - zlen p <? zlen k' then Ok true
   else rmap (fun part => negb (bytes_eqb k' part))
     (or_panic (slice (p ++ k) (zlen p) (zlen p + zlen k')))) = @Ok TrieError bool true.
Proof.
  intros Hno. case_if; [done|].
  assert (zlen (take (length k') k) = zlen k') as Hz.
  { unfold zlen in *. rewrite length_take. lia. }
  rewrite <-(take_drop (length k') k) at 1. rewrite <-Hz, slice_app_mid. simpl.
  unfold bytes_eqb. rewrite bool_decide_false; [done|]. intros He.
  apply (Hno (drop (length k') k)). by rewrite He at 1; rewrite take_drop.
Qed.

Lemma tryGet_ok fuel t n p k :
  rep t n -> slot t k -> (2 * length k + hashes n < fuel)%nat ->
  exists n' d, tryGet dbnode tr fuel n (p ++ k) (zlen p) = Ok (tget t k, n', d) /\ rep t n'.
Proof.
  revert t n p k. induction fuel as [|fuel IH]; intros t n p k Hrep Hs Hf; [lia|].
  cbn [tryGet]. destruct Hrep as [|v|k' t n f Hr|ts ns f Hl Hr|h t n Hdb Hso Hr].
  - exists nilNode, false. split; [done|constructor].
  - exists (valueNode v), false. split; [done|constructor].
  - rewrite zlen_app. destruct Hs as [[Hk Hwf]|[_ [?|(v & ? & _)]]]; [|done..].
    destruct Hwf as [?|Hwf]; [done|].
    assert (k' <> []) as Hk' by (inversion Hwf; subst; [by destruct p0|done]).
    destruct (prefix_or_not k' k) as [[r ->]|Hno].
    + rewrite zlen_app. pose proof (zlen_nonneg r). case_if; [lia|].
      rewrite slice_app_mid. cbn [or_panic rmap rbind]. unfold bytes_eqb.
      rewrite bool_decide_true by done. cbn [negb].
      destruct (IH t n (p ++ k') r) as (n' & d & Hg & Hr'); [done|by eapply slot_short| |].
      { rewrite length_app in Hf. destruct k'; [done|]. simpl in Hf. destruct n; simpl in *; lia. }
      rewrite <-app_assoc, zlen_app in Hg. rewrite Hg. cbn [rbind].
      rewrite tget_short_app. destruct d; eexists _, _; (split; [done|]); by constructor.
    + rewrite tget_short_ne by done.
      exists (shortNode k' n f), false. split; [|by constructor].
      rewrite short_mismatch by done. done.
  - destruct Hs as [[Hk Hwf]|[_ [?|(v & ? & _)]]]; [|done..]. destruct Hwf as [?|Hwf]; [done|].
    destruct k as [|c r]; [by apply hexkey_nil in Hk|].
    assert (rep (TFull ts) (fullNode ns f)) as Hrep by (by constructor).
    destruct (slot_full_index ts ns f c r Hrep Hwf Hk) as (t & n & Ht & Hn & Hrt & Hst & Hset).
    assert (index (p ++ c :: r) (zlen p) = Some c) as ->.
    { unfold index. rewrite to_nat_zlen. pose proof (zlen_nonneg p). case_if; [|lia].
      by apply list_lookup_middle. }
    cbn [or_panic rbind]. rewrite Hn. cbn [or_panic rbind].
    destruct (IH t n (p ++ [c]) r) as (n' & d & Hg & Hr'); [done|done| |].
    { simpl in Hf. destruct n; simpl in *; lia. }
    rewrite <-app_assoc, zlen_app in Hg. change (zlen [c]) with 1 in Hg. cbn [app] in Hg.
    rewrite Hg. cbn [rbind]. rewrite (tget_full _ _ _ t) by done.
    destruct d; [|eexists _, _; split; [done|by constructor]].
    rewrite Hset. eexists _, _. split; [done|].
    rewrite <-(list_insert_id ts (Z.to_nat c) t) by done. by eapply rep_set_child.
  - rewrite (slice_app_mid [] p k : slice (p ++ k) 0 (zlen p) = Some p).
    cbn [or_panic rbind]. unfold resolveHash. rewrite Hdb. cbn [rbind].
    destruct (IH t n p k Hr Hs) as (n' & d & Hg & Hr').
    { destruct n; simpl in *; try done; lia. }
    rewrite Hg. by exists n', true.
Qed.

(** * Insertion *)

(** The node that [insert] makes of nothing. *)
Definition mkn (k : bytes) (n : node) : node :=
  match k with [] => n | _ => shortNode k n (newFlag tr) end.

Lemma insert_nil fuel prefix k n :
  insert dbnode tr (S fuel) nilNode prefix k n = Ok (true, mkn k n).
Proof.
  cbn [insert]. destruct k as [|x k]; [done|].
  rewrite zlen_cons. pose proof (zlen_nonneg k). case_if; [lia|done].
Qed.

Lemma rep_mk k t n : rep t n -> rep (mk k t) (mkn k n).
Proof. intros Hr. destruct k; [done|by constructor]. Qed.

Definition fork_nodes (y : Z) (n1 : node) (x : Z) (n2 : node) : list node :=
  <[Z.to_nat x := n2]> (<[Z.to_nat y := n1]> empty_children).

Lemma rep_empty f : rep (TFull (replicate 17 TNil)) (fullNode empty_children f).
Proof.
  constructor; [done|]. intros i t n [-> _]%lookup_replicate [-> _]%lookup_replicate. constructor.
Qed.

Lemma rep_fork y t1 n1 x t2 n2 f :
  rep t1 n1 -> rep t2 n2 -> rep (TFull (fork y t1 x t2)) (fullNode (fork_nodes y n1 x n2) f).
Proof.
  intros H1 H2. eapply (rep_set_child _ _ f); [|done]. eapply (rep_set_child _ _ f); [|done].
  apply rep_empty.
Qed.

Lemma set_child_ok (cs : list node) c n :
  0 <= c < zlen cs -> set_child (E := TrieError) cs c n = Ok (<[Z.to_nat c := n]> cs).
Proof. intros H. unfold set_child. case_if; [done|lia]. Qed.

(** What [insert] returns for the tree [t] at a position with the rest [key]. *)
Definition inserted (t : tree) (key v : bytes) (r : result TrieError (bool * node)) : Prop :=
  exists d n' t', r = Ok (d, n') /\ rep t' n' /\ slot t' key /\ t' <> TNil /\
    (is_full t -> is_full t') /\ updates t t' key (Some v) /\ (d = false -> t' = t).

Lemma insert_here fuel t n prefix v :
  rep t n -> slot t [] -> v <> [] ->
  inserted t [] v (insert dbnode tr (S fuel) n prefix [] (valueNode v)).
Proof.
  intros Hr Hs Hv. assert (slot (TVal v) []) as Hsv by (right; split; [done|]; right; by exists v).
  assert (forall t, updates t (TVal v) [] (Some v)) as Hu.
  { intros t' k [[Hk _]|[_ ->]]; [by apply hexkey_nil in Hk|]. by rewrite decide_True. }
  apply slot_nil in Hs as [->|(v0 & -> & Hv0)].
  - apply rep_nil_inv in Hr as ->. exists true, (valueNode v), (TVal v).
    split_and!; try done; [constructor|by intros [ts ?]].
  - apply rep_val_inv in Hr as ->. exists (negb (bytes_eqb v0 v)), (valueNode v), (TVal v).
    split_and!; try done; [constructor|by intros [ts ?]|].
    unfold bytes_eqb. intros H. case_bool_decide; [congruence|done].
Qed.

(** A short node whose key is a prefix of [key]. *)
Lemma insert_below fuel k t n f prefix r v :
  rep t n -> wf_sub (TShort k t) -> hexkey (k ++ r) -> k <> [] ->
  inserted t r v (insert dbnode tr fuel n (prefix ++ k) r (valueNode v)) ->
  inserted (TShort k t) (k ++ r) v
    (insert dbnode tr (S fuel) (shortNode k n f) prefix (k ++ r) (valueNode v)).
Proof.
  intros Hr Hwf Hk Hne (d & n' & t' & Hi & Hr' & Hs' & Hnil & Hfull & Hu & Hd).
  cbn [insert]. assert ((zlen (k ++ r) =? 0) = false) as ->.
  { apply Z.eqb_neq. rewrite zlen_app. destruct k; [done|]. rewrite zlen_cons.
    pose proof (zlen_nonneg k). pose proof (zlen_nonneg r). lia. }
  assert (prefixLen (k ++ r) k = length k) as ->.
  { clear. induction k as [|x k IH]; [by destruct r|]. cbn [app prefixLen length].
    by rewrite Z.eqb_refl, IH. }
  rewrite Nat.eqb_refl, take_app_length, drop_app_length, Hi. cbn [rbind].
  assert (wf_sub (TShort k t')) as Hwf'.
  { inversion Hwf as [p v0 Hp Hv0|k0 ts Hne0 Hk0 Hts|]; subst.
    - rewrite (hexkey_prefix _ _ Hk (ex_intro _ p (conj eq_refl Hp))) in *.
      apply slot_nil in Hs' as [?|(v' & -> & ?)]; [done|by constructor].
    - destruct Hfull as [ts' ->]; [by exists ts|]. apply hexkey_app in Hk; [|done].
      apply slot_wf in Hs' as [_ [?|?]]; [done|by constructor|by apply hexkey_ne]. }
  assert (updates (TShort k t) (TShort k t') (k ++ r) (Some v)) as Hup by (by apply updates_short).
  assert (slot (TShort k t') (k ++ r)) as Hsl by (left; split; [done|by right]).
  destruct d; cbn [negb].
  - exists true, (shortNode k n' (newFlag tr)), (TShort k t').
    split_and!; try done; [by constructor|by intros [ts ?]].
  - rewrite (Hd eq_refl) in *. exists false, (shortNode k n f), (TShort k t).
    split_and!; try done. by constructor.
Qed.

(** A short node whose key leaves [key] at some symbol. *)
Lemma insert_split fuel p x a y b t n f prefix v :
  rep t n -> wf_sub (TShort (p ++ y :: b) t) -> hexkey (p ++ x :: a) -> x <> y -> v <> [] ->
  inserted (TShort (p ++ y :: b) t) (p ++ x :: a) v
    (insert dbnode tr (S (S fuel)) (shortNode (p ++ y :: b) n f) prefix (p ++ x :: a) (valueNode v)).
Proof.
  intros Hr Hwf Hk Hne Hv. pose proof (hexkey_split _ _ _ Hk) as [Hp Hxa].
  pose proof (rest_child _ _ _ _ Hwf) as Hcy. pose proof (leaf_child x a v Hxa Hv) as Hcx.
  pose proof (child_ok_range _ _ Hcy). pose proof (child_ok_range _ _ Hcx).
  assert (insert dbnode tr (S (S fuel)) (shortNode (p ++ y :: b) n f) prefix (p ++ x :: a) (valueNode v) =
    Ok (true, mkn p (fullNode (fork_nodes y (mkn b n) x (mkn a (valueNode v))) (newFlag tr)))) as ->.
  { remember (S fuel) as fuel1. cbn [insert]. assert ((zlen (p ++ x :: a) =? 0) = false) as ->.
    { apply Z.eqb_neq. rewrite zlen_app, zlen_cons.
      pose proof (zlen_nonneg p). pose proof (zlen_nonneg a). lia. }
    assert (prefixLen (p ++ x :: a) (p ++ y :: b) = length p) as ->.
    { clear -Hne. induction p as [|z p IH]; cbn [app prefixLen length].
      - by apply Z.eqb_neq in Hne as ->.
      - by rewrite Z.eqb_refl, IH. }
    assert ((length p =? length (p ++ y :: b))%nat = false) as ->.
    { apply Nat.eqb_neq. rewrite length_app. simpl. lia. }
    rewrite !list_lookup_middle by done. cbn [or_panic rbind].
    assert (forall z q, drop (length p + 1) (p ++ z :: q) = q) as Hdrop.
    { intros z q. by rewrite drop_app_add. }
    rewrite !Hdrop. subst fuel1. rewrite !insert_nil. cbn [rbind].
    rewrite set_child_ok by done. cbn [rbind].
    rewrite set_child_ok by (unfold zlen; rewrite length_insert; done). cbn [rbind].
    rewrite take_app_length. destruct p; done. }
  exists true. eexists _, (mk p (TFull (fork y (mk b t) x (mk a (TVal v))))).
  split_and!; try done.
  - apply rep_mk, rep_fork; apply rep_mk; [done|constructor].
  - left. split; [done|]. right. apply mk_wf; [done|]. by apply fork_wf.
  - by destruct p.
  - by intros [ts ?].
  - by apply updates_mk, split_updates.
Qed.

Lemma insert_full fuel ts ns f prefix c r v :
  rep (TFull ts) (fullNode ns f) -> wf_sub (TFull ts) -> hexkey (c :: r) ->
  (forall t n, ts !! Z.to_nat c = Some t -> index ns c = Some n -> rep t n -> slot t r ->
     inserted t r v (insert dbnode tr fuel n (prefix ++ [c]) r (valueNode v))) ->
  inserted (TFull ts) (c :: r) v
    (insert dbnode tr (S fuel) (fullNode ns f) prefix (c :: r) (valueNode v)).
Proof.
  intros Hrep Hwf Hk IH.
  destruct (slot_full_index ts ns f c r Hrep Hwf Hk) as (t & n & Ht & Hn & Hrt & Hst & Hset).
  destruct (IH t n Ht Hn Hrt Hst) as (d & n' & t' & Hi & Hr' & Hs' & Hnil & _ & Hu & Hd).
  cbn [insert]. rewrite zlen_cons. pose proof (zlen_nonneg r). case_if; [lia|].
  change (index (c :: r) 0) with (Some c). cbn [or_panic rbind]. rewrite Hn. cbn [or_panic rbind].
  change (drop 1 (c :: r)) with r. rewrite Hi. cbn [rbind].
  destruct d; cbn [negb].
  - rewrite Hset. cbn [rbind]. eexists true, _, (TFull (<[Z.to_nat c:=t']> ts)).
    split_and!; try done; [by eapply rep_set_child| |by eexists|by eapply updates_full].
    left. split; [done|]. right. apply full_set_wf; [done|]. by eapply slot_child_ok.
  - rewrite (Hd eq_refl) in *. exists false, (fullNode ns f), (TFull ts).
    split_and!; try done; [left; split; [done|by right]|].
    rewrite <-(list_insert_id ts (Z.to_nat c) t) at 2 by done. by eapply updates_full.
Qed.

(** The key of a short node is a prefix of [key], or leaves it at some symbol. *)
Lemma short_cases k t key :
  wf_sub (TShort k t) -> hexkey key ->
  (exists r, key = k ++ r) \/
  (exists p x a y b, key = p ++ x :: a /\ k = p ++ y :: b /\ x <> y).
Proof.
  intros Hwf Hk.
  destruct (prefixLen_split key k) as (p & a & b & -> & -> & _ & H).
  destruct H as [->|[->|(x & y & a' & b' & -> & -> & Hxy)]].
  - left. rewrite app_nil_r in *. exists [].
    assert (b = []) as ->; [|by rewrite !app_nil_r].
    inversion Hwf as [p0 ? Hp0 ? He|? ? ? Hn|]; subst.
    + apply (hexkey_prefix p); [rewrite <-He; by exists p0|done].
    + by apply hexkey_nibs_app in Hn.
  - left. exists a. by rewrite app_nil_r.
  - right. by exists p, x, a', y, b'.
Qed.

Lemma insert_ok fuel t n prefix key v :
  rep t n -> slot t key -> v <> [] -> (2 * length key + hashes n < fuel)%nat ->
  inserted t key v (insert dbnode tr fuel n prefix key (valueNode v)).
Proof.
  revert t n prefix key. induction fuel as [|fuel IH]; intros t n prefix key Hrep Hs Hv Hf; [lia|].
  destruct (decide (key = [])) as [->|Hkey]; [by apply insert_here|].
  apply slot_wf in Hs as Hw; [|done]. destruct Hw as [Hk Hwf].
  destruct Hrep as [|v0|k t n f Hr|ts ns f Hl Hr|h t n Hdb Hso Hr].
  - rewrite insert_nil. destruct key as [|x key]; [done|].
    eexists true, _, (TShort (x :: key) (TVal v)). split_and!; try done;
      [repeat constructor|left; split; [done|right; by apply leaf_wf]|by intros [ts ?]|by apply leaf_updates].
  - destruct Hwf as [?|Hwf]; [done|inversion Hwf].
  - destruct Hwf as [?|Hwf]; [done|].
    assert (k <> []) as Hne by (inversion Hwf; subst; [by destruct p|done]).
    destruct (short_cases k t key Hwf Hk) as [[r ->]|(p & x & a & y & b & -> & -> & Hxy)].
    + apply insert_below; [done..|]. apply IH; [done|by eapply slot_short|done|].
      rewrite length_app in Hf. destruct k; [done|]. simpl in Hf. destruct n; simpl in *; lia.
    + destruct fuel; [|by apply insert_split]. rewrite length_app in Hf. simpl in Hf. lia.
  - destruct Hwf as [?|Hwf]; [done|]. destruct key as [|c r]; [done|].
    apply insert_full; [by constructor|done|done|]. intros t n Ht Hn Hrt Hst.
    apply IH; [done..|]. simpl in Hf. destruct n; simpl in *; lia.
  - destruct (IH t n prefix key) as (d & n' & t' & Hi & Hrest); [done..| |].
    { destruct n; simpl in *; try done; lia. }
    cbn [insert]. assert ((zlen key =? 0) = false) as ->.
    { apply Z.eqb_neq. destruct key; [done|]. rewrite zlen_cons. pose proof (zlen_nonneg key). lia. }
    unfold resolveHash. rewrite Hdb. cbn [rbind]. rewrite Hi. cbn [rbind].
    destruct d; cbn [negb]; [by exists true, n', t'|].
    destruct Hrest as (? & ? & ? & ? & ? & Hd). rewrite (Hd eq_refl) in *. by exists false, n, t.
Qed.

(** * Deletion *)
Lemma only_child_spec cs i pos :
  0 <= i ->
  let r := only_child i pos cs in
  (pos = -1 ->
     (r = -1 /\ Forall (fun c => is_nil c = true) cs) \/
     (exists j c, r = i + Z.of_nat j /\ cs !! j = Some c /\ is_nil c = false /\
        forall j' c', cs !! j' = Some c' -> j' <> j -> is_nil c' = true) \/
     (r = -2 /\ exists j j' c c', j <> j' /\ cs !! j = Some c /\ cs !! j' = Some c' /\
        is_nil c = false /\ is_nil c' = false)) /\
  (pos <> -1 ->
     (r = pos /\ Forall (fun c => is_nil c = true) cs) \/
     (r = -2 /\ exists j c, cs !! j = Some c /\ is_nil c = false)).
Proof.
  revert i pos. induction cs as [|c cs IH]; intros i pos Hi; cbn [only_child].
  { split; intros ?; left; by split. }
  destruct (is_nil c) eqn:Ec.
  - destruct (IH (i + 1) pos ltac:(lia)) as [IH1 IH2]. split; intros Hp.
    + destruct (IH1 Hp) as [[-> HF]|[(j & c' & -> & Hj & Hc' & Ho)|(-> & j & j' & c1 & c2 & Hjj & Hj & Hj' & Hc1 & Hc2)]].
      * left. split; [done|by constructor].
      * right; left. exists (S j), c'. split_and!; [lia|done|done|].
        intros [|j'] c2 Hc2 Hne; [by simplify_eq/=|]. apply (Ho j'); [done|congruence].
      * right; right. split; [done|]. exists (S j), (S j'), c1, c2.
        split_and!; [lia|done..].
    + destruct (IH2 Hp) as [[-> HF]|(-> & j & c' & ?)]; [left; split; [done|by constructor]|].
      right. split; [done|]. by exists (S j), c'.
  - split; intros Hp; (case_if; [|]); try lia.
    + destruct (IH (i + 1) i ltac:(lia)) as [_ IH2].
      destruct (IH2 ltac:(lia)) as [[-> HF]|(-> & j & c' & Hj & Hc')].
      * right; left. exists O, c. split_and!; [lia|done|done|].
        intros [|j'] c2 Hc2 Hne; [done|]. rewrite Forall_lookup in HF. by apply (HF j').
      * right; right. split; [done|]. by exists O, (S j), c, c'.
    + right. split; [done|]. by exists O, c.
Qed.

Lemma only_child_one cs j c :
  only_child 0 (-1) cs = Z.of_nat j -> index cs (Z.of_nat j) = Some c ->
  is_nil c = false /\ forall j' c', cs !! j' = Some c' -> j' <> j -> is_nil c' = true.
Proof.
  intros Hr Hc. unfold index in Hc. case_if_in Hc; [|done]. rewrite Nat2Z.id in Hc.
  destruct (only_child_spec cs 0 (-1) ltac:(lia)) as [H _].
  destruct (H eq_refl) as [[H1 _]|[(j0 & c0 & H1 & Hj0 & Hc0 & Ho)|(H1 & _)]]; [lia| |lia].
  assert (j0 = j) as -> by lia. by simplify_eq.
Qed.

(** What [delete] returns for the tree [t] at a position with the rest [key]. *)
Definition deleted (t : tree) (key : bytes) (r : result TrieError (bool * node)) : Prop :=
  exists d n' t', r = Ok (d, n') /\ rep t' n' /\ slot t' key /\ (is_full t -> t' <> TNil) /\
    updates t t' key None /\ (d = false -> t' = t) /\ (d = true -> hashes n' = O).

Lemma delete_short_miss fuel k t n f prefix key :
  rep t n -> slot (TShort k t) key -> (forall r, key <> k ++ r) ->
  deleted (TShort k t) key (delete dbnode tr (S fuel) (shortNode k n f) prefix key).
Proof.
  intros Hr Hs Hno. cbn [delete].
  assert ((prefixLen key k <? length k)%nat = true) as ->.
  { apply Nat.ltb_lt. destruct (prefixLen_split key k) as (p & a & b & -> & -> & -> & _).
    rewrite length_app. destruct b; [|simpl; lia]. rewrite app_nil_r in Hno. by destruct (Hno a). }
  exists false, (shortNode k n f), (TShort k t). split_and!; try done; [by constructor|].
  apply updates_self. by rewrite tget_short_ne.
Qed.

Lemma prefixLen_app k r : prefixLen (k ++ r) k = length k.
Proof.
  induction k as [|x k IH]; [by destruct r|]. cbn [app prefixLen length]. by rewrite Z.eqb_refl, IH.
Qed.

(** The child under a short node has changed: it is joined with a short child. *)
Lemma delete_below fuel k t n f prefix r :
  rep t n -> wf_sub (TShort k t) -> hexkey (k ++ r) -> r <> [] ->
  deleted t r (delete dbnode tr fuel n (prefix ++ k) r) ->
  deleted (TShort k t) (k ++ r) (delete dbnode tr (S fuel) (shortNode k n f) prefix (k ++ r)).
Proof.
  intros Hr Hwf Hk Hne (d & n' & t' & Hi & Hr' & Hs' & Hfull & Hu & Hd & Hh).
  destruct r as [|x r]; [done|]. pose proof (hexkey_split _ _ _ Hk) as [Hnk Hxr].
  cbn [delete]. rewrite prefixLen_app, Nat.ltb_irrefl, take_app_length, drop_app_length, Hi.
  assert ((length k =? length (k ++ x :: r))%nat = false) as ->.
  { apply Nat.eqb_neq. rewrite length_app. simpl. lia. }
  cbn [rbind]. apply (updates_short k) in Hu; [|done].
  destruct d; cbn [negb].
  2: { rewrite (Hd eq_refl) in *. exists false, (shortNode k n f), (TShort k t).
    split_and!; try done; [by constructor|left; split; [done|by right]]. }
  assert (is_full t) as Hft.
  { inversion Hwf as [p v Hp Hv|? ts ? ? ?|]; subst; [|by exists ts].
    apply Forall_app in Hnk as [_ H16]. apply Forall_cons_iff in H16 as [H16 _]. unfold is_nibble in H16. lia. }
  apply slot_wf in Hs' as [_ [?|Hwf']]; [by destruct (Hfull Hft)| |done].
  assert (k <> []) as Hkne by (inversion Hwf; subst; [by destruct p|done]).
  specialize (Hh eq_refl). destruct Hr' as [|v|k2 t2 n2 f2 Hr2|ts ns f2 Hl Hr2|]; [inversion Hwf'|inversion Hwf'| | |done].
  - eexists true, _, (TShort (k ++ k2) t2). split_and!; try done; [by constructor| |by apply updates_merge].
    left. split; [done|]. right. by apply merge_wf.
  - eexists true, _, (TShort k (TFull ts)). split_and!; try done; [by repeat constructor|].
    left. split; [done|]. right. by constructor.
Qed.

Lemma resolve_ok t n prefix :
  rep t n -> wf_sub t -> exists n', resolve dbnode tr n prefix = Ok n' /\ rep t n' /\ solid n' = true.
Proof.
  intros Hr Hwf. destruct Hr as [|v|k t n f Hr|ts ns f Hl Hr|h t n Hdb Hso Hr]; try by inversion Hwf.
  - exists (shortNode k n f). split_and!; try done. by constructor.
  - exists (fullNode ns f). split_and!; try done. by constructor.
  - exists n. simpl. unfold resolveHash. by rewrite Hdb.
Qed.

Lemma rep_single ts cs f j c :
  rep (TFull ts) (fullNode cs f) -> length ts = 17%nat ->
  only_child 0 (-1) cs = Z.of_nat j -> index cs (Z.of_nat j) = Some c ->
  exists t, single ts j t /\ rep t c /\ t <> TNil.
Proof.
  intros Hrep Hl Ho Hc. destruct (only_child_one cs j c Ho Hc) as [Hn Hothers].
  destruct (rep_full_child _ _ _ _ _ Hrep Hc) as (t & Ht & Htc). rewrite Nat2Z.id in Ht.
  exists t. split_and!; try done.
  - split; [done|]. intros i ti Hi Hne. inversion Hrep as [| | |? ? ? Hlen Hr|]; subst.
    destruct (lookup_lt_is_Some_2 cs i) as [ci Hci]; [rewrite <-Hlen; by eapply lookup_lt_Some|].
    apply (rep_is_nil ti ci); [by eapply Hr|]. by apply (Hothers i).
  - intros ->. apply rep_nil_inv in Htc as ->. done.
Qed.

Lemma nonnil_child ts cs f m cm :
  rep (TFull ts) (fullNode cs f) -> cs !! m = Some cm -> is_nil cm = false ->
  exists tm, ts !! m = Some tm /\ tm <> TNil.
Proof.
  intros Hrep Hm Hcm. destruct (rep_full_child ts cs f (Z.of_nat m) cm Hrep) as (tm & Htm & Hrm).
  { unfold index. case_if; [by rewrite Nat2Z.id|lia]. }
  rewrite Nat2Z.id in Htm. exists tm. split; [done|]. intros ->. apply rep_nil_inv in Hrm as ->. done.
Qed.

(** The children left after a deletion make a well-formed node again. *)
Definition shrunk (ts : list tree) (r : result TrieError (bool * node)) : Prop :=
  exists n' t', r = Ok (true, n') /\ rep t' n' /\ wf_sub t' /\ hashes n' = O /\
    forall t0 key o, hexkey key -> updates t0 (TFull ts) key o -> updates t0 t' key o.

Lemma shrink_one ts cs f prefix j c :
  rep (TFull ts) (fullNode cs f) -> kids ts ->
  only_child 0 (-1) cs = Z.of_nat j -> cs !! j = Some c -> shrunk ts (shrink dbnode tr cs prefix).
Proof.
  intros Hrep [Hl Hkids] Hpos Hj. unfold shrink. rewrite Hpos.
  assert (index cs (Z.of_nat j) = Some c) as Hidx by (unfold index; case_if; [by rewrite Nat2Z.id|lia]).
  destruct (rep_single ts cs f j c Hrep Hl Hpos Hidx) as (t & Hs & Hr & Hnil).
  pose proof (Hkids j t (proj1 Hs) Hnil) as Hok.
  case_if; [|lia]. rewrite Hidx. cbn [or_panic rbind].
  destruct Hok as [[Hj16 (v & -> & Hv)]|[Hn Hwf]].
  - rewrite Hj16. simpl. eexists _, (TShort [16] (TVal v)).
    split_and!; try done; [by constructor|by apply (wf_leaf []); [constructor|]|].
    intros t0 key o Hk Hu. rewrite <-Hj16. by apply (updates_single t0 ts j).
  - destruct (Z.eqb_spec (Z.of_nat j) 16); [unfold is_nibble in Hn; lia|]. cbn [negb].
    assert (nibs [Z.of_nat j]) by (by repeat constructor; apply Hn).
    destruct (resolve_ok t c prefix Hr Hwf) as (c' & -> & Hr' & Hsol). cbn [rbind].
    destruct Hr' as [|v|k2 t2 n2 f2 Hr2|ts2 ns2 f2 Hl2 Hr2|]; try done.
    + eexists _, (TShort (Z.of_nat j :: k2) t2).
      split_and!; try done; [by constructor|by apply (merge_wf [Z.of_nat j])|].
      intros t0 key o Hk Hu. apply (updates_merge t0 [Z.of_nat j]). by apply (updates_single t0 ts j).
    + eexists _, (TShort [Z.of_nat j] (TFull ts2)). split_and!; try done; [by constructor|by constructor|].
      intros t0 key o Hk Hu. by apply (updates_single t0 ts j).
Qed.

Lemma shrink_ok ts cs f prefix :
  rep (TFull ts) (fullNode cs f) -> kids ts -> (exists i t, ts !! i = Some t /\ t <> TNil) ->
  shrunk ts (shrink dbnode tr cs prefix).
Proof.
  intros Hrep Hkids (i & ti & Hi & Hti).
  assert (length ts = length cs) as Hlc by (by inversion Hrep).
  destruct (only_child_spec cs 0 (-1) ltac:(lia)) as [H _].
  destruct (H eq_refl) as [[_ HF]|[(j & c & Hpos & Hj & _)|(Hpos & j & j' & c & c' & Hjj & Hj & Hj' & Hc & Hc')]].
  - exfalso. destruct (lookup_lt_is_Some_2 cs i) as [ci Hci]; [rewrite <-Hlc; by eapply lookup_lt_Some|].
    rewrite Forall_lookup in HF. apply HF in Hci as Hnil.
    inversion Hrep as [| | |? ? ? Hlen Hr|]; subst.
    apply (rep_is_nil ti ci) in Hnil; [done|by eapply Hr].
  - rewrite Z.add_0_l in Hpos. by eapply shrink_one.
  - unfold shrink. rewrite Hpos. simpl. eexists _, (TFull ts).
    split_and!; try done; [by inversion Hrep; constructor|].
    apply kids_branches; [done|].
    destruct (nonnil_child ts cs f j c Hrep Hj Hc) as (tj & ? & ?).
    destruct (nonnil_child ts cs f j' c' Hrep Hj' Hc') as (tj' & ? & ?).
    by exists j, j', tj, tj'.
Qed.

Lemma delete_full fuel ts ns f prefix c r :
  rep (TFull ts) (fullNode ns f) -> wf_sub (TFull ts) -> hexkey (c :: r) ->
  (forall t n, ts !! Z.to_nat c = Some t -> index ns c = Some n -> rep t n -> slot t r ->
     deleted t r (delete dbnode tr fuel n (prefix ++ [c]) r)) ->
  deleted (TFull ts) (c :: r) (delete dbnode tr (S fuel) (fullNode ns f) prefix (c :: r)).
Proof.
  intros Hrep Hwf Hk IH.
  destruct (slot_full_index ts ns f c r Hrep Hwf Hk) as (t & n & Ht & Hn & Hrt & Hst & Hset).
  destruct (IH t n Ht Hn Hrt Hst) as (d & n' & t' & Hi & Hr' & Hs' & _ & Hu & Hd & _).
  cbn [delete]. change (index (c :: r) 0) with (Some c). cbn [or_panic rbind].
  rewrite Hn. cbn [or_panic rbind]. change (drop 1 (c :: r)) with r. rewrite Hi. cbn [rbind].
  apply (updates_full ts c t t' r) in Hu; [|done..].
  destruct d; cbn [negb].
  2: { rewrite (Hd eq_refl), list_insert_id in Hu by done. exists false, (fullNode ns f), (TFull ts).
    split_and!; try done. left. split; [done|by right]. }
  rewrite Hset. cbn [rbind].
  assert (0 <= c) by (apply hexkey_cons in Hk; unfold is_nibble in Hk; lia).
  destruct (shrink_ok (<[Z.to_nat c:=t']> ts) (<[Z.to_nat c:=n']> ns) f prefix)
    as (n2 & t2 & -> & Hr2 & Hwf2 & Hh & Hup).
  - by eapply rep_set_child.
  - apply kids_set; [by apply kids_full| |done]. intros. by eapply slot_child_ok.
  - inversion Hwf as [|? ? ? ? ?|? ? ? ? (i & j & ti & tj & Hij & Hti & Htj & ? & ?)]; subst.
    destruct (decide (i = Z.to_nat c)) as [->|]; [exists j, tj|exists i, ti];
      by rewrite list_lookup_insert_ne.
  - exists true, n2, t2. split_and!; try done; [left; split; [done|by right]| |by apply Hup].
    intros _ ->. inversion Hwf2.
Qed.

Lemma delete_ok fuel t n prefix key :
  rep t n -> slot t key -> (2 * length key + hashes n < fuel)%nat ->
  deleted t key (delete dbnode tr fuel n prefix key).
Proof.
  revert t n prefix key. induction fuel as [|fuel IH]; intros t n prefix key Hrep Hs Hf; [lia|].
  destruct Hrep as [|v|k t n f Hr|ts ns f Hl Hr|h t n Hdb Hso Hr].
  - exists false, nilNode, TNil. split_and!; try done; [constructor|by intros [ts ?]|by apply updates_self].
  - exists true, nilNode, TNil. destruct Hs as [[_ [?|Hwf]]|[-> _]]; [done|inversion Hwf|].
    split_and!; try done; [constructor|right; split; [done|by left]|by intros [ts ?]|].
    intros k [[Hk _]|[_ ->]]; [by apply hexkey_nil in Hk|done].
  - destruct (prefix_or_not k key) as [[r ->]|Hno]; [|by apply delete_short_miss].
    destruct Hs as [[Hk [?|Hwf]]|[_ [?|(v & ? & _)]]]; [done| |done..].
    assert (k <> []) as Hkne by (inversion Hwf; subst; [by destruct p|done]).
    destruct (decide (r = [])) as [->|Hne].
    + rewrite app_nil_r in *. cbn [delete].
      pose proof (prefixLen_app k []) as Hpl. rewrite app_nil_r in Hpl.
      rewrite Hpl, Nat.ltb_irrefl, Nat.eqb_refl.
      exists true, nilNode, TNil. split_and!; try done; [constructor|left; split; [done|by left]|by intros [ts ?]|].
      by apply leaf_removed.
    + apply delete_below; [done..|]. apply IH; [done|by eapply slot_short|].
      rewrite length_app in Hf. destruct k; [done|]. simpl in Hf. destruct n; simpl in *; lia.
  - destruct Hs as [[Hk [?|Hwf]]|[_ [?|(v & ? & _)]]]; [done| |done..].
    destruct key as [|c r]; [by apply hexkey_nil in Hk|].
    apply delete_full; [by constructor|done|done|]. intros t n Ht Hn Hrt Hst.
    apply IH; [done..|]. simpl in Hf. destruct n; simpl in *; lia.
  - destruct (IH t n prefix key) as (d & n' & t' & Hi & Hrest); [done..| |].
    { destruct n; simpl in *; try done; lia. }
    cbn [delete]. unfold resolveHash. rewrite Hdb. cbn [rbind]. rewrite Hi. cbn [rbind].
    destruct d; cbn [negb]; [by exists true, n', t'|].
    destruct Hrest as (? & ? & ? & ? & Hd & ?). rewrite (Hd eq_refl) in *. by exists false, n, t.
Qed.
End correct.

(** * The trie as a map *)

(** The tree [t] holds exactly the entries of [m]. *)
Record content (t : tree) (m : gmap bytes bytes) : Prop := {
  content_get k : wf_bytes k -> tget t (keybytesToHex k) = m !! k;
  content_key key v : hexkey key -> tget t key = Some v ->
    exists k, wf_bytes k /\ key = keybytesToHex k;
  content_bytes k v : m !! k = Some v -> wf_bytes k
}.

(** The trie holds [m]: its root represents a well-formed tree with that content. *)
Definition holds (dbnode : bytes -> Z -> option node) (tr : Trie) (m : gmap bytes bytes) : Prop :=
  exists t, rep dbnode (cachegen tr) t (root tr) /\ wf_tree t /\ content t m.

Lemma content_updates t t' m key o :
  wf_bytes key -> content t m -> updates t t' (keybytesToHex key) o -> content t' (partial_alter (fun _ => o) key m).
Proof.
  intros Hkey [Hg Hk Hb] Hu. pose proof (hexkey_keybytes key Hkey) as Hhk. constructor.
  - intros k Hwk. rewrite Hu by (left; split; [done|by apply hexkey_keybytes]).
    destruct (decide (k = key)) as [->|Hne].
    + by rewrite decide_True, lookup_partial_alter_eq by done.
    + rewrite decide_False, lookup_partial_alter_ne by (congruence || by intros ?%keybytesToHex_inj). by apply Hg.
  - intros k v Hwk. rewrite Hu by (by left). case_decide as Heq; [subst k; intros _; by exists key|]. by apply Hk.
  - intros k v. destruct (decide (k = key)) as [->|Hne]; [done|].
    rewrite lookup_partial_alter_ne by congruence. by apply Hb.
Qed.

Lemma content_same t1 t2 m : content t1 m -> content t2 m -> same t1 t2.
Proof.
  intros [G1 K1 _] [G2 K2 _] key Hk.
  destruct (tget t1 key) as [v|] eqn:E1.
  - destruct (K1 _ _ Hk E1) as (k & Hwk & ->). rewrite G1 in E1 by done. by rewrite G2.
  - destruct (tget t2 key) as [v|] eqn:E2; [|done].
    destruct (K2 _ _ Hk E2) as (k & Hwk & ->). rewrite G1 in E1 by done. rewrite G2 in E2 by done. congruence.
Qed.

Lemma content_empty : content TNil ∅.
Proof. constructor; [by intros; rewrite lookup_empty|done|done]. Qed.

Lemma root_slot t key : wf_tree t -> wf_bytes key -> slot t (keybytesToHex key).
Proof. intros Ht Hk. left. split; [by apply hexkey_keybytes|done]. Qed.

Definition enough (key : bytes) : nat := (4 * length key + 4)%nat.

Lemma enough_ok key n fuel : (enough key <= fuel)%nat -> (2 * length (keybytesToHex key) + hashes n < fuel)%nat.
Proof.
  unfold enough, keybytesToHex. rewrite length_app, length_nibbles. simpl length.
  destruct n; simpl; lia.
Qed.

Section operations.
Context (dbnode : bytes -> Z -> option node).

Lemma TryGet_spec tr m fuel key :
  holds dbnode tr m -> wf_bytes key -> (enough key <= fuel)%nat ->
  exists tr', TryGet dbnode tr fuel key = (Ok (m !! key), tr') /\ holds dbnode tr' m.
Proof.
  intros (t & Hr & Hwf & Hc) Hkey Hf.
  destruct (tryGet_ok dbnode tr fuel t (root tr) [] (keybytesToHex key)) as (n' & d & Hg & Hr');
    [done|by apply root_slot|by apply enough_ok|].
  unfold TryGet. cbn [app] in Hg. change (zlen []) with 0 in Hg. rewrite Hg.
  rewrite (content_get _ _ Hc) by done. eexists. split; [done|].
  destruct d; exists t; split_and!; done.
Qed.

Lemma TryDelete_spec tr m fuel key :
  holds dbnode tr m -> wf_bytes key -> (enough key <= fuel)%nat ->
  exists tr', TryDelete dbnode tr fuel key = (Ok tt, tr') /\ holds dbnode tr' (base.delete key m).
Proof.
  intros (t & Hr & Hwf & Hc) Hkey Hf.
  destruct (delete_ok dbnode tr fuel t (root tr) [] (keybytesToHex key))
    as (d & n' & t' & Hd & Hr' & Hs & _ & Hu & _); [done|by apply root_slot|by apply enough_ok|].
  unfold TryDelete. rewrite Hd. eexists. split; [done|]. exists t'. split_and!; [done| |].
  - apply slot_wf in Hs as [_ ?]; [done|]. by apply hexkey_ne, hexkey_keybytes.
  - by apply (content_updates t).
Qed.

Lemma TryUpdate_spec tr m fuel key value :
  holds dbnode tr m -> wf_bytes key -> (enough key <= fuel)%nat ->
  exists tr', TryUpdate dbnode tr fuel key value = (Ok tt, tr') /\
    holds dbnode tr' (if decide (value = []) then base.delete key m else <[key := value]> m).
Proof.
  intros Hh Hkey Hf. unfold TryUpdate. case_decide as Hv.
  { subst value. by apply TryDelete_spec. }
  assert ((zlen value =? 0) = false) as ->.
  { apply Z.eqb_neq. destruct value; [done|]. rewrite zlen_cons. pose proof (zlen_nonneg value). lia. }
  destruct Hh as (t & Hr & Hwf & Hc).
  destruct (insert_ok dbnode tr fuel t (root tr) [] (keybytesToHex key) value)
    as (d & n' & t' & Hd & Hr' & Hs & _ & _ & Hu & _); [done|by apply root_slot|done|by apply enough_ok|].
  cbn [negb]. rewrite Hd. eexists. split; [done|]. exists t'. split_and!; [done| |].
  - apply slot_wf in Hs as [_ ?]; [done|]. by apply hexkey_ne, hexkey_keybytes.
  - by apply (content_updates t).
Qed.
End operations.

(** * Results *)

Inductive op := OpGet (key : bytes) | OpUpdate (key value : bytes) | OpDelete (key : bytes).

Definition op_key (o : op) : bytes := match o with OpGet k | OpUpdate k _ | OpDelete k => k end.

(** A call on the trie, and its meaning on a map.  Updates return no value. *)
Definition step (dbnode : bytes -> Z -> option node) (fuel : nat) (tr : Trie) (o : op) :
    result TrieError (option bytes) * Trie :=
  match o with
  | OpGet k => TryGet dbnode tr fuel k
  | OpUpdate k v => prod_map (rmap (fun _ => None)) id (TryUpdate dbnode tr fuel k v)
  | OpDelete k => prod_map (rmap (fun _ => None)) id (TryDelete dbnode tr fuel k)
  end.

Definition map_step (m : gmap bytes bytes) (o : op) : option bytes * gmap bytes bytes :=
  match o with
  | OpGet k => (m !! k, m)
  | OpUpdate k v => (None, if decide (v = []) then base.delete k m else <[k := v]> m)
  | OpDelete k => (None, base.delete k m)
  end.

Fixpoint run (dbnode : bytes -> Z -> option node) (fuel : nat) (tr : Trie) (ops : list op) :
    list (result TrieError (option bytes)) * Trie :=
  match ops with
  | [] => ([], tr)
  | o :: ops =>
      let '(r, tr) := step dbnode fuel tr o in
      prod_map (cons r) id (run dbnode fuel tr ops)
  end.

Fixpoint map_run (m : gmap bytes bytes) (ops : list op) : list (option bytes) * gmap bytes bytes :=
  match ops with
  | [] => ([], m)
  | o :: ops =>
      let '(r, m) := map_step m o in
      prod_map (cons r) id (map_run m ops)
  end.

Definition ops_ok (fuel : nat) (ops : list op) : Prop :=
  Forall (fun o => wf_bytes (op_key o) /\ (enough (op_key o) <= fuel)%nat) ops.

Lemma step_spec dbnode fuel tr m o :
  holds dbnode tr m -> wf_bytes (op_key o) -> (enough (op_key o) <= fuel)%nat ->
  exists tr', step dbnode fuel tr o = (Ok (map_step m o).1, tr') /\ holds dbnode tr' (map_step m o).2.
Proof.
  intros Hh Hk Hf. destruct o as [k|k v|k]; cbn [step map_step op_key fst snd] in *.
  - by apply TryGet_spec.
  - destruct (TryUpdate_spec dbnode tr m fuel k v Hh Hk Hf) as (tr' & -> & Hh'). by exists tr'.
  - destruct (TryDelete_spec dbnode tr m fuel k Hh Hk Hf) as (tr' & -> & Hh'). by exists tr'.
Qed.

Lemma run_spec dbnode fuel ops tr m :
  holds dbnode tr m -> ops_ok fuel ops ->
  exists tr', run dbnode fuel tr ops = (map Ok (map_run m ops).1, tr') /\
    holds dbnode tr' (map_run m ops).2.
Proof.
  revert tr m. induction ops as [|o ops IH]; intros tr m Hh Hok; [by exists tr|].
  apply Forall_cons_iff in Hok as [[Hk Hf] Hok].
  destruct (step_spec dbnode fuel tr m o Hh Hk Hf) as (tr1 & Hs & Hh1).
  cbn [run map_run]. rewrite Hs. destruct (map_step m o) as [r m1]. cbn [fst snd] in *.
  destruct (IH tr1 m1 Hh1 Hok) as (tr2 & -> & Hh2). exists tr2. by destruct (map_run m1 ops).
Qed.

Lemma empty_holds dbnode gen limit : holds dbnode (mkTrie nilNode gen limit) ∅.
Proof. exists TNil. split_and!; [constructor|by left|apply content_empty]. Qed.

(** C8: [TryGet], [TryUpdate] and [TryDelete], called in any order on a trie whose
    nodes are partly in memory and partly in the database, behave as the lookups,
    insertions and deletions of a finite map (an update with the empty value
    deletes): every call returns what the map returns, none fails, runs out of the
    stated fuel or panics, and the trie afterwards holds the map. *)
Theorem trie_refines_map dbnode fuel ops tr m :
  holds dbnode tr m -> ops_ok fuel ops ->
  exists tr', run dbnode fuel tr ops = (map Ok (map_run m ops).1, tr') /\
    holds dbnode tr' (map_run m ops).2.
Proof. apply run_spec. Qed.

Lemma trie_refines_map_witness :
  let ops := [OpUpdate [1; 2] [7]; OpUpdate [1; 18] [8]; OpGet [1; 2]; OpDelete [1; 2]; OpGet [1; 2];
              OpGet [1; 18]; OpUpdate [1; 18] []] in
  exists tr', run (fun _ _ => None) 20 (mkTrie nilNode 0 0) ops =
    ([Ok None; Ok None; Ok (Some [7]); Ok None; Ok None; Ok (Some [8]); Ok None], tr') /\
    holds (fun _ _ => None) tr' (map_run ∅ ops).2.
Proof.
  intros ops.
  destruct (trie_refines_map (fun _ _ => None) 20 ops (mkTrie nilNode 0 0) ∅) as (tr' & Hr & Hh).
  - apply empty_holds.
  - by_decide.
  - exists tr'. split; [|exact Hh]. rewrite Hr. by_compute.
Defined.

Lemma step_gen dbnode fuel tr o : cachegen (step dbnode fuel tr o).2 = cachegen tr.
Proof.
  assert (forall k, cachegen (TryDelete dbnode tr fuel k).2 = cachegen tr) as Hd.
  { intros k. unfold TryDelete. by destruct (delete _ _ _ _ _ _) as [[]|?|]. }
  destruct o as [k|k v|k]; cbn [step].
  - unfold TryGet. by destruct (tryGet _ _ _ _ _ _) as [[[? ?] []]|?|].
  - unfold TryUpdate. case_if; [by destruct (insert _ _ _ _ _ _ _) as [[]|?|]|apply Hd].
  - apply Hd.
Qed.

Lemma run_gen dbnode fuel ops tr : cachegen (run dbnode fuel tr ops).2 = cachegen tr.
Proof.
  revert tr. induction ops as [|o ops IH]; intros tr; [done|]. cbn [run].
  pose proof (step_gen dbnode fuel tr o) as Hg. destruct (step dbnode fuel tr o) as [r tr1].
  cbn [snd] in Hg. rewrite <-Hg, <-(IH tr1). by destruct (run dbnode fuel tr1 ops).
Qed.

(** C14: the trie does not depend on history: two sequences of operations on empty
    tries that leave the same map leave the same tree, whichever nodes of it are in
    memory. *)
Theorem trie_history_independent db1 db2 fuel ops1 ops2 gen1 lim1 gen2 lim2 :
  ops_ok fuel ops1 -> ops_ok fuel ops2 -> (map_run ∅ ops1).2 = (map_run ∅ ops2).2 ->
  exists t,
    rep db1 gen1 t (root (run db1 fuel (mkTrie nilNode gen1 lim1) ops1).2) /\
    rep db2 gen2 t (root (run db2 fuel (mkTrie nilNode gen2 lim2) ops2).2).
Proof.
  intros Hok1 Hok2 Hm.
  destruct (run_spec db1 fuel ops1 (mkTrie nilNode gen1 lim1) ∅) as (tr1 & H1 & Hh1);
    [apply empty_holds|done|].
  destruct (run_spec db2 fuel ops2 (mkTrie nilNode gen2 lim2) ∅) as (tr2 & H2 & Hh2);
    [apply empty_holds|done|].
  pose proof (run_gen db1 fuel ops1 (mkTrie nilNode gen1 lim1)) as Hg1.
  pose proof (run_gen db2 fuel ops2 (mkTrie nilNode gen2 lim2)) as Hg2.
  rewrite H1 in *. rewrite H2 in *. cbn [snd cachegen] in *. rewrite Hm in Hh1.
  destruct Hh1 as (t1 & Hr1 & Hw1 & Hc1), Hh2 as (t2 & Hr2 & Hw2 & Hc2).
  assert (t1 = t2) as -> by (apply wf_tree_eq; [done..|by eapply content_same]).
  exists t2. rewrite <-Hg1, <-Hg2. done.
Qed.

Lemma trie_history_independent_witness :
  let db := fun _ _ => None in
  exists t,
    rep db 0 t (root (run db 20 (mkTrie nilNode 0 0)
      [OpUpdate [1; 2] [7]; OpUpdate [1; 18] [8]]).2) /\
    rep db 3 t (root (run db 20 (mkTrie nilNode 3 0)
      [OpUpdate [1; 18] [9]; OpUpdate [5] [6]; OpUpdate [1; 2] [7]; OpDelete [5]; OpUpdate [1; 18] [8]]).2).
Proof.
  intros db. apply trie_history_independent; [by_decide|by_decide|by_compute].
Defined.
