(* ===== verification/Params.v ===== *)
(** Chain parameters: the protocol constants, the gas tables and the fork
    schedule of a chain (params/protocol_params.go, params/gas_table.go,
    params/config.go), with the compatibility check of two schedules. *)

From Stdlib Require Import String.
From S2P Require Import Prelude GoMath.

(** * Protocol constants *)
Definition ExpByteGas : Z := 10.
Definition CallValueTransferGas : Z := 9000.
Definition CallNewAccountGas : Z := 25000.
Definition TxGas : Z := 21000.
Definition TxGasContractCreation : Z := 53000.
Definition TxDataZeroGas : Z := 4.
Definition QuadCoeffDiv : Z := 512.
Definition LogDataGas : Z := 8.
Definition CallStipend : Z := 2300.
Definition Sha3Gas : Z := 30.
Definition Sha3WordGas : Z := 6.
Definition SstoreSetGas : Z := 20000.
Definition SstoreResetGas : Z := 5000.
Definition SstoreClearGas : Z := 5000.
Definition SstoreRefundGas : Z := 15000.
Definition NetSstoreNoopGas : Z := 200.
Definition NetSstoreInitGas : Z := 20000.
Definition NetSstoreCleanGas : Z := 5000.
Definition NetSstoreDirtyGas : Z := 200.
Definition NetSstoreClearRefund : Z := 15000.
Definition NetSstoreResetRefund : Z := 4800.
Definition NetSstoreResetClearRefund : Z := 19800.
Definition JumpdestGas : Z := 1.
Definition CreateDataGas : Z := 200.
Definition CallCreateDepth : Z := 1024.
Definition LogGas : Z := 375.
Definition CopyGas : Z := 3.
Definition StackLimit : Z := 1024.
Definition LogTopicGas : Z := 375.
Definition CreateGas : Z := 32000.
Definition Create2Gas : Z := 32000.
Definition SuicideRefundGas : Z := 24000.
Definition MemoryGas : Z := 3.
Definition TxDataNonZeroGas : Z := 68.
Definition MaxCodeSize : Z := 24576.
Definition EcrecoverGas : Z := 3000.
Definition Sha256BaseGas : Z := 60.
Definition Sha256PerWordGas : Z := 12.
Definition Ripemd160BaseGas : Z := 600.
Definition Ripemd160PerWordGas : Z := 120.
Definition IdentityBaseGas : Z := 15.
Definition IdentityPerWordGas : Z := 3.
Definition ModExpQuadCoeffDiv : Z := 20.
Definition Bn256AddGas : Z := 500.
Definition Bn256ScalarMulGas : Z := 40000.
Definition Bn256PairingBaseGas : Z := 100000.
Definition Bn256PairingPerPointGas : Z := 80000.

(** * Gas tables *)
Record GasTable := mkGasTable {
  ExtcodeSize : Z; ExtcodeCopy : Z; ExtcodeHash : Z; Balance : Z; SLoad : Z;
  Calls : Z; Suicide : Z; ExpByte : Z; CreateBySuicide : Z }.

Definition GasTableHomestead : GasTable := mkGasTable 20 20 0 20 50 40 0 10 0.
Definition GasTableEIP150 : GasTable := mkGasTable 700 700 0 400 200 700 5000 10 25000.
Definition GasTableEIP158 : GasTable := mkGasTable 700 700 0 400 200 700 5000 50 25000.
Definition GasTableConstantinople : GasTable :=
  mkGasTable 700 700 400 400 200 700 5000 50 25000.

(** * Fork schedule

    A nil [*big.Int] is [None]. *)
Record ChainConfig := mkChainConfig {
  ChainID : option Z;
  HomesteadBlock : option Z;
  DAOForkBlock : option Z;
  DAOForkSupport : bool;
  EIP150Block : option Z;
  EIP155Block : option Z;
  EIP158Block : option Z;
  ByzantiumBlock : option Z;
  ConstantinopleBlock : option Z;
  EWASMBlock : option Z }.

Definition isForked (s head : option Z) : bool :=
  match s, head with
  | Some s, Some head => s <=? head
  | _, _ => false
  end.

Definition configNumEqual (x y : option Z) : bool :=
  match x with
  | None => match y with None => true | _ => false end
  | Some x => match y with None => false | Some y => x =? y end
  end.

Definition isForkIncompatible (s1 s2 head : option Z) : bool :=
  (isForked s1 head || isForked s2 head) && negb (configNumEqual s1 s2).

Definition IsHomestead (c : ChainConfig) (num : option Z) : bool := isForked (HomesteadBlock c) num.
Definition IsDAOFork (c : ChainConfig) (num : option Z) : bool := isForked (DAOForkBlock c) num.
Definition IsEIP150 (c : ChainConfig) (num : option Z) : bool := isForked (EIP150Block c) num.
Definition IsEIP155 (c : ChainConfig) (num : option Z) : bool := isForked (EIP155Block c) num.
Definition IsEIP158 (c : ChainConfig) (num : option Z) : bool := isForked (EIP158Block c) num.
Definition IsByzantium (c : ChainConfig) (num : option Z) : bool := isForked (ByzantiumBlock c) num.
Definition IsConstantinople (c : ChainConfig) (num : option Z) : bool :=
  isForked (ConstantinopleBlock c) num.
Definition IsEWASM (c : ChainConfig) (num : option Z) : bool := isForked (EWASMBlock c) num.

Definition GasTable_at (c : ChainConfig) (num : option Z) : GasTable :=
  match num with
  | None => GasTableHomestead
  | _ =>
      if IsConstantinople c num then GasTableConstantinople
      else if IsEIP158 c num then GasTableEIP158
      else if IsEIP150 c num then GasTableEIP150
      else GasTableHomestead
  end.

Record Rules := mkRules {
  rChainID : Z;
  rHomestead : bool; rEIP150 : bool; rEIP155 : bool; rEIP158 : bool;
  rByzantium : bool; rConstantinople : bool }.

Definition Rules_at (c : ChainConfig) (num : option Z) : Rules :=
  mkRules (default 0 (ChainID c)) (IsHomestead c num) (IsEIP150 c num) (IsEIP155 c num)
    (IsEIP158 c num) (IsByzantium c num) (IsConstantinople c num).

(** * Compatibility of two schedules *)
Record ConfigCompatError := mkCompatError {
  What : string; StoredConfig : option Z; NewConfig : option Z; RewindTo : Z }.

Definition newCompatError (what : string) (storedblock newblock : option Z) : ConfigCompatError :=
  let rew :=
    match storedblock, newblock with
    | None, _ => newblock
    | Some _, None => storedblock
    | Some s, Some n => if s <? n then storedblock else newblock
    end in
  let RewindTo :=
    match rew with
    | Some r => if 0 <? r then u64 (Uint64 r - 1) else 0
    | None => 0
    end in
  mkCompatError what storedblock newblock RewindTo.

Definition checkCompatible (c newcfg : ChainConfig) (head : option Z) : option ConfigCompatError :=
  if isForkIncompatible (HomesteadBlock c) (HomesteadBlock newcfg) head then
    Some (newCompatError "Homestead fork block" (HomesteadBlock c) (HomesteadBlock newcfg))
  else if isForkIncompatible (DAOForkBlock c) (DAOForkBlock newcfg) head then
    Some (newCompatError "DAO fork block" (DAOForkBlock c) (DAOForkBlock newcfg))
  else if IsDAOFork c head && negb (Bool.eqb (DAOForkSupport c) (DAOForkSupport newcfg)) then
    Some (newCompatError "DAO fork support flag" (DAOForkBlock c) (DAOForkBlock newcfg))
  else if isForkIncompatible (EIP150Block c) (EIP150Block newcfg) head then
    Some (newCompatError "EIP150 fork block" (EIP150Block c) (EIP150Block newcfg))
  else if isForkIncompatible (EIP155Block c) (EIP155Block newcfg) head then
    Some (newCompatError "EIP155 fork block" (EIP155Block c) (EIP155Block newcfg))
  else if isForkIncompatible (EIP158Block c) (EIP158Block newcfg) head then
    Some (newCompatError "EIP158 fork block" (EIP158Block c) (EIP158Block newcfg))
  else if IsEIP158 c head && negb (configNumEqual (ChainID c) (ChainID newcfg)) then
    Some (newCompatError "EIP158 chain ID" (EIP158Block c) (EIP158Block newcfg))
  else if isForkIncompatible (ByzantiumBlock c) (ByzantiumBlock newcfg) head then
    Some (newCompatError "Byzantium fork block" (ByzantiumBlock c) (ByzantiumBlock newcfg))
  else if isForkIncompatible (ConstantinopleBlock c) (ConstantinopleBlock newcfg) head then
    Some (newCompatError "Constantinople fork block" (ConstantinopleBlock c) (ConstantinopleBlock newcfg))
  else if isForkIncompatible (EWASMBlock c) (EWASMBlock newcfg) head then
    Some (newCompatError "ewasm fork block" (EWASMBlock c) (EWASMBlock newcfg))
  else None.

(** The loop of [CheckCompatible]; [None] when the fuel runs out. *)
Fixpoint CheckCompatible_loop (fuel : nat) (c newcfg : ChainConfig) (bhead : Z)
    (lasterr : option ConfigCompatError) : option (option ConfigCompatError) :=
  match fuel with
  | O => None
  | S fuel =>
      match checkCompatible c newcfg (Some bhead) with
      | None => Some lasterr
      | Some err =>
          if match lasterr with Some l => RewindTo err =? RewindTo l | None => false end
          then Some lasterr
          else CheckCompatible_loop fuel c newcfg (RewindTo err) (Some err)
      end
  end.

Definition CheckCompatible (fuel : nat) (c newcfg : ChainConfig) (height : Z) :
    option (option ConfigCompatError) :=
  CheckCompatible_loop fuel c newcfg height None.

(** * The compatibility check terminates and rewinds far enough *)

(** A reported conflict is repaired below the reported block. *)
Lemma newCompatError_rewind what s1 s2 (h : Z) :
  is_u64 h -> isForked s1 (Some h) || isForked s2 (Some h) = true ->
  let r := RewindTo (newCompatError what s1 s2) in
  0 <= r /\ (r < h \/ r = 0).
Proof.
  intros Hh Hf. unfold is_u64 in Hh.
  destruct s1 as [a|], s2 as [b|]; simpl in Hf |- *; try done;
    rewrite ?orb_false_r, ?orb_true_iff, ?Z.leb_le in Hf;
    repeat case_if; try lia;
    rewrite Uint64_small, u64_small by (unfold is_u64; lia); lia.
Qed.

Lemma isForkIncompatible_forked s1 s2 h :
  isForkIncompatible s1 s2 h = true -> isForked s1 h || isForked s2 h = true.
Proof. unfold isForkIncompatible. by intros [? _]%andb_prop. Qed.

Lemma checkCompatible_rewind c newcfg h err :
  is_u64 h -> checkCompatible c newcfg (Some h) = Some err ->
  0 <= RewindTo err /\ (RewindTo err < h \/ RewindTo err = 0).
Proof.
  intros Hh. unfold checkCompatible.
  repeat (match goal with
  | |- (if ?b then _ else _) = _ -> _ => destruct b eqn:?
  end; [intros [= <-]; apply newCompatError_rewind; [done|]|]); try done;
    try (by apply isForkIncompatible_forked).
  - apply andb_prop in Heqb1 as [Hd _]. unfold IsDAOFork in Hd. by rewrite Hd.
  - apply andb_prop in Heqb5 as [Hd _]. unfold IsEIP158 in Hd. by rewrite Hd.
Qed.

(** A result of the loop is final: the two schedules agree at the reported
    block, or the conflict is at the genesis block. *)
Lemma CheckCompatible_loop_spec fuel c newcfg bhead lasterr :
  is_u64 bhead ->
  match lasterr with Some l => RewindTo l = bhead | None => True end ->
  (Z.to_nat bhead + 2 <= fuel)%nat ->
  exists res, CheckCompatible_loop fuel c newcfg bhead lasterr = Some res /\
    match res with
    | None => lasterr = None /\ checkCompatible c newcfg (Some bhead) = None
    | Some err => 0 <= RewindTo err <= bhead /\
        (checkCompatible c newcfg (Some (RewindTo err)) = None \/ RewindTo err = 0)
    end.
Proof.
  revert bhead lasterr. induction fuel as [|fuel IH]; intros bhead lasterr Hh Hl Hf; [lia|].
  unfold is_u64 in Hh. simpl.
  destruct (checkCompatible c newcfg (Some bhead)) as [err|] eqn:Hc.
  2:{ eexists; split; [done|]. destruct lasterr; [|done]. subst. split; [lia|]. by left. }
  destruct (checkCompatible_rewind _ _ _ _ Hh Hc) as [H0 Hr].
  destruct lasterr as [l|]; [destruct (Z.eqb_spec (RewindTo err) (RewindTo l)) as [He|He]|].
  - eexists; split; [done|]. simpl in *. split; [lia|]. right. lia.
  - destruct (IH (RewindTo err) (Some err)) as (res & -> & H); [unfold is_u64; lia|done|lia|].
    eexists; split; [done|]. destruct res; [|naive_solver]. destruct H; split; [lia|done].
  - destruct fuel as [|fuel]; [lia|]. destruct (decide (bhead = 0)) as [->|Hb].
    + assert (RewindTo err = 0) as E by lia. rewrite E. simpl. rewrite Hc, E. simpl.
      eexists; split; [done|]. simpl. rewrite E. split; [lia|]. by right.
    + destruct (IH (RewindTo err) (Some err)) as (res & -> & H); [unfold is_u64; lia|done|lia|].
      eexists; split; [done|]. destruct res; [|naive_solver]. destruct H; split; [lia|done].
Qed.

(** The loop of [CheckCompatible] ends (after at most [height + 2] rounds),
    reports nothing exactly when the two schedules agree up to [height], and
    otherwise reports a block to rewind to that is not above [height] and at
    which the schedules agree, unless they already differ at the genesis block. *)
Theorem CheckCompatible_rewinds c newcfg height fuel :
  is_u64 height -> (Z.to_nat height + 2 <= fuel)%nat ->
  exists res, CheckCompatible fuel c newcfg height = Some res /\
    (res = None <-> checkCompatible c newcfg (Some height) = None) /\
    forall err, res = Some err -> 0 <= RewindTo err <= height /\
      (checkCompatible c newcfg (Some (RewindTo err)) = None \/ RewindTo err = 0).
Proof.
  intros Hh Hf.
  destruct (CheckCompatible_loop_spec fuel c newcfg height None Hh I Hf) as (res & Hres & H).
  exists res. split; [done|]. split; [|intros err ->; done]. split; [by intros ->; destruct H|].
  intros Hc. destruct fuel as [|fuel]; [lia|]. unfold CheckCompatible in Hres. simpl in Hres.
  rewrite Hc in Hres. by injection Hres.
Qed.

Lemma CheckCompatible_rewinds_witness :
  let c := mkChainConfig (Some 1) (Some 5) None false None None None None None None in
  let c' := mkChainConfig (Some 1) (Some 7) None false None None None None None None in
  exists err, CheckCompatible 12 c c' 10 = Some (Some err) /\ RewindTo err = 4.
Proof.
  intros c c'.
  destruct (CheckCompatible_rewinds c c' 10 12) as (res & Hres & Hn & Hs); [by_decide|lia|].
  destruct res as [err|].
  - exists err. split; [done|]. vm_compute in Hres. injection Hres as <-. done.
  - destruct Hn as [Hn _]. by specialize (Hn eq_refl).
Defined.
