(* ===== verification/EvmCode.v ===== *)
(** EVM byte code: the opcodes (core/vm/opcodes.go) and the jump-destination
    analysis (core/vm/analysis.go), with the proof that the bit vector of
    [codeBitmap] marks exactly the bytes that are data of a PUSH. *)

From S2P Require Import Prelude.

(** * Opcodes *)
Definition STOP : Z := 0x00.
Definition ADD : Z := 0x01.
Definition MUL : Z := 0x02.
Definition SUB : Z := 0x03.
Definition DIV : Z := 0x04.
Definition SDIV : Z := 0x05.
Definition MOD : Z := 0x06.
Definition SMOD : Z := 0x07.
Definition ADDMOD : Z := 0x08.
Definition MULMOD : Z := 0x09.
Definition EXP : Z := 0x0a.
Definition SIGNEXTEND : Z := 0x0b.
Definition LT : Z := 0x10.
Definition GT : Z := 0x11.
Definition SLT : Z := 0x12.
Definition SGT : Z := 0x13.
Definition EQ : Z := 0x14.
Definition ISZERO : Z := 0x15.
Definition AND : Z := 0x16.
Definition OR : Z := 0x17.
Definition XOR : Z := 0x18.
Definition NOT : Z := 0x19.
Definition BYTE : Z := 0x1a.
Definition SHL : Z := 0x1b.
Definition SHR : Z := 0x1c.
Definition SAR : Z := 0x1d.
Definition SHA3 : Z := 0x20.
Definition ADDRESS : Z := 0x30.
Definition BALANCE : Z := 0x31.
Definition ORIGIN : Z := 0x32.
Definition CALLER : Z := 0x33.
Definition CALLVALUE : Z := 0x34.
Definition CALLDATALOAD : Z := 0x35.
Definition CALLDATASIZE : Z := 0x36.
Definition CALLDATACOPY : Z := 0x37.
Definition CODESIZE : Z := 0x38.
Definition CODECOPY : Z := 0x39.
Definition GASPRICE : Z := 0x3a.
Definition EXTCODESIZE : Z := 0x3b.
Definition EXTCODECOPY : Z := 0x3c.
Definition RETURNDATASIZE : Z := 0x3d.
Definition RETURNDATACOPY : Z := 0x3e.
Definition EXTCODEHASH : Z := 0x3f.
Definition BLOCKHASH : Z := 0x40.
Definition COINBASE : Z := 0x41.
Definition TIMESTAMP : Z := 0x42.
Definition NUMBER : Z := 0x43.
Definition DIFFICULTY : Z := 0x44.
Definition GASLIMIT : Z := 0x45.
Definition POP : Z := 0x50.
Definition MLOAD : Z := 0x51.
Definition MSTORE : Z := 0x52.
Definition MSTORE8 : Z := 0x53.
Definition SLOAD : Z := 0x54.
Definition SSTORE : Z := 0x55.
Definition JUMP : Z := 0x56.
Definition JUMPI : Z := 0x57.
Definition PC : Z := 0x58.
Definition MSIZE : Z := 0x59.
Definition GAS : Z := 0x5a.
Definition JUMPDEST : Z := 0x5b.
Definition PUSH1 : Z := 0x60.
Definition PUSH32 : Z := 0x7f.
Definition DUP1 : Z := 0x80.
Definition SWAP1 : Z := 0x90.
Definition LOG0 : Z := 0xa0.
Definition CREATE : Z := 0xf0.
Definition CALL : Z := 0xf1.
Definition CALLCODE : Z := 0xf2.
Definition RETURN : Z := 0xf3.
Definition DELEGATECALL : Z := 0xf4.
Definition CREATE2 : Z := 0xf5.
Definition STATICCALL : Z := 0xfa.
Definition REVERT : Z := 0xfd.
Definition SELFDESTRUCT : Z := 0xff.

(** * Bit vectors

    One bit per code byte, most significant bit first; [None] is an index out
    of range. *)
Abbreviation bitvec := (list Z).

Definition or_at (bits : bitvec) (i v : Z) : option bitvec :=
  b ← index bits i; Some (<[Z.to_nat i := Z.lor b v]> bits).

Definition set (bits : bitvec) (pos : Z) : option bitvec :=
  or_at bits (pos / 8) (Z.shiftr 0x80 (pos mod 8)).

Definition set8 (bits : bitvec) (pos : Z) : option bitvec :=
  bits ← or_at bits (pos / 8) (Z.shiftr 0xff (pos mod 8));
  or_at bits (pos / 8 + 1) (u8 (Z.lnot (Z.shiftr 0xff (pos mod 8)))).

Definition codeSegment (bits : bitvec) (pos : Z) : option bool :=
  b ← index bits (pos / 8);
  Some (Z.land b (Z.shiftr 0x80 (pos mod 8)) =? 0).

(** The two inner loops of [codeBitmap]; [numbits] is at most 32. *)
Fixpoint set8_loop (k : nat) (bits : bitvec) (pc : Z) : option bitvec :=
  match k with
  | O => Some bits
  | S k => bits ← set8 bits pc; set8_loop k bits (pc + 8)
  end.

Fixpoint set_loop (k : nat) (bits : bitvec) (pc : Z) : option bitvec :=
  match k with
  | O => Some bits
  | S k => bits ← set bits pc; set_loop k bits (pc + 1)
  end.

(** The main loop of [codeBitmap]; every round advances [pc], so the number of
    code bytes is enough fuel. *)
Fixpoint codeBitmap_loop (fuel : nat) (code : bytes) (bits : bitvec) (pc : Z) : option bitvec :=
  match fuel with
  | O => if pc <? zlen code then None else Some bits
  | S fuel =>
      if pc <? zlen code then
        op ← index code pc;
        if (PUSH1 <=? op) && (op <=? PUSH32) then
          let numbits := op - PUSH1 + 1 in
          bits ← set8_loop (Z.to_nat (numbits / 8)) bits (pc + 1);
          bits ← set_loop (Z.to_nat (numbits mod 8)) bits (pc + 1 + 8 * (numbits / 8));
          codeBitmap_loop fuel code bits (pc + 1 + numbits)
        else codeBitmap_loop fuel code bits (pc + 1)
      else Some bits
  end.

Definition codeBitmap (code : bytes) : option bitvec :=
  codeBitmap_loop (length code) code (replicate (length code / 8 + 1 + 4) 0) 0.

(** * What the analysis computes

    The reference: a byte of the code is an instruction when it is reached from
    the start by skipping the data of each PUSH. *)
Definition push_size (op : Z) : Z :=
  if (PUSH1 <=? op) && (op <=? PUSH32) then op - PUSH1 + 1 else 0.

Inductive instruction (code : bytes) : Z -> Prop :=
| instruction_first : instruction code 0
| instruction_next pc op :
    instruction code pc -> index code pc = Some op -> instruction code (pc + 1 + push_size op).

Definition get_bit (bits : bitvec) (pos : Z) : bool :=
  match index bits (pos / 8) with
  | Some b => Z.testbit b (7 - pos mod 8)
  | None => false
  end.

Lemma index_lookup {A} (l : list A) i : 0 <= i -> index l i = l !! Z.to_nat i.
Proof. intros. unfold index. case_if; [done|lia]. Qed.

Lemma or_at_ok bits i v :
  0 <= i < zlen bits ->
  exists bits', or_at bits i v = Some bits' /\ length bits' = length bits /\
    forall pos, 0 <= pos -> get_bit bits' pos =
      get_bit bits pos || (if pos / 8 =? i then Z.testbit v (7 - pos mod 8) else false).
Proof.
  intros Hi. unfold zlen in Hi. unfold or_at. rewrite index_lookup by lia.
  destruct (lookup_lt_is_Some_2 bits (Z.to_nat i)) as [b Hb]; [lia|].
  rewrite Hb. simpl. eexists; split; [done|]. rewrite length_insert. split; [done|].
  intros pos Hpos. unfold get_bit. assert (0 <= pos / 8) by (apply Z.div_pos; lia).
  rewrite !index_lookup by done. case_if.
  - subst i. rewrite list_lookup_insert_eq, Hb by lia. apply Z.lor_spec.
  - rewrite list_lookup_insert_ne by lia. by rewrite orb_false_r.
Qed.

(** The one-bit mask of a position, and the two halves of an eight-bit mask. *)
Lemma testbit_set_mask k j :
  0 <= k < 8 -> 0 <= j < 8 -> Z.testbit (Z.shiftr 0x80 k) (7 - j) = (j =? k).
Proof.
  intros Hk Hj.
  assert (k = 0 \/ k = 1 \/ k = 2 \/ k = 3 \/ k = 4 \/ k = 5 \/ k = 6 \/ k = 7) as Ck by lia.
  assert (j = 0 \/ j = 1 \/ j = 2 \/ j = 3 \/ j = 4 \/ j = 5 \/ j = 6 \/ j = 7) as Cj by lia.
  destruct Ck as [->|[->|[->|[->|[->|[->|[->| ->]]]]]]];
    destruct Cj as [->|[->|[->|[->|[->|[->|[->| ->]]]]]]]; reflexivity.
Qed.

Lemma testbit_set8_masks k j :
  0 <= k < 8 -> 0 <= j < 8 ->
  Z.testbit (Z.shiftr 0xff k) (7 - j) = (k <=? j) /\
  Z.testbit (u8 (Z.lnot (Z.shiftr 0xff k))) (7 - j) = (j <? k).
Proof.
  intros Hk Hj.
  assert (k = 0 \/ k = 1 \/ k = 2 \/ k = 3 \/ k = 4 \/ k = 5 \/ k = 6 \/ k = 7) as Ck by lia.
  assert (j = 0 \/ j = 1 \/ j = 2 \/ j = 3 \/ j = 4 \/ j = 5 \/ j = 6 \/ j = 7) as Cj by lia.
  destruct Ck as [->|[->|[->|[->|[->|[->|[->| ->]]]]]]];
    destruct Cj as [->|[->|[->|[->|[->|[->|[->| ->]]]]]]]; by vm_compute.
Qed.

(** [marks bits bits' lo hi]: the positions from [lo] to [hi] are added. *)
Definition marks (bits bits' : bitvec) (lo hi : Z) : Prop :=
  length bits' = length bits /\
  forall pos, 0 <= pos -> get_bit bits' pos = get_bit bits pos || ((lo <=? pos) && (pos <? hi)).

Lemma marks_refl bits lo hi : hi <= lo -> marks bits bits lo hi.
Proof. intros. split; [done|]. intros pos Hp. destruct (get_bit bits pos); lia. Qed.

Lemma marks_trans b1 b2 b3 lo mid hi :
  lo <= mid <= hi -> marks b1 b2 lo mid -> marks b2 b3 mid hi -> marks b1 b3 lo hi.
Proof.
  intros Hm [L1 M1] [L2 M2]. split; [congruence|]. intros pos Hp.
  rewrite M2, M1 by done. destruct (get_bit b1 pos); lia.
Qed.

Lemma set_ok bits pos :
  0 <= pos -> pos / 8 < zlen bits ->
  exists bits', set bits pos = Some bits' /\ marks bits bits' pos (pos + 1).
Proof.
  intros Hp Hl. assert (0 <= pos / 8) by (apply Z.div_pos; lia). unfold set.
  destruct (or_at_ok bits (pos / 8) (Z.shiftr 0x80 (pos mod 8))) as (bits' & -> & L & M); [lia|].
  exists bits'. split; [done|]. split; [done|]. intros p Hp'. rewrite M by done. f_equal.
  pose proof (Z.div_mod p 8 ltac:(lia)). pose proof (Z.mod_pos_bound p 8 ltac:(lia)).
  pose proof (Z.div_mod pos 8 ltac:(lia)). pose proof (Z.mod_pos_bound pos 8 ltac:(lia)).
  case_if; [rewrite testbit_set_mask by lia|]; lia.
Qed.

Lemma set8_ok bits pos :
  0 <= pos -> pos / 8 + 1 < zlen bits ->
  exists bits', set8 bits pos = Some bits' /\ marks bits bits' pos (pos + 8).
Proof.
  intros Hp Hl. assert (0 <= pos / 8) by (apply Z.div_pos; lia). unfold set8.
  destruct (or_at_ok bits (pos / 8) (Z.shiftr 0xff (pos mod 8))) as (b1 & -> & L1 & M1); [lia|]. simpl.
  destruct (or_at_ok b1 (pos / 8 + 1) (u8 (Z.lnot (Z.shiftr 0xff (pos mod 8)))))
    as (b2 & -> & L2 & M2); [unfold zlen in *; lia|].
  exists b2. split; [done|]. split; [congruence|]. intros p Hp'. rewrite M2, M1 by done.
  pose proof (Z.div_mod p 8 ltac:(lia)). pose proof (Z.mod_pos_bound p 8 ltac:(lia)).
  pose proof (Z.div_mod pos 8 ltac:(lia)). pose proof (Z.mod_pos_bound pos 8 ltac:(lia)).
  destruct (testbit_set8_masks (pos mod 8) (p mod 8)) as [-> ->]; [lia..|].
  repeat case_if; destruct (get_bit bits p); lia.
Qed.

Lemma set8_loop_ok k bits pc :
  0 <= pc -> (pc + 8 * Z.of_nat k) / 8 < zlen bits ->
  exists bits', set8_loop k bits pc = Some bits' /\ marks bits bits' pc (pc + 8 * Z.of_nat k).
Proof.
  revert bits pc. induction k as [|k IH]; intros bits pc Hp Hl; simpl.
  { exists bits. split; [done|]. apply marks_refl. lia. }
  replace (pc + 8 * Z.of_nat (S k)) with (pc + 8 + 8 * Z.of_nat k) in * by lia.
  destruct (set8_ok bits pc) as (b1 & -> & M1); [done| |].
  { eapply Z.le_lt_trans; [|exact Hl]. rewrite <-Z.div_add by lia. apply Z.div_le_mono; lia. }
  simpl. destruct (IH b1 (pc + 8)) as (b2 & -> & M2); [lia| |].
  { unfold zlen in *. destruct M1 as [-> _]. done. }
  exists b2. split; [done|]. eapply marks_trans; [|done..]. lia.
Qed.

Lemma set_loop_ok k bits pc :
  0 <= pc -> (pc + Z.of_nat k) / 8 < zlen bits ->
  exists bits', set_loop k bits pc = Some bits' /\ marks bits bits' pc (pc + Z.of_nat k).
Proof.
  revert bits pc. induction k as [|k IH]; intros bits pc Hp Hl; simpl.
  { exists bits. split; [done|]. apply marks_refl. lia. }
  replace (pc + Z.of_nat (S k)) with (pc + 1 + Z.of_nat k) in * by lia.
  destruct (set_ok bits pc) as (b1 & -> & M1); [done| |].
  { eapply Z.le_lt_trans; [|exact Hl]. apply Z.div_le_mono; lia. }
  simpl. destruct (IH b1 (pc + 1)) as (b2 & -> & M2); [lia| |].
  { unfold zlen in *. destruct M1 as [-> _]. done. }
  exists b2. split; [done|]. eapply marks_trans; [|done..]. lia.
Qed.

(** * Instruction positions *)
Lemma push_size_bound op : 0 <= push_size op <= 32.
Proof. unfold push_size, PUSH1, PUSH32. case_if; lia. Qed.

Lemma instruction_nonneg code pc : instruction code pc -> 0 <= pc.
Proof. induction 1; [lia|]. pose proof (push_size_bound op). lia. Qed.

(** No instruction starts inside the data of another one. *)
Lemma instruction_gap code p q op :
  instruction code p -> instruction code q -> q < p -> index code q = Some op ->
  q + 1 + push_size op <= p.
Proof.
  intros Hp. pose proof (instruction_nonneg _ _ Hp) as H0. revert Hp q op.
  induction p as [p IH] using (well_founded_induction (Z.lt_wf 0)). intros Hp q op Hq Hlt Ho.
  destruct Hp as [|p' op' Hp' Ho']; [pose proof (instruction_nonneg _ _ Hq); lia|].
  pose proof (push_size_bound op'). pose proof (instruction_nonneg _ _ Hp').
  destruct (Z.lt_trichotomy q p') as [Hqp|[->|Hqp]].
  - specialize (IH p' ltac:(lia) ltac:(lia) Hp' q op Hq Hqp Ho). lia.
  - simplify_eq. lia.
  - pose proof (instruction_nonneg _ _ Hq).
    specialize (IH q ltac:(lia) ltac:(lia) Hq p' op' Hp' Hqp Ho'). lia.
Qed.

(** [analysed code bits pc]: the bits are right below [pc] and clear from [pc]. *)
Definition analysed (code : bytes) (bits : bitvec) (pc : Z) : Prop :=
  instruction code pc /\
  forall p, 0 <= p -> if p <? pc then (get_bit bits p = false <-> instruction code p)
                      else get_bit bits p = false.

Lemma analysed_next code bits bits' pc op :
  analysed code bits pc -> index code pc = Some op ->
  marks bits bits' (pc + 1) (pc + 1 + push_size op) ->
  analysed code bits' (pc + 1 + push_size op).
Proof.
  intros [Hi Hb] Ho [_ HM]. pose proof (push_size_bound op).
  split; [by eapply instruction_next|]. intros p Hp. specialize (Hb p Hp).
  rewrite HM by done. case_if.
  2:{ case_if_in Hb; [lia|]. rewrite Hb. lia. }
  destruct (Z.lt_trichotomy p pc) as [Hlt|[->|Hgt]].
  - case_if_in Hb; [|lia]. rewrite <-Hb. destruct (get_bit bits p); lia.
  - case_if_in Hb; [lia|]. rewrite Hb. split; [done|]. lia.
  - case_if_in Hb; [lia|]. rewrite Hb. split; [lia|].
    intros Hip. pose proof (instruction_gap _ _ _ _ Hip Hi Hgt Ho). lia.
Qed.

Lemma codeBitmap_loop_ok fuel code bits pc :
  zlen bits = zlen code / 8 + 5 ->
  analysed code bits pc -> zlen code - pc <= Z.of_nat fuel ->
  exists bits', codeBitmap_loop fuel code bits pc = Some bits' /\
    length bits' = length bits /\ exists pc', zlen code <= pc' /\ analysed code bits' pc'.
Proof.
  revert bits pc. induction fuel as [|fuel IH]; intros bits pc Hl Ha Hf; simpl.
  { case_if; [lia|]. exists bits. split; [done|]. split; [done|]. by exists pc. }
  case_if; [|exists bits; split; [done|]; split; [done|]; by exists pc].
  pose proof (instruction_nonneg _ _ (proj1 Ha)) as H0.
  destruct (index code pc) as [op|] eqn:Ho.
  2:{ rewrite index_lookup in Ho by lia. apply lookup_ge_None in Ho. unfold zlen in *. lia. }
  simpl. pose proof (push_size_bound op) as Hs. unfold push_size in Hs.
  destruct ((PUSH1 <=? op) && (op <=? PUSH32)) eqn:Hop.
  - set (n := op - PUSH1 + 1) in *.
    pose proof (Z.div_mod n 8 ltac:(lia)). pose proof (Z.mod_pos_bound n 8 ltac:(lia)).
    assert (0 <= n / 8) by (apply Z.div_pos; lia).
    assert (Hbnd : forall q, q <= pc + 1 + n -> q / 8 < zlen bits).
    { intros q Hq. rewrite Hl. eapply (Z.le_lt_trans _ ((zlen code + 32) / 8)).
      - apply Z.div_le_mono; lia.
      - replace 32 with (4 * 8) by done. rewrite Z.div_add; lia. }
    destruct (set8_loop_ok (Z.to_nat (n / 8)) bits (pc + 1)) as (b1 & -> & M1); [lia|apply Hbnd; lia|].
    simpl. destruct (set_loop_ok (Z.to_nat (n mod 8)) b1 (pc + 1 + 8 * (n / 8))) as (b2 & -> & M2); [lia| |].
    { unfold zlen at 1. rewrite (proj1 M1). apply Hbnd. lia. }
    simpl. rewrite Z2Nat.id in M1, M2 by lia.
    assert (M : marks bits b2 (pc + 1) (pc + 1 + 8 * (n / 8) + n mod 8)) by (eapply marks_trans; [|done..]; lia).
    replace (pc + 1 + 8 * (n / 8) + n mod 8) with (pc + 1 + n) in M by lia.
    destruct (IH b2 (pc + 1 + n)) as (b3 & -> & L3 & Hpc); [unfold zlen at 1; by rewrite (proj1 M)| |lia|].
    { pose proof (analysed_next _ _ b2 _ _ Ha Ho) as Hn. unfold push_size in Hn. rewrite Hop in Hn. by apply Hn. }
    exists b3. split; [done|]. split; [|done]. rewrite L3. apply M.
  - destruct (IH bits (pc + 1)) as (b3 & -> & L3 & Hpc); [done| |lia|by exists b3].
    pose proof (analysed_next _ _ bits _ _ Ha Ho) as Hn. unfold push_size in Hn. rewrite Hop, !Z.add_0_r in Hn.
    apply Hn, marks_refl. lia.
Qed.

Lemma get_bit_zeros n p : get_bit (replicate n 0) p = false.
Proof.
  unfold get_bit, index. case_if; [|done].
  destruct (_ !! _) as [b|] eqn:Hb; [|done]. apply lookup_replicate in Hb as [-> _]. by rewrite Z.testbit_0_l.
Qed.

Lemma codeSegment_get_bit bits pos :
  0 <= pos -> pos / 8 < zlen bits -> codeSegment bits pos = Some (negb (get_bit bits pos)).
Proof.
  intros Hp Hl. unfold codeSegment, get_bit. assert (0 <= pos / 8) by (apply Z.div_pos; lia).
  rewrite !index_lookup by done. unfold zlen in Hl.
  destruct (lookup_lt_is_Some_2 bits (Z.to_nat (pos / 8))) as [b ->]; [lia|]. simpl. f_equal.
  pose proof (Z.mod_pos_bound pos 8 ltac:(lia)) as Hm.
  assert (Z.shiftr 0x80 (pos mod 8) = 2 ^ (7 - pos mod 8)) as ->.
  { rewrite Z.shiftr_div_pow2 by lia. change 0x80 with (2 ^ 7). by rewrite <-Z.pow_sub_r by lia. }
  destruct (Z.testbit b (7 - pos mod 8)) eqn:Ht; simpl.
  - apply Z.eqb_neq. intros E. apply (f_equal (fun x => Z.testbit x (7 - pos mod 8))) in E.
    rewrite Z.land_spec, Ht, Z.pow2_bits_true, Z.bits_0 in E by lia. done.
  - apply Z.eqb_eq. apply Z.bits_inj'. intros k Hk. rewrite Z.land_spec, Z.bits_0.
    destruct (decide (k = 7 - pos mod 8)) as [->|]; [by rewrite Ht|].
    rewrite Z.pow2_bits_false by lia. apply andb_false_r.
Qed.

(** The analysis of a code exists and tells instructions from data at every
    position of the code. *)
Definition good_bitmap (code : bytes) (bits : bitvec) : Prop :=
  forall pos, 0 <= pos < zlen code ->
    exists b, codeSegment bits pos = Some b /\ (b = true <-> instruction code pos).

Lemma codeBitmap_ok code : exists bits, codeBitmap code = Some bits /\ good_bitmap code bits.
Proof.
  assert (Hl : zlen (replicate (length code / 8 + 1 + 4) 0) = zlen code / 8 + 5).
  { unfold zlen. rewrite length_replicate, !Nat2Z.inj_add, Nat2Z.inj_div. lia. }
  destruct (codeBitmap_loop_ok (length code) code (replicate (length code / 8 + 1 + 4) 0) 0)
    as (bits & Hb & L & pc' & Hpc & Ha); [done| |unfold zlen; lia|].
  { split; [constructor|]. intros p Hp. rewrite get_bit_zeros. case_if; [lia|done]. }
  exists bits. split; [done|]. intros pos Hpos.
  rewrite codeSegment_get_bit.
  - eexists; split; [done|]. rewrite negb_true_iff. destruct Ha as [_ Ha].
    specialize (Ha pos ltac:(lia)). case_if_in Ha; [done|lia].
  - lia.
  - unfold zlen at 1. rewrite L. change (Z.of_nat (length ?l)) with (zlen l). rewrite Hl.
    pose proof (Z.div_le_mono pos (zlen code) 8). lia.
Qed.

(** The jump-destination analysis of every code runs without an index out
    of range, and its answer at each position of the code is whether the byte
    there is an instruction rather than data of a PUSH. *)
Theorem codeBitmap_correct code :
  exists bits, codeBitmap code = Some bits /\
  forall pos, 0 <= pos < zlen code ->
    exists b, codeSegment bits pos = Some b /\ (b = true <-> instruction code pos).
Proof. apply codeBitmap_ok. Qed.
