(* ===== verification/EvmMemory.v ===== *)
(** EVM memory and the byte helpers of the interpreter (core/vm/memory.go,
    core/vm/common.go, common/bytes.go), with the memory fee of
    core/vm/gas_table.go and its closed form. *)

From S2P Require Import Prelude GoMath Params.

(** * Byte helpers *)
Definition RightPadBytes (slice : bytes) (l : Z) : bytes :=
  if l <=? zlen slice then slice else slice ++ replicate (Z.to_nat (l - zlen slice)) 0.

Definition LeftPadBytes (slice : bytes) (l : Z) : bytes :=
  if l <=? zlen slice then slice else replicate (Z.to_nat (l - zlen slice)) 0 ++ slice.

Definition calcMemSize (off l : Z) : Z := if l =? 0 then 0 else off + l.

(** [getData] with [uint64] arguments; a conversion [int(size)] of a size above
    [2^63] is negative.  [None] is a slice expression out of range. *)
Definition getData (data : bytes) (start size : Z) : option bytes :=
  let length := zlen data in
  let start := if length <? start then length else start in
  let endd := u64 (start + size) in
  let endd := if length <? endd then length else endd in
  d ← slice data start endd;
  Some (RightPadBytes d (Int64 size)).

Definition getDataBig (data : bytes) (start size : Z) : option bytes :=
  let dlen := zlen data in
  let s := BigMin start dlen in
  let e := BigMin (s + size) dlen in
  d ← slice data (Uint64 s) (Uint64 e);
  Some (RightPadBytes d (Int64 (Uint64 size))).

Definition bigUint64 (v : Z) : Z * bool := (Uint64 v, 64 <? bitlen v).

Definition toWordSize (size : Z) : Z :=
  if MaxUint64 - 31 <? size then MaxUint64 / 32 + 1 else u64 (size + 31) / 32.

Definition allZero (b : bytes) : bool := forallb (fun x => x =? 0) b.

(** Addresses and storage words are numbers: [Big] of an address is the address
    itself, [BigToAddress] and [BigToHash] keep the low 20 and 32 bytes. *)
Definition BigToAddress (b : Z) : Z := Z.abs b mod 2 ^ 160.
Definition BigToHash (b : Z) : Z := Z.abs b mod 2 ^ 256.

(** * Memory *)
Record Memory := mkMemory { store : bytes; lastGasCost : Z }.

Definition NewMemory : Memory := mkMemory [] 0.
Definition set_store (m : Memory) (s : bytes) : Memory := mkMemory s (lastGasCost m).

(** [copy(dst[off:], src)] where the destination is long enough. *)
Definition overlay (dst : bytes) (off : Z) (src : bytes) : bytes :=
  take (Z.to_nat off) dst ++ src ++ drop (Z.to_nat off + length src) dst.

(** [None] is a Go panic.  A slice expression beyond the length of the store is
    one here; Go would first look at the capacity. *)
Definition Memory_Set (m : Memory) (offset size : Z) (value : bytes) : option Memory :=
  if 0 <? size then
    if zlen (store m) <? u64 (offset + size) then None
    else
      _ ← slice (store m) offset (u64 (offset + size));
      Some (set_store m (overlay (store m) offset (take (Z.to_nat size) value)))
  else Some m.

Definition Memory_Set32 (m : Memory) (offset val : Z) : option Memory :=
  if zlen (store m) <? u64 (offset + 32) then None
  else
    _ ← slice (store m) offset (u64 (offset + 32));
    Some (set_store m (overlay (store m) offset (ReadBits val (replicate 32 0)))).

Definition Memory_Resize (m : Memory) (size : Z) : Memory :=
  if zlen (store m) <? size
  then set_store m (store m ++ replicate (Z.to_nat (size - zlen (store m))) 0)
  else m.

Definition Memory_Get (m : Memory) (offset size : Z) : option bytes :=
  if size =? 0 then Some []
  else if offset <? zlen (store m) then slice (store m) offset (offset + size)
  else Some [].

(** [GetPtr] returns the part of the store itself; its callers end the frame. *)
Definition Memory_GetPtr (m : Memory) (offset size : Z) : option bytes :=
  if size =? 0 then Some []
  else if offset <? zlen (store m) then slice (store m) offset (offset + size)
  else Some [].

(** * Memory fee

    The fee for growing the memory to [newMemSize] bytes, the new state of the
    memory; [None] is [errGasUintOverflow]. *)
Definition memoryGasCost (m : Memory) (newMemSize : Z) : option (Z * Memory) :=
  if newMemSize =? 0 then Some (0, m)
  else if 0xffffffffe0 <? newMemSize then None
  else
    let newMemSizeWords := toWordSize newMemSize in
    let newMemSize := u64 (newMemSizeWords * 32) in
    if zlen (store m) <? newMemSize then
      let square := u64 (newMemSizeWords * newMemSizeWords) in
      let linCoef := u64 (newMemSizeWords * MemoryGas) in
      let quadCoef := square / QuadCoeffDiv in
      let newTotalFee := u64 (linCoef + quadCoef) in
      let fee := u64 (newTotalFee - lastGasCost m) in
      Some (fee, mkMemory (store m) newTotalFee)
    else Some (0, m).

(** * Lemmas *)
Lemma zlen_RightPadBytes s l : zlen (RightPadBytes s l) = Z.max l (zlen s).
Proof.
  unfold RightPadBytes. case_if; [lia|]. rewrite zlen_app. unfold zlen in *.
  rewrite length_replicate. lia.
Qed.

Lemma wf_replicate0 n : wf_bytes (replicate n 0).
Proof. apply Forall_replicate. by_decide. Qed.

Lemma wf_RightPadBytes s l : wf_bytes s -> wf_bytes (RightPadBytes s l).
Proof.
  intros. unfold RightPadBytes. case_if; [done|]. apply wf_bytes_app. split; [done|].
  apply wf_replicate0.
Qed.

Lemma wf_slice (s : bytes) i j r : wf_bytes s -> slice s i j = Some r -> wf_bytes r.
Proof. intros Hs (_ & _ & ->)%slice_some. auto with go. Qed.

Lemma slice_is_some {A} (b : list A) i j :
  0 <= i <= j -> j <= zlen b -> exists r, slice b i j = Some r /\ zlen r = j - i.
Proof.
  intros. destruct (slice b i j) as [r|] eqn:E; [|unfold slice in E; case_if_in E; [done|lia]].
  exists r. split; [done|]. by apply zlen_slice in E.
Qed.

Lemma bigUint64_ok v : 0 <= v -> (bigUint64 v).2 = false -> is_u64 v /\ (bigUint64 v).1 = v.
Proof.
  intros Hv Hb. simpl in *. simp_bool. assert (is_u64 v).
  { split; [done|]. pose proof (bitlen_bound v Hv).
    eapply Z.lt_le_trans; [done|]. apply Z.pow_le_mono_r; lia. }
  split; [done|]. by apply Uint64_small.
Qed.

Lemma toWordSize_ok size : is_u64 size -> toWordSize size = (size + 31) / 32.
Proof.
  unfold is_u64. intros Hs. unfold toWordSize, MaxUint64. case_if.
  - change ((2 ^ 64 - 1) / 32 + 1) with (2 ^ 59).
    apply (Z.div_unique_pos _ _ _ (size + 31 - 2 ^ 64)); lia.
  - rewrite u64_small by (unfold is_u64; lia). done.
Qed.

Lemma toWordSize_bounds size :
  is_u64 size -> size <= 32 * toWordSize size < size + 32 /\ 0 <= toWordSize size.
Proof.
  intros Hs. rewrite toWordSize_ok by done. unfold is_u64 in Hs.
  pose proof (Z.div_mod (size + 31) 32 ltac:(lia)).
  pose proof (Z.mod_pos_bound (size + 31) 32 ltac:(lia)). lia.
Qed.

Lemma getDataBig_ok data start size :
  0 <= start -> 0 <= size < 2 ^ 63 -> zlen data < 2 ^ 63 ->
  exists r, getDataBig data start size = Some r /\ zlen r = size /\ (wf_bytes data -> wf_bytes r).
Proof.
  intros Hs Hz Hd. unfold getDataBig. pose proof (zlen_nonneg data).
  assert (0 <= BigMin start (zlen data) <= zlen data) as Hmin by (unfold BigMin; case_if; lia).
  set (s := BigMin start (zlen data)) in *.
  assert (s <= BigMin (s + size) (zlen data) <= Z.min (s + size) (zlen data)) as He
    by (unfold BigMin; case_if; lia).
  set (e := BigMin (s + size) (zlen data)) in *.
  rewrite !Uint64_small by (unfold is_u64; lia).
  destruct (slice_is_some data s e) as (d & Hsl & Hl); [lia..|]. rewrite Hsl. simpl.
  rewrite Int64_small by lia.
  eexists; split; [done|]. rewrite zlen_RightPadBytes. split; [lia|].
  intros Hwf. apply wf_RightPadBytes. by eapply wf_slice.
Qed.

Lemma zlen_overlay dst off src :
  0 <= off -> off + zlen src <= zlen dst -> zlen (overlay dst off src) = zlen dst.
Proof.
  intros. unfold overlay. rewrite !zlen_app. unfold zlen in *.
  rewrite length_take, length_drop. lia.
Qed.

Lemma wf_overlay dst off src : wf_bytes dst -> wf_bytes src -> wf_bytes (overlay dst off src).
Proof. intros. unfold overlay. rewrite !wf_bytes_app. auto with go. Qed.

Lemma slice_overlay_same dst off src :
  0 <= off -> off + zlen src <= zlen dst ->
  slice (overlay dst off src) off (off + zlen src) = Some src.
Proof.
  intros Ho Hl. unfold overlay. rewrite <-(slice_app_mid (take (Z.to_nat off) dst) src (drop (Z.to_nat off + length src) dst)).
  assert (zlen (take (Z.to_nat off) dst) = off) as ->; [|done].
  unfold zlen in *. rewrite length_take. lia.
Qed.

Lemma overlay_lookup_out dst off src i :
  0 <= off -> off + zlen src <= zlen dst -> 0 <= i < off \/ off + zlen src <= i ->
  overlay dst off src !! Z.to_nat i = dst !! Z.to_nat i.
Proof.
  intros Ho Hl Hi. unfold overlay, zlen in *. destruct Hi as [Hi|Hi].
  - rewrite lookup_app_l by (rewrite length_take; lia). apply lookup_take_lt. lia.
  - rewrite lookup_app_r, length_take by (rewrite length_take; lia).
    rewrite lookup_app_r by lia. rewrite lookup_drop. f_equal. lia.
Qed.

(** Memory operations inside the store do not panic. *)
Lemma Memory_Set_ok m offset size value :
  0 <= size -> (0 < size -> 0 <= offset /\ offset + size <= zlen (store m) < 2 ^ 64) ->
  exists m', Memory_Set m offset size value = Some m' /\ lastGasCost m' = lastGasCost m /\
    zlen (store m') = zlen (store m) /\
    (wf_bytes (store m) -> wf_bytes value -> wf_bytes (store m')).
Proof.
  intros Hs Hin. unfold Memory_Set. case_if; [|eexists; split; [done|]; by repeat split].
  specialize (Hin E) as [Ho [Hl Hb]].
  rewrite u64_small by (unfold is_u64; lia). case_if; [lia|].
  destruct (slice_is_some (store m) offset (offset + size)) as (d & -> & _); [lia..|]. simpl.
  eexists; split; [done|]. simpl. split; [done|]. split.
  - apply zlen_overlay; [lia|]. unfold zlen in *. rewrite length_take. lia.
  - intros. apply wf_overlay; auto with go.
Qed.

Lemma Memory_Set32_ok m offset val :
  0 <= offset -> offset + 32 <= zlen (store m) < 2 ^ 64 -> 0 <= val ->
  exists m', Memory_Set32 m offset val = Some m' /\ lastGasCost m' = lastGasCost m /\
    zlen (store m') = zlen (store m) /\ (wf_bytes (store m) -> wf_bytes (store m')) /\
    store m' = overlay (store m) offset (Z_to_be 32 val).
Proof.
  intros Ho Hl Hv. unfold Memory_Set32. rewrite u64_small by (unfold is_u64; lia). case_if; [lia|].
  destruct (slice_is_some (store m) offset (offset + 32)) as (d & -> & _); [lia..|]. cbn [mbind option_bind].
  rewrite ReadBits_ok by done.
  eexists; split; [done|]. cbn [lastGasCost set_store store].
  split; [done|]. split; [|split; [|done]].
  - apply zlen_overlay; [lia|]. rewrite zlen_Z_to_be. lia.
  - intros. apply wf_overlay; auto with go.
Qed.

Lemma Memory_Get_ok m offset size :
  0 <= size -> (0 < size -> 0 <= offset /\ offset + size <= zlen (store m)) ->
  exists r, Memory_Get m offset size = Some r /\ zlen r = size /\
    (wf_bytes (store m) -> wf_bytes r).
Proof.
  intros Hs Hin. unfold Memory_Get. case_if; [subst; eexists; split; [done|]; split; [done|]; auto with go|].
  destruct Hin as [Ho Hl]; [lia|]. case_if; [|lia].
  destruct (slice_is_some (store m) offset (offset + size)) as (d & Hd & Hz); [lia..|].
  exists d. split; [done|]. split; [lia|]. intros. by eapply wf_slice.
Qed.

Lemma Memory_GetPtr_Get m offset size : Memory_GetPtr m offset size = Memory_Get m offset size.
Proof. reflexivity. Qed.

Lemma Memory_Resize_ok m size :
  0 <= size -> zlen (store (Memory_Resize m size)) = Z.max (zlen (store m)) size /\
  lastGasCost (Memory_Resize m size) = lastGasCost m /\
  (wf_bytes (store m) -> wf_bytes (store (Memory_Resize m size))).
Proof.
  intros Hs. unfold Memory_Resize. case_if; simpl.
  - split; [rewrite zlen_app; unfold zlen in *; rewrite length_replicate; lia|]. split; [done|].
    intros. apply wf_bytes_app. split; [done|apply wf_replicate0].
  - split; [lia|done].
Qed.

(** * The fee is the increase of a quadratic total *)
Definition memory_total (words : Z) : Z := MemoryGas * words + words * words / QuadCoeffDiv.

(** A memory whose total fee has been paid, below the size at which the square
    of the number of words leaves 64 bits. *)
Definition paid_memory (m : Memory) : Prop :=
  exists words, 0 <= words < 2 ^ 32 /\ zlen (store m) = 32 * words /\
    lastGasCost m = memory_total words.

Lemma memory_total_mono a b : 0 <= a <= b -> memory_total a <= memory_total b.
Proof.
  intros. unfold memory_total, MemoryGas, QuadCoeffDiv.
  assert (a * a / 512 <= b * b / 512) by (apply Z.div_le_mono; nia). lia.
Qed.

Lemma memory_total_bound a : 0 <= a < 2 ^ 32 -> 0 <= memory_total a < 2 ^ 56.
Proof.
  intros H. unfold memory_total, MemoryGas, QuadCoeffDiv.
  assert (0 <= a * a <= 2 ^ 64) by (change (2 ^ 64) with (2 ^ 32 * 2 ^ 32); nia).
  assert (0 <= a * a / 512 <= 2 ^ 64 / 512).
  { split; [apply Z.div_pos; lia|]. apply Z.div_le_mono; lia. }
  change (2 ^ 64 / 512) with (2 ^ 55) in *. lia.
Qed.

Lemma memoryGasCost_ok m size :
  paid_memory m -> 0 <= size <= 0x1fffffffe0 ->
  let words := Z.max (zlen (store m) / 32) (toWordSize size) in
  exists m', memoryGasCost m size = Some (memory_total words - lastGasCost m, m') /\
    lastGasCost m <= memory_total words /\
    lastGasCost m' = memory_total words /\ store m' = store m /\
    paid_memory (Memory_Resize m' (32 * toWordSize size)).
Proof.
  intros (w & Hw & Hl & Hc) Hs. unfold memoryGasCost.
  pose proof (toWordSize_bounds size ltac:(unfold is_u64; lia)) as Hb. cbn zeta.
  assert (zlen (store m) / 32 = w) as -> by (rewrite Hl, Z.mul_comm; by apply Z.div_mul).
  set (n := toWordSize size) in *.
  assert (Hpay : forall m', lastGasCost m' = memory_total (Z.max w n) -> store m' = store m ->
    paid_memory (Memory_Resize m' (32 * n))).
  { intros m' Hc' Hst. exists (Z.max w n). destruct (Memory_Resize_ok m' (32 * n)) as (-> & -> & _); [lia|].
    rewrite Hst. split; [lia|]. split; [lia|done]. }
  rewrite Hc. pose proof (memory_total_mono w (Z.max w n) ltac:(lia)).
  case_if.
  { exists m. subst size. assert (n = 0) as Hn by lia. rewrite Z.max_l in * by lia.
    repeat split; try done; [repeat f_equal; lia|]. by apply Hpay. }
  case_if; [lia|]. rewrite (u64_small (n * 32)) by (unfold is_u64; lia).
  case_if.
  2:{ exists m. rewrite Z.max_l in * by lia. repeat split; try done; [repeat f_equal; lia|]. by apply Hpay. }
  pose proof (memory_total_bound n ltac:(lia)) as Ht.
  assert (0 <= n * n < 2 ^ 64) by (split; [nia|]; assert (n <= 2 ^ 32 - 1) by lia; nia).
  assert (u64 (u64 (n * MemoryGas) + u64 (n * n) / QuadCoeffDiv) = memory_total n) as ->.
  { unfold memory_total, MemoryGas in *. rewrite !(u64_small (n * _)) by (unfold is_u64; lia).
    rewrite u64_small by (unfold is_u64; lia). lia. }
  rewrite Z.max_r in * by lia. pose proof (memory_total_bound w ltac:(lia)).
  rewrite u64_small by (unfold is_u64; lia).
  eexists; repeat split; try done. by apply Hpay.
Qed.

(** What holds at every size: the fee is a [uint64], only the recorded total
    changes, and the size is within the bound of the code. *)
Lemma memoryGasCost_range m size fee m' :
  memoryGasCost m size = Some (fee, m') ->
  is_u64 fee /\ store m' = store m /\ size <= 0xffffffffe0.
Proof.
  unfold memoryGasCost. repeat case_if; try done; intros [= <- <-];
    (split; [apply is_u64_u64 || by_decide|split; [done|lia]]).
Qed.

(** Growing the memory of a frame costs the increase of
    [3 * words + words^2 / 512], and resizing to the charged size keeps the
    record of the fee paid exact, for every size up to [0x1fffffffe0] bytes. *)
Theorem memoryGasCost_correct m size :
  paid_memory m -> 0 <= size <= 0x1fffffffe0 ->
  let words := Z.max (zlen (store m) / 32) (toWordSize size) in
  exists m', memoryGasCost m size = Some (memory_total words - lastGasCost m, m') /\
    lastGasCost m <= memory_total words /\
    lastGasCost m' = memory_total words /\ store m' = store m /\
    paid_memory (Memory_Resize m' (32 * toWordSize size)).
Proof. apply memoryGasCost_ok. Qed.

Lemma memoryGasCost_correct_witness :
  exists m', memoryGasCost NewMemory 100 = Some (12, m') /\ paid_memory (Memory_Resize m' 128).
Proof.
  destruct (memoryGasCost_correct NewMemory 100) as (m' & H & _ & _ & _ & Hp).
  - exists 0. split; [lia|]. split; reflexivity.
  - lia.
  - exists m'. split; [exact H|exact Hp].
Defined.

(** Above that size, but below the bound [0xffffffffe0] that the comment in
    the code calls the largest one without an overflow, the square of the number
    of words wraps: [2^32] words cost nothing for their quadratic part, which is
    less than [2^32 - 1] words cost. *)
Theorem memoryGasCost_overflows :
  exists fee fee' m m', 2 ^ 37 <= 0xffffffffe0 /\
    memoryGasCost NewMemory (2 ^ 37) = Some (fee, m) /\
    memoryGasCost NewMemory (2 ^ 37 - 32) = Some (fee', m') /\
    fee = MemoryGas * 2 ^ 32 /\ fee' = memory_total (2 ^ 32 - 1) /\ fee < fee'.
Proof.
  exists 12884901888, 36028809887088637. do 2 eexists.
  split; [lia|]. split; [by_compute|]. split; [by_compute|]. split; [done|]. split; [by_compute|lia].
Qed.
