(* ===== verification/EvmState.v ===== *)
(** What an EVM frame works on: the state database the interpreter is written
    against (core/vm/interface.go), contracts and their gas
    (core/vm/contract.go), the environment of a transaction (core/vm/evm.go,
    core/evm.go), and the state monad in which instructions and gas functions
    are written.

    The hash function is a parameter ([HashFn]): a type of digests, their value
    as a number, and [Keccak256].  Addresses are 160-bit numbers, storage keys
    and values 256-bit numbers.  Recycled integers ([intPool]), tracing and the
    concurrent [Cancel] are not modelled. *)

From stdpp Require Import gmap.
From S2P Require Import Prelude GoMath Params EvmCode EvmMemory.

(** * Digests *)
Class HashFn (Hash : Type) := {
  Hash_eq_dec :: EqDecision Hash;
  Hash_countable :: Countable Hash;
  EmptyHash : Hash;                 (* common.Hash{} *)
  HashBig : Hash -> Z;              (* the 32 bytes as a number *)
  Keccak256 : bytes -> Hash }.

(** * Errors of the virtual machine *)
Inductive VmError :=
| ErrOutOfGas
| ErrCodeStoreOutOfGas
| ErrDepth
| ErrInsufficientBalance
| ErrContractAddressCollision
| errWriteProtection
| errReturnDataOutOfBounds
| errExecutionReverted
| errMaxCodeSizeExceeded
| errGasUintOverflow
| errStackUnderflow (have want : Z)
| errStackLimit (have limit : Z)
| errInvalidJump (op pos : Z)
| errInvalidOpcode (op : Z)
| errPrecompile (code : Z).

#[export] Instance VmError_eq_dec : EqDecision VmError.
Proof. solve_decision. Defined.

(** * The state database, as the interpreter sees it

    Operations that change the database return the new one; [None] is a panic. *)
Record Log := mkLog { logAddress : Z; logTopics : list Z; logData : bytes; logBlockNumber : Z }.

Class StateDB (Hash DB : Type) := {
  CreateAccount : Z -> DB -> DB;
  SubBalance : Z -> Z -> DB -> DB;
  AddBalance : Z -> Z -> DB -> DB;
  GetBalance : DB -> Z -> Z;
  GetNonce : DB -> Z -> Z;
  SetNonce : Z -> Z -> DB -> DB;
  GetCodeHash : DB -> Z -> Hash;
  GetCode : DB -> Z -> bytes;
  SetCode : Z -> bytes -> DB -> DB;
  GetCodeSize : DB -> Z -> Z;
  AddRefund : Z -> DB -> DB;
  SubRefund : Z -> DB -> option DB;
  GetRefund : DB -> Z;
  GetCommittedState : DB -> Z -> Z -> Z;
  GetState : DB -> Z -> Z -> Z;
  SetState : Z -> Z -> Z -> DB -> DB;
  SuicideAccount : Z -> DB -> DB;
  HasSuicided : DB -> Z -> bool;
  Exist : DB -> Z -> bool;
  Empty : DB -> Z -> bool;
  RevertToSnapshot : Z -> DB -> option DB;
  Snapshot : DB -> Z * DB;
  AddLog : Log -> DB -> DB;
  AddPreimage : Hash -> bytes -> DB -> DB }.

(** * Environment *)
Record Context := mkContext {
  GetHash : Z -> Z;
  Origin : Z; GasPrice : Z; Coinbase : Z; GasLimit : Z;
  BlockNumber : Z; Time : Z; Difficulty : Z }.

Record Config := mkConfig { NoRecursion : bool; EnablePreimageRecording : bool }.

Record EVM := mkEVM { evmContext : Context; chainConfig : ChainConfig; vmConfig : Config }.

(** [NewEVM] panics on a chain with eWASM. *)
Definition NewEVM (ctx : Context) (chainConfig : ChainConfig) (vmConfig : Config) : option EVM :=
  if IsEWASM chainConfig (Some (BlockNumber ctx)) then None
  else Some (mkEVM ctx chainConfig vmConfig).

Definition evmBlock (evm : EVM) : option Z := Some (BlockNumber (evmContext evm)).
Definition chainRules (evm : EVM) : Rules := Rules_at (chainConfig evm) (evmBlock evm).
Definition gasTable (evm : EVM) : GasTable := GasTable_at (chainConfig evm) (evmBlock evm).

(** * Contracts

    The part of a [Contract] that does not change during a run; its gas and its
    analysis are part of the state of the frame. *)
Record Contract {Hash : Type} := mkContract {
  CallerAddress : Z; self : Z; Code : bytes; CodeHash : Hash; CodeAddr : option Z;
  Input : bytes; value : Z }.
Arguments Contract Hash : clear implicits.

(** A [ContractRef]: an account, or the contract that runs in the caller's frame. *)
Inductive ContractRef (Hash : Type) :=
| AccountRef (addr : Z)
| CallerRef (c : Contract Hash).
Arguments AccountRef {Hash} addr.
Arguments CallerRef {Hash} c.

Definition Address {Hash} (r : ContractRef Hash) : Z :=
  match r with AccountRef a => a | CallerRef c => self c end.

Definition NewContract {Hash} `{HashFn Hash} (caller : ContractRef Hash) (object value : Z) : Contract Hash :=
  mkContract Hash (Address caller) object [] EmptyHash None [] value.

(** [AsDelegate] panics when the caller is not a contract. *)
Definition AsDelegate {Hash} (caller : ContractRef Hash) (c : Contract Hash) : option (Contract Hash) :=
  match caller with
  | CallerRef parent =>
      Some (mkContract Hash (CallerAddress parent) (self c) (Code c) (CodeHash c) (CodeAddr c)
        (Input c) (value parent))
  | AccountRef _ => None
  end.

Definition SetCallCode {Hash} (addr : Z) (hash : Hash) (code : bytes) (c : Contract Hash) : Contract Hash :=
  mkContract Hash (CallerAddress c) (self c) code hash (Some addr) (Input c) (value c).

Definition set_Input {Hash} (input : bytes) (c : Contract Hash) : Contract Hash :=
  mkContract Hash (CallerAddress c) (self c) (Code c) (CodeHash c) (CodeAddr c) input (value c).

Definition GetByte {Hash} (c : Contract Hash) (n : Z) : Z :=
  if n <? zlen (Code c) then default 0 (index (Code c) n) else 0.
Definition GetOp {Hash} (c : Contract Hash) (n : Z) : Z := GetByte c n.

(** * State of a run

    [World] is what nested frames share: the state database, the gas computed for
    the next call ([evm.callGasTemp]), the code analyses shared along the call
    stack, and the return data of the last call. *)
Record World {Hash} `{HashFn Hash} {DB : Type} := mkWorld {
  db : DB; callGasTemp : Z; jumpdests : gmap Hash bitvec; returnData : bytes }.
Arguments World Hash {_} DB.
Arguments mkWorld {Hash _ DB} db callGasTemp jumpdests returnData.

Record Frame {Hash} `{HashFn Hash} {DB : Type} := mkFrame {
  pc : Z; stack : list Z; mem : Memory; gas : Z; analysis : option bitvec; world : World Hash DB }.
Arguments Frame Hash {_} DB.
Arguments mkFrame {Hash _ DB} pc stack mem gas analysis world.

(** * Results and the state monad

    [Fail] is a Go error, [Panicked] a panic, [OutOfFuel] the end of the fuel of
    the model. *)
Inductive vres (A : Type) :=
| Ret (a : A)
| Fail (e : VmError)
| Panicked
| OutOfFuel.
Arguments Ret {A} a.
Arguments Fail {A} e.
Arguments Panicked {A}.
Arguments OutOfFuel {A}.

Section Monad.
Context {Hash DB : Type} `{HashFn Hash}.

Definition M (A : Type) : Type := Frame Hash DB -> vres A * Frame Hash DB.

Definition ret {A} (a : A) : M A := fun s => (Ret a, s).
Definition fail {A} (e : VmError) : M A := fun s => (Fail e, s).
Definition panic {A} : M A := fun s => (Panicked, s).
Definition bind {A B} (m : M A) (k : A -> M B) : M B := fun s =>
  match m s with
  | (Ret a, s) => k a s
  | (Fail e, s) => (Fail e, s)
  | (Panicked, s) => (Panicked, s)
  | (OutOfFuel, s) => (OutOfFuel, s)
  end.
Definition get {A} (f : Frame Hash DB -> A) : M A := fun s => (Ret (f s), s).
Definition modify (f : Frame Hash DB -> Frame Hash DB) : M unit := fun s => (Ret tt, f s).
Definition lift {A} (o : option A) : M A :=
  match o with Some a => ret a | None => panic end.
Definition lift_err {A} (e : VmError) (o : option A) : M A :=
  match o with Some a => ret a | None => fail e end.

(** Setters of a frame. *)
Definition set_pc (x : Z) (s : Frame Hash DB) : Frame Hash DB :=
  mkFrame x (stack s) (mem s) (gas s) (analysis s) (world s).
Definition set_stack (x : list Z) (s : Frame Hash DB) : Frame Hash DB :=
  mkFrame (pc s) x (mem s) (gas s) (analysis s) (world s).
Definition set_mem (x : Memory) (s : Frame Hash DB) : Frame Hash DB :=
  mkFrame (pc s) (stack s) x (gas s) (analysis s) (world s).
Definition set_gas (x : Z) (s : Frame Hash DB) : Frame Hash DB :=
  mkFrame (pc s) (stack s) (mem s) x (analysis s) (world s).
Definition set_analysis (x : option bitvec) (s : Frame Hash DB) : Frame Hash DB :=
  mkFrame (pc s) (stack s) (mem s) (gas s) x (world s).
Definition set_world (x : World Hash DB) (s : Frame Hash DB) : Frame Hash DB :=
  mkFrame (pc s) (stack s) (mem s) (gas s) (analysis s) x.
Definition set_db (x : DB) (w : World Hash DB) : World Hash DB :=
  mkWorld x (callGasTemp w) (jumpdests w) (returnData w).
Definition set_callGasTemp (x : Z) (w : World Hash DB) : World Hash DB :=
  mkWorld (db w) x (jumpdests w) (returnData w).
Definition set_jumpdests (x : gmap Hash bitvec) (w : World Hash DB) : World Hash DB :=
  mkWorld (db w) (callGasTemp w) x (returnData w).
Definition set_returnData (x : bytes) (w : World Hash DB) : World Hash DB :=
  mkWorld (db w) (callGasTemp w) (jumpdests w) x.

Definition getDB : M DB := get (fun s => db (world s)).
Definition putDB (d : DB) : M unit := modify (fun s => set_world (set_db d (world s)) s).
Definition modifyDB (f : DB -> DB) : M unit :=
  modify (fun s => set_world (set_db (f (db (world s))) (world s)) s).
Definition modifyWorld (f : World Hash DB -> World Hash DB) : M unit :=
  modify (fun s => set_world (f (world s)) s).
End Monad.
Arguments M Hash DB {_} A.

Declare Scope evm_scope.
Delimit Scope evm_scope with evm.
Notation "'do!' x := m 'in' k" := (bind m (fun x => k))
  (at level 10, x pattern, m at level 100, k at level 200) : evm_scope.
Notation "'seq!' m 'in' k" := (bind m (fun _ => k))
  (at level 10, m at level 100, k at level 200) : evm_scope.
Open Scope evm_scope.

(** * Stack (core/vm/stack.go)

    The head of the list is the top.  Access below the bottom panics. *)
Section Stack.
Context {Hash DB : Type} `{HashFn Hash}.

Definition push (d : Z) : M Hash DB unit := modify (fun s => set_stack (d :: stack s) s).

Definition pop : M Hash DB Z := fun s =>
  match stack s with
  | x :: rest => (Ret x, set_stack rest s)
  | [] => (Panicked, s)
  end.

Definition peek : M Hash DB Z := fun s =>
  match stack s with
  | x :: _ => (Ret x, s)
  | [] => (Panicked, s)
  end.

(** Assignment to the integer that [peek] returned. *)
Definition assign (d : Z) : M Hash DB unit := fun s =>
  match stack s with
  | _ :: rest => (Ret tt, set_stack (d :: rest) s)
  | [] => (Panicked, s)
  end.

Definition Back (n : nat) : M Hash DB Z := do! st := get stack in lift (st !! n).

Definition dup (n : nat) : M Hash DB unit :=
  do! st := get stack in do! x := lift (st !! (n - 1)%nat) in push x.

Definition swap (n : nat) : M Hash DB unit :=
  do! st := get stack in
  do! x := lift (st !! (n - 1)%nat) in
  do! y := lift (st !! 0%nat) in
  modify (set_stack (<[0%nat := x]> (<[(n - 1)%nat := y]> st))).

Definition require (n : Z) (st : list Z) : option VmError :=
  if zlen st <? n then Some (errStackUnderflow (zlen st) n) else None.

(** * Gas of a contract *)
Definition UseGas (g : Z) : M Hash DB bool := fun s =>
  if gas s <? g then (Ret false, s) else (Ret true, set_gas (gas s - g) s).

(** [contract.Gas += g] *)
Definition returnGas (g : Z) : M Hash DB unit := modify (fun s => set_gas (u64 (gas s + g)) s).
End Stack.

(** * Jump destinations *)
Section Jumps.
Context {Hash DB : Type} `{HashFn Hash}.

Definition validJumpdest (c : Contract Hash) (dest : Z) : M Hash DB bool :=
  let udest := Uint64 dest in
  if (63 <=? bitlen dest) || (zlen (Code c) <=? udest) then ret false
  else
    do! op := lift (index (Code c) udest) in
    if negb (op =? JUMPDEST) then ret false
    else if negb (bool_decide (CodeHash c = EmptyHash)) then
      do! jds := get (fun s => jumpdests (world s)) in
      do! a :=
        match jds !! CodeHash c with
        | Some a => ret a
        | None =>
            do! a := lift (codeBitmap (Code c)) in
            seq! modifyWorld (set_jumpdests (<[CodeHash c := a]> jds)) in ret a
        end in
      lift (codeSegment a udest)
    else
      do! cached := get analysis in
      do! a :=
        match cached with
        | Some a => ret a
        | None =>
            do! a := lift (codeBitmap (Code c)) in
            seq! modify (set_analysis (Some a)) in ret a
        end in
      lift (codeSegment a udest).
End Jumps.

(** * Transfers of value (core/evm.go) *)
Section Transfer.
Context {Hash DB : Type} `{StateDB Hash DB}.

Definition CanTransfer (d : DB) (addr amount : Z) : bool := amount <=? GetBalance d addr.

Definition Transfer (sender recipient amount : Z) (d : DB) : DB :=
  AddBalance recipient amount (SubBalance sender amount d).
End Transfer.
