(* ===== verification/EvmInstr.v ===== *)
(** The instructions of the EVM that stay in their frame
    (core/vm/instructions.go).  Calls and creations are in EvmInterp. *)

From stdpp Require Import gmap.
From S2P Require Import Prelude GoMath Params EvmCode EvmMemory EvmState.

Section Instructions.
Context {Hash DB : Type} `{HashFn Hash} `{!StateDB Hash DB}.
Variable evm : EVM.
Variable contract : Contract Hash.

Abbreviation Op := (M Hash DB bytes).

(** [return nil, nil] *)
Definition done_nil : Op := ret [].

(** * Arithmetic *)
Definition opAdd : Op :=
  do! x := pop in do! y := peek in seq! assign (U256 (x + y)) in done_nil.

Definition opSub : Op :=
  do! x := pop in do! y := peek in seq! assign (U256 (x - y)) in done_nil.

Definition opMul : Op :=
  do! x := pop in do! y := pop in seq! push (U256 (x * y)) in done_nil.

Definition opDiv : Op :=
  do! x := pop in do! y := peek in
  seq! (if negb (y =? 0) then assign (U256 (x / y)) else assign 0) in done_nil.

Definition opSdiv : Op :=
  do! x := pop in do! y := pop in
  let x := S256 x in let y := S256 y in
  seq! (if (y =? 0) || (x =? 0) then push 0
        else
          let res := Z.abs x / Z.abs y in
          let res := if negb (Z.sgn x =? Z.sgn y) then - res else res in
          push (U256 res)) in done_nil.

Definition opMod : Op :=
  do! x := pop in do! y := pop in
  seq! (if y =? 0 then push 0 else push (U256 (x mod y))) in done_nil.

Definition opSmod : Op :=
  do! x := pop in do! y := pop in
  let x := S256 x in let y := S256 y in
  seq! (if y =? 0 then push 0
        else
          let res := Z.abs x mod Z.abs y in
          let res := if x <? 0 then - res else res in
          push (U256 res)) in done_nil.

Definition opExp : Op :=
  do! base := pop in do! exponent := pop in
  seq! (if exponent <? 1 then push 1
        else if base =? 0 then push 0
        else if exponent =? 1 then push base
        else push (Exp base exponent).1) in done_nil.

Definition opSignExtend : Op :=
  do! back := pop in
  seq! (if back <? 31 then
          let bit := u64 (Uint64 back * 8 + 7) in
          do! num := pop in
          let mask := Z.shiftl 1 bit - 1 in
          let num := if Z.testbit num bit then Z.lor num (Z.lnot mask) else Z.land num mask in
          push (U256 num)
        else ret tt) in done_nil.

Definition opAddmod : Op :=
  do! x := pop in do! y := pop in do! z := pop in
  seq! (if 0 <? z then push (U256 ((x + y) mod z)) else push 0) in done_nil.

Definition opMulmod : Op :=
  do! x := pop in do! y := pop in do! z := pop in
  seq! (if 0 <? z then push (U256 ((x * y) mod z)) else push 0) in done_nil.

(** * Comparison and bits *)
Definition opNot : Op := do! x := peek in seq! assign (U256 (Z.lnot x)) in done_nil.

Definition opLt : Op :=
  do! x := pop in do! y := peek in seq! assign (if x <? y then 1 else 0) in done_nil.

Definition opGt : Op :=
  do! x := pop in do! y := peek in seq! assign (if y <? x then 1 else 0) in done_nil.

Definition opSlt : Op :=
  do! x := pop in do! y := peek in
  seq! (if (tt255 <=? x) && (y <? tt255) then assign 1
        else if (x <? tt255) && (tt255 <=? y) then assign 0
        else assign (if x <? y then 1 else 0)) in done_nil.

Definition opSgt : Op :=
  do! x := pop in do! y := peek in
  seq! (if (tt255 <=? x) && (y <? tt255) then assign 0
        else if (x <? tt255) && (tt255 <=? y) then assign 1
        else assign (if y <? x then 1 else 0)) in done_nil.

Definition opEq : Op :=
  do! x := pop in do! y := peek in seq! assign (if x =? y then 1 else 0) in done_nil.

Definition opIszero : Op :=
  do! x := peek in seq! assign (if 0 <? x then 0 else 1) in done_nil.

Definition opAnd : Op :=
  do! x := pop in do! y := pop in seq! push (Z.land x y) in done_nil.

Definition opOr : Op :=
  do! x := pop in do! y := peek in seq! assign (Z.lor x y) in done_nil.

Definition opXor : Op :=
  do! x := pop in do! y := peek in seq! assign (Z.lxor x y) in done_nil.

Definition opByte : Op :=
  do! th := pop in do! val := peek in
  seq! (if th <? 32 then assign (Byte val 32 (Z.to_nat (Int64 th))) else assign 0) in done_nil.

Definition opSHL : Op :=
  do! shift := pop in do! value := peek in
  let shift := U256 shift in let value := U256 value in
  seq! (if 256 <=? shift then assign 0
        else assign (U256 (Z.shiftl value (Uint64 shift)))) in done_nil.

Definition opSHR : Op :=
  do! shift := pop in do! value := peek in
  let shift := U256 shift in let value := U256 value in
  seq! (if 256 <=? shift then assign 0
        else assign (U256 (Z.shiftr value (Uint64 shift)))) in done_nil.

Definition opSAR : Op :=
  do! shift := pop in do! value := pop in
  let shift := U256 shift in let value := S256 value in
  seq! (if 256 <=? shift then push (U256 (if 0 <=? value then 0 else -1))
        else push (U256 (Z.shiftr value (Uint64 shift)))) in done_nil.

(** * Hashing and environment *)
Definition opSha3 : Op :=
  do! offset := pop in do! size := pop in
  do! m := get mem in
  do! data := lift (Memory_Get m (Int64 offset) (Int64 size)) in
  let hash := Keccak256 data in
  seq! (if EnablePreimageRecording (vmConfig evm) then modifyDB (AddPreimage hash data) else ret tt) in
  seq! push (HashBig hash) in done_nil.

Definition opAddress : Op := seq! push (self contract) in done_nil.

Definition opBalance : Op :=
  do! slot := peek in do! d := getDB in
  seq! assign (GetBalance d (BigToAddress slot)) in done_nil.

Definition opOrigin : Op := seq! push (Origin (evmContext evm)) in done_nil.
Definition opCaller : Op := seq! push (CallerAddress contract) in done_nil.
Definition opCallValue : Op := seq! push (value contract) in done_nil.

Definition opCallDataLoad : Op :=
  do! offset := pop in
  do! d := lift (getDataBig (Input contract) offset 32) in
  seq! push (be_to_Z d) in done_nil.

Definition opCallDataSize : Op := seq! push (zlen (Input contract)) in done_nil.

Definition memory_Set (offset size : Z) (val : bytes) : M Hash DB unit :=
  do! m := get mem in
  do! m := lift (Memory_Set m offset size val) in modify (set_mem m).

Definition opCallDataCopy : Op :=
  do! memOffset := pop in do! dataOffset := pop in do! length := pop in
  do! data := lift (getDataBig (Input contract) dataOffset length) in
  seq! memory_Set (Uint64 memOffset) (Uint64 length) data in done_nil.

Definition opReturnDataSize : Op :=
  do! rd := get (fun s => returnData (world s)) in seq! push (zlen rd) in done_nil.

Definition opReturnDataCopy : Op :=
  do! memOffset := pop in do! dataOffset := pop in do! length := pop in
  let endd := dataOffset + length in
  do! rd := get (fun s => returnData (world s)) in
  if (64 <? bitlen endd) || (zlen rd <? Uint64 endd) then fail errReturnDataOutOfBounds
  else
    do! data := lift (slice rd (Uint64 dataOffset) (Uint64 endd)) in
    seq! memory_Set (Uint64 memOffset) (Uint64 length) data in done_nil.

Definition opExtCodeSize : Op :=
  do! slot := peek in do! d := getDB in
  seq! assign (u64 (GetCodeSize d (BigToAddress slot))) in done_nil.

Definition opCodeSize : Op := seq! push (zlen (Code contract)) in done_nil.

Definition opCodeCopy : Op :=
  do! memOffset := pop in do! codeOffset := pop in do! length := pop in
  do! codeCopy := lift (getDataBig (Code contract) codeOffset length) in
  seq! memory_Set (Uint64 memOffset) (Uint64 length) codeCopy in done_nil.

Definition opExtCodeCopy : Op :=
  do! a := pop in let addr := BigToAddress a in
  do! memOffset := pop in do! codeOffset := pop in do! length := pop in
  do! d := getDB in
  do! codeCopy := lift (getDataBig (GetCode d addr) codeOffset length) in
  seq! memory_Set (Uint64 memOffset) (Uint64 length) codeCopy in done_nil.

Definition opExtCodeHash : Op :=
  do! slot := peek in do! d := getDB in
  let address := BigToAddress slot in
  seq! (if Empty d address then assign 0 else assign (HashBig (GetCodeHash d address))) in done_nil.

Definition opGasprice : Op := seq! push (GasPrice (evmContext evm)) in done_nil.

Definition opBlockhash : Op :=
  do! num := pop in
  let n := BlockNumber (evmContext evm) - 257 in
  seq! (if (n <? num) && (num <? BlockNumber (evmContext evm))
        then push (GetHash (evmContext evm) (Uint64 num)) else push 0) in done_nil.

Definition opCoinbase : Op := seq! push (Coinbase (evmContext evm)) in done_nil.
Definition opTimestamp : Op := seq! push (U256 (Time (evmContext evm))) in done_nil.
Definition opNumber : Op := seq! push (U256 (BlockNumber (evmContext evm))) in done_nil.
Definition opDifficulty : Op := seq! push (U256 (Difficulty (evmContext evm))) in done_nil.
Definition opGasLimit : Op := seq! push (U256 (GasLimit (evmContext evm))) in done_nil.

(** * Stack, memory, storage and control *)
Definition opPop : Op := do! _ := pop in done_nil.

Definition opMload : Op :=
  do! offset := pop in
  do! m := get mem in
  do! d := lift (Memory_Get m (Int64 offset) 32) in
  seq! push (be_to_Z d) in done_nil.

Definition opMstore : Op :=
  do! mStart := pop in do! val := pop in
  do! m := get mem in
  do! m := lift (Memory_Set32 m (Uint64 mStart) val) in
  seq! modify (set_mem m) in done_nil.

Definition opMstore8 : Op :=
  do! off := pop in do! val := pop in
  let off := Int64 off in let val := Int64 val in
  do! m := get mem in
  do! _ := lift (index (store m) off) in
  seq! modify (set_mem (set_store m (<[Z.to_nat off := u8 (Z.land val 0xff)]> (store m)))) in done_nil.

Definition opSload : Op :=
  do! loc := peek in do! d := getDB in
  seq! assign (GetState d (self contract) (BigToHash loc)) in done_nil.

Definition opSstore : Op :=
  do! l := pop in let loc := BigToHash l in
  do! val := pop in
  seq! modifyDB (SetState (self contract) loc (BigToHash val)) in done_nil.

Definition opJump : Op :=
  do! pos := pop in
  do! ok := validJumpdest contract pos in
  if negb ok then fail (errInvalidJump (GetOp contract (Uint64 pos)) pos)
  else seq! modify (set_pc (Uint64 pos)) in done_nil.

Definition opJumpi : Op :=
  do! pos := pop in do! cond := pop in
  if negb (cond =? 0) then
    do! ok := validJumpdest contract pos in
    if negb ok then fail (errInvalidJump (GetOp contract (Uint64 pos)) pos)
    else seq! modify (set_pc (Uint64 pos)) in done_nil
  else seq! modify (fun s => set_pc (u64 (pc s + 1)) s) in done_nil.

Definition opJumpdest : Op := done_nil.

Definition opPc : Op := do! p := get pc in seq! push p in done_nil.
Definition opMsize : Op := do! m := get mem in seq! push (zlen (store m)) in done_nil.
Definition opGas : Op := do! g := get gas in seq! push g in done_nil.

Definition opReturn : Op :=
  do! offset := pop in do! size := pop in
  do! m := get mem in lift (Memory_GetPtr m (Int64 offset) (Int64 size)).

Definition opRevert : Op :=
  do! offset := pop in do! size := pop in
  do! m := get mem in lift (Memory_GetPtr m (Int64 offset) (Int64 size)).

Definition opStop : Op := done_nil.

Definition opSuicide : Op :=
  do! d := getDB in
  let balance := GetBalance d (self contract) in
  do! beneficiary := pop in
  seq! modifyDB (AddBalance (BigToAddress beneficiary) balance) in
  seq! modifyDB (SuicideAccount (self contract)) in done_nil.

Fixpoint pop_topics (size : nat) : M Hash DB (list Z) :=
  match size with
  | O => ret []
  | S size => do! t := pop in do! rest := pop_topics size in ret (BigToHash t :: rest)
  end.

Definition makeLog (size : nat) : Op :=
  do! mStart := pop in do! mSize := pop in
  do! topics := pop_topics size in
  do! m := get mem in
  do! d := lift (Memory_Get m (Int64 mStart) (Int64 mSize)) in
  seq! modifyDB (AddLog (mkLog (self contract) topics d (Uint64 (BlockNumber (evmContext evm))))) in
  done_nil.

Definition makePush (size pushByteSize : Z) : Op :=
  do! p := get pc in
  let codeLen := zlen (Code contract) in
  let next := Int64 (u64 (p + 1)) in
  let startMin := if next <? codeLen then next else codeLen in
  let endMin := if startMin + pushByteSize <? codeLen then startMin + pushByteSize else codeLen in
  do! d := lift (slice (Code contract) startMin endMin) in
  seq! push (be_to_Z (RightPadBytes d pushByteSize)) in
  seq! modify (set_pc (u64 (p + size))) in done_nil.

Definition makeDup (size : nat) : Op := seq! dup size in done_nil.

Definition makeSwap (size : nat) : Op := seq! swap (S size) in done_nil.
End Instructions.

(** The instructions, unfolded together by proofs about all of them. *)
Create HintDb evm_ops.
#[export] Hint Unfold opAdd opSub opMul opDiv opSdiv opMod opSmod opExp opSignExtend opAddmod opMulmod opNot opLt opGt opSlt opSgt opEq opIszero opAnd opOr opXor opByte opSHL opSHR opSAR opSha3 opAddress opBalance opOrigin opCaller opCallValue opCallDataLoad opCallDataSize opCallDataCopy opReturnDataSize opReturnDataCopy opExtCodeSize opCodeSize opCodeCopy opExtCodeCopy opExtCodeHash opGasprice opBlockhash opCoinbase opTimestamp opNumber opDifficulty opGasLimit opPop opMload opMstore opMstore8 opSload opSstore opJump opJumpi opJumpdest opPc opMsize opGas opReturn opRevert opStop opSuicide makeLog makePush makeDup makeSwap : evm_ops.
