(* ===== verification/EvmGas.v ===== *)
(** Gas of the EVM instructions (core/vm/gas.go, core/vm/gas_table.go), the
    memory they touch (core/vm/memory_table.go) and the checks of the stack
    (core/vm/stack_table.go). *)

From stdpp Require Import gmap.
From S2P Require Import Prelude GoMath Params EvmCode EvmMemory EvmState.

(** * Memory touched by an instruction *)
Definition memorySizeFunc := list Z -> option Z.

Definition memorySha3 : memorySizeFunc := fun st =>
  a ← st !! 0%nat; b ← st !! 1%nat; Some (calcMemSize a b).
Definition memoryCallDataCopy : memorySizeFunc := fun st =>
  a ← st !! 0%nat; b ← st !! 2%nat; Some (calcMemSize a b).
Definition memoryReturnDataCopy : memorySizeFunc := fun st =>
  a ← st !! 0%nat; b ← st !! 2%nat; Some (calcMemSize a b).
Definition memoryCodeCopy : memorySizeFunc := fun st =>
  a ← st !! 0%nat; b ← st !! 2%nat; Some (calcMemSize a b).
Definition memoryExtCodeCopy : memorySizeFunc := fun st =>
  a ← st !! 1%nat; b ← st !! 3%nat; Some (calcMemSize a b).
Definition memoryMLoad : memorySizeFunc := fun st => a ← st !! 0%nat; Some (calcMemSize a 32).
Definition memoryMStore8 : memorySizeFunc := fun st => a ← st !! 0%nat; Some (calcMemSize a 1).
Definition memoryMStore : memorySizeFunc := fun st => a ← st !! 0%nat; Some (calcMemSize a 32).
Definition memoryCreate : memorySizeFunc := fun st =>
  a ← st !! 1%nat; b ← st !! 2%nat; Some (calcMemSize a b).
Definition memoryCreate2 : memorySizeFunc := fun st =>
  a ← st !! 1%nat; b ← st !! 2%nat; Some (calcMemSize a b).
Definition memoryCall : memorySizeFunc := fun st =>
  a ← st !! 5%nat; b ← st !! 6%nat; c ← st !! 3%nat; d ← st !! 4%nat;
  Some (BigMax (calcMemSize a b) (calcMemSize c d)).
Definition memoryDelegateCall : memorySizeFunc := fun st =>
  a ← st !! 4%nat; b ← st !! 5%nat; c ← st !! 2%nat; d ← st !! 3%nat;
  Some (BigMax (calcMemSize a b) (calcMemSize c d)).
Definition memoryStaticCall : memorySizeFunc := fun st =>
  a ← st !! 4%nat; b ← st !! 5%nat; c ← st !! 2%nat; d ← st !! 3%nat;
  Some (BigMax (calcMemSize a b) (calcMemSize c d)).
Definition memoryReturn : memorySizeFunc := fun st =>
  a ← st !! 0%nat; b ← st !! 1%nat; Some (calcMemSize a b).
Definition memoryRevert : memorySizeFunc := fun st =>
  a ← st !! 0%nat; b ← st !! 1%nat; Some (calcMemSize a b).
Definition memoryLog : memorySizeFunc := fun st =>
  mSize ← st !! 1%nat; mStart ← st !! 0%nat; Some (calcMemSize mStart mSize).

(** * Stack checks *)
Definition makeStackFunc (pop push : Z) (st : list Z) : option VmError :=
  match require pop st with
  | Some e => Some e
  | None =>
      if StackLimit <? zlen st + push - pop
      then Some (errStackLimit (zlen st) StackLimit) else None
  end.
Definition makeDupStackFunc (n : Z) : list Z -> option VmError := makeStackFunc n (n + 1).
Definition makeSwapStackFunc (n : Z) : list Z -> option VmError := makeStackFunc n n.

(** * Gas *)
Definition GasQuickStep : Z := 2.
Definition GasFastestStep : Z := 3.
Definition GasFastStep : Z := 5.
Definition GasMidStep : Z := 8.
Definition GasSlowStep : Z := 10.
Definition GasExtStep : Z := 20.

(** The gas a call may pass on: since EIP150 at most 63/64 of what is left. *)
Definition callGas (gt : GasTable) (availableGas base callCost : Z) : option Z :=
  let limited :=
    if 0 <? CreateBySuicide gt then
      let availableGas := u64 (availableGas - base) in
      let gas := u64 (availableGas - availableGas / 64) in
      if (64 <? bitlen callCost) || (gas <? Uint64 callCost) then Some gas else None
    else None in
  match limited with
  | Some gas => Some gas
  | None => if 64 <? bitlen callCost then None else Some (Uint64 callCost)
  end.

Section Gas.
Context {Hash DB : Type} `{HashFn Hash} `{!StateDB Hash DB}.
Variable evm : EVM.
Variable contract : Contract Hash.
Abbreviation gt := (gasTable evm).

Definition gasFunc := Z -> M Hash DB Z.

(** [overflow] turns into [errGasUintOverflow]. *)
Definition checked (r : Z * bool) : M Hash DB Z :=
  if r.2 then fail errGasUintOverflow else ret r.1.

Definition memoryGas (memorySize : Z) : M Hash DB Z :=
  do! m := get mem in
  do! r := lift_err errGasUintOverflow (memoryGasCost m memorySize) in
  seq! modify (set_mem r.2) in ret r.1.

Definition constGasFunc (gas : Z) : gasFunc := fun _ => ret gas.

Definition gasCallDataCopy : gasFunc := fun memorySize =>
  do! gas := memoryGas memorySize in
  do! gas := checked (SafeAdd gas GasFastestStep) in
  do! l := Back 2 in
  do! words := checked (bigUint64 l) in
  do! words := checked (SafeMul (toWordSize words) CopyGas) in
  checked (SafeAdd gas words).

Definition gasReturnDataCopy : gasFunc := fun memorySize =>
  do! gas := memoryGas memorySize in
  do! gas := checked (SafeAdd gas GasFastestStep) in
  do! l := Back 2 in
  do! words := checked (bigUint64 l) in
  do! words := checked (SafeMul (toWordSize words) CopyGas) in
  checked (SafeAdd gas words).

(** EIP1283 in the second half: refunds by the original, current and new value. *)
Definition gasSStore : gasFunc := fun _ =>
  do! y := Back 1 in do! x := Back 0 in
  do! d := getDB in
  let current := GetState d (self contract) (BigToHash x) in
  if negb (rConstantinople (chainRules evm)) then
    if (current =? 0) && negb (y =? 0) then ret SstoreSetGas
    else if negb (current =? 0) && (y =? 0) then
      seq! modifyDB (AddRefund SstoreRefundGas) in ret SstoreClearGas
    else ret SstoreResetGas
  else
    let value := BigToHash y in
    if current =? value then ret NetSstoreNoopGas
    else
      let original := GetCommittedState d (self contract) (BigToHash x) in
      if original =? current then
        if original =? 0 then ret NetSstoreInitGas
        else
          seq! (if value =? 0 then modifyDB (AddRefund NetSstoreClearRefund) else ret tt) in
          ret NetSstoreCleanGas
      else
        seq! (if negb (original =? 0) then
                if current =? 0 then
                  do! d := getDB in
                  do! d := lift (SubRefund NetSstoreClearRefund d) in putDB d
                else if value =? 0 then modifyDB (AddRefund NetSstoreClearRefund)
                else ret tt
              else ret tt) in
        seq! (if original =? value then
                if original =? 0 then modifyDB (AddRefund NetSstoreResetClearRefund)
                else modifyDB (AddRefund NetSstoreResetRefund)
              else ret tt) in
        ret NetSstoreDirtyGas.

Definition makeGasLog (n : Z) : gasFunc := fun memorySize =>
  do! l := Back 1 in
  do! requestedSize := checked (bigUint64 l) in
  do! gas := memoryGas memorySize in
  do! gas := checked (SafeAdd gas LogGas) in
  do! gas := checked (SafeAdd gas (u64 (n * LogTopicGas))) in
  do! memorySizeGas := checked (SafeMul requestedSize LogDataGas) in
  checked (SafeAdd gas memorySizeGas).

Definition gasSha3 : gasFunc := fun memorySize =>
  do! gas := memoryGas memorySize in
  do! gas := checked (SafeAdd gas Sha3Gas) in
  do! l := Back 1 in
  do! wordGas := checked (bigUint64 l) in
  do! wordGas := checked (SafeMul (toWordSize wordGas) Sha3WordGas) in
  checked (SafeAdd gas wordGas).

Definition gasCodeCopy : gasFunc := fun memorySize =>
  do! gas := memoryGas memorySize in
  do! gas := checked (SafeAdd gas GasFastestStep) in
  do! l := Back 2 in
  do! wordGas := checked (bigUint64 l) in
  do! wordGas := checked (SafeMul (toWordSize wordGas) CopyGas) in
  checked (SafeAdd gas wordGas).

Definition gasExtCodeCopy : gasFunc := fun memorySize =>
  do! gas := memoryGas memorySize in
  do! gas := checked (SafeAdd gas (ExtcodeCopy gt)) in
  do! l := Back 3 in
  do! wordGas := checked (bigUint64 l) in
  do! wordGas := checked (SafeMul (toWordSize wordGas) CopyGas) in
  checked (SafeAdd gas wordGas).

Definition gasExtCodeHash : gasFunc := fun _ => ret (ExtcodeHash gt).

Definition gasMLoad : gasFunc := fun memorySize =>
  do! gas := memoryGas memorySize in checked (SafeAdd gas GasFastestStep).
Definition gasMStore8 : gasFunc := fun memorySize =>
  do! gas := memoryGas memorySize in checked (SafeAdd gas GasFastestStep).
Definition gasMStore : gasFunc := fun memorySize =>
  do! gas := memoryGas memorySize in checked (SafeAdd gas GasFastestStep).

Definition gasCreate : gasFunc := fun memorySize =>
  do! gas := memoryGas memorySize in checked (SafeAdd gas CreateGas).

Definition gasCreate2 : gasFunc := fun memorySize =>
  do! gas := memoryGas memorySize in
  do! gas := checked (SafeAdd gas Create2Gas) in
  do! l := Back 2 in
  do! wordGas := checked (bigUint64 l) in
  do! wordGas := checked (SafeMul (toWordSize wordGas) Sha3WordGas) in
  checked (SafeAdd gas wordGas).

Definition gasBalance : gasFunc := fun _ => ret (Balance gt).
Definition gasExtCodeSize : gasFunc := fun _ => ret (ExtcodeSize gt).
Definition gasSLoad : gasFunc := fun _ => ret (SLoad gt).

Definition gasExp : gasFunc := fun _ =>
  do! e := Back 1 in
  let expByteLen := u64 ((bitlen e + 7) / 8) in
  checked (SafeAdd (u64 (expByteLen * ExpByte gt)) GasSlowStep).

(** The end that the four calls share: fix the gas passed on, and charge it. *)
Definition charge_call (gas : Z) : M Hash DB Z :=
  do! available := get EvmState.gas in
  do! requested := Back 0 in
  match callGas gt available gas requested with
  | None => seq! modifyWorld (set_callGasTemp 0) in fail errGasUintOverflow
  | Some temp =>
      seq! modifyWorld (set_callGasTemp temp) in
      checked (SafeAdd gas temp)
  end.

Definition gasCall : gasFunc := fun memorySize =>
  do! v := Back 2 in do! a := Back 1 in
  let transfersValue := negb (v =? 0) in
  let address := BigToAddress a in
  let eip158 := IsEIP158 (chainConfig evm) (evmBlock evm) in
  do! d := getDB in
  let gas := Calls gt in
  let gas :=
    if eip158 then
      if transfersValue && Empty d address then u64 (gas + CallNewAccountGas) else gas
    else if negb (Exist d address) then u64 (gas + CallNewAccountGas) else gas in
  let gas := if transfersValue then u64 (gas + CallValueTransferGas) else gas in
  do! mg := memoryGas memorySize in
  do! gas := checked (SafeAdd gas mg) in
  charge_call gas.

Definition gasCallCode : gasFunc := fun memorySize =>
  do! v := Back 2 in
  let gas := Calls gt in
  let gas := if negb (v =? 0) then u64 (gas + CallValueTransferGas) else gas in
  do! mg := memoryGas memorySize in
  do! gas := checked (SafeAdd gas mg) in
  charge_call gas.

Definition gasReturn : gasFunc := memoryGas.
Definition gasRevert : gasFunc := memoryGas.

Definition gasSuicide : gasFunc := fun _ =>
  do! d := getDB in
  do! gas :=
    if IsEIP150 (chainConfig evm) (evmBlock evm) then
      do! a := Back 0 in
      let address := BigToAddress a in
      if IsEIP158 (chainConfig evm) (evmBlock evm) then
        if Empty d address && negb (GetBalance d (self contract) =? 0)
        then ret (u64 (Suicide gt + CreateBySuicide gt)) else ret (Suicide gt)
      else if negb (Exist d address) then ret (u64 (Suicide gt + CreateBySuicide gt))
      else ret (Suicide gt)
    else ret 0 in
  seq! (if negb (HasSuicided d (self contract)) then modifyDB (AddRefund SuicideRefundGas)
        else ret tt) in
  ret gas.

Definition gasDelegateCall : gasFunc := fun memorySize =>
  do! gas := memoryGas memorySize in
  do! gas := checked (SafeAdd gas (Calls gt)) in
  charge_call gas.

Definition gasStaticCall : gasFunc := fun memorySize =>
  do! gas := memoryGas memorySize in
  do! gas := checked (SafeAdd gas (Calls gt)) in
  charge_call gas.

Definition gasPush : gasFunc := fun _ => ret GasFastestStep.
Definition gasSwap : gasFunc := fun _ => ret GasFastestStep.
Definition gasDup : gasFunc := fun _ => ret GasFastestStep.
End Gas.

(** The gas functions, unfolded together by proofs about all of them. *)
Create HintDb evm_gas.
#[export] Hint Unfold constGasFunc gasCallDataCopy gasReturnDataCopy gasSStore makeGasLog gasSha3 gasCodeCopy gasExtCodeCopy gasExtCodeHash gasMLoad gasMStore8 gasMStore gasCreate gasCreate2 gasBalance gasExtCodeSize gasSLoad gasExp gasCall gasCallCode gasReturn gasRevert gasSuicide gasDelegateCall gasStaticCall gasPush gasSwap gasDup : evm_gas.
