(* ===== verification/EvmAddress.v ===== *)
(** Addresses of created contracts (crypto/crypto.go): the last 20 bytes of a
    digest, of the RLP encoding of creator and nonce, or of creator, salt and
    digest of the code. *)

From stdpp Require Import gmap.
From S2P Require Import Prelude RlpTypes RlpEncode GoMath Params EvmCode EvmMemory EvmState.

(** [rlp.EncodeToBytes([]interface{}{b, nonce})]; an error is ignored. *)
Definition address_preimage (b nonce : Z) : bytes :=
  match RlpEncode.EncodeToBytes RlpEncode.newEncbuf (RlpTypes.TSlice RlpTypes.TInterface)
          (RlpTypes.VList
            [RlpTypes.VIface (RlpTypes.TArray 20 (RlpTypes.TUint 8)) (RlpTypes.VBytes (Z_to_be 20 b));
             RlpTypes.VIface (RlpTypes.TUint 64) (RlpTypes.VUint nonce)])
  with Ok data => data | _ => [] end.

Section Address.
Context {Hash : Type} `{HashFn Hash}.

Definition CreateAddress (b nonce : Z) : Z :=
  HashBig (Keccak256 (address_preimage b nonce)) mod 2 ^ 160.

Definition CreateAddress2 (b salt : Z) (inithash : Hash) : Z :=
  HashBig (Keccak256 ([0xff] ++ Z_to_be 20 b ++ Z_to_be 32 salt ++ Z_to_be 32 (HashBig inithash)))
    mod 2 ^ 160.
End Address.
