(* ===== verification/EvmInterp.v ===== *)
(** The EVM: precompiled contracts, message calls and contract creation
    (core/vm/evm.go, core/vm/contracts.go), the instructions that start them, the
    jump tables of the forks (core/vm/jump_table.go) and the interpreter loop
    (core/vm/interpreter.go). *)

From stdpp Require Import gmap.
From S2P Require Import Prelude GoMath Params EvmCode EvmMemory EvmState EvmInstr EvmGas EvmAddress.

(** * Precompiled contracts *)
(** [RequiredGas] is a [uint64]. *)
Record PrecompiledContract := mkPrecompiled {
  RequiredGas : bytes -> Z;
  PrecompiledRun : bytes -> result Z bytes }.

(** The table of a fork, by address. *)
Definition Precompiles := Z -> option PrecompiledContract.

(** What a run of code leaves: return data and error, the gas left, the world. *)
Definition RunResult (Hash : Type) `{HashFn Hash} (DB : Type) : Type :=
  vres (bytes * option VmError) * (Z * World Hash DB).

Definition RunPrecompiledContract {Hash} `{HashFn Hash} {DB} (p : PrecompiledContract)
    (input : bytes) (gas : Z) (w : World Hash DB) : RunResult Hash DB :=
  let cost := u64 (RequiredGas p input) in
  if gas <? cost then (Ret ([], Some ErrOutOfGas), (gas, w))
  else
    match PrecompiledRun p input with
    | Ok r => (Ret (r, None), (gas - cost, w))
    | Err e => (Ret ([], Some (errPrecompile e)), (gas - cost, w))
    | Panic => (Panicked, (gas - cost, w))
    end.

(** * Calls

    [Run_] is the interpreter; [depth] and [readOnly] are the fields of the
    [EVM] and of its interpreter at the time of the call. *)
Section Calls.
Context {Hash DB : Type} `{HashFn Hash} `{!StateDB Hash DB}.
Variable evm : EVM.
Variables PrecompiledContractsHomestead PrecompiledContractsByzantium : Precompiles.
Variable Run_ : Contract Hash -> bytes -> bool -> Z -> bool -> Z -> World Hash DB -> RunResult Hash DB.
Variable depth : Z.
Variable readOnly : bool.

Definition precompiles : Precompiles :=
  if IsByzantium (chainConfig evm) (evmBlock evm)
  then PrecompiledContractsByzantium else PrecompiledContractsHomestead.

Definition run (c : Contract Hash) (input : bytes) (static : bool) (gas : Z) (w : World Hash DB) :
    RunResult Hash DB :=
  match CodeAddr c with
  | Some a =>
      match precompiles a with
      | Some p => RunPrecompiledContract p input gas w
      | None => Run_ c input static depth readOnly gas w
      end
  | None => Run_ c input static depth readOnly gas w
  end.

(** Return data, gas left and error of a call. *)
Definition CallResult : Type := vres (bytes * Z * option VmError) * World Hash DB.

(** The end of every call: an error reverts the state to the snapshot, and takes
    all gas unless it is a revert. *)
Definition settle (snapshot : Z) (r : RunResult Hash DB) : CallResult :=
  let '(o, (gas, w)) := r in
  match o with
  | Ret (res, None) => (Ret (res, gas, None), w)
  | Ret (res, Some err) =>
      match RevertToSnapshot snapshot (db w) with
      | None => (Panicked, w)
      | Some d =>
          let gas := if bool_decide (err = errExecutionReverted) then gas else 0 in
          (Ret (res, gas, Some err), set_db d w)
      end
  | Fail e => (Fail e, w)
  | Panicked => (Panicked, w)
  | OutOfFuel => (OutOfFuel, w)
  end.

(** [NewContract] shares the analyses of the calling contract, and starts without
    any when the caller is an account. *)
Definition enter (caller : ContractRef Hash) (d : DB) (w : World Hash DB) : World Hash DB :=
  match caller with
  | CallerRef _ => set_db d w
  | AccountRef _ => set_jumpdests ∅ (set_db d w)
  end.

Definition Call (caller : ContractRef Hash) (addr : Z) (input : bytes) (gas value : Z)
    (w : World Hash DB) : CallResult :=
  if NoRecursion (vmConfig evm) && (0 <? depth) then (Ret ([], gas, None), w)
  else if CallCreateDepth <? depth then (Ret ([], gas, Some ErrDepth), w)
  else if negb (CanTransfer (db w) (Address caller) value)
  then (Ret ([], gas, Some ErrInsufficientBalance), w)
  else
    let '(snapshot, d) := Snapshot (db w) in
    if negb (Exist d addr) && (negb (bool_decide (is_Some (precompiles addr))) &&
         (IsEIP158 (chainConfig evm) (evmBlock evm) && (value =? 0)))
    then (Ret ([], gas, None), set_db d w)
    else
      let d := if negb (Exist d addr) then CreateAccount addr d else d in
      let d := Transfer (Address caller) addr value d in
      let contract := NewContract caller addr value in
      let contract := SetCallCode addr (GetCodeHash d addr) (GetCode d addr) contract in
      settle snapshot (run contract input false gas (enter caller d w)).

Definition CallCode (caller : ContractRef Hash) (addr : Z) (input : bytes) (gas value : Z)
    (w : World Hash DB) : CallResult :=
  if NoRecursion (vmConfig evm) && (0 <? depth) then (Ret ([], gas, None), w)
  else if CallCreateDepth <? depth then (Ret ([], gas, Some ErrDepth), w)
  else if negb (CanTransfer (db w) (Address caller) value)
  then (Ret ([], gas, Some ErrInsufficientBalance), w)
  else
    let '(snapshot, d) := Snapshot (db w) in
    let contract := NewContract caller (Address caller) value in
    let contract := SetCallCode addr (GetCodeHash d addr) (GetCode d addr) contract in
    settle snapshot (run contract input false gas (enter caller d w)).

Definition DelegateCall (caller : ContractRef Hash) (addr : Z) (input : bytes) (gas : Z)
    (w : World Hash DB) : CallResult :=
  if NoRecursion (vmConfig evm) && (0 <? depth) then (Ret ([], gas, None), w)
  else if CallCreateDepth <? depth then (Ret ([], gas, Some ErrDepth), w)
  else
    let '(snapshot, d) := Snapshot (db w) in
    match AsDelegate caller (NewContract caller (Address caller) 0) with
    | None => (Panicked, set_db d w)
    | Some contract =>
        let contract := SetCallCode addr (GetCodeHash d addr) (GetCode d addr) contract in
        settle snapshot (run contract input false gas (enter caller d w))
    end.

Definition StaticCall (caller : ContractRef Hash) (addr : Z) (input : bytes) (gas : Z)
    (w : World Hash DB) : CallResult :=
  if NoRecursion (vmConfig evm) && (0 <? depth) then (Ret ([], gas, None), w)
  else if CallCreateDepth <? depth then (Ret ([], gas, Some ErrDepth), w)
  else
    let '(snapshot, d) := Snapshot (db w) in
    let contract := NewContract caller addr 0 in
    let contract := SetCallCode addr (GetCodeHash d addr) (GetCode d addr) contract in
    let d := AddBalance addr 0 d in
    settle snapshot (run contract input true gas (enter caller d w)).

(** * Contract creation *)

(** Return data, address, gas left and error. *)
Definition CreateResult : Type := vres (bytes * Z * Z * option VmError) * World Hash DB.

Definition is_nil_err (e : option VmError) : bool := bool_decide (e = None).

(** The end of [create]: pay for storing the code, or revert. *)
Definition create_settle (snapshot address : Z) (r : RunResult Hash DB) : CreateResult :=
  let '(o, (gas, w)) := r in
  match o with
  | Fail e => (Fail e, w)
  | Panicked => (Panicked, w)
  | OutOfFuel => (OutOfFuel, w)
  | Ret (res, err) =>
      let maxCodeSizeExceeded :=
        IsEIP158 (chainConfig evm) (evmBlock evm) && (MaxCodeSize <? zlen res) in
      let '(gas, w, err) :=
        if is_nil_err err && negb maxCodeSizeExceeded then
          let createDataGas := u64 (zlen res * CreateDataGas) in
          if gas <? createDataGas then (gas, w, Some ErrCodeStoreOutOfGas)
          else (gas - createDataGas, set_db (SetCode address res (db w)) w, err)
        else (gas, w, err) in
      let err' := if maxCodeSizeExceeded && is_nil_err err then Some errMaxCodeSizeExceeded else err in
      if maxCodeSizeExceeded || (negb (is_nil_err err) &&
           (IsHomestead (chainConfig evm) (evmBlock evm) ||
            negb (bool_decide (err = Some ErrCodeStoreOutOfGas))))
      then
        match RevertToSnapshot snapshot (db w) with
        | None => (Panicked, w)
        | Some d =>
            let gas := if bool_decide (err = Some errExecutionReverted) then gas else 0 in
            (Ret (res, address, gas, err'), set_db d w)
        end
      else (Ret (res, address, gas, err'), w)
  end.

Definition create (caller : ContractRef Hash) (code : bytes) (hash : Hash) (gas value address : Z)
    (w : World Hash DB) : CreateResult :=
  if CallCreateDepth <? depth then (Ret ([], 0, gas, Some ErrDepth), w)
  else if negb (CanTransfer (db w) (Address caller) value)
  then (Ret ([], 0, gas, Some ErrInsufficientBalance), w)
  else
    let nonce := GetNonce (db w) (Address caller) in
    let d := SetNonce (Address caller) (u64 (nonce + 1)) (db w) in
    let contractHash := GetCodeHash d address in
    if negb (GetNonce d address =? 0) ||
       (negb (bool_decide (contractHash = EmptyHash)) && negb (bool_decide (contractHash = Keccak256 [])))
    then (Ret ([], 0, 0, Some ErrContractAddressCollision), set_db d w)
    else
      let '(snapshot, d) := Snapshot d in
      let d := CreateAccount address d in
      let d := if IsEIP158 (chainConfig evm) (evmBlock evm) then SetNonce address 1 d else d in
      let d := Transfer (Address caller) address value d in
      let contract := SetCallCode address hash code (NewContract caller address value) in
      if NoRecursion (vmConfig evm) && (0 <? depth) then (Ret ([], address, gas, None), set_db d w)
      else create_settle snapshot address (run contract [] false gas (enter caller d w)).

(** The code of a plain creation is not hashed; that of [Create2] is. *)
Definition Create (caller : ContractRef Hash) (code : bytes) (gas value : Z) (w : World Hash DB) :
    CreateResult :=
  create caller code EmptyHash gas value
    (CreateAddress (Address caller) (GetNonce (db w) (Address caller))) w.

Definition Create2 (caller : ContractRef Hash) (code : bytes) (gas endowment salt : Z)
    (w : World Hash DB) : CreateResult :=
  create caller code (Keccak256 code) gas endowment
    (CreateAddress2 (Address caller) (BigToHash salt) (Keccak256 code)) w.

(** * The instructions that call *)
Variable contract : Contract Hash.
Abbreviation Op := (M Hash DB bytes).

Definition call_world {A} (f : World Hash DB -> vres A * World Hash DB) : M Hash DB A := fun s =>
  let '(r, w) := f (world s) in (r, set_world w s).

Definition opCreate : Op :=
  do! value := pop in do! offset := pop in do! size := pop in
  do! m := get mem in
  do! input := lift (Memory_Get m (Int64 offset) (Int64 size)) in
  do! gas := get gas in
  let gas := if IsEIP150 (chainConfig evm) (evmBlock evm) then u64 (gas - gas / 64) else gas in
  do! _ := UseGas gas in
  do! (res, addr, leftOver, suberr) := call_world (Create (CallerRef contract) input gas value) in
  seq! (if IsHomestead (chainConfig evm) (evmBlock evm) &&
           bool_decide (suberr = Some ErrCodeStoreOutOfGas) then push 0
        else if negb (is_nil_err suberr) && negb (bool_decide (suberr = Some ErrCodeStoreOutOfGas))
        then push 0
        else push addr) in
  seq! returnGas leftOver in
  if bool_decide (suberr = Some errExecutionReverted) then ret res else ret [].

Definition opCreate2 : Op :=
  do! endowment := pop in do! offset := pop in do! size := pop in do! salt := pop in
  do! m := get mem in
  do! input := lift (Memory_Get m (Int64 offset) (Int64 size)) in
  do! gas := get gas in
  let gas := u64 (gas - gas / 64) in
  do! _ := UseGas gas in
  do! (res, addr, leftOver, suberr) := call_world (Create2 (CallerRef contract) input gas endowment salt) in
  seq! push (if is_nil_err suberr then addr else 0) in
  seq! returnGas leftOver in
  if bool_decide (suberr = Some errExecutionReverted) then ret res else ret [].

(** The end that the four calls share: result on the stack, return data into
    memory, gas back. *)
Definition after_call (retOffset retSize : Z) (r : bytes * Z * option VmError) : Op :=
  let '(res, leftOver, err) := r in
  seq! push (if is_nil_err err then 1 else 0) in
  seq! (if is_nil_err err || bool_decide (err = Some errExecutionReverted)
        then memory_Set (Uint64 retOffset) (Uint64 retSize) res else ret tt) in
  seq! returnGas leftOver in ret res.

Definition opCall : Op :=
  do! _ := pop in
  do! gas := get (fun s => callGasTemp (world s)) in
  do! addr := pop in do! value := pop in do! inOffset := pop in do! inSize := pop in
  do! retOffset := pop in do! retSize := pop in
  let toAddr := BigToAddress addr in
  let value := U256 value in
  do! m := get mem in
  do! args := lift (Memory_Get m (Int64 inOffset) (Int64 inSize)) in
  let gas := if negb (value =? 0) then u64 (gas + CallStipend) else gas in
  do! r := call_world (Call (CallerRef contract) toAddr args gas value) in
  after_call retOffset retSize r.

Definition opCallCode : Op :=
  do! _ := pop in
  do! gas := get (fun s => callGasTemp (world s)) in
  do! addr := pop in do! value := pop in do! inOffset := pop in do! inSize := pop in
  do! retOffset := pop in do! retSize := pop in
  let toAddr := BigToAddress addr in
  let value := U256 value in
  do! m := get mem in
  do! args := lift (Memory_Get m (Int64 inOffset) (Int64 inSize)) in
  let gas := if negb (value =? 0) then u64 (gas + CallStipend) else gas in
  do! r := call_world (CallCode (CallerRef contract) toAddr args gas value) in
  after_call retOffset retSize r.

Definition opDelegateCall : Op :=
  do! _ := pop in
  do! gas := get (fun s => callGasTemp (world s)) in
  do! addr := pop in do! inOffset := pop in do! inSize := pop in
  do! retOffset := pop in do! retSize := pop in
  let toAddr := BigToAddress addr in
  do! m := get mem in
  do! args := lift (Memory_Get m (Int64 inOffset) (Int64 inSize)) in
  do! r := call_world (DelegateCall (CallerRef contract) toAddr args gas) in
  after_call retOffset retSize r.

Definition opStaticCall : Op :=
  do! _ := pop in
  do! gas := get (fun s => callGasTemp (world s)) in
  do! addr := pop in do! inOffset := pop in do! inSize := pop in
  do! retOffset := pop in do! retSize := pop in
  let toAddr := BigToAddress addr in
  do! m := get mem in
  do! args := lift (Memory_Get m (Int64 inOffset) (Int64 inSize)) in
  do! r := call_world (StaticCall (CallerRef contract) toAddr args gas) in
  after_call retOffset retSize r.

(** * Jump tables *)
Record operation := mkOperation {
  execute : M Hash DB bytes;
  gasCost : gasFunc (Hash := Hash) (DB := DB);
  validateStack : list Z -> option VmError;
  memorySize : option memorySizeFunc;
  halts : bool; jumps : bool; writes : bool; reverts : bool; returns : bool }.

(** An entry that is not set is an invalid operation. *)
Definition InstructionSet := Z -> option operation.

(** An operation without memory and flags; the flags of others are set on it. *)
Definition plain (execute : Op) (gasCost : gasFunc) (validateStack : list Z -> option VmError) : operation :=
  mkOperation execute gasCost validateStack None false false false false false.
Definition with_memory (f : memorySizeFunc) (o : operation) : operation :=
  mkOperation (execute o) (gasCost o) (validateStack o) (Some f) (halts o) (jumps o) (writes o) (reverts o) (returns o).
Definition halting (o : operation) : operation :=
  mkOperation (execute o) (gasCost o) (validateStack o) (memorySize o) true (jumps o) (writes o) (reverts o) (returns o).
Definition jumping (o : operation) : operation :=
  mkOperation (execute o) (gasCost o) (validateStack o) (memorySize o) (halts o) true (writes o) (reverts o) (returns o).
Definition writing (o : operation) : operation :=
  mkOperation (execute o) (gasCost o) (validateStack o) (memorySize o) (halts o) (jumps o) true (reverts o) (returns o).
Definition reverting (o : operation) : operation :=
  mkOperation (execute o) (gasCost o) (validateStack o) (memorySize o) (halts o) (jumps o) (writes o) true (returns o).
Definition returning (o : operation) : operation :=
  mkOperation (execute o) (gasCost o) (validateStack o) (memorySize o) (halts o) (jumps o) (writes o) (reverts o) true.

Abbreviation constGas := (constGasFunc (Hash := Hash) (DB := DB)).

Definition arithmetic_set : list (Z * operation) :=
  [ (STOP, halting (plain opStop (constGas 0) (makeStackFunc 0 0)));
    (ADD, plain opAdd (constGas GasFastestStep) (makeStackFunc 2 1));
    (MUL, plain opMul (constGas GasFastStep) (makeStackFunc 2 1));
    (SUB, plain opSub (constGas GasFastestStep) (makeStackFunc 2 1));
    (DIV, plain opDiv (constGas GasFastStep) (makeStackFunc 2 1));
    (SDIV, plain opSdiv (constGas GasFastStep) (makeStackFunc 2 1));
    (MOD, plain opMod (constGas GasFastStep) (makeStackFunc 2 1));
    (SMOD, plain opSmod (constGas GasFastStep) (makeStackFunc 2 1));
    (ADDMOD, plain opAddmod (constGas GasMidStep) (makeStackFunc 3 1));
    (MULMOD, plain opMulmod (constGas GasMidStep) (makeStackFunc 3 1));
    (EXP, plain opExp (gasExp evm) (makeStackFunc 2 1));
    (SIGNEXTEND, plain opSignExtend (constGas GasFastStep) (makeStackFunc 2 1));
    (LT, plain opLt (constGas GasFastestStep) (makeStackFunc 2 1));
    (GT, plain opGt (constGas GasFastestStep) (makeStackFunc 2 1));
    (SLT, plain opSlt (constGas GasFastestStep) (makeStackFunc 2 1));
    (SGT, plain opSgt (constGas GasFastestStep) (makeStackFunc 2 1));
    (EQ, plain opEq (constGas GasFastestStep) (makeStackFunc 2 1));
    (ISZERO, plain opIszero (constGas GasFastestStep) (makeStackFunc 1 1));
    (AND, plain opAnd (constGas GasFastestStep) (makeStackFunc 2 1));
    (XOR, plain opXor (constGas GasFastestStep) (makeStackFunc 2 1));
    (OR, plain opOr (constGas GasFastestStep) (makeStackFunc 2 1));
    (NOT, plain opNot (constGas GasFastestStep) (makeStackFunc 1 1));
    (BYTE, plain opByte (constGas GasFastestStep) (makeStackFunc 2 1)) ].

Definition environment_set : list (Z * operation) :=
  [ (SHA3, with_memory memorySha3 (plain (opSha3 evm) gasSha3 (makeStackFunc 2 1)));
    (ADDRESS, plain (opAddress contract) (constGas GasQuickStep) (makeStackFunc 0 1));
    (BALANCE, plain opBalance (gasBalance evm) (makeStackFunc 1 1));
    (ORIGIN, plain (opOrigin evm) (constGas GasQuickStep) (makeStackFunc 0 1));
    (CALLER, plain (opCaller contract) (constGas GasQuickStep) (makeStackFunc 0 1));
    (CALLVALUE, plain (opCallValue contract) (constGas GasQuickStep) (makeStackFunc 0 1));
    (CALLDATALOAD, plain (opCallDataLoad contract) (constGas GasFastestStep) (makeStackFunc 1 1));
    (CALLDATASIZE, plain (opCallDataSize contract) (constGas GasQuickStep) (makeStackFunc 0 1));
    (CALLDATACOPY, with_memory memoryCallDataCopy (plain (opCallDataCopy contract) gasCallDataCopy (makeStackFunc 3 0)));
    (CODESIZE, plain (opCodeSize contract) (constGas GasQuickStep) (makeStackFunc 0 1));
    (CODECOPY, with_memory memoryCodeCopy (plain (opCodeCopy contract) gasCodeCopy (makeStackFunc 3 0)));
    (GASPRICE, plain (opGasprice evm) (constGas GasQuickStep) (makeStackFunc 0 1));
    (EXTCODESIZE, plain opExtCodeSize (gasExtCodeSize evm) (makeStackFunc 1 1));
    (EXTCODECOPY, with_memory memoryExtCodeCopy (plain opExtCodeCopy (gasExtCodeCopy evm) (makeStackFunc 4 0)));
    (BLOCKHASH, plain (opBlockhash evm) (constGas GasExtStep) (makeStackFunc 1 1));
    (COINBASE, plain (opCoinbase evm) (constGas GasQuickStep) (makeStackFunc 0 1));
    (TIMESTAMP, plain (opTimestamp evm) (constGas GasQuickStep) (makeStackFunc 0 1));
    (NUMBER, plain (opNumber evm) (constGas GasQuickStep) (makeStackFunc 0 1));
    (DIFFICULTY, plain (opDifficulty evm) (constGas GasQuickStep) (makeStackFunc 0 1));
    (GASLIMIT, plain (opGasLimit evm) (constGas GasQuickStep) (makeStackFunc 0 1)) ].

Definition storage_set : list (Z * operation) :=
  [ (POP, plain opPop (constGas GasQuickStep) (makeStackFunc 1 0));
    (MLOAD, with_memory memoryMLoad (plain opMload gasMLoad (makeStackFunc 1 1)));
    (MSTORE, with_memory memoryMStore (plain opMstore gasMStore (makeStackFunc 2 0)));
    (MSTORE8, with_memory memoryMStore8 (plain opMstore8 gasMStore8 (makeStackFunc 2 0)));
    (SLOAD, plain (opSload contract) (gasSLoad evm) (makeStackFunc 1 1));
    (SSTORE, writing (plain (opSstore contract) (gasSStore evm contract) (makeStackFunc 2 0)));
    (JUMP, jumping (plain (opJump contract) (constGas GasMidStep) (makeStackFunc 1 0)));
    (JUMPI, jumping (plain (opJumpi contract) (constGas GasSlowStep) (makeStackFunc 2 0)));
    (PC, plain opPc (constGas GasQuickStep) (makeStackFunc 0 1));
    (MSIZE, plain opMsize (constGas GasQuickStep) (makeStackFunc 0 1));
    (GAS, plain opGas (constGas GasQuickStep) (makeStackFunc 0 1));
    (JUMPDEST, plain opJumpdest (constGas JumpdestGas) (makeStackFunc 0 0)) ].

(** The runs PUSH1 to PUSH32, DUP1 to DUP16, SWAP1 to SWAP16 and LOG0 to LOG4. *)
Definition push_entry (i : nat) : Z * operation :=
  let n := Z.of_nat i in (PUSH1 + n - 1, plain (makePush contract n n) gasPush (makeStackFunc 0 1)).
Definition dup_entry (i : nat) : Z * operation :=
  (DUP1 + Z.of_nat i - 1, plain (makeDup i) gasDup (makeDupStackFunc (Z.of_nat i))).
Definition swap_entry (i : nat) : Z * operation :=
  (SWAP1 + Z.of_nat i - 1, plain (makeSwap i) gasSwap (makeSwapStackFunc (Z.of_nat i + 1))).
Definition log_entry (i : nat) : Z * operation :=
  (LOG0 + Z.of_nat i,
   writing (with_memory memoryLog
     (plain (makeLog evm contract i) (makeGasLog (Z.of_nat i)) (makeStackFunc (Z.of_nat i + 2) 0)))).

Definition push_set : list (Z * operation) := push_entry <$> seq 1 32.
Definition dup_set : list (Z * operation) := dup_entry <$> seq 1 16.
Definition swap_set : list (Z * operation) := swap_entry <$> seq 1 16.
Definition log_set : list (Z * operation) := log_entry <$> seq 0 5.

Definition system_set : list (Z * operation) :=
  [ (CREATE, returning (writing (with_memory memoryCreate (plain opCreate gasCreate (makeStackFunc 3 1)))));
    (CALL, returning (with_memory memoryCall (plain opCall (gasCall evm) (makeStackFunc 7 1))));
    (CALLCODE, returning (with_memory memoryCall (plain opCallCode (gasCallCode evm) (makeStackFunc 7 1))));
    (RETURN, halting (with_memory memoryReturn (plain opReturn gasReturn (makeStackFunc 2 0))));
    (SELFDESTRUCT, writing (halting (plain (opSuicide contract) (gasSuicide evm contract) (makeStackFunc 1 0)))) ].

Definition of_list (l : list (Z * operation)) : InstructionSet := fun op =>
  snd <$> find (fun e => e.1 =? op) l.

Definition newFrontierInstructionSet : InstructionSet :=
  of_list (arithmetic_set ++ environment_set ++ storage_set ++ push_set ++ dup_set ++ swap_set ++
           log_set ++ system_set).

(** [instructionSet[op] = o] *)
Definition set_op (op : Z) (o : operation) (t : InstructionSet) : InstructionSet := fun x =>
  if x =? op then Some o else t x.

Definition newHomesteadInstructionSet : InstructionSet :=
  set_op DELEGATECALL
    (returning (with_memory memoryDelegateCall (plain opDelegateCall (gasDelegateCall evm) (makeStackFunc 6 1))))
    newFrontierInstructionSet.

Definition newByzantiumInstructionSet : InstructionSet :=
  set_op REVERT
    (returning (reverting (with_memory memoryRevert (plain opRevert gasRevert (makeStackFunc 2 0)))))
  (set_op RETURNDATACOPY
    (with_memory memoryReturnDataCopy (plain opReturnDataCopy gasReturnDataCopy (makeStackFunc 3 0)))
  (set_op RETURNDATASIZE (plain opReturnDataSize (constGas GasQuickStep) (makeStackFunc 0 1))
  (set_op STATICCALL
    (returning (with_memory memoryStaticCall (plain opStaticCall (gasStaticCall evm) (makeStackFunc 6 1))))
    newHomesteadInstructionSet))).

Definition newConstantinopleInstructionSet : InstructionSet :=
  set_op CREATE2
    (returning (writing (with_memory memoryCreate2 (plain opCreate2 gasCreate2 (makeStackFunc 4 1)))))
  (set_op EXTCODEHASH (plain opExtCodeHash (gasExtCodeHash evm) (makeStackFunc 1 1))
  (set_op SAR (plain opSAR (constGas GasFastestStep) (makeStackFunc 2 1))
  (set_op SHR (plain opSHR (constGas GasFastestStep) (makeStackFunc 2 1))
  (set_op SHL (plain opSHL (constGas GasFastestStep) (makeStackFunc 2 1))
    newByzantiumInstructionSet)))).

(** The table that [NewEVMInterpreter] chooses. *)
Definition JumpTable : InstructionSet :=
  if IsConstantinople (chainConfig evm) (evmBlock evm) then newConstantinopleInstructionSet
  else if IsByzantium (chainConfig evm) (evmBlock evm) then newByzantiumInstructionSet
  else if IsHomestead (chainConfig evm) (evmBlock evm) then newHomesteadInstructionSet
  else newFrontierInstructionSet.

(** * One round of the interpreter loop *)
Definition enforceRestrictions (op : Z) (operation : operation) : M Hash DB unit :=
  if rByzantium (chainRules evm) then
    if readOnly then
      if writes operation then fail errWriteProtection
      else if op =? CALL then
        do! v := Back 2 in
        if 0 <? bitlen v then fail errWriteProtection else ret tt
      else ret tt
    else ret tt
  else ret tt.

(** The error of [m] as a value. *)
Definition attempt {A} (m : M Hash DB A) : M Hash DB (A + VmError) := fun s =>
  match m s with
  | (Ret a, s) => (Ret (inl a), s)
  | (Fail e, s) => (Ret (inr e), s)
  | (Panicked, s) => (Panicked, s)
  | (OutOfFuel, s) => (OutOfFuel, s)
  end.

Definition requestedMemory (o : operation) : M Hash DB Z :=
  match memorySize o with
  | None => ret 0
  | Some f =>
      do! st := get stack in
      do! memSize := lift (f st) in
      do! memSize := checked (bigUint64 memSize) in
      checked (SafeMul (toWordSize memSize) 32)
  end.

(** Everything before [operation.execute]: the checks and the charge. *)
Definition prepare (op : Z) (o : operation) : M Hash DB unit :=
  do! st := get stack in
  seq! match validateStack o st with Some e => fail e | None => ret tt end in
  seq! enforceRestrictions op o in
  do! size := requestedMemory o in
  do! cost := attempt (gasCost o size) in
  match cost with
  | inr _ => fail ErrOutOfGas
  | inl cost =>
      do! ok := UseGas cost in
      if negb ok then fail ErrOutOfGas
      else if 0 <? size then modify (fun s => set_mem (Memory_Resize (mem s) size) s) else ret tt
  end.

(** [Some r] when the loop returns. *)
Definition finish (o : operation) (r : bytes + VmError) : M Hash DB (option (bytes * option VmError)) :=
  seq! (if returns o then modifyWorld (set_returnData (match r with inl b => b | inr _ => [] end))
        else ret tt) in
  match r with
  | inr e => fail e
  | inl res =>
      if reverts o then ret (Some (res, Some errExecutionReverted))
      else if halts o then ret (Some (res, None))
      else if negb (jumps o) then
        seq! modify (fun s => set_pc (u64 (pc s + 1)) s) in ret None
      else ret None
  end.

Definition step : M Hash DB (option (bytes * option VmError)) :=
  do! p := get pc in
  let op := GetOp contract p in
  match JumpTable op with
  | None => fail (errInvalidOpcode op)
  | Some o =>
      seq! prepare op o in
      do! r := attempt (execute o) in
      finish o r
  end.
End Calls.

(** * The interpreter

    One unit of fuel for each instruction of a frame; a nested frame starts with
    what is left.  [loop_steps] runs the loop of a frame at depth [depth]. *)
Section Interpreter.
Context {Hash DB : Type} `{HashFn Hash} `{!StateDB Hash DB}.
Variable evm : EVM.
Variables PrecompiledContractsHomestead PrecompiledContractsByzantium : Precompiles.

Fixpoint loop_steps (fuel : nat) (contract : Contract Hash) (depth : Z) (readOnly : bool)
    (s : Frame Hash DB) : RunResult Hash DB :=
  match fuel with
  | O => (OutOfFuel, (gas s, world s))
  | S fuel =>
      let Run_ c input static depth readOnly g w :=
        let depth := depth + 1 in
        let readOnly := readOnly || static in
        let w := set_returnData [] w in
        if zlen (Code c) =? 0 then (Ret ([], None), (g, w))
        else loop_steps fuel (set_Input input c) depth readOnly (mkFrame 0 [] NewMemory g None w) in
      match step evm PrecompiledContractsHomestead PrecompiledContractsByzantium Run_ depth readOnly
              contract s with
      | (Ret (Some r), s) => (Ret r, (gas s, world s))
      | (Ret None, s) => loop_steps fuel contract depth readOnly s
      | (Fail e, s) => (Ret ([], Some e), (gas s, world s))
      | (Panicked, s) => (Panicked, (gas s, world s))
      | (OutOfFuel, s) => (OutOfFuel, (gas s, world s))
      end
  end.

(** [EVMInterpreter.Run] *)
Definition Run (fuel : nat) (c : Contract Hash) (input : bytes) (static : bool) (depth : Z)
    (readOnly : bool) (g : Z) (w : World Hash DB) : RunResult Hash DB :=
  let depth := depth + 1 in
  let readOnly := readOnly || static in
  let w := set_returnData [] w in
  if zlen (Code c) =? 0 then (Ret ([], None), (g, w))
  else loop_steps fuel (set_Input input c) depth readOnly (mkFrame 0 [] NewMemory g None w).
End Interpreter.
