(* ===== verification/EvmContracts.v ===== *)
(** The precompiled contracts (core/vm/contracts.go).

    Hash functions, signature recovery and the curve bn256 are the operations of
    a record, with what is relied on as laws.  Slices can be made of any length:
    running out of memory is not modelled. *)

From S2P Require Import Prelude GoMath Params EvmCode EvmMemory EvmState EvmInterp.

(** * Cryptography *)
Record Crypto := mkCrypto {
  sha256_Sum : bytes -> bytes;
  ripemd160_Sum : bytes -> bytes;
  keccak256_Sum : bytes -> bytes;
  Ecrecover : bytes -> bytes -> result Z bytes;
  G1 : Type;
  G2 : Type;
  UnmarshalG1 : bytes -> result Z G1;
  UnmarshalG2 : bytes -> result Z G2;
  AddG1 : G1 -> G1 -> G1;
  ScalarMultG1 : G1 -> Z -> G1;
  MarshalG1 : G1 -> bytes;
  PairingCheck : list G1 -> list G2 -> bool }.

(** Digests have 32 and 20 bytes, an uncompressed public key 65, a marshalled
    point 64; nothing panics on input of the right length. *)
Class CryptoLaws (C : Crypto) : Prop := {
  sha256_length b : wf_bytes (sha256_Sum C b) /\ zlen (sha256_Sum C b) = 32;
  ripemd160_length b : wf_bytes (ripemd160_Sum C b) /\ zlen (ripemd160_Sum C b) = 20;
  keccak256_length b : wf_bytes (keccak256_Sum C b) /\ zlen (keccak256_Sum C b) = 32;
  Ecrecover_ok hash sig : zlen hash = 32 -> zlen sig = 65 ->
    match Ecrecover C hash sig with Ok p => wf_bytes p /\ zlen p = 65 | Err _ => True | Panic => False end;
  UnmarshalG1_ok b : zlen b = 64 -> UnmarshalG1 C b <> Panic;
  UnmarshalG2_ok b : zlen b = 128 -> UnmarshalG2 C b <> Panic;
  MarshalG1_length p : wf_bytes (MarshalG1 C p) /\ zlen (MarshalG1 C p) = 64 }.

Definition secp256k1N : Z := 0xfffffffffffffffffffffffffffffffebaaedce6af48a03bbfd25e8cd0364141.
Definition secp256k1halfN : Z := secp256k1N / 2.

Definition ValidateSignatureValues (v r s : Z) (homestead : bool) : bool :=
  if (r <? 1) || (s <? 1) then false
  else if homestead && (secp256k1halfN <? s) then false
  else (r <? secp256k1N) && (s <? secp256k1N) && ((v =? 0) || (v =? 1)).

Section Contracts.
Variable C : Crypto.

(** * ecrecover

    [append(input[64:128], v)] writes to the array of [input] when that is longer
    than 128 bytes: the second component is [input] after the call. *)
Definition ecRecoverInputLength : Z := 128.

Definition ecrecover_append (input : bytes) (v : Z) : bytes :=
  if ecRecoverInputLength <? zlen input then <[Z.to_nat ecRecoverInputLength := v]> input else input.

Definition ecrecover_Run (input : bytes) : result Z bytes * bytes :=
  let padded := RightPadBytes input ecRecoverInputLength in
  match slice padded 64 96, slice padded 96 128, index padded 63, slice padded 32 63, slice padded 0 32, slice padded 64 128 with
  | Some r, Some s, Some v, Some zeros, Some hash, Some rs =>
      let v := u8 (v - 27) in
      if negb (allZero zeros) || negb (ValidateSignatureValues v (be_to_Z r) (be_to_Z s) false) then (Ok [], input)
      else
        (match Ecrecover C hash (rs ++ [v]) with
         | Ok pubKey =>
             match slice pubKey 1 (zlen pubKey) with
             | Some key =>
                 match slice (keccak256_Sum C key) 12 (zlen (keccak256_Sum C key)) with
                 | Some address => Ok (LeftPadBytes address 32)
                 | None => Panic
                 end
             | None => Panic
             end
         | Err _ => Ok []
         | Panic => Panic
         end, ecrecover_append input v)
  | _, _, _, _, _, _ => (Panic, input)
  end.

Definition ecrecover : PrecompiledContract :=
  mkPrecompiled (fun _ => EcrecoverGas) (fun input => (ecrecover_Run input).1).

(** * Hashes and copy *)
Definition words_gas (perWord base : Z) (input : bytes) : Z :=
  u64 (u64 (zlen input + 31) / 32 * perWord + base).

Definition sha256hash : PrecompiledContract :=
  mkPrecompiled (words_gas Sha256PerWordGas Sha256BaseGas) (fun input => Ok (sha256_Sum C input)).
Definition ripemd160hash : PrecompiledContract :=
  mkPrecompiled (words_gas Ripemd160PerWordGas Ripemd160BaseGas) (fun input => Ok (LeftPadBytes (ripemd160_Sum C input) 32)).
Definition dataCopy : PrecompiledContract :=
  mkPrecompiled (words_gas IdentityPerWordGas IdentityBaseGas) Ok.

(** * bigModExp *)

(** The three lengths at the start of the input, and what follows them. *)
Definition modexp_length (input : bytes) (i : Z) : option Z := be_to_Z <$> getData input (32 * i) 32.
Definition modexp_rest (input : bytes) : bytes := if 96 <? zlen input then drop 96 input else [].

(** The first 32 bytes of the exponent. *)
Definition modexp_head (input : bytes) (baseLen expLen : Z) : option Z :=
  if zlen input <=? baseLen then Some 0
  else be_to_Z <$> getData input (Uint64 baseLen) (if 32 <? expLen then 32 else Uint64 expLen).

Definition modexp_complexity (x : Z) : Z :=
  if x <=? 64 then x * x
  else if x <=? 1024 then x * x / 4 + (96 * x - 3072)
  else x * x / 16 + (480 * x - 199680).

(** [None] is a panic; [modexp_gas_total] below excludes it. *)
Definition modexp_gas (input : bytes) : option Z :=
  baseLen ← modexp_length input 0;
  expLen ← modexp_length input 1;
  modLen ← modexp_length input 2;
  expHead ← modexp_head (modexp_rest input) baseLen expLen;
  let msb := if 0 <? bitlen expHead then bitlen expHead - 1 else 0 in
  let adjExpLen := (if 32 <? expLen then 8 * (expLen - 32) else 0) + msb in
  let gas := modexp_complexity (BigMax modLen baseLen) * BigMax adjExpLen 1 / ModExpQuadCoeffDiv in
  Some (if 64 <? bitlen gas then MaxUint64 else Uint64 gas).

Definition modexp_Run (input : bytes) : option bytes :=
  baseLen ← modexp_length input 0;
  expLen ← modexp_length input 1;
  modLen ← modexp_length input 2;
  let '(baseLen, expLen, modLen) := (Uint64 baseLen, Uint64 expLen, Uint64 modLen) in
  let input := modexp_rest input in
  if (baseLen =? 0) && (modLen =? 0) then Some []
  else
    base ← be_to_Z <$> getData input 0 baseLen;
    exp ← be_to_Z <$> getData input baseLen expLen;
    mod_ ← be_to_Z <$> getData input (u64 (baseLen + expLen)) modLen;
    if bitlen mod_ =? 0 then Some (LeftPadBytes [] (Int64 modLen))
    else Some (LeftPadBytes (big_bytes (base ^ exp mod mod_)) (Int64 modLen)).

Definition bigModExp : PrecompiledContract :=
  mkPrecompiled (fun input => default 0 (modexp_gas input))
    (fun input => match modexp_Run input with Some r => Ok r | None => Panic end).

(** * bn256 *)
Definition newCurvePoint (blob : option bytes) : result Z (G1 C) :=
  match blob with Some b => UnmarshalG1 C b | None => Panic end.
Definition newTwistPoint (blob : option bytes) : result Z (G2 C) :=
  match blob with Some b => UnmarshalG2 C b | None => Panic end.

Definition bn256Add : PrecompiledContract :=
  mkPrecompiled (fun _ => Bn256AddGas) (fun input =>
    match newCurvePoint (getData input 0 64) with
    | Ok x =>
        match newCurvePoint (getData input 64 64) with
        | Ok y => Ok (MarshalG1 C (AddG1 C x y))
        | Err e => Err e
        | Panic => Panic
        end
    | Err e => Err e
    | Panic => Panic
    end).

Definition bn256ScalarMul : PrecompiledContract :=
  mkPrecompiled (fun _ => Bn256ScalarMulGas) (fun input =>
    match newCurvePoint (getData input 0 64) with
    | Ok p =>
        match getData input 64 32 with
        | Some k => Ok (MarshalG1 C (ScalarMultG1 C p (be_to_Z k)))
        | None => Panic
        end
    | Err e => Err e
    | Panic => Panic
    end).

Definition errBadPairingInput : Z := -1.
Definition true32Byte : bytes := replicate 31 0 ++ [1].
Definition false32Byte : bytes := replicate 32 0.

(** The loop over pairs of points, each of 192 bytes; [n] pairs are left. *)
Fixpoint pairing_points (n : nat) (input : bytes) (i : Z) : result Z (list (G1 C) * list (G2 C)) :=
  match n with
  | O => Ok ([], [])
  | S n =>
      match newCurvePoint (slice input i (i + 64)) with
      | Ok c =>
          match newTwistPoint (slice input (i + 64) (i + 192)) with
          | Ok t =>
              match pairing_points n input (i + 192) with
              | Ok (cs, ts) => Ok (c :: cs, t :: ts)
              | Err e => Err e
              | Panic => Panic
              end
          | Err e => Err e
          | Panic => Panic
          end
      | Err e => Err e
      | Panic => Panic
      end
  end.

Definition bn256Pairing : PrecompiledContract :=
  mkPrecompiled (fun input => u64 (Bn256PairingBaseGas + u64 (zlen input / 192 * Bn256PairingPerPointGas))) (fun input =>
    if 0 <? zlen input mod 192 then Err errBadPairingInput
    else
      match pairing_points (Z.to_nat (zlen input / 192)) input 0 with
      | Ok (cs, ts) => Ok (if PairingCheck C cs ts then true32Byte else false32Byte)
      | Err e => Err e
      | Panic => Panic
      end).

(** * The tables *)
Definition PrecompiledContractsHomestead : Precompiles := fun a =>
  match a with
  | 1 => Some ecrecover
  | 2 => Some sha256hash
  | 3 => Some ripemd160hash
  | 4 => Some dataCopy
  | _ => None
  end.

Definition PrecompiledContractsByzantium : Precompiles := fun a =>
  match a with
  | 5 => Some bigModExp
  | 6 => Some bn256Add
  | 7 => Some bn256ScalarMul
  | 8 => Some bn256Pairing
  | _ => PrecompiledContractsHomestead a
  end.
End Contracts.
