(* ===== verification/EvmArith.v ===== *)
(** The arithmetic instructions compute the functions the yellow paper gives
    them: two's complement arithmetic on 256-bit words. *)

From stdpp Require Import gmap.
From S2P Require Import Prelude GoMath Params EvmCode EvmMemory EvmState EvmInstr EvmGas EvmInterp.

(** * Specification *)

(** A word as a signed number, and the word of a number. *)
Definition signed (x : Z) : Z := if x <? 2 ^ 255 then x else x - 2 ^ 256.
Definition word (x : Z) : Z := x mod 2 ^ 256.
Definition flag (b : bool) : Z := if b then 1 else 0.

Inductive semantics :=
| Unary (f : Z -> Z)
| Binary (f : Z -> Z -> Z)
| Ternary (f : Z -> Z -> Z -> Z).

(** [low_bits n x]: the low [n] bits of [x] as a signed number of [n] bits. *)
Definition low_bits (n x : Z) : Z :=
  let r := x mod 2 ^ n in if r <? 2 ^ (n - 1) then r else r - 2 ^ n.

Definition arithmetic : list (Z * semantics) :=
  [ (ADD, Binary (fun x y => word (x + y)));
    (MUL, Binary (fun x y => word (x * y)));
    (SUB, Binary (fun x y => word (x - y)));
    (DIV, Binary (fun x y => if y =? 0 then 0 else x / y));
    (SDIV, Binary (fun x y => if y =? 0 then 0 else word (Z.quot (signed x) (signed y))));
    (MOD, Binary (fun x y => if y =? 0 then 0 else x mod y));
    (SMOD, Binary (fun x y => if y =? 0 then 0 else word (Z.rem (signed x) (signed y))));
    (ADDMOD, Ternary (fun x y m => if m =? 0 then 0 else (x + y) mod m));
    (MULMOD, Ternary (fun x y m => if m =? 0 then 0 else (x * y) mod m));
    (EXP, Binary (fun x y => word (x ^ y)));
    (SIGNEXTEND, Binary (fun k x => if k <? 31 then word (low_bits (8 * k + 8) x) else x));
    (LT, Binary (fun x y => flag (x <? y)));
    (GT, Binary (fun x y => flag (y <? x)));
    (SLT, Binary (fun x y => flag (signed x <? signed y)));
    (SGT, Binary (fun x y => flag (signed y <? signed x)));
    (EQ, Binary (fun x y => flag (x =? y)));
    (ISZERO, Unary (fun x => flag (x =? 0)));
    (AND, Binary Z.land);
    (OR, Binary Z.lor);
    (XOR, Binary Z.lxor);
    (NOT, Unary (fun x => 2 ^ 256 - 1 - x));
    (BYTE, Binary (fun i x => if i <? 32 then x / 256 ^ (31 - i) mod 256 else 0));
    (SHL, Binary (fun n x => if n <? 256 then word (x * 2 ^ n) else 0));
    (SHR, Binary (fun n x => if n <? 256 then x / 2 ^ n else 0));
    (SAR, Binary (fun n x => word (if n <? 256 then signed x / 2 ^ n else if x <? 2 ^ 255 then 0 else -1))) ].

(** What the instruction leaves on a stack that is deep enough. *)
Definition result (sem : semantics) (st : list Z) : option (list Z) :=
  match sem, st with
  | Unary f, x :: st => Some (f x :: st)
  | Binary f, x :: y :: st => Some (f x y :: st)
  | Ternary f, x :: y :: z :: st => Some (f x y z :: st)
  | _, _ => None
  end.

(** * Words *)
Lemma is_word_word x : is_word (word x).
Proof. unfold is_word, word. apply Z.mod_pos_bound. lia. Qed.

Lemma U256_word x : U256 x = word x.
Proof. apply U256_mod. Qed.

Lemma S256_signed x : S256 x = signed x.
Proof. unfold S256, signed, tt255, tt256. done. Qed.

Lemma signed_bounds x : is_word x -> - 2 ^ 255 <= signed x < 2 ^ 255.
Proof. unfold is_word, signed. change (2 ^ 256) with (2 * 2 ^ 255). case_if; lia. Qed.

Lemma signed_zero x : is_word x -> (signed x =? 0) = (x =? 0).
Proof. unfold is_word, signed. change (2 ^ 256) with (2 * 2 ^ 255). intros. case_if; lia. Qed.

Lemma word_small x : is_word x -> word x = x.
Proof. intros. by apply Z.mod_small. Qed.

Lemma is_word_flag b : is_word (flag b).
Proof. destruct b; unfold is_word; simpl; lia. Qed.

Lemma signed_ltb x y :
  is_word x -> is_word y ->
  (signed x <? signed y) =
    if (tt255 <=? x) && (y <? tt255) then true
    else if (x <? tt255) && (tt255 <=? y) then false else x <? y.
Proof.
  unfold is_word, signed, tt255. change (2 ^ 256) with (2 * 2 ^ 255). intros.
  destruct (Z.ltb_spec x (2 ^ 255)), (Z.ltb_spec y (2 ^ 255)), (Z.leb_spec (2 ^ 255) x), (Z.leb_spec (2 ^ 255) y);
    cbn [andb]; lia.
Qed.

Lemma quot_abs x y : y <> 0 ->
  Z.quot x y = if negb (Z.sgn x =? Z.sgn y) then - (Z.abs x / Z.abs y) else Z.abs x / Z.abs y.
Proof.
  intros Hy. destruct (Z.eq_dec x 0) as [->|Hx].
  { rewrite Z.quot_0_l by done. cbn [Z.abs]. rewrite Z.div_0_l by lia. by case_if. }
  rewrite <-(Z.quot_div_nonneg (Z.abs x)) by lia.
  destruct (Z.lt_total x 0) as [?|[?|?]], (Z.lt_total y 0) as [?|[?|?]]; try lia;
    rewrite ?(Z.abs_neq x), ?(Z.abs_neq y), ?(Z.abs_eq x), ?(Z.abs_eq y) by lia;
    rewrite ?(Z.sgn_neg x), ?(Z.sgn_neg y), ?(Z.sgn_pos x), ?(Z.sgn_pos y) by lia; cbn [Z.eqb negb];
    rewrite ?Z.quot_opp_l, ?Z.quot_opp_r, ?Z.opp_involutive by lia; reflexivity.
Qed.

Lemma rem_abs x y : y <> 0 -> Z.rem x y = if x <? 0 then - (Z.abs x mod Z.abs y) else Z.abs x mod Z.abs y.
Proof.
  intros Hy. rewrite <-(Z.rem_mod_nonneg (Z.abs x)), Z.rem_abs_r by lia.
  destruct (Z.ltb_spec x 0); [rewrite Z.abs_neq, Z.rem_opp_l, Z.opp_involutive by lia|rewrite Z.abs_eq by lia]; reflexivity.
Qed.

(** * The instructions *)
Section Arithmetic.
Context {Hash DB : Type} `{HashFn Hash} `{!StateDB Hash DB}.

(** [op] turns the top of a stack of words into what [sem] says, and changes
    nothing else. *)
Definition computes (op : M Hash DB bytes) (sem : semantics) : Prop :=
  forall s st, Forall is_word (stack s) -> result sem (stack s) = Some st ->
    op s = (Ret [], set_stack st s) /\ Forall is_word st.

Lemma computes_unary op f :
  (forall s x rest, stack s = x :: rest -> is_word x -> op s = (Ret [], set_stack (f x :: rest) s)) ->
  (forall x, is_word x -> is_word (f x)) -> computes op (Unary f).
Proof.
  intros Hop Hf s st Hw Hr. destruct (stack s) as [|x rest] eqn:Hs; [done|]. injection Hr as <-.
  inversion Hw. split; [by apply Hop|constructor; auto].
Qed.

Lemma computes_binary op f :
  (forall s x y rest, stack s = x :: y :: rest -> is_word x -> is_word y ->
    op s = (Ret [], set_stack (f x y :: rest) s)) ->
  (forall x y, is_word x -> is_word y -> is_word (f x y)) -> computes op (Binary f).
Proof.
  intros Hop Hf s st Hw Hr. destruct (stack s) as [|x [|y rest]] eqn:Hs; [done..|]. injection Hr as <-.
  inversion Hw as [|? ? Hx Hw']; inversion Hw'; subst. split; [by apply Hop|constructor; auto].
Qed.

Lemma computes_ternary op f :
  (forall s x y z rest, stack s = x :: y :: z :: rest -> is_word x -> is_word y -> is_word z ->
    op s = (Ret [], set_stack (f x y z :: rest) s)) ->
  (forall x y z, is_word x -> is_word y -> is_word z -> is_word (f x y z)) -> computes op (Ternary f).
Proof.
  intros Hop Hf s st Hw Hr. destruct (stack s) as [|x [|y [|z rest]]] eqn:Hs; [done..|]. injection Hr as <-.
  inversion Hw as [|? ? Hx Hw']; inversion Hw' as [|? ? Hy Hw'']; inversion Hw''; subst.
  split; [by apply Hop|constructor; auto].
Qed.

(** Run an instruction on a stack whose top is known. *)
Ltac run_op Hs :=
  unfold bind, pop, peek, assign, push, modify, done_nil, ret; cbv zeta; rewrite ?Hs;
  cbn [stack set_stack]; rewrite ?Hs; cbn [stack set_stack].

Ltac unary := apply computes_unary; [intros s x rest Hs Hx|intros x Hx].
Ltac binary := apply computes_binary; [intros s x y rest Hs Hx Hy|intros x y Hx Hy].
Ltac ternary := apply computes_ternary; [intros s x y z rest Hs Hx Hy Hz|intros x y z Hx Hy Hz].

Lemma Add_ok : computes opAdd (Binary (fun x y => word (x + y))).
Proof. binary; [unfold opAdd; run_op Hs; by rewrite U256_word|apply is_word_word]. Qed.
Lemma Mul_ok : computes opMul (Binary (fun x y => word (x * y))).
Proof. binary; [unfold opMul; run_op Hs; by rewrite U256_word|apply is_word_word]. Qed.
Lemma Sub_ok : computes opSub (Binary (fun x y => word (x - y))).
Proof. binary; [unfold opSub; run_op Hs; by rewrite U256_word|apply is_word_word]. Qed.

Lemma is_word_div x y : is_word x -> 0 <= y -> is_word (x / y).
Proof.
  unfold is_word. intros Hx Hy. destruct (Z.eq_dec y 0) as [->|]; [rewrite Z.div_0_r; lia|].
  pose proof (Z.div_pos x y). pose proof (Z.div_le_upper_bound x y x). nia.
Qed.
Lemma is_word_mod x y : 0 < y < 2 ^ 256 -> is_word (x mod y).
Proof. intros Hy. unfold is_word. pose proof (Z.mod_pos_bound x y). lia. Qed.

Lemma Div_ok : computes opDiv (Binary (fun x y => if y =? 0 then 0 else x / y)).
Proof.
  binary.
  - unfold opDiv. run_op Hs. destruct (Z.eqb_spec y 0); cbn [negb]; run_op Hs; [done|].
    rewrite U256_word, word_small; [done|]. apply is_word_div; [done|apply Hy].
  - case_if; [unfold is_word; lia|]. apply is_word_div; [done|apply Hy].
Qed.

Lemma Mod_ok : computes opMod (Binary (fun x y => if y =? 0 then 0 else x mod y)).
Proof.
  assert (forall x y, is_word y -> y <> 0 -> is_word (x mod y)) as Hm.
  { unfold is_word at 1. intros. apply is_word_mod. lia. }
  binary.
  - unfold opMod. run_op Hs. destruct (Z.eqb_spec y 0); [done|]. rewrite U256_word, word_small; auto.
  - case_if; [unfold is_word; lia|auto].
Qed.

Lemma Sdiv_ok : computes opSdiv (Binary (fun x y => if y =? 0 then 0 else word (Z.quot (signed x) (signed y)))).
Proof.
  binary; [|case_if; [unfold is_word; lia|apply is_word_word]].
  unfold opSdiv. run_op Hs. rewrite (S256_signed x), (S256_signed y), (signed_zero y) by done.
  destruct (Z.eqb_spec y 0) as [->|Hy0]; cbn [orb]; [done|].
  assert (signed y <> 0) as Hsy by (rewrite <-Z.eqb_neq, signed_zero by done; by apply Z.eqb_neq).
  destruct (Z.eqb_spec (signed x) 0) as [->|]; [by rewrite Z.quot_0_l|].
  by rewrite U256_word, quot_abs.
Qed.

Lemma Smod_ok : computes opSmod (Binary (fun x y => if y =? 0 then 0 else word (Z.rem (signed x) (signed y)))).
Proof.
  binary; [|case_if; [unfold is_word; lia|apply is_word_word]].
  unfold opSmod. run_op Hs. rewrite (S256_signed x), (S256_signed y), (signed_zero y) by done.
  destruct (Z.eqb_spec y 0) as [->|Hy0]; [done|].
  assert (signed y <> 0) as Hsy by (rewrite <-Z.eqb_neq, signed_zero by done; by apply Z.eqb_neq).
  by rewrite U256_word, rem_abs.
Qed.

Lemma Addmod_ok : computes opAddmod (Ternary (fun x y m => if m =? 0 then 0 else (x + y) mod m)).
Proof.
  assert (forall a m, is_word m -> m <> 0 -> is_word (a mod m)) as Hm.
  { unfold is_word at 1. intros. apply is_word_mod. lia. }
  ternary; [|case_if; [unfold is_word; lia|auto]].
  unfold opAddmod. run_op Hs. unfold is_word in Hz.
  destruct (Z.ltb_spec 0 z), (Z.eqb_spec z 0); try lia; [|done]. rewrite U256_word, word_small; auto.
Qed.

Lemma Mulmod_ok : computes opMulmod (Ternary (fun x y m => if m =? 0 then 0 else (x * y) mod m)).
Proof.
  assert (forall a m, is_word m -> m <> 0 -> is_word (a mod m)) as Hm.
  { unfold is_word at 1. intros. apply is_word_mod. lia. }
  ternary; [|case_if; [unfold is_word; lia|auto]].
  unfold opMulmod. run_op Hs. unfold is_word in Hz.
  destruct (Z.ltb_spec 0 z), (Z.eqb_spec z 0); try lia; [|done]. rewrite U256_word, word_small; auto.
Qed.

Lemma Exp_op_ok : computes opExp (Binary (fun x y => word (x ^ y))).
Proof.
  binary; [|apply is_word_word]. unfold opExp. run_op Hs. pose proof Hx as Hx'. unfold is_word in Hx', Hy.
  destruct (Z.ltb_spec y 1); [replace y with 0 by lia; done|].
  destruct (Z.eqb_spec x 0) as [->|]; [by rewrite Z.pow_0_l by lia|].
  destruct (Z.eqb_spec y 1) as [->|]; [by rewrite Z.pow_1_r, word_small|].
  rewrite Exp_ok by lia. done.
Qed.

(** Comparisons. *)
Lemma Lt_ok : computes opLt (Binary (fun x y => flag (x <? y))).
Proof. binary; [unfold opLt; run_op Hs; done|apply is_word_flag]. Qed.
Lemma Gt_ok : computes opGt (Binary (fun x y => flag (y <? x))).
Proof. binary; [unfold opGt; run_op Hs; done|apply is_word_flag]. Qed.
Lemma Eq_ok : computes opEq (Binary (fun x y => flag (x =? y))).
Proof. binary; [unfold opEq; run_op Hs; done|apply is_word_flag]. Qed.

Lemma Slt_ok : computes opSlt (Binary (fun x y => flag (signed x <? signed y))).
Proof.
  binary; [|apply is_word_flag]. unfold opSlt. run_op Hs. rewrite signed_ltb by done.
  destruct ((tt255 <=? x) && (y <? tt255)); [done|]. by destruct ((x <? tt255) && (tt255 <=? y)).
Qed.

Lemma Sgt_ok : computes opSgt (Binary (fun x y => flag (signed y <? signed x))).
Proof.
  binary; [|apply is_word_flag]. unfold opSgt. run_op Hs. rewrite signed_ltb by done.
  destruct (Z.leb_spec tt255 x), (Z.leb_spec tt255 y), (Z.ltb_spec x tt255), (Z.ltb_spec y tt255); try lia; done.
Qed.

Lemma Iszero_ok : computes opIszero (Unary (fun x => flag (x =? 0))).
Proof.
  unary; [|apply is_word_flag]. unfold opIszero. run_op Hs. unfold is_word in Hx.
  destruct (Z.ltb_spec 0 x), (Z.eqb_spec x 0); try lia; done.
Qed.

(** Bits. *)
Lemma is_word_bits x : 0 <= x -> (forall i, 256 <= i -> Z.testbit x i = false) -> is_word x.
Proof.
  intros Hx Hb. split; [done|]. destruct (Z.lt_ge_cases x (2 ^ 256)) as [|Hge]; [done|].
  assert (0 < x) by lia. assert (256 <= Z.log2 x) by (apply Z.log2_le_pow2; lia).
  pose proof (Hb (Z.log2 x) ltac:(done)) as Hf. rewrite Z.bit_log2 in Hf by lia. done.
Qed.

Lemma word_high_bits x i : is_word x -> 256 <= i -> Z.testbit x i = false.
Proof.
  intros [Hx Hlt] Hi. destruct (Z.eq_dec x 0) as [->|]; [apply Z.testbit_0_l|].
  apply Z.bits_above_log2; [done|]. apply Z.lt_le_trans with 256; [|done]. apply Z.log2_lt_pow2; lia.
Qed.

Lemma And_ok : computes opAnd (Binary Z.land).
Proof.
  binary; [unfold opAnd; run_op Hs; done|]. apply is_word_bits; [apply Z.land_nonneg; left; apply Hx|].
  intros i Hi. by rewrite Z.land_spec, word_high_bits.
Qed.
Lemma Or_ok : computes opOr (Binary Z.lor).
Proof.
  binary; [unfold opOr; run_op Hs; done|]. apply is_word_bits; [apply Z.lor_nonneg; split; [apply Hx|apply Hy]|].
  intros i Hi. by rewrite Z.lor_spec, !word_high_bits.
Qed.
Lemma Xor_ok : computes opXor (Binary Z.lxor).
Proof.
  binary; [unfold opXor; run_op Hs; done|].
  apply is_word_bits; [apply Z.lxor_nonneg; split; intros _; [apply Hy|apply Hx]|].
  intros i Hi. by rewrite Z.lxor_spec, !word_high_bits.
Qed.

Lemma Not_ok : computes opNot (Unary (fun x => 2 ^ 256 - 1 - x)).
Proof.
  unary; [|unfold is_word in *; lia]. unfold opNot. run_op Hs. rewrite U256_word. unfold Z.lnot, word.
  replace (Z.pred (- x)) with (2 ^ 256 - 1 - x + (-1) * 2 ^ 256) by lia. rewrite Z.mod_add by lia.
  rewrite Z.mod_small; [done|]. unfold is_word in Hx. lia.
Qed.

Lemma Byte_op_ok : computes opByte (Binary (fun i x => if i <? 32 then x / 256 ^ (31 - i) mod 256 else 0)).
Proof.
  binary; [|case_if; [|unfold is_word; lia]; unfold is_word; pose proof (Z.mod_pos_bound (y / 256 ^ (31 - x)) 256); lia].
  unfold opByte. run_op Hs. destruct (Z.ltb_spec x 32); run_op Hs; [|done]. unfold is_word in *.
  rewrite Byte_ok, Int64_small by lia.
  replace (nth (Z.to_nat x) (Z_to_be 32 y) 0) with (y / 256 ^ (31 - x) mod 256); [done|].
  pose proof (Z_to_be_lookup 32 y (Z.to_nat x) ltac:(lia)) as Hl. rewrite (nth_lookup_Some _ _ 0 _ Hl).
  by replace (Z.of_nat (32 - 1 - Z.to_nat x)) with (31 - x) by lia.
Qed.

(** Shifts. *)
Lemma SHL_ok : computes opSHL (Binary (fun n x => if n <? 256 then word (x * 2 ^ n) else 0)).
Proof.
  binary; [|case_if; [apply is_word_word|unfold is_word; lia]].
  unfold opSHL. run_op Hs. rewrite (U256_small x), (U256_small y) by done. unfold is_word in *.
  destruct (Z.leb_spec 256 x), (Z.ltb_spec x 256); try lia; run_op Hs; [done|].
  rewrite U256_word, Uint64_small, Z.shiftl_mul_pow2 by (unfold is_u64; lia). done.
Qed.

Lemma SHR_ok : computes opSHR (Binary (fun n x => if n <? 256 then x / 2 ^ n else 0)).
Proof.
  assert (forall n x, is_word x -> 0 <= n -> is_word (x / 2 ^ n)) as Hd.
  { intros n x Hx Hn. apply is_word_div; [done|]. apply Z.pow_nonneg. lia. }
  binary; [|case_if; [apply Hd; [done|apply Hx]|unfold is_word; lia]].
  unfold opSHR. run_op Hs. rewrite (U256_small x), (U256_small y) by done. pose proof Hx as Hx'. unfold is_word in Hx'.
  destruct (Z.leb_spec 256 x), (Z.ltb_spec x 256); try lia; run_op Hs; [done|].
  rewrite Uint64_small, Z.shiftr_div_pow2 by (unfold is_u64; lia).
  rewrite U256_word, word_small; [done|]. apply Hd; [done|lia].
Qed.

Lemma SAR_ok :
  computes opSAR (Binary (fun n x => word (if n <? 256 then signed x / 2 ^ n else if x <? 2 ^ 255 then 0 else -1))).
Proof.
  binary; [|apply is_word_word]. unfold opSAR. run_op Hs. rewrite S256_signed, (U256_small x) by done.
  unfold is_word in Hx. destruct (Z.leb_spec 256 x), (Z.ltb_spec x 256); try lia; run_op Hs.
  - rewrite U256_word. replace (0 <=? signed y) with (y <? 2 ^ 255); [done|].
    unfold signed, is_word in *. change (2 ^ 256) with (2 * 2 ^ 255) in *. case_if; lia.
  - rewrite U256_word, Uint64_small, Z.shiftr_div_pow2 by (unfold is_u64; lia). done.
Qed.

(** Sign extension. *)
Lemma lnot_mod x b : 0 <= b -> Z.lnot x mod 2 ^ b = 2 ^ b - 1 - x mod 2 ^ b.
Proof.
  intros Hb. assert (0 < 2 ^ b) by (apply Z.pow_pos_nonneg; lia). unfold Z.lnot.
  pose proof (Z.div_mod x (2 ^ b) ltac:(lia)). pose proof (Z.mod_pos_bound x (2 ^ b)).
  symmetry. apply Z.mod_unique with (- (x / 2 ^ b) - 1); lia.
Qed.

Lemma lor_lnot_mask x b : 0 <= b -> Z.lor x (Z.lnot (2 ^ b - 1)) = x mod 2 ^ b - 2 ^ b.
Proof.
  intros Hb. rewrite <-(Z.lnot_involutive x) at 1. rewrite <-Z.lnot_land.
  replace (2 ^ b - 1) with (Z.ones b) by (rewrite Z.ones_equiv; lia).
  rewrite Z.land_ones, lnot_mod by lia. unfold Z.lnot. lia.
Qed.

Lemma low_bits_spec b x :
  0 <= b -> low_bits (b + 1) x = if Z.testbit x b then x mod 2 ^ b - 2 ^ b else x mod 2 ^ b.
Proof.
  intros Hb. unfold low_bits. assert (0 < 2 ^ b) by (apply Z.pow_pos_nonneg; lia).
  pose proof (Z.mod_pos_bound x (2 ^ b)).
  rewrite Z.pow_add_r, Z.rem_mul_r by lia. replace (b + 1 - 1) with b by lia.
  destruct (Z.testbit x b) eqn:Hbit; [apply Z.testbit_true in Hbit|apply Z.testbit_false in Hbit]; try done;
    change (2 ^ 1) with 2; rewrite Hbit; case_if; lia.
Qed.

Lemma SignExtend_ok :
  computes opSignExtend (Binary (fun k x => if k <? 31 then word (low_bits (8 * k + 8) x) else x)).
Proof.
  binary; [|case_if; [apply is_word_word|done]].
  unfold opSignExtend. run_op Hs. destruct (Z.ltb_spec x 31); run_op Hs; [|done]. unfold is_word in Hx.
  rewrite Uint64_small, u64_small by (unfold is_u64; lia). replace (x * 8 + 7) with (8 * x + 7) by lia.
  rewrite Z.shiftl_1_l. replace (8 * x + 8) with (8 * x + 7 + 1) by lia.
  rewrite low_bits_spec, U256_word, lor_lnot_mask by lia.
  replace (2 ^ (8 * x + 7) - 1) with (Z.ones (8 * x + 7)) by (rewrite Z.ones_equiv; lia).
  by rewrite Z.land_ones by lia.
Qed.

(** C31: in the jump table of the latest rules, every arithmetic, comparison, bit
    and shift opcode has an instruction that computes the function specified for
    it on 256-bit words, leaves words on the stack, and changes nothing else. *)
Theorem arithmetic_correct evm ph pb Run_ depth readOnly contract :
  Forall (fun '(op, sem) => exists o,
      newConstantinopleInstructionSet evm ph pb Run_ depth readOnly contract op = Some o /\ computes (execute o) sem)
    arithmetic.
Proof.
  repeat (apply Forall_cons_2; [eexists; split; [reflexivity|]; cbn [execute plain];
    auto using Add_ok, Mul_ok, Sub_ok, Div_ok, Sdiv_ok, Mod_ok, Smod_ok, Addmod_ok, Mulmod_ok, Exp_op_ok, SignExtend_ok,
      Lt_ok, Gt_ok, Slt_ok, Sgt_ok, Eq_ok, Iszero_ok, And_ok, Or_ok, Xor_ok, Not_ok, Byte_op_ok, SHL_ok, SHR_ok, SAR_ok|]).
  apply Forall_nil_2.
Qed.
End Arithmetic.
