(* ===== verification/EvmLogic.v ===== *)
(** Reasoning about the state monad of the interpreter.  A computation [keeps] a
    relation between the frame before and after it; the rules follow the structure
    of a computation, and are tried by the tactic [keeps].  [wp F m s Q] says that
    from [s] the computation [m] does not panic, that what it returns satisfies
    [Q], and that [F] holds of the frame when it fails. *)
From stdpp Require Import gmap.
From S2P Require Import Prelude GoMath Params EvmCode EvmMemory EvmState EvmInstr EvmGas EvmInterp.

Section Keeps.
Context {Hash DB : Type} `{HashFn Hash}.
Abbreviation frame := (Frame Hash DB).

(** A relation that does not look at what ordinary instructions change. *)
Class FrameRel (R : relation frame) : Prop := {
  FrameRel_preorder :: PreOrder R;
  FrameRel_pc x s : R s (set_pc x s);
  FrameRel_stack x s : R s (set_stack x s);
  FrameRel_mem x s : R s (set_mem x s);
  FrameRel_analysis x s : R s (set_analysis x s);
  FrameRel_jumpdests x s : R s (set_world (set_jumpdests x (world s)) s) }.

(** [m] relates the frames before and after it by [R], and does not run out of fuel. *)
Definition keeps (R : relation frame) {A} (m : M Hash DB A) : Prop :=
  forall s, R s (m s).2 /\ (m s).1 <> OutOfFuel.

Context (R : relation frame) `{!FrameRel R}.

Lemma keeps_ret {A} (a : A) : keeps R (ret a).
Proof. by intros s; split. Qed.
Lemma keeps_done_nil : keeps R done_nil.
Proof. apply keeps_ret. Qed.
Lemma keeps_fail {A} e : keeps R (fail (A := A) e).
Proof. by intros s; split. Qed.
Lemma keeps_panic {A} : keeps R (panic (A := A)).
Proof. by intros s; split. Qed.
Lemma keeps_get {A} (f : frame -> A) : keeps R (get f).
Proof. by intros s; split. Qed.

Lemma keeps_bind {A B} (m : M Hash DB A) (k : A -> M Hash DB B) :
  keeps R m -> (forall a, keeps R (k a)) -> keeps R (bind m k).
Proof.
  intros Hm Hk s. unfold bind. specialize (Hm s).
  destruct (m s) as [[a| | |] s']; simpl in *; destruct Hm as [Hm ?]; try done.
  destruct (Hk a s') as [Hk' ?]. split; [by etrans|done].
Qed.

Lemma keeps_if {A} (b : bool) (m1 m2 : M Hash DB A) :
  keeps R m1 -> keeps R m2 -> keeps R (if b then m1 else m2).
Proof. by destruct b. Qed.

Lemma keeps_lift {A} (o : option A) : keeps R (lift o).
Proof. destruct o; [apply keeps_ret|apply keeps_panic]. Qed.
Lemma keeps_lift_err {A} e (o : option A) : keeps R (lift_err e o).
Proof. destruct o; [apply keeps_ret|apply keeps_fail]. Qed.
Lemma keeps_modify f : (forall s, R s (f s)) -> keeps R (modify f).
Proof. intros Hf s. by split; [apply Hf|]. Qed.

Lemma keeps_push x : keeps R (push x).
Proof. apply keeps_modify. intros. apply FrameRel_stack. Qed.
Lemma keeps_pop : keeps R pop.
Proof. intros s. unfold pop. destruct (stack s); split; try done. apply FrameRel_stack. Qed.
Lemma keeps_peek : keeps R peek.
Proof. intros s. unfold peek. destruct (stack s); by split. Qed.
Lemma keeps_assign x : keeps R (assign x).
Proof. intros s. unfold assign. destruct (stack s); split; try done. apply FrameRel_stack. Qed.
Lemma keeps_Back n : keeps R (Back n).
Proof. apply keeps_bind; [apply keeps_get|intros; apply keeps_lift]. Qed.
Lemma keeps_dup n : keeps R (dup n).
Proof.
  apply keeps_bind; [apply keeps_get|intros]. apply keeps_bind; [apply keeps_lift|intros]. apply keeps_push.
Qed.
Lemma keeps_swap n : keeps R (swap n).
Proof.
  apply keeps_bind; [apply keeps_get|intros]. do 2 (apply keeps_bind; [apply keeps_lift|intros]).
  apply keeps_modify. intros. apply FrameRel_stack.
Qed.
Lemma keeps_memory_Set a b c : keeps R (memory_Set a b c).
Proof.
  apply keeps_bind; [apply keeps_get|intros]. apply keeps_bind; [apply keeps_lift|intros].
  apply keeps_modify. intros. apply FrameRel_mem.
Qed.
Lemma keeps_checked r : keeps R (checked r).
Proof. unfold checked. destruct r.2; [apply keeps_fail|apply keeps_ret]. Qed.
Lemma keeps_memoryGas size : keeps R (memoryGas size).
Proof.
  apply keeps_bind; [apply keeps_get|intros]. apply keeps_bind; [apply keeps_lift_err|intros].
  apply keeps_bind; [apply keeps_modify; intros; apply FrameRel_mem|intros]. apply keeps_ret.
Qed.
Lemma keeps_pop_topics n : keeps R (pop_topics n).
Proof.
  induction n as [|n IH]; [apply keeps_ret|].
  apply keeps_bind; [apply keeps_pop|intros]. apply keeps_bind; [apply IH|intros]. apply keeps_ret.
Qed.

Lemma keeps_validJumpdest c dest : keeps R (validJumpdest c dest).
Proof.
  unfold validJumpdest. apply keeps_if; [apply keeps_ret|].
  apply keeps_bind; [apply keeps_lift|intros op]. apply keeps_if; [apply keeps_ret|].
  apply keeps_if; (apply keeps_bind; [apply keeps_get|intros cached]);
    (apply keeps_bind; [|intros; apply keeps_lift]).
  - destruct (cached !! _); [apply keeps_ret|].
    apply keeps_bind; [apply keeps_lift|intros]. apply keeps_bind; [|intros; apply keeps_ret].
    apply keeps_modify. intros. apply FrameRel_jumpdests.
  - destruct cached; [apply keeps_ret|].
    apply keeps_bind; [apply keeps_lift|intros]. apply keeps_bind; [|intros; apply keeps_ret].
    apply keeps_modify. intros. apply FrameRel_analysis.
Qed.
End Keeps.

Create HintDb keeps.
#[export] Hint Resolve keeps_ret keeps_done_nil keeps_fail keeps_panic keeps_get keeps_lift keeps_lift_err keeps_push
  keeps_pop keeps_peek keeps_assign keeps_Back keeps_dup keeps_swap keeps_memory_Set keeps_checked
  keeps_memoryGas keeps_pop_topics keeps_validJumpdest : keeps.

Ltac frame_rel :=
  intros; first
    [ reflexivity | apply FrameRel_pc | apply FrameRel_stack | apply FrameRel_mem
    | apply FrameRel_analysis | apply FrameRel_jumpdests ].

(** Split a computation along its structure; the goals that remain are its
    changes of the database. *)
Ltac keeps :=
  repeat first
    [ solve [eauto with keeps typeclass_instances]
    | refine (keeps_bind _ _ _ _ _); [|intro]
    | apply keeps_if
    | apply keeps_modify; solve [frame_rel] ].

(** * Weakest preconditions *)
Section Wp.
Context {Hash DB : Type} `{HashFn Hash}.
Abbreviation frame := (Frame Hash DB).
Variable F : frame -> Prop.

Definition wp {A} (m : M Hash DB A) (s : frame) (Q : A -> frame -> Prop) : Prop :=
  match m s with
  | (Ret a, s') => Q a s'
  | (Fail _, s') => F s'
  | (Panicked, _) => False
  | (OutOfFuel, _) => True
  end.

Lemma wp_ret {A} (a : A) s Q : Q a s -> wp (ret a) s Q.
Proof. done. Qed.
Lemma wp_fail {A} e s (Q : A -> frame -> Prop) : F s -> wp (fail e) s Q.
Proof. done. Qed.
Lemma wp_get {A} (f : frame -> A) s Q : Q (f s) s -> wp (get f) s Q.
Proof. done. Qed.
Lemma wp_modify f s Q : Q tt (f s) -> wp (modify f) s Q.
Proof. done. Qed.

Lemma wp_bind {A B} (m : M Hash DB A) (k : A -> M Hash DB B) s Q :
  wp m s (fun a s' => wp (k a) s' Q) -> wp (bind m k) s Q.
Proof. unfold wp, bind. by destruct (m s) as [[a|e| |] s']. Qed.

Lemma wp_mono {A} (m : M Hash DB A) s (Q Q' : A -> frame -> Prop) :
  wp m s Q -> (forall a s', Q a s' -> Q' a s') -> wp m s Q'.
Proof. unfold wp. destruct (m s) as [[a|e| |] s']; auto. Qed.

Lemma wp_lift {A} (o : option A) s (Q : A -> frame -> Prop) : (exists a, o = Some a /\ Q a s) -> wp (lift o) s Q.
Proof. intros (a & -> & Ha). done. Qed.
Lemma wp_lift_err {A} e (o : option A) s (Q : A -> frame -> Prop) :
  F s -> (forall a, o = Some a -> Q a s) -> wp (lift_err e o) s Q.
Proof. intros HF HQ. destruct o; [by apply HQ|done]. Qed.
Lemma wp_checked r s Q : F s -> (r.2 = false -> Q r.1 s) -> wp (checked r) s Q.
Proof. intros HF HQ. unfold checked. destruct r.2; [done|by apply HQ]. Qed.

Lemma wp_push x s Q : Q tt (set_stack (x :: stack s) s) -> wp (push x) s Q.
Proof. done. Qed.
Lemma wp_pop x rest s Q : stack s = x :: rest -> Q x (set_stack rest s) -> wp pop s Q.
Proof. unfold wp, pop. by intros ->. Qed.
Lemma wp_peek x rest s Q : stack s = x :: rest -> Q x s -> wp peek s Q.
Proof. unfold wp, peek. by intros ->. Qed.
Lemma wp_assign v x rest s Q : stack s = x :: rest -> Q tt (set_stack (v :: rest) s) -> wp (assign v) s Q.
Proof. unfold wp, assign. by intros ->. Qed.
Lemma wp_Back n x s Q : stack s !! n = Some x -> Q x s -> wp (Back n) s Q.
Proof. unfold wp, Back, bind, get, lift. by intros ->. Qed.
Lemma wp_UseGas g s Q :
  (gas s < g -> Q false s) -> (g <= gas s -> Q true (set_gas (gas s - g) s)) -> wp (UseGas g) s Q.
Proof. unfold wp, UseGas. intros. destruct (Z.ltb_spec (gas s) g); auto. Qed.
Lemma wp_returnGas g s Q : Q tt (set_gas (u64 (gas s + g)) s) -> wp (returnGas g) s Q.
Proof. done. Qed.
Lemma wp_attempt {A} (m : M Hash DB A) s Q :
  match m s with
  | (Ret a, s') => Q (inl a) s'
  | (Fail e, s') => Q (inr e) s'
  | (Panicked, _) => False
  | (OutOfFuel, _) => True
  end -> wp (attempt m) s Q.
Proof. unfold wp, attempt. by destruct (m s) as [[a|e| |] s']. Qed.
Lemma wp_call_world {A} (f : World Hash DB -> vres A * World Hash DB) s Q :
  match f (world s) with
  | (Ret a, w) => Q a (set_world w s)
  | (Fail _, w) => F (set_world w s)
  | (Panicked, _) => False
  | (OutOfFuel, _) => True
  end -> wp (call_world f) s Q.
Proof. unfold wp, call_world. by destruct (f (world s)) as [[a|e| |] w]. Qed.
End Wp.

(** One step of symbolic execution; the stack must be known where it is read. *)
Ltac wp_step :=
  match goal with
  | |- wp _ (bind _ _) _ _ => apply wp_bind
  | |- wp _ (ret _) _ _ => apply wp_ret
  | |- wp _ done_nil _ _ => apply wp_ret
  | |- wp _ (get _) _ _ => apply wp_get
  | |- wp _ getDB _ _ => apply wp_get
  | |- wp _ (modify _) _ _ => apply wp_modify
  | |- wp _ (modifyDB _) _ _ => apply wp_modify
  | |- wp _ (modifyWorld _) _ _ => apply wp_modify
  | |- wp _ (putDB _) _ _ => apply wp_modify
  | |- wp _ (push _) _ _ => apply wp_push
  | |- wp _ pop _ _ => eapply wp_pop; [cbn [stack set_stack set_mem set_gas set_world]; eassumption || reflexivity|]
  | |- wp _ peek _ _ => eapply wp_peek; [cbn [stack set_stack set_mem set_gas set_world]; eassumption || reflexivity|]
  | |- wp _ (assign _) _ _ => eapply wp_assign; [cbn [stack set_stack set_mem set_gas set_world]; eassumption || reflexivity|]
  | |- wp _ (if ?b then _ else _) _ _ => let E := fresh "E" in destruct b eqn:E
  end.
