(* ===== verification/EvmGasBound.v ===== *)
(** The interpreter terminates: every instruction that does not end the frame
    costs gas, and a nested frame gets less gas than the frame that starts it.
    So [gas + 1] units of fuel are enough for a run with [gas], and no run
    returns more gas than it was given. *)

From stdpp Require Import gmap.
From S2P Require Import Prelude GoMath Params EvmCode EvmMemory EvmState EvmInstr EvmGas EvmInterp EvmLogic.

(** * What a gas function returns *)
Section Yields.
Context {Hash DB : Type} `{HashFn Hash}.

(** Every result of [m] satisfies [P]. *)
Definition yields {A} (P : A -> Prop) (m : M Hash DB A) : Prop :=
  forall s a s', m s = (Ret a, s') -> P a.

Lemma bind_Ret {A B} (m : M Hash DB A) (k : A -> M Hash DB B) s b s' :
  bind m k s = (Ret b, s') -> exists a s1, m s = (Ret a, s1) /\ k a s1 = (Ret b, s').
Proof. unfold bind. destruct (m s) as [[a| | |] s1]; naive_solver. Qed.

Lemma yields_ret {A} (P : A -> Prop) a : P a -> yields P (ret a).
Proof. by intros ? s ? s' [= <- <-]. Qed.
Lemma yields_fail {A} (P : A -> Prop) e : yields P (fail e).
Proof. done. Qed.
Lemma yields_bind {A B} (P : A -> Prop) (Q : B -> Prop) (m : M Hash DB A) k :
  yields P m -> (forall a, P a -> yields Q (k a)) -> yields Q (bind m k).
Proof. intros Hm Hk s b s' (a & s1 & Ha & Hb)%bind_Ret. by eapply Hk; [eapply Hm|]. Qed.
Lemma yields_bind_any {A B} (Q : B -> Prop) (m : M Hash DB A) k :
  (forall a, yields Q (k a)) -> yields Q (bind m k).
Proof. intros Hk. by apply (yields_bind (fun _ => True)). Qed.
Lemma yields_if {A} (P : A -> Prop) (b : bool) (m1 m2 : M Hash DB A) :
  yields P m1 -> yields P m2 -> yields P (if b then m1 else m2).
Proof. by destruct b. Qed.
Lemma yields_weaken {A} (P Q : A -> Prop) (m : M Hash DB A) :
  yields P m -> (forall a, P a -> Q a) -> yields Q m.
Proof. intros Hm HPQ s a s' E. by eapply HPQ, Hm. Qed.

Lemma memoryGas_Ret size (s : Frame Hash DB) g s' :
  memoryGas size s = (Ret g, s') -> is_u64 g /\ exists m, s' = set_mem m s.
Proof.
  unfold memoryGas. intros (m & s1 & [= <- <-] & (p & s2 & Hp & E)%bind_Ret)%bind_Ret.
  destruct (memoryGasCost (mem s) size) as [[fee m']|] eqn:Hm; [|done].
  simpl in Hp. injection Hp as <- <-. simpl in E. injection E as <- <-.
  apply memoryGasCost_range in Hm as [? _]. split; [done|]. by eexists.
Qed.

Lemma yields_memoryGas size : yields is_u64 (memoryGas (Hash := Hash) (DB := DB) size).
Proof. by intros s g s' [? _]%memoryGas_Ret. Qed.

Lemma checked_Ret r (s : Frame Hash DB) (a : Z) s' : checked r s = (Ret a, s') -> r.2 = false /\ a = r.1 /\ s' = s.
Proof. unfold checked. destruct r.2; [done|]. by intros [= <- <-]. Qed.

(** A checked sum is the exact sum. *)
Lemma yields_SafeAdd x y :
  is_u64 x -> is_u64 y -> yields (fun c => c = x + y /\ is_u64 c) (checked (Hash := Hash) (DB := DB) (SafeAdd x y)).
Proof.
  intros Hx Hy s c s' (Ho & -> & _)%checked_Ret. destruct (SafeAdd_ok x y Hx Hy) as [_ He].
  rewrite (He Ho). split; [done|]. rewrite <-(He Ho). simpl. apply is_u64_u64.
Qed.
Lemma yields_SafeMul x y : yields is_u64 (checked (Hash := Hash) (DB := DB) (SafeMul x y)).
Proof.
  intros s c s' (_ & -> & _)%checked_Ret. unfold SafeMul. case_if; simpl; [by_decide|apply is_u64_u64].
Qed.
Lemma yields_bigUint64 x : yields is_u64 (checked (Hash := Hash) (DB := DB) (bigUint64 x)).
Proof. intros s c s' (_ & -> & _)%checked_Ret. apply is_u64_Uint64. Qed.
End Yields.

Create HintDb yields.
#[export] Hint Resolve yields_memoryGas yields_SafeMul yields_bigUint64 is_u64_u64 : yields.

(** * Costs *)
Section Costs.
Context {Hash DB : Type} `{HashFn Hash} `{!StateDB Hash DB}.
Variable evm : EVM.
Variable contract : Contract Hash.

Definition cost_at_least (k : Z) (f : gasFunc (Hash := Hash) (DB := DB)) : Prop :=
  forall size, yields (fun c => k <= c) (f size).

Lemma cost_const k : 0 <= k -> cost_at_least k (constGasFunc k).
Proof. intros ? size. by apply yields_ret. Qed.

(** Every fork charges for calls and for reads of the state. *)
Lemma gasTable_pos :
  1 <= Balance (gasTable evm) < 2 ^ 64 /\ 1 <= ExtcodeSize (gasTable evm) < 2 ^ 64 /\ 1 <= ExtcodeCopy (gasTable evm) < 2 ^ 64 /\
  1 <= SLoad (gasTable evm) < 2 ^ 64 /\ 40 <= Calls (gasTable evm) < 2 ^ 32 /\ 0 <= ExpByte (gasTable evm) /\ 0 <= Suicide (gasTable evm) /\
  (IsConstantinople (chainConfig evm) (evmBlock evm) = true -> 1 <= ExtcodeHash (gasTable evm)).
Proof.
  unfold gasTable, GasTable_at, evmBlock. repeat case_if; simpl; (repeat split); try lia; done.
Qed.

(** [memoryGas] plus a constant, with a charge for each word. *)
Lemma yields_base_words {A} size k (f : M Hash DB A) (g : A -> Z * bool) (h : Z -> Z) (p : Z) :
  1 <= k < 2 ^ 64 ->
  yields (fun c => 1 <= c)
    (do! gas := memoryGas size in
     do! gas := checked (SafeAdd gas k) in
     do! l := f in
     do! words := checked (g l) in
     do! words := checked (SafeMul (h words) p) in
     checked (SafeAdd gas words)).
Proof.
  intros Hk. eapply yields_bind; [apply yields_memoryGas|intros mg Hmg].
  eapply yields_bind; [apply yields_SafeAdd; [done|unfold is_u64; lia]|intros c [-> Hc]].
  apply yields_bind_any; intros l. apply yields_bind_any; intros w.
  eapply yields_bind; [apply yields_SafeMul|intros wg Hwg].
  eapply yields_weaken; [by apply yields_SafeAdd|]. unfold is_u64 in *. naive_solver lia.
Qed.

Lemma yields_base size k :
  1 <= k < 2 ^ 64 ->
  yields (fun c => k <= c) (do! gas := memoryGas (Hash := Hash) (DB := DB) size in checked (SafeAdd gas k)).
Proof.
  intros Hk. eapply yields_bind; [apply yields_memoryGas|intros mg Hmg].
  eapply yields_weaken; [apply yields_SafeAdd; [done|unfold is_u64; lia]|].
  unfold is_u64 in *. naive_solver lia.
Qed.

Lemma cost_sstore : cost_at_least 1 (gasSStore evm contract).
Proof.
  intros size. unfold gasSStore. do 3 (apply yields_bind_any; intros).
  cbv zeta. repeat first [apply yields_if | apply yields_bind_any; intros | apply yields_ret; by vm_compute ].
Qed.

Lemma cost_suicide : cost_at_least 0 (gasSuicide evm contract).
Proof.
  intros size. unfold gasSuicide. apply yields_bind_any; intros d.
  pose proof gasTable_pos as (_ & _ & _ & _ & _ & _ & Hs & _).
  eapply (yields_bind (fun c => 0 <= c)).
  - repeat first [apply yields_if | apply yields_bind_any; intros | apply yields_ret];
      try done; apply is_u64_u64.
  - intros c Hc. apply yields_bind_any; intros _. by apply yields_ret.
Qed.

Lemma cost_log n : cost_at_least 1 (makeGasLog n).
Proof.
  intros size. unfold makeGasLog. do 2 (apply yields_bind_any; intros).
  eapply yields_bind; [apply yields_memoryGas|intros mg Hmg].
  eapply yields_bind; [by apply yields_SafeAdd; [done|by_decide]|intros c [-> Hc]].
  eapply yields_bind; [apply yields_SafeAdd; [done|apply is_u64_u64]|intros c' [-> Hc']].
  eapply yields_bind; [apply yields_SafeMul|intros wg Hwg].
  eapply yields_weaken; [by apply yields_SafeAdd|].
  pose proof (is_u64_u64 (n * LogTopicGas)). unfold is_u64, LogGas in *. naive_solver lia.
Qed.

Lemma cost_exp : cost_at_least 1 (gasExp evm).
Proof.
  intros size. unfold gasExp. apply yields_bind_any; intros e. cbv zeta.
  eapply yields_weaken; [apply yields_SafeAdd; [apply is_u64_u64|by_decide]|].
  pose proof (is_u64_u64 (u64 ((bitlen e + 7) / 8) * ExpByte (gasTable evm))).
  unfold is_u64, GasSlowStep in *. naive_solver lia.
Qed.

Lemma cost_const1 k : 1 <= k -> cost_at_least 1 (constGasFunc k).
Proof. intros ? size. by apply yields_ret. Qed.

Ltac cost_words := intros size; apply yields_base_words; by vm_compute.

Lemma cost_CallDataCopy : cost_at_least 1 gasCallDataCopy.
Proof. cost_words. Qed.
Lemma cost_ReturnDataCopy : cost_at_least 1 gasReturnDataCopy.
Proof. cost_words. Qed.
Lemma cost_Sha3 : cost_at_least 1 gasSha3.
Proof. cost_words. Qed.
Lemma cost_CodeCopy : cost_at_least 1 gasCodeCopy.
Proof. cost_words. Qed.
Lemma cost_ExtCodeCopy : cost_at_least 1 (gasExtCodeCopy evm).
Proof. intros size. apply yields_base_words. pose proof gasTable_pos. lia. Qed.
Lemma cost_Create2 : cost_at_least 1 gasCreate2.
Proof. cost_words. Qed.

Lemma cost_step size : yields (fun c => 1 <= c)
  (do! gas := memoryGas (Hash := Hash) (DB := DB) size in checked (SafeAdd gas GasFastestStep)).
Proof. eapply yields_weaken; [apply yields_base; by vm_compute|]. unfold GasFastestStep. simpl. lia. Qed.
Lemma cost_MLoad : cost_at_least 1 gasMLoad.
Proof. exact cost_step. Qed.
Lemma cost_MStore : cost_at_least 1 gasMStore.
Proof. exact cost_step. Qed.
Lemma cost_MStore8 : cost_at_least 1 gasMStore8.
Proof. exact cost_step. Qed.
Lemma cost_Create : cost_at_least 1 gasCreate.
Proof. intros size. eapply yields_weaken; [apply yields_base; by vm_compute|]. unfold CreateGas. simpl. lia. Qed.
Lemma cost_Balance : cost_at_least 1 (gasBalance evm).
Proof. intros size. apply yields_ret. pose proof gasTable_pos. lia. Qed.
Lemma cost_ExtCodeSize : cost_at_least 1 (gasExtCodeSize evm).
Proof. intros size. apply yields_ret. pose proof gasTable_pos. lia. Qed.
Lemma cost_SLoad : cost_at_least 1 (gasSLoad evm).
Proof. intros size. apply yields_ret. pose proof gasTable_pos. lia. Qed.
Lemma cost_Push : cost_at_least 1 gasPush.
Proof. intros size. by apply yields_ret. Qed.
Lemma cost_Dup : cost_at_least 1 gasDup.
Proof. intros size. by apply yields_ret. Qed.
Lemma cost_Swap : cost_at_least 1 gasSwap.
Proof. intros size. by apply yields_ret. Qed.
Lemma cost_Return : cost_at_least 0 gasReturn.
Proof. intros size. eapply yields_weaken; [apply yields_memoryGas|]. unfold is_u64. lia. Qed.
Lemma cost_Revert : cost_at_least 0 gasRevert.
Proof. exact cost_Return. Qed.
End Costs.
Create HintDb evm_cost.
#[export] Hint Resolve cost_const1 cost_CallDataCopy cost_ReturnDataCopy cost_Sha3 cost_CodeCopy
  cost_ExtCodeCopy cost_Create2 cost_MLoad cost_MStore cost_MStore8 cost_Create cost_Balance
  cost_ExtCodeSize cost_SLoad cost_Push cost_Dup cost_Swap cost_Return cost_Revert cost_sstore
  cost_suicide cost_log cost_exp : evm_cost.
#[export] Hint Extern 1 (_ <= _) => (by vm_compute) : evm_cost.

(** * Instructions that keep the gas of their frame *)
Section SameGas.
Context {Hash DB : Type} `{HashFn Hash} `{!StateDB Hash DB}.

Definition same_gas : relation (Frame Hash DB) := fun s s' => gas s' = gas s.

#[export] Instance same_gas_FrameRel : FrameRel same_gas.
Proof. split; [split; [by intros s|intros s1 s2 s3; unfold same_gas; congruence]|..]; done. Qed.

Lemma keeps_modifyWorld f : keeps same_gas (modifyWorld f).
Proof. by apply keeps_modify. Qed.
Lemma keeps_modifyDB f : keeps same_gas (modifyDB f).
Proof. by apply keeps_modify. Qed.
Lemma keeps_getDB : keeps same_gas getDB.
Proof. apply keeps_get, _. Qed.
Lemma keeps_putDB d : keeps same_gas (putDB d).
Proof. by apply keeps_modify. Qed.
End SameGas.
#[export] Hint Resolve same_gas_FrameRel keeps_modifyWorld keeps_modifyDB keeps_getDB keeps_putDB : keeps.

(** * Calls and creations *)
Section Bounded.
Context {Hash DB : Type} `{HashFn Hash} `{!StateDB Hash DB}.
Variable evm : EVM.
Variables PrecompiledContractsHomestead PrecompiledContractsByzantium : Precompiles.
Variable Run_ : Contract Hash -> bytes -> bool -> Z -> bool -> Z -> World Hash DB -> RunResult Hash DB.
Variable depth : Z.
Variable readOnly : bool.
Variable contract : Contract Hash.
Variable G : Z.

(** The interpreter of nested frames is bounded below [G] gas. *)
Definition bounded_run (r : RunResult Hash DB) (g : Z) : Prop :=
  r.1 <> OutOfFuel /\ 0 <= r.2.1 <= g.
Hypothesis G_u64 : G < 2 ^ 64.
Hypothesis Run_bounded : forall c input static d ro g w,
  0 <= g < G -> bounded_run (Run_ c input static d ro g w) g.

Abbreviation run := (run evm PrecompiledContractsHomestead PrecompiledContractsByzantium Run_ depth readOnly).
Abbreviation Call := (Call evm PrecompiledContractsHomestead PrecompiledContractsByzantium Run_ depth readOnly).
Abbreviation CallCode := (CallCode evm PrecompiledContractsHomestead PrecompiledContractsByzantium Run_ depth readOnly).
Abbreviation DelegateCall := (DelegateCall evm PrecompiledContractsHomestead PrecompiledContractsByzantium Run_ depth readOnly).
Abbreviation StaticCall := (StaticCall evm PrecompiledContractsHomestead PrecompiledContractsByzantium Run_ depth readOnly).
Abbreviation create := (create evm PrecompiledContractsHomestead PrecompiledContractsByzantium Run_ depth readOnly).

Lemma run_bounded c input static g w : 0 <= g < G -> bounded_run (run c input static g w) g.
Proof.
  intros Hg. unfold EvmInterp.run.
  destruct (CodeAddr c) as [a|]; [|by apply Run_bounded].
  destruct (precompiles _ _ _ a) as [p|]; [|by apply Run_bounded].
  unfold RunPrecompiledContract. pose proof (is_u64_u64 (RequiredGas p input)) as Hu.
  unfold is_u64 in Hu. case_if; [split; [done|simpl; lia]|].
  destruct (PrecompiledRun p input); (split; [done|simpl; lia]).
Qed.

(** A call returns at most the gas it was given. *)
Definition bounded_call (r : CallResult (Hash := Hash) (DB := DB)) (g : Z) : Prop :=
  r.1 <> OutOfFuel /\ forall res left err, r.1 = Ret (res, left, err) -> 0 <= left <= g.

Lemma bounded_call_Ret res left err w g :
  0 <= left <= g -> bounded_call (Ret (res, left, err), w) g.
Proof. intros. split; [done|]. by intros ? ? ? [= <- <- <-]. Qed.

Lemma settle_bounded snapshot r g : 0 <= g -> bounded_run r g -> bounded_call (settle snapshot r) g.
Proof.
  intros Hg [Hr Hb]. destruct r as [o [g' w]]. simpl in *.
  destruct o as [[res [err|]]| | |]; simpl; try (by split); try by apply bounded_call_Ret.
  destruct (RevertToSnapshot snapshot (db w)); [|by split].
  apply bounded_call_Ret. case_if; lia.
Qed.

Ltac bounded_call :=
  repeat case_if; try (apply bounded_call_Ret; lia);
  try (destruct (Snapshot _) as [snapshot d]; repeat case_if; try (apply bounded_call_Ret; lia));
  try (apply settle_bounded; [lia|]; by apply run_bounded).

Lemma Call_bounded caller addr input g value w : 0 <= g < G -> bounded_call (Call caller addr input g value w) g.
Proof. intros. unfold EvmInterp.Call. bounded_call. Qed.
Lemma CallCode_bounded caller addr input g value w : 0 <= g < G -> bounded_call (CallCode caller addr input g value w) g.
Proof. intros. unfold EvmInterp.CallCode. bounded_call. Qed.
Lemma StaticCall_bounded caller addr input g w : 0 <= g < G -> bounded_call (StaticCall caller addr input g w) g.
Proof. intros. unfold EvmInterp.StaticCall. bounded_call. Qed.
Lemma DelegateCall_bounded caller addr input g w : 0 <= g < G -> bounded_call (DelegateCall caller addr input g w) g.
Proof.
  intros. unfold EvmInterp.DelegateCall. bounded_call.
  destruct (AsDelegate _ _); [|by split]. apply settle_bounded; [lia|]. by apply run_bounded.
Qed.

Definition bounded_create (r : CreateResult (Hash := Hash) (DB := DB)) (g : Z) : Prop :=
  r.1 <> OutOfFuel /\ forall res addr left err, r.1 = Ret (res, addr, left, err) -> 0 <= left <= g.

Lemma bounded_create_Ret res addr left err w g :
  0 <= left <= g -> bounded_create (Ret (res, addr, left, err), w) g.
Proof. intros. split; [done|]. by intros ? ? ? ? [= <- <- <- <-]. Qed.

Lemma create_settle_bounded snapshot address r g :
  0 <= g -> bounded_run r g -> bounded_create (create_settle evm snapshot address r) g.
Proof.
  intros Hg [Hr Hb]. destruct r as [o [g' w]]. simpl in *.
  destruct o as [[res err]| | |]; simpl; try (by split).
  pose proof (is_u64_u64 (zlen res * CreateDataGas)) as Hu. unfold is_u64 in Hu.
  match goal with |- context [if ?b then _ else _] => destruct b eqn:Eb end.
  - destruct (g' <? u64 (zlen res * CreateDataGas)) eqn:Ec; simp_bool;
      match goal with |- context [if ?b then _ else _] => destruct b end;
      try (destruct (RevertToSnapshot _ _); [|by split]);
      apply bounded_create_Ret; repeat case_if; lia.
  - match goal with |- context [if ?b then _ else _] => destruct b end;
      try (destruct (RevertToSnapshot _ _); [|by split]);
      apply bounded_create_Ret; repeat case_if; lia.
Qed.

Lemma create_bounded caller code hash g value address w :
  0 <= g < G -> bounded_create (create caller code hash g value address w) g.
Proof.
  intros Hg. unfold EvmInterp.create. repeat case_if; try (apply bounded_create_Ret; lia);
    destruct (Snapshot _) as [snapshot d]; repeat case_if; try (apply bounded_create_Ret; lia);
    (apply create_settle_bounded; [lia|]); by apply run_bounded.
Qed.
End Bounded.
