(* ===== verification/EvmTermination.v ===== *)
(** Termination of the interpreter: each round of the loop that goes on leaves
    less gas than it found, and starts nested frames with less gas. *)

From stdpp Require Import gmap.
From S2P Require Import Prelude GoMath Params EvmCode EvmMemory EvmState EvmInstr EvmGas EvmInterp EvmLogic EvmGasBound.

(** * What the gas functions of the calls leave behind *)
Section CallCosts.
Context {Hash DB : Type} `{HashFn Hash} `{!StateDB Hash DB}.
Variable evm : EVM.

Lemma callGas_u64 gt available base requested t :
  callGas gt available base requested = Some t -> is_u64 t.
Proof.
  unfold callGas. repeat case_if; intros [= <-]; auto using is_u64_u64, is_u64_Uint64.
Qed.

Lemma charge_call_Ret b (s : Frame Hash DB) c s' :
  is_u64 b -> charge_call evm b s = (Ret c, s') ->
  exists t, is_u64 t /\ c = b + t /\ s' = set_world (set_callGasTemp t (world s)) s.
Proof.
  intros Hb. unfold charge_call.
  intros (av & s1 & [= <- <-] & (req & s2 & Hreq & E)%bind_Ret)%bind_Ret.
  unfold Back in Hreq. apply bind_Ret in Hreq as (st & s3 & [= <- <-] & Hl).
  destruct (stack s !! 0%nat); [|done]. injection Hl as <- <-.
  destruct (callGas _ _ _ _) as [t|] eqn:Ht; [|done]. apply callGas_u64 in Ht.
  apply bind_Ret in E as ([] & s4 & [= <-] & E).
  destruct (checked_Ret _ _ _ _ E) as (_ & _ & ->).
  destruct (yields_SafeAdd b t Hb Ht _ _ _ E) as [-> _]. by exists t.
Qed.

(** A call function that charges at least [k], and [CallValueTransferGas] more
    for a transfer, leaves this. *)
Definition call_charged (s : Frame Hash DB) (k c : Z) (s' : Frame Hash DB) : Prop :=
  exists t m, is_u64 t /\ s' = set_world (set_callGasTemp t (world s)) (set_mem m s) /\ k + t <= c.

Lemma call_end b k (s : Frame Hash DB) size c s' :
  is_u64 b -> k <= b ->
  (do! mg := memoryGas size in do! gas := checked (SafeAdd b mg) in charge_call evm gas) s = (Ret c, s') ->
  call_charged s k c s'.
Proof.
  intros Hb Hk (mg & s1 & Hmg & (g & s2 & Hg & E)%bind_Ret)%bind_Ret.
  apply memoryGas_Ret in Hmg as (Hmg & m & ->).
  destruct (checked_Ret _ _ _ _ Hg) as (_ & _ & ->).
  destruct (yields_SafeAdd b mg Hb Hmg _ _ _ Hg) as [-> Hu].
  destruct (charge_call_Ret _ _ _ _ Hu E) as (t & Ht & -> & ->).
  exists t, m. split; [done|]. split; [done|]. unfold is_u64 in *. lia.
Qed.

Lemma Back_Ret n (s : Frame Hash DB) x s' : Back n s = (Ret x, s') -> stack s !! n = Some x /\ s' = s.
Proof.
  unfold Back. intros (st & s1 & [= <- <-] & E)%bind_Ret.
  destruct (stack s !! n); [|done]. by injection E as <- <-.
Qed.

Definition transfer_cost (v : Z) : Z := if v =? 0 then 0 else CallValueTransferGas.

Lemma gasCall_Ret size (s : Frame Hash DB) c s' :
  gasCall evm size s = (Ret c, s') ->
  exists v, stack s !! 2%nat = Some v /\ call_charged s (40 + transfer_cost v) c s'.
Proof.
  unfold gasCall. intros (v & s1 & Hv & (a & s2 & Ha & (d & s3 & [= <- <-] & E)%bind_Ret)%bind_Ret)%bind_Ret.
  apply Back_Ret in Hv as [Hv ->]. apply Back_Ret in Ha as [Ha ->].
  exists v. split; [done|]. revert E. cbv zeta. pose proof (gasTable_pos evm) as (_ & _ & _ & _ & HC & _).
  unfold transfer_cost, CallNewAccountGas, CallValueTransferGas.
  destruct (Z.eqb_spec v 0); cbn [negb andb]; repeat case_if; apply call_end;
    rewrite ?u64_small; unfold is_u64; rewrite ?u64_small; unfold is_u64; lia.
Qed.

Lemma gasCallCode_Ret size (s : Frame Hash DB) c s' :
  gasCallCode evm size s = (Ret c, s') ->
  exists v, stack s !! 2%nat = Some v /\ call_charged s (40 + transfer_cost v) c s'.
Proof.
  unfold gasCallCode. intros (v & s1 & Hv & E)%bind_Ret. apply Back_Ret in Hv as [Hv ->].
  exists v. split; [done|]. revert E. cbv zeta. pose proof (gasTable_pos evm) as (_ & _ & _ & _ & HC & _).
  unfold transfer_cost, CallValueTransferGas.
  destruct (Z.eqb_spec v 0); cbn [negb]; apply call_end; rewrite ?u64_small; unfold is_u64; lia.
Qed.

Lemma plain_call_Ret size (s : Frame Hash DB) c s' :
  (do! gas := memoryGas size in do! gas := checked (SafeAdd gas (Calls (gasTable evm))) in
   charge_call evm gas) s = (Ret c, s') -> call_charged s 40 c s'.
Proof.
  pose proof (gasTable_pos evm) as (_ & _ & _ & _ & HC & _).
  intros (mg & s1 & Hmg & (g & s2 & Hg & E)%bind_Ret)%bind_Ret.
  apply memoryGas_Ret in Hmg as (Hmg & m & ->).
  destruct (checked_Ret _ _ _ _ Hg) as (_ & _ & ->).
  destruct (yields_SafeAdd mg (Calls (gasTable evm)) Hmg ltac:(unfold is_u64; lia) _ _ _ Hg) as [-> Hu].
  destruct (charge_call_Ret _ _ _ _ Hu E) as (t & Ht & -> & ->).
  exists t, m. split; [done|]. split; [done|]. unfold is_u64 in *. lia.
Qed.
End CallCosts.

Section Operations.
Context {Hash DB : Type} `{HashFn Hash} `{!StateDB Hash DB}.
Variable evm : EVM.
Variables PrecompiledContractsHomestead PrecompiledContractsByzantium : Precompiles.
Variable Run_ : Contract Hash -> bytes -> bool -> Z -> bool -> Z -> World Hash DB -> RunResult Hash DB.
Variable depth : Z.
Variable readOnly : bool.
Variable contract : Contract Hash.
Variable G : Z.
Hypothesis G_u64 : G < 2 ^ 64.
Hypothesis Run_bounded : forall c input static d ro g w,
  0 <= g < G -> bounded_run (Run_ c input static d ro g w) g.

(** From [s], [m] ends with at most [B] gas and does not run out of fuel. *)
Definition gas_post {A} (m : M Hash DB A) (s : Frame Hash DB) (B : Z) : Prop :=
  (m s).1 <> OutOfFuel /\ 0 <= gas (m s).2 <= B.

Lemma gas_post_keeps {A} (m : M Hash DB A) s B : keeps same_gas m -> 0 <= gas s <= B -> gas_post m s B.
Proof. intros Hm HB. destruct (Hm s) as [Hg ?]. split; [done|]. by rewrite Hg. Qed.

Lemma gas_post_bind {A C} (m : M Hash DB A) (k : A -> M Hash DB C) s B :
  keeps same_gas m -> 0 <= gas s <= B ->
  (forall a s1, m s = (Ret a, s1) -> gas_post (k a) s1 B) -> gas_post (bind m k) s B.
Proof.
  intros Hm HB Hk. destruct (Hm s) as [Hg Ho]. unfold gas_post, bind.
  destruct (m s) as [[a| | |] s1] eqn:E; simpl in *; rewrite ?Hg; try by split.
  by apply Hk.
Qed.

Lemma returnGas_post left s B :
  0 <= left -> 0 <= gas s -> gas s + left <= B -> B < 2 ^ 64 -> gas_post (returnGas (Hash := Hash) (DB := DB) left) s B.
Proof.
  intros. split; [done|]. cbn [returnGas modify snd gas set_gas].
  rewrite u64_small by (unfold is_u64; lia). lia.
Qed.

Lemma gas_post_seq_returnGas left (m : M Hash DB unit) (r : bytes) s B :
  keeps same_gas m -> 0 <= left -> 0 <= gas s -> gas s + left <= B -> B < 2 ^ 64 ->
  gas_post (seq! m in seq! returnGas left in ret r) s B.
Proof.
  intros Hm ? ? ? ?. destruct (Hm s) as [Hg Ho]. unfold gas_post, bind.
  destruct (m s) as [[[]| | |] s1]; simpl in *; rewrite ?Hg; try (split; [done|lia]).
  rewrite u64_small by (unfold is_u64; lia). split; [done|lia].
Qed.

Lemma gas_post_call_world {A C} f (k : A -> M Hash DB C) s B :
  (f (world s)).1 <> OutOfFuel -> 0 <= gas s <= B ->
  (forall a w, (f (world s)).1 = Ret a -> gas_post (k a) (set_world w s) B) ->
  gas_post (bind (call_world f) k) s B.
Proof.
  intros Ho HB Hk. unfold gas_post, bind, call_world.
  destruct (f (world s)) as [[a| | |] w]; simpl in *; try by split.
  by apply Hk.
Qed.

(** The end of a call instruction gives back what the callee left. *)
Lemma call_tail f g retOffset retSize s B :
  (forall w, bounded_call (f w) g) -> 0 <= gas s -> gas s + g <= B -> B < 2 ^ 64 -> 0 <= g ->
  gas_post (do! r := call_world f in after_call retOffset retSize r) s B.
Proof.
  intros Hf Hs HB Hu Hg0. destruct (Hf (world s)) as [Ho Hb].
  apply gas_post_call_world; [done|lia|]. intros [[res left] err] w Hr.
  specialize (Hb _ _ _ Hr). unfold gas_post, after_call.
  match goal with |- context [bind (push ?x) ?k] => change (bind (push x) k ?s0) with (k tt (set_stack (x :: stack s0) s0)) end.
  apply gas_post_seq_returnGas; simpl; try lia. keeps.
Qed.

(** Unfold the pops at the start of an instruction on a known stack. *)
Ltac pops Hst :=
  unfold bind, pop, get, lift; rewrite ?Hst; cbn [stack set_stack mem gas world callGasTemp].
Ltac short := cbn; split; [done|lia].

Abbreviation opCall := (opCall evm PrecompiledContractsHomestead PrecompiledContractsByzantium Run_ depth readOnly contract).
Abbreviation opCallCode := (opCallCode evm PrecompiledContractsHomestead PrecompiledContractsByzantium Run_ depth readOnly contract).
Abbreviation opDelegateCall := (opDelegateCall evm PrecompiledContractsHomestead PrecompiledContractsByzantium Run_ depth readOnly contract).
Abbreviation opStaticCall := (opStaticCall evm PrecompiledContractsHomestead PrecompiledContractsByzantium Run_ depth readOnly contract).
Abbreviation opCreate := (opCreate evm PrecompiledContractsHomestead PrecompiledContractsByzantium Run_ depth readOnly contract).
Abbreviation opCreate2 := (opCreate2 evm PrecompiledContractsHomestead PrecompiledContractsByzantium Run_ depth readOnly contract).

(** The gas for a call with value [v]: what was set aside, and the stipend. *)
Definition call_budget (s : Frame Hash DB) (v : Z) : Z :=
  callGasTemp (world s) + (if v =? 0 then 0 else CallStipend).

Lemma stipend_bound (t v : Z) :
  0 <= t -> t + (if v =? 0 then 0 else CallStipend) < 2 ^ 64 ->
  0 <= (if negb (U256 v =? 0) then u64 (t + CallStipend) else t) <= t + (if v =? 0 then 0 else CallStipend).
Proof.
  intros Ht Hb. unfold CallStipend in *. destruct (Z.eqb_spec v 0) as [->|Hv]; [simpl; lia|].
  case_if; [rewrite u64_small by (unfold is_u64; lia)|]; lia.
Qed.

Lemma opCall_post s B :
  0 <= gas s -> B < 2 ^ 64 -> gas s <= B -> 0 <= callGasTemp (world s) ->
  (forall v, stack s !! 2%nat = Some v -> call_budget s v < G /\ gas s + call_budget s v <= B) ->
  gas_post opCall s B.
Proof.
  intros Hs HBu HB Ht Hv. unfold gas_post, EvmInterp.opCall.
  destruct (stack s) as [|a0 [|a1 [|a2 [|a3 [|a4 [|a5 [|a6 rest]]]]]]] eqn:Hst; pops Hst; try short.
  destruct (Memory_Get (mem s) (Int64 a3) (Int64 a4)) as [args|]; [|short].
  destruct (Hv a2 eq_refl) as [Hlt Hle]. unfold call_budget in *.
  pose proof (stipend_bound _ a2 Ht ltac:(lia)) as Hg. cbn [ret].
  eapply call_tail; [intros w; eapply Call_bounded; [exact Run_bounded|lia]|cbn [gas set_stack]; lia..].
Qed.

Lemma opCallCode_post s B :
  0 <= gas s -> B < 2 ^ 64 -> gas s <= B -> 0 <= callGasTemp (world s) ->
  (forall v, stack s !! 2%nat = Some v -> call_budget s v < G /\ gas s + call_budget s v <= B) ->
  gas_post opCallCode s B.
Proof.
  intros Hs HBu HB Ht Hv. unfold gas_post, EvmInterp.opCallCode.
  destruct (stack s) as [|a0 [|a1 [|a2 [|a3 [|a4 [|a5 [|a6 rest]]]]]]] eqn:Hst; pops Hst; try short.
  destruct (Memory_Get (mem s) (Int64 a3) (Int64 a4)) as [args|]; [|short].
  destruct (Hv a2 eq_refl) as [Hlt Hle]. unfold call_budget in *.
  pose proof (stipend_bound _ a2 Ht ltac:(lia)) as Hg. cbn [ret].
  eapply call_tail; [intros w; eapply CallCode_bounded; [exact Run_bounded|lia]|cbn [gas set_stack]; lia..].
Qed.

Lemma opDelegateCall_post s B :
  0 <= gas s -> B < 2 ^ 64 -> 0 <= callGasTemp (world s) < G ->
  gas s + callGasTemp (world s) <= B -> gas_post opDelegateCall s B.
Proof.
  intros Hs HBu Ht HB. unfold gas_post, EvmInterp.opDelegateCall.
  destruct (stack s) as [|a0 [|a1 [|a2 [|a3 [|a4 [|a5 rest]]]]]] eqn:Hst; pops Hst; try short.
  destruct (Memory_Get (mem s) (Int64 a2) (Int64 a3)) as [args|]; [|short]. cbn [ret].
  eapply call_tail; [intros w; eapply DelegateCall_bounded; [exact Run_bounded|lia]|cbn [gas set_stack]; lia..].
Qed.

Lemma opStaticCall_post s B :
  0 <= gas s -> B < 2 ^ 64 -> 0 <= callGasTemp (world s) < G ->
  gas s + callGasTemp (world s) <= B -> gas_post opStaticCall s B.
Proof.
  intros Hs HBu Ht HB. unfold gas_post, EvmInterp.opStaticCall.
  destruct (stack s) as [|a0 [|a1 [|a2 [|a3 [|a4 [|a5 rest]]]]]] eqn:Hst; pops Hst; try short.
  destruct (Memory_Get (mem s) (Int64 a2) (Int64 a3)) as [args|]; [|short]. cbn [ret].
  eapply call_tail; [intros w; eapply StaticCall_bounded; [exact Run_bounded|lia]|cbn [gas set_stack]; lia..].
Qed.

(** A creation gets all but a 64th of the gas, or all of it, and gives back the
    rest. *)
Lemma create_tail f g (h : option VmError -> Z -> M Hash DB unit) s B :
  (forall w, bounded_create (f w) g) -> (forall e a, keeps same_gas (h e a)) ->
  0 <= gas s -> gas s + g <= B -> B < 2 ^ 64 -> 0 <= g ->
  gas_post
    (do! (res, addr, leftOver, suberr) := call_world f in
     seq! h suberr addr in
     seq! returnGas leftOver in
     if bool_decide (suberr = Some errExecutionReverted) then ret res else ret []) s B.
Proof.
  intros Hf Hh Hs HB Hu Hg0. destruct (Hf (world s)) as [Ho Hb].
  apply gas_post_call_world; [done|lia|]. intros [[[res addr] left] err] w Hr.
  specialize (Hb _ _ _ _ Hr).
  destruct (bool_decide (err = Some errExecutionReverted));
    apply gas_post_seq_returnGas; auto; simpl; lia.
Qed.

Lemma create_gas (g : Z) (b : bool) :
  is_u64 g -> 0 <= (if b then u64 (g - g / 64) else g) <= g.
Proof.
  unfold is_u64. intros Hg. destruct b; [|lia].
  assert (0 <= g / 64 <= g) by (split; [apply Z.div_pos|apply Z.div_le_upper_bound]; lia).
  rewrite u64_small by (unfold is_u64; lia). lia.
Qed.

Lemma opCreate_post s : 0 <= gas s < G -> gas_post opCreate s (gas s).
Proof.
  intros Hs. unfold gas_post, EvmInterp.opCreate.
  destruct (stack s) as [|a0 [|a1 [|a2 rest]]] eqn:Hst; pops Hst; try short.
  destruct (Memory_Get (mem s) (Int64 a1) (Int64 a2)) as [input|]; [|short]. cbn [ret].
  pose proof (create_gas (gas s) (IsEIP150 (chainConfig evm) (evmBlock evm)) ltac:(unfold is_u64; lia)) as Hc.
  set (g := if IsEIP150 _ _ then _ else _) in *. cbn [set_stack gas] in *. fold g.
  unfold UseGas. cbn [set_stack gas]. destruct (Z.ltb_spec (gas s) g); [lia|].
  eapply (create_tail _ g (fun suberr addr =>
    if IsHomestead (chainConfig evm) (evmBlock evm) && bool_decide (suberr = Some ErrCodeStoreOutOfGas) then push 0
    else if negb (is_nil_err suberr) && negb (bool_decide (suberr = Some ErrCodeStoreOutOfGas))
    then push 0 else push addr)); [|intros; keeps|cbn [gas set_stack set_gas]; lia..].
  intros w. eapply create_bounded; [exact Run_bounded|lia].
Qed.

Lemma opCreate2_post s : 0 <= gas s < G -> gas_post opCreate2 s (gas s).
Proof.
  intros Hs. unfold gas_post, EvmInterp.opCreate2.
  destruct (stack s) as [|a0 [|a1 [|a2 [|a3 rest]]]] eqn:Hst; pops Hst; try short.
  destruct (Memory_Get (mem s) (Int64 a1) (Int64 a2)) as [input|]; [|short]. cbn [ret].
  pose proof (create_gas (gas s) true ltac:(unfold is_u64; lia)) as Hc. cbn iota in Hc.
  set (g := u64 (gas s - gas s / 64)) in *.
  unfold UseGas. cbn [set_stack gas]. fold g. destruct (Z.ltb_spec (gas s) g); [lia|].
  eapply (create_tail _ g (fun suberr addr => push (if is_nil_err suberr then addr else 0)));
    [|intros; keeps|cbn [gas set_stack set_gas]; lia..].
  intros w. eapply create_bounded; [exact Run_bounded|lia].
Qed.

(** * Every operation is bounded *)
Abbreviation operation := (operation (Hash := Hash) (DB := DB)).

(** Does the frame end with this operation? *)
Definition terminal (o : operation) : bool := halts o || reverts o.

(** The charge of the operation can be paid from [gas], and after paying it the
    operation ends with less gas than it started with, if it does not end the
    frame. *)
Definition op_bounded (o : operation) : Prop :=
  forall size s r1 s1, 0 <= gas s <= G -> gasCost o size s = (r1, s1) ->
  r1 <> OutOfFuel /\ gas s1 = gas s /\
  forall c, r1 = Ret c -> 0 <= c /\
    (c <= gas s -> forall m,
      gas_post (execute o) (set_mem m (set_gas (gas s - c) s1)) (gas s - if terminal o then 0 else 1)).

Lemma op_bounded_simple o k :
  keeps same_gas (execute o) -> (forall size, keeps same_gas (gasCost o size)) ->
  cost_at_least k (gasCost o) -> 0 <= k -> (terminal o = false -> 1 <= k) -> op_bounded o.
Proof.
  intros He Hg Hc Hk Ht size s r1 s1 Hs E. destruct (Hg size s) as [Hsame Ho]. rewrite E in *.
  split; [done|]. split; [done|]. intros c ->. specialize (Hc size _ _ _ E). simpl in Hc.
  split; [lia|]. intros Hle m. apply gas_post_keeps; [done|]. cbn [gas set_mem set_gas].
  destruct (terminal o); [lia|]. specialize (Ht eq_refl). lia.
Qed.

(** An operation whose cost function leaves what a call needs. *)
Lemma op_bounded_call o k :
  terminal o = false -> 1 <= k ->
  (forall size, keeps same_gas (gasCost o size)) ->
  (forall size s c s1, gasCost o size s = (Ret c, s1) -> exists stipend,
     0 <= stipend /\ call_charged s (k + stipend) c s1 /\
     forall s', stack s' = stack s1 -> world s' = world s1 -> 0 <= gas s' -> gas s' < gas s ->
       gas s <= G -> gas s' + callGasTemp (world s') + stipend <= gas s - 1 ->
       gas_post (execute o) s' (gas s - 1)) ->
  op_bounded o.
Proof.
  intros Ht Hk Hg Hc size s r1 s1 Hs E. destruct (Hg size s) as [Hsame Ho]. rewrite E in *.
  split; [done|]. split; [done|]. intros c ->.
  destruct (Hc _ _ _ _ E) as (stipend & Hst & (t & m & Hu & -> & Hle) & Hpost).
  unfold is_u64 in Hu. split; [lia|]. intros Hpay m'. rewrite Ht.
  apply Hpost; cbn [stack set_mem set_gas world set_world gas set_callGasTemp callGasTemp]; try done; lia.
Qed.

Lemma keeps_charge_call g : keeps same_gas (charge_call (Hash := Hash) (DB := DB) evm g).
Proof.
  unfold charge_call. keeps. destruct (callGas _ _ _ _); keeps.
Qed.
Local Hint Resolve keeps_charge_call : keeps.

Ltac simp_op := cbn [execute gasCost plain with_memory halting jumping writing reverting returning].
Ltac keeps_gas := intros; simp_op; autounfold with evm_gas; cbv zeta; keeps.
Ltac keeps_op := simp_op; autounfold with evm_ops; cbv zeta; keeps.

Definition table_bounded (l : list (Z * operation)) : Prop := Forall (fun e => op_bounded e.2) l.

Ltac simple_op k :=
  apply (op_bounded_simple _ k); [solve [keeps_op]|solve [keeps_gas]|simp_op; solve [eauto with evm_cost]|done|done].

Ltac each_entry := unfold table_bounded; repeat (apply Forall_cons_2; [cbn [snd]|]); [..|apply Forall_nil_2].

Lemma arithmetic_bounded : table_bounded (arithmetic_set evm).
Proof.
  unfold arithmetic_set. each_entry; try simple_op 1.
  apply (op_bounded_simple _ 0); [keeps_op|keeps_gas|by apply cost_const|done|done].
Qed.

Lemma environment_bounded : table_bounded (environment_set evm contract).
Proof. unfold environment_set. each_entry; simple_op 1. Qed.

Lemma storage_bounded : table_bounded (storage_set evm contract).
Proof. unfold storage_set. each_entry; simple_op 1. Qed.

Lemma push_bounded : table_bounded (push_set contract).
Proof. unfold push_set. apply Forall_fmap, Forall_true. intros i. unfold push_entry. cbn [compose snd]. simple_op 1. Qed.
Lemma dup_bounded : table_bounded dup_set.
Proof. unfold dup_set. apply Forall_fmap, Forall_true. intros i. unfold dup_entry. cbn [compose snd]. simple_op 1. Qed.
Lemma swap_bounded : table_bounded swap_set.
Proof. unfold swap_set. apply Forall_fmap, Forall_true. intros i. unfold swap_entry. cbn [compose snd]. simple_op 1. Qed.
Lemma log_bounded : table_bounded (log_set evm contract).
Proof. unfold log_set. apply Forall_fmap, Forall_true. intros i. unfold log_entry. cbn [compose snd]. simple_op 1. Qed.

Lemma call_charged_weaken (s : Frame Hash DB) k k' c s1 :
  k' <= k -> call_charged s k c s1 -> call_charged s k' c s1.
Proof. intros Hk (t & m & ? & ? & ?). exists t, m. split; [done|]. split; [done|]. lia. Qed.

Definition stipend (v : Z) : Z := if v =? 0 then 0 else CallStipend.

Lemma stipend_transfer v : 0 <= stipend v <= transfer_cost v.
Proof. unfold stipend, transfer_cost, CallStipend, CallValueTransferGas. case_if; lia. Qed.

Lemma value_call_bounded (o : operation) :
  terminal o = false -> (forall size, keeps same_gas (gasCost o size)) ->
  (forall size s c s1, gasCost o size s = (Ret c, s1) ->
     exists v, stack s !! 2%nat = Some v /\ call_charged s (40 + transfer_cost v) c s1) ->
  (forall s B, 0 <= gas s -> B < 2 ^ 64 -> gas s <= B -> 0 <= callGasTemp (world s) ->
    (forall v, stack s !! 2%nat = Some v -> call_budget s v < G /\ gas s + call_budget s v <= B) ->
    gas_post (execute o) s B) ->
  op_bounded o.
Proof.
  intros Ht Hk Hc He. apply (op_bounded_call _ 40); [done|lia|done|].
  intros size s c s1 E. destruct (Hc _ _ _ _ E) as (v & Hv & Hch).
  pose proof (stipend_transfer v) as Hst. exists (stipend v). split; [lia|].
  split; [eapply call_charged_weaken; [|exact Hch]; lia|].
  destruct Hch as (t & m & Hu & -> & _). unfold is_u64 in Hu.
  intros s' Hstk Hw Hs' Hlt HG Hle. rewrite Hw in Hle. cbn in Hle.
  apply He; try lia; [rewrite Hw; cbn; lia|].
  intros v' Hv'. rewrite Hstk in Hv'. cbn in Hv'. simplify_eq.
  unfold call_budget. rewrite Hw. cbn. fold (stipend v). lia.
Qed.

Lemma plain_call_bounded (o : operation) :
  terminal o = false -> (forall size, keeps same_gas (gasCost o size)) ->
  (forall size s c s1, gasCost o size s = (Ret c, s1) -> call_charged s 40 c s1) ->
  (forall s B, 0 <= gas s -> B < 2 ^ 64 -> 0 <= callGasTemp (world s) < G ->
    gas s + callGasTemp (world s) <= B -> gas_post (execute o) s B) ->
  op_bounded o.
Proof.
  intros Ht Hk Hc He. apply (op_bounded_call _ 40); [done|lia|done|].
  intros size s c s1 E. pose proof (Hc _ _ _ _ E) as Hch. exists 0. split; [lia|]. split; [done|].
  destruct Hch as (t & m & Hu & -> & _). unfold is_u64 in Hu.
  intros s' Hstk Hw Hs' Hlt HG Hle. rewrite Hw in Hle. cbn in Hle.
  apply He; try lia; rewrite Hw; cbn; lia.
Qed.

Lemma create_op_bounded (o : operation) :
  terminal o = false -> (forall size, keeps same_gas (gasCost o size)) ->
  cost_at_least 1 (gasCost o) ->
  (forall s, 0 <= gas s < G -> gas_post (execute o) s (gas s)) -> op_bounded o.
Proof.
  intros Ht Hk Hc He size s r1 s1 Hs E. destruct (Hk size s) as [Hsame Ho]. rewrite E in *.
  split; [done|]. split; [done|]. intros c ->. specialize (Hc size _ _ _ E). simpl in Hc.
  split; [lia|]. intros Hle m. rewrite Ht.
  destruct (He (set_mem m (set_gas (gas s - c) s1))) as [? Hb]; [cbn; lia|].
  split; [done|]. cbn in Hb |- *. lia.
Qed.

Lemma system_bounded :
  table_bounded (system_set evm PrecompiledContractsHomestead PrecompiledContractsByzantium Run_ depth
    readOnly contract).
Proof.
  unfold system_set. each_entry.
  - apply create_op_bounded; [done|keeps_gas|apply cost_Create|apply opCreate_post].
  - apply value_call_bounded; [done|keeps_gas|apply gasCall_Ret|apply opCall_post].
  - apply value_call_bounded; [done|keeps_gas|apply gasCallCode_Ret|apply opCallCode_post].
  - simple_op 0.
  - simple_op 0.
Qed.

(** A table all of whose operations are bounded. *)
Definition set_bounded (t : InstructionSet) : Prop := forall op o, t op = Some o -> op_bounded o.

Lemma of_list_bounded l : table_bounded l -> set_bounded (of_list l).
Proof.
  intros Hl op o. unfold of_list. destruct (find _ l) as [e|] eqn:Hf; [|done].
  simpl. intros [= <-]. apply find_some in Hf as [Hin _].
  exact (proj1 (List.Forall_forall _ _) Hl e Hin).
Qed.

Lemma set_op_bounded op o t : op_bounded o -> set_bounded t -> set_bounded (set_op op o t).
Proof. intros Ho Ht x o'. unfold set_op. case_if; [by intros [= <-]|apply Ht]. Qed.

Lemma frontier_bounded :
  set_bounded (newFrontierInstructionSet evm PrecompiledContractsHomestead PrecompiledContractsByzantium
    Run_ depth readOnly contract).
Proof.
  apply of_list_bounded. unfold table_bounded. rewrite !Forall_app.
  pose proof arithmetic_bounded. pose proof environment_bounded. pose proof storage_bounded.
  pose proof push_bounded. pose proof dup_bounded. pose proof swap_bounded. pose proof log_bounded.
  pose proof system_bounded. done.
Qed.

Lemma homestead_bounded :
  set_bounded (newHomesteadInstructionSet evm PrecompiledContractsHomestead PrecompiledContractsByzantium
    Run_ depth readOnly contract).
Proof.
  apply set_op_bounded; [|apply frontier_bounded].
  apply plain_call_bounded; [done|keeps_gas|apply plain_call_Ret|apply opDelegateCall_post].
Qed.

Lemma byzantium_bounded :
  set_bounded (newByzantiumInstructionSet evm PrecompiledContractsHomestead PrecompiledContractsByzantium
    Run_ depth readOnly contract).
Proof.
  apply set_op_bounded; [simple_op 0|]. do 2 (apply set_op_bounded; [simple_op 1|]).
  apply set_op_bounded.
  - apply plain_call_bounded; [done|keeps_gas|apply plain_call_Ret|apply opStaticCall_post].
  - apply homestead_bounded.
Qed.

Lemma constantinople_bounded :
  IsConstantinople (chainConfig evm) (evmBlock evm) = true ->
  set_bounded (newConstantinopleInstructionSet evm PrecompiledContractsHomestead PrecompiledContractsByzantium
    Run_ depth readOnly contract).
Proof.
  intros Hc. apply set_op_bounded.
  { apply create_op_bounded; [done|keeps_gas|apply cost_Create2|apply opCreate2_post]. }
  apply set_op_bounded.
  { apply (op_bounded_simple _ 1); [keeps_op|keeps_gas| |lia|done].
    intros size. apply yields_ret. pose proof (gasTable_pos evm). naive_solver. }
  do 3 (apply set_op_bounded; [simple_op 1|]). apply byzantium_bounded.
Qed.

Lemma JumpTable_bounded :
  set_bounded (JumpTable evm PrecompiledContractsHomestead PrecompiledContractsByzantium Run_ depth
    readOnly contract).
Proof.
  unfold JumpTable. repeat case_if;
    [by apply constantinople_bounded|apply byzantium_bounded|apply homestead_bounded|apply frontier_bounded].
Qed.
End Operations.

(** * One round of the loop *)
Section Step.
Context {Hash DB : Type} `{HashFn Hash} `{!StateDB Hash DB}.
Variable evm : EVM.
Variables PrecompiledContractsHomestead PrecompiledContractsByzantium : Precompiles.
Variable Run_ : Contract Hash -> bytes -> bool -> Z -> bool -> Z -> World Hash DB -> RunResult Hash DB.
Variable depth : Z.
Variable readOnly : bool.
Variable contract : Contract Hash.

Lemma attempt_post {A} (m : M Hash DB A) s B : gas_post m s B -> gas_post (attempt m) s B.
Proof. unfold gas_post, attempt. destruct (m s) as [[| | |] s']; simpl; naive_solver. Qed.

Lemma keeps_requestedMemory (o : operation (Hash := Hash) (DB := DB)) : keeps same_gas (requestedMemory o).
Proof. unfold requestedMemory. destruct (memorySize o); keeps. Qed.

Lemma keeps_enforceRestrictions op (o : operation (Hash := Hash) (DB := DB)) :
  keeps same_gas (enforceRestrictions evm readOnly op o).
Proof. unfold enforceRestrictions. keeps. Qed.

Lemma keeps_finish (o : operation (Hash := Hash) (DB := DB)) r : keeps same_gas (finish (Hash := Hash) (DB := DB) o r).
Proof. unfold finish. keeps. destruct r; keeps. Qed.

(** What the charge leaves for the execution of a bounded operation. *)
Lemma prepare_post op (o : operation (Hash := Hash) (DB := DB)) s B :
  op_bounded B o -> 0 <= gas s <= B ->
  match prepare evm readOnly op o s with
  | (Ret tt, s1) => gas_post (execute o) s1 (gas s - if terminal o then 0 else 1)
  | (OutOfFuel, _) => False
  | (_, s1) => 0 <= gas s1 <= gas s
  end.
Proof.
  intros Ho Hs. unfold prepare. unfold bind at 1. cbn [get].
  destruct (validateStack o (stack s)); [by simpl; lia|]. unfold bind at 1. cbn [ret].
  unfold bind at 1. destruct (keeps_enforceRestrictions op o s) as [Hg1 Hf1].
  destruct (enforceRestrictions evm readOnly op o s) as [[[]| | |] s1]; simpl in *; try (rewrite Hg1; lia); try done.
  unfold bind at 1. destruct (keeps_requestedMemory o s1) as [Hg2 Hf2].
  destruct (requestedMemory o s1) as [[size| | |] s2]; simpl in *; unfold same_gas in *;
    try (rewrite Hg2, Hg1; lia); try done.
  unfold bind at 1, attempt.
  destruct (gasCost o size s2) as [r1 s3] eqn:Eg.
  destruct (Ho size s2 r1 s3) as (Hf3 & Hg3 & Hc); [lia|done|].
  destruct r1 as [c|e| |]; simpl; try done; try lia.
  destruct (Hc c eq_refl) as [Hc0 Hpost]. unfold bind, UseGas.
  destruct (Z.ltb_spec (gas s3) c); simpl; [lia|].
  replace (gas s) with (gas s2) by congruence. rewrite Hg3 in *.
  case_if; simpl.
  - exact (Hpost ltac:(lia) (Memory_Resize (mem s3) size)).
  - pose proof (Hpost ltac:(lia) (mem s3)) as Hp. by destruct s3.
Qed.

(** A round that does not end the run leaves less gas. *)
Lemma step_post (s : Frame Hash DB) :
  0 <= gas s < 2 ^ 64 ->
  (forall c input static d ro g w, 0 <= g < gas s -> bounded_run (Run_ c input static d ro g w) g) ->
  let '(r, s') := step evm PrecompiledContractsHomestead PrecompiledContractsByzantium Run_ depth readOnly
    contract s in
  r <> OutOfFuel /\ 0 <= gas s' <= gas s - match r with Ret None => 1 | _ => 0 end.
Proof.
  intros Hs HRun. unfold step. unfold bind at 1. cbn [get].
  destruct (JumpTable _ _ _ _ _ _ _ _) as [o|] eqn:Ho; [|simpl; split; [done|lia]].
  apply (JumpTable_bounded _ _ _ _ _ _ _ (gas s)) in Ho; [|lia|done].
  pose proof (prepare_post (GetOp contract (pc s)) o s (gas s) Ho ltac:(lia)) as Hp.
  unfold bind at 1. destruct (prepare evm readOnly _ o s) as [[[]| | |] s1]; try done; try (split; [done|lia]).
  apply attempt_post in Hp as [Hf Hg]. unfold bind at 1.
  destruct (attempt (execute o) s1) as [[r| | |] s2]; simpl in *; try (by split; [done|destruct (terminal o); lia]).
  destruct (keeps_finish o r s2) as [Hg3 Hf3].
  destruct (finish o r s2) as [r3 s3] eqn:Efin. simpl in *. split; [done|]. rewrite Hg3.
  enough (r3 = Ret None -> terminal o = false) as Hterm.
  { destruct r3 as [[r4|]| | |]; [..|rewrite Hterm in Hg by done; lia| | |]; destruct (terminal o); lia. }
  intros ->. unfold terminal. revert Efin. unfold finish, bind.
  destruct (returns o), r as [res|e]; simpl; try done; destruct (reverts o), (halts o), (jumps o); done.
Qed.
End Step.

(** * The interpreter *)
Section Terminates.
Context {Hash DB : Type} `{HashFn Hash} `{!StateDB Hash DB}.
Variable evm : EVM.
Variables PrecompiledContractsHomestead PrecompiledContractsByzantium : Precompiles.

Lemma loop_steps_bounded fuel (c : Contract Hash) depth readOnly (s : Frame Hash DB) :
  0 <= gas s < 2 ^ 64 -> gas s < Z.of_nat fuel ->
  bounded_run (loop_steps evm PrecompiledContractsHomestead PrecompiledContractsByzantium fuel c depth readOnly s)
    (gas s).
Proof.
  revert c depth readOnly s. induction fuel as [|fuel IH]; intros c depth readOnly s Hs Hf; [lia|].
  cbn [loop_steps].
  match goal with |- context [step evm _ _ ?R depth readOnly c s] => set (Run_ := R) end.
  assert (HRun : forall c input static d ro g w, 0 <= g < gas s -> bounded_run (Run_ c input static d ro g w) g).
  { intros c' input static d ro g w Hg. unfold Run_. case_if; [split; [done|simpl; lia]|].
    pose proof (IH (set_Input input c') (d + 1) (ro || static)
      (mkFrame 0 [] NewMemory g None (set_returnData [] w)) ltac:(cbn; lia) ltac:(cbn; lia)) as HI.
    exact HI. }
  pose proof (step_post evm PrecompiledContractsHomestead PrecompiledContractsByzantium Run_ depth readOnly c s Hs HRun) as Hstep.
  destruct (step _ _ _ _ _ _ _ s) as [[[r|]| | |] s']; destruct Hstep as [Hne Hg]; try done;
    try (split; [done|simpl; lia]).
  destruct (IH c depth readOnly s' ltac:(lia) ltac:(lia)) as [? ?]. split; [done|lia].
Qed.

(** C6: a run of the interpreter with [gas] ends within [gas + 1] units of fuel,
    one for each instruction along a chain of nested frames: it returns data and
    an error, or panics, and leaves no more gas than it got.  The state
    database, the precompiled contracts and the hash are arbitrary. *)
Theorem Run_terminates fuel (c : Contract Hash) input static depth readOnly g (w : World Hash DB) :
  is_u64 g -> g < Z.of_nat fuel ->
  exists r leftOver w',
    Run evm PrecompiledContractsHomestead PrecompiledContractsByzantium fuel c input static depth readOnly g w =
      (r, (leftOver, w')) /\ r <> OutOfFuel /\ 0 <= leftOver <= g.
Proof.
  intros Hg Hf. unfold is_u64 in Hg.
  assert (bounded_run (Run evm PrecompiledContractsHomestead PrecompiledContractsByzantium fuel c input static
    depth readOnly g w) g) as [Hne Hb].
  { unfold Run. case_if; [split; [done|simpl; lia]|]. by apply loop_steps_bounded. }
  destruct (Run _ _ _ _ _ _ _ _ _ _ _) as [r [g' w']]. by exists r, g', w'.
Qed.
End Terminates.
