(* ===== verification/EvmWorldRel.v ===== *)
(** What a run does to the world that its frames share: a relation that every
    change of the database and every nested call keeps, a whole run keeps.

    [may_write] is false for runs in which the interpreter is read-only: the
    instructions that write are then refused before they are charged. *)

From stdpp Require Import gmap.
From S2P Require Import Prelude GoMath Params EvmCode EvmMemory EvmState EvmInstr EvmGas EvmInterp EvmLogic EvmGasBound EvmTermination.

(** A relation that looks only at the database. *)
Class WorldRel {Hash DB : Type} `{HashFn Hash} (W : relation (World Hash DB)) : Prop := {
  WorldRel_preorder :: PreOrder W;
  WorldRel_callGasTemp x w : W w (set_callGasTemp x w);
  WorldRel_jumpdests x w : W w (set_jumpdests x w);
  WorldRel_returnData x w : W w (set_returnData x w) }.

Section Operations.
Context {Hash DB : Type} `{HashFn Hash} `{!StateDB Hash DB}.
Variable evm : EVM.
Variables PrecompiledContractsHomestead PrecompiledContractsByzantium : Precompiles.
Variable Run_ : Contract Hash -> bytes -> bool -> Z -> bool -> Z -> World Hash DB -> RunResult Hash DB.
Variable depth : Z.
Variable readOnly : bool.
Variable contract : Contract Hash.

Context (W : relation (World Hash DB)) `{!WorldRel W}.
Variable may_write : bool.

Abbreviation caller := (CallerRef contract).
Abbreviation evm_call f := (f evm PrecompiledContractsHomestead PrecompiledContractsByzantium Run_ depth readOnly).

(** A change of the database that keeps the relation. *)
Definition db_keeps (f : DB -> DB) : Prop := forall w, W w (set_db (f (db w)) w).

Hypothesis keeps_AddPreimage : forall h p, db_keeps (AddPreimage h p).
Hypothesis keeps_SetState : may_write = true -> forall a k v, db_keeps (SetState a k v).
Hypothesis keeps_AddBalance : may_write = true -> forall a x, db_keeps (AddBalance a x).
Hypothesis keeps_Suicide : may_write = true -> forall a, db_keeps (SuicideAccount a).
Hypothesis keeps_AddLog : may_write = true -> forall l, db_keeps (AddLog l).
Hypothesis keeps_AddRefund : may_write = true -> forall x, db_keeps (AddRefund x).
Hypothesis keeps_SubRefund : may_write = true -> forall x w d, SubRefund x (db w) = Some d -> W w (set_db d w).
Hypothesis keeps_Call : forall addr input gas value w, (may_write = false -> value = 0) ->
  W w (evm_call Call caller addr input gas value w).2.
Hypothesis keeps_CallCode : forall addr input gas value w, W w (evm_call CallCode caller addr input gas value w).2.
Hypothesis keeps_DelegateCall : forall addr input gas w, W w (evm_call DelegateCall caller addr input gas w).2.
Hypothesis keeps_StaticCall : forall addr input gas w, W w (evm_call StaticCall caller addr input gas w).2.
Hypothesis keeps_create : may_write = true -> forall code hash gas value address w,
  W w (evm_call create caller code hash gas value address w).2.

Definition world_rel (s s' : Frame Hash DB) : Prop := W (world s) (world s').

#[local] Instance world_rel_FrameRel : FrameRel world_rel.
Proof.
  unfold world_rel. split; try (intros; reflexivity); [|intros; apply WorldRel_jumpdests].
  split; [intros s; reflexivity|intros s1 s2 s3; apply transitivity].
Qed.

Lemma keeps_UseGas_world g : keeps world_rel (UseGas g).
Proof. intros s. unfold UseGas, world_rel. case_if; (split; [reflexivity|done]). Qed.
Lemma keeps_returnGas_world g : keeps world_rel (returnGas g).
Proof. apply keeps_modify. intros s. unfold world_rel. reflexivity. Qed.
Lemma keeps_modifyDB_world f : db_keeps f -> keeps world_rel (modifyDB f).
Proof. intros Hf. apply keeps_modify. intros s. apply Hf. Qed.
Lemma keeps_callGasTemp_world x : keeps world_rel (modifyWorld (set_callGasTemp x)).
Proof. apply keeps_modify. intros s. apply WorldRel_callGasTemp. Qed.
Lemma keeps_returnData_world x : keeps world_rel (modifyWorld (set_returnData x)).
Proof. apply keeps_modify. intros s. apply WorldRel_returnData. Qed.
Lemma keeps_SubRefund_world x :
  may_write = true -> keeps world_rel (do! d := getDB in do! d := lift (SubRefund x d) in putDB d).
Proof.
  intros Hm s. unfold bind, getDB, get, lift. destruct (SubRefund x (db (world s))) as [d|] eqn:E; [|split; [unfold world_rel; reflexivity|done]].
  split; [|done]. by apply keeps_SubRefund with x.
Qed.

Local Hint Resolve keeps_UseGas_world keeps_returnGas_world keeps_callGasTemp_world keeps_returnData_world : keeps.

Lemma keeps_charge_call_world g : keeps world_rel (charge_call evm g).
Proof. unfold charge_call. keeps. destruct (callGas _ _ _ _); keeps. Qed.
Local Hint Resolve keeps_charge_call_world : keeps.

(** The same, where fuel may run out in a nested run. *)
Definition leaves {A} (m : M Hash DB A) : Prop := forall s, world_rel s (m s).2.

Lemma leaves_keeps {A} (m : M Hash DB A) : keeps world_rel m -> leaves m.
Proof. intros Hm s. apply Hm. Qed.
Lemma leaves_bind {A B} (m : M Hash DB A) (k : A -> M Hash DB B) :
  leaves m -> (forall a, leaves (k a)) -> leaves (bind m k).
Proof.
  intros Hm Hk s. unfold bind. specialize (Hm s). destruct (m s) as [[a| | |] s']; simpl in *; try done.
  etrans; [exact Hm|apply Hk].
Qed.
Lemma leaves_call_world {A} (f : World Hash DB -> vres A * World Hash DB) :
  (forall w, W w (f w).2) -> leaves (call_world f).
Proof. intros Hf s. unfold call_world. specialize (Hf (world s)). by destruct (f (world s)). Qed.

Ltac leaves :=
  repeat first
    [ solve [eauto with keeps]
    | apply leaves_keeps; solve [keeps]
    | apply leaves_bind; [|intro]
    | apply leaves_call_world; solve [auto] ].

Lemma leaves_after_call retOffset retSize r : leaves (after_call retOffset retSize r).
Proof. destruct r as [[res left] err]. unfold after_call. leaves. Qed.
Local Hint Resolve leaves_after_call : keeps.

(** * Every operation *)
Abbreviation operation := (operation (Hash := Hash) (DB := DB)).

(** What [enforceRestrictions] checks of a call with value. *)
Definition no_value (op : Z) (st : list Z) : Prop :=
  may_write = false -> op = CALL -> forall v, st !! 2%nat = Some v -> v = 0.

Definition op_ok (op : Z) (o : operation) : Prop :=
  (may_write = false -> writes o = false) ->
  forall size s r1 s1, gasCost o size s = (r1, s1) ->
  world_rel s s1 /\
  forall c, r1 = Ret c -> no_value op (stack s) -> forall s2, stack s2 = stack s1 -> world_rel s2 (execute o s2).2.

Lemma op_ok_plain op o :
  ((may_write = false -> writes o = false) ->
   (forall size, keeps world_rel (gasCost o size)) /\ leaves (execute o)) -> op_ok op o.
Proof.
  intros Ho Hw size s r1 s1 E. destruct (Ho Hw) as [Hg He]. pose proof (proj1 (Hg size s)) as Hs. rewrite E in Hs.
  split; [done|]. intros. apply He.
Qed.

Lemma may_write_writes (o : operation) : writes o = true -> (may_write = false -> writes o = false) -> may_write = true.
Proof. destruct may_write; [done|]. intros Hw Ho. rewrite Ho in Hw; done. Qed.

(** [evm_db] unfolds an operation and closes its changes of the database. *)
Ltac evm_db :=
  intros; cbn [execute gasCost plain with_memory halting jumping writing reverting returning];
  autounfold with evm_gas evm_ops; cbv zeta;
  repeat first
    [ apply keeps_SubRefund_world; assumption
    | apply keeps_modifyDB_world; solve [auto]
    | solve [eauto with keeps typeclass_instances]
    | refine (keeps_bind _ _ _ _ _); [|intro]
    | apply keeps_if
    | apply keeps_modify; solve [frame_rel] ].
Ltac plain_op :=
  apply op_ok_plain; intros Hw; try (apply may_write_writes in Hw; [|reflexivity]);
  split; [solve [evm_db]|solve [apply leaves_keeps; evm_db]].

Definition table_ok (l : list (Z * operation)) : Prop := Forall (fun e => op_ok e.1 e.2) l.
Ltac each_entry := unfold table_ok; repeat (apply Forall_cons_2; [cbn [fst snd]|]); [..|apply Forall_nil_2].

Lemma arithmetic_ok : table_ok (arithmetic_set evm).
Proof. unfold arithmetic_set. each_entry; plain_op. Qed.
Lemma environment_ok : table_ok (environment_set evm contract).
Proof. unfold environment_set. each_entry; plain_op. Qed.
Lemma storage_ok : table_ok (storage_set evm contract).
Proof. unfold storage_set. each_entry; plain_op. Qed.
Lemma push_ok : table_ok (push_set contract).
Proof. unfold push_set. apply Forall_fmap, Forall_true. intros i. unfold push_entry. cbn [compose fst snd]. plain_op. Qed.
Lemma dup_ok : table_ok dup_set.
Proof. unfold dup_set. apply Forall_fmap, Forall_true. intros i. unfold dup_entry. cbn [compose fst snd]. plain_op. Qed.
Lemma swap_ok : table_ok swap_set.
Proof. unfold swap_set. apply Forall_fmap, Forall_true. intros i. unfold swap_entry. cbn [compose fst snd]. plain_op. Qed.
Lemma log_ok : table_ok (log_set evm contract).
Proof. unfold log_set. apply Forall_fmap, Forall_true. intros i. unfold log_entry. cbn [compose fst snd]. plain_op. Qed.

Abbreviation opCall := (opCall evm PrecompiledContractsHomestead PrecompiledContractsByzantium Run_ depth readOnly contract).

Lemma opCall_leaves s :
  (may_write = false -> forall v, stack s !! 2%nat = Some v -> v = 0) -> world_rel s (opCall s).2.
Proof.
  intros Hv. unfold EvmInterp.opCall.
  destruct (stack s) as [|a0 [|a1 [|a2 [|a3 [|a4 [|a5 [|a6 rest]]]]]]] eqn:Hst;
    unfold bind, pop, get; rewrite ?Hst; cbn [stack set_stack mem gas world callGasTemp];
    try (unfold world_rel; reflexivity).
  destruct (Memory_Get (mem s) (Int64 a3) (Int64 a4)) as [args|]; [|unfold world_rel; reflexivity].
  cbn [lift ret]. set (g := if negb _ then _ else _).
  assert (forall w, W w (evm_call Call caller (BigToAddress a1) args g (U256 a2) w).2) as Hcall.
  { intros w. apply keeps_Call. intros Hm. by rewrite (Hv Hm a2 eq_refl). }
  etrans; [|exact (leaves_bind _ _ (leaves_call_world _ Hcall) (leaves_after_call a5 a6) (set_stack rest s))].
  unfold world_rel. reflexivity.
Qed.

Lemma system_ok :
  table_ok (system_set evm PrecompiledContractsHomestead PrecompiledContractsByzantium Run_ depth readOnly contract).
Proof.
  unfold system_set. each_entry; try plain_op.
  - apply op_ok_plain. intros Hw. apply may_write_writes in Hw; [|done]. split; [evm_db|].
    cbn [execute plain with_memory returning writing]. unfold opCreate. leaves.
    + apply leaves_call_world. intros w. by apply keeps_create.
    + destruct a6 as [[[res addr] left] err]. leaves.
  - intros Hw size s r1 s1 E. cbn [gasCost execute plain with_memory returning] in *.
    assert (keeps world_rel (gasCall evm size)) as Hk by evm_db.
    destruct (Hk s) as [Hs _]. rewrite E in Hs. split; [done|]. intros c -> Hv s2 Hst.
    destruct (gasCall_Ret evm size s c s1 E) as (v & _ & t & m & _ & -> & _).
    apply opCall_leaves. rewrite Hst. cbn [stack set_world set_mem]. intros Hm. by apply Hv.
  - apply op_ok_plain. intros _. split; [evm_db|]. cbn [execute plain with_memory returning].
    unfold opCallCode. leaves.
Qed.

Definition set_ok (t : InstructionSet) : Prop := forall op o, t op = Some o -> op_ok op o.

Lemma of_list_ok l : table_ok l -> set_ok (of_list l).
Proof.
  intros Hl op o. unfold of_list. destruct (find _ l) as [e|] eqn:Hf; [|done].
  simpl. intros [= <-]. apply find_some in Hf as [Hin Heq]. simp_bool. subst.
  exact (proj1 (List.Forall_forall _ _) Hl e Hin).
Qed.

Lemma set_op_ok op o t : op_ok op o -> set_ok t -> set_ok (set_op op o t).
Proof. intros Ho Ht x o'. unfold set_op. case_if; [intros [= <-]; by subst|apply Ht]. Qed.

Abbreviation table_of f := (f evm PrecompiledContractsHomestead PrecompiledContractsByzantium Run_ depth readOnly contract).

Lemma frontier_ok : set_ok (table_of newFrontierInstructionSet).
Proof.
  apply of_list_ok. unfold table_ok. rewrite !Forall_app.
  pose proof arithmetic_ok. pose proof environment_ok. pose proof storage_ok. pose proof push_ok.
  pose proof dup_ok. pose proof swap_ok. pose proof log_ok. pose proof system_ok. done.
Qed.

Lemma homestead_ok : set_ok (table_of newHomesteadInstructionSet).
Proof.
  apply set_op_ok; [|apply frontier_ok]. apply op_ok_plain. intros _. split; [evm_db|].
  cbn [execute plain with_memory returning]. unfold opDelegateCall. leaves.
Qed.

Lemma byzantium_ok : set_ok (table_of newByzantiumInstructionSet).
Proof.
  do 3 (apply set_op_ok; [plain_op|]). apply set_op_ok; [|apply homestead_ok].
  apply op_ok_plain. intros _. split; [evm_db|].
  cbn [execute plain with_memory returning]. unfold opStaticCall. leaves.
Qed.

Lemma constantinople_ok : set_ok (table_of newConstantinopleInstructionSet).
Proof.
  apply set_op_ok; [|do 4 (apply set_op_ok; [plain_op|]); apply byzantium_ok].
  apply op_ok_plain. intros Hw. apply may_write_writes in Hw; [|done]. split; [evm_db|].
  cbn [execute plain with_memory returning writing]. unfold opCreate2. leaves.
  - apply leaves_call_world. intros w. by apply keeps_create.
  - destruct a7 as [[[res addr] left] err]. leaves.
Qed.

Lemma JumpTable_ok : set_ok (table_of JumpTable).
Proof.
  unfold JumpTable. repeat case_if; [apply constantinople_ok|apply byzantium_ok|apply homestead_ok|apply frontier_ok].
Qed.

(** * One round *)
Lemma keeps_requestedMemory_world (o : operation) : keeps world_rel (requestedMemory o).
Proof. unfold requestedMemory. destruct (memorySize o); keeps. Qed.

Lemma requestedMemory_stack (o : operation) s : (requestedMemory o s).2 = s.
Proof.
  unfold requestedMemory. destruct (memorySize o) as [f|]; [|done]. unfold bind, get, lift, checked.
  destruct (f (stack s)) as [x|]; [|done]. cbn [ret]. destruct (bigUint64 x) as [y []]; [done|]. cbn [fst snd ret].
  by destruct (SafeMul (toWordSize y) 32).2.
Qed.

Lemma keeps_finish_world (o : operation) r : keeps world_rel (finish (Hash := Hash) (DB := DB) o r).
Proof. unfold finish. keeps. destruct r; keeps. Qed.

(** Read-only runs refuse what [may_write] excludes. *)
Hypothesis restricted : may_write = false -> rByzantium (chainRules evm) = true /\ readOnly = true.

Lemma enforceRestrictions_ok op (o : operation) s :
  (enforceRestrictions evm readOnly op o s).2 = s /\
  ((enforceRestrictions evm readOnly op o s).1 = Ret tt ->
   (may_write = false -> writes o = false) /\ no_value op (stack s)).
Proof.
  unfold enforceRestrictions, no_value. destruct may_write.
  - split; [|intros _; by split]. repeat case_if; try done. unfold bind, Back, get, lift. cbn.
    destruct (stack s !! 2%nat); cbn; [|done]. by case_if.
  - destruct (restricted eq_refl) as [-> ->]. destruct (writes o) eqn:Hw; [done|].
    destruct (Z.eqb_spec op CALL) as [->|]; [|done]. unfold bind, Back, get, lift. cbn.
    destruct (stack s !! 2%nat) as [v|] eqn:Hv; cbn; [|done]. case_if; [done|]. split; [done|].
    intros _. split; [done|]. intros _ _ v' [= <-]. unfold bitlen in *. case_if_in E; [done|].
    pose proof (Z.log2_nonneg (Z.abs v)). lia.
Qed.

Lemma prepare_ok op (o : operation) s :
  op_ok op o ->
  let '(r, s1) := prepare evm readOnly op o s in
  world_rel s s1 /\ (r = Ret tt -> world_rel s1 (execute o s1).2).
Proof.
  assert (forall t : Frame Hash DB, world_rel t t) as Hrefl by (intros t; unfold world_rel; reflexivity).
  intros Ho. unfold prepare. unfold bind at 1. cbn [get].
  destruct (validateStack o (stack s)); [by split|]. unfold bind at 1. cbn [ret].
  destruct (enforceRestrictions_ok op o s) as [He Hg]. unfold bind at 1.
  destruct (enforceRestrictions evm readOnly op o s) as [[[]| | |] s1]; cbn [fst snd] in *; subst; try by split.
  destruct (Hg eq_refl) as [Hw Hv]. pose proof (requestedMemory_stack o s) as Hm. unfold bind at 1.
  destruct (requestedMemory o s) as [[size| | |] s2]; cbn [fst snd] in *; subst; try by split.
  unfold bind at 1, attempt. destruct (gasCost o size s) as [r1 s3] eqn:Eg.
  destruct (Ho Hw size s r1 s3 Eg) as [Hs3 Hexec]. destruct r1 as [c|e| |]; try by split.
  unfold bind, UseGas. destruct (gas s3 <? c); [by split|]. cbn [negb].
  destruct (0 <? size); (split; [exact Hs3|intros _; by apply (Hexec c)]).
Qed.

Lemma step_ok : leaves (table_of step).
Proof.
  intros s. unfold step. unfold bind at 1. cbn [get]. destruct (JumpTable _ _ _ _ _ _ _ _) as [o|] eqn:Ho;
    [|unfold world_rel; reflexivity].
  pose proof (prepare_ok _ o s (JumpTable_ok _ _ Ho)) as Hp. unfold bind at 1.
  destruct (prepare evm readOnly _ o s) as [[[]| | |] s1]; destruct Hp as [Hp He]; try done.
  etrans; [exact Hp|]. specialize (He eq_refl). unfold bind, attempt.
  destruct (execute o s1) as [[r|e| |] s2]; cbn [snd] in *; try done;
    (etrans; [exact He|apply keeps_finish_world]).
Qed.
End Operations.
