(* ===== verification/EvmRevert.v ===== *)
(** A call that fails leaves no trace: whatever the code it ran did, nested calls
    included, the database is back at the state before the call.

    [SnapshotLaws] is what the machine relies on of the database; it is proved of
    the one in core/state in StateDBOps. *)

From stdpp Require Import gmap.
From S2P Require Import Prelude GoMath Params EvmCode EvmMemory EvmState EvmInstr EvmGas EvmInterp EvmLogic EvmWorldRel.

(** [since id d d']: snapshot [id] was taken in [d], and [d'] follows from it.
    [changed d d']: one operation leads from [d] to [d']. *)
Class SnapshotLaws (Hash DB : Type) `{StateDB Hash DB} := {
  valid : DB -> Prop;
  same_state : relation DB;
  changed : relation DB;
  since : Z -> relation DB;
  same_state_refl d : same_state d d;
  changed_CreateAccount a d : valid d -> changed d (CreateAccount a d);
  changed_SubBalance a x d : valid d -> changed d (SubBalance a x d);
  changed_AddBalance a x d : valid d -> changed d (AddBalance a x d);
  changed_SetNonce a x d : valid d -> changed d (SetNonce a x d);
  changed_SetCode a c d : valid d -> changed d (SetCode a c d);
  changed_SetState a k v d : valid d -> changed d (SetState a k v d);
  changed_Suicide a d : valid d -> changed d (SuicideAccount a d);
  changed_AddRefund x d : valid d -> changed d (AddRefund x d);
  changed_SubRefund x d d' : valid d -> SubRefund x d = Some d' -> changed d d';
  changed_AddLog l d : valid d -> changed d (AddLog l d);
  changed_AddPreimage h p d : valid d -> changed d (AddPreimage h p d);
  changed_valid d d' : valid d -> changed d d' -> valid d';
  since_changed id d0 d d' : since id d0 d -> changed d d' -> since id d0 d';
  since_valid id d0 d : since id d0 d -> valid d;
  since_take d : valid d -> since (Snapshot d).1 d (Snapshot d).2;
  since_nest id d0 d : since id d0 d -> since id d0 (Snapshot d).2;
  since_back id d0 d : since id d0 d ->
    exists d', RevertToSnapshot id d = Some d' /\ same_state d' d0 /\ valid d' /\
      forall id1 d1, since id1 d1 d0 -> since id1 d1 d' }.

Section Laws.
Context {Hash DB : Type} `{HashFn Hash} `{!StateDB Hash DB} `{!SnapshotLaws Hash DB}.

(** From [d] to [d'], validity and every snapshot are kept. *)
Definition db_follows (d d' : DB) : Prop :=
  valid d -> valid d' /\ forall id d0, since id d0 d -> since id d0 d'.

#[export] Instance db_follows_preorder : PreOrder db_follows.
Proof.
  split; [by intros d Hd|]. intros d1 d2 d3 H12 H23 Hd. destruct (H12 Hd) as [Hd2 Hs2], (H23 Hd2) as [Hd3 Hs3]. auto.
Qed.

Lemma db_follows_changed d d' : (valid d -> changed d d') -> db_follows d d'.
Proof. intros Hc Hd. specialize (Hc Hd). split; [by eapply changed_valid|]. intros; by eapply since_changed. Qed.

Lemma db_follows_Snapshot d : db_follows d (Snapshot d).2.
Proof. intros Hd. split; [eapply since_valid, since_take, Hd|]. intros. by apply since_nest. Qed.

Definition follows (w w' : World Hash DB) : Prop := db_follows (db w) (db w').

#[export] Instance follows_WorldRel : WorldRel follows.
Proof.
  split; try (intros; unfold follows; reflexivity).
  split; [intros w; unfold follows; reflexivity|intros w1 w2 w3; unfold follows; apply transitivity].
Qed.

Lemma db_follows_Transfer a b x d : db_follows d (Transfer a b x d).
Proof.
  unfold Transfer. etrans; apply db_follows_changed; intros; [by apply changed_SubBalance|by apply changed_AddBalance].
Qed.

(** * Calls *)
Variable evm : EVM.
Variables PrecompiledContractsHomestead PrecompiledContractsByzantium : Precompiles.
Variable Run_ : Contract Hash -> bytes -> bool -> Z -> bool -> Z -> World Hash DB -> RunResult Hash DB.
Variable depth : Z.
Variable readOnly : bool.
Hypothesis Run_follows : forall c input static d ro g w, follows w (Run_ c input static d ro g w).2.2.

Abbreviation run := (run evm PrecompiledContractsHomestead PrecompiledContractsByzantium Run_ depth readOnly).
Abbreviation evm_call f := (f evm PrecompiledContractsHomestead PrecompiledContractsByzantium Run_ depth readOnly).

Lemma run_follows c input static g w : follows w (run c input static g w).2.2.
Proof.
  unfold EvmInterp.run. destruct (CodeAddr c); [|apply Run_follows]. destruct (precompiles _ _ _ _) as [p|]; [|apply Run_follows].
  unfold RunPrecompiledContract. case_if; [unfold follows; reflexivity|].
  destruct (PrecompiledRun p input); unfold follows; reflexivity.
Qed.

Lemma run_enter_follows caller d c input static g w :
  db_follows d (db (run c input static g (enter caller d w)).2.2).
Proof. etrans; [|apply run_follows]. destruct caller; reflexivity. Qed.

(** What a call does to the database, seen from where it starts. *)
Definition call_ok (d : DB) (r : CallResult) : Prop :=
  db_follows d (db r.2) /\
  forall res g err, valid d -> r.1 = Ret (res, g, Some err) -> same_state (db r.2) d.

Lemma settle_ok d (r : RunResult Hash DB) :
  db_follows (Snapshot d).2 (db r.2.2) -> call_ok d (settle (Snapshot d).1 r).
Proof.
  intros Hr. assert (db_follows d (db r.2.2)) as Hf by (etrans; [apply db_follows_Snapshot|done]).
  destruct r as [o [g w]]. cbn [snd] in *. unfold settle.
  destruct o as [[res [err|]]| | |]; try (by split; [exact Hf|intros; simplify_eq]).
  assert (valid d -> since (Snapshot d).1 d (db w)) as Hs.
  { intros Hd. pose proof (since_take d Hd) as Ht. apply Hr; [by eapply since_valid|done]. }
  destruct (RevertToSnapshot (Snapshot d).1 (db w)) as [d'|] eqn:E.
  - split; cbn [snd set_db db].
    + intros Hd. destruct (since_back _ _ _ (Hs Hd)) as (d2 & E2 & _ & Hv & Hk). rewrite E in E2. by simplify_eq.
    + intros _ _ _ Hd _. destruct (since_back _ _ _ (Hs Hd)) as (d2 & E2 & Hsame & _). rewrite E in E2. by simplify_eq.
  - split; [exact Hf|intros; simplify_eq].
Qed.

Lemma call_ok_unchanged d o (w : World Hash DB) : db w = d -> call_ok d (o, w).
Proof. intros <-. split; [reflexivity|intros; apply same_state_refl]. Qed.

Lemma Call_ok caller addr input gas value w : call_ok (db w) (evm_call Call caller addr input gas value w).
Proof.
  unfold Call. do 3 (case_if; [by apply call_ok_unchanged|]).
  pose proof (settle_ok (db w)) as Hset. pose proof (db_follows_Snapshot (db w)) as Hsn.
  destruct (Snapshot (db w)) as [id d]. cbn [fst snd] in *. case_if; [split; [done|intros; simplify_eq]|].
  apply Hset. etrans; [|apply run_enter_follows]. etrans; [|apply db_follows_Transfer].
  case_if; [|reflexivity]. apply db_follows_changed, changed_CreateAccount.
Qed.

Lemma CallCode_ok caller addr input gas value w : call_ok (db w) (evm_call CallCode caller addr input gas value w).
Proof.
  unfold CallCode. do 3 (case_if; [by apply call_ok_unchanged|]).
  pose proof (settle_ok (db w)) as Hset. destruct (Snapshot (db w)) as [id d]. apply Hset, run_enter_follows.
Qed.

Lemma DelegateCall_ok caller addr input gas w : call_ok (db w) (evm_call DelegateCall caller addr input gas w).
Proof.
  unfold DelegateCall. do 2 (case_if; [by apply call_ok_unchanged|]).
  pose proof (settle_ok (db w)) as Hset. pose proof (db_follows_Snapshot (db w)) as Hsn.
  destruct (Snapshot (db w)) as [id d]. destruct (AsDelegate _ _); [apply Hset, run_enter_follows|].
  split; [done|intros; simplify_eq].
Qed.

Lemma StaticCall_ok caller addr input gas w : call_ok (db w) (evm_call StaticCall caller addr input gas w).
Proof.
  unfold StaticCall. do 2 (case_if; [by apply call_ok_unchanged|]).
  pose proof (settle_ok (db w)) as Hset. destruct (Snapshot (db w)) as [id d].
  apply Hset. etrans; [|apply run_enter_follows]. apply db_follows_changed, changed_AddBalance.
Qed.

(** * Creation

    The nonce of the creator is kept when a creation fails, and before Homestead
    so is everything when the gas does not pay for storing the code. *)
Definition create_start (caller : ContractRef Hash) (value : Z) (w : World Hash DB) : DB :=
  if (CallCreateDepth <? depth) || negb (CanTransfer (db w) (Address caller) value) then db w
  else SetNonce (Address caller) (u64 (GetNonce (db w) (Address caller) + 1)) (db w).

Definition code_store_exempt (err : VmError) : Prop :=
  err = ErrCodeStoreOutOfGas /\ IsHomestead (chainConfig evm) (evmBlock evm) = false.

Definition create_ok (d d1 : DB) (r : CreateResult) : Prop :=
  db_follows d (db r.2) /\
  forall res addr g err, valid d -> r.1 = Ret (res, addr, g, Some err) -> ~ code_store_exempt err ->
    same_state (db r.2) d1.

Lemma create_revert_ok d (w : World Hash DB) (o : vres (bytes * Z * Z * option VmError)) :
  db_follows (Snapshot d).2 (db w) ->
  create_ok d d match RevertToSnapshot (Snapshot d).1 (db w) with
                | None => (Panicked, w) | Some d' => (o, set_db d' w) end.
Proof.
  intros Hr. assert (valid d -> since (Snapshot d).1 d (db w)) as Hs.
  { intros Hd. pose proof (since_take d Hd) as Ht. apply Hr; [by eapply since_valid|done]. }
  destruct (RevertToSnapshot (Snapshot d).1 (db w)) as [d'|] eqn:E.
  - split; cbn [snd set_db db]; [intros Hd|intros ? ? ? ? Hd _ _];
      destruct (since_back _ _ _ (Hs Hd)) as (d2 & E2 & Hsame & Hv & Hk); rewrite E in E2; by simplify_eq.
  - split; [etrans; [apply db_follows_Snapshot|done]|intros; simplify_eq].
Qed.

Lemma create_settle_ok d address (r : RunResult Hash DB) :
  db_follows (Snapshot d).2 (db r.2.2) -> create_ok d d (create_settle evm (Snapshot d).1 address r).
Proof.
  intros Hr. destruct r as [o [g w]]. cbn [snd] in *. unfold create_settle.
  assert (db_follows d (db w)) as Hf by (etrans; [apply db_follows_Snapshot|done]).
  destruct o as [[res err]| | |]; try (split; [exact Hf|intros; simplify_eq]).
  set (ex := IsEIP158 _ _ && _). set (X := if is_nil_err err && negb ex then _ else _).
  assert (db_follows (Snapshot d).2 (db X.1.2)) as HX.
  { unfold X. repeat case_if; try done. cbn [fst snd db set_db]. etrans; [exact Hr|].
    apply db_follows_changed, changed_SetCode. }
  destruct X as [[g1 w1] err1]. cbn [fst snd] in HX. destruct (ex || _) eqn:E; [by apply create_revert_ok|].
  split; [etrans; [apply db_follows_Snapshot|done]|]. cbn [fst snd]. intros ? ? ? e _ Hret Hex. destruct Hex.
  apply orb_false_iff in E as [-> E]. cbn [andb] in Hret. injection Hret as -> -> -> ->.
  unfold is_nil_err in E. rewrite bool_decide_false in E by done. cbn [negb andb] in E.
  apply orb_false_iff in E as [Hh E]. apply negb_false_iff, bool_decide_eq_true in E. split; [congruence|done].
Qed.

Lemma create_ok_mono d d1 d2 r : (valid d1 -> valid d) -> db_follows d1 d -> create_ok d d2 r -> create_ok d1 d2 r.
Proof. intros Hv Hd [Hf Hs]. split; [by etrans|]. intros. eapply Hs; eauto. Qed.

Lemma create_follows caller code hash gas value address w :
  create_ok (db w) (create_start caller value w) (evm_call create caller code hash gas value address w).
Proof.
  unfold create, create_start.
  destruct (CallCreateDepth <? depth); cbn [orb]; [split; [reflexivity|intros; apply same_state_refl]|].
  destruct (negb (CanTransfer _ _ _)); [split; [reflexivity|intros; apply same_state_refl]|].
  set (d := SetNonce _ _ _).
  assert (db_follows (db w) d) as Hd by apply db_follows_changed, changed_SetNonce.
  case_if; [split; [exact Hd|intros; apply same_state_refl]|].
  apply (create_ok_mono d); [intros Hv; by apply Hd|done|].
  pose proof (create_settle_ok d) as Hset. pose proof (db_follows_Snapshot d) as Hsn.
  destruct (Snapshot d) as [id d1]. cbn [fst snd] in *. set (d2 := Transfer _ _ _ _).
  assert (db_follows d1 d2) as Hd2.
  { unfold d2. etrans; [|apply db_follows_Transfer].
    etrans; [apply db_follows_changed, (changed_CreateAccount address)|].
    case_if; [apply db_follows_changed, changed_SetNonce|reflexivity]. }
  case_if; [split; [by etrans|intros; simplify_eq]|].
  apply Hset. etrans; [exact Hd2|apply run_enter_follows].
Qed.
End Laws.

(** * The interpreter *)
Section Interpreter.
Context {Hash DB : Type} `{HashFn Hash} `{!StateDB Hash DB} `{!SnapshotLaws Hash DB}.
Variable evm : EVM.
Variables PrecompiledContractsHomestead PrecompiledContractsByzantium : Precompiles.

Abbreviation Run := (Run evm PrecompiledContractsHomestead PrecompiledContractsByzantium).

Lemma db_keeps_changed (f : DB -> DB) : (forall d, valid d -> changed d (f d)) -> db_keeps follows f.
Proof. intros Hf w. apply db_follows_changed, Hf. Qed.

Lemma loop_steps_follows fuel (c : Contract Hash) depth readOnly (s : Frame Hash DB) :
  follows (world s)
    (loop_steps evm PrecompiledContractsHomestead PrecompiledContractsByzantium fuel c depth readOnly s).2.2.
Proof.
  revert c depth readOnly s. induction fuel as [|fuel IH]; intros c depth readOnly s; [unfold follows; reflexivity|].
  cbn [loop_steps].
  match goal with |- context [step evm _ _ ?R depth readOnly c s] => set (Run_ := R) end.
  assert (HRun : forall c input static d ro g w, follows w (Run_ c input static d ro g w).2.2).
  { intros c' input static d ro g w. unfold Run_. case_if; [unfold follows; reflexivity|].
    exact (IH (set_Input input c') (d + 1) (ro || static) (mkFrame 0 [] NewMemory g None (set_returnData [] w))). }
  assert (follows (world s) (world (step evm PrecompiledContractsHomestead PrecompiledContractsByzantium Run_
    depth readOnly c s).2)) as Hstep.
  { eapply (step_ok evm _ _ Run_ depth readOnly c follows true); intros; try done;
      try (apply db_keeps_changed; intros; auto using changed_AddPreimage, changed_SetState, changed_AddBalance,
        changed_Suicide, changed_AddLog, changed_AddRefund).
    - apply db_follows_changed. cbn. intros. by eapply changed_SubRefund.
    - apply Call_ok, HRun.
    - apply CallCode_ok, HRun.
    - apply DelegateCall_ok, HRun.
    - apply StaticCall_ok, HRun.
    - apply create_follows, HRun. }
  destruct (step _ _ _ _ _ _ _ s) as [[[r|]| | |] s']; try done.
  unfold follows in *. etrans; [exact Hstep|apply IH].
Qed.

Lemma Run_follows fuel c input static depth readOnly g w :
  follows w (Run fuel c input static depth readOnly g w).2.2.
Proof.
  unfold EvmInterp.Run. case_if; [unfold follows; reflexivity|].
  exact (loop_steps_follows fuel _ _ _ (mkFrame 0 [] NewMemory g None (set_returnData [] w))).
Qed.

Variables (fuel : nat) (depth : Z) (readOnly : bool) (caller : ContractRef Hash) (w : World Hash DB).
Abbreviation evm_call f :=
  (f evm PrecompiledContractsHomestead PrecompiledContractsByzantium (Run fuel) depth readOnly caller).

(** Each of the four message calls, from a database that keeps the laws of
    snapshots: when the call returns an error, the database is in the same state
    as before the call. *)
Lemma failed_call_reverts addr input gas value err :
  valid (db w) ->
  (forall res g w', evm_call Call addr input gas value w = (Ret (res, g, Some err), w') -> same_state (db w') (db w)) /\
  (forall res g w', evm_call CallCode addr input gas value w = (Ret (res, g, Some err), w') -> same_state (db w') (db w)) /\
  (forall res g w', evm_call DelegateCall addr input gas w = (Ret (res, g, Some err), w') -> same_state (db w') (db w)) /\
  (forall res g w', evm_call StaticCall addr input gas w = (Ret (res, g, Some err), w') -> same_state (db w') (db w)).
Proof.
  intros Hv. pose proof (Run_follows fuel) as HR.
  pose proof (Call_ok evm PrecompiledContractsHomestead PrecompiledContractsByzantium _ depth readOnly HR caller addr input gas value w) as [_ H1].
  pose proof (CallCode_ok evm PrecompiledContractsHomestead PrecompiledContractsByzantium _ depth readOnly HR caller addr input gas value w) as [_ H2].
  pose proof (DelegateCall_ok evm PrecompiledContractsHomestead PrecompiledContractsByzantium _ depth readOnly HR caller addr input gas w) as [_ H3].
  pose proof (StaticCall_ok evm PrecompiledContractsHomestead PrecompiledContractsByzantium _ depth readOnly HR caller addr input gas w) as [_ H4].
  repeat split; intros res g w' E; [rewrite E in H1|rewrite E in H2|rewrite E in H3|rewrite E in H4]; eauto.
Qed.

(** A creation that returns an error leaves the database as it was before,
    but for the nonce of the creator, which is counted up once the creation has
    passed the checks of depth and balance; the one exception is code that cannot
    be paid for before Homestead. *)
Lemma failed_create_reverts code hash gas value address err res addr g w' :
  valid (db w) ->
  evm_call create code hash gas value address w = (Ret (res, addr, g, Some err), w') ->
  ~ (err = ErrCodeStoreOutOfGas /\ IsHomestead (chainConfig evm) (evmBlock evm) = false) ->
  same_state (db w') (create_start depth caller value w).
Proof.
  intros Hv E He.
  pose proof (create_follows evm PrecompiledContractsHomestead PrecompiledContractsByzantium _ depth readOnly
    (Run_follows fuel) caller code hash gas value address w) as [_ Hc].
  rewrite E in Hc. by eapply Hc.
Qed.
End Interpreter.
