(* ===== verification/EvmStatic.v ===== *)
(** Read-only runs: since Byzantium a static call, and every call made within it,
    leaves all values of the database as they were. *)

From stdpp Require Import gmap.
From S2P Require Import Prelude GoMath Params EvmCode EvmMemory EvmState EvmInstr EvmGas EvmInterp EvmLogic EvmWorldRel EvmRevert.

(** The operations that a read-only run performs keep the values.  An account that
    does not exist may be created, which leaves its values at zero. *)
Class ValueLaws (Hash DB : Type) `{SnapshotLaws Hash DB} := {
  same_values : relation DB;
  same_values_equiv :: Equivalence same_values;
  values_CreateAccount a d : valid d -> Exist d a = false -> same_values d (CreateAccount a d);
  values_AddBalance a d : valid d -> same_values d (AddBalance a 0 d);
  values_SubBalance a d : valid d -> same_values d (SubBalance a 0 d);
  values_AddPreimage h p d : valid d -> same_values d (AddPreimage h p d);
  values_Snapshot d : same_values d (Snapshot d).2;
  values_same_state d d' : same_state d d' -> same_values d d' }.

Section Pure.
Context {Hash DB : Type} `{HashFn Hash} `{!StateDB Hash DB} `{!SnapshotLaws Hash DB} `{!ValueLaws Hash DB}.

Definition db_pure (d d' : DB) : Prop := db_follows d d' /\ (valid d -> same_values d d').

#[export] Instance db_pure_preorder : PreOrder db_pure.
Proof.
  split; [intros d; split; [reflexivity|intros; reflexivity]|]. intros d1 d2 d3 [Hf1 Hv1] [Hf2 Hv2].
  split; [by etrans|]. intros Hd. etrans; [by apply Hv1|]. apply Hv2. by apply Hf1.
Qed.

Definition pure (w w' : World Hash DB) : Prop := db_pure (db w) (db w').

#[export] Instance pure_WorldRel : WorldRel pure.
Proof.
  split; try (intros; unfold pure; reflexivity).
  split; [intros w; unfold pure; reflexivity|intros w1 w2 w3; unfold pure; apply transitivity].
Qed.

Lemma db_pure_changed d d' : (valid d -> changed d d') -> (valid d -> same_values d d') -> db_pure d d'.
Proof. intros. split; [by apply db_follows_changed|done]. Qed.

Lemma db_pure_Snapshot d : db_pure d (Snapshot d).2.
Proof. split; [apply db_follows_Snapshot|intros; apply values_Snapshot]. Qed.

Lemma db_pure_Transfer a b d : db_pure d (Transfer a b 0 d).
Proof.
  unfold Transfer. transitivity (SubBalance a 0 d); apply db_pure_changed; intros;
    auto using changed_SubBalance, changed_AddBalance, values_SubBalance, values_AddBalance.
Qed.

(** * Calls *)
Variable evm : EVM.
Variables PrecompiledContractsHomestead PrecompiledContractsByzantium : Precompiles.
Variable Run_ : Contract Hash -> bytes -> bool -> Z -> bool -> Z -> World Hash DB -> RunResult Hash DB.
Variable depth : Z.
Variable readOnly : bool.
Hypothesis Run_pure : forall c input static d ro g w, ro || static = true -> pure w (Run_ c input static d ro g w).2.2.

Abbreviation run := (run evm PrecompiledContractsHomestead PrecompiledContractsByzantium Run_ depth readOnly).
Abbreviation evm_call f := (f evm PrecompiledContractsHomestead PrecompiledContractsByzantium Run_ depth readOnly).

Lemma run_enter_pure caller d c input static g w :
  readOnly || static = true -> db_pure d (db (run c input static g (enter caller d w)).2.2).
Proof.
  intros Hro. transitivity (db (enter caller d w)); [destruct caller; reflexivity|].
  unfold EvmInterp.run. destruct (CodeAddr c); [|by apply Run_pure]. destruct (precompiles _ _ _ _) as [p|]; [|by apply Run_pure].
  unfold RunPrecompiledContract. case_if; [reflexivity|]. destruct (PrecompiledRun p input); reflexivity.
Qed.

Lemma settle_pure d (r : RunResult Hash DB) :
  db_pure (Snapshot d).2 (db r.2.2) -> db_pure d (db (settle (Snapshot d).1 r).2).
Proof.
  intros Hr. destruct (settle_ok d r (proj1 Hr)) as [Hf Hs]. split; [done|]. intros Hd.
  assert (same_values d (db r.2.2)) as Hv.
  { etrans; [apply values_Snapshot|]. apply Hr. by apply db_follows_Snapshot. }
  destruct r as [o [g w]]. unfold settle in *. destruct o as [[res [err|]]| | |]; try exact Hv.
  destruct (RevertToSnapshot _ _) as [d'|]; [|exact Hv].
  symmetry. apply values_same_state. by eapply Hs.
Qed.

Lemma Call_pure caller addr input gas w :
  readOnly = true -> pure w (evm_call Call caller addr input gas 0 w).2.
Proof.
  intros Hro. unfold pure, Call. do 3 (case_if; [reflexivity|]).
  pose proof (settle_pure (db w)) as Hset. pose proof (db_pure_Snapshot (db w)) as Hsn.
  destruct (Snapshot (db w)) as [id d]. cbn [fst snd] in *. case_if; [done|].
  apply Hset. etrans; [|apply run_enter_pure; by rewrite Hro]. etrans; [|apply db_pure_Transfer].
  destruct (Exist d addr) eqn:Ex; cbn [negb]; [reflexivity|].
  apply db_pure_changed; intros; auto using changed_CreateAccount, values_CreateAccount.
Qed.

Lemma CallCode_pure caller addr input gas value w :
  readOnly = true -> pure w (evm_call CallCode caller addr input gas value w).2.
Proof.
  intros Hro. unfold pure, CallCode. do 3 (case_if; [reflexivity|]).
  pose proof (settle_pure (db w)) as Hset. destruct (Snapshot (db w)) as [id d].
  apply Hset, run_enter_pure. by rewrite Hro.
Qed.

Lemma DelegateCall_pure caller addr input gas w :
  readOnly = true -> pure w (evm_call DelegateCall caller addr input gas w).2.
Proof.
  intros Hro. unfold pure, DelegateCall. do 2 (case_if; [reflexivity|]).
  pose proof (settle_pure (db w)) as Hset. pose proof (db_pure_Snapshot (db w)) as Hsn.
  destruct (Snapshot (db w)) as [id d]. destruct (AsDelegate _ _); [|done].
  apply Hset, run_enter_pure. by rewrite Hro.
Qed.

Lemma StaticCall_pure caller addr input gas w : pure w (evm_call StaticCall caller addr input gas w).2.
Proof.
  unfold pure, StaticCall. do 2 (case_if; [reflexivity|]).
  pose proof (settle_pure (db w)) as Hset. destruct (Snapshot (db w)) as [id d].
  apply Hset. etrans; [|apply run_enter_pure, orb_true_r].
  apply db_pure_changed; intros; auto using changed_AddBalance, values_AddBalance.
Qed.
End Pure.

(** * The interpreter *)
Section Interpreter.
Context {Hash DB : Type} `{HashFn Hash} `{!StateDB Hash DB} `{!SnapshotLaws Hash DB} `{!ValueLaws Hash DB}.
Variable evm : EVM.
Variables PrecompiledContractsHomestead PrecompiledContractsByzantium : Precompiles.
Hypothesis Byzantium : rByzantium (chainRules evm) = true.

Lemma loop_steps_pure fuel (c : Contract Hash) depth (s : Frame Hash DB) :
  pure (world s)
    (loop_steps evm PrecompiledContractsHomestead PrecompiledContractsByzantium fuel c depth true s).2.2.
Proof.
  revert c depth s. induction fuel as [|fuel IH]; intros c depth s; [unfold pure; reflexivity|].
  cbn [loop_steps].
  match goal with |- context [step evm _ _ ?R depth true c s] => set (Run_ := R) end.
  assert (HRun : forall c input static d ro g w, ro || static = true -> pure w (Run_ c input static d ro g w).2.2).
  { intros c' input static d ro g w Hro. unfold Run_. rewrite Hro. case_if; [unfold pure; reflexivity|].
    exact (IH (set_Input input c') (d + 1) (mkFrame 0 [] NewMemory g None (set_returnData [] w))). }
  assert (pure (world s) (world (step evm PrecompiledContractsHomestead PrecompiledContractsByzantium Run_
    depth true c s).2)) as Hstep.
  { eapply (step_ok evm _ _ Run_ depth true c pure false); intros; try done.
    - intros w. unfold pure. cbn [db set_db]. apply db_pure_changed; intros; auto using changed_AddPreimage, values_AddPreimage.
    - match goal with Hz : false = false -> ?v = 0 |- _ => rewrite (Hz eq_refl) end. by apply Call_pure.
    - by apply CallCode_pure.
    - by apply DelegateCall_pure.
    - by apply StaticCall_pure. }
  destruct (step _ _ _ _ _ _ _ s) as [[[r|]| | |] s']; try done.
  unfold pure in *. etrans; [exact Hstep|apply IH].
Qed.

Lemma Run_pure fuel c input static depth readOnly g (w : World Hash DB) :
  readOnly || static = true ->
  pure w (Run evm PrecompiledContractsHomestead PrecompiledContractsByzantium fuel c input static depth readOnly g w).2.2.
Proof.
  intros Hro. unfold Run. rewrite Hro. case_if; [unfold pure; reflexivity|].
  exact (loop_steps_pure fuel _ _ (mkFrame 0 [] NewMemory g None (set_returnData [] w))).
Qed.

Lemma StaticCall_keeps_values fuel depth readOnly caller addr input gas (w : World Hash DB) :
  valid (db w) ->
  same_values (db w) (db (StaticCall evm PrecompiledContractsHomestead PrecompiledContractsByzantium
    (Run evm PrecompiledContractsHomestead PrecompiledContractsByzantium fuel) depth readOnly caller addr input gas w).2).
Proof. intros Hv. apply StaticCall_pure; [intros; by apply Run_pure|done]. Qed.
End Interpreter.
