(* ===== verification/EvmTyped.v ===== *)
(** Types of the interpreter: the stack holds at most 1024 words, memory and
    return data hold bytes, and the code analyses belong to the code.  Every
    instruction keeps them, and none panics.

    [LedgerLaws] is what is needed of the database for this: reads give words and
    bytes, and no operation of the machine adds to the supply of ether.  It is
    proved of the one in core/state in StateDBLedger.  The rules of
    Constantinople are left out: there [SubRefund] panics on a refund below
    zero. *)

From stdpp Require Import gmap.
From S2P Require Import Prelude GoMath Params EvmCode EvmMemory EvmState EvmInstr EvmGas EvmInterp EvmLogic EvmGasBound EvmTermination EvmWorldRel EvmRevert EvmArith.

(** Sizes of byte strings: codes, inputs and outputs are far below the range of
    an [int]. *)
Definition small_bytes (b : bytes) : Prop := wf_bytes b /\ zlen b < 2 ^ 62.

Class Ledger (DB : Type) := { typed : DB -> Prop; supply : DB -> Z }.

Definition ledger_step {DB} `{Ledger DB} (d d' : DB) : Prop := typed d' /\ supply d' <= supply d.

Class LedgerLaws (Hash DB : Type) `{HashFn Hash} `{!StateDB Hash DB} `{!SnapshotLaws Hash DB} `{!Ledger DB} : Prop := {
  typed_valid d : typed d -> valid d;
  typed_balance d a : typed d -> is_word (GetBalance (Hash := Hash) d a);
  typed_state d a k : typed d -> is_word (GetState (Hash := Hash) d a k);
  typed_code d a : typed d -> small_bytes (GetCode (Hash := Hash) d a) /\
    (GetCode (Hash := Hash) d a = [] \/ GetCodeHash d a = Keccak256 (GetCode (Hash := Hash) d a));
  ledger_CreateAccount a d : typed d -> ledger_step d (CreateAccount (Hash := Hash) a d);
  ledger_touch a d : typed d -> ledger_step d (AddBalance (Hash := Hash) a 0 d);
  ledger_Transfer a b x d : typed d -> 0 <= x <= GetBalance (Hash := Hash) d a -> ledger_step d (Transfer (Hash := Hash) a b x d);
  ledger_Suicide a b d : typed d -> ledger_step d (SuicideAccount (Hash := Hash) a (AddBalance (Hash := Hash) b (GetBalance (Hash := Hash) d a) d));
  ledger_SetNonce a n d : typed d -> ledger_step d (SetNonce (Hash := Hash) a n d);
  ledger_SetCode a c d : typed d -> small_bytes c -> ledger_step d (SetCode (Hash := Hash) a c d);
  ledger_SetState a k v d : typed d -> is_word v -> ledger_step d (SetState (Hash := Hash) a k v d);
  ledger_AddRefund x d : typed d -> ledger_step d (AddRefund (Hash := Hash) x d);
  ledger_AddLog l d : typed d -> ledger_step d (AddLog (Hash := Hash) l d);
  ledger_AddPreimage h p d : typed d -> ledger_step d (AddPreimage h p d);
  ledger_Snapshot d : typed d -> ledger_step d (Snapshot (Hash := Hash) d).2;
  balance_Snapshot d a : GetBalance (Hash := Hash) (Snapshot (Hash := Hash) d).2 a = GetBalance (Hash := Hash) d a;
  balance_CreateAccount a b d : typed d -> GetBalance (Hash := Hash) (CreateAccount (Hash := Hash) b d) a = GetBalance (Hash := Hash) d a;
  balance_SetNonce a b n d : typed d -> GetBalance (Hash := Hash) (SetNonce (Hash := Hash) b n d) a = GetBalance (Hash := Hash) d a;
  ledger_same d d0 : typed d0 -> valid d -> same_state d d0 -> ledger_step d0 d }.

(** What the environment of a call provides. *)
Record evm_typed (evm : EVM) : Prop := {
  typed_Origin : is_word (Origin (evmContext evm));
  typed_GasPrice : is_word (GasPrice (evmContext evm));
  typed_Coinbase : is_word (Coinbase (evmContext evm));
  typed_GetHash n : is_word (GetHash (evmContext evm) n) }.

Section Typed.
Context {Hash DB : Type} `{HashFn Hash} `{!StateDB Hash DB} `{!SnapshotLaws Hash DB} `{!Ledger DB} `{!LedgerLaws Hash DB}.

Record contract_typed (c : Contract Hash) : Prop := {
  typed_Code : small_bytes (Code c);
  typed_Input : small_bytes (Input c);
  typed_self : is_word (self c);
  typed_caller : is_word (CallerAddress c);
  typed_value : is_word (value c);
  typed_hash : Code c = [] \/ CodeHash c = EmptyHash \/ CodeHash c = Keccak256 (Code c) }.

(** Each cached analysis is that of a code with this hash. *)
Definition jumpdests_typed (jds : gmap Hash bitvec) : Prop :=
  forall h bits, jds !! h = Some bits -> exists c, Keccak256 c = h /\ codeBitmap c = Some bits.

(** The world [w] of a frame that started with [w0]. *)
Record world_good (w0 w : World Hash DB) : Prop := {
  good_typed : typed (db w);
  good_supply : supply (db w) <= supply (db w0);
  good_follows : follows w0 w;
  good_temp : is_u64 (callGasTemp w);
  good_return : small_bytes (returnData w);
  good_jumpdests : jumpdests_typed (jumpdests w) }.

Definition max_memory : Z := 0xffffffffe0.

Record good (c : Contract Hash) (w0 : World Hash DB) (s : Frame Hash DB) : Prop := {
  good_stack : Forall is_word (stack s);
  good_bytes : wf_bytes (store (mem s));
  good_memory : zlen (store (mem s)) <= max_memory;
  good_gas : is_u64 (gas s);
  good_pc : 0 <= pc s <= zlen (Code c) + 64;
  good_analysis bits : analysis s = Some bits -> codeBitmap (Code c) = Some bits;
  good_world : world_good w0 (world s) }.

(** What an instruction with these flags needs of the memory. *)
Definition covered (f : option memorySizeFunc) (s : Frame Hash DB) : Prop :=
  match f with
  | None => True
  | Some f => exists n, f (stack s) = Some n /\ n <= zlen (store (mem s))
  end.

(** After an instruction: its result, the frame, the size of the stack. *)
Definition op_post (c : Contract Hash) (w0 : World Hash DB) (b : bytes) (s : Frame Hash DB) : Prop :=
  small_bytes b /\ good c w0 s /\ zlen (stack s) <= StackLimit /\ pc s <= zlen (Code c) + 32.

Definition failed (w0 : World Hash DB) (s : Frame Hash DB) : Prop := world_good w0 (world s).

(** * Keeping a frame good *)
Section Good.
Variables (c : Contract Hash) (w0 : World Hash DB).
Implicit Types s : Frame Hash DB.

Lemma good_set_stack s st : good c w0 s -> Forall is_word st -> good c w0 (set_stack st s).
Proof. by intros [] ?; split. Qed.
Lemma good_set_mem s m :
  good c w0 s -> wf_bytes (store m) -> zlen (store m) <= max_memory -> good c w0 (set_mem m s).
Proof. by intros [] ? ?; split. Qed.
Lemma good_set_gas s g : good c w0 s -> is_u64 g -> good c w0 (set_gas g s).
Proof. by intros [] ?; split. Qed.
Lemma good_set_pc s p : good c w0 s -> 0 <= p <= zlen (Code c) + 64 -> good c w0 (set_pc p s).
Proof. by intros [] ?; split. Qed.
Lemma good_set_world s w : good c w0 s -> world_good w0 w -> good c w0 (set_world w s).
Proof. by intros [] ?; split. Qed.

Lemma world_good_db w d :
  world_good w0 w -> (valid (db w) -> changed (db w) d) -> (typed (db w) -> ledger_step (db w) d) ->
  world_good w0 (set_db d w).
Proof.
  intros [Ht Hs Hf ? ? ?] Hc Hl. destruct (Hl Ht) as [Ht' Hs']. split; try done; cbn [db set_db]; [lia|].
  unfold follows in *. etrans; [exact Hf|]. by apply db_follows_changed.
Qed.

(** * Gas functions *)
Record gas_post (s : Frame Hash DB) (touches : bool) (size g : Z) (s' : Frame Hash DB) : Prop := {
  post_cost : 0 <= g;
  post_good : good c w0 s';
  post_stack : stack s' = stack s;
  post_store : store (mem s') = store (mem s);
  post_pc : pc s' = pc s;
  post_size : touches = true -> size <= max_memory }.

Lemma wp_memoryGas size s Q :
  good c w0 s ->
  (forall fee m, 0 <= fee -> store m = store (mem s) -> size <= max_memory -> good c w0 (set_mem m s) ->
     Q fee (set_mem m s)) ->
  wp (failed w0) (memoryGas size) s Q.
Proof.
  intros Hg HQ. unfold memoryGas. apply wp_bind, wp_get, wp_bind, wp_lift_err; [apply Hg|].
  intros [fee m] E. apply memoryGasCost_range in E as (Hf & Hs & Hz). apply wp_bind, wp_modify, wp_ret. cbn [fst snd].
  apply HQ; try done; [apply Hf|]. apply good_set_mem; [done|..]; rewrite Hs; apply Hg.
Qed.

Lemma wp_SafeAdd x y s Q :
  good c w0 s -> (forall g, 0 <= g -> Q g s) -> wp (failed w0) (checked (SafeAdd x y)) s Q.
Proof. intros Hg HQ. apply wp_checked; [apply Hg|]. intros _. apply HQ. apply is_u64_u64. Qed.
Lemma wp_SafeMul x y s Q :
  good c w0 s -> (forall g, Q g s) -> wp (failed w0) (checked (SafeMul x y)) s Q.
Proof. intros Hg HQ. apply wp_checked; [apply Hg|]. intros _. apply HQ. Qed.
Lemma wp_bigUint64 x s Q :
  good c w0 s -> (forall g, Q g s) -> wp (failed w0) (checked (bigUint64 x)) s Q.
Proof. intros Hg HQ. apply wp_checked; [apply Hg|]. intros _. apply HQ. Qed.

Lemma good_temp_set s t :
  good c w0 s -> is_u64 t -> good c w0 (set_world (set_callGasTemp t (world s)) s).
Proof. intros Hg Ht. apply good_set_world; [done|]. destruct Hg as [? ? ? ? ? ? []]. by split. Qed.

End Good.

(** The gas of an operation is computed, and the operation executed, without panic. *)
Definition op_typed (c : Contract Hash) (o : operation (Hash := Hash) (DB := DB)) : Prop :=
  forall w0 s, good c w0 s -> pc s < zlen (Code c) -> validateStack o (stack s) = None ->
  (forall size, wp (failed w0) (gasCost o size) s
     (gas_post c w0 s (match memorySize o with Some _ => true | None => false end) size)) /\
  (covered (memorySize o) s -> wp (failed w0) (execute o) s (op_post c w0)).

(** ** The gas functions, on a stack whose top is known *)
Section Gas.
Variables (evm : EVM) (c : Contract Hash) (w0 : World Hash DB).
Lemma wp_modifyDB_good f s Q :
  good c w0 s -> (forall d, valid d -> changed d (f d)) -> (forall d, typed d -> ledger_step d (f d)) ->
  (good c w0 (set_world (set_db (f (db (world s))) (world s)) s) ->
   Q tt (set_world (set_db (f (db (world s))) (world s)) s)) ->
  wp (failed w0) (modifyDB f) s Q.
Proof.
  intros Hg Hc Hl HQ. apply wp_modify, HQ, good_set_world; [done|]. apply world_good_db; auto. apply Hg.
Qed.

Lemma wp_AddRefund x s Q :
  good c w0 s ->
  (forall d, good c w0 (set_world (set_db d (world s)) s) -> Q tt (set_world (set_db d (world s)) s)) ->
  wp (failed w0) (modifyDB (AddRefund x)) s Q.
Proof.
  intros Hg HQ. apply wp_modifyDB_good; [done|intros; by apply changed_AddRefund|intros; by apply ledger_AddRefund|apply HQ].
Qed.

Lemma wp_charge_call g s x rest Q :
  good c w0 s -> stack s = x :: rest ->
  (forall t g', 0 <= g' -> good c w0 (set_world (set_callGasTemp t (world s)) s) ->
     Q g' (set_world (set_callGasTemp t (world s)) s)) ->
  wp (failed w0) (charge_call evm g) s Q.
Proof.
  intros Hg Hs HQ. unfold charge_call. apply wp_bind, wp_get, wp_bind. eapply wp_Back; [by rewrite Hs|].
  destruct (callGas _ _ _ _) as [t|] eqn:Et.
  - apply callGas_u64 in Et. pose proof (good_temp_set c w0 s t Hg Et) as Hg'.
    apply wp_bind, wp_modify, (wp_SafeAdd c); [done|]. auto.
  - apply wp_bind, wp_modify, wp_fail. apply (good_temp_set c w0 s 0 Hg). by_decide.
Qed.

End Gas.
End Typed.

(** One step of a gas function, on the stack of [Hs]. *)
Ltac gas_step Hs :=
  lazymatch goal with
  | |- wp _ (modifyDB (AddRefund _)) _ _ => eapply wp_AddRefund; [eassumption|intros]
  | |- wp _ (memoryGas _) _ _ => eapply wp_memoryGas; [eassumption|intros]
  | |- wp _ (checked (SafeAdd _ _)) _ _ => eapply wp_SafeAdd; [eassumption|intros]
  | |- wp _ (checked (SafeMul _ _)) _ _ => eapply wp_SafeMul; [eassumption|intros]
  | |- wp _ (checked (bigUint64 _)) _ _ => eapply wp_bigUint64; [eassumption|intros]
  | |- wp _ (charge_call _ _) _ _ => eapply wp_charge_call; [eassumption|cbn [stack set_mem]; exact Hs|intros]
  | |- wp _ (Back _) _ _ => eapply wp_Back; [cbn [stack set_mem]; rewrite Hs; reflexivity|]
  | _ => wp_step
  end.
Ltac gas_wp Hs :=
  autounfold with evm_gas; cbv zeta; repeat gas_step Hs;
  try (split; cbn [stack mem pc set_mem set_world];
       solve [assumption|reflexivity|congruence|done|lia|apply is_u64_u64|eauto]).
