(* ===== verification/EvmTypedOps.v ===== *)
(** Every instruction of the interpreter keeps the types of EvmTyped and does not
    panic. *)

From stdpp Require Import gmap.
From S2P Require Import Prelude GoMath Params EvmCode EvmMemory EvmState EvmInstr EvmGas EvmAddress EvmInterp EvmLogic EvmGasBound EvmTermination EvmWorldRel EvmRevert EvmArith EvmTyped.

(** * Tactics for single instructions *)
Create HintDb words.
#[export] Hint Resolve is_word_U256 is_word_word is_word_flag : words.

Lemma makeStackFunc_ok p q st : makeStackFunc p q st = None -> p <= zlen st /\ zlen st + q - p <= StackLimit.
Proof. unfold makeStackFunc, require. do 2 (case_if; [done|]). lia. Qed.

(** A stack with enough words, taken apart. *)
Lemma stack_open1 (st : list Z) :
  1 <= zlen st -> Forall is_word st ->
  exists x0 rest, st = x0 :: rest /\ is_word x0 /\ Forall is_word rest /\ zlen st = 1 + zlen rest.
Proof.
  intros Hl Hw. destruct Hw as [|x0 rest Hx Hr]; [by vm_compute in Hl|]. exists x0, rest. rewrite zlen_cons. auto.
Qed.
Lemma stack_open2 (st : list Z) :
  2 <= zlen st -> Forall is_word st ->
  exists x0 x1 rest, st = x0 :: x1 :: rest /\ is_word x0 /\ is_word x1 /\ Forall is_word rest /\ zlen st = 2 + zlen rest.
Proof.
  intros Hl Hw. destruct (stack_open1 st ltac:(lia) Hw) as (x0 & r & -> & H0 & Hr & Hz).
  destruct (stack_open1 r ltac:(lia) Hr) as (x1 & rest & -> & Hx & Hrest & Hz').
  exists x0, x1, rest. repeat (split; [done|]). lia.
Qed.
Lemma stack_open3 (st : list Z) :
  3 <= zlen st -> Forall is_word st ->
  exists x0 x1 x2 rest, st = x0 :: x1 :: x2 :: rest /\ is_word x0 /\ is_word x1 /\ is_word x2 /\ Forall is_word rest /\ zlen st = 3 + zlen rest.
Proof.
  intros Hl Hw. destruct (stack_open2 st ltac:(lia) Hw) as (x0 & x1 & r & -> & H0 & H1 & Hr & Hz).
  destruct (stack_open1 r ltac:(lia) Hr) as (x2 & rest & -> & Hx & Hrest & Hz').
  exists x0, x1, x2, rest. repeat (split; [done|]). lia.
Qed.
Lemma stack_open4 (st : list Z) :
  4 <= zlen st -> Forall is_word st ->
  exists x0 x1 x2 x3 rest, st = x0 :: x1 :: x2 :: x3 :: rest /\ is_word x0 /\ is_word x1 /\ is_word x2 /\ is_word x3 /\ Forall is_word rest /\ zlen st = 4 + zlen rest.
Proof.
  intros Hl Hw. destruct (stack_open3 st ltac:(lia) Hw) as (x0 & x1 & x2 & r & -> & H0 & H1 & H2 & Hr & Hz).
  destruct (stack_open1 r ltac:(lia) Hr) as (x3 & rest & -> & Hx & Hrest & Hz').
  exists x0, x1, x2, x3, rest. repeat (split; [done|]). lia.
Qed.
Lemma stack_open5 (st : list Z) :
  5 <= zlen st -> Forall is_word st ->
  exists x0 x1 x2 x3 x4 rest, st = x0 :: x1 :: x2 :: x3 :: x4 :: rest /\ is_word x0 /\ is_word x1 /\ is_word x2 /\ is_word x3 /\ is_word x4 /\ Forall is_word rest /\ zlen st = 5 + zlen rest.
Proof.
  intros Hl Hw. destruct (stack_open4 st ltac:(lia) Hw) as (x0 & x1 & x2 & x3 & r & -> & H0 & H1 & H2 & H3 & Hr & Hz).
  destruct (stack_open1 r ltac:(lia) Hr) as (x4 & rest & -> & Hx & Hrest & Hz').
  exists x0, x1, x2, x3, x4, rest. repeat (split; [done|]). lia.
Qed.
Lemma stack_open6 (st : list Z) :
  6 <= zlen st -> Forall is_word st ->
  exists x0 x1 x2 x3 x4 x5 rest, st = x0 :: x1 :: x2 :: x3 :: x4 :: x5 :: rest /\ is_word x0 /\ is_word x1 /\ is_word x2 /\ is_word x3 /\ is_word x4 /\ is_word x5 /\ Forall is_word rest /\ zlen st = 6 + zlen rest.
Proof.
  intros Hl Hw. destruct (stack_open5 st ltac:(lia) Hw) as (x0 & x1 & x2 & x3 & x4 & r & -> & H0 & H1 & H2 & H3 & H4 & Hr & Hz).
  destruct (stack_open1 r ltac:(lia) Hr) as (x5 & rest & -> & Hx & Hrest & Hz').
  exists x0, x1, x2, x3, x4, x5, rest. repeat (split; [done|]). lia.
Qed.
Lemma stack_open7 (st : list Z) :
  7 <= zlen st -> Forall is_word st ->
  exists x0 x1 x2 x3 x4 x5 x6 rest, st = x0 :: x1 :: x2 :: x3 :: x4 :: x5 :: x6 :: rest /\ is_word x0 /\ is_word x1 /\ is_word x2 /\ is_word x3 /\ is_word x4 /\ is_word x5 /\ is_word x6 /\ Forall is_word rest /\ zlen st = 7 + zlen rest.
Proof.
  intros Hl Hw. destruct (stack_open6 st ltac:(lia) Hw) as (x0 & x1 & x2 & x3 & x4 & x5 & r & -> & H0 & H1 & H2 & H3 & H4 & H5 & Hr & Hz).
  destruct (stack_open1 r ltac:(lia) Hr) as (x6 & rest & -> & Hx & Hrest & Hz').
  exists x0, x1, x2, x3, x4, x5, x6, rest. repeat (split; [done|]). lia.
Qed.

Section Ops.
Context {Hash DB : Type} `{HashFn Hash} `{!StateDB Hash DB} `{!SnapshotLaws Hash DB} `{!Ledger DB} `{!LedgerLaws Hash DB}.
Hypothesis HashBig_word : forall h : Hash, is_word (HashBig h).
Hypothesis Keccak_inj : forall b b' : bytes, Keccak256 (Hash := Hash) b = Keccak256 b' -> b = b'.
Variables (evm : EVM) (c : Contract Hash).
Hypothesis evm_ok : evm_typed evm.
Hypothesis c_ok : contract_typed c.
Hypothesis not_constantinople : rConstantinople (chainRules evm) = false.

Lemma sstore_gas w0 s size x0 x1 rest :
  good c w0 s -> stack s = x0 :: x1 :: rest ->
  wp (failed w0) (gasSStore evm c size) s (gas_post c w0 s false size).
Proof. intros Hg Hs. unfold gasSStore. rewrite not_constantinople. cbn [negb]. gas_wp Hs. Qed.

(** The frame after an instruction that only changes the stack. *)
Lemma op_post_stack w0 s st :
  good c w0 s -> Forall is_word st -> zlen st <= StackLimit -> pc s <= zlen (Code c) + 32 ->
  op_post c w0 [] (set_stack st s).
Proof. intros. split; [by split; [constructor|by_compute]|]. split; [by apply good_set_stack|done]. Qed.

Lemma is_word_range x : 0 <= x < 2 ^ 160 -> is_word x.
Proof. unfold is_word. lia. Qed.

(** An instruction computed on words. *)
Lemma computes_typed w0 s op sem st :
  computes op sem -> good c w0 s -> pc s < zlen (Code c) -> result sem (stack s) = Some st -> zlen st <= StackLimit ->
  wp (failed w0) op s (op_post c w0).
Proof.
  intros Hc Hg Hpc Hr Hl. destruct (Hc s st (good_stack _ _ _ Hg) Hr) as [E Hw]. unfold wp. rewrite E.
  apply op_post_stack; [done..|lia].
Qed.

Definition arity (sem : semantics) : Z := match sem with Unary _ => 1 | Binary _ => 2 | Ternary _ => 3 end.

Lemma result_arity sem st :
  arity sem <= zlen st -> exists st', result sem st = Some st' /\ zlen st' = zlen st + 1 - arity sem.
Proof.
  unfold zlen. destruct sem, st as [|x [|y [|z st]]]; cbn [arity result length]; try lia; intros _;
    (eexists; split; [reflexivity|cbn [length]; lia]).
Qed.

Lemma arith_typed op sem g :
  computes op sem ->
  (forall w0 s size, good c w0 s -> arity sem <= zlen (stack s) ->
     wp (failed w0) (g size) s (gas_post c w0 s false size)) ->
  op_typed c (plain op g (makeStackFunc (arity sem) 1)).
Proof.
  intros Hc Hgas w0 s Hg Hpc Hv. apply makeStackFunc_ok in Hv as [Hp Hq]. split; [intros; by apply Hgas|].
  intros _. destruct (result_arity sem (stack s) Hp) as (st & Hr & Hl). eapply computes_typed; [done..|lia].
Qed.

Lemma const_gas w0 s g size n :
  0 <= g -> good c w0 s -> n <= zlen (stack s) -> wp (failed w0) (constGasFunc g size) s (gas_post c w0 s false size).
Proof. intros ? Hg _. unfold constGasFunc. by split. Qed.

Ltac const_gas := intros; eapply const_gas; [by vm_compute|eassumption|eassumption].

Lemma exp_gas w0 s size :
  good c w0 s -> 2 <= zlen (stack s) -> wp (failed w0) (gasExp evm size) s (gas_post c w0 s false size).
Proof.
  intros Hg Hl. destruct (stack s) as [|x [|y rest]] eqn:Hs; unfold zlen in Hl; cbn [length] in Hl; try lia. gas_wp Hs.
Qed.

Definition table_typed (l : list (Z * operation (Hash := Hash) (DB := DB))) : Prop := Forall (fun e => op_typed c e.2) l.

Lemma stop_typed : op_typed c (halting (plain opStop (constGasFunc 0) (makeStackFunc 0 0))).
Proof.
  intros w0 s Hg Hpc Hv. apply makeStackFunc_ok in Hv as [Hp Hq]. split; [intros size; by eapply const_gas|].
  intros _. cbn [execute halting plain]. unfold opStop. wp_step.
  split; [by split; [constructor|by_compute]|]. split; [done|]. lia.
Qed.

Lemma arithmetic_typed : table_typed (arithmetic_set evm).
Proof.
  unfold table_typed, arithmetic_set. apply Forall_cons_2; [exact stop_typed|].
  repeat (apply Forall_cons_2;
    [cbn [snd]; first
      [ eapply (arith_typed _ (Ternary _)); [first [apply Addmod_ok|apply Mulmod_ok]|const_gas]
      | eapply (arith_typed _ (Unary _)); [first [apply Iszero_ok|apply Not_ok]|const_gas]
      | eapply (arith_typed _ (Binary _)); [apply Exp_op_ok|apply exp_gas]
      | eapply (arith_typed _ (Binary _));
          [first [apply Add_ok|apply Mul_ok|apply Sub_ok|apply Div_ok|apply Sdiv_ok|apply Mod_ok|apply Smod_ok
                 |apply SignExtend_ok|apply Lt_ok|apply Gt_ok|apply Slt_ok|apply Sgt_ok|apply Eq_ok|apply And_ok
                 |apply Or_ok|apply Xor_ok|apply Byte_op_ok]
          |const_gas] ]|]).
  apply Forall_nil_2.
Qed.

(** Instructions that replace the top of the stack by words. *)
Lemma words_typed op g p q :
  (forall w0 s size, good c w0 s -> p <= zlen (stack s) ->
     wp (failed w0) (g size) s (gas_post c w0 s false size)) ->
  (forall w0 s, good c w0 s -> p <= zlen (stack s) -> exists st,
     op s = (Ret [], set_stack st s) /\ Forall is_word st /\ zlen st = zlen (stack s) + q - p) ->
  op_typed c (plain op g (makeStackFunc p q)).
Proof.
  intros Hgas Hop w0 s Hg Hpc Hv. apply makeStackFunc_ok in Hv as [Hp Hq]. split; [intros; by apply Hgas|].
  intros _. destruct (Hop w0 s Hg Hp) as (st & E & Hw & Hl). cbn [execute plain]. unfold wp. rewrite E.
  apply op_post_stack; [done..|lia|lia].
Qed.

Lemma push_typed op g (f : Frame Hash DB -> Z) :
  0 <= g -> (forall w0 s, good c w0 s -> is_word (f s)) ->
  (forall s, op s = (Ret [], set_stack (f s :: stack s) s)) ->
  op_typed c (plain op (constGasFunc g) (makeStackFunc 0 1)).
Proof.
  intros Hg Hf Hop. apply words_typed; [intros; by eapply const_gas|]. intros w0 s Hgood _. exists (f s :: stack s).
  split; [done|]. split; [constructor; [by eapply Hf|apply Hgood]|]. rewrite zlen_cons. lia.
Qed.

Lemma map_typed op g (f : Frame Hash DB -> Z -> Z) :
  (forall w0 s size, good c w0 s -> 1 <= zlen (stack s) ->
     wp (failed w0) (g size) s (gas_post c w0 s false size)) ->
  (forall w0 s x, good c w0 s -> is_word x -> is_word (f s x)) ->
  (forall w0 s x rest, good c w0 s -> is_word x -> stack s = x :: rest -> op s = (Ret [], set_stack (f s x :: rest) s)) ->
  op_typed c (plain op g (makeStackFunc 1 1)).
Proof.
  intros Hgas Hf Hop. apply words_typed; [done|]. intros w0 s Hg Hl. pose proof (good_stack _ _ _ Hg) as Hw.
  destruct (stack s) as [|x rest] eqn:Hs; [unfold zlen in Hl; simpl in Hl; lia|].
  apply Forall_cons_1 in Hw as [Hx Hr]. exists (f s x :: rest). split; [by eapply Hop|].
  split; [constructor; [by eapply Hf|done]|]. rewrite !zlen_cons. lia.
Qed.

Lemma small_word b : small_bytes b -> is_word (zlen b).
Proof. intros [_ Hl]. pose proof (zlen_nonneg b). unfold is_word. lia. Qed.

Lemma u64_word x : is_u64 x -> is_word x.
Proof. unfold is_u64, is_word. lia. Qed.

Lemma be_word d : wf_bytes d -> zlen d = 32 -> is_word (be_to_Z d).
Proof.
  intros Hd Hl. pose proof (be_to_Z_bound d Hd) as Hb. rewrite Hl in Hb. exact Hb.
Qed.

Ltac run_op Hs :=
  unfold bind, pop, peek, assign, push, getDB, get, lift, modify, done_nil, ret; cbv zeta; rewrite ?Hs;
  cbn [stack set_stack]; rewrite ?Hs; cbn [stack set_stack].

(** ** Environment *)
Lemma environment_push_typed op g (v : Z) :
  0 <= g -> is_word v -> op = (seq! push v in done_nil) ->
  op_typed c (plain op (constGasFunc g) (makeStackFunc 0 1)).
Proof. intros Hg Hv ->. by apply (push_typed _ _ (fun _ => v)). Qed.

Lemma balance_typed : op_typed c (plain opBalance (gasBalance evm) (makeStackFunc 1 1)).
Proof.
  apply (map_typed _ _ (fun s x => GetBalance (db (world s)) (BigToAddress x))).
  - intros. split; try done. pose proof (gasTable_pos evm). lia.
  - intros w0 s x Hg _. apply typed_balance. apply Hg.
  - intros w0 s x rest _ _ Hs. unfold opBalance. by run_op Hs.
Qed.

Lemma extcodesize_typed : op_typed c (plain opExtCodeSize (gasExtCodeSize evm) (makeStackFunc 1 1)).
Proof.
  apply (map_typed _ _ (fun s x => u64 (GetCodeSize (db (world s)) (BigToAddress x)))).
  - intros. split; try done. pose proof (gasTable_pos evm). lia.
  - intros w0 s x Hg _. apply u64_word, is_u64_u64.
  - intros w0 s x rest _ _ Hs. unfold opExtCodeSize. by run_op Hs.
Qed.

Lemma sload_typed : op_typed c (plain (opSload c) (gasSLoad evm) (makeStackFunc 1 1)).
Proof.
  apply (map_typed _ _ (fun s x => GetState (db (world s)) (self c) (BigToHash x))).
  - intros. split; try done. pose proof (gasTable_pos evm). lia.
  - intros w0 s x Hg _. apply typed_state. apply Hg.
  - intros w0 s x rest _ _ Hs. unfold opSload. by run_op Hs.
Qed.

Lemma blockhash_typed : op_typed c (plain (opBlockhash evm) (constGasFunc GasExtStep) (makeStackFunc 1 1)).
Proof.
  apply (map_typed _ _ (fun _ num =>
    if (BlockNumber (evmContext evm) - 257 <? num) && (num <? BlockNumber (evmContext evm))
    then GetHash (evmContext evm) (Uint64 num) else 0)); [const_gas|..].
  - intros w0 s x _ _. case_if; [apply evm_ok|unfold is_word; lia].
  - intros w0 s x rest _ _ Hs. unfold opBlockhash. run_op Hs. by case_if.
Qed.

Lemma calldataload_typed : op_typed c (plain (opCallDataLoad c) (constGasFunc GasFastestStep) (makeStackFunc 1 1)).
Proof.
  assert (forall x, is_word x -> exists d, getDataBig (Input c) x 32 = Some d /\ is_word (be_to_Z d)) as Hd.
  { intros x Hx. destruct (typed_Input _ c_ok) as [Hw Hl].
    destruct (getDataBig_ok (Input c) x 32) as (d & Hd & Hz & Hdw); [apply Hx|lia|lia|].
    exists d. split; [done|]. apply be_word; auto. }
  apply (map_typed _ _ (fun _ x => be_to_Z (default [] (getDataBig (Input c) x 32)))); [const_gas|..].
  - intros w0 s x _ Hx. destruct (Hd x Hx) as (d & -> & Hw). done.
  - intros w0 s x rest _ Hx Hs. unfold opCallDataLoad. run_op Hs.
    destruct (Hd x Hx) as (d & -> & _). done.
Qed.

(** ** Memory *)
Lemma calc_covered off size len :
  is_word off -> is_word size -> calcMemSize off size <= len -> 0 < size -> 0 <= off /\ off + size <= len.
Proof. unfold calcMemSize, is_word. intros. case_if_in H2; lia. Qed.

Lemma get_covered m off size :
  wf_bytes (store m) -> zlen (store m) <= max_memory -> is_word off -> is_word size ->
  calcMemSize off size <= zlen (store m) ->
  exists r, Memory_Get m (Int64 off) (Int64 size) = Some r /\ small_bytes r.
Proof.
  intros Hw Hm Ho Hs Hc. unfold max_memory in Hm. destruct (Z.eq_dec size 0) as [->|Hne].
  { exists []. split; [done|]. by split; [constructor|by_compute]. }
  destruct (calc_covered off size _ Ho Hs Hc) as [? ?]; [unfold is_word in Hs; lia|].
  rewrite !Int64_small by (unfold is_word in *; lia).
  destruct (Memory_Get_ok m off size) as (r & Hr & Hl & Hrw); [unfold is_word in Hs; lia|done|].
  exists r. split; [done|]. split; [auto|lia].
Qed.

Lemma wp_memory_Set w0 s off size val Q :
  good c w0 s -> is_word off -> is_word size -> calcMemSize off size <= zlen (store (mem s)) -> wf_bytes val ->
  (forall m, good c w0 (set_mem m s) -> Q tt (set_mem m s)) ->
  wp (failed w0) (memory_Set (Uint64 off) (Uint64 size) val) s Q.
Proof.
  intros Hg Ho Hs Hc Hv HQ. unfold memory_Set. apply wp_bind, wp_get, wp_bind, wp_lift.
  pose proof (good_memory _ _ _ Hg) as Hm. unfold max_memory in Hm.
  destruct (Memory_Set_ok (mem s) (Uint64 off) (Uint64 size) val) as (m & E & _ & Hl & Hw).
  - apply is_u64_Uint64.
  - intros Hpos. assert (0 < size) as Hp.
    { unfold is_word in Hs. destruct (Z.eq_dec size 0) as [->|]; [by vm_compute in Hpos|lia]. }
    destruct (calc_covered off size _ Ho Hs Hc Hp). unfold is_word in *.
    rewrite !Uint64_small by (unfold is_u64; lia). lia.
  - exists m. split; [done|]. apply wp_modify, HQ, good_set_mem; [done|apply Hw; [apply Hg|done]|].
    rewrite Hl. apply Hg.
Qed.

(** A stack of words with known words on top. *)
Lemma op_post_good w0 s :
  good c w0 s -> pc s < zlen (Code c) -> zlen (stack s) <= StackLimit -> op_post c w0 [] s.
Proof. intros. split; [by split; [constructor|by_compute]|]. split; [done|]. split; [done|lia]. Qed.

(** Start of a proof about one operation: gas on the left, execution on the right. *)
Ltac start :=
  let w0 := fresh "w0" in let s := fresh "s" in let Hg := fresh "Hg" in let Hv := fresh "Hv" in
  let Hpc := fresh "Hpc" in intros w0 s Hg Hpc Hv;
  cbn [validateStack execute gasCost memorySize plain with_memory halting jumping writing reverting returning covered] in *;
  apply makeStackFunc_ok in Hv as [Hp Hq].

(** Copies into memory. *)
Lemma copy_exec w0 s mo dof len data :
  good c w0 s -> is_word mo -> is_word dof -> is_word len -> calcMemSize mo len <= zlen (store (mem s)) ->
  small_bytes data -> zlen (stack s) <= StackLimit -> pc s < zlen (Code c) ->
  wp (failed w0) (do! d := lift (getDataBig data dof len) in seq! memory_Set (Uint64 mo) (Uint64 len) d in done_nil) s
    (op_post c w0).
Proof.
  intros Hg Hmo Hd Hl Hc [Hdw Hdl] Hst Hpc. pose proof (good_memory _ _ _ Hg) as Hm. unfold max_memory in Hm.
  assert (0 <= len < 2 ^ 63) as Hlen.
  { unfold is_word, calcMemSize in *. case_if_in Hc; lia. }
  destruct (getDataBig_ok data dof len) as (d & E & _ & Hw); [apply Hd|done|lia|].
  apply wp_bind, wp_lift. exists d. split; [done|]. apply wp_bind.
  apply wp_memory_Set; auto. intros m Hgm. wp_step. by apply (op_post_good w0 (set_mem m s)).
Qed.

Lemma calldatacopy_typed :
  op_typed c (with_memory memoryCallDataCopy (plain (opCallDataCopy c) gasCallDataCopy (makeStackFunc 3 0))).
Proof.
  start. destruct (stack_open3 _ Hp (good_stack _ _ _ Hg)) as (x0 & x1 & x2 & rest & Hs & H0 & H1 & H2 & Hr & Hz).
  split; [intros size; gas_wp Hs|]. intros (n & Hn & Hle). rewrite Hs in Hn. injection Hn as <-.
  unfold opCallDataCopy. do 6 wp_step. apply (copy_exec w0 (set_stack rest s)); try done.
  - by apply good_set_stack.
  - apply c_ok.
  - cbn. lia.
Qed.

Lemma codecopy_typed : op_typed c (with_memory memoryCodeCopy (plain (opCodeCopy c) gasCodeCopy (makeStackFunc 3 0))).
Proof.
  start. destruct (stack_open3 _ Hp (good_stack _ _ _ Hg)) as (x0 & x1 & x2 & rest & Hs & H0 & H1 & H2 & Hr & Hz).
  split; [intros size; gas_wp Hs|]. intros (n & Hn & Hle). rewrite Hs in Hn. injection Hn as <-.
  unfold opCodeCopy. do 6 wp_step. apply (copy_exec w0 (set_stack rest s)); try done.
  - by apply good_set_stack.
  - apply c_ok.
  - cbn. lia.
Qed.

Lemma extcodecopy_typed :
  op_typed c (with_memory memoryExtCodeCopy (plain opExtCodeCopy (gasExtCodeCopy evm) (makeStackFunc 4 0))).
Proof.
  start. destruct (stack_open4 _ Hp (good_stack _ _ _ Hg)) as (x0 & x1 & x2 & x3 & rest & Hs & H0 & H1 & H2 & H3 & Hr & Hz).
  split; [intros size; gas_wp Hs|]. intros (n & Hn & Hle). rewrite Hs in Hn. injection Hn as <-.
  unfold opExtCodeCopy. cbv zeta. do 10 wp_step. apply (copy_exec w0 (set_stack rest s)); try done.
  - by apply good_set_stack.
  - apply typed_code. apply Hg.
  - cbn. lia.
Qed.

Lemma returndatacopy_typed :
  op_typed c (with_memory memoryReturnDataCopy (plain opReturnDataCopy gasReturnDataCopy (makeStackFunc 3 0))).
Proof.
  start. destruct (stack_open3 _ Hp (good_stack _ _ _ Hg)) as (x0 & x1 & x2 & rest & Hs & H0 & H1 & H2 & Hr & Hz).
  split; [intros size; gas_wp Hs|]. intros (n & Hn & Hle). rewrite Hs in Hn. injection Hn as <-.
  unfold opReturnDataCopy. cbv zeta. do 8 wp_step. destruct (_ || _) eqn:E; [apply wp_fail, Hg|].
  apply orb_false_iff in E as [Hb Hl]. apply Z.ltb_ge in Hl. unfold is_word in H1, H2.
  destruct (bigUint64_ok (x1 + x2) ltac:(lia) Hb) as [Hu _]. unfold is_u64 in Hu.
  assert (Uint64 (x1 + x2) = x1 + x2) as Hend by (by apply Uint64_small).
  change (returnData (world _)) with (returnData (world s)) in *.
  rewrite Hend in Hl |- *. rewrite (Uint64_small x1) by (unfold is_u64; lia).
  destruct (slice_is_some (returnData (world s)) x1 (x1 + x2)) as (d & Hd & _); [lia|done|].
  apply wp_bind, wp_lift. exists d. split; [done|]. apply wp_bind.
  apply (wp_memory_Set w0 (set_stack rest s)); try done.
  - by apply good_set_stack.
  - eapply wf_slice; [|exact Hd]. apply Hg.
  - intros m Hgm. wp_step. apply (op_post_good w0 (set_mem m (set_stack rest s))); [done|done|]. cbn. lia.
Qed.

Lemma sha3_typed : op_typed c (with_memory memorySha3 (plain (opSha3 evm) gasSha3 (makeStackFunc 2 1))).
Proof.
  start. destruct (stack_open2 _ Hp (good_stack _ _ _ Hg)) as (x0 & x1 & rest & Hs & H0 & H1 & Hr & Hz).
  split; [intros size; gas_wp Hs|]. intros (n & Hn & Hle). rewrite Hs in Hn. injection Hn as <-.
  unfold opSha3. cbv zeta. do 6 wp_step.
  destruct (get_covered (mem s) x0 x1) as (d & Hd & _); [apply Hg..|done|done|done|].
  apply wp_bind, wp_lift. exists d. split; [done|]. apply wp_bind.
  assert (forall s', good c w0 s' -> stack s' = rest -> pc s' = pc s ->
    wp (failed w0) (seq! push (HashBig (Keccak256 d)) in done_nil) s' (op_post c w0)) as Hend.
  { intros s' Hg' Hs' Hpc'. do 3 wp_step. apply op_post_stack; [done| |rewrite Hs', zlen_cons; lia|lia].
    rewrite Hs'. constructor; [apply HashBig_word|done]. }
  assert (good c w0 (set_stack rest s)) as Hgr by (by apply good_set_stack).
  destruct (EnablePreimageRecording _).
  - apply (wp_modifyDB_good c w0 _ (set_stack rest s)); [done|..].
    + intros. by apply changed_AddPreimage.
    + intros. by apply ledger_AddPreimage.
    + intros Hg'. by apply Hend.
  - apply wp_ret. by apply Hend.
Qed.

Lemma environment_typed : table_typed (environment_set evm c).
Proof.
  assert (forall x, is_word (U256 x)) as Hu by apply is_word_U256.
  destruct evm_ok as [? ? ? ?]. destruct c_ok as [HC HI ? ? ? ?].
  pose proof (small_word _ HC). pose proof (small_word _ HI).
  unfold table_typed, environment_set.
  repeat (apply Forall_cons_2;
    [cbn [snd]; first
      [ exact sha3_typed | exact balance_typed | exact calldataload_typed | exact calldatacopy_typed
      | exact codecopy_typed | exact extcodesize_typed | exact extcodecopy_typed | exact blockhash_typed
      | eapply environment_push_typed; [by vm_compute| |reflexivity]; solve [eauto] ]|]).
  apply Forall_nil_2.
Qed.

(** ** Stack, memory, storage and control *)
Lemma index_in_range {A} (l : list A) i : 0 <= i < zlen l -> exists x, index l i = Some x.
Proof.
  intros Hi. unfold index. rewrite (proj2 (Z.leb_le 0 i)) by lia.
  destruct (lookup_lt_is_Some_2 l (Z.to_nat i)) as [x Hx]; [unfold zlen in Hi; lia|by exists x].
Qed.

Lemma pop_typed : op_typed c (plain opPop (constGasFunc GasQuickStep) (makeStackFunc 1 0)).
Proof.
  apply words_typed; [const_gas|]. intros w0 s Hg Hp.
  destruct (stack_open1 _ Hp (good_stack _ _ _ Hg)) as (x0 & rest & Hs & _ & Hr & Hz). exists rest.
  split; [unfold opPop; by run_op Hs|]. split; [done|lia].
Qed.

Lemma mload_typed : op_typed c (with_memory memoryMLoad (plain opMload gasMLoad (makeStackFunc 1 1))).
Proof.
  start. destruct (stack_open1 _ Hp (good_stack _ _ _ Hg)) as (x0 & rest & Hs & H0 & Hr & Hz).
  split; [intros size; gas_wp Hs|]. intros (n & Hn & Hle). rewrite Hs in Hn. injection Hn as <-.
  unfold opMload. do 4 wp_step. pose proof (good_memory _ _ _ Hg) as Hm. unfold max_memory in Hm.
  destruct (calc_covered x0 32 _ H0 ltac:(unfold is_word; lia) Hle) as [? ?]; [lia|].
  rewrite Int64_small by lia.
  destruct (Memory_Get_ok (mem s) x0 32) as (d & Hd & Hl & Hw); [lia|done|].
  apply wp_bind, wp_lift. exists d. split; [done|]. do 3 wp_step.
  apply (op_post_stack w0 (set_stack rest s)); [by apply good_set_stack| |rewrite zlen_cons; cbn [stack set_stack]; lia|cbn [pc set_stack]; lia].
  constructor; [|done]. apply be_word; [apply Hw, Hg|done].
Qed.

Lemma mstore_typed : op_typed c (with_memory memoryMStore (plain opMstore gasMStore (makeStackFunc 2 0))).
Proof.
  start. destruct (stack_open2 _ Hp (good_stack _ _ _ Hg)) as (x0 & x1 & rest & Hs & H0 & H1 & Hr & Hz).
  split; [intros size; gas_wp Hs|]. intros (n & Hn & Hle). rewrite Hs in Hn. injection Hn as <-.
  unfold opMstore. do 6 wp_step. pose proof (good_memory _ _ _ Hg) as Hm. unfold max_memory in Hm.
  destruct (calc_covered x0 32 _ H0 ltac:(unfold is_word; lia) Hle) as [? ?]; [lia|].
  rewrite Uint64_small by (unfold is_u64; lia).
  destruct (Memory_Set32_ok (mem s) x0 x1) as (m & E & _ & Hl & Hw & _); [lia|lia|apply H1|].
  apply wp_bind, wp_lift. exists m. split; [done|]. do 3 wp_step.
  apply (op_post_good w0 (set_mem m (set_stack rest s))); [|done|cbn; lia].
  apply good_set_mem; [by apply good_set_stack|apply Hw, Hg|rewrite Hl; apply Hg].
Qed.

Lemma mstore8_typed : op_typed c (with_memory memoryMStore8 (plain opMstore8 gasMStore8 (makeStackFunc 2 0))).
Proof.
  start. destruct (stack_open2 _ Hp (good_stack _ _ _ Hg)) as (x0 & x1 & rest & Hs & H0 & H1 & Hr & Hz).
  split; [intros size; gas_wp Hs|]. intros (n & Hn & Hle). rewrite Hs in Hn. injection Hn as <-.
  unfold opMstore8. cbv zeta. do 6 wp_step. pose proof (good_memory _ _ _ Hg) as Hm. unfold max_memory in Hm.
  destruct (calc_covered x0 1 _ H0 ltac:(unfold is_word; lia) Hle) as [? ?]; [lia|].
  rewrite (Int64_small x0) by lia.
  destruct (index_in_range (store (mem s)) x0) as [b E]; [lia|].
  apply wp_bind, wp_lift. exists b. split; [done|]. do 3 wp_step.
  match goal with |- op_post _ _ _ (set_mem ?m _) => set (m' := m) end.
  apply (op_post_good w0 (set_mem m' (set_stack rest s))); [|done|cbn; lia].
  apply good_set_mem; [by apply good_set_stack|..]; unfold m'; cbn [store set_store].
  - apply Forall_insert; [apply Hg|apply is_byte_u8].
  - unfold zlen. rewrite length_insert. apply Hg.
Qed.

Lemma sstore_typed : op_typed c (writing (plain (opSstore c) (gasSStore evm c) (makeStackFunc 2 0))).
Proof.
  start. destruct (stack_open2 _ Hp (good_stack _ _ _ Hg)) as (x0 & x1 & rest & Hs & H0 & H1 & Hr & Hz).
  split; [intros size; by eapply sstore_gas|]. intros _. unfold opSstore. cbv zeta. do 5 wp_step.
  apply (wp_modifyDB_good c w0 _ (set_stack rest s)); [by apply good_set_stack|..].
  - intros. by apply changed_SetState.
  - intros. apply ledger_SetState; [done|]. apply Z.mod_pos_bound. lia.
  - intros Hg'. wp_step. match goal with |- op_post _ _ _ ?s1 => apply (op_post_good w0 s1) end; [done|done|]. cbn. lia.
Qed.

Lemma wp_validJumpdest w0 s pos Q :
  good c w0 s ->
  (forall b s', good c w0 s' -> stack s' = stack s -> pc s' = pc s -> (b = true -> Uint64 pos < zlen (Code c)) -> Q b s') ->
  wp (failed w0) (validJumpdest c pos) s Q.
Proof.
  intros Hg HQ. unfold validJumpdest. cbv zeta. destruct (_ || _) eqn:E; [by apply wp_ret, HQ|].
  apply orb_false_iff in E as [_ Hlt]. apply Z.leb_gt in Hlt. pose proof (is_u64_Uint64 pos) as [Hpos _].
  destruct (index_in_range (Code c) (Uint64 pos)) as [op Ei]; [lia|].
  apply wp_bind, wp_lift. exists op. split; [done|]. destruct (negb (op =? JUMPDEST)); [by apply wp_ret, HQ|].
  destruct (codeBitmap_ok (Code c)) as (bits & Hbits & Hgood). destruct (Hgood (Uint64 pos)) as (b & Hseg & _); [lia|].
  destruct (negb (bool_decide _)) eqn:Eh.
  - apply negb_true_iff, bool_decide_eq_false in Eh. apply wp_bind, wp_get, wp_bind.
    assert (CodeHash c = Keccak256 (Code c)) as Hk.
    { destruct (typed_hash _ c_ok) as [Hn|[?|?]]; [|done..]. rewrite Hn in Hlt. unfold zlen in Hlt. simpl in Hlt. lia. }
    destruct (jumpdests (world s) !! CodeHash c) as [a|] eqn:Ej.
    + destruct (good_jumpdests _ _ (good_world _ _ _ Hg) _ _ Ej) as (c' & Hc' & Ha). rewrite Hk in Hc'.
      apply Keccak_inj in Hc' as ->. rewrite Hbits in Ha. injection Ha as <-.
      apply wp_ret, wp_lift. exists b. split; [done|]. by apply HQ.
    + apply wp_bind, wp_lift. exists bits. split; [done|]. apply wp_bind, wp_modify, wp_ret, wp_lift.
      exists b. split; [done|]. apply HQ; try done. apply good_set_world; [done|].
      destruct (good_world _ _ _ Hg) as [? ? ? ? ? Hj]. split; try done.
      intros h a. cbn [jumpdests set_jumpdests]. intros [[<- <-]|[_ Ha]]%lookup_insert_Some; [|by apply Hj].
      by exists (Code c).
  - apply wp_bind, wp_get, wp_bind. destruct (analysis s) as [a|] eqn:Ea.
    + apply (good_analysis _ _ _ Hg) in Ea. rewrite Hbits in Ea. injection Ea as <-.
      apply wp_ret, wp_lift. exists b. split; [done|]. by apply HQ.
    + apply wp_bind, wp_lift. exists bits. split; [done|]. apply wp_bind, wp_modify, wp_ret, wp_lift.
      exists b. split; [done|]. apply HQ; try done. destruct Hg. split; try done. by intros ? [= <-].
Qed.

Lemma jump_end w0 s b pos :
  good c w0 s -> zlen (stack s) <= StackLimit -> (b = true -> Uint64 pos < zlen (Code c)) ->
  wp (failed w0)
    (if negb b then fail (errInvalidJump (GetOp c (Uint64 pos)) pos) else seq! modify (set_pc (Uint64 pos)) in done_nil) s
    (op_post c w0).
Proof.
  intros Hg Hl Hb. destruct b; cbn [negb]; [|apply wp_fail, Hg]. specialize (Hb eq_refl).
  pose proof (is_u64_Uint64 pos) as [? ?]. do 3 wp_step.
  split; [by split; [constructor|by_compute]|]. split; [apply good_set_pc; [done|lia]|].
  split; [done|]. cbn [pc set_pc]. lia.
Qed.

Lemma jump_typed : op_typed c (jumping (plain (opJump c) (constGasFunc GasMidStep) (makeStackFunc 1 0))).
Proof.
  start. destruct (stack_open1 _ Hp (good_stack _ _ _ Hg)) as (x0 & rest & Hs & H0 & Hr & Hz).
  split; [intros size; gas_wp Hs|]. intros _. unfold opJump. do 3 wp_step.
  apply (wp_validJumpdest w0 (set_stack rest s)); [by apply good_set_stack|]. intros b s' Hg' Hs' _ Hb.
  apply jump_end; [done|rewrite Hs'; cbn [stack set_stack]; lia|done].
Qed.

Lemma jumpi_typed : op_typed c (jumping (plain (opJumpi c) (constGasFunc GasSlowStep) (makeStackFunc 2 0))).
Proof.
  start. destruct (stack_open2 _ Hp (good_stack _ _ _ Hg)) as (x0 & x1 & rest & Hs & H0 & H1 & Hr & Hz).
  split; [intros size; gas_wp Hs|]. intros _. unfold opJumpi. do 4 wp_step. destruct (negb (x1 =? 0)).
  - apply wp_bind, (wp_validJumpdest w0 (set_stack rest s)); [by apply good_set_stack|]. intros b s' Hg' Hs' _ Hb.
    apply jump_end; [done|rewrite Hs'; cbn [stack set_stack]; lia|done].
  - do 3 wp_step. cbn [pc set_stack]. pose proof (good_pc _ _ _ Hg). destruct (typed_Code _ c_ok) as [_ Hcl].
    rewrite u64_small by (unfold is_u64; lia).
    split; [by split; [constructor|by_compute]|].
    split; [apply (good_set_pc c w0 (set_stack rest s)); [by apply good_set_stack|lia]|].
    split; [cbn [stack set_pc set_stack]; lia|]. cbn [pc set_pc]. lia.
Qed.

Lemma storage_typed : table_typed (storage_set evm c).
Proof.
  unfold table_typed, storage_set.
  repeat (apply Forall_cons_2;
    [cbn [snd]; first
      [ exact pop_typed | exact mload_typed | exact mstore_typed | exact mstore8_typed | exact sload_typed
      | exact sstore_typed | exact jump_typed | exact jumpi_typed | idtac ]|]); [..|apply Forall_nil_2].
  - apply (push_typed _ _ pc); [by vm_compute| |done]. intros w0 s Hg. destruct (typed_Code _ c_ok) as [_ Hl].
    pose proof (good_pc _ _ _ Hg). unfold is_word. lia.
  - apply (push_typed _ _ (fun s => zlen (store (mem s)))); [by vm_compute| |done]. intros w0 s Hg.
    pose proof (good_memory _ _ _ Hg). pose proof (zlen_nonneg (store (mem s))). unfold is_word, max_memory in *. lia.
  - apply (push_typed _ _ gas); [by vm_compute| |done]. intros w0 s Hg. apply u64_word. apply Hg.
  - start. split; [intros size; by eapply const_gas; [by vm_compute|..]|]. intros _. unfold opJumpdest. wp_step.
    apply op_post_good; [done..|lia].
Qed.

(** ** Pushes, copies and swaps *)
Lemma push_entry_typed i : (1 <= i <= 32)%nat -> op_typed c (push_entry c i).2.
Proof.
  intros Hi. unfold push_entry. cbn [snd]. start. destruct (typed_Code _ c_ok) as [Hcw Hcl].
  pose proof (good_pc _ _ _ Hg) as Hpc'. pose proof (zlen_nonneg (Code c)).
  split; [intros size; unfold gasPush; apply wp_ret; by split|]. intros _. unfold makePush. cbv zeta.
  apply wp_bind, wp_get. rewrite (u64_small (pc s + 1)) by (unfold is_u64; lia). rewrite Int64_small by lia.
  rewrite (u64_small (pc s + Z.of_nat i)) by (unfold is_u64; lia).
  set (a := if pc s + 1 <? zlen (Code c) then _ else _). set (b := if a + _ <? _ then _ else _).
  assert (0 <= a <= zlen (Code c)) as Ha by (unfold a; case_if; lia).
  assert (a <= b <= zlen (Code c) /\ b - a <= Z.of_nat i) as Hb by (unfold b; case_if; lia).
  destruct (slice_is_some (Code c) a b) as (d & Hd & Hl); [lia|lia|].
  apply wp_bind, wp_lift. exists d. split; [done|]. do 4 wp_step.
  assert (is_word (be_to_Z (RightPadBytes d (Z.of_nat i)))) as Hw.
  { assert (wf_bytes (RightPadBytes d (Z.of_nat i))) as Hwf by (apply wf_RightPadBytes; by eapply wf_slice).
    pose proof (be_to_Z_bound _ Hwf) as Hbd. rewrite zlen_RightPadBytes, Z.max_l in Hbd by lia.
    split; [lia|]. eapply Z.lt_le_trans; [apply Hbd|]. change (2 ^ 256) with (256 ^ 32). apply Z.pow_le_mono_r; lia. }
  wp_step. split; [by split; [constructor|by_compute]|].
  split; [apply (good_set_pc c w0 (set_stack _ s)); [apply good_set_stack; [done|constructor; [done|apply Hg]]|lia]|].
  cbn [stack set_pc set_stack pc]. rewrite zlen_cons. lia.
Qed.

Lemma stack_word (st : list Z) i : Forall is_word st -> 0 <= i < zlen st -> exists x, st !! Z.to_nat i = Some x /\ is_word x.
Proof.
  intros Hw Hi. destruct (lookup_lt_is_Some_2 st (Z.to_nat i)) as [x Hx]; [unfold zlen in Hi; lia|].
  exists x. split; [done|]. by eapply Forall_lookup_1 in Hw.
Qed.

Lemma dup_entry_typed i : (1 <= i <= 16)%nat -> op_typed c (dup_entry (Hash := Hash) (DB := DB) i).2.
Proof.
  intros Hi. unfold dup_entry. cbn [snd]. unfold makeDupStackFunc. start.
  split; [intros size; unfold gasDup; apply wp_ret; by split|]. intros _. unfold makeDup, dup.
  destruct (stack_word (stack s) (Z.of_nat i - 1) (good_stack _ _ _ Hg)) as (x & Hx & Hw); [lia|].
  apply wp_bind, wp_bind, wp_get, wp_bind, wp_lift. exists x.
  split; [by replace (i - 1)%nat with (Z.to_nat (Z.of_nat i - 1)) by lia|]. do 2 wp_step.
  apply op_post_stack; [done|constructor; [done|apply Hg]|rewrite zlen_cons; lia|lia].
Qed.

Lemma swap_entry_typed i : (1 <= i <= 16)%nat -> op_typed c (swap_entry (Hash := Hash) (DB := DB) i).2.
Proof.
  intros Hi. unfold swap_entry. cbn [snd]. unfold makeSwapStackFunc. start.
  split; [intros size; unfold gasSwap; apply wp_ret; by split|]. intros _. unfold makeSwap, swap.
  destruct (stack_word (stack s) (Z.of_nat i) (good_stack _ _ _ Hg)) as (x & Hx & Hw); [lia|].
  destruct (stack_word (stack s) 0 (good_stack _ _ _ Hg)) as (y & Hy & Hw'); [lia|].
  apply wp_bind, wp_bind, wp_get, wp_bind, wp_lift. exists x.
  split; [by replace (S i - 1)%nat with (Z.to_nat (Z.of_nat i)) by lia|].
  apply wp_bind, wp_lift. exists y. split; [done|]. apply wp_modify. wp_step.
  apply op_post_stack; [done| |unfold zlen in *; rewrite !length_insert; lia|lia].
  apply Forall_insert; [apply Forall_insert; [apply Hg|done]|done].
Qed.

(** ** Logs, returns and self-destruction *)
Lemma wp_pop_topics w0 n st s Q :
  good c w0 (set_stack st s) -> Z.of_nat n <= zlen st ->
  (forall ts st', good c w0 (set_stack st' s) -> zlen st' = zlen st - Z.of_nat n -> Q ts (set_stack st' s)) ->
  wp (failed w0) (pop_topics n) (set_stack st s) Q.
Proof.
  revert st Q. induction n as [|n IH]; intros st Q Hg Hn HQ; cbn [pop_topics].
  - apply wp_ret, HQ; [done|lia].
  - destruct (stack_open1 st ltac:(lia) (good_stack _ _ _ Hg)) as (x & rest & -> & Hx & Hr & Hz).
    rewrite zlen_cons in *. apply wp_bind. eapply wp_pop; [reflexivity|].
    assert (good c w0 (set_stack rest s)) as Hg' by exact (good_set_stack c w0 _ rest Hg Hr).
    apply wp_bind, (IH rest); [exact Hg'|lia|]. intros ts st' Hg2 Hz2. apply wp_ret, HQ; [done|lia].
Qed.

Lemma log_entry_typed i : (i <= 4)%nat -> op_typed c (log_entry evm c i).2.
Proof.
  intros Hi. unfold log_entry. cbn [snd]. start.
  destruct (stack_open2 (stack s) ltac:(lia) (good_stack _ _ _ Hg)) as (x0 & x1 & rest & Hs & H0 & H1 & Hr & Hz).
  split; [intros size; gas_wp Hs|]. intros (n & Hn & Hle). rewrite Hs in Hn. injection Hn as <-.
  unfold makeLog. do 5 wp_step. apply (wp_pop_topics w0 i rest s); [by apply good_set_stack|lia|].
  intros ts st Hg' Hz'. do 2 wp_step.
  destruct (get_covered (mem s) x0 x1) as (d & Hd & _); [apply Hg..|done|done|done|].
  apply wp_bind, wp_lift. exists d. split; [done|]. apply wp_bind.
  apply (wp_modifyDB_good c w0 _ (set_stack st s)); [done|intros; by apply changed_AddLog|intros; by apply ledger_AddLog|].
  intros Hg2. wp_step. match goal with |- op_post _ _ _ ?s1 => apply (op_post_good w0 s1) end; [done|done|]. cbn. lia.
Qed.

Lemma return_exec w0 s x0 x1 rest :
  good c w0 s -> pc s < zlen (Code c) -> stack s = x0 :: x1 :: rest -> zlen rest <= StackLimit ->
  calcMemSize x0 x1 <= zlen (store (mem s)) ->
  wp (failed w0) (do! offset := pop in do! size := pop in
    do! m := get mem in lift (Memory_GetPtr m (Int64 offset) (Int64 size))) s (op_post c w0).
Proof.
  intros Hg Hpc Hs Hl Hc. pose proof (good_stack _ _ _ Hg) as Hw. rewrite Hs in Hw.
  apply Forall_cons_1 in Hw as [H0 [H1 Hr]%Forall_cons_1]. do 6 wp_step. apply wp_lift.
  destruct (get_covered (mem s) x0 x1) as (d & Hd & Hsm); [apply Hg..|done|done|done|].
  exists d. split; [done|]. split; [done|]. split; [by apply (good_set_stack c w0 s rest)|].
  split; [done|]. cbn [pc set_stack]. lia.
Qed.

Lemma return_typed : op_typed c (halting (with_memory memoryReturn (plain opReturn gasReturn (makeStackFunc 2 0)))).
Proof.
  start. destruct (stack_open2 _ Hp (good_stack _ _ _ Hg)) as (x0 & x1 & rest & Hs & H0 & H1 & Hr & Hz).
  split; [intros size; gas_wp Hs|]. intros (n & Hn & Hle). rewrite Hs in Hn. injection Hn as <-.
  eapply return_exec; [done..| |done]. lia.
Qed.

Lemma revert_typed :
  op_typed c (returning (reverting (with_memory memoryRevert (plain opRevert gasRevert (makeStackFunc 2 0))))).
Proof.
  start. destruct (stack_open2 _ Hp (good_stack _ _ _ Hg)) as (x0 & x1 & rest & Hs & H0 & H1 & Hr & Hz).
  split; [intros size; gas_wp Hs|]. intros (n & Hn & Hle). rewrite Hs in Hn. injection Hn as <-.
  eapply return_exec; [done..| |done]. lia.
Qed.

Lemma suicide_typed :
  op_typed c (writing (halting (plain (opSuicide c) (gasSuicide evm c) (makeStackFunc 1 0)))).
Proof.
  start. destruct (stack_open1 _ Hp (good_stack _ _ _ Hg)) as (x0 & rest & Hs & H0 & Hr & Hz).
  split.
  { intros size. pose proof (gasTable_pos evm). gas_wp Hs. }
  intros _. unfold opSuicide. cbv zeta. do 4 wp_step. apply wp_bind, wp_modify, wp_bind, wp_modify. wp_step.
  set (d := SuicideAccount _ _).
  assert (good c w0 (set_world (set_db d (world s)) (set_stack rest s))) as Hg'.
  { apply good_set_world; [by apply good_set_stack|]. destruct (good_world _ _ _ Hg) as [Ht Hsup Hf ? ? ?].
    destruct (ledger_Suicide (Hash := Hash) (self c) (BigToAddress x0) (db (world s)) Ht) as [Ht' Hs'].
    split; try done; cbn [db set_db]; [unfold d; cbn [db set_db world set_world set_stack]; lia|].
    unfold follows in *. etrans; [exact Hf|]. etrans.
    - apply db_follows_changed. intros Hv. apply (changed_AddBalance (BigToAddress x0) (GetBalance (db (world s)) (self c)) _ Hv).
    - apply db_follows_changed. intros Hv. by apply changed_Suicide. }
  apply (op_post_good w0 (set_world (set_db d (world s)) (set_stack rest s))); [done|done|]. cbn. lia.
Qed.
End Ops.
