(* ===== verification/EvmTypedCalls.v ===== *)
(** Message calls and creations of typed contracts: they do not panic, what they
    return is bytes, and they add nothing to the supply of ether. *)

From stdpp Require Import gmap.
From S2P Require Import Prelude GoMath Params EvmCode EvmMemory EvmState EvmInstr EvmGas EvmAddress EvmInterp EvmLogic EvmGasBound EvmTermination EvmWorldRel EvmRevert EvmArith EvmTyped.

(** Precompiled contracts that fewer than [limit] gas pays for do not panic; what
    they return is no larger than memory. *)
Definition precompiles_typed (limit : Z) (P : Precompiles) : Prop :=
  forall a p input, P a = Some p -> small_bytes input -> u64 (RequiredGas p input) < limit ->
  match PrecompiledRun p input with Ok r => small_bytes r | Err _ => True | Panic => False end.

Lemma small_nil : small_bytes [].
Proof. split; [constructor|by_compute]. Qed.

Section Calls.
Context {Hash DB : Type} `{HashFn Hash} `{!StateDB Hash DB} `{!SnapshotLaws Hash DB} `{!Ledger DB} `{!LedgerLaws Hash DB}.
Implicit Types (w : World Hash DB) (d : DB).

Lemma world_good_trans w0 w w' : world_good w0 w -> world_good w w' -> world_good w0 w'.
Proof. intros [? ? Hf ? ? ?] [? ? Hf' ? ? ?]. split; [done|lia|by etrans|done..]. Qed.
Lemma world_good_refl w0 w : world_good w0 w -> world_good w w.
Proof. intros []. by split. Qed.

(** What an operation on a typed database does. *)
Definition db_good (d d' : DB) : Prop := ledger_step d d' /\ db_follows d d'.

Lemma db_good_trans d1 d2 d3 : db_good d1 d2 -> (typed d2 -> db_good d2 d3) -> db_good d1 d3.
Proof. intros [[Ht Hs] Hf] Hd. destruct (Hd Ht) as [[Ht' Hs'] Hf']. split; [split; [done|lia]|by etrans]. Qed.
Lemma db_good_refl d : typed d -> db_good d d.
Proof. intros Ht. split; [split; [done|lia]|reflexivity]. Qed.
Lemma db_good_changed d d' : typed d -> (valid d -> changed d d') -> ledger_step d d' -> db_good d d'.
Proof. intros Ht Hc Hl. split; [done|]. by apply db_follows_changed. Qed.
Lemma db_good_Snapshot d : typed d -> db_good d (Snapshot d).2.
Proof. intros Ht. split; [by apply ledger_Snapshot|apply db_follows_Snapshot]. Qed.
Lemma db_good_Transfer a b x d : typed d -> 0 <= x <= GetBalance d a -> db_good d (Transfer a b x d).
Proof. intros Ht Hx. split; [by apply ledger_Transfer|apply db_follows_Transfer]. Qed.

Lemma world_good_set_db w d : world_good w w -> db_good (db w) d -> world_good w (set_db d w).
Proof. intros [] [[] ?]. by split. Qed.
Lemma enter_good caller w d : world_good w w -> db_good (db w) d -> world_good w (enter caller d w).
Proof.
  intros Hw Hd. destruct caller; cbn [enter]; [|by apply world_good_set_db].
  destruct (world_good_set_db w d Hw Hd). by split.
Qed.

(** * Running code *)
Definition run_typed (w : World Hash DB) (r : RunResult Hash DB) : Prop :=
  match r.1 with
  | Ret (b, _) => small_bytes b /\ world_good w r.2.2
  | OutOfFuel => True
  | _ => False
  end.

Definition call_typed (w : World Hash DB) (r : CallResult) : Prop :=
  match r.1 with
  | Ret (b, _, _) => small_bytes b /\ world_good w r.2
  | OutOfFuel => True
  | _ => False
  end.

Definition create_typed (w : World Hash DB) (r : CreateResult) : Prop :=
  match r.1 with
  | Ret (b, a, _, _) => small_bytes b /\ is_word a /\ world_good w r.2
  | OutOfFuel => True
  | _ => False
  end.

Definition caller_typed (r : ContractRef Hash) : Prop :=
  match r with AccountRef a => is_word a | CallerRef c => contract_typed c end.

Lemma caller_word r : caller_typed r -> is_word (Address r).
Proof. destruct r; [done|]. apply typed_self. Qed.

(** The snapshot taken before a run is still there after it. *)
Lemma revert_typed_world w w1 w2 :
  world_good w w -> db_follows (Snapshot (db w)).2 (db w1) -> world_good w1 w2 ->
  exists d, RevertToSnapshot (Snapshot (db w)).1 (db w2) = Some d /\ world_good w (set_db d w2).
Proof.
  intros Hw Hf Hw2. pose proof (good_follows _ _ Hw2) as Hf2. pose proof (typed_valid _ (good_typed _ _ Hw)) as Hv.
  pose proof (since_take _ Hv) as Ht.
  destruct (Hf (since_valid _ _ _ Ht)) as [Hv1 Hk]. destruct (Hf2 Hv1) as [_ Hk2].
  destruct (since_back _ _ _ (Hk2 _ _ (Hk _ _ Ht))) as (d & E & Hs & Hvd & Hback). exists d. split; [done|].
  destruct (ledger_same (Hash := Hash) d (db w) (good_typed _ _ Hw) Hvd Hs) as [Htd Hsup].
  destruct Hw2. by split.
Qed.

Lemma settle_typed w w1 r :
  world_good w w -> world_good w w1 -> db_follows (Snapshot (db w)).2 (db w1) -> run_typed w1 r ->
  call_typed w (settle (Snapshot (db w)).1 r).
Proof.
  intros Hw Hw1 Hf Hr. destruct r as [[[res [err|]]| | |] [g w2]]; cbn in Hr; try done; destruct Hr as [Hb Hw2].
  - destruct (revert_typed_world w w1 w2 Hw Hf Hw2) as (d & E & Hd). unfold settle. by rewrite E.
  - split; [done|]. by eapply world_good_trans.
Qed.

Lemma called_contract_typed caller a addr v d :
  caller_typed caller -> is_word a -> is_word v -> typed d ->
  contract_typed (SetCallCode addr (GetCodeHash d addr) (GetCode (Hash := Hash) d addr) (NewContract caller a v)).
Proof.
  intros Hc Ha Hv Ht. destruct (typed_code (Hash := Hash) d addr Ht) as [Hs Hh].
  split; try done; [apply small_nil|by apply caller_word|]. cbn. destruct Hh; auto.
Qed.

Variable evm : EVM.
Variables PrecompiledContractsHomestead PrecompiledContractsByzantium : Precompiles.
Variable limit : Z.
Hypothesis precompiles_ok :
  precompiles_typed limit (precompiles evm PrecompiledContractsHomestead PrecompiledContractsByzantium).
Variable Run_ : Contract Hash -> bytes -> bool -> Z -> bool -> Z -> World Hash DB -> RunResult Hash DB.
Variable depth : Z.
Variable readOnly : bool.
Hypothesis Run_typed : forall c input static (depth : Z) ro g w,
  contract_typed c -> small_bytes input -> 0 <= g < limit -> world_good w w ->
  run_typed w (Run_ c input static depth ro g w).

Abbreviation run := (run evm PrecompiledContractsHomestead PrecompiledContractsByzantium Run_ depth readOnly).
Abbreviation evm_call f := (f evm PrecompiledContractsHomestead PrecompiledContractsByzantium Run_ depth readOnly).

Lemma run_code_typed c input static g w :
  contract_typed c -> small_bytes input -> 0 <= g < limit -> world_good w w -> run_typed w (run c input static g w).
Proof.
  intros Hc Hi Hg Hw. unfold EvmInterp.run. destruct (CodeAddr c) as [a|]; [|by apply Run_typed].
  destruct (precompiles _ _ _ a) as [p|] eqn:Ep; [|by apply Run_typed].
  pose proof (precompiles_ok a p input Ep Hi) as Hp. unfold RunPrecompiledContract.
  destruct (Z.ltb_spec g (u64 (RequiredGas p input))) as [Hlt|Hge]; [by split; [apply small_nil|]|].
  specialize (Hp ltac:(lia)). destruct (PrecompiledRun p input); try done. by split; [apply small_nil|].
Qed.

(** The run of a call, in a world that follows from the snapshot. *)
Lemma run_settle_typed caller c input static g d w :
  caller_typed caller -> contract_typed c -> small_bytes input -> 0 <= g < limit -> world_good w w ->
  db_good (Snapshot (db w)).2 d ->
  call_typed w (settle (Snapshot (db w)).1 (run c input static g (enter caller d w))).
Proof.
  intros Hca Hc Hi Hg Hw Hd. assert (db_good (db w) d) as Hd'.
  { eapply db_good_trans; [apply db_good_Snapshot, Hw|done]. }
  pose proof (enter_good caller w d Hw Hd') as Hw1. eapply settle_typed; [done|exact Hw1|..].
  - destruct caller; apply Hd.
  - apply run_code_typed; try done. by eapply world_good_refl.
Qed.

Lemma call_typed_early w res : world_good w w -> call_typed w (Ret ([], res.1, res.2), w).
Proof. by split; [apply small_nil|]. Qed.

Lemma CanTransfer_balance d a x : CanTransfer (Hash := Hash) d a x = true -> x <= GetBalance (Hash := Hash) d a.
Proof. unfold CanTransfer. simp_bool. lia. Qed.

Lemma db_good_create addr d : typed d -> db_good d (CreateAccount (Hash := Hash) addr d).
Proof. intros Ht. apply db_good_changed; [done|apply changed_CreateAccount|by apply ledger_CreateAccount]. Qed.
Lemma db_good_nonce addr n d : typed d -> db_good d (SetNonce (Hash := Hash) addr n d).
Proof. intros Ht. apply db_good_changed; [done|apply changed_SetNonce|by apply ledger_SetNonce]. Qed.
Lemma db_good_typed d d' : db_good d d' -> typed d'.
Proof. by intros [[] ?]. Qed.

Lemma Call_typed caller addr input g value w :
  caller_typed caller -> is_word addr -> small_bytes input -> 0 <= g < limit -> is_word value -> world_good w w ->
  call_typed w (evm_call Call caller addr input g value w).
Proof.
  intros Hca Ha Hi Hg Hv Hw. unfold Call. do 2 (case_if; [by split; [apply small_nil|]|]).
  destruct (CanTransfer (db w) (Address caller) value) eqn:Ect; cbn [negb]; [|by split; [apply small_nil|]].
  apply CanTransfer_balance in Ect. pose proof (db_good_Snapshot (db w) (good_typed _ _ Hw)) as Hsn.
  pose proof (fun c' d' => run_settle_typed caller c' input false g d' w Hca) as Hrun.
  rewrite <- (balance_Snapshot (db w)) in Ect.
  destruct (Snapshot (db w)) as [id d] eqn:Es. cbn [fst snd] in *.
  case_if; [split; [apply small_nil|by apply world_good_set_db]|].
  set (d1 := if negb (Exist d addr) then _ else _).
  assert (db_good d d1 /\ GetBalance (Hash := Hash) d1 (Address caller) = GetBalance (Hash := Hash) d (Address caller)) as [Hd1 Hbal].
  { pose proof (db_good_typed _ _ Hsn). unfold d1. case_if; [|by split; [apply db_good_refl|]].
    split; [by apply db_good_create|by apply balance_CreateAccount]. }
  assert (db_good d (Transfer (Address caller) addr value d1)) as Hd2.
  { eapply db_good_trans; [exact Hd1|]. intros Ht. apply db_good_Transfer; [done|]. destruct Hv. lia. }
  apply Hrun; try done. apply called_contract_typed; try done. by eapply db_good_typed.
Qed.

Lemma CallCode_typed caller addr input g value w :
  caller_typed caller -> small_bytes input -> 0 <= g < limit -> is_word value -> world_good w w ->
  call_typed w (evm_call CallCode caller addr input g value w).
Proof.
  intros Hca Hi Hg Hv Hw. unfold CallCode. do 3 (case_if; [by split; [apply small_nil|]|]).
  pose proof (db_good_typed _ _ (db_good_Snapshot (db w) (good_typed _ _ Hw))) as Ht.
  pose proof (fun c' d' => run_settle_typed caller c' input false g d' w Hca) as Hrun.
  destruct (Snapshot (db w)) as [id d] eqn:Es. cbn [fst snd] in *.
  apply Hrun; [|done..|by apply db_good_refl]. by apply called_contract_typed; [|apply caller_word|..].
Qed.

Lemma DelegateCall_typed c addr input g w :
  contract_typed c -> small_bytes input -> 0 <= g < limit -> world_good w w ->
  call_typed w (evm_call DelegateCall (CallerRef c) addr input g w).
Proof.
  intros Hca Hi Hg Hw. unfold DelegateCall. do 2 (case_if; [by split; [apply small_nil|]|]).
  pose proof (db_good_typed _ _ (db_good_Snapshot (db w) (good_typed _ _ Hw))) as Ht.
  pose proof (fun c' d' => run_settle_typed (CallerRef c) c' input false g d' w Hca) as Hrun.
  destruct (Snapshot (db w)) as [id d] eqn:Es. cbn [fst snd AsDelegate] in *.
  apply Hrun; [|done..|by apply db_good_refl].
  destruct (typed_code (Hash := Hash) d addr Ht) as [Hs Hh]. destruct Hca.
  split; try done; cbn; [apply small_nil|destruct Hh; auto].
Qed.

Lemma StaticCall_typed caller addr input g w :
  caller_typed caller -> is_word addr -> small_bytes input -> 0 <= g < limit -> world_good w w ->
  call_typed w (evm_call StaticCall caller addr input g w).
Proof.
  intros Hca Ha Hi Hg Hw. unfold StaticCall. do 2 (case_if; [by split; [apply small_nil|]|]).
  pose proof (db_good_typed _ _ (db_good_Snapshot (db w) (good_typed _ _ Hw))) as Ht.
  pose proof (fun c' d' => run_settle_typed caller c' input true g d' w Hca) as Hrun.
  destruct (Snapshot (db w)) as [id d] eqn:Es. cbn [fst snd] in *. apply Hrun; try done.
  - by apply called_contract_typed.
  - apply db_good_changed; [done|apply changed_AddBalance|by apply ledger_touch].
Qed.

(** * Creation *)
Lemma create_settle_typed w w1 address r :
  world_good w w -> world_good w w1 -> db_follows (Snapshot (db w)).2 (db w1) -> is_word address -> run_typed w1 r ->
  create_typed w (create_settle evm (Snapshot (db w)).1 address r).
Proof.
  intros Hw Hw1 Hf Ha Hr. destruct r as [[[res err]| | |] [g w2]]; cbn in Hr; try done; destruct Hr as [Hb Hw2].
  unfold create_settle. set (ex := IsEIP158 _ _ && _). set (X := if is_nil_err err && negb ex then _ else _).
  assert (world_good w1 X.1.2) as HX.
  { unfold X. repeat case_if; try done. cbn [fst snd]. apply world_good_db; [done|apply changed_SetCode|].
    intros Ht. by apply ledger_SetCode. }
  destruct X as [[g1 w3] err1]. cbn [fst snd] in HX. case_if.
  - destruct (revert_typed_world w w1 w3 Hw Hf HX) as (d & E2 & Hd). by rewrite E2.
  - split; [done|]. split; [done|]. by eapply world_good_trans.
Qed.

(** The database that the code of a creation starts with. *)
Lemma created_db_good a address value d :
  typed d -> 0 <= value <= GetBalance (Hash := Hash) d a ->
  db_good d (Transfer a address value
    (if IsEIP158 (chainConfig evm) (evmBlock evm) then SetNonce address 1 (CreateAccount address d)
     else CreateAccount address d)).
Proof.
  intros Ht Hv. pose proof (db_good_create address d Ht) as Hc. pose proof (db_good_typed _ _ Hc) as Htc.
  eapply db_good_trans; [exact Hc|]. intros _. case_if.
  - eapply db_good_trans; [by apply db_good_nonce|]. intros Hn. apply db_good_Transfer; [done|].
    by rewrite balance_SetNonce, balance_CreateAccount.
  - apply db_good_Transfer; [done|]. by rewrite balance_CreateAccount.
Qed.

Lemma create_call_typed caller code hash g value address w :
  caller_typed caller -> small_bytes code -> hash = EmptyHash \/ hash = Keccak256 code ->
  0 <= g < limit -> is_word value -> is_word address -> world_good w w ->
  create_typed w (evm_call create caller code hash g value address w).
Proof.
  intros Hca Hco Hh Hg Hv Ha Hw. unfold create.
  assert (create_typed w (Ret ([], 0, g, Some ErrDepth), w)) as Herr by (split; [apply small_nil|by split; [by_decide|]]).
  case_if; [exact Herr|].
  destruct (CanTransfer (db w) (Address caller) value) eqn:Ect; cbn [negb]; [|exact Herr]. clear Herr.
  apply CanTransfer_balance in Ect. set (n := u64 _).
  pose proof (db_good_nonce (Address caller) n _ (good_typed _ _ Hw)) as Hn.
  rewrite <- (balance_SetNonce _ (Address caller) n _ (good_typed _ _ Hw)) in Ect.
  set (d0 := SetNonce (Address caller) n (db w)) in *.
  assert (world_good w (set_db d0 w)) as Hw0 by (by apply world_good_set_db).
  case_if; [split; [apply small_nil|split; [by_decide|done]]|].
  pose proof (db_good_Snapshot d0 (db_good_typed _ _ Hn)) as Hsn. rewrite <- (balance_Snapshot d0) in Ect.
  pose proof (create_settle_typed (set_db d0 w)) as Hset. cbn [db set_db] in Hset.
  destruct (Snapshot d0) as [id d1]. cbn [fst snd] in *. pose proof (db_good_typed _ _ Hsn) as Ht1.
  pose proof (created_db_good (Address caller) address value _ Ht1 ltac:(destruct Hv; lia)) as H4.
  set (d4 := Transfer _ _ _ _) in *.
  pose proof (db_good_trans _ _ _ Hsn (fun _ => H4)) as H04.
  case_if.
  { split; [apply small_nil|]. split; [done|]. apply world_good_set_db; [done|]. by eapply db_good_trans. }
  assert (world_good (set_db d0 w) (enter caller d4 (set_db d0 w))) as Hent.
  { apply enter_good; [by eapply world_good_refl|done]. }
  replace (enter caller d4 (set_db d0 w))
    with (enter caller d4 w) in Hent by by destruct caller.
  assert (create_typed (set_db d0 w) (create_settle evm id address
    (run (SetCallCode address hash code (NewContract caller address value)) [] false g
       (enter caller d4 w)))) as Hend.
  { eapply Hset; [by eapply world_good_refl|exact Hent| |done|].
    - destruct caller; apply H4.
    - apply run_code_typed; [|apply small_nil|done|by eapply world_good_refl].
      split; try done; cbn; [apply small_nil|by apply caller_word|by right]. }
  unfold create_typed in *. destruct (create_settle _ _ _ _) as [[[[[b a] g'] e]| | |] w']; try done.
  destruct Hend as (? & ? & ?). split; [done|]. split; [done|]. by eapply world_good_trans.
Qed.
End Calls.
