(* ===== verification/EvmContractsCorrect.v ===== *)
(** The precompiled contracts do not panic on what a transaction can pay for, and
    modular exponentiation computes what it says. *)

From stdpp Require Import gmap.
From S2P Require Import Prelude GoMath Params EvmCode EvmMemory EvmState EvmInterp EvmRevert EvmTyped EvmTypedCalls EvmContracts.

(** * Data read from the input *)

(** [n] bytes from [start], where the data is followed by zeros without end. *)
Definition bytes_at (data : bytes) (start n : Z) : bytes :=
  (fun i => default 0 (data !! (Z.to_nat start + i)%nat)) <$> seq 0 (Z.to_nat n).

Lemma zlen_bytes_at data start n : 0 <= n -> zlen (bytes_at data start n) = n.
Proof. intros Hn. unfold zlen, bytes_at. rewrite length_fmap, length_seq. lia. Qed.

Lemma wf_bytes_at data start n : wf_bytes data -> wf_bytes (bytes_at data start n).
Proof.
  intros Hd. unfold bytes_at, wf_bytes. apply Forall_fmap, Forall_true. intros i. cbn.
  destruct (data !! _) as [b|] eqn:E; cbn; [|by_decide]. by eapply Forall_lookup_1.
Qed.

Lemma RightPadBytes_lookup l n i : (i < Z.to_nat n)%nat -> RightPadBytes l n !! i = Some (default 0 (l !! i)).
Proof.
  intros Hi. unfold RightPadBytes. destruct (Z.leb_spec n (zlen l)) as [Hle|Hgt].
  - destruct (lookup_lt_is_Some_2 l i) as [x Hx]; [unfold zlen in *; lia|]. by rewrite Hx.
  - destruct (decide (i < length l)%nat) as [Hl|Hl].
    + rewrite lookup_app_l by done. destruct (lookup_lt_is_Some_2 l i Hl) as [x Hx]. by rewrite Hx.
    + rewrite lookup_app_r, (lookup_ge_None_2 l) by lia. cbn. apply lookup_replicate_2. unfold zlen in *. lia.
Qed.

Lemma getData_ok data start n :
  0 <= start -> 0 <= n < 2 ^ 62 -> zlen data < 2 ^ 62 -> getData data start n = Some (bytes_at data start n).
Proof.
  intros Hs Hn Hd. pose proof (zlen_nonneg data). unfold getData.
  set (s := if zlen data <? start then zlen data else start).
  assert (0 <= s <= zlen data /\ s <= start) as [Hs1 Hs2] by (unfold s; case_if; lia).
  assert (s = Z.min (zlen data) start) as Hs3 by (unfold s; case_if; lia).
  rewrite u64_small by (unfold is_u64; lia). set (e := if zlen data <? s + n then zlen data else s + n).
  assert (s <= e <= zlen data /\ e <= s + n) as [He1 He2] by (unfold e; case_if; lia).
  assert (e = Z.min (zlen data) (s + n)) as He3 by (unfold e; case_if; lia).
  destruct (slice_is_some data s e) as (d & Hsl & Hl); [lia..|]. rewrite Hsl. cbn. f_equal.
  apply slice_some in Hsl as (_ & _ & ->). rewrite Int64_small by lia.
  apply list_eq. intros i. unfold bytes_at. rewrite list_lookup_fmap. destruct (decide (i < Z.to_nat n)%nat) as [Hi|Hi].
  - rewrite lookup_seq_lt by done. cbn. rewrite RightPadBytes_lookup by lia. f_equal.
    destruct (decide (i < Z.to_nat (e - s))%nat) as [Hb|Hb].
    + rewrite lookup_take_lt, lookup_drop by done. by replace s with start by lia.
    + rewrite lookup_take_ge by lia. symmetry. rewrite lookup_ge_None_2; [done|]. unfold zlen in *. lia.
  - rewrite lookup_seq_ge by lia. cbn. apply lookup_ge_None_2.
    match goal with |- (length ?l <= _)%nat => enough (zlen l = n) as Hz by (unfold zlen in Hz; lia) end.
    rewrite zlen_RightPadBytes. lia.
Qed.

(** * Modular exponentiation *)

(** The number in [n] bytes from [start] of the input. *)
Definition number_at (data : bytes) (start n : Z) : Z := be_to_Z (bytes_at data start n).

Lemma number_at_bound data start n : wf_bytes data -> 0 <= n -> 0 <= number_at data start n < 256 ^ n.
Proof.
  intros Hd Hn. pose proof (be_to_Z_bound _ (wf_bytes_at data start n Hd)) as Hb.
  by rewrite zlen_bytes_at in Hb.
Qed.

Lemma modexp_length_ok input i :
  zlen input < 2 ^ 62 -> 0 <= i <= 2 -> modexp_length input i = Some (number_at input (32 * i) 32).
Proof. intros Hd Hi. unfold modexp_length, number_at. rewrite getData_ok; [reflexivity|lia..]. Qed.

(** The input without the lengths reads like the input from byte 96 on. *)
Lemma modexp_rest_at input start n : 0 <= start -> bytes_at (modexp_rest input) start n = bytes_at input (96 + start) n.
Proof.
  intros Hs. unfold bytes_at, modexp_rest. apply list_fmap_ext. intros j i _. f_equal.
  destruct (Z.ltb_spec 96 (zlen input)) as [Hl|Hl].
  - rewrite lookup_drop. f_equal. lia.
  - symmetry. apply lookup_ge_None_2. unfold zlen in Hl. lia.
Qed.

Lemma zlen_modexp_rest input : zlen (modexp_rest input) <= zlen input.
Proof. unfold modexp_rest. case_if; unfold zlen; [rewrite length_drop|cbn]; lia. Qed.

Lemma wf_modexp_rest input : wf_bytes input -> wf_bytes (modexp_rest input).
Proof. intros Hd. unfold modexp_rest. case_if; [by apply wf_bytes_drop|constructor]. Qed.

Lemma modexp_complexity_ge x : 0 <= x -> x <= modexp_complexity x.
Proof.
  intros Hx. pose proof (Z.square_nonneg x) as Hsq. unfold modexp_complexity.
  destruct (Z.leb_spec x 64); [|destruct (Z.leb_spec x 1024)].
  - destruct (Z.eq_dec x 0) as [->|]; [done|]. apply Z.le_mul_diag_r; lia.
  - pose proof (Z.div_pos (x * x) 4 Hsq ltac:(lia)). lia.
  - pose proof (Z.div_pos (x * x) 16 Hsq ltac:(lia)). lia.
Qed.

Lemma BigMax_max x y : BigMax x y = Z.max x y.
Proof. unfold BigMax. case_if; lia. Qed.

Lemma number_at_nonneg data start n : wf_bytes data -> 0 <= n -> 0 <= number_at data start n.
Proof. intros Hd Hn. by apply number_at_bound. Qed.

Lemma modexp_gas_arith x adj :
  0 <= x -> let g := modexp_complexity x * Z.max adj 1 / ModExpQuadCoeffDiv in
  0 <= g /\ x <= 20 * (g + 1) /\ (1 <= x -> adj <= 20 * (g + 1)).
Proof.
  intros Hx g. pose proof (modexp_complexity_ge x Hx) as Hc. set (c := modexp_complexity x) in *.
  assert (0 <= c * Z.max adj 1) as Hp by (apply Z.mul_nonneg_nonneg; lia).
  assert (c * Z.max adj 1 < 20 * (g + 1)) as Hg.
  { unfold g, ModExpQuadCoeffDiv. pose proof (Z.mul_succ_div_gt (c * Z.max adj 1) 20 ltac:(lia)). lia. }
  assert (c * 1 <= c * Z.max adj 1) as H1 by (apply Z.mul_le_mono_nonneg_l; lia).
  split; [by apply Z.div_pos|]. split; [lia|]. intros Hx1.
  assert (1 * Z.max adj 1 <= c * Z.max adj 1) as H2 by (apply Z.mul_le_mono_nonneg_r; lia). lia.
Qed.

Lemma modexp_head_total rest B E :
  zlen rest < 2 ^ 62 -> 0 <= E -> exists h, modexp_head rest B E = Some h.
Proof.
  intros Hl HE. unfold modexp_head. case_if; [by eexists|]. pose proof (is_u64_Uint64 B) as HB. unfold is_u64 in HB.
  destruct (Z.ltb_spec 32 E); (rewrite getData_ok; [by eexists|lia| |lia]); [lia|].
  rewrite Uint64_small; unfold is_u64; lia.
Qed.

(** What the gas of an input says of the lengths in it. *)
Lemma modexp_gas_bounds input :
  small_bytes input -> exists gas, modexp_gas input = Some gas /\ is_u64 gas /\
    (gas < 2 ^ 60 ->
     Z.max (number_at input 64 32) (number_at input 0 32) <= 20 * (gas + 1) /\
     (1 <= Z.max (number_at input 64 32) (number_at input 0 32) -> number_at input 32 32 <= 3 * (gas + 1) + 32)).
Proof.
  intros [Hw Hl]. unfold modexp_gas. rewrite !modexp_length_ok by lia. cbn [mbind option_bind].
  replace (32 * 0) with 0 by lia. replace (32 * 1) with 32 by lia. replace (32 * 2) with 64 by lia.
  pose proof (number_at_nonneg input 0 32 Hw ltac:(lia)) as HB. pose proof (number_at_nonneg input 32 32 Hw ltac:(lia)) as HE.
  pose proof (number_at_nonneg input 64 32 Hw ltac:(lia)) as HM.
  generalize dependent (number_at input 0 32). generalize dependent (number_at input 32 32).
  generalize dependent (number_at input 64 32). intros M HM E HE B HB.
  destruct (modexp_head_total (modexp_rest input) B E) as [h ->]; [pose proof (zlen_modexp_rest input); lia|done|].
  cbn [mbind option_bind]. set (adj := (if 32 <? E then _ else _) + _). rewrite !BigMax_max.
  assert (8 * (E - 32) <= adj) as Hadj.
  { unfold adj. pose proof (bitlen_nonneg h). destruct (0 <? bitlen h) eqn:?, (Z.ltb_spec 32 E); simp_bool; lia. }
  destruct (modexp_gas_arith (Z.max M B) adj ltac:(lia)) as (Hg0 & Hx & Ha). set (g := _ / _) in *.
  eexists. split; [reflexivity|]. split; [case_if; [by_decide|apply is_u64_Uint64]|]. intros Hlt.
  destruct (Z.ltb_spec 64 (bitlen g)) as [Hbig|Hsmall]; [unfold MaxUint64 in Hlt; lia|].
  assert (is_u64 g) as Hu.
  { split; [done|]. eapply Z.lt_le_trans; [by apply bitlen_bound|]. apply Z.pow_le_mono_r; lia. }
  rewrite (Uint64_small g Hu) in *. split; [done|]. intros Hx1. specialize (Ha Hx1). lia.
Qed.

Lemma be_to_Z_replicate0 n : be_to_Z (replicate n 0) = 0.
Proof. induction n as [|n IH]; [done|]. cbn [replicate]. rewrite be_to_Z_cons, IH. lia. Qed.

Lemma LeftPadBytes_number x n : 0 <= n -> 0 <= x < 256 ^ n -> LeftPadBytes (big_bytes x) n = Z_to_be (Z.to_nat n) x.
Proof.
  intros Hn Hx. assert (zlen (big_bytes x) <= n) as Hl.
  { unfold big_bytes. rewrite zlen_Z_to_be, Z.abs_eq by lia. by apply bytelen_upper. }
  assert (forall l, wf_bytes l -> zlen l = n -> be_to_Z l = x -> l = Z_to_be (Z.to_nat n) x) as Huniq.
  { intros l Hw Hz Hb. apply be_to_Z_inj; auto with go.
    - rewrite length_Z_to_be. unfold zlen in Hz. lia.
    - rewrite Hb, be_to_Z_of_Z, Z2Nat.id by lia. by rewrite Z.mod_small. }
  unfold LeftPadBytes. case_if.
  - apply Huniq; [auto with go|lia|apply be_to_Z_big_bytes; lia].
  - apply Huniq.
    + apply wf_bytes_app. split; [apply Forall_replicate; by_decide|auto with go].
    + rewrite zlen_app. unfold zlen in *. rewrite length_replicate. lia.
    + rewrite be_to_Z_app, be_to_Z_replicate0, be_to_Z_big_bytes by lia. lia.
Qed.

Lemma modexp_padded M m r :
  0 <= M -> 0 <= m < 256 ^ M ->
  (if bitlen m =? 0 then LeftPadBytes [] M else LeftPadBytes (big_bytes (r mod m)) M) =
    Z_to_be (Z.to_nat M) (if m =? 0 then 0 else r mod m).
Proof.
  intros HM Hm. assert (bitlen m = 0 <-> m = 0) as Hbl.
  { unfold bitlen. case_if; [done|]. pose proof (Z.log2_nonneg (Z.abs m)). lia. }
  destruct (Z.eqb_spec m 0) as [->|Hne].
  - cbn [bitlen Z.eqb]. apply (LeftPadBytes_number 0); lia.
  - destruct (Z.eqb_spec (bitlen m) 0); [tauto|]. apply LeftPadBytes_number; [done|].
    pose proof (Z.mod_pos_bound r m ltac:(lia)). lia.
Qed.

(** The gas below which the lengths in an input are far from the range of [int]. *)
Definition precompile_limit : Z := 2 ^ 44.

Definition modexp_spec (input : bytes) : bytes :=
  let B := number_at input 0 32 in let E := number_at input 32 32 in let M := number_at input 64 32 in
  let b := number_at input 96 B in
  let e := number_at input (96 + B) E in
  let m := number_at input (96 + B + E) M in
  Z_to_be (Z.to_nat M) (if m =? 0 then 0 else b ^ e mod m).

Lemma modexp_Run_ok input :
  small_bytes input -> default 0 (modexp_gas input) < precompile_limit ->
  modexp_Run input = Some (modexp_spec input) /\ 0 <= number_at input 64 32 < 2 ^ 50.
Proof.
  intros Hi Hgas. destruct (modexp_gas_bounds input Hi) as (gas & Eg & Hu & Hb). rewrite Eg in Hgas.
  change (gas < 2 ^ 44) in Hgas. unfold is_u64 in Hu. specialize (Hb ltac:(lia)). destruct Hi as [Hw Hl]. clear Eg.
  unfold modexp_Run, modexp_spec.
  rewrite (modexp_length_ok input 0 Hl), (modexp_length_ok input 1 Hl), (modexp_length_ok input 2 Hl) by lia.
  cbn [mbind option_bind].
  replace (32 * 0) with 0 by lia. replace (32 * 1) with 32 by lia. replace (32 * 2) with 64 by lia.
  pose proof (number_at_nonneg input 0 32 Hw ltac:(lia)) as HB. pose proof (number_at_nonneg input 32 32 Hw ltac:(lia)) as HE.
  pose proof (number_at_nonneg input 64 32 Hw ltac:(lia)) as HM.
  revert HB HE HM Hb. generalize (number_at input 0 32) (number_at input 32 32) (number_at input 64 32).
  intros B E M HB HE HM [Hmax0 Hexp].
  split; [|lia]. rewrite (Uint64_small B), (Uint64_small M) by (unfold is_u64; lia).
  destruct ((B =? 0) && (M =? 0)) eqn:Ez; [apply andb_true_iff in Ez as [_ Ez]; simp_bool; by rewrite Ez|].
  assert (1 <= Z.max M B) as Hmax by (apply andb_false_iff in Ez as [Ez|Ez]; simp_bool; lia).
  specialize (Hexp Hmax).
  rewrite (Uint64_small E), (u64_small (B + E)) by (unfold is_u64; lia). pose proof (zlen_modexp_rest input) as Hr.
  rewrite !getData_ok by lia. cbn [fmap option_fmap option_map mbind option_bind]. rewrite !modexp_rest_at by lia.
  replace (96 + (B + E)) with (96 + B + E) by lia. replace (96 + 0) with 96 by lia.
  fold (number_at input 96 B) (number_at input (96 + B) E) (number_at input (96 + B + E) M).
  rewrite (Int64_small M) by lia.
  rewrite <-(modexp_padded M _ _ HM (number_at_bound input (96 + B + E) M Hw HM)). by case_if.
Qed.

(** Modular exponentiation.  The input starts with the lengths of base,
    exponent and modulus, the numbers follow, and bytes past its end are zeros.
    When the gas of the input is below 2^44, the contract returns
    [base ^ exponent mod modulus], or zero for the modulus zero, in as many bytes
    as the modulus has. *)
Theorem bigModExp_correct input :
  small_bytes input -> RequiredGas bigModExp input < precompile_limit ->
  PrecompiledRun bigModExp input = Ok (modexp_spec input).
Proof. intros Hi Hg. destruct (modexp_Run_ok input Hi Hg) as [E _]. cbn. by rewrite E. Qed.

Definition modexp_example : bytes := Z_to_be 32 1 ++ Z_to_be 32 2 ++ Z_to_be 32 2 ++ [3; 1; 0; 3; 232].
Lemma bigModExp_correct_witness : PrecompiledRun bigModExp modexp_example = Ok (Z_to_be 2 (3 ^ 256 mod 1000)).
Proof.
  assert (small_bytes modexp_example) as Hs by (split; [by_decide|by_compute]).
  rewrite (bigModExp_correct modexp_example Hs ltac:(by_compute)). vm_compute. reflexivity.
Defined.

(** A slice that wraps around ends before it starts. *)
Lemma getData_wraps data start size :
  zlen data < 2 ^ 62 -> 0 <= start <= zlen data -> size < 2 ^ 64 -> 2 ^ 64 <= start + size -> getData data start size = None.
Proof.
  intros Hl Hs Hz Hw. unfold getData. destruct (Z.ltb_spec (zlen data) start); [lia|].
  assert (u64 (start + size) = start + size - 2 ^ 64) as ->.
  { unfold u64. rewrite <-(Z.mod_small (start + size - 2 ^ 64) (2 ^ 64)) by lia. replace (start + size) with (start + size - 2 ^ 64 + 1 * 2 ^ 64) at 1 by lia. apply Z.mod_add. lia. }
  destruct (Z.ltb_spec (zlen data) (start + size - 2 ^ 64)); [lia|]. unfold slice.
  destruct (Z.leb_spec start (start + size - 2 ^ 64)); [lia|]. by rewrite andb_false_r.
Qed.

Lemma bitlen_le x k : 0 <= k -> 0 <= x < 2 ^ k -> bitlen x <= k.
Proof.
  intros Hk Hx. unfold bitlen. case_if; [lia|]. rewrite Z.abs_eq by lia. assert (Z.log2 x < k) by (apply Z.log2_lt_pow2; lia). lia.
Qed.

Lemma getData_number data start n :
  0 <= start -> 0 <= n < 2 ^ 62 -> zlen data < 2 ^ 62 -> be_to_Z <$> getData data start n = Some (number_at data start n).
Proof. intros. by rewrite getData_ok. Qed.

Lemma modexp_head_bitlen rest B E h : wf_bytes rest -> zlen rest < 2 ^ 62 -> 32 < E -> modexp_head rest B E = Some h -> bitlen h <= 256.
Proof.
  intros Hw Hl HE. unfold modexp_head. pose proof (is_u64_Uint64 B) as HB. unfold is_u64 in HB.
  destruct (zlen rest <=? B); [intros Hh%(inj Some); subst h; apply bitlen_le; lia|].
  destruct (Z.ltb_spec 32 E); [|lia]. rewrite getData_number by lia.
  pose proof (number_at_bound rest (Uint64 B) 32 Hw ltac:(lia)) as Hb. intros Hh%(inj Some). rewrite Hh in Hb. apply bitlen_le; lia.
Qed.

(** The gas when base and modulus have at most one byte: less than half a byte of
    gas for each bit of the exponent. *)
Lemma modexp_gas_short input :
  small_bytes input -> Z.max (number_at input 64 32) (number_at input 0 32) <= 1 -> 32 < number_at input 32 32 < 2 ^ 64 ->
  default 0 (modexp_gas input) < 2 ^ 63.
Proof.
  intros [Hw Hl] Hx HE. unfold modexp_gas. rewrite !modexp_length_ok by lia. cbn [mbind option_bind].
  replace (32 * 0) with 0 by lia. replace (32 * 1) with 32 by lia. replace (32 * 2) with 64 by lia.
  pose proof (number_at_nonneg input 0 32 Hw ltac:(lia)) as HB.
  pose proof (zlen_modexp_rest input) as Hr. pose proof (wf_modexp_rest input Hw) as Hwr.
  destruct (modexp_head_total (modexp_rest input) (number_at input 0 32) (number_at input 32 32)) as [h Hh]; [lia..|]. rewrite Hh.
  apply modexp_head_bitlen in Hh; [|done|lia|lia]. cbn [mbind option_bind]. rewrite !BigMax_max.
  set (x := Z.max _ _) in *. set (adj := Z.max _ 1).
  assert (1 <= adj < 2 ^ 67) as Hadj by (unfold adj; destruct (Z.ltb_spec 32 (number_at input 32 32)); [|lia]; destruct (0 <? bitlen h); lia).
  assert (0 <= modexp_complexity x <= 1) as Hc by (assert (x = 0 \/ x = 1) as [-> | ->] by lia; cbn; lia).
  assert (0 <= modexp_complexity x * adj / ModExpQuadCoeffDiv < 2 ^ 63) as Hg.
  { split; [apply Z.div_pos; [nia|done]|]. apply Z.div_lt_upper_bound; [done|]. unfold ModExpQuadCoeffDiv. nia. }
  set (g := _ / _) in *. destruct (Z.ltb_spec 64 (bitlen g)) as [Hb|_]; unfold default, from_option, id.
  - pose proof (bitlen_le g 63 ltac:(lia) Hg). lia.
  - rewrite Uint64_small; [lia|unfold is_u64; lia].
Qed.

(** C34: when the lengths of base and exponent in an input add up to 2^64 or more
    and the bytes of the base are there, [getData] cuts out a slice for the exponent
    that ends before it starts: the contract panics.  When moreover base and
    modulus have at most one byte, the gas of the input fits an [int64], so that the
    price does not stop it. *)
Theorem bigModExp_overflow_panics input :
  small_bytes input -> 1 <= number_at input 0 32 <= zlen input - 96 ->
  number_at input 32 32 < 2 ^ 64 <= number_at input 0 32 + number_at input 32 32 ->
  PrecompiledRun bigModExp input = Panic /\
  (number_at input 0 32 = 1 -> number_at input 64 32 <= 1 -> RequiredGas bigModExp input < 2 ^ 63).
Proof.
  intros Hi HB HE. pose proof Hi as [Hw Hl]. split; [|intros H0 H1; apply modexp_gas_short; [done|lia..]].
  cbn [PrecompiledRun bigModExp]. unfold modexp_Run. rewrite !modexp_length_ok by lia. cbn [mbind option_bind].
  replace (32 * 0) with 0 by lia. replace (32 * 1) with 32 by lia. replace (32 * 2) with 64 by lia.
  rewrite (Uint64_small (number_at input 0 32)), (Uint64_small (number_at input 32 32)) by (unfold is_u64; lia).
  destruct (Z.eqb_spec (number_at input 0 32) 0); [lia|]. cbn [andb].
  assert (zlen (modexp_rest input) = zlen input - 96) as Hr.
  { unfold modexp_rest. destruct (Z.ltb_spec 96 (zlen input)); [|lia]. unfold zlen in *. rewrite length_drop. lia. }
  rewrite (getData_ok (modexp_rest input) 0) by lia. cbn [fmap option_fmap option_map mbind option_bind].
  by rewrite (getData_wraps (modexp_rest input) (number_at input 0 32) (number_at input 32 32)) by lia.
Qed.

Lemma bigModExp_overflow_panics_witness :
  let input := Z_to_be 32 1 ++ Z_to_be 32 (2 ^ 64 - 1) ++ Z_to_be 32 0 ++ [1] in
  PrecompiledRun bigModExp input = Panic /\ RequiredGas bigModExp input < 2 ^ 63.
Proof.
  intros input. destruct (bigModExp_overflow_panics input) as [H1 H2].
  - split; [by_decide|by_compute].
  - vm_compute. by split.
  - vm_compute. by split.
  - split; [exact H1|]. apply H2; by vm_compute.
Defined.

(** * No panic *)
Section NoPanic.
Context (C : Crypto) `{!CryptoLaws C}.

Definition run_ok (r : result Z bytes) : Prop :=
  match r with Ok r => small_bytes r | Err _ => True | Panic => False end.

Lemma small_of_length b n : wf_bytes b -> zlen b = n -> n < 2 ^ 62 -> small_bytes b.
Proof. intros Hw <- Hn. by split. Qed.

Lemma wf_LeftPadBytes b n : wf_bytes b -> wf_bytes (LeftPadBytes b n).
Proof. intros Hb. unfold LeftPadBytes. case_if; [done|]. apply wf_bytes_app. split; [apply Forall_replicate; by_decide|done]. Qed.
Lemma zlen_LeftPadBytes b n : zlen (LeftPadBytes b n) = Z.max n (zlen b).
Proof. unfold LeftPadBytes. case_if; [lia|]. rewrite zlen_app. unfold zlen in *. rewrite length_replicate. lia. Qed.

Lemma slice_total {A} (b : list A) i j : 0 <= i <= j -> j <= zlen b -> exists r, slice b i j = Some r.
Proof. intros Hi Hj. destruct (slice_is_some b i j Hi Hj) as (r & E & _). by exists r. Qed.

Lemma ecrecover_ok input : small_bytes input -> run_ok (ecrecover_Run C input).1.
Proof.
  intros [Hw Hl]. unfold ecrecover_Run. set (p := RightPadBytes input ecRecoverInputLength).
  assert (128 <= zlen p) as Hp by (unfold p; rewrite zlen_RightPadBytes; unfold ecRecoverInputLength; lia).
  destruct (slice_is_some p 64 96 ltac:(lia) ltac:(lia)) as (r & -> & _), (slice_is_some p 96 128 ltac:(lia) ltac:(lia)) as (s & -> & _).
  destruct (slice_is_some p 32 63 ltac:(lia) ltac:(lia)) as (z & -> & _), (slice_is_some p 0 32 ltac:(lia) ltac:(lia)) as (h & -> & Hh).
  destruct (slice_is_some p 64 128 ltac:(lia) ltac:(lia)) as (rs & -> & Hrs).
  destruct (index p 63) as [v|] eqn:Ev.
  2:{ unfold index in Ev. case_if_in Ev; [|lia]. apply lookup_ge_None_1 in Ev. unfold zlen in Hp. lia. }
  case_if; [by split; [constructor|by_compute]|]. cbn [fst].
  pose proof (Ecrecover_ok h (rs ++ [u8 (v - 27)]) Hh) as He. rewrite zlen_app, Hrs in He. specialize (He eq_refl).
  destruct (Ecrecover C h _) as [pub| |]; [|by split; [constructor|by_compute]|done]. destruct He as [_ Hpl].
  destruct (slice_total pub 1 (zlen pub) ltac:(lia) ltac:(lia)) as [key ->]. destruct (keccak256_length (C := C) key) as [Hkw Hkl].
  destruct (slice_is_some (keccak256_Sum C key) 12 (zlen (keccak256_Sum C key)) ltac:(lia) ltac:(lia)) as (a & Ea & Hal).
  rewrite Ea. eapply small_of_length; [eapply wf_LeftPadBytes, wf_slice; [|exact Ea]; done|by rewrite zlen_LeftPadBytes|].
  lia.
Qed.

Lemma curve_point_ok input start :
  small_bytes input -> 0 <= start -> newCurvePoint C (getData input start 64) <> Panic.
Proof.
  intros [Hw Hl] Hs. rewrite getData_ok by lia. apply UnmarshalG1_ok. by rewrite zlen_bytes_at.
Qed.

Lemma MarshalG1_small p : small_bytes (MarshalG1 C p).
Proof. destruct (MarshalG1_length p). by eapply small_of_length. Qed.

Lemma pairing_points_ok n input i :
  0 <= i -> i + 192 * Z.of_nat n <= zlen input -> pairing_points C n input i <> Panic.
Proof.
  revert i. induction n as [|n IH]; intros i Hi Hn; [done|]. cbn [pairing_points].
  destruct (slice_is_some input i (i + 64) ltac:(lia) ltac:(lia)) as (b & -> & Hb).
  destruct (slice_is_some input (i + 64) (i + 192) ltac:(lia) ltac:(lia)) as (b' & -> & Hb').
  pose proof (UnmarshalG1_ok b ltac:(lia)). pose proof (UnmarshalG2_ok b' ltac:(lia)). unfold newCurvePoint, newTwistPoint.
  destruct (UnmarshalG1 C b); try done. destruct (UnmarshalG2 C b'); try done.
  specialize (IH (i + 192) ltac:(lia) ltac:(lia)). by destruct (pairing_points C n input (i + 192)) as [[] | |].
Qed.

Lemma byzantium_precompiles_typed : precompiles_typed precompile_limit (PrecompiledContractsByzantium C).
Proof.
  intros a p input Hp Hi Hg. change (run_ok (PrecompiledRun p input)). pose proof Hi as [Hw Hl].
  assert (a = 1 \/ a = 2 \/ a = 3 \/ a = 4 \/ a = 5 \/ a = 6 \/ a = 7 \/ a = 8) as Ha.
  { unfold PrecompiledContractsByzantium, PrecompiledContractsHomestead in Hp. repeat case_match; try done; lia. }
  repeat destruct Ha as [->|Ha]; [..|subst a]; injection Hp as <-; cbn [PrecompiledRun ecrecover sha256hash ripemd160hash dataCopy bigModExp bn256Add bn256ScalarMul bn256Pairing] in *.
  - by apply ecrecover_ok.
  - destruct (sha256_length (C := C) input). by eapply small_of_length.
  - destruct (ripemd160_length (C := C) input) as [H1 H2]. eapply small_of_length; [by apply wf_LeftPadBytes|by rewrite zlen_LeftPadBytes|lia].
  - done.
  - destruct (modexp_gas_bounds input Hi) as (gas & Eg & Hu & _). cbn in Hg. rewrite Eg in Hg. cbn in Hg.
    rewrite u64_small in Hg by done. destruct (modexp_Run_ok input Hi) as [-> HM]; [by rewrite Eg|].
    eapply small_of_length; [apply wf_Z_to_be|apply zlen_Z_to_be|lia].
  - pose proof (curve_point_ok input 0 Hi ltac:(lia)). pose proof (curve_point_ok input 64 Hi ltac:(lia)).
    destruct (newCurvePoint C (getData input 0 64)); try done. destruct (newCurvePoint C (getData input 64 64)); try done.
    apply MarshalG1_small.
  - pose proof (curve_point_ok input 0 Hi ltac:(lia)). destruct (newCurvePoint C (getData input 0 64)); try done.
    rewrite getData_ok by lia. apply MarshalG1_small.
  - destruct (Z.ltb_spec 0 (zlen input mod 192)) as [|Hz]; [done|].
    pose proof (pairing_points_ok (Z.to_nat (zlen input / 192)) input 0 ltac:(lia)) as Hpp.
    pose proof (zlen_nonneg input). pose proof (Z.div_mod (zlen input) 192 ltac:(lia)).
    pose proof (Z.mod_pos_bound (zlen input) 192 ltac:(lia)). pose proof (Z.div_pos (zlen input) 192 ltac:(lia) ltac:(lia)).
    specialize (Hpp ltac:(lia)). destruct (pairing_points C _ input 0) as [[cs ts]| |]; try done.
    case_if; (split; [by_decide|by_compute]).
Qed.

Lemma homestead_precompiles_typed : precompiles_typed precompile_limit (PrecompiledContractsHomestead C).
Proof.
  intros a p input Hp. apply (byzantium_precompiles_typed a).
  unfold PrecompiledContractsByzantium. unfold PrecompiledContractsHomestead in *. by repeat case_match.
Qed.
End NoPanic.

(** [ecrecover] may change its input.  The recovery id is appended to a slice
    of the input, and lands in the input when that is longer than 128 bytes. *)
Theorem ecrecover_changes_input C : exists input, (ecrecover_Run C input).2 <> input.
Proof.
  exists (Z_to_be 32 0 ++ Z_to_be 32 27 ++ Z_to_be 32 1 ++ Z_to_be 32 1 ++ [9]).
  intros E. apply (f_equal (fun l => l !! 128%nat)) in E. vm_compute in E. discriminate E.
Qed.
