(* ===== verification/EvmSafe.v ===== *)
(** Operations that are safe once they are paid for: those of EvmTypedOps, and the
    instructions that call or create, whose callee gets no more gas than was
    charged. *)

From stdpp Require Import gmap.
From S2P Require Import Prelude GoMath Params EvmCode EvmMemory EvmState EvmInstr EvmGas EvmAddress EvmInterp EvmLogic EvmGasBound EvmTermination EvmWorldRel EvmRevert EvmArith EvmTyped EvmTypedOps EvmTypedCalls.

Section Safe.
Context {Hash DB : Type} `{HashFn Hash} `{!StateDB Hash DB} `{!SnapshotLaws Hash DB} `{!Ledger DB} `{!LedgerLaws Hash DB}.

(** An operation that can be paid for from at most [limit] gas. *)
Definition op_safe (limit : Z) (c : Contract Hash) (o : operation (Hash := Hash) (DB := DB)) : Prop :=
  forall w0 s size, good c w0 s -> gas s <= limit -> pc s < zlen (Code c) -> validateStack o (stack s) = None ->
  wp (failed w0) (gasCost o size) s (fun cost s1 =>
    gas_post c w0 s (match memorySize o with Some _ => true | None => false end) size cost s1 /\
    (cost <= gas s1 -> forall m, good c w0 (set_mem m s1) -> covered (memorySize o) (set_mem m s1) ->
     wp (failed w0) (execute o) (set_mem m (set_gas (gas s1 - cost) s1)) (op_post c w0))).

Lemma good_charged c w0 (s s1 : Frame Hash DB) t size cost m :
  gas_post c w0 s t size cost s1 -> cost <= gas s1 -> good c w0 (set_mem m s1) ->
  good c w0 (set_mem m (set_gas (gas s1 - cost) s1)).
Proof.
  intros [] Hc Hm. pose proof (good_gas _ _ _ post_good). destruct Hm. split; try done.
  unfold is_u64 in *. cbn [gas set_mem set_gas]. lia.
Qed.

Lemma op_typed_safe limit c o : op_typed c o -> op_safe limit c o.
Proof.
  intros Ho w0 s size Hg _ Hpc Hv. destruct (Ho w0 s Hg Hpc Hv) as [Hgas _].
  eapply wp_mono; [apply Hgas|]. intros cost s1 Hp. split; [done|]. intros Hc m Hm Hcov.
  pose proof (good_charged _ _ _ _ _ _ _ _ Hp Hc Hm) as Hg2.
  apply Ho; [done|cbn; by rewrite (post_pc _ _ _ _ _ _ _ Hp)|cbn; by rewrite (post_stack _ _ _ _ _ _ _ Hp)|done].
Qed.

Lemma wp_Ret {A} F (m : M Hash DB A) s (Q Q' : A -> Frame Hash DB -> Prop) :
  wp F m s Q -> (forall a s', m s = (Ret a, s') -> Q a s' -> Q' a s') -> wp F m s Q'.
Proof. unfold wp. destruct (m s) as [[a|e| |] s']; auto. Qed.

Hypothesis HashBig_word : forall h : Hash, is_word (HashBig h).
Hypothesis Keccak_inj : forall b b' : bytes, Keccak256 (Hash := Hash) b = Keccak256 b' -> b = b'.
Variables (evm : EVM).
Hypothesis evm_ok : evm_typed evm.
Hypothesis not_constantinople : rConstantinople (chainRules evm) = false.
Variables PrecompiledContractsHomestead PrecompiledContractsByzantium : Precompiles.
Variable limit : Z.
Hypothesis precompiles_ok :
  precompiles_typed limit (precompiles evm PrecompiledContractsHomestead PrecompiledContractsByzantium).
Hypothesis limit_u64 : limit < 2 ^ 64.

Section Step.
Variable Run_ : Contract Hash -> bytes -> bool -> Z -> bool -> Z -> World Hash DB -> RunResult Hash DB.
Variables (depth : Z) (readOnly : bool) (c : Contract Hash).
Hypothesis Run_typed : forall c input static depth ro g w,
  contract_typed c -> small_bytes input -> 0 <= g < limit -> world_good w w ->
  run_typed w (Run_ c input static depth ro g w).
Hypothesis c_ok : contract_typed c.

Abbreviation evm_op f := (f evm PrecompiledContractsHomestead PrecompiledContractsByzantium Run_ depth readOnly c).

(** * The instructions that call *)
Lemma world_good_frame w0 (s : Frame Hash DB) w :
  good c w0 s -> world_good (world s) w -> good c w0 (set_world w s).
Proof. intros Hg Hw. apply good_set_world; [done|]. eapply world_good_trans; [apply Hg|done]. Qed.

Lemma after_call_typed w0 s f retOffset retSize :
  good c w0 s -> pc s < zlen (Code c) -> zlen (stack s) + 1 <= StackLimit ->
  is_word retOffset -> is_word retSize -> calcMemSize retOffset retSize <= zlen (store (mem s)) ->
  (world_good (world s) (world s) -> call_typed (world s) (f (world s))) ->
  wp (failed w0) (do! r := call_world f in after_call retOffset retSize r) s (op_post c w0).
Proof.
  intros Hg Hpc Hst Ho Hs Hm Hf. specialize (Hf (world_good_refl _ _ (good_world _ _ _ Hg))).
  apply wp_bind, wp_call_world. unfold call_typed in Hf.
  destruct (f (world s)) as [[[[res left] err]|e| |] w]; try done. destruct Hf as [Hb Hw].
  pose proof (world_good_frame w0 s w Hg Hw) as Hg1. unfold after_call. apply wp_bind, wp_push.
  assert (good c w0 (set_stack ((if is_nil_err err then 1 else 0) :: stack s) (set_world w s))) as Hg2.
  { apply good_set_stack; [done|]. constructor; [case_if; by_decide|apply Hg]. }
  assert (forall s', good c w0 s' -> pc s' = pc s -> zlen (stack s') = zlen (stack s) + 1 ->
    wp (failed w0) (seq! returnGas left in ret res) s' (op_post c w0)) as Hend.
  { intros s' Hg' Hpc' Hst'. apply wp_bind, wp_returnGas, wp_ret. split; [done|].
    split; [apply good_set_gas; [done|apply is_u64_u64]|]. cbn [stack pc set_gas]. lia. }
  apply wp_bind. case_if.
  - eapply wp_memory_Set; [exact Hg2|done..|apply Hb|]. intros m Hgm. apply Hend; [done|done|].
    cbn. by rewrite zlen_cons, Z.add_comm.
  - apply wp_ret, Hend; [done|done|]. cbn. by rewrite zlen_cons, Z.add_comm.
Qed.

Lemma covers_both a b x y len : BigMax (calcMemSize a b) (calcMemSize x y) <= len ->
  calcMemSize a b <= len /\ calcMemSize x y <= len.
Proof. unfold BigMax. case_if; lia. Qed.

Lemma BigToAddress_word x : is_word (BigToAddress x).
Proof. unfold BigToAddress, is_word. pose proof (Z.mod_pos_bound (Z.abs x) (2 ^ 160) eq_refl). lia. Qed.

(** A call with value, after it has been charged. *)
Lemma value_call_safe o f :
  validateStack o = makeStackFunc 7 1 -> memorySize o = Some memoryCall ->
  execute o =
    (do! _ := pop in do! gas := get (fun s => callGasTemp (world s)) in
     do! addr := pop in do! value := pop in do! inOffset := pop in do! inSize := pop in
     do! retOffset := pop in do! retSize := pop in
     do! m := get mem in
     do! args := lift (Memory_Get m (Int64 inOffset) (Int64 inSize)) in
     do! r := call_world (f (BigToAddress addr) args
       (if negb (U256 value =? 0) then u64 (gas + CallStipend) else gas) (U256 value)) in
     after_call retOffset retSize r) ->
  (forall w addr args g v, is_word addr -> small_bytes args -> 0 <= g < limit -> is_word v -> world_good w w ->
     call_typed w (f addr args g v w)) ->
  (forall w0 s x0 x1 x2 x3 x4 x5 x6 rest size, good c w0 s -> stack s = x0 :: x1 :: x2 :: x3 :: x4 :: x5 :: x6 :: rest ->
     wp (failed w0) (gasCost o size) s (gas_post c w0 s true size)) ->
  (forall size s cost s1, gasCost o size s = (Ret cost, s1) ->
     exists v, stack s !! 2%nat = Some v /\ call_charged s (40 + transfer_cost v) cost s1) ->
  op_safe limit c o.
Proof.
  intros Ev Em Ee Hf Hgas Hc w0 s size Hg Hl Hpc Hv. rewrite Em, Ee. rewrite Ev in Hv.
  apply makeStackFunc_ok in Hv as [Hp Hq].
  destruct (stack_open7 _ Hp (good_stack _ _ _ Hg)) as (x0 & x1 & x2 & x3 & x4 & x5 & x6 & rest & Hs & H0 & H1 & H2 & H3 & H4 & H5 & H6 & Hr & Hz).
  eapply wp_Ret; [by eapply Hgas|]. intros cost s1 E Hpost. split; [done|]. intros Hpay m Hm Hcov.
  pose proof (good_charged _ _ _ _ _ _ _ _ Hpost Hpay Hm) as Hg2.
  destruct (Hc _ _ _ _ E) as (v & Hvs & t & m1 & Ht & -> & Hle). rewrite Hs in Hvs. injection Hvs as <-.
  destruct Hcov as (n & Hn & Hlen). cbn [stack set_mem set_world] in Hn, Hg2. rewrite Hs in Hn. injection Hn as <-.
  cbn [mem set_mem] in Hlen. apply covers_both in Hlen as [Hret Hin].
  set (s2 := set_mem m _) in *. assert (stack s2 = x0 :: x1 :: x2 :: x3 :: x4 :: x5 :: x6 :: rest) as Hs2 by exact Hs.
  do 18 wp_step. cbn [mem set_stack].
  destruct (get_covered (mem s2) x3 x4) as (d & Hd & Hsm); [apply Hg2..|done|done|done|].
  apply wp_bind, wp_lift. exists d. split; [done|].
  apply (after_call_typed w0 (set_stack rest s2)); try done; [by apply good_set_stack|cbn; lia|]. intros Hw. apply Hf; try done.
  - apply BigToAddress_word.
  - cbn. cbn in Hpay. pose proof (stipend_bound t x2) as Hb. unfold is_u64 in Ht.
    pose proof (stipend_transfer x2) as Hst. unfold stipend in Hst. specialize (Hb ltac:(lia) ltac:(lia)). lia.
  - apply is_word_U256.
Qed.

Lemma plain_call_safe o f :
  validateStack o = makeStackFunc 6 1 ->
  memorySize o = Some memoryDelegateCall \/ memorySize o = Some memoryStaticCall ->
  execute o =
    (do! _ := pop in do! gas := get (fun s => callGasTemp (world s)) in
     do! addr := pop in do! inOffset := pop in do! inSize := pop in
     do! retOffset := pop in do! retSize := pop in
     do! m := get mem in
     do! args := lift (Memory_Get m (Int64 inOffset) (Int64 inSize)) in
     do! r := call_world (f (BigToAddress addr) args gas) in
     after_call retOffset retSize r) ->
  (forall w addr args g, is_word addr -> small_bytes args -> 0 <= g < limit -> world_good w w ->
     call_typed w (f addr args g w)) ->
  (forall w0 s x0 x1 x2 x3 x4 x5 rest size, good c w0 s -> stack s = x0 :: x1 :: x2 :: x3 :: x4 :: x5 :: rest ->
     wp (failed w0) (gasCost o size) s (gas_post c w0 s true size)) ->
  (forall size s cost s1, gasCost o size s = (Ret cost, s1) -> call_charged s 40 cost s1) ->
  op_safe limit c o.
Proof.
  intros Ev Em Ee Hf Hgas Hc w0 s size Hg Hl Hpc Hv. rewrite Ee. rewrite Ev in Hv.
  apply makeStackFunc_ok in Hv as [Hp Hq].
  destruct (stack_open6 _ Hp (good_stack _ _ _ Hg)) as (x0 & x1 & x2 & x3 & x4 & x5 & rest & Hs & H0 & H1 & H2 & H3 & H4 & H5 & Hr & Hz).
  eapply wp_Ret; [by eapply Hgas|]. intros cost s1 E Hpost. split; [by destruct Em as [-> | ->]|]. intros Hpay m Hm Hcov.
  pose proof (good_charged _ _ _ _ _ _ _ _ Hpost Hpay Hm) as Hg2.
  destruct (Hc _ _ _ _ E) as (t & m1 & Ht & -> & Hle).
  assert (calcMemSize x4 x5 <= zlen (store m) /\ calcMemSize x2 x3 <= zlen (store m)) as [Hret Hin].
  { apply covers_both. destruct Em as [Em|Em]; rewrite Em in Hcov; destruct Hcov as (n & Hn & Hlen);
      cbn [stack set_mem set_world] in Hn; rewrite Hs in Hn; by injection Hn as <-. }
  set (s2 := set_mem m _) in *. assert (stack s2 = x0 :: x1 :: x2 :: x3 :: x4 :: x5 :: rest) as Hs2 by exact Hs.
  do 16 wp_step. cbn [mem set_stack].
  destruct (get_covered (mem s2) x2 x3) as (d & Hd & Hsm); [apply Hg2..|done|done|done|].
  apply wp_bind, wp_lift. exists d. split; [done|].
  apply (after_call_typed w0 (set_stack rest s2)); try done; [by apply good_set_stack|cbn; lia|].
  intros Hw. apply Hf; try done; [apply BigToAddress_word|].
  cbn. cbn in Hpay. unfold is_u64 in Ht. lia.
Qed.

Lemma CreateAddress_word a n : is_word (CreateAddress (Hash := Hash) a n).
Proof. unfold CreateAddress, is_word. pose proof (Z.mod_pos_bound (HashBig (Keccak256 (Hash := Hash) (address_preimage a n))) (2 ^ 160) eq_refl). lia. Qed.

Lemma create_typed_exec w0 s x0 x1 x2 rest :
  good c w0 s -> gas s < limit -> pc s < zlen (Code c) -> stack s = x0 :: x1 :: x2 :: rest ->
  zlen rest + 1 <= StackLimit -> calcMemSize x1 x2 <= zlen (store (mem s)) ->
  wp (failed w0) (evm_op opCreate) s (op_post c w0).
Proof.
  intros Hg Hl Hpc Hs Hst Hc. pose proof (good_stack _ _ _ Hg) as Hwd. rewrite Hs in Hwd.
  apply Forall_cons_1 in Hwd as [H0 [H1 [H2 Hr]%Forall_cons_1]%Forall_cons_1].
  destruct (get_covered (mem s) x1 x2) as (d & Hd & Hsm); [apply Hg..|done|done|done|].
  unfold opCreate. do 8 wp_step. cbn [mem set_stack]. apply wp_bind, wp_lift. exists d. split; [done|].
  do 2 wp_step. pose proof (good_gas _ _ _ Hg) as Hu.
  pose proof (create_gas (gas s) (IsEIP150 (chainConfig evm) (evmBlock evm)) Hu) as Hb.
  cbn [gas set_stack]. set (g := if IsEIP150 _ _ then _ else _) in *.
  apply wp_bind, wp_UseGas; cbn [gas set_stack]; [lia|]. intros _.
  apply wp_bind, wp_call_world. cbn [world set_stack set_gas].
  pose proof (create_call_typed evm _ _ limit precompiles_ok Run_ depth readOnly Run_typed (CallerRef c) d EmptyHash g x0
    (CreateAddress (self c) (GetNonce (Hash := Hash) (db (world s)) (self c))) (world s) c_ok Hsm (or_introl eq_refl)
    ltac:(lia) H0 (CreateAddress_word _ _) (world_good_refl _ _ (good_world _ _ _ Hg))) as Hcr.
  unfold Create, create_typed in *. cbn [Address] in *.
  destruct (create _ _ _ _ _ _ _ _ _ _ _ _ _) as [[[[[b a] left] e]| | |] w]; try done. destruct Hcr as (Hb' & Ha & Hw).
  match goal with |- context [set_world w ?s1] => assert (good c w0 (set_world w s1)) as Hg1 end.
  { apply world_good_frame; [|done]. apply good_set_gas; [exact (good_set_stack c w0 s rest Hg Hr)|unfold is_u64 in *; lia]. }
  set (s1 := set_world w _) in *.
  assert (forall v, is_word v -> wp (failed w0) (seq! returnGas left in
    if bool_decide (e = Some errExecutionReverted) then ret b else ret []) (set_stack (v :: rest) s1) (op_post c w0)) as Hend.
  { intros v Hv. apply wp_bind, wp_returnGas.
    assert (forall b, small_bytes b -> op_post c w0 b (set_gas (u64 (gas (set_stack (v :: rest) s1) + left)) (set_stack (v :: rest) s1))) as Hp.
    { intros b' Hsb. split; [done|]. split; [apply good_set_gas; [apply good_set_stack; [done|by constructor]|apply is_u64_u64]|].
      unfold s1. cbn [stack pc set_gas set_stack set_world]. rewrite zlen_cons. lia. }
    case_if; apply wp_ret, Hp; [done|apply small_nil]. }
  apply wp_bind. repeat case_if; apply wp_push, Hend; done.
Qed.
End Step.
End Safe.
