(* ===== verification/EvmTypeSafety.v ===== *)
(** Type safety of the machine: from a typed world, code with less than [limit]
    gas runs to an end without panic, nested calls and creations included, and
    the supply of ether does not grow. *)

From stdpp Require Import gmap.
From S2P Require Import Prelude GoMath Params EvmCode EvmMemory EvmState EvmInstr EvmGas EvmAddress EvmInterp EvmLogic EvmGasBound EvmTermination EvmWorldRel EvmRevert EvmArith EvmTyped EvmTypedOps EvmTypedCalls EvmSafe.

(** * The memory that operations ask for *)
Section Memory.
Context {Hash DB : Type} `{HashFn Hash}.

(** The size of the memory that an operation needs is defined on the stacks that
    it accepts. *)
Definition memory_defined (o : operation (Hash := Hash) (DB := DB)) : Prop :=
  forall st f, Forall is_word st -> validateStack o st = None -> memorySize o = Some f ->
  exists n, f st = Some n /\ 0 <= n.

Lemma calcMemSize_nonneg a b : is_word a -> is_word b -> 0 <= calcMemSize a b.
Proof. unfold calcMemSize, is_word. intros. case_if; lia. Qed.
Lemma BigMax_nonneg x y : 0 <= x -> 0 <= y -> 0 <= BigMax x y.
Proof. unfold BigMax. intros. case_if; lia. Qed.

Lemma is_word_1 : is_word 1.
Proof. by_decide. Qed.
Lemma is_word_32 : is_word 32.
Proof. by_decide. Qed.

Lemma no_memory_defined o : memorySize o = None -> memory_defined o.
Proof. intros E st f _ _ E'. congruence. Qed.

Lemma stack_memory_defined o p q f :
  validateStack o = makeStackFunc p q -> memorySize o = Some f ->
  (forall st, p <= zlen st -> Forall is_word st -> exists n, f st = Some n /\ 0 <= n) -> memory_defined o.
Proof.
  intros Ev Em Hf st f' Hw Hv E. rewrite Ev in Hv. apply makeStackFunc_ok in Hv as [Hp _].
  rewrite Em in E. injection E as <-. by apply Hf.
Qed.
End Memory.

(** Follow a memory function through a stack that is long enough. *)
Ltac memory_defined :=
  first [ apply no_memory_defined; reflexivity
        | eapply stack_memory_defined; [reflexivity|reflexivity|];
          let st := fresh "st" in let Hl := fresh "Hl" in let Hw := fresh "Hw" in intros st Hl Hw;
          destruct st as [|? [|? [|? [|? [|? [|? [|? ?]]]]]]]; unfold zlen in Hl; cbn [length] in Hl; try lia;
          repeat (apply Forall_cons_1 in Hw as [? Hw]); (eexists; split; [reflexivity|]);
          auto using calcMemSize_nonneg, BigMax_nonneg, is_word_1, is_word_32 ].

(** * Tables *)
Section Tables.
Context {Hash DB : Type} `{HashFn Hash} `{!StateDB Hash DB} `{!SnapshotLaws Hash DB} `{!Ledger DB} `{!LedgerLaws Hash DB}.
Hypothesis HashBig_word : forall h : Hash, is_word (HashBig h).
Hypothesis Keccak_inj : forall b b' : bytes, Keccak256 (Hash := Hash) b = Keccak256 b' -> b = b'.
Variables (evm : EVM).
Hypothesis evm_ok : evm_typed evm.
Hypothesis not_constantinople : rConstantinople (chainRules evm) = false.
Variables PrecompiledContractsHomestead PrecompiledContractsByzantium : Precompiles.
Variable limit : Z.
Hypothesis precompiles_ok :
  precompiles_typed limit (precompiles evm PrecompiledContractsHomestead PrecompiledContractsByzantium).
Hypothesis limit_u64 : limit < 2 ^ 64.
Variable Run_ : Contract Hash -> bytes -> bool -> Z -> bool -> Z -> World Hash DB -> RunResult Hash DB.
Variables (depth : Z) (readOnly : bool) (c : Contract Hash).
Hypothesis Run_typed : forall c input static depth ro g w,
  contract_typed c -> small_bytes input -> 0 <= g < limit -> world_good w w ->
  run_typed w (Run_ c input static depth ro g w).
Hypothesis c_ok : contract_typed c.

Abbreviation operation := (operation (Hash := Hash) (DB := DB)).
Abbreviation evm_table f := (f evm PrecompiledContractsHomestead PrecompiledContractsByzantium Run_ depth readOnly c).

Definition op_ok (o : operation) : Prop := op_safe limit c o /\ memory_defined o.
Definition table_ok (l : list (Z * operation)) : Prop := Forall (fun e => op_ok e.2) l.

Lemma op_ok_typed o : op_typed c o -> memory_defined o -> op_ok o.
Proof. intros Ho Hm. split; [by apply op_typed_safe|done]. Qed.

Lemma table_ok_typed l : table_typed c l -> Forall (fun e => memory_defined e.2) l -> table_ok l.
Proof.
  unfold table_typed, table_ok. rewrite !List.Forall_forall. intros Ht Hm e He. apply op_ok_typed; auto.
Qed.

Ltac each := repeat (apply Forall_cons_2; [cbn [snd]|]); [..|apply Forall_nil_2].

Lemma arithmetic_safe : table_ok (arithmetic_set evm).
Proof. apply table_ok_typed; [by apply arithmetic_typed|]. unfold arithmetic_set. each; memory_defined. Qed.
Lemma environment_safe : table_ok (environment_set evm c).
Proof. apply table_ok_typed; [by apply environment_typed|]. unfold environment_set. each; memory_defined. Qed.
Lemma storage_safe : table_ok (storage_set evm c).
Proof. apply table_ok_typed; [by apply storage_typed|]. unfold storage_set. each; memory_defined. Qed.

(** The runs of operations that differ by a number. *)
Lemma entries_ok (f : nat -> Z * operation) a n :
  (forall i, (a <= i < a + n)%nat -> op_ok (f i).2) -> table_ok (f <$> seq a n).
Proof.
  intros Hf. unfold table_ok. apply List.Forall_forall. intros e He.
  apply list_elem_of_In, list_elem_of_fmap in He as (i & -> & Hi). apply elem_of_seq in Hi. auto.
Qed.
Lemma push_safe : table_ok (push_set c).
Proof. apply entries_ok. intros i Hi. apply op_ok_typed; [apply push_entry_typed; [done..|lia]|memory_defined]. Qed.
Lemma dup_safe : table_ok dup_set.
Proof. apply entries_ok. intros i Hi. apply op_ok_typed; [apply dup_entry_typed; lia|memory_defined]. Qed.
Lemma swap_safe : table_ok swap_set.
Proof. apply entries_ok. intros i Hi. apply op_ok_typed; [apply swap_entry_typed; lia|memory_defined]. Qed.
Lemma log_safe : table_ok (log_set evm c).
Proof. apply entries_ok. intros i Hi. apply op_ok_typed; [apply log_entry_typed; lia|memory_defined]. Qed.

(** The gas functions of the calls, on a stack that is long enough. *)
Ltac call_gas :=
  let Hs := fresh "Hs" in intros; cbn [gasCost plain with_memory returning];
  match goal with E : stack _ = _ |- _ => rename E into Hs end; gas_wp Hs.

Lemma create_safe : op_ok (returning (writing (with_memory memoryCreate
  (plain (evm_table opCreate) gasCreate (makeStackFunc 3 1))))).
Proof.
  split; [|memory_defined]. intros w0 s size Hg Hl Hpc Hv. cbn [validateStack gasCost memorySize execute plain with_memory writing returning] in *.
  apply makeStackFunc_ok in Hv as [Hp Hq].
  destruct (stack_open3 _ Hp (good_stack _ _ _ Hg)) as (x0 & x1 & x2 & rest & Hs & H0 & H1 & H2 & Hr & Hz).
  apply (wp_Ret _ _ _ (gas_post c w0 s true size)); [by gas_wp Hs|]. intros cost s1 E Hpost. split; [done|]. intros Hpay m Hm (n & Hn & Hle).
  pose proof (good_charged _ _ _ _ _ _ _ _ Hpost Hpay Hm) as Hg2. destruct Hpost as [Hc0 _ Hst _ Hpc1 _].
  cbn [stack set_mem] in Hn. rewrite Hst, Hs in Hn. injection Hn as <-.
  assert (gas s1 = gas s) as Hsame.
  { assert (keeps same_gas (gasCreate (Hash := Hash) (DB := DB) size)) as Hk by (unfold gasCreate; keeps).
    destruct (Hk s) as [Hk1 _]. by rewrite E in Hk1. }
  pose proof (cost_Create size s cost s1 E : 1 <= cost) as Hmin.
  eapply create_typed_exec; try done; cbn; [lia|congruence|by rewrite Hst|lia].
Qed.

Lemma call_safe : op_ok (returning (with_memory memoryCall
  (plain (evm_table opCall) (gasCall evm) (makeStackFunc 7 1)))).
Proof.
  split; [|memory_defined]. eapply value_call_safe; [done..| | |].
  - intros. by apply (Call_typed evm _ _ limit).
  - pose proof (gasTable_pos evm). call_gas.
  - apply gasCall_Ret.
Qed.

Lemma callcode_safe : op_ok (returning (with_memory memoryCall
  (plain (evm_table opCallCode) (gasCallCode evm) (makeStackFunc 7 1)))).
Proof.
  split; [|memory_defined]. eapply value_call_safe; [done..| | |].
  - intros. by apply (CallCode_typed evm _ _ limit).
  - pose proof (gasTable_pos evm). call_gas.
  - apply gasCallCode_Ret.
Qed.

Lemma delegatecall_safe : op_ok (returning (with_memory memoryDelegateCall
  (plain (evm_table opDelegateCall) (gasDelegateCall evm) (makeStackFunc 6 1)))).
Proof.
  split; [|memory_defined]. eapply plain_call_safe; [done|by left|done|..].
  - intros. by apply (DelegateCall_typed evm _ _ limit).
  - pose proof (gasTable_pos evm). call_gas.
  - apply plain_call_Ret.
Qed.

Lemma staticcall_safe : op_ok (returning (with_memory memoryStaticCall
  (plain (evm_table opStaticCall) (gasStaticCall evm) (makeStackFunc 6 1)))).
Proof.
  split; [|memory_defined]. eapply plain_call_safe; [done|by right|done|..].
  - intros. by apply (StaticCall_typed evm _ _ limit).
  - pose proof (gasTable_pos evm). call_gas.
  - apply plain_call_Ret.
Qed.

Lemma system_safe : table_ok (evm_table system_set).
Proof.
  unfold table_ok, system_set. each; [apply create_safe|apply call_safe|apply callcode_safe|..].
  - apply op_ok_typed; [apply return_typed|memory_defined].
  - apply op_ok_typed; [by apply suicide_typed|memory_defined].
Qed.

Definition set_ok (t : InstructionSet) : Prop := forall op o, t op = Some o -> op_ok o.

Lemma set_op_safe op o t : op_ok o -> set_ok t -> set_ok (set_op op o t).
Proof. intros Ho Ht x o'. unfold set_op. case_if; [by intros [= <-]|apply Ht]. Qed.

Lemma frontier_safe : set_ok (evm_table newFrontierInstructionSet).
Proof.
  assert (table_ok (arithmetic_set evm ++ environment_set evm c ++ storage_set evm c ++ push_set c ++ dup_set ++
    swap_set ++ log_set evm c ++ evm_table system_set)) as Hall.
  { unfold table_ok. rewrite !Forall_app.
    split; [apply arithmetic_safe|]. split; [apply environment_safe|]. split; [apply storage_safe|]. split; [apply push_safe|].
    split; [apply dup_safe|]. split; [apply swap_safe|]. split; [apply log_safe|apply system_safe]. }
  intros op o. unfold newFrontierInstructionSet, of_list. destruct (find _ _) as [e|] eqn:Ef; [|done].
  intros [= <-]. apply find_some in Ef as [Hin _]. exact (proj1 (List.Forall_forall _ _) Hall e Hin).
Qed.

Lemma homestead_safe : set_ok (evm_table newHomesteadInstructionSet).
Proof. apply set_op_safe; [apply delegatecall_safe|apply frontier_safe]. Qed.

Lemma byzantium_safe : set_ok (evm_table newByzantiumInstructionSet).
Proof.
  apply set_op_safe; [apply op_ok_typed; [apply revert_typed|memory_defined]|].
  apply set_op_safe; [apply op_ok_typed; [apply returndatacopy_typed|memory_defined]|].
  apply set_op_safe; [apply op_ok_typed; [|memory_defined]|].
  { apply (push_typed _ _ _ (fun s => zlen (returnData (world s)))); [by vm_compute| |done].
    intros w0 s Hg. apply small_word, Hg. }
  apply set_op_safe; [apply staticcall_safe|apply homestead_safe].
Qed.

Lemma JumpTable_safe : set_ok (evm_table JumpTable).
Proof.
  unfold JumpTable. change (IsConstantinople (chainConfig evm) (evmBlock evm)) with (rConstantinople (chainRules evm)).
  rewrite not_constantinople. repeat case_if; [apply byzantium_safe|apply homestead_safe|apply frontier_safe].
Qed.

(** Every table has STOP, for the end of the code, and a CALL on seven words. *)
Lemma JumpTable_STOP : evm_table JumpTable STOP = Some (halting (plain opStop (constGasFunc 0) (makeStackFunc 0 0))).
Proof. unfold JumpTable. by repeat case_if. Qed.
Lemma JumpTable_CALL o : evm_table JumpTable CALL = Some o -> validateStack o = makeStackFunc 7 1.
Proof. unfold JumpTable. repeat case_if; by intros [= <-]. Qed.

(** * One round *)
Lemma wp_requestedMemory (o : operation) w0 s Q :
  memory_defined o -> good c w0 s -> validateStack o (stack s) = None ->
  (forall size, 0 <= size -> (memorySize o = None -> size = 0) ->
     (forall f, memorySize o = Some f -> exists n, f (stack s) = Some n /\ n <= size) -> Q size s) ->
  wp (failed w0) (requestedMemory o) s Q.
Proof.
  intros Hm Hg Hv HQ. unfold requestedMemory. destruct (memorySize o) as [f|] eqn:Ef; [|by apply wp_ret, HQ].
  destruct (Hm (stack s) f (good_stack _ _ _ Hg) Hv Ef) as (n & Hn & Hn0).
  apply wp_bind, wp_get, wp_bind, wp_lift. exists n. split; [done|]. apply wp_bind, wp_checked; [apply Hg|]. intros Hb.
  destruct (bigUint64_ok n Hn0 Hb) as [Hu ->]. destruct (toWordSize_bounds n Hu) as [Hw1 Hw2].
  apply wp_checked; [apply Hg|]. intros Hov.
  destruct (SafeMul_ok (toWordSize n) 32) as [_ Hok]; [unfold is_u64 in *; lia|by_decide|].
  rewrite (Hok Hov). apply HQ; [lia|done|]. intros f' [= <-]. exists n. split; [done|lia].
Qed.

Lemma wp_enforceRestrictions op (o : operation) w0 s Q :
  good c w0 s -> (op = CALL -> 3 <= zlen (stack s)) -> Q tt s ->
  wp (failed w0) (enforceRestrictions evm readOnly op o) s Q.
Proof.
  intros Hg Hop HQ. unfold enforceRestrictions. repeat case_if; try (by apply wp_ret); try (by apply wp_fail, Hg).
  simp_bool. specialize (Hop ltac:(done)).
  destruct (stack_open3 _ Hop (good_stack _ _ _ Hg)) as (x0 & x1 & x2 & rest & Hs & _).
  apply wp_bind. eapply wp_Back; [by rewrite Hs|]. case_if; [apply wp_fail, Hg|by apply wp_ret].
Qed.

(** The memory after the charge. *)
Lemma resize_good w0 s s1 t size cost (o : operation) :
  gas_post c w0 s t size cost s1 -> t = match memorySize o with Some _ => true | None => false end ->
  0 <= size -> (memorySize o = None -> size = 0) ->
  good c w0 (set_mem (if 0 <? size then Memory_Resize (mem s1) size else mem s1) s1) /\
  size <= zlen (store (if 0 <? size then Memory_Resize (mem s1) size else mem s1)).
Proof.
  intros Hp Ht Hsz Hno. pose proof (post_good _ _ _ _ _ _ _ Hp) as Hg.
  destruct (Z.ltb_spec 0 size) as [Hpos|Hz].
  - destruct (Memory_Resize_ok (mem s1) size Hsz) as (Hl & _ & Hw).
    split; [|lia]. apply good_set_mem; [done|apply Hw, Hg|]. rewrite Hl. pose proof (good_memory _ _ _ Hg).
    destruct (memorySize o); [|by specialize (Hno eq_refl); lia].
    pose proof (post_size _ _ _ _ _ _ _ Hp Ht). lia.
  - split; [|pose proof (zlen_nonneg (store (mem s1))); lia]. by destruct s1.
Qed.

Lemma prepare_typed op (o : operation) w0 s :
  op_ok o -> (op = CALL -> validateStack o = makeStackFunc 7 1) ->
  good c w0 s -> gas s <= limit -> pc s < zlen (Code c) ->
  wp (failed w0) (prepare evm readOnly op o) s (fun _ s1 => wp (failed w0) (execute o) s1 (op_post c w0) /\ world_good w0 (world s1)).
Proof.
  intros [Hs Hm] Hcall Hg Hl Hpc. unfold prepare. apply wp_bind, wp_get, wp_bind.
  destruct (validateStack o (stack s)) eqn:Hv; [apply wp_fail, Hg|]. apply wp_ret, wp_bind.
  apply wp_enforceRestrictions; [done| |].
  { intros Hop. rewrite Hcall in Hv by done. apply makeStackFunc_ok in Hv. lia. }
  apply wp_bind. apply wp_requestedMemory; [done..|]. intros size Hsz Hno Hsome. apply wp_bind, wp_attempt.
  specialize (Hs w0 s size Hg Hl Hpc Hv). unfold wp at 1 in Hs.
  destruct (gasCost o size s) as [[cost|e| |] s1]; [|exact Hs|done..]. destruct Hs as [Hp Hex].
  pose proof (post_good _ _ _ _ _ _ _ Hp) as Hg1.
  apply wp_bind, wp_UseGas; intros Hpay; cbn [negb]; [apply wp_fail, Hg1|].
  destruct (resize_good w0 s s1 _ size cost o Hp eq_refl Hsz Hno) as [Hgm Hlen].
  specialize (Hex Hpay _ Hgm). destruct (0 <? size).
  - apply wp_modify. split; [|apply Hg1]. apply Hex. unfold covered. destruct (memorySize o) as [f|]; [|done].
    destruct (Hsome f eq_refl) as (n & Hn & Hle). exists n. cbn [stack set_mem mem].
    rewrite (post_stack _ _ _ _ _ _ _ Hp). split; [done|lia].
  - apply wp_ret. split; [|apply Hg1].
    replace (set_gas (gas s1 - cost) s1) with (set_mem (mem s1) (set_gas (gas s1 - cost) s1)) by by destruct s1.
    apply Hex. unfold covered. destruct (memorySize o) as [f|]; [|done].
    destruct (Hsome f eq_refl) as (n & Hn & Hle). exists n. cbn [stack set_mem mem].
    rewrite (post_stack _ _ _ _ _ _ _ Hp). split; [done|lia].
Qed.

(** What a round leaves: the result of the run, or a frame to go on with. *)
Definition round_typed (w0 : World Hash DB) (r : option (bytes * option VmError)) (s : Frame Hash DB) : Prop :=
  match r with
  | Some (b, _) => small_bytes b /\ world_good w0 (world s)
  | None => good c w0 s /\ zlen (stack s) <= StackLimit
  end.

Lemma world_good_returnData w0 (w : World Hash DB) b :
  world_good w0 w -> small_bytes b -> world_good w0 (set_returnData b w).
Proof. by intros [] ?; split. Qed.

Lemma wp_finish_error (o : operation) e w0 s :
  world_good w0 (world s) -> wp (failed w0) (finish o (inr e)) s (round_typed w0).
Proof.
  intros Hw. unfold finish. apply wp_bind. case_if; [apply wp_modify, wp_fail|apply wp_ret, wp_fail]; [|exact Hw].
  apply world_good_returnData; [done|apply small_nil].
Qed.

Lemma wp_finish (o : operation) b w0 s :
  op_post c w0 b s -> wp (failed w0) (finish o (inl b)) s (round_typed w0).
Proof.
  intros (Hb & Hg & Hst & Hpc). destruct (typed_Code _ c_ok) as [_ Hcode].
  assert (forall s', good c w0 s' -> pc s' = pc s -> stack s' = stack s ->
    wp (failed w0) (if reverts o then ret (Some (b, Some errExecutionReverted))
      else if halts o then ret (Some (b, None))
      else if negb (jumps o) then seq! modify (fun s => set_pc (u64 (pc s + 1)) s) in ret None
      else ret None) s' (round_typed w0)) as Hend.
  { intros s' Hg' Hpc' Hst'. do 2 (case_if; [apply wp_ret; split; [done|apply Hg']|]). case_if.
    - apply wp_bind, wp_modify, wp_ret. split; [|cbn [stack set_pc]; by rewrite Hst'].
      apply good_set_pc; [done|]. pose proof (good_pc _ _ _ Hg). rewrite u64_small by (unfold is_u64; lia). lia.
    - apply wp_ret. split; [done|by rewrite Hst']. }
  unfold finish. apply wp_bind. case_if; [apply wp_modify, Hend|apply wp_ret, Hend]; try done.
  apply good_set_world; [done|]. by apply world_good_returnData; [apply Hg|].
Qed.

Abbreviation step := (evm_table step).

(** Past the end of the code the round is a STOP. *)
Lemma step_end w0 s : good c w0 s -> zlen (Code c) <= pc s -> wp (failed w0) step s (round_typed w0).
Proof.
  intros Hg Hpc. unfold EvmInterp.step. apply wp_bind, wp_get. cbv zeta.
  replace (GetOp c (pc s)) with STOP by (unfold GetOp, GetByte; case_if; [lia|done]).
  rewrite JumpTable_STOP. apply wp_bind. unfold prepare. apply wp_bind, wp_get, wp_bind.
  cbn [validateStack halting plain]. destruct (makeStackFunc 0 0 (stack s)) eqn:Ev; [apply wp_fail, Hg|].
  apply wp_ret, wp_bind, wp_enforceRestrictions; [done|done|]. apply wp_bind, wp_ret, wp_bind, wp_attempt.
  cbn [gasCost halting plain constGasFunc ret]. pose proof (good_gas _ _ _ Hg) as Hgas. unfold is_u64 in Hgas.
  apply wp_bind, wp_UseGas; [lia|]. intros _. cbn [negb]. apply wp_ret, wp_bind, wp_attempt, wp_bind, wp_ret, wp_ret.
  split; [apply small_nil|apply Hg].
Qed.

Lemma step_typed w0 s : good c w0 s -> gas s <= limit -> wp (failed w0) step s (round_typed w0).
Proof.
  intros Hg Hl. destruct (Z.lt_ge_cases (pc s) (zlen (Code c))) as [Hpc|Hpc]; [|by apply step_end].
  unfold EvmInterp.step. apply wp_bind, wp_get. cbv zeta.
  destruct (evm_table JumpTable (GetOp c (pc s))) as [o|] eqn:Eo; [|apply wp_fail, Hg].
  pose proof (JumpTable_safe _ _ Eo) as Ho. apply wp_bind.
  eapply wp_mono; [apply prepare_typed; [done| |done..]|].
  { intros Hcall. rewrite Hcall in Eo. by apply JumpTable_CALL in Eo. }
  intros _ s1 [Hex Hw1]. apply wp_bind, wp_attempt. unfold wp in Hex.
  destruct (execute o s1) as [[b|e| |] s2]; [by apply wp_finish|by apply wp_finish_error|done..].
Qed.
End Tables.

(** * Runs *)
Section Runs.
Context {Hash DB : Type} `{HashFn Hash} `{!StateDB Hash DB} `{!SnapshotLaws Hash DB} `{!Ledger DB} `{!LedgerLaws Hash DB}.
Hypothesis HashBig_word : forall h : Hash, is_word (HashBig h).
Hypothesis Keccak_inj : forall b b' : bytes, Keccak256 (Hash := Hash) b = Keccak256 b' -> b = b'.
Variables (evm : EVM).
Hypothesis evm_ok : evm_typed evm.
Hypothesis not_constantinople : rConstantinople (chainRules evm) = false.
Variables PrecompiledContractsHomestead PrecompiledContractsByzantium : Precompiles.
Variable limit : Z.
Hypothesis precompiles_ok :
  precompiles_typed limit (precompiles evm PrecompiledContractsHomestead PrecompiledContractsByzantium).
Hypothesis limit_u64 : limit <= 2 ^ 64.

Lemma precompiles_typed_mono l l' P : l <= l' -> precompiles_typed l' P -> precompiles_typed l P.
Proof. intros Hl HP a p input Hp Hi Hg. apply (HP a); [done..|lia]. Qed.

Lemma frame_good c w g :
  contract_typed c -> world_good w w -> is_u64 g -> good c w (mkFrame 0 [] NewMemory g None (set_returnData [] w)).
Proof.
  intros Hc Hw Hg. pose proof (zlen_nonneg (Code c)). split; cbn; [apply Forall_nil_2|apply Forall_nil_2|by vm_compute|done|lia|done|].
  apply world_good_returnData; [done|apply small_nil].
Qed.

Lemma loop_steps_typed fuel c depth readOnly w0 s :
  contract_typed c -> good c w0 s -> gas s < limit -> gas s < Z.of_nat fuel ->
  run_typed w0 (loop_steps evm PrecompiledContractsHomestead PrecompiledContractsByzantium fuel c depth readOnly s).
Proof.
  revert c depth readOnly w0 s. induction fuel as [|fuel IH]; intros c depth readOnly w0 s Hc Hg Hl Hf; [done|].
  pose proof (good_gas _ _ _ Hg) as Hu. unfold is_u64 in Hu. cbn [loop_steps].
  match goal with |- context [step evm _ _ ?R depth readOnly c s] => set (Run_ := R) end.
  assert (HT : forall c input static depth ro g w, contract_typed c -> small_bytes input -> 0 <= g < gas s ->
    world_good w w -> run_typed w (Run_ c input static depth ro g w)).
  { intros c' input static d ro g w Hc' Hi Hg' Hw. unfold Run_. case_if.
    - split; [apply small_nil|]. apply world_good_returnData; [done|apply small_nil].
    - assert (contract_typed (set_Input input c')) as Hci by (by destruct Hc'; split).
      apply IH; [done|apply frame_good; [done..|unfold is_u64; lia]|cbn; lia|cbn; lia]. }
  assert (HB : forall c input static d ro g w, 0 <= g < gas s -> bounded_run (Run_ c input static d ro g w) g).
  { intros c' input static d ro g w Hg'. unfold Run_. case_if; [split; [done|simpl; lia]|].
    apply (loop_steps_bounded evm PrecompiledContractsHomestead PrecompiledContractsByzantium fuel _ _ _
      (mkFrame 0 [] NewMemory g None (set_returnData [] w))); cbn; lia. }
  pose proof (step_post evm PrecompiledContractsHomestead PrecompiledContractsByzantium Run_ depth readOnly c s Hu HB) as Hp.
  pose proof (step_typed HashBig_word Keccak_inj evm evm_ok not_constantinople _ _ (gas s)
    (precompiles_typed_mono _ _ _ (Z.lt_le_incl _ _ Hl) precompiles_ok) ltac:(lia) Run_ depth readOnly c HT Hc w0 s Hg ltac:(lia)) as Ht.
  unfold wp in Ht. destruct (step _ _ _ _ _ _ _ s) as [[[[b e]|]|e| |] s']; try done.
  - destruct Ht as [Hg' _]. destruct Hp as [_ Hp]. apply IH; [done..|lia|lia].
  - by split; [apply small_nil|].
Qed.

Lemma Run_typed fuel c input static depth readOnly g w :
  contract_typed c -> small_bytes input -> 0 <= g < limit -> g < Z.of_nat fuel -> world_good w w ->
  run_typed w (Run evm PrecompiledContractsHomestead PrecompiledContractsByzantium fuel c input static depth readOnly g w).
Proof.
  intros Hc Hi Hg Hf Hw. unfold Run. case_if.
  - split; [apply small_nil|]. apply world_good_returnData; [done|apply small_nil].
  - assert (contract_typed (set_Input input c)) as Hci by (by destruct Hc; split).
    apply loop_steps_typed; [done|apply frame_good; [done..|unfold is_u64; lia]|cbn; lia|cbn; lia].
Qed.

Lemma Run_bounded fuel c input static depth readOnly g (w : World Hash DB) :
  0 <= g < limit -> g < Z.of_nat fuel ->
  bounded_run (Run evm PrecompiledContractsHomestead PrecompiledContractsByzantium fuel c input static depth readOnly g w) g.
Proof.
  intros Hg Hf. unfold Run. case_if; [split; [done|simpl; lia]|].
  apply (loop_steps_bounded evm PrecompiledContractsHomestead PrecompiledContractsByzantium fuel _ _ _
      (mkFrame 0 [] NewMemory g None (set_returnData [] w))); cbn; lia.
Qed.
End Runs.
