(* ===== verification/StateObject.v ===== *)
(** Accounts of the state database: core/state/state_object.go, and the journal
    entries that undo changes to them (core/state/journal.go).

    A trie is represented by its content (what TrieCorrect justifies): the [Root]
    of an account is the content of its storage trie, and
    the value [0] is an absent entry. *)

From stdpp Require Import gmap.
From S2P Require Import Prelude GoMath Params EvmCode EvmMemory EvmState.

Section StateObject.
Context {Hash : Type} `{HashFn Hash}.

Abbreviation Storage := (gmap Z Z).

Record Account := mkAccount { Nonce : Z; Balance : Z; Root : Storage; ACodeHash : Hash }.

Definition emptyCodeHash : Hash := Keccak256 [].

(** [Account{}] after [newObject] has filled in the nil fields. *)
Definition emptyAccount : Account := mkAccount 0 0 ∅ emptyCodeHash.

Record stateObject := mkStateObject {
  address : Z;
  data : Account;
  otrie : option Storage;        (* content of the opened storage trie *)
  code : option bytes;           (* nil until the code is loaded *)
  originStorage : Storage;
  dirtyStorage : Storage;
  dirtyCode : bool;
  suicided : bool;
  deleted : bool }.

Definition newObject (address : Z) (data : Account) : stateObject :=
  mkStateObject address data None None ∅ ∅ false false false.

Definition set_data (d : Account) (o : stateObject) : stateObject :=
  mkStateObject (address o) d (otrie o) (code o) (originStorage o) (dirtyStorage o)
    (dirtyCode o) (suicided o) (deleted o).
Definition set_suicided (b : bool) (o : stateObject) : stateObject :=
  mkStateObject (address o) (data o) (otrie o) (code o) (originStorage o) (dirtyStorage o)
    (dirtyCode o) b (deleted o).
Definition set_deleted (b : bool) (o : stateObject) : stateObject :=
  mkStateObject (address o) (data o) (otrie o) (code o) (originStorage o) (dirtyStorage o)
    (dirtyCode o) (suicided o) b.

Definition empty (o : stateObject) : bool :=
  (Nonce (data o) =? 0) && (Balance (data o) =? 0) && bool_decide (ACodeHash (data o) = emptyCodeHash).

Definition setBalance (amount : Z) (o : stateObject) : stateObject :=
  set_data (mkAccount (Nonce (data o)) amount (Root (data o)) (ACodeHash (data o))) o.
Definition setNonce (nonce : Z) (o : stateObject) : stateObject :=
  set_data (mkAccount nonce (Balance (data o)) (Root (data o)) (ACodeHash (data o))) o.
Definition setCode (codeHash : Hash) (c : option bytes) (o : stateObject) : stateObject :=
  mkStateObject (address o)
    (mkAccount (Nonce (data o)) (Balance (data o)) (Root (data o)) codeHash)
    (otrie o) c (originStorage o) (dirtyStorage o) true (suicided o) (deleted o).
Definition setState (key value : Z) (o : stateObject) : stateObject :=
  mkStateObject (address o) (data o) (otrie o) (code o) (originStorage o)
    (<[key := value]> (dirtyStorage o)) (dirtyCode o) (suicided o) (deleted o).
Definition markSuicided (o : stateObject) : stateObject := set_suicided true o.

(** [getTrie] opens the storage trie at the root of the account. *)
Definition getTrie (o : stateObject) : Storage := default (Root (data o)) (otrie o).

(** Reads go through the dirty entries, the cache of original values, the trie. *)
Definition objCommittedState (o : stateObject) (key : Z) : Z :=
  match originStorage o !! key with
  | Some v => v
  | None => default 0 (getTrie o !! key)
  end.

Definition objState (o : stateObject) (key : Z) : Z :=
  match dirtyStorage o !! key with
  | Some v => v
  | None => objCommittedState o key
  end.

(** The read of an original value is cached. *)
Definition cacheCommitted (key : Z) (o : stateObject) : stateObject :=
  mkStateObject (address o) (data o) (Some (getTrie o)) (code o)
    (<[key := objCommittedState o key]> (originStorage o)) (dirtyStorage o)
    (dirtyCode o) (suicided o) (deleted o).

(** [Code] loads from the database, where a missing code is [nil]. *)
Definition objCode (codes : gmap Hash bytes) (o : stateObject) : option bytes :=
  match code o with
  | Some c => Some c
  | None => if bool_decide (ACodeHash (data o) = emptyCodeHash) then None else codes !! ACodeHash (data o)
  end.

(** [updateTrie]: write the dirty entries to the storage trie. *)
Definition update_entry (key value : Z) (o : stateObject) : stateObject :=
  if value =? default 0 (originStorage o !! key) then
    mkStateObject (address o) (data o) (Some (getTrie o)) (code o) (originStorage o)
      (base.delete key (dirtyStorage o)) (dirtyCode o) (suicided o) (deleted o)
  else
    mkStateObject (address o) (data o)
      (Some (if value =? 0 then base.delete key (getTrie o) else <[key := value]> (getTrie o)))
      (code o) (<[key := value]> (originStorage o))
      (base.delete key (dirtyStorage o)) (dirtyCode o) (suicided o) (deleted o).

Definition updateTrie (o : stateObject) : stateObject :=
  map_fold update_entry
    (mkStateObject (address o) (data o) (Some (getTrie o)) (code o) (originStorage o) (dirtyStorage o)
       (dirtyCode o) (suicided o) (deleted o))
    (dirtyStorage o).

Definition updateRoot (o : stateObject) : stateObject :=
  let o := updateTrie o in
  set_data (mkAccount (Nonce (data o)) (Balance (data o)) (getTrie o) (ACodeHash (data o))) o.

(** * Journal entries *)
Inductive journalEntry :=
| createObjectChange (account : Z)
| resetObjectChange (prev : stateObject)
| suicideChange (account : Z) (prev : bool) (prevbalance : Z)
| balanceChange (account : Z) (prev : Z)
| nonceChange (account : Z) (prev : Z)
| storageChange (account key prevalue : Z)
| codeChange (account : Z) (prevcode : option bytes) (prevhash : Hash)
| refundChange (prev : Z)
| addLogChange (txhash : Hash)
| addPreimageChange (hash : Hash)
| touchChange (account : Z).

Definition dirtied (e : journalEntry) : option Z :=
  match e with
  | createObjectChange a => Some a
  | resetObjectChange _ => None
  | suicideChange a _ _ => Some a
  | balanceChange a _ => Some a
  | nonceChange a _ => Some a
  | storageChange a _ _ => Some a
  | codeChange a _ _ => Some a
  | refundChange _ => None
  | addLogChange _ => None
  | addPreimageChange _ => None
  | touchChange a => Some a
  end.
End StateObject.
Arguments Account Hash : clear implicits.
Arguments stateObject Hash : clear implicits.
Arguments journalEntry Hash : clear implicits.
