(* ===== verification/StateDBModel.v ===== *)
(** The state database (core/state/statedb.go) with its journal
    (core/state/journal.go): accounts cached over the account trie, changes
    recorded so that a snapshot can be restored. *)

From stdpp Require Import gmap.
From S2P Require Import Prelude GoMath Params EvmCode EvmMemory EvmState StateObject.

Section StateDBModel.
Context {Hash : Type} `{HashFn Hash}.

Record LogEntry := mkLogEntry {
  log : Log; TxHash : Hash; BlockHash : Hash; TxIndex : Z; Index : Z }.

(** The newest journal entry is at the head of [entries]. *)
Record State := mkState {
  trie : gmap Z (Account Hash);
  codes : gmap Hash bytes;
  stateObjects : gmap Z (stateObject Hash);
  stateObjectsDirty : gset Z;
  refund : Z;
  thash : Hash; bhash : Hash; txIndex : Z;
  logs : gmap Hash (list LogEntry);
  logSize : Z;
  preimages : gmap Hash bytes;
  entries : list (journalEntry Hash);
  dirties : gmap Z Z;
  validRevisions : list (Z * Z);     (* id, journal index; oldest first *)
  nextRevisionId : Z }.

Definition set_objects (x : gmap Z (stateObject Hash)) (s : State) : State :=
  mkState (trie s) (codes s) x (stateObjectsDirty s) (refund s) (thash s) (bhash s) (txIndex s)
    (logs s) (logSize s) (preimages s) (entries s) (dirties s) (validRevisions s) (nextRevisionId s).
Definition set_objectsDirty (x : gset Z) (s : State) : State :=
  mkState (trie s) (codes s) (stateObjects s) x (refund s) (thash s) (bhash s) (txIndex s)
    (logs s) (logSize s) (preimages s) (entries s) (dirties s) (validRevisions s) (nextRevisionId s).
Definition set_refund (x : Z) (s : State) : State :=
  mkState (trie s) (codes s) (stateObjects s) (stateObjectsDirty s) x (thash s) (bhash s) (txIndex s)
    (logs s) (logSize s) (preimages s) (entries s) (dirties s) (validRevisions s) (nextRevisionId s).
Definition set_logs (x : gmap Hash (list LogEntry)) (n : Z) (s : State) : State :=
  mkState (trie s) (codes s) (stateObjects s) (stateObjectsDirty s) (refund s) (thash s) (bhash s) (txIndex s)
    x n (preimages s) (entries s) (dirties s) (validRevisions s) (nextRevisionId s).
Definition set_preimages (x : gmap Hash bytes) (s : State) : State :=
  mkState (trie s) (codes s) (stateObjects s) (stateObjectsDirty s) (refund s) (thash s) (bhash s) (txIndex s)
    (logs s) (logSize s) x (entries s) (dirties s) (validRevisions s) (nextRevisionId s).
Definition set_journal (es : list (journalEntry Hash)) (d : gmap Z Z) (s : State) : State :=
  mkState (trie s) (codes s) (stateObjects s) (stateObjectsDirty s) (refund s) (thash s) (bhash s) (txIndex s)
    (logs s) (logSize s) (preimages s) es d (validRevisions s) (nextRevisionId s).
Definition set_revisions (rs : list (Z * Z)) (next : Z) (s : State) : State :=
  mkState (trie s) (codes s) (stateObjects s) (stateObjectsDirty s) (refund s) (thash s) (bhash s) (txIndex s)
    (logs s) (logSize s) (preimages s) (entries s) (dirties s) rs next.
Definition set_trie (t : gmap Z (Account Hash)) (s : State) : State :=
  mkState t (codes s) (stateObjects s) (stateObjectsDirty s) (refund s) (thash s) (bhash s) (txIndex s)
    (logs s) (logSize s) (preimages s) (entries s) (dirties s) (validRevisions s) (nextRevisionId s).

(** [New] over the content of a trie and a store of codes. *)
Definition New (t : gmap Z (Account Hash)) (c : gmap Hash bytes) : State :=
  mkState t c ∅ ∅ 0 EmptyHash EmptyHash 0 ∅ 0 ∅ [] ∅ [] 0.

(** * Journal *)
Definition dirty (addr : Z) (s : State) : State :=
  set_journal (entries s) (<[addr := default 0 (dirties s !! addr) + 1]> (dirties s)) s.

Definition append (e : journalEntry Hash) (s : State) : State :=
  let s := set_journal (e :: entries s) (dirties s) s in
  match dirtied e with Some a => dirty a s | None => s end.

(** * Objects *)
Definition setStateObject (o : stateObject Hash) (s : State) : State :=
  set_objects (<[address o := o]> (stateObjects s)) s.

(** An object that is read from the trie is cached. *)
Definition getStateObject (addr : Z) (s : State) : option (stateObject Hash) * State :=
  match stateObjects s !! addr with
  | Some obj => if deleted obj then (None, s) else (Some obj, s)
  | None =>
      match trie s !! addr with
      | None => (None, s)
      | Some data => let obj := newObject addr data in (Some obj, setStateObject obj s)
      end
  end.

Definition createObject (addr : Z) (s : State) : stateObject Hash * option (stateObject Hash) * State :=
  let '(prev, s) := getStateObject addr s in
  let newobj := setNonce 0 (newObject addr emptyAccount) in
  let s := match prev with
           | None => append (createObjectChange addr) s
           | Some prev => append (resetObjectChange prev) s
           end in
  (newobj, prev, setStateObject newobj s).

Definition GetOrNewStateObject (addr : Z) (s : State) : stateObject Hash * State :=
  let '(so, s) := getStateObject addr s in
  match so with
  | Some so => if deleted so then let '(n, _, s) := createObject addr s in (n, s) else (so, s)
  | None => let '(n, _, s) := createObject addr s in (n, s)
  end.

Definition CreateAccount (addr : Z) (s : State) : State :=
  let '(newObj, prev, s) := createObject addr s in
  match prev with
  | Some prev => setStateObject (setBalance (Balance (data prev)) newObj) s
  | None => s
  end.

(** * Changes of an object, with their journal entries *)
Definition objSetBalance (o : stateObject Hash) (amount : Z) (s : State) : State :=
  setStateObject (setBalance amount o) (append (balanceChange (address o) (Balance (data o))) s).

Definition ripemd : Z := 3.

(** The touch of account 3 stays after a revert: a consensus rule since a fork
    in which a reverted touch deleted it. *)
Definition touch (o : stateObject Hash) (s : State) : State :=
  let s := append (touchChange (address o)) s in
  if address o =? ripemd then dirty (address o) s else s.

Definition objAddBalance (o : stateObject Hash) (amount : Z) (s : State) : State :=
  if amount =? 0 then if empty o then touch o s else s
  else objSetBalance o (Balance (data o) + amount) s.

Definition objSubBalance (o : stateObject Hash) (amount : Z) (s : State) : State :=
  if amount =? 0 then s else objSetBalance o (Balance (data o) - amount) s.

Definition objSetNonce (o : stateObject Hash) (nonce : Z) (s : State) : State :=
  setStateObject (setNonce nonce o) (append (nonceChange (address o) (Nonce (data o))) s).

(** The old code is loaded into the object before it is replaced. *)
Definition objSetCode (o : stateObject Hash) (codeHash : Hash) (c : bytes) (s : State) : State :=
  let prevcode := objCode (codes s) o in
  setStateObject (setCode codeHash (Some c) o)
    (append (codeChange (address o) prevcode (ACodeHash (data o))) s).

Definition objSetState (o : stateObject Hash) (key value : Z) (s : State) : State :=
  let prev := objState o key in
  let o := match dirtyStorage o !! key with Some _ => o | None => cacheCommitted key o end in
  if prev =? value then setStateObject o s
  else setStateObject (setState key value o) (append (storageChange (address o) key prev) s).

(** * Operations of the database *)
Definition AddBalance (addr amount : Z) (s : State) : State :=
  let '(o, s) := GetOrNewStateObject addr s in objAddBalance o amount s.
Definition SubBalance (addr amount : Z) (s : State) : State :=
  let '(o, s) := GetOrNewStateObject addr s in objSubBalance o amount s.
Definition SetBalance (addr amount : Z) (s : State) : State :=
  let '(o, s) := GetOrNewStateObject addr s in objSetBalance o amount s.
Definition SetNonce (addr nonce : Z) (s : State) : State :=
  let '(o, s) := GetOrNewStateObject addr s in objSetNonce o nonce s.
Definition SetCode (addr : Z) (c : bytes) (s : State) : State :=
  let '(o, s) := GetOrNewStateObject addr s in objSetCode o (Keccak256 c) c s.
Definition SetState (addr key value : Z) (s : State) : State :=
  let '(o, s) := GetOrNewStateObject addr s in objSetState o key value s.

Definition Suicide (addr : Z) (s : State) : bool * State :=
  match getStateObject addr s with
  | (None, s) => (false, s)
  | (Some o, s) =>
      let s := append (suicideChange addr (suicided o) (Balance (data o))) s in
      (true, setStateObject (setBalance 0 (markSuicided o)) s)
  end.

Definition AddRefund (gas : Z) (s : State) : State :=
  let s := append (refundChange (refund s)) s in set_refund (u64 (refund s + gas)) s.

Definition SubRefund (gas : Z) (s : State) : option State :=
  let s := append (refundChange (refund s)) s in
  if refund s <? gas then None else Some (set_refund (refund s - gas) s).

Definition AddLog (l : Log) (s : State) : State :=
  let s := append (addLogChange (thash s)) s in
  let e := mkLogEntry l (thash s) (bhash s) (txIndex s) (logSize s) in
  set_logs (<[thash s := default [] (logs s !! thash s) ++ [e]]> (logs s)) (logSize s + 1) s.

Definition AddPreimage (hash : Hash) (preimage : bytes) (s : State) : State :=
  match preimages s !! hash with
  | Some _ => s
  | None => let s := append (addPreimageChange hash) s in
            set_preimages (<[hash := preimage]> (preimages s)) s
  end.

(** Getters: what they return (the cache they fill is left out). *)
Definition lookupObject (s : State) (addr : Z) : option (stateObject Hash) := (getStateObject addr s).1.
Definition Exist (s : State) (addr : Z) : bool := bool_decide (is_Some (lookupObject s addr)).
Definition Empty (s : State) (addr : Z) : bool :=
  match lookupObject s addr with None => true | Some o => empty o end.
Definition GetBalance (s : State) (addr : Z) : Z :=
  match lookupObject s addr with Some o => Balance (data o) | None => 0 end.
Definition GetNonce (s : State) (addr : Z) : Z :=
  match lookupObject s addr with Some o => Nonce (data o) | None => 0 end.
Definition GetCode (s : State) (addr : Z) : bytes :=
  match lookupObject s addr with Some o => default [] (objCode (codes s) o) | None => [] end.
Definition GetCodeSize (s : State) (addr : Z) : Z :=
  match lookupObject s addr with
  | Some o => zlen (match code o with Some c => c | None => default [] (codes s !! ACodeHash (data o)) end)
  | None => 0
  end.
Definition GetCodeHash (s : State) (addr : Z) : Hash :=
  match lookupObject s addr with Some o => ACodeHash (data o) | None => EmptyHash end.
Definition GetState (s : State) (addr key : Z) : Z :=
  match lookupObject s addr with Some o => objState o key | None => 0 end.
Definition GetCommittedState (s : State) (addr key : Z) : Z :=
  match lookupObject s addr with Some o => objCommittedState o key | None => 0 end.
Definition HasSuicided (s : State) (addr : Z) : bool :=
  match lookupObject s addr with Some o => suicided o | None => false end.

(** * Undoing an entry

    [None] is a panic: a nil object, or a log that is not there. *)
Definition on_object (addr : Z) (f : stateObject Hash -> stateObject Hash) (s : State) : option State :=
  match getStateObject addr s with
  | (Some o, s) => Some (setStateObject (f o) s)
  | (None, _) => None
  end.

Definition revert_entry (e : journalEntry Hash) (s : State) : option State :=
  match e with
  | createObjectChange a =>
      Some (set_objectsDirty (stateObjectsDirty s ∖ {[a]}) (set_objects (base.delete a (stateObjects s)) s))
  | resetObjectChange prev => Some (setStateObject prev s)
  | suicideChange a prev prevbalance =>
      match getStateObject a s with
      | (Some o, s) => Some (setStateObject (setBalance prevbalance (set_suicided prev o)) s)
      | (None, s) => Some s
      end
  | balanceChange a prev => on_object a (setBalance prev) s
  | nonceChange a prev => on_object a (setNonce prev) s
  | storageChange a key prevalue => on_object a (setState key prevalue) s
  | codeChange a prevcode prevhash => on_object a (setCode prevhash prevcode) s
  | refundChange prev => Some (set_refund prev s)
  | addLogChange txhash =>
      match logs s !! txhash with
      | Some [_] => Some (set_logs (base.delete txhash (logs s)) (logSize s - 1) s)
      | Some (l :: ls) => Some (set_logs (<[txhash := removelast (l :: ls)]> (logs s)) (logSize s - 1) s)
      | _ => None
      end
  | addPreimageChange hash => Some (set_preimages (base.delete hash (preimages s)) s)
  | touchChange _ => Some s
  end.

Definition undirty (e : journalEntry Hash) (s : State) : State :=
  match dirtied e with
  | None => s
  | Some a =>
      let n := default 0 (dirties s !! a) - 1 in
      set_journal (entries s) (if n =? 0 then base.delete a (dirties s) else <[a := n]> (dirties s)) s
  end.

(** The loop of [journal.revert], from the newest entry; the entries are dropped
    as they are undone. *)
Fixpoint revert (es : list (journalEntry Hash)) (k : nat) (s : State) : option State :=
  match k with
  | O => Some (set_journal es (dirties s) s)
  | S k =>
      match es with
      | [] => None
      | e :: es => s ← revert_entry e s; revert es k (undirty e s)
      end
  end.

(** * Snapshots *)
Definition Snapshot (s : State) : Z * State :=
  let id := nextRevisionId s in
  (id, set_revisions (validRevisions s ++ [(id, zlen (entries s))]) (nextRevisionId s + 1) s).

(** [sort.Search] for the first revision whose id is not below [revid]. *)
Fixpoint search_revision (revid : Z) (rs : list (Z * Z)) : nat :=
  match rs with
  | [] => O
  | r :: rs => if revid <=? r.1 then O else S (search_revision revid rs)
  end.

Definition RevertToSnapshot (revid : Z) (s : State) : option State :=
  let idx := search_revision revid (validRevisions s) in
  match validRevisions s !! idx with
  | None => None
  | Some (id, journalIndex) =>
      if negb (id =? revid) then None
      else
        s' ← revert (entries s) (length (entries s) - Z.to_nat journalIndex) s;
        Some (set_revisions (take idx (validRevisions s)) (nextRevisionId s') s')
  end.

(** * Between transactions *)
Definition Prepare (th bh : Hash) (ti : Z) (s : State) : State :=
  mkState (trie s) (codes s) (stateObjects s) (stateObjectsDirty s) (refund s) th bh ti
    (logs s) (logSize s) (preimages s) (entries s) (dirties s) (validRevisions s) (nextRevisionId s).

Definition clearJournalAndRefund (s : State) : State :=
  set_refund 0 (set_revisions [] (nextRevisionId s) (set_journal [] ∅ s)).

Definition updateStateObject (o : stateObject Hash) (s : State) : State :=
  set_trie (<[address o := data o]> (trie s)) s.

Definition deleteStateObject (o : stateObject Hash) (s : State) : State :=
  setStateObject (set_deleted true o) (set_trie (base.delete (address o) (trie s)) s).

(** One round of the loop of [Finalise]. *)
Definition finalise_entry (deleteEmptyObjects : bool) (addr : Z) (s : State) : State :=
  match stateObjects s !! addr with
  | None => s
  | Some o =>
      let s :=
        if suicided o || (deleteEmptyObjects && empty o) then deleteStateObject o s
        else let o := updateRoot o in updateStateObject o (setStateObject o s) in
      set_objectsDirty ({[addr]} ∪ stateObjectsDirty s) s
  end.

Definition Finalise (deleteEmptyObjects : bool) (s : State) : State :=
  clearJournalAndRefund
    (map_fold (fun addr _ => finalise_entry deleteEmptyObjects addr) s (dirties s)).
End StateDBModel.
Arguments State Hash {_}.
Arguments LogEntry Hash : clear implicits.

(** The database as the virtual machine sees it. *)
#[export] Instance State_StateDB {Hash} `{HashFn Hash} : StateDB Hash (State Hash) := {
  EvmState.CreateAccount := CreateAccount;
  EvmState.SubBalance := SubBalance;
  EvmState.AddBalance := AddBalance;
  EvmState.GetBalance := GetBalance;
  EvmState.GetNonce := GetNonce;
  EvmState.SetNonce := SetNonce;
  EvmState.GetCodeHash := GetCodeHash;
  EvmState.GetCode := GetCode;
  EvmState.SetCode := SetCode;
  EvmState.GetCodeSize := GetCodeSize;
  EvmState.AddRefund := AddRefund;
  EvmState.SubRefund := SubRefund;
  EvmState.GetRefund := refund;
  EvmState.GetCommittedState := GetCommittedState;
  EvmState.GetState := GetState;
  EvmState.SetState := SetState;
  EvmState.SuicideAccount := fun a s => (Suicide a s).2;
  EvmState.HasSuicided := HasSuicided;
  EvmState.Exist := Exist;
  EvmState.Empty := Empty;
  EvmState.RevertToSnapshot := RevertToSnapshot;
  EvmState.Snapshot := Snapshot;
  EvmState.AddLog := AddLog;
  EvmState.AddPreimage := AddPreimage }.
