(* ===== verification/StateDBCorrect.v ===== *)
(** Snapshots of the state database: undoing the journal restores every
    observable part of the state, through nested snapshots and reverts. *)

From stdpp Require Import sorting.
From stdpp Require Import gmap.
From S2P Require Import Prelude GoMath Params EvmCode EvmMemory EvmState StateObject StateDBModel.

Section Equivalence.
Context {Hash : Type} `{HashFn Hash}.
Implicit Types s t : State Hash.
Implicit Types o : stateObject Hash.

(** * Observable equality *)

(** Two objects that answer every read alike. *)
Record same_object (cs : gmap Hash bytes) o o' : Prop := {
  same_address : address o = address o';
  same_data : data o = data o';
  same_code : objCode cs o = objCode cs o';
  same_state k : objState o k = objState o' k;
  same_committed k : objCommittedState o k = objCommittedState o' k;
  same_suicided : suicided o = suicided o';
  same_deleted : deleted o = deleted o' }.

#[export] Instance same_object_equiv cs : Equivalence (same_object cs).
Proof.
  split.
  - by intros o; split.
  - intros o o' []; split; auto.
  - intros o1 o2 o3 [] []; split; intros; etrans; eauto.
Qed.

(** Two states that answer every read alike; what the caches hold, the journal
    and the revisions are not compared.  The counts of changes of an account
    agree but for account 3. *)
Record same_obs s t : Prop := {
  obs_object a : option_Forall2 (same_object (codes s)) (lookupObject s a) (lookupObject t a);
  obs_codes : codes s = codes t;
  obs_trie : trie s = trie t;
  obs_refund : refund s = refund t;
  obs_thash : thash s = thash t;
  obs_bhash : bhash s = bhash t;
  obs_txIndex : txIndex s = txIndex t;
  obs_logs h : default [] (logs s !! h) = default [] (logs t !! h);
  obs_logSize : logSize s = logSize t;
  obs_preimages : preimages s = preimages t;
  obs_dirties a : a <> ripemd -> default 0 (dirties s !! a) = default 0 (dirties t !! a) }.

Lemma same_objects_refl cs (x : option (stateObject Hash)) : option_Forall2 (same_object cs) x x.
Proof. destruct x; constructor; reflexivity. Qed.

#[export] Instance same_obs_equiv : Equivalence same_obs.
Proof.
  split.
  - intros s; by split.
  - intros s t []; split; intros; eauto; try (by symmetry; auto).
    rewrite <-obs_codes0. specialize (obs_object0 a). inversion obs_object0; constructor. by symmetry.
  - intros s t u H1 H2. split; intros; try (by etrans; [apply H1|apply H2]).
    pose proof (obs_object _ _ H1 a) as O1. pose proof (obs_object _ _ H2 a) as O2.
    rewrite <-(obs_codes _ _ H1) in O2. destruct O1; inversion O2; constructor. by etrans.
Qed.

(** * Well-formed states *)

(** Objects are stored under their address; a deleted one is not in the trie, and
    was deleted because it committed suicide or was empty. *)
Definition wf_objs s : Prop :=
  forall a o, stateObjects s !! a = Some o ->
    address o = a /\ (deleted o = true -> trie s !! a = None /\ suicided o || empty o = true).

Definition wf_entry (e : journalEntry Hash) : Prop :=
  match e with resetObjectChange prev => deleted prev = false | _ => True end.

(** Revisions are sorted, and point into the journal. *)
Record wf_state s : Prop := {
  wf_objects : wf_objs s;
  wf_entries : Forall wf_entry (entries s);
  wf_revisions : StronglySorted (fun r r' : Z * Z => r.1 < r'.1 /\ r.2 <= r'.2) (validRevisions s);
  wf_revision : Forall (fun r : Z * Z => r.1 < nextRevisionId s /\ 0 <= r.2 <= zlen (entries s))
    (validRevisions s) }.

(** * Reading an object *)
Lemma lookupObject_eq s a :
  lookupObject s a =
    match stateObjects s !! a with
    | Some obj => if deleted obj then None else Some obj
    | None => newObject a <$> trie s !! a
    end.
Proof.
  unfold lookupObject, getStateObject. destruct (stateObjects s !! a) as [obj|]; [by destruct (deleted obj)|].
  by destruct (trie s !! a).
Qed.

Lemma lookup_setStateObject o s a :
  lookupObject (setStateObject o s) a =
    if a =? address o then if deleted o then None else Some o else lookupObject s a.
Proof.
  rewrite !lookupObject_eq. cbn [setStateObject stateObjects set_objects trie].
  case_if; [subst; rewrite lookup_insert_eq|rewrite lookup_insert_ne by congruence]; done.
Qed.

Lemma wf_objs_set o s : wf_objs s -> deleted o = false -> wf_objs (setStateObject o s).
Proof.
  intros Hwf Hd a o'. cbn [setStateObject set_objects stateObjects].
  destruct (decide (a = address o)) as [->|]; [rewrite lookup_insert_eq; intros [= <-]; by rewrite Hd|].
  rewrite lookup_insert_ne by congruence. apply Hwf.
Qed.

(** [getStateObject] only fills the cache. *)
Lemma getStateObject_spec a s r s1 :
  getStateObject a s = (r, s1) ->
  r = lookupObject s a /\ same_obs s1 s /\ entries s1 = entries s /\
  validRevisions s1 = validRevisions s /\ nextRevisionId s1 = nextRevisionId s /\
  (wf_objs s -> wf_objs s1) /\
  (wf_objs s -> forall o, r = Some o -> address o = a /\ deleted o = false /\ lookupObject s1 a = Some o).
Proof.
  intros E. assert (r = lookupObject s a) as Hr by (unfold lookupObject; by rewrite E).
  split; [done|]. unfold getStateObject in E.
  destruct (stateObjects s !! a) as [obj|] eqn:Ho.
  - destruct (deleted obj) eqn:Hd; injection E as <- <-; (split; [reflexivity|]); do 4 (split; [done|]); [done|].
    intros Hwf o [= <-]. split; [by apply Hwf|done].
  - destruct (trie s !! a) as [d|] eqn:Ht; [|injection E as <- <-; (split; [reflexivity|]); by do 4 (split; [done|])].
    injection E as <- <-. split.
    + split; intros; try done. rewrite lookup_setStateObject. simpl. case_if; [|apply same_objects_refl].
      subst. rewrite <-Hr. constructor. reflexivity.
    + do 3 (split; [done|]). split; [by intros; apply wf_objs_set|].
      intros Hwf o [= <-]. rewrite lookup_setStateObject. simpl. by rewrite Z.eqb_refl.
Qed.

(** * Undoing respects observable equality *)
Lemma same_obs_setStateObject o o' s t :
  same_obs s t -> same_object (codes s) o o' -> same_obs (setStateObject o s) (setStateObject o' t).
Proof.
  intros Hst Ho. split; try apply Hst. intros a. rewrite !lookup_setStateObject.
  cbn [codes setStateObject set_objects]. rewrite <-(same_address _ _ _ Ho), <-(same_deleted _ _ _ Ho).
  case_if; [|apply Hst]. destruct (deleted o); constructor. done.
Qed.

(** Functions on objects that keep objects alike. *)
Definition object_proper (f : stateObject Hash -> stateObject Hash) : Prop :=
  forall cs o o', same_object cs o o' -> same_object cs (f o) (f o').

Ltac object_proper :=
  let Ho := fresh "Ho" in let Hd := fresh "Hd" in let Hc := fresh "Hc" in
  intros cs o o' Ho; pose proof (same_data _ _ _ Ho) as Hd; pose proof (same_code _ _ _ Ho) as Hc;
  split; intros;
  first [ exact (same_address _ _ _ Ho) | exact (same_state _ _ _ Ho _) | exact (same_committed _ _ _ Ho _)
        | exact (same_suicided _ _ _ Ho) | exact (same_deleted _ _ _ Ho)
        | unfold objCode in *; cbn in *; by rewrite ?Hd in * ].

Lemma setBalance_proper x : object_proper (setBalance x).
Proof. object_proper. Qed.
Lemma setNonce_proper x : object_proper (setNonce x).
Proof. object_proper. Qed.
Lemma set_suicided_proper b : object_proper (set_suicided b).
Proof. by intros cs o o' []. Qed.
Lemma setState_proper k v : object_proper (setState k v).
Proof.
  intros cs o o' []. split; try done. intros k'. unfold objState. cbn [dirtyStorage setState].
  destruct (decide (k' = k)) as [->|]; [by rewrite !lookup_insert_eq|]. rewrite !lookup_insert_ne by done.
  apply same_state0.
Qed.
Lemma setCode_proper h c : object_proper (setCode h c).
Proof. object_proper. Qed.

Lemma on_object_proper a f s t :
  object_proper f -> same_obs s t -> option_Forall2 same_obs (on_object a f s) (on_object a f t).
Proof.
  intros Hf Hst. unfold on_object.
  destruct (getStateObject a s) as [r s1] eqn:Es, (getStateObject a t) as [r' t1] eqn:Et.
  apply getStateObject_spec in Es as (-> & Hs & _). apply getStateObject_spec in Et as (-> & Ht & _).
  destruct (obs_object _ _ Hst a) as [o o' Ho|]; constructor.
  apply same_obs_setStateObject; [by rewrite Hs, Ht|]. rewrite (obs_codes _ _ Hs). by apply Hf.
Qed.

Lemma same_obs_fields s t s' t' :
  same_obs s t ->
  (forall a, option_Forall2 (same_object (codes s)) (lookupObject s' a) (lookupObject t' a)) ->
  codes s' = codes s -> codes t' = codes t -> trie s' = trie s -> trie t' = trie t ->
  refund s' = refund t' -> thash s' = thash s -> thash t' = thash t -> bhash s' = bhash s ->
  bhash t' = bhash t -> txIndex s' = txIndex s -> txIndex t' = txIndex t -> (forall h, default [] (logs s' !! h) = default [] (logs t' !! h)) ->
  logSize s' = logSize t' -> preimages s' = preimages t' ->
  (forall a, a <> ripemd -> default 0 (dirties s' !! a) = default 0 (dirties t' !! a)) -> same_obs s' t'.
Proof. intros [] Hl. intros. split; try congruence; auto. intros a. specialize (Hl a). congruence. Qed.

(** The same, where the objects and the trie are left alone. *)
Lemma same_obs_rest s t s' t' :
  same_obs s t -> stateObjects s' = stateObjects s -> stateObjects t' = stateObjects t ->
  codes s' = codes s -> codes t' = codes t -> trie s' = trie s -> trie t' = trie t ->
  refund s' = refund t' -> thash s' = thash s -> thash t' = thash t -> bhash s' = bhash s ->
  bhash t' = bhash t -> txIndex s' = txIndex s -> txIndex t' = txIndex t -> (forall h, default [] (logs s' !! h) = default [] (logs t' !! h)) ->
  logSize s' = logSize t' -> preimages s' = preimages t' ->
  (forall a, a <> ripemd -> default 0 (dirties s' !! a) = default 0 (dirties t' !! a)) -> same_obs s' t'.
Proof.
  intros Hst Hs Ht Hc Hc' Hr Hr'. intros. apply (same_obs_fields s t); try done. intros a.
  pose proof (obs_object _ _ Hst a) as Ho. rewrite !lookupObject_eq in *. by rewrite Hs, Ht, Hr, Hr'.
Qed.

Lemma revert_entry_proper e s t :
  same_obs s t -> option_Forall2 same_obs (revert_entry e s) (revert_entry e t).
Proof.
  intros Hst. destruct e; cbn [revert_entry];
    try (by apply on_object_proper; auto using setBalance_proper, setNonce_proper, setState_proper, setCode_proper).
  - constructor. apply (same_obs_fields s t); try done; try apply Hst. intros a. rewrite !lookupObject_eq.
    cbn [stateObjects set_objects trie set_objectsDirty]. pose proof (obs_object _ _ Hst a) as Ho. rewrite !lookupObject_eq in Ho.
    destruct (decide (a = account)) as [->|]; [|by rewrite !lookup_delete_ne by done].
    rewrite !lookup_delete_eq, <-(obs_trie _ _ Hst). apply same_objects_refl.
  - constructor. apply same_obs_setStateObject; [done|reflexivity].
  - destruct (getStateObject account s) as [r s1] eqn:Es, (getStateObject account t) as [r' t1] eqn:Et.
    apply getStateObject_spec in Es as (-> & Hs & _). apply getStateObject_spec in Et as (-> & Ht & _).
    destruct (obs_object _ _ Hst account) as [o o' Ho|]; constructor; [|by rewrite Hs, Ht].
    apply same_obs_setStateObject; [by rewrite Hs, Ht|]. rewrite (obs_codes _ _ Hs).
    by apply setBalance_proper, set_suicided_proper.
  - constructor. apply (same_obs_rest s t); try done; apply Hst.
  - pose proof (obs_logs _ _ Hst txhash) as Hl.
    destruct (logs s !! txhash) as [[|l [|l' ls]]|], (logs t !! txhash) as [[|m [|m' ms]]|];
      simplify_eq/=; constructor;
      (apply (same_obs_rest s t); try done; try apply Hst);
      cbn [logs logSize set_logs]; try (by rewrite (obs_logSize _ _ Hst)); intros h;
      (destruct (decide (h = txhash)) as [->|];
       [by rewrite ?lookup_delete_eq, ?lookup_insert_eq
       |rewrite ?lookup_delete_ne, ?lookup_insert_ne by done; apply (obs_logs _ _ Hst)]).
  - constructor. apply (same_obs_rest s t); try done; try apply Hst.
    cbn [preimages set_preimages]. by rewrite (obs_preimages _ _ Hst).
  - by constructor.
Qed.

Lemma dirties_undirty e s a :
  default 0 (dirties (undirty e s) !! a) =
    default 0 (dirties s !! a) - (if bool_decide (dirtied e = Some a) then 1 else 0).
Proof.
  unfold undirty. destruct (dirtied e) as [b|]; [|rewrite bool_decide_false by done; lia].
  cbn [dirties set_journal]. destruct (decide (a = b)) as [->|].
  - rewrite bool_decide_true by done. case_if; [rewrite lookup_delete_eq|rewrite lookup_insert_eq]; simpl; lia.
  - rewrite bool_decide_false by congruence. rewrite Z.sub_0_r.
    case_if; [rewrite lookup_delete_ne by done|rewrite lookup_insert_ne by done]; done.
Qed.

Lemma dirties_append e s a :
  default 0 (dirties (append e s) !! a) =
    default 0 (dirties s !! a) + (if bool_decide (dirtied e = Some a) then 1 else 0).
Proof.
  unfold append, dirty. destruct (dirtied e) as [b|]; [|rewrite bool_decide_false by done; cbn; lia].
  cbn [dirties set_journal entries]. destruct (decide (a = b)) as [->|].
  - rewrite bool_decide_true by done. by rewrite lookup_insert_eq.
  - rewrite bool_decide_false by congruence. rewrite lookup_insert_ne by done. lia.
Qed.

Lemma undirty_proper e s t : same_obs s t -> same_obs (undirty e s) (undirty e t).
Proof.
  intros Hst. assert (forall s, exists d, undirty e s = set_journal (entries s) d s) as Hu.
  { intros u. unfold undirty. destruct (dirtied e); [by eexists|]. exists (dirties u). by destruct u. }
  destruct (Hu s) as [d Es], (Hu t) as [d' Et].
  apply (same_obs_rest s t); rewrite ?Es, ?Et; try done; try apply Hst.
  intros a Ha. rewrite <-Es, <-Et, !dirties_undirty. by rewrite (obs_dirties _ _ Hst a Ha).
Qed.

(** Undo entries from the newest on, leaving the journal aside. *)
Fixpoint undo (es : list (journalEntry Hash)) s : option (State Hash) :=
  match es with
  | [] => Some s
  | e :: es => s ← revert_entry e s; undo es (undirty e s)
  end.

Lemma undo_proper es s t : same_obs s t -> option_Forall2 same_obs (undo es s) (undo es t).
Proof.
  revert s t. induction es as [|e es IH]; intros s t Hst; cbn [undo]; [by constructor|].
  destruct (revert_entry_proper e _ _ Hst) as [s1 t1 H1|]; cbn; [|constructor].
  by apply IH, undirty_proper.
Qed.

Lemma undo_app es1 es2 s : undo (es1 ++ es2) s = undo es1 s ≫= undo es2.
Proof.
  revert s. induction es1 as [|e es1 IH]; intros s; [done|]. cbn [undo app].
  destruct (revert_entry e s); [|done]. apply IH.
Qed.

Lemma undo_same es s t t1 :
  same_obs s t -> undo es t = Some t1 -> exists s1, undo es s = Some s1 /\ same_obs s1 t1.
Proof.
  intros Hst Ht. pose proof (undo_proper es _ _ Hst) as Hu. rewrite Ht in Hu. inversion Hu. eauto.
Qed.

(** * Every operation can be undone *)

(** [s'] follows from [s] by changes whose journal entries lead back to it. *)
Record undoable s s' : Prop := {
  undoable_entries : exists es s1, entries s' = es ++ entries s /\ Forall wf_entry es /\
    undo es s' = Some s1 /\ same_obs s1 s;
  undoable_revisions : validRevisions s' = validRevisions s;
  undoable_next : nextRevisionId s' = nextRevisionId s;
  undoable_objs : wf_objs s' }.

Lemma undoable_same s s' :
  same_obs s' s -> entries s' = entries s -> validRevisions s' = validRevisions s ->
  nextRevisionId s' = nextRevisionId s -> wf_objs s' -> undoable s s'.
Proof. intros. split; try done. exists [], s'. split; [done|]. by split; [constructor|]. Qed.

Lemma undoable_trans s1 s2 s3 : undoable s1 s2 -> undoable s2 s3 -> undoable s1 s3.
Proof.
  intros [(es1 & t1 & He1 & Hw1 & Hu1 & Ho1) ? ? _] [(es2 & t2 & He2 & Hw2 & Hu2 & Ho2) ? ? ?].
  split; [|congruence|congruence|done]. destruct (undo_same es1 t2 s2 t1 Ho2 Hu1) as (t & Ht & Hto).
  exists (es2 ++ es1), t. rewrite He2, He1, app_assoc. split; [done|]. split; [by apply Forall_app|].
  rewrite undo_app, Hu2. split; [done|]. by rewrite Hto.
Qed.

(** One entry, and a change that its revert takes back. *)
Lemma undoable_entry e s s' s1 :
  entries s' = e :: entries s -> wf_entry e -> validRevisions s' = validRevisions s ->
  nextRevisionId s' = nextRevisionId s -> wf_objs s' ->
  revert_entry e s' = Some s1 -> same_obs (undirty e s1) s -> undoable s s'.
Proof.
  intros He ? ? ? ? Hr Ho. split; try done. exists [e], (undirty e s1). split; [done|].
  split; [by apply Forall_singleton|]. cbn. by rewrite Hr.
Qed.

Lemma append_fields e s :
  entries (append e s) = e :: entries s /\ stateObjects (append e s) = stateObjects s /\
  exists d, append e s = set_journal (e :: entries s) d s.
Proof.
  unfold append. destruct (dirtied e); repeat split; by eexists.
Qed.

Lemma lookup_append e s a : lookupObject (append e s) a = lookupObject s a.
Proof. destruct (append_fields e s) as (_ & _ & d & ->). by rewrite !lookupObject_eq. Qed.

Lemma undirty_append e s : same_obs (undirty e (append e s)) s.
Proof.
  destruct (append_fields e s) as (_ & _ & d & E). unfold undirty.
  assert (forall es d', same_obs (set_journal es d' (append e s)) s <->
    forall a, a <> ripemd -> default 0 (d' !! a) = default 0 (dirties s !! a)) as Hj.
  { intros es d'. rewrite E. split; [intros Ho; apply (obs_dirties _ _ Ho)|].
    intros Hd. by apply (same_obs_rest s s). }
  pose proof (dirties_undirty e (append e s)) as Hu. unfold undirty in Hu. pose proof (dirties_append e s) as Ha.
  destruct (dirtied e) as [b|].
  - apply Hj. intros a _. specialize (Hu a). cbn [dirties set_journal] in Hu. rewrite Hu, Ha. case_if; lia.
  - rewrite E in *. apply (Hj (e :: entries s) d). intros a _. specialize (Ha a).
    rewrite bool_decide_false in Ha by done. cbn [dirties set_journal] in Ha. lia.
Qed.

(** Entry and change of one object. *)
Lemma undoable_object e o (f g : stateObject Hash -> stateObject Hash) s :
  wf_objs s -> lookupObject s (address o) = Some o -> deleted o = false ->
  (forall t o' t', getStateObject (address o) t = (Some o', t') -> revert_entry e t = Some (setStateObject (g o') t')) ->
  wf_entry e -> address (f o) = address o -> deleted (f o) = false ->
  same_object (codes s) (g (f o)) o -> undoable s (setStateObject (f o) (append e s)).
Proof.
  intros Hwf Hl Hd He Hwe Ha Hfd Hg. destruct (append_fields e s) as (E1 & E2 & d & E3).
  set (s' := setStateObject (f o) (append e s)).
  destruct (getStateObject (address o) s') as [r s2] eqn:Eg.
  destruct (getStateObject_spec _ _ _ _ Eg) as (Hr & Hs2 & _).
  unfold s' in Hr. rewrite lookup_setStateObject, Ha, Z.eqb_refl, Hfd in Hr. subst r.
  eapply (undoable_entry e s s' (setStateObject (g (f o)) s2)); try done; try (unfold s'; by rewrite E3).
  - apply wf_objs_set; [|done]. intros a x. rewrite E2, E3. apply Hwf.
  - by eapply He.
  - etrans; [|apply (undirty_append e)]. apply undirty_proper.
    transitivity (setStateObject o s').
    { apply same_obs_setStateObject; [done|]. rewrite (obs_codes _ _ Hs2). unfold s'. by rewrite E3. }
    apply (same_obs_fields s s); try (unfold s'; by rewrite E3); try reflexivity.
    intros a. unfold s'. rewrite !lookup_setStateObject, lookup_append, Ha, Hd.
    case_if; [subst; rewrite Hl|]; apply same_objects_refl.
Qed.

Lemma undoable_refl s : wf_objs s -> undoable s s.
Proof. intros. by apply undoable_same. Qed.

Lemma undoable_get a s r s1 : wf_objs s -> getStateObject a s = (r, s1) -> undoable s s1.
Proof. intros Hwf E. destruct (getStateObject_spec _ _ _ _ E) as (_ & ? & ? & ? & ? & ? & _). auto using undoable_same. Qed.

(** A change of the caches of an object. *)
Lemma undoable_cache o o' s :
  wf_objs s -> lookupObject s (address o) = Some o -> deleted o = false ->
  same_object (codes s) o' o -> undoable s (setStateObject o' s).
Proof.
  intros Hwf Hl Hd Ho. pose proof (same_address _ _ _ Ho) as Ha. pose proof (same_deleted _ _ _ Ho) as Hd'.
  apply undoable_same; try done; [|apply wf_objs_set; [done|congruence]].
  apply (same_obs_fields s s); try done. intros a. rewrite lookup_setStateObject, Ha, Hd', Hd.
  case_if; [subst; rewrite Hl; by constructor|apply same_objects_refl].
Qed.

(** An entry with a change outside the objects. *)
Lemma undoable_rest e s s' s1 :
  wf_objs s -> entries s' = e :: entries s -> wf_entry e -> validRevisions s' = validRevisions s ->
  nextRevisionId s' = nextRevisionId s -> stateObjects s' = stateObjects s -> trie s' = trie s ->
  revert_entry e s' = Some s1 -> same_obs s1 (append e s) -> undoable s s'.
Proof.
  intros Hwf ? ? ? ? Ho Ht Hr Hs. eapply undoable_entry; try done.
  - intros a o. rewrite Ho, Ht. apply Hwf.
  - etrans; [|apply (undirty_append e)]. by apply undirty_proper.
Qed.

(** An object that replaces the one of its address. *)
Lemma reset_undoable p n s :
  wf_objs s -> lookupObject s (address n) = Some p -> address p = address n -> deleted p = false ->
  deleted n = false -> undoable s (setStateObject n (append (resetObjectChange p) s)).
Proof.
  intros Hwf Hl Ha Hp Hn. set (e := resetObjectChange p). destruct (append_fields e s) as (E1 & E2 & d & E3).
  eapply (undoable_entry e); try done; try (by rewrite E3).
  - apply wf_objs_set; [|done]. intros x y. rewrite E2, E3. apply Hwf.
  - etrans; [|apply (undirty_append e)]. apply undirty_proper.
    apply (same_obs_fields s s); try (by rewrite E3); try reflexivity. intros x.
    rewrite !lookup_setStateObject, lookup_append, Ha, Hp.
    case_if; [subst; rewrite Hl|]; apply same_objects_refl.
Qed.

(** An object at an address that has none. *)
Lemma create_undoable n s :
  wf_objs s -> lookupObject s (address n) = None -> deleted n = false ->
  undoable s (setStateObject n (append (createObjectChange (address n)) s)).
Proof.
  intros Hwf Hl Hn. set (e := createObjectChange (address n) : journalEntry Hash).
  destruct (append_fields e s) as (E1 & E2 & d & E3). eapply (undoable_entry e); try done; try (by rewrite E3).
  - apply wf_objs_set; [|done]. intros x y. rewrite E2, E3. apply Hwf.
  - etrans; [|apply (undirty_append e)]. apply undirty_proper.
    apply (same_obs_fields s s); try (by rewrite E3); try reflexivity. intros x.
    rewrite lookup_append. rewrite lookupObject_eq in Hl |- *. rewrite (lookupObject_eq s x), E3.
    cbn [stateObjects trie set_objectsDirty set_objects setStateObject set_journal].
    destruct (decide (x = address n)) as [->|]; [|rewrite lookup_delete_ne, lookup_insert_ne by done; apply same_objects_refl].
    rewrite lookup_delete_eq. destruct (stateObjects s !! address n) as [y|] eqn:Ey; [|apply same_objects_refl].
    destruct (deleted y) eqn:Hy; [|done]. destruct (Hwf _ y Ey) as [_ Ht]. by rewrite (proj1 (Ht Hy)).
Qed.

Lemma createObject_undoable a s o prev s' :
  wf_objs s -> createObject a s = (o, prev, s') ->
  undoable s s' /\ address o = a /\ deleted o = false /\ lookupObject s' a = Some o.
Proof.
  intros Hwf. unfold createObject. destruct (getStateObject a s) as [p s1] eqn:E.
  destruct (getStateObject_spec _ _ _ _ E) as (Hr & Hs1 & He & Hv & Hn & Hw & Hp). specialize (Hw Hwf).
  intros [= <- <- <-]. rewrite lookup_setStateObject. cbn [address setNonce set_data newObject deleted].
  rewrite Z.eqb_refl. split; [|done]. eapply undoable_trans; [by eapply undoable_get|]. destruct p as [p|].
  - destruct (Hp Hwf p eq_refl) as (Hpa & Hpd & Hpl). by apply reset_undoable.
  - apply (create_undoable (setNonce 0 (newObject a emptyAccount))); try done.
    pose proof (obs_object _ _ Hs1 a) as Ho. rewrite <-Hr in Ho. by inversion Ho.
Qed.

Lemma CreateAccount_undoable a s : wf_objs s -> undoable s (CreateAccount a s).
Proof.
  intros Hwf. unfold CreateAccount. destruct (createObject a s) as [[n prev] s'] eqn:Ec.
  destruct prev as [p|]; [|by destruct (createObject_undoable _ _ _ _ _ Hwf Ec)].
  unfold createObject in Ec. destruct (getStateObject a s) as [r s1] eqn:E. injection Ec as <- -> <-.
  destruct (getStateObject_spec _ _ _ _ E) as (_ & Hs1 & He & Hv & Hn & Hw & Hp). specialize (Hw Hwf).
  destruct (Hp Hwf p eq_refl) as (Hpa & Hpd & Hpl).
  eapply undoable_trans; [by eapply undoable_get|].
  set (n := setBalance (Balance (data p)) (setNonce 0 (newObject a emptyAccount))).
  replace (setStateObject n _) with (setStateObject n (append (resetObjectChange p) s1)); [by apply reset_undoable|].
  unfold setStateObject, set_objects. cbn [stateObjects]. by rewrite insert_insert_eq.
Qed.

Lemma GetOrNew_undoable a s o s' :
  wf_objs s -> GetOrNewStateObject a s = (o, s') ->
  undoable s s' /\ address o = a /\ deleted o = false /\ lookupObject s' (address o) = Some o.
Proof.
  intros Hwf. unfold GetOrNewStateObject. destruct (getStateObject a s) as [p s1] eqn:E.
  destruct (getStateObject_spec _ _ _ _ E) as (_ & Hs1 & He & Hv & Hn & Hw & Hp). specialize (Hw Hwf).
  assert (undoable s s1) as Hu by (by eapply undoable_get). destruct p as [p|].
  - destruct (Hp Hwf p eq_refl) as (<- & Hd & Hl). rewrite Hd. by intros [= <- <-].
  - destruct (createObject a s1) as [[n q] s2] eqn:Ec. intros [= <- <-].
    destruct (createObject_undoable a s1 _ _ _ Hw Ec) as (? & Ha & ? & ?). rewrite Ha.
    eauto using undoable_trans.
Qed.

(** Operations of an object. *)
Lemma objSetBalance_undoable o x s :
  wf_objs s -> lookupObject s (address o) = Some o -> deleted o = false -> undoable s (objSetBalance o x s).
Proof.
  intros. apply (undoable_object _ o (setBalance x) (setBalance (Balance (data o)))); try done.
  - intros t o' t' E. cbn. unfold on_object. by rewrite E.
  - by destruct o as [? []].
Qed.

Lemma objSetNonce_undoable o x s :
  wf_objs s -> lookupObject s (address o) = Some o -> deleted o = false -> undoable s (objSetNonce o x s).
Proof.
  intros. apply (undoable_object _ o (setNonce x) (setNonce (Nonce (data o)))); try done.
  - intros t o' t' E. cbn. unfold on_object. by rewrite E.
  - by destruct o as [? []].
Qed.

Lemma objSetCode_undoable o h c s :
  wf_objs s -> lookupObject s (address o) = Some o -> deleted o = false -> undoable s (objSetCode o h c s).
Proof.
  intros. apply (undoable_object _ o (setCode h (Some c)) (setCode (ACodeHash (data o)) (objCode (codes s) o))); try done.
  - intros t o' t' E. cbn. unfold on_object. by rewrite E.
  - split; try done; [by destruct o as [? []]|]. unfold objCode. cbn. destruct (code o); [done|].
    case_if; [done|]. by destruct (codes s !! _).
Qed.

Lemma cacheCommitted_same cs k o : same_object cs (cacheCommitted k o) o.
Proof.
  assert (forall k', objCommittedState (cacheCommitted k o) k' = objCommittedState o k') as Hc.
  { intros k'. unfold objCommittedState at 1. cbn [originStorage cacheCommitted].
    destruct (decide (k' = k)) as [->|]; [by rewrite lookup_insert_eq|by rewrite lookup_insert_ne]. }
  split; try done. intros k'. unfold objState. cbn [dirtyStorage cacheCommitted]. by destruct (dirtyStorage o !! k').
Qed.

Lemma objSetState_undoable o k v s :
  wf_objs s -> lookupObject s (address o) = Some o -> deleted o = false -> undoable s (objSetState o k v s).
Proof.
  intros Hwf Hl Hd. unfold objSetState.
  set (o' := match dirtyStorage o !! k with Some _ => o | None => cacheCommitted k o end).
  assert (same_object (codes s) o' o) as Ho.
  { unfold o'. destruct (dirtyStorage o !! k); [reflexivity|apply cacheCommitted_same]. }
  assert (address o' = address o /\ deleted o' = false) as [Ha' Hd'] by (destruct Ho; split; congruence).
  pose proof (undoable_cache o o' s Hwf Hl Hd Ho) as Hu. case_if; [done|].
  replace (setStateObject (setState k v o') (append (storageChange (address o') k (objState o k)) s))
    with (setStateObject (setState k v o') (append (storageChange (address o') k (objState o k)) (setStateObject o' s))).
  - eapply undoable_trans; [exact Hu|].
    apply (undoable_object _ o' (setState k v) (setState k (objState o k))); try done.
    + apply Hu.
    + by rewrite lookup_setStateObject, Z.eqb_refl, Hd'.
    + intros t x t' Eg. cbn. unfold on_object. by rewrite Eg.
    + split; try done. intros k'. unfold objState at 1. cbn [dirtyStorage setState].
      destruct (decide (k' = k)) as [->|]; [rewrite lookup_insert_eq; by rewrite (same_state _ _ _ Ho)|].
      by rewrite !lookup_insert_ne by done.
  - unfold setStateObject, set_objects, append, dirty, set_journal. cbn. by rewrite insert_insert_eq.
Qed.

Lemma touch_undoable o s :
  wf_objs s -> undoable s (touch o s).
Proof.
  intros Hwf. unfold touch. set (e := touchChange (address o)).
  destruct (append_fields e s) as (E1 & E2 & d & E3).
  eapply (undoable_rest e s _ (if address o =? ripemd then _ else _)); [done|..|reflexivity|];
    try (by case_if; rewrite ?E3); [done|].
  case_if; [|reflexivity]. apply (same_obs_rest (append e s) (append e s)); try (by rewrite E3); try reflexivity.
  intros a Hr. cbn [dirty dirties set_journal]. rewrite lookup_insert_ne; [done|congruence].
Qed.

(** Operations of the database. *)
Ltac get_or_new Hwf :=
  match goal with
  | |- context [GetOrNewStateObject ?a ?s] =>
      let E := fresh "E" in let Hu := fresh "Hu" in
      destruct (GetOrNewStateObject a s) as [?o ?s'] eqn:E;
      destruct (GetOrNew_undoable _ _ _ _ Hwf E) as (Hu & <- & ? & ?);
      eapply undoable_trans; [exact Hu|apply undoable_objs in Hu]
  end.

Lemma AddBalance_undoable a x s : wf_objs s -> undoable s (AddBalance a x s).
Proof.
  intros Hwf. unfold AddBalance. get_or_new Hwf. unfold objAddBalance.
  case_if; [case_if|]; auto using touch_undoable, undoable_refl, objSetBalance_undoable.
Qed.

Lemma SubBalance_undoable a x s : wf_objs s -> undoable s (SubBalance a x s).
Proof.
  intros Hwf. unfold SubBalance. get_or_new Hwf. unfold objSubBalance.
  case_if; auto using undoable_refl, objSetBalance_undoable.
Qed.

Lemma SetBalance_undoable a x s : wf_objs s -> undoable s (SetBalance a x s).
Proof. intros Hwf. unfold SetBalance. get_or_new Hwf. by apply objSetBalance_undoable. Qed.

Lemma SetNonce_undoable a x s : wf_objs s -> undoable s (SetNonce a x s).
Proof. intros Hwf. unfold SetNonce. get_or_new Hwf. by apply objSetNonce_undoable. Qed.

Lemma SetCode_undoable a c s : wf_objs s -> undoable s (SetCode a c s).
Proof. intros Hwf. unfold SetCode. get_or_new Hwf. by apply objSetCode_undoable. Qed.

Lemma SetState_undoable a k v s : wf_objs s -> undoable s (SetState a k v s).
Proof. intros Hwf. unfold SetState. get_or_new Hwf. by apply objSetState_undoable. Qed.

Lemma Suicide_undoable a s : wf_objs s -> undoable s (Suicide a s).2.
Proof.
  intros Hwf. unfold Suicide. destruct (getStateObject a s) as [r s1] eqn:E.
  pose proof (undoable_get _ _ _ _ Hwf E) as Hu. destruct r as [o|]; [|done].
  destruct (getStateObject_spec _ _ _ _ E) as (_ & _ & _ & _ & _ & _ & Ho).
  destruct (Ho Hwf o eq_refl) as (<- & Hd & Hl). cbn [snd]. eapply undoable_trans; [done|].
  apply (undoable_object _ o (fun o => setBalance 0 (markSuicided o))
    (fun x => setBalance (Balance (data o)) (set_suicided (suicided o) x))); try done; [apply Hu|..].
  - intros t o' t' Eg. cbn. by rewrite Eg.
  - by destruct o as [? []].
Qed.

Lemma AddRefund_undoable x s : wf_objs s -> undoable s (AddRefund x s).
Proof.
  intros Hwf. by eapply (undoable_rest (refundChange (refund s))).
Qed.

Lemma SubRefund_undoable x s s' : wf_objs s -> SubRefund x s = Some s' -> undoable s s'.
Proof.
  intros Hwf. unfold SubRefund. case_if; intros [= <-].
  by eapply (undoable_rest (refundChange (refund s))).
Qed.

Lemma AddLog_undoable l s : wf_objs s -> undoable s (AddLog l s).
Proof.
  intros Hwf. unfold AddLog. cbn [append dirtied thash bhash txIndex logSize logs set_journal].
  set (ls := default [] (logs s !! thash s)). set (x := mkLogEntry _ _ _ _ _).
  assert (exists m, revert_entry (addLogChange (thash s))
    (set_logs (<[thash s := ls ++ [x]]> (logs s)) (logSize s + 1) (append (addLogChange (thash s)) s)) =
      Some (set_logs m (logSize s) (append (addLogChange (thash s)) s)) /\
      forall h, default [] (m !! h) = default [] (logs s !! h)) as (m & Hm & Hh).
  { cbn [revert_entry logs logSize set_logs append dirtied set_journal]. rewrite lookup_insert_eq. replace (logSize s + 1 - 1) with (logSize s) by lia.
    assert (forall h, h <> thash s -> default [] (base.delete (thash s) (logs s) !! h) = default [] (logs s !! h))
      as Hd by (intros; by rewrite lookup_delete_ne).
    destruct ls as [|l0 ls'] eqn:El; cbn [app].
    - eexists; split; [done|]. intros h. rewrite delete_insert_eq. destruct (decide (h = thash s)) as [->|]; [|auto].
      rewrite lookup_delete_eq. symmetry. exact El.
    - assert (removelast (l0 :: ls' ++ [x]) = l0 :: ls') as Hr by apply (removelast_last (l0 :: ls')).
      destruct (ls' ++ [x]) eqn:Ex; [by destruct ls'|]. rewrite Hr. eexists; split; [done|]. intros h.
      rewrite insert_insert_eq. destruct (decide (h = thash s)) as [->|]; [rewrite lookup_insert_eq; symmetry; exact El|].
      by rewrite lookup_insert_ne. }
  eapply (undoable_rest (addLogChange (thash s))); try done. by apply (same_obs_rest s s).
Qed.

Lemma AddPreimage_undoable h p s : wf_objs s -> undoable s (AddPreimage h p s).
Proof.
  intros Hwf. unfold AddPreimage. destruct (preimages s !! h) eqn:E; [by apply undoable_refl|].
  eapply (undoable_rest (addPreimageChange h)); try done. apply (same_obs_rest s s); try done.
  cbn. by rewrite delete_insert_id.
Qed.
End Equivalence.
