(* ===== verification/StateDBSnapshot.v ===== *)
(** Snapshots of the state database: what [Snapshot] and [RevertToSnapshot]
    promise across any sequence of operations, nested snapshots included. *)

From stdpp Require Import sorting.
From stdpp Require Import gmap.
From S2P Require Import Prelude GoMath Params EvmCode EvmMemory EvmState StateObject StateDBModel StateDBCorrect.

Section Snapshots.
Context {Hash : Type} `{HashFn Hash}.
Implicit Types s t u : State Hash.

Abbreviation later := (fun r r' : Z * Z => r.1 < r'.1 /\ r.2 <= r'.2).

(** * Well-formed states *)
Lemma wf_undoable s s' : wf_state s -> undoable s s' -> wf_state s'.
Proof.
  intros [Ho He Hs Hr] [(es & s1 & E & Hw & _) Hv Hn Ho']. split; [done|..].
  - rewrite E. by apply Forall_app.
  - by rewrite Hv.
  - rewrite Hv, Hn, E. eapply Forall_impl; [|exact Hr]. intros r. rewrite zlen_app. unfold zlen. lia.
Qed.

Lemma wf_New (accounts : gmap Z (Account Hash)) c : wf_state (New accounts c).
Proof. split; [|constructor..]. intros a o. cbn. by rewrite lookup_empty. Qed.

Lemma wf_Snapshot s : wf_state s -> wf_state (Snapshot s).2.
Proof.
  intros [Ho He Hs Hr]. split; try done; cbn [Snapshot snd validRevisions set_revisions nextRevisionId entries].
  - apply StronglySorted_app_2; [|done|by repeat constructor]. intros r r' Hin ->%list_elem_of_singleton.
    rewrite Forall_forall in Hr. specialize (Hr r (proj1 (list_elem_of_In _ _) Hin)). cbn. lia.
  - apply Forall_app. split; [eapply Forall_impl; [|exact Hr]; intros r; cbn; lia|].
    apply Forall_singleton. unfold zlen. cbn. lia.
Qed.

(** * The loop of [journal.revert] *)
Lemma revert_entry_keeps e s s' :
  wf_objs s -> wf_entry e -> revert_entry e s = Some s' ->
  wf_objs (undirty e s') /\ validRevisions (undirty e s') = validRevisions s /\
  nextRevisionId (undirty e s') = nextRevisionId s /\ entries (undirty e s') = entries s.
Proof.
  intros Hwf He Hr.
  assert (forall s1, wf_objs s1 -> validRevisions s1 = validRevisions s -> nextRevisionId s1 = nextRevisionId s ->
    entries s1 = entries s -> s' = s1 -> wf_objs (undirty e s') /\ validRevisions (undirty e s') = validRevisions s /\
    nextRevisionId (undirty e s') = nextRevisionId s /\ entries (undirty e s') = entries s) as Hu.
  { intros s1 ? ? ? ? ->. unfold undirty. by destruct (dirtied e). }
  assert (forall a f, (forall o, address (f o) = address o /\ deleted (f o) = deleted o) ->
    on_object a f s = Some s' -> wf_objs (undirty e s') /\ validRevisions (undirty e s') = validRevisions s /\
    nextRevisionId (undirty e s') = nextRevisionId s /\ entries (undirty e s') = entries s) as Hon.
  { unfold on_object. intros a f Hf Ho'. destruct (getStateObject a s) as [[o|] s1] eqn:E; simplify_eq.
    destruct (getStateObject_spec _ _ _ _ E) as (_ & _ & ? & ? & ? & Hw & Ho).
    apply (Hu (setStateObject (f o) s1)); try done. apply wf_objs_set; [auto|].
    rewrite (proj2 (Hf o)). by apply Ho. }
  destruct e; cbn [revert_entry] in Hr;
    try (by eapply Hon; [|exact Hr]; intros []).
  - injection Hr as <-. eapply Hu; [..|reflexivity]; try done. intros a o.
    cbn [stateObjects set_objects set_objectsDirty trie]. rewrite lookup_delete_Some. intros [? ?]. by apply Hwf.
  - injection Hr as <-. eapply Hu; [..|reflexivity]; try done. by apply wf_objs_set.
  - specialize (Hon account (fun o => setBalance prevbalance (set_suicided prev o))). unfold on_object in Hon.
    destruct (getStateObject account s) as [[o|] s1] eqn:E; simplify_eq; [by apply Hon|].
    destruct (getStateObject_spec _ _ _ _ E) as (_ & _ & ? & ? & ? & Hw & _). eapply Hu; [..|reflexivity]; auto.
  - injection Hr as <-. by eapply Hu; [..|reflexivity].
  - destruct (logs s !! txhash) as [[|l [|l' ls]]|]; simplify_eq; by eapply Hu; [..|reflexivity].
  - injection Hr as <-. by eapply Hu; [..|reflexivity].
  - injection Hr as <-. by eapply Hu; [..|reflexivity].
Qed.

(** The loop undoes the newest entries and drops them. *)
Lemma revert_undo es k s :
  (k <= length es)%nat ->
  revert es k s = s' ← undo (take k es) s; Some (set_journal (drop k es) (dirties s') s').
Proof.
  revert es s. induction k as [|k IH]; intros es s Hk; [by destruct es|].
  destruct es as [|e es]; simpl in Hk; [lia|]. cbn [revert take undo drop].
  destruct (revert_entry e s) as [s1|]; [|done]. cbn. apply IH. lia.
Qed.

Lemma undo_keeps es s s' :
  wf_objs s -> Forall wf_entry es -> undo es s = Some s' ->
  wf_objs s' /\ validRevisions s' = validRevisions s /\ nextRevisionId s' = nextRevisionId s.
Proof.
  intros Hwf Hes. revert s Hwf. induction Hes as [|e es He _ IH]; intros s Hwf; cbn [undo]; [by intros [= <-]|].
  destruct (revert_entry e s) as [s1|] eqn:E; [|done]. cbn. intros Hu.
  destruct (revert_entry_keeps e s s1 Hwf He E) as (Hw1 & Hv1 & Hn1 & _).
  destruct (IH _ Hw1 Hu) as (? & ? & ?). split; [done|]; split; congruence.
Qed.

Lemma same_obs_journal es s : same_obs (set_journal es (dirties s) s) s.
Proof. by apply (same_obs_rest s s). Qed.
Lemma same_obs_set_revisions rs n s : same_obs (set_revisions rs n s) s.
Proof. by apply (same_obs_rest s s). Qed.

(** * A snapshot and what follows it *)

(** [t] follows from [s], where snapshot [id] was taken, and [id] was not reverted. *)
Record since (id : Z) s t : Prop := {
  since_entries : exists es s1, entries t = es ++ entries s /\ undo es t = Some s1 /\ same_obs s1 s;
  since_revisions : exists rs, validRevisions t = validRevisions s ++ (id, zlen (entries s)) :: rs;
  since_wf : wf_state t }.

Lemma since_Snapshot s : wf_state s -> since (Snapshot s).1 s (Snapshot s).2.
Proof.
  intros Hwf. split; [|by exists []|by apply wf_Snapshot].
  exists [], (Snapshot s).2. do 2 (split; [done|]). apply same_obs_set_revisions.
Qed.

Lemma since_undoable id s t u : since id s t -> undoable t u -> since id s u.
Proof.
  intros [(es & s1 & He & Hu & Ho) Hr Hwf] Htu. split; [|by rewrite (undoable_revisions _ _ Htu)|by eapply wf_undoable].
  destruct Htu as [(es' & t1 & He' & _ & Hu' & Ho') _ _ _].
  destruct (undo_same es t1 t s1 Ho' Hu) as (s2 & Hs2 & Hss). exists (es' ++ es), s2.
  rewrite He', He, undo_app, Hu', app_assoc. do 2 (split; [done|]). by rewrite Hss.
Qed.

Lemma since_nested id s t : since id s t -> since id s (Snapshot t).2.
Proof.
  intros [(es & s1 & He & Hu & Ho) [rs Hr] Hwf]. split; [| |by apply wf_Snapshot].
  - destruct (undo_same es (Snapshot t).2 t s1 (same_obs_set_revisions _ _ _) Hu) as (s2 & Hs2 & Hss).
    exists es, s2. do 2 (split; [done|]). by rewrite Hss.
  - exists (rs ++ [(nextRevisionId t, zlen (entries t))]). cbn. by rewrite Hr, <-app_assoc.
Qed.

(** [sort.Search] finds the revision of an id. *)
Lemma search_revision_found rs1 id n rs2 :
  StronglySorted later (rs1 ++ (id, n) :: rs2) -> search_revision id (rs1 ++ (id, n) :: rs2) = length rs1.
Proof.
  intros Hs. induction rs1 as [|r rs1 IH]; cbn; [by rewrite Z.leb_refl|].
  apply StronglySorted_cons in Hs as [Hr Hs]. apply Forall_app in Hr as [_ Hr]. apply Forall_inv in Hr as [Hlt _].
  cbn in Hlt. case_if; [lia|]. by rewrite IH.
Qed.

(** What a revert leaves: the newest entries undone and dropped. *)
Lemma RevertToSnapshot_undo t id j rs1 rs2 t1 :
  wf_state t -> validRevisions t = rs1 ++ (id, j) :: rs2 ->
  let k := (length (entries t) - Z.to_nat j)%nat in
  undo (take k (entries t)) t = Some t1 ->
  exists u, RevertToSnapshot id t = Some u /\ same_obs u t1 /\ wf_state u /\ entries u = drop k (entries t) /\
    validRevisions u = rs1 /\ nextRevisionId u = nextRevisionId t.
Proof.
  intros Hwf Hr k Hu. pose proof (wf_revisions _ Hwf) as Hs. pose proof (wf_revision _ Hwf) as Hv.
  unfold RevertToSnapshot. rewrite Hr in Hs, Hv |- *. rewrite search_revision_found by done.
  rewrite list_lookup_middle by done. rewrite Z.eqb_refl. cbn [negb]. fold k.
  rewrite revert_undo by (unfold k; lia). rewrite Hu, take_app_length. cbn [mbind option_bind].
  assert (Forall wf_entry (take k (entries t)) /\ Forall wf_entry (drop k (entries t))) as [Hes Hes'].
  { apply Forall_app. rewrite take_drop. apply Hwf. }
  destruct (undo_keeps _ t t1 (wf_objects _ Hwf) Hes Hu) as (Hw1 & Hv1 & Hn1).
  eexists. split; [done|]. split; [by rewrite same_obs_set_revisions, same_obs_journal|]. split; [|done].
  apply StronglySorted_app in Hs as (Hlt & Hs & _). apply Forall_app in Hv as [Hv Hj]. apply Forall_inv in Hj.
  split; try done. cbn [validRevisions set_revisions nextRevisionId entries set_journal]. rewrite Hn1.
  apply Forall_forall. intros r Hin. rewrite Forall_forall in Hv. specialize (Hv r Hin).
  apply list_elem_of_In in Hin. specialize (Hlt r _ Hin (list_elem_of_here _ _)). cbn in Hlt, Hj.
  unfold zlen in *. rewrite length_drop. unfold k. lia.
Qed.

(** The state at the outer snapshot is still reached after an inner revert. *)
Lemma since_same id s t u :
  since id s t -> same_obs u t -> wf_state u -> entries u = entries t ->
  validRevisions u = validRevisions t -> since id s u.
Proof.
  intros [(es & s1 & He & Hu & Ho) Hr _] Hsu Hwf Heu Hru. split; [|by rewrite Hru|done].
  destruct (undo_same es u t s1 Hsu Hu) as (s2 & Hs2 & Hss). exists es, s2. rewrite Heu.
  do 2 (split; [done|]). by rewrite Hss.
Qed.

(** Reverting undoes exactly the entries since the snapshot. *)
Lemma RevertToSnapshot_since id s t :
  since id s t ->
  exists u, RevertToSnapshot id t = Some u /\ same_obs u s /\ wf_state u /\
    entries u = entries s /\ validRevisions u = validRevisions s /\ nextRevisionId u = nextRevisionId t.
Proof.
  intros [(es & s1 & He & Hu & Ho) [rs Hr] Hwf].
  destruct (RevertToSnapshot_undo t _ _ _ _ s1 Hwf Hr) as (u & Hu' & Hs & Hw & Hes & Hrs & Hn);
    rewrite ?He in *; unfold zlen in *; rewrite length_app, Nat2Z.id, Nat.add_sub, ?take_app_length in *; [done|].
  rewrite drop_app_length in Hes. exists u. split; [done|]. by split; [rewrite Hs|].
Qed.

(** A revision taken after [id] can be reverted to, and [id] is kept. *)
Lemma since_revert id s t id' j rs1 rs2 :
  since id s t -> validRevisions t = validRevisions s ++ (id, zlen (entries s)) :: rs1 ++ (id', j) :: rs2 ->
  exists u, RevertToSnapshot id' t = Some u /\ since id s u /\ nextRevisionId u = nextRevisionId t.
Proof.
  intros [(es & s1 & He & Hu & Ho) _ Hwf] Hr.
  assert (zlen (entries s) <= j <= zlen (entries t)) as Hj.
  { pose proof (wf_revisions _ Hwf) as Hs. pose proof (wf_revision _ Hwf) as Hv. rewrite Hr in Hs, Hv.
    apply StronglySorted_app in Hs as (_ & _ & Hs). apply StronglySorted_cons in Hs as [Hs _].
    apply Forall_app in Hs as [_ Hs]. apply Forall_inv in Hs. apply Forall_app in Hv as [_ Hv].
    apply Forall_inv_tail, Forall_app in Hv as [_ Hv]. apply Forall_inv in Hv. cbn in *. lia. }
  set (k := (length (entries t) - Z.to_nat j)%nat).
  assert (k <= length es)%nat as Hk.
  { unfold k. rewrite He, length_app. rewrite He in Hj. unfold zlen in Hj. rewrite length_app in Hj. lia. }
  rewrite <-(take_drop k es), undo_app in Hu. destruct (undo (take k es) t) as [t1|] eqn:Et1; [|done].
  destruct (RevertToSnapshot_undo t id' j (validRevisions s ++ (id, zlen (entries s)) :: rs1) rs2 t1 Hwf)
    as (u & Hu' & Hs & Hw & Hes & Hrs & Hn).
  - by rewrite Hr, <-app_assoc.
  - fold k. by rewrite He, take_app_le.
  - exists u. split; [done|]. split; [|done]. split; [|by exists rs1|done].
    destruct (undo_same (drop k es) u t1 s1 Hs Hu) as (s2 & Hs2 & Hss). exists (drop k es), s2.
    fold k in Hes. rewrite He, drop_app_le in Hes by done. split; [done|]. split; [done|]. by rewrite Hss.
Qed.
End Snapshots.
