(* ===== verification/StateDBOps.v ===== *)
(** Sequences of operations on the state database: the invariant they keep, that
    a snapshot can always be restored, and that restoring it gives back every
    value that can be read. *)

From stdpp Require Import gmap.
From S2P Require Import Prelude GoMath Params EvmCode EvmMemory EvmState StateObject StateDBModel StateDBCorrect StateDBSnapshot.

Section Operations.
Context {Hash : Type} `{HashFn Hash}.
Implicit Types s t u : State Hash.

Inductive Op :=
| OpCreateAccount (addr : Z)
| OpAddBalance (addr amount : Z)
| OpSubBalance (addr amount : Z)
| OpSetBalance (addr amount : Z)
| OpSetNonce (addr nonce : Z)
| OpSetCode (addr : Z) (c : bytes)
| OpSetState (addr key value : Z)
| OpSuicide (addr : Z)
| OpAddRefund (gas : Z)
| OpSubRefund (gas : Z)
| OpAddLog (l : Log)
| OpAddPreimage (hash : Hash) (preimage : bytes)
| OpSnapshot
| OpRevert (revid : Z).

Definition exec (op : Op) (s : State Hash) : option (State Hash) :=
  match op with
  | OpCreateAccount a => Some (CreateAccount a s)
  | OpAddBalance a x => Some (AddBalance a x s)
  | OpSubBalance a x => Some (SubBalance a x s)
  | OpSetBalance a x => Some (SetBalance a x s)
  | OpSetNonce a x => Some (SetNonce a x s)
  | OpSetCode a c => Some (SetCode a c s)
  | OpSetState a k v => Some (SetState a k v s)
  | OpSuicide a => Some (Suicide a s).2
  | OpAddRefund x => Some (AddRefund x s)
  | OpSubRefund x => SubRefund x s
  | OpAddLog l => Some (AddLog l s)
  | OpAddPreimage h p => Some (AddPreimage h p s)
  | OpSnapshot => Some (Snapshot s).2
  | OpRevert id => RevertToSnapshot id s
  end.

Fixpoint exec_all (ops : list Op) (s : State Hash) : option (State Hash) :=
  match ops with
  | [] => Some s
  | op :: ops => s ← exec op s; exec_all ops s
  end.

(** What can be read at an address and a storage slot. *)
Definition reads (s : State Hash) (a k : Z) :=
  (Exist s a, Empty s a, GetBalance s a, GetNonce s a, GetCode s a, GetCodeSize s a, GetCodeHash s a,
   GetState s a k, GetCommittedState s a k, HasSuicided s a, refund s).

Lemma same_code_size cs (o o' : stateObject Hash) :
  same_object cs o o' ->
  match code o with Some c => c | None => default [] (cs !! ACodeHash (data o)) end =
  match code o' with Some c => c | None => default [] (cs !! ACodeHash (data o')) end.
Proof.
  intros [_ Hd Hc _ _ _ _]. unfold objCode in Hc. rewrite <-Hd in *.
  destruct (code o), (code o'); simplify_eq; try done; case_if_in Hc; try discriminate Hc;
    [by rewrite <-Hc|by rewrite Hc].
Qed.

Lemma same_obs_reads s t a k : same_obs s t -> reads s a k = reads t a k.
Proof.
  intros Hst. pose proof (obs_object _ _ Hst a) as Ho. pose proof (obs_codes _ _ Hst) as Hc.
  unfold reads, Exist, Empty, GetBalance, GetNonce, GetCode, GetCodeSize, GetCodeHash, GetState,
    GetCommittedState, HasSuicided, empty. rewrite <-(obs_refund _ _ Hst), <-Hc.
  destruct Ho as [o o' Ho|]; [|done]. rewrite (same_code_size _ _ _ Ho). destruct Ho as [_ Hd Hco Hst' Hcm Hsu _].
  by rewrite Hd, Hco, Hst', Hcm, Hsu.
Qed.

(** A change, as opposed to a snapshot or a revert. *)
Definition is_change (op : Op) : bool :=
  match op with OpSnapshot | OpRevert _ => false | _ => true end.

Lemma exec_undoable op s s' : is_change op = true -> wf_objs s -> exec op s = Some s' -> undoable s s'.
Proof.
  intros Hc Hwf. destruct op; cbn in Hc |- *; try discriminate Hc;
    try (by apply SubRefund_undoable); intros [= <-];
    auto using CreateAccount_undoable, AddBalance_undoable, SubBalance_undoable, SetBalance_undoable,
      SetNonce_undoable, SetCode_undoable, SetState_undoable, Suicide_undoable, AddRefund_undoable,
      AddLog_undoable, AddPreimage_undoable.
Qed.

(** ** Every valid revision can be restored *)
Definition sound s : Prop := wf_state s /\ is_Some (undo (entries s) s).

Lemma undo_prefix es k s : is_Some (undo es s) -> exists s1, undo (take k es) s = Some s1 /\ is_Some (undo (drop k es) s1).
Proof.
  rewrite <-(take_drop k es) at 1. rewrite undo_app. destruct (undo (take k es) s) as [s1|]; [by exists s1|by intros []].
Qed.

Lemma sound_revert id s :
  sound s -> id ∈ (validRevisions s).*1 -> exists u, RevertToSnapshot id s = Some u /\ sound u.
Proof.
  intros [Hwf Hu] ([id' j] & -> & (rs1 & rs2 & Hr)%list_elem_of_split)%list_elem_of_fmap.
  destruct (undo_prefix _ (length (entries s) - Z.to_nat j) s Hu) as (s1 & Hs1 & Hs2).
  destruct (RevertToSnapshot_undo s _ j rs1 rs2 s1 Hwf Hr Hs1) as (u & Hu' & Hs & Hw & He & _).
  exists u. split; [done|]. split; [done|]. rewrite He. destruct Hs2 as [s2 Hs2].
  destruct (undo_same _ u s1 s2 Hs Hs2) as (s3 & Hs3 & _). by exists s3.
Qed.

(** An id that is not valid is a panic. *)
Lemma revert_valid id s u : RevertToSnapshot id s = Some u -> id ∈ (validRevisions s).*1.
Proof.
  unfold RevertToSnapshot. destruct (validRevisions s !! _) as [[id' j]|] eqn:E; [|done].
  case_if; [done|]. intros _. subst. apply list_elem_of_fmap. exists (id, j). split; [done|].
  by eapply list_elem_of_lookup_2.
Qed.

Lemma exec_sound op s s' : sound s -> exec op s = Some s' -> sound s'.
Proof.
  intros Hs He. destruct (is_change op) eqn:Hc.
  - destruct Hs as [Hwf [s0 Hu]]. pose proof (exec_undoable op s s' Hc (wf_objects _ Hwf) He) as Hun.
    split; [by eapply wf_undoable|]. destruct Hun as [(es & s1 & E & _ & Hu1 & Ho) _ _ _].
    destruct (undo_same _ s1 s s0 Ho Hu) as (s2 & Hs2 & _). exists s2. by rewrite E, undo_app, Hu1.
  - destruct op; try discriminate Hc; cbn [exec] in He.
    + injection He as <-. destruct Hs as [Hwf [s0 Hu]]. split; [by apply wf_Snapshot|].
      destruct (undo_same _ (Snapshot s).2 s s0 (same_obs_set_revisions _ _ _) Hu) as (s2 & Hs2 & _). by exists s2.
    + destruct (sound_revert revid s Hs (revert_valid _ _ _ He)) as (u & Hu & Hsu). congruence.
Qed.

Lemma exec_all_sound ops s s' : sound s -> exec_all ops s = Some s' -> sound s'.
Proof.
  revert s. induction ops as [|op ops IH]; intros s Hs; cbn [exec_all]; [by intros [= <-]|].
  destruct (exec op s) as [s1|] eqn:E; [|done]. cbn. eauto using exec_sound.
Qed.

Lemma sound_New accounts c : sound (New accounts c).
Proof. split; [apply wf_New|by eexists]. Qed.

(** In a database reached from a new one by any operations, reverting to a
    snapshot succeeds exactly for the ids still listed as valid, and every
    journal entry has an object to act on. *)
Theorem RevertToSnapshot_panics_iff accounts c ops s id :
  exec_all ops (New accounts c) = Some s ->
  is_Some (RevertToSnapshot id s) <-> id ∈ (validRevisions s).*1.
Proof.
  intros Hs%exec_all_sound; [|apply sound_New]. split; [intros [u Hu]; by eapply revert_valid|].
  intros Hid. destruct (sound_revert id s Hs Hid) as (u & Hu & _). by exists u.
Qed.

(** ** Restoring *)
Lemma exec_since id s t op t' :
  since id s t -> match op with OpRevert id' => id < id' | _ => True end -> exec op t = Some t' -> since id s t'.
Proof.
  intros Hs Hid He. destruct (is_change op) eqn:Hc.
  - eapply since_undoable; [done|]. eapply exec_undoable; [done| |done]. apply Hs.
  - destruct op; try discriminate Hc; cbn [exec] in He; [injection He as <-; by apply since_nested|].
    destruct (since_revisions _ _ _ Hs) as [rs Hr]. pose proof (revert_valid _ _ _ He) as Hv.
    pose proof (wf_revisions _ (since_wf _ _ _ Hs)) as Hsort.
    apply list_elem_of_fmap in Hv as ([id' j] & -> & Hin). rewrite Hr in Hin, Hsort.
    apply sorting.StronglySorted_app in Hsort as (Hlt & _ & _).
    apply elem_of_app in Hin as [Hin|[Hin|Hin]%elem_of_cons].
    + specialize (Hlt _ _ Hin (list_elem_of_here _ _)). cbn in *. lia.
    + injection Hin as -> _. cbn in Hid. lia.
    + apply list_elem_of_split in Hin as (rs1 & rs2 & ->).
      destruct (since_revert id s t _ j rs1 rs2 Hs Hr) as (u & Hu & Hsu & _). cbn in He. congruence.
Qed.

Lemma exec_all_since id s ops t t' :
  since id s t -> Forall (fun op => match op with OpRevert id' => id < id' | _ => True end) ops ->
  exec_all ops t = Some t' -> since id s t'.
Proof.
  intros Hs Hops. revert t Hs. induction Hops as [|op ops Hop _ IH]; intros t Hs; cbn [exec_all]; [by intros [= <-]|].
  destruct (exec op t) as [t1|] eqn:E; [|done]. cbn. eauto using exec_since.
Qed.

(** C12: take a snapshot, then run any operations, nested snapshots and reverts to
    them included, but none that reverts to this snapshot or an older one:
    reverting to the snapshot succeeds, every value that can be read is what it
    was, and so are the journal and the older snapshots. *)
Theorem RevertToSnapshot_restores accounts c before after s t :
  exec_all before (New accounts c) = Some s ->
  exec_all after (Snapshot s).2 = Some t ->
  Forall (fun op => match op with OpRevert id => (Snapshot s).1 < id | _ => True end) after ->
  exists u, RevertToSnapshot (Snapshot s).1 t = Some u /\
    (forall a k, reads u a k = reads s a k) /\
    (forall h, default [] (logs u !! h) = default [] (logs s !! h)) /\ preimages u = preimages s /\
    entries u = entries s /\ validRevisions u = validRevisions s.
Proof.
  intros Hs%exec_all_sound Ht Hops; [|apply sound_New].
  pose proof (exec_all_since _ s after _ t (since_Snapshot s (proj1 Hs)) Hops Ht) as Hsince.
  destruct (RevertToSnapshot_since _ _ _ Hsince) as (u & Hu & Ho & _ & He & Hr & _).
  exists u. split; [done|]. split; [intros; by apply same_obs_reads|].
  split; [apply (obs_logs _ _ Ho)|]. split; [apply (obs_preimages _ _ Ho)|done].
Qed.
End Operations.
Arguments Op Hash : clear implicits.

(** A concrete hash to evaluate the model with: the bytes themselves. *)
Definition bytes_hash : HashFn bytes := {|
  EmptyHash := [];
  HashBig h := fold_left (fun n b => 256 * n + b) h 0 mod 2 ^ 256;
  Keccak256 c := 1 :: c |}.

#[local] Existing Instance bytes_hash.

Definition example_before : list (Op bytes) := [OpAddBalance 1 50; OpSnapshot; OpSetNonce 1 7].
Definition example_after : list (Op bytes) :=
  [OpSuicide 1; OpCreateAccount 1; OpSetState 2 5 6; OpSnapshot; OpSetCode 2 [96; 0]; OpAddRefund 9; OpRevert 2;
   OpSubRefund 0; OpAddLog (mkLog 2 [] [] 0)].

(** The id of the snapshot, and whether the operations after it succeed. *)
Definition example_run : option (Z * bool) :=
  s ← exec_all example_before (New ∅ ∅);
  Some ((Snapshot s).1, match exec_all example_after (Snapshot s).2 with Some _ => true | None => false end).

Lemma example_run_ok : example_run = Some (1, true).
Proof. vm_compute. reflexivity. Qed.

Lemma RevertToSnapshot_panics_iff_witness :
  match exec_all example_before (New ∅ ∅) with
  | Some s => is_Some (RevertToSnapshot 0 s) <-> 0 ∈ (validRevisions s).*1
  | None => False
  end.
Proof.
  pose proof example_run_ok as Hr. unfold example_run in Hr.
  destruct (exec_all example_before (New ∅ ∅)) as [s|] eqn:E; [|discriminate Hr].
  exact (RevertToSnapshot_panics_iff ∅ ∅ example_before s 0 E).
Defined.

Lemma RevertToSnapshot_restores_witness :
  match exec_all example_before (New ∅ ∅) with
  | Some s =>
      match exec_all example_after (Snapshot s).2 with
      | Some t => exists u, RevertToSnapshot 1 t = Some u /\ reads u 1 0 = reads s 1 0
      | None => False
      end
  | None => False
  end.
Proof.
  pose proof example_run_ok as Hr. unfold example_run in Hr.
  destruct (exec_all example_before (New ∅ ∅)) as [s|] eqn:E; [|discriminate Hr]. cbn [mbind option_bind] in Hr.
  assert ((Snapshot s).1 = 1) as Hid by congruence.
  destruct (exec_all example_after (Snapshot s).2) as [t|] eqn:Et; [|discriminate Hr].
  destruct (RevertToSnapshot_restores ∅ ∅ example_before example_after s t E Et) as (u & Hu & Hrs & _).
  - rewrite Hid. unfold example_after. repeat (constructor; [cbn; lia|]). constructor.
  - exists u. rewrite Hid in Hu. split; [exact Hu|apply Hrs].
Defined.
