(* ===== verification/EvmStateDB.v ===== *)
(** The virtual machine on the state database of core/state: the laws the
    machine relies on hold of it, and what follows for calls. *)

From stdpp Require Import gmap.
From S2P Require Import Prelude GoMath Params EvmCode EvmMemory EvmState EvmInstr EvmGas EvmInterp EvmTermination EvmWorldRel EvmRevert EvmStatic StateObject StateDBModel StateDBCorrect StateDBSnapshot StateDBOps.

Section Laws.
Context {Hash : Type} `{HashFn Hash}.
Implicit Types s t u : State Hash.

#[export] Program Instance State_SnapshotLaws : SnapshotLaws Hash (State Hash) := {
  valid := wf_state;
  same_state := same_obs;
  changed := undoable;
  EvmRevert.since := StateDBSnapshot.since }.
Next Obligation. reflexivity. Qed.
Next Obligation. intros a d []. by apply CreateAccount_undoable. Qed.
Next Obligation. intros a x d []. by apply SubBalance_undoable. Qed.
Next Obligation. intros a x d []. by apply AddBalance_undoable. Qed.
Next Obligation. intros a x d []. by apply SetNonce_undoable. Qed.
Next Obligation. intros a c d []. by apply SetCode_undoable. Qed.
Next Obligation. intros a k v d []. by apply SetState_undoable. Qed.
Next Obligation. intros a d []. by apply Suicide_undoable. Qed.
Next Obligation. intros x d []. by apply AddRefund_undoable. Qed.
Next Obligation. intros x d d' [] E. by eapply (SubRefund_undoable x); [|exact E]. Qed.
Next Obligation. intros l d []. by apply AddLog_undoable. Qed.
Next Obligation. intros h p d []. by apply AddPreimage_undoable. Qed.
Next Obligation. intros d d' Hd Hc. by eapply wf_undoable. Qed.
Next Obligation. intros id d0 d d' Hs Hc. by eapply since_undoable. Qed.
Next Obligation. intros id d0 d Hs. by eapply since_wf. Qed.
Next Obligation. intros d Hd. by apply since_Snapshot. Qed.
Next Obligation. intros id d0 d Hs. by apply since_nested. Qed.
Next Obligation.
  intros id d0 d Hs. destruct (RevertToSnapshot_since _ _ _ Hs) as (u & Hu & Ho & Hw & He & Hr & _).
  exists u. split; [done|]. do 2 (split; [done|]). intros id1 d1 Hs1. by eapply since_same.
Qed.

(** * Values *)
Definition object_values (cs : gmap Hash bytes) (x : option (stateObject Hash)) (k : Z) :=
  match x with
  | Some o => (Balance (data o), Nonce (data o), default [] (objCode cs o), objState o k, objCommittedState o k, suicided o)
  | None => (0, 0, [], 0, 0, false)
  end.

(** Balance, nonce, code, storage, storage at the start of the transaction and
    self-destruction of every account; refund and logs. *)
Record same_val s t : Prop := {
  val_object a k : object_values (codes s) (lookupObject s a) k = object_values (codes t) (lookupObject t a) k;
  val_refund : refund s = refund t;
  val_logs h : default [] (logs s !! h) = default [] (logs t !! h) }.

#[export] Instance same_val_equiv : Equivalence same_val.
Proof.
  split; [by intros s; split|by intros s t []; split|].
  intros s t u [] []; split; intros; etrans; eauto.
Qed.

Lemma same_obs_val s t : same_obs s t -> same_val s t.
Proof.
  intros Hst. split; [|apply Hst..]. intros a k. rewrite <-(obs_codes _ _ Hst).
  destruct (obs_object _ _ Hst a) as [o o' Ho|]; [|done]. cbn. destruct Ho as [_ Hd Hco Hst' Hcm Hsu _].
  by rewrite Hd, Hco, Hst', Hcm, Hsu.
Qed.

(** A change that leaves what the objects hold. *)
Lemma same_val_objects s t :
  (forall a k, object_values (codes s) (lookupObject s a) k = object_values (codes s) (lookupObject t a) k) ->
  codes t = codes s -> refund t = refund s -> logs t = logs s -> same_val s t.
Proof. intros Ho Hc Hr Hl. split; intros; rewrite ?Hc, ?Hr, ?Hl; auto. Qed.

Lemma same_val_rest s t :
  stateObjects t = stateObjects s -> trie t = trie s -> codes t = codes s -> refund t = refund s ->
  logs t = logs s -> same_val s t.
Proof. intros Ho Ht. intros. apply same_val_objects; try done. intros a k. by rewrite !lookupObject_eq, Ho, Ht. Qed.

Lemma same_val_append e s : same_val s (append e s).
Proof.
  apply same_val_objects; [intros; by rewrite lookup_append|..];
    destruct (append_fields e s) as (_ & _ & d & ->); done.
Qed.

Lemma values_new a cs k :
  object_values cs (Some (setNonce 0 (newObject a emptyAccount))) k = object_values cs None k.
Proof. cbn. unfold objCode. cbn. rewrite bool_decide_true by done. done. Qed.

Lemma createObject_val a s o prev s' :
  lookupObject s a = None -> createObject a s = (o, prev, s') -> same_val s s'.
Proof.
  intros Hl. unfold createObject. destruct (getStateObject a s) as [p s1] eqn:E.
  destruct (getStateObject_spec _ _ _ _ E) as (-> & Hs1 & _). rewrite Hl. intros [= <- <- <-].
  transitivity (append (createObjectChange a) s1).
  { etrans; [symmetry; apply same_obs_val; exact Hs1|apply same_val_append]. }
  apply same_val_objects; try done. intros b k. rewrite lookup_setStateObject. cbn [address setNonce set_data newObject].
  case_if; [|done]. subst. rewrite lookup_append. cbn [deleted setNonce set_data newObject]. rewrite values_new.
  pose proof (obs_object _ _ Hs1 a) as Ho. rewrite Hl in Ho. by inversion Ho.
Qed.

Lemma CreateAccount_val a s : Exist s a = false -> same_val s (CreateAccount a s).
Proof.
  unfold Exist. intros Hl%bool_decide_eq_false. apply eq_None_not_Some in Hl. unfold CreateAccount.
  destruct (createObject a s) as [[n prev] s'] eqn:E. pose proof (createObject_val _ _ _ _ _ Hl E) as Hv.
  unfold createObject in E. destruct (getStateObject a s) as [p s1] eqn:Eg.
  destruct (getStateObject_spec _ _ _ _ Eg) as (-> & _). rewrite Hl in E. by injection E as _ <- _.
Qed.

Lemma GetOrNew_val a s o s' : GetOrNewStateObject a s = (o, s') -> same_val s s'.
Proof.
  unfold GetOrNewStateObject. destruct (getStateObject a s) as [p s1] eqn:E.
  destruct (getStateObject_spec _ _ _ _ E) as (Hp & Hs1 & _).
  assert (same_val s s1) as Hv by (symmetry; by apply same_obs_val).
  assert (lookupObject s a = None -> lookupObject s1 a = None) as Hn.
  { intros Hl. pose proof (obs_object _ _ Hs1 a) as Ho. rewrite Hl in Ho. by inversion Ho. }
  destruct p as [p|].
  - symmetry in Hp. rewrite lookupObject_eq in Hp. assert (deleted p = false) as ->; [|by intros [= <- <-]].
    destruct (stateObjects s !! a) as [q|]; [by destruct (deleted q) eqn:?; simplify_eq|].
    destruct (trie s !! a); by simplify_eq/=.
  - destruct (createObject a s1) as [[n q] s2] eqn:Ec. intros [= <- <-].
    etrans; [exact Hv|]. eapply createObject_val; [|exact Ec]. auto.
Qed.

Lemma AddBalance_val a s : same_val s (AddBalance a 0 s).
Proof.
  unfold AddBalance. destruct (GetOrNewStateObject a s) as [o s'] eqn:E. etrans; [by eapply GetOrNew_val|].
  unfold objAddBalance. cbn [Z.eqb]. case_if; [|reflexivity]. unfold touch. case_if; [|apply same_val_append].
  etrans; [apply same_val_append|]. by apply same_val_rest.
Qed.

Lemma SubBalance_val a s : same_val s (SubBalance a 0 s).
Proof. unfold SubBalance. destruct (GetOrNewStateObject a s) as [o s'] eqn:E. by eapply GetOrNew_val. Qed.

#[export] Program Instance State_ValueLaws : ValueLaws Hash (State Hash) := { same_values := same_val }.
Next Obligation. intros a d _. apply CreateAccount_val. Qed.
Next Obligation. intros a d _. apply AddBalance_val. Qed.
Next Obligation. intros a d _. apply SubBalance_val. Qed.
Next Obligation.
  intros h p d _. cbn. unfold AddPreimage. destruct (preimages d !! h); [reflexivity|].
  etrans; [apply same_val_append|]. by apply same_val_rest.
Qed.
Next Obligation. intros d. by apply same_val_rest. Qed.
Next Obligation. intros d d'. apply same_obs_val. Qed.
End Laws.

(** * Calls *)
Section Calls.
Context {Hash : Type} `{HashFn Hash}.
Variable evm : EVM.
Variables PrecompiledContractsHomestead PrecompiledContractsByzantium : Precompiles.
Variables (fuel : nat) (depth : Z) (readOnly : bool) (caller : ContractRef Hash) (w : World Hash (State Hash)).
Abbreviation evm_call f :=
  (f evm PrecompiledContractsHomestead PrecompiledContractsByzantium
     (Run evm PrecompiledContractsHomestead PrecompiledContractsByzantium fuel) depth readOnly caller).

(** C5: when a message call of any of the four kinds returns an error, every
    value that can be read from the database is what it was before the call,
    whatever the code it ran and the calls made by that code did. *)
Theorem failed_call_restores addr input gas value r res g err :
  wf_state (db w) ->
  r ∈ [evm_call Call addr input gas value w; evm_call CallCode addr input gas value w;
       evm_call DelegateCall addr input gas w; evm_call StaticCall addr input gas w] ->
  r.1 = Ret (res, g, Some err) ->
  wf_state (db r.2) /\ (forall a k, reads (db r.2) a k = reads (db w) a k) /\
  (forall h, default [] (logs (db r.2) !! h) = default [] (logs (db w) !! h)).
Proof.
  intros Hwf Hin Hr.
  assert (call_ok (db w) r) as [Hf Hs].
  { pose proof (Run_follows evm PrecompiledContractsHomestead PrecompiledContractsByzantium fuel) as HR.
    rewrite !elem_of_cons, elem_of_nil in Hin. destruct Hin as [->|[->|[->|[->|[]]]]];
      [by apply Call_ok|by apply CallCode_ok|by apply DelegateCall_ok|by apply StaticCall_ok]. }
  pose proof (Hs _ _ _ Hwf Hr) as Hsame. split; [by apply Hf|].
  split; [intros; by apply same_obs_reads|apply (obs_logs _ _ Hsame)].
Qed.

(** C15: when the creation of a contract returns an error, every value that can
    be read is what it was before, but for the nonce of the creator, counted up
    once the checks of depth and balance are passed.  Before Homestead, code that
    cannot be paid for is the exception. *)
Theorem failed_create_restores code hash gas value address res addr g err :
  wf_state (db w) ->
  (evm_call create code hash gas value address w).1 = Ret (res, addr, g, Some err) ->
  ~ (err = ErrCodeStoreOutOfGas /\ IsHomestead (chainConfig evm) (evmBlock evm) = false) ->
  forall a k, reads (db (evm_call create code hash gas value address w).2) a k =
              reads (create_start depth caller value w) a k.
Proof.
  intros Hwf Hr He a k. destruct (evm_call create code hash gas value address w) as [o w'] eqn:E. cbn in Hr. subst o.
  apply same_obs_reads.
  exact (failed_create_reverts evm PrecompiledContractsHomestead PrecompiledContractsByzantium fuel depth readOnly
    caller w code hash gas value address err res addr g w' Hwf E He).
Qed.

(** C13: from Byzantium on a static call, successful or not, leaves the balance,
    nonce, code and storage of every account, its self-destruction, the refund
    and the logs as they were. *)
Theorem static_call_reads_only addr input gas :
  wf_state (db w) -> rByzantium (chainRules evm) = true ->
  let d := db (evm_call StaticCall addr input gas w).2 in
  (forall a k, GetBalance d a = GetBalance (db w) a /\ GetNonce d a = GetNonce (db w) a /\
     GetCode d a = GetCode (db w) a /\ GetState d a k = GetState (db w) a k /\
     HasSuicided d a = HasSuicided (db w) a) /\
  refund d = refund (db w) /\ (forall h, default [] (logs d !! h) = default [] (logs (db w) !! h)).
Proof.
  intros Hwf Hb d.
  pose proof (StaticCall_keeps_values evm PrecompiledContractsHomestead PrecompiledContractsByzantium Hb fuel depth
    readOnly caller addr input gas w Hwf) as Hv. fold d in Hv. split; [|by destruct Hv].
  intros a k. pose proof (val_object _ _ Hv a k) as Ho.
  unfold GetBalance, GetNonce, GetCode, GetState, HasSuicided.
  destruct (lookupObject d a), (lookupObject (db w) a); cbn in Ho; simplify_eq; repeat split; congruence.
Qed.
End Calls.
