(* ===== verification/StateDBLedger.v ===== *)
(** The state database as a ledger: the supply of ether is the sum of the
    balances, and no operation of the virtual machine adds to it.  This gives the
    laws that EvmTyped asks of the database. *)

From stdpp Require Import gmap.
From S2P Require Import Prelude GoMath Params EvmCode EvmMemory EvmState EvmInterp EvmRevert EvmTyped StateObject StateDBModel StateDBCorrect StateDBSnapshot StateDBOps EvmStateDB.

(** * Sums over finite sets *)
Section Sum.
Implicit Types (f g : Z -> Z) (X Y : gset Z).

Definition set_sum (f : Z -> Z) (X : gset Z) : Z := foldr (fun a n => f a + n) 0 (elements X).

Lemma sum_permutation f l l' : l ≡ₚ l' -> foldr (fun a n => f a + n) 0 l = foldr (fun a n => f a + n) 0 l'.
Proof. induction 1; cbn; lia. Qed.

Lemma set_sum_insert f a X : a ∉ X -> set_sum f ({[a]} ∪ X) = f a + set_sum f X.
Proof. intros Ha. unfold set_sum. by rewrite (sum_permutation f _ _ (elements_union_singleton X a Ha)). Qed.

Lemma set_sum_split f a X : a ∈ X -> set_sum f X = f a + set_sum f (X ∖ {[a]}).
Proof.
  intros Ha. rewrite <-(set_sum_insert f a) by set_solver. f_equal. apply set_eq. intros x.
  destruct (decide (x = a)); set_solver.
Qed.

Lemma set_sum_ext f g X : (forall a, a ∈ X -> f a = g a) -> set_sum f X = set_sum g X.
Proof.
  intros Hfg. unfold set_sum. assert (forall a, a ∈ elements X -> f a = g a) as Hl by (intros; apply Hfg, elem_of_elements; done).
  induction (elements X) as [|a l IH]; [done|]. cbn. rewrite Hl by apply list_elem_of_here. f_equal. apply IH.
  intros b Hb. apply Hl, elem_of_cons. by right.
Qed.

Lemma set_sum_superset f X Y : X ⊆ Y -> (forall a, a ∈ Y -> a ∉ X -> f a = 0) -> set_sum f Y = set_sum f X.
Proof.
  revert X. induction Y as [|a Y Ha IH] using set_ind_L; intros X Hsub Hf.
  { by replace X with (∅ : gset Z) by set_solver. }
  rewrite set_sum_insert by done. destruct (decide (a ∈ X)) as [Hin|Hout].
  - rewrite (set_sum_split f a X Hin). f_equal. apply IH; [set_solver|].
    intros b Hb Hn. apply Hf; [set_solver|]. intros Hx. apply Hn. assert (b <> a) by congruence. set_solver.
  - rewrite (Hf a) by set_solver. rewrite (IH X); [lia|set_solver|]. intros b Hb Hn. apply Hf; set_solver.
Qed.

Lemma set_sum_nonneg f X : (forall a, 0 <= f a) -> 0 <= set_sum f X.
Proof. intros Hf. unfold set_sum. induction (elements X) as [|a l IH]; cbn; [lia|]. specialize (Hf a). lia. Qed.
End Sum.

Section Ledger.
Context {Hash : Type} `{HashFn Hash}.
Implicit Types s t u : State Hash.
Implicit Types o : stateObject Hash.

(** * The supply *)
Definition accounts s : gset Z := dom (stateObjects s) ∪ dom (trie s).

Definition total_supply s : Z := set_sum (GetBalance s) (accounts s).

Lemma GetBalance_outside s a : a ∉ accounts s -> GetBalance s a = 0.
Proof.
  unfold accounts. intros Ha. assert (stateObjects s !! a = None /\ trie s !! a = None) as [Ho Ht].
  { split; apply not_elem_of_dom; set_solver. }
  unfold GetBalance. by rewrite lookupObject_eq, Ho, Ht.
Qed.

Lemma total_supply_over s X : accounts s ⊆ X -> total_supply s = set_sum (GetBalance s) X.
Proof. intros HX. symmetry. apply set_sum_superset; [done|]. intros a _. apply GetBalance_outside. Qed.

(** A change of one balance. *)
Lemma total_supply_change a s t :
  (forall b, b <> a -> GetBalance t b = GetBalance s b) ->
  total_supply t = total_supply s - GetBalance s a + GetBalance t a.
Proof.
  intros Hb. set (X := {[a]} ∪ accounts s ∪ accounts t).
  rewrite (total_supply_over s X), (total_supply_over t X) by set_solver.
  rewrite (set_sum_split _ a X), (set_sum_split (GetBalance s) a X) by set_solver.
  rewrite (set_sum_ext (GetBalance t) (GetBalance s)); [lia|]. intros b Hin. apply Hb. set_solver.
Qed.

Lemma total_supply_ext s t : (forall a, GetBalance t a = GetBalance s a) -> total_supply t = total_supply s.
Proof. intros Hb. rewrite (total_supply_change 0 s t) by auto. rewrite Hb. lia. Qed.

Lemma balance_le_supply s a : (forall b, 0 <= GetBalance s b) -> GetBalance s a <= total_supply s.
Proof.
  intros Hn. rewrite (total_supply_over s ({[a]} ∪ accounts s)) by set_solver.
  rewrite (set_sum_split _ a) by set_solver. pose proof (set_sum_nonneg _ (({[a]} ∪ accounts s) ∖ {[a]}) Hn). lia.
Qed.

(** * What the machine reads of an account *)
Record view := mkView { v_balance : Z; v_state : Z; v_committed : Z; v_code : bytes; v_hash : Hash }.

Definition object_view (cs : gmap Hash bytes) (x : option (stateObject Hash)) (k : Z) : view :=
  match x with
  | Some o => mkView (Balance (data o)) (objState o k) (objCommittedState o k) (default [] (objCode cs o)) (ACodeHash (data o))
  | None => mkView 0 0 0 [] EmptyHash
  end.

Definition view_ok (v : view) : Prop :=
  0 <= v_balance v /\ (is_word (v_state v) /\ is_word (v_committed v)) /\ small_bytes (v_code v) /\
  (v_code v = [] \/ v_hash v = Keccak256 (v_code v)).

Definition account_view s (a k : Z) : view := object_view (codes s) (lookupObject s a) k.

Lemma view_reads s a k :
  account_view s a k = mkView (GetBalance s a) (GetState s a k) (GetCommittedState s a k) (GetCode s a) (GetCodeHash s a).
Proof. unfold account_view, GetBalance, GetState, GetCommittedState, GetCode, GetCodeHash. by destruct (lookupObject s a). Qed.

Lemma view_same_obs s t a k : same_obs s t -> account_view s a k = account_view t a k.
Proof.
  intros Hst. unfold account_view. rewrite <-(obs_codes _ _ Hst).
  destruct (obs_object _ _ Hst a) as [o o' [? Hd Hc Hs Hk ? ?]|]; [|done]. cbn. by rewrite Hd, Hc, Hs, Hk.
Qed.

Lemma view_balance s t a : (forall k, account_view t a k = account_view s a k) -> GetBalance t a = GetBalance s a.
Proof. intros Hv. specialize (Hv 0). rewrite !view_reads in Hv. by injection Hv. Qed.

(** All accounts but [a] are as before. *)
Definition changes_at (a : Z) s t : Prop := forall b k, b <> a -> account_view t b k = account_view s b k.

Definition sound_state s : Prop := wf_state s /\ is_u64 (refund s).

Record state_ok s : Prop := {
  ok_sound : sound_state s;
  ok_view a k : view_ok (account_view s a k) }.

Record state_typed s : Prop := {
  typed_ok : state_ok s;
  typed_supply : total_supply s < 2 ^ 256 }.

(** One account changes. *)
Lemma state_ok_change a s t :
  state_ok s -> sound_state t -> changes_at a s t -> (forall k, view_ok (account_view t a k)) ->
  state_ok t /\ total_supply t = total_supply s - GetBalance s a + GetBalance t a.
Proof.
  intros [_ Hv] Hwf Hc Ha. split.
  - split; [done|]. intros b k. destruct (decide (b = a)) as [->|Hne]; [done|]. by rewrite Hc.
  - apply total_supply_change. intros b Hne. apply view_balance. intros k. by apply Hc.
Qed.

Lemma GetBalance_nonneg s a : state_ok s -> 0 <= GetBalance s a.
Proof. intros Hs. destruct (ok_view _ Hs a 0) as [Hb _]. by rewrite view_reads in Hb. Qed.

(** * Operations *)
Lemma sound_undoable s t : sound_state s -> undoable s t -> refund t = refund s -> sound_state t.
Proof. intros [Hwf Hr] Hu E. split; [by eapply wf_undoable|by rewrite E]. Qed.

Lemma refund_append e s : refund (append e s) = refund s.
Proof. by destruct (append_fields e s) as (_ & _ & d & ->). Qed.

Lemma createObject_refund a s o prev s1 : createObject a s = (o, prev, s1) -> refund s1 = refund s.
Proof.
  unfold createObject. destruct (getStateObject a s) as [p s2] eqn:E.
  destruct (getStateObject_spec _ _ _ _ E) as (_ & Hs & _). intros [= <- <- <-]. cbn [refund setStateObject set_objects].
  destruct p; rewrite refund_append; apply Hs.
Qed.

Lemma GetOrNew_refund a s o s1 : GetOrNewStateObject a s = (o, s1) -> refund s1 = refund s.
Proof.
  unfold GetOrNewStateObject. destruct (getStateObject a s) as [p s2] eqn:E.
  destruct (getStateObject_spec _ _ _ _ E) as (_ & Hs & _). rewrite <-(obs_refund _ _ Hs).
  destruct p as [p|]; [destruct (deleted p); [|by intros [= <- <-]]|];
    destruct (createObject a s2) as [[n q] s3] eqn:Ec; intros [= <- <-]; by eapply createObject_refund.
Qed.

Lemma codes_append e s : codes (append e s) = codes s.
Proof. by destruct (append_fields e s) as (_ & _ & d & ->). Qed.

Lemma view_append e s a k : account_view (append e s) a k = account_view s a k.
Proof. unfold account_view. by rewrite lookup_append, codes_append. Qed.

Lemma view_set o s a k :
  deleted o = false ->
  account_view (setStateObject o s) a k = if a =? address o then object_view (codes s) (Some o) k else account_view s a k.
Proof. intros Hd. unfold account_view. rewrite lookup_setStateObject, Hd. by case_if. Qed.

(** A new object in place of what is at [a]. *)
Lemma createObject_view a s o prev s1 :
  createObject a s = (o, prev, s1) ->
  changes_at a s s1 /\ codes s1 = codes s /\ o = setNonce 0 (newObject a emptyAccount) /\ prev = lookupObject s a /\
  (forall k, account_view s1 a k = mkView 0 0 0 [] emptyCodeHash).
Proof.
  unfold createObject. destruct (getStateObject a s) as [p s2] eqn:E.
  destruct (getStateObject_spec _ _ _ _ E) as (-> & Hs & _). intros [= <- <- <-].
  assert (forall e b k, account_view (append e s2) b k = account_view s b k) as Hv.
  { intros e b k. rewrite view_append. by apply view_same_obs. }
  assert (forall e, codes (append e s2) = codes s) as Hc by (intros e; rewrite codes_append; apply Hs).
  split; [|split; [|split; [done|split; [done|]]]].
  - intros b k Hne. rewrite view_set by done. cbn [address setNonce set_data newObject].
    destruct (Z.eqb_spec b a); [done|]. by destruct (lookupObject s a).
  - cbn [codes setStateObject set_objects]. by destruct (lookupObject s a).
  - intros k. rewrite view_set by done. cbn [address setNonce set_data newObject]. rewrite Z.eqb_refl.
    cbn. unfold objCode. cbn. by rewrite bool_decide_true.
Qed.

(** [GetOrNewStateObject] keeps what is read of the account, but for the hash of
    the empty code of a new one. *)
Lemma GetOrNew_view a s o s1 :
  wf_objs s -> GetOrNewStateObject a s = (o, s1) ->
  changes_at a s s1 /\ codes s1 = codes s /\ address o = a /\ deleted o = false /\ Balance (data o) = GetBalance s a /\
  (forall k, account_view s1 a k = object_view (codes s) (Some o) k) /\
  (forall k, view_ok (account_view s a k) -> view_ok (object_view (codes s) (Some o) k)).
Proof.
  intros Hwf E. destruct (GetOrNew_undoable _ _ _ _ Hwf E) as (_ & Ha & Hd & Hl). rewrite Ha in Hl.
  unfold GetOrNewStateObject in E. destruct (getStateObject a s) as [p s2] eqn:Eg.
  destruct (getStateObject_spec _ _ _ _ Eg) as (Hp & Hs & _ & _ & _ & Hw & Ho).
  assert (changes_at a s s2) as Hch by (intros b k _; by apply view_same_obs).
  destruct p as [p|].
  - destruct (Ho Hwf p eq_refl) as (Hpa & Hpd & Hpl). rewrite Hpd in E. injection E as <- <-.
    split; [done|]. split; [apply Hs|]. do 2 (split; [done|]). unfold GetBalance. rewrite <-Hp. split; [done|].
    unfold account_view. rewrite Hl, <-Hp, (obs_codes _ _ Hs). done.
  - destruct (createObject a s2) as [[n q] s3] eqn:Ec. injection E as <- <-.
    destruct (createObject_view _ _ _ _ _ Ec) as (Hc & Hcc & -> & _ & Hv).
    split; [intros b k Hne; rewrite Hc by done; by apply Hch|]. rewrite Hcc, (obs_codes _ _ Hs). split; [done|].
    do 2 (split; [done|]). unfold GetBalance. rewrite <-Hp. split; [done|].
    assert (forall k, object_view (codes s) (Some (setNonce 0 (newObject a emptyAccount))) k = mkView 0 0 0 [] emptyCodeHash) as Hov.
    { intros k. cbn. unfold objCode. cbn. by rewrite bool_decide_true. }
    split; intros k; rewrite Hov; [apply Hv|]. intros _. cbn. split; [done|]. split; [split; by_decide|]. split; [by split; [constructor|by_compute]|by left].
Qed.

(** An operation that replaces the object of [a] by [o'], with [view_ok]. *)
Lemma object_change a s o s1 o' e :
  wf_objs s -> GetOrNewStateObject a s = (o, s1) -> address o' = a -> deleted o' = false ->
  changes_at a s (setStateObject o' (append e s1)) /\
  (forall k, account_view (setStateObject o' (append e s1)) a k = object_view (codes s) (Some o') k).
Proof.
  intros Hwf E Ha Hd. destruct (GetOrNew_view _ _ _ _ Hwf E) as (Hc & Hco & _).
  split; [intros b k Hne|intros k]; rewrite view_set, Ha by done.
  - destruct (Z.eqb_spec b a); [done|]. rewrite view_append. by apply Hc.
  - by rewrite Z.eqb_refl, codes_append, Hco.
Qed.

(** [t] is a good state in which the balance of [a] is [x], and the others are as
    in [s]. *)
Definition updates (a x : Z) s t : Prop :=
  state_ok t /\ GetBalance t a = x /\ forall b, b <> a -> GetBalance t b = GetBalance s b.

Lemma updates_supply a x s t : updates a x s t -> total_supply t = total_supply s - GetBalance s a + x.
Proof. intros (_ & <- & Hb). by apply total_supply_change. Qed.

Lemma updates_view a x s t :
  state_ok s -> sound_state t -> changes_at a s t -> (forall k, view_ok (account_view t a k)) -> GetBalance t a = x ->
  updates a x s t.
Proof.
  intros Hs Hwf Hc Hv Hx. destruct (state_ok_change a s t Hs Hwf Hc Hv) as [Ht _]. split; [done|]. split; [done|].
  intros b Hne. apply view_balance. intros k. by apply Hc.
Qed.

(** An operation on an object that the undo log knows of. *)
Lemma object_updates a s o s1 o' e :
  state_ok s -> GetOrNewStateObject a s = (o, s1) -> address o' = a -> deleted o' = false ->
  undoable s (setStateObject o' (append e s1)) ->
  (forall k, view_ok (object_view (codes s) (Some o) k) -> view_ok (object_view (codes s) (Some o') k)) ->
  updates a (Balance (data o')) s (setStateObject o' (append e s1)).
Proof.
  intros Hs E Ha Hd Hu Hv. pose proof (wf_objects _ (proj1 (ok_sound _ Hs))) as Hwf.
  destruct (object_change a s o s1 o' e Hwf E Ha Hd) as [Hc Hk].
  destruct (GetOrNew_view _ _ _ _ Hwf E) as (_ & _ & _ & _ & _ & _ & Hok).
  apply updates_view; [done|eapply sound_undoable; [apply Hs|done|exact (eq_trans (refund_append e s1) (GetOrNew_refund _ _ _ _ E))]|done|..].
  - intros k. rewrite Hk. apply Hv, Hok, Hs.
  - specialize (Hk 0). rewrite view_reads in Hk. by injection Hk.
Qed.

Lemma GetOrNew_updates a s o s1 :
  state_ok s -> GetOrNewStateObject a s = (o, s1) -> updates a (GetBalance s a) s s1.
Proof.
  intros Hs E. pose proof (wf_objects _ (proj1 (ok_sound _ Hs))) as Hwf.
  destruct (GetOrNew_view _ _ _ _ Hwf E) as (Hc & _ & _ & _ & Hb & Hv & Hok).
  destruct (GetOrNew_undoable _ _ _ _ Hwf E) as (Hu & _).
  apply updates_view; [done|eapply sound_undoable; [apply Hs|done|by eapply GetOrNew_refund]|done|..].
  - intros k. rewrite Hv. apply Hok, Hs.
  - specialize (Hv 0). rewrite view_reads in Hv. injection Hv as -> _ _ _. done.
Qed.

Lemma objSetBalance_updates a s o s1 x :
  state_ok s -> GetOrNewStateObject a s = (o, s1) -> 0 <= x -> undoable s (objSetBalance o x s1) ->
  updates a x s (objSetBalance o x s1).
Proof.
  intros Hs E Hx Hu. destruct (GetOrNew_view _ _ _ _ (wf_objects _ (proj1 (ok_sound _ Hs))) E) as (_ & _ & Ha & Hd & _).
  apply (object_updates a s o s1 (setBalance x o)); try done. intros k (_ & Hrest). done.
Qed.

(** A change outside the objects. *)
Lemma updates_rest a s t :
  state_ok s -> sound_state t -> (forall b k, account_view t b k = account_view s b k) -> updates a (GetBalance s a) s t.
Proof.
  intros Hs Hwf Hv. apply updates_view; [done|done|by intros b k _| |by apply view_balance].
  intros k. rewrite Hv. apply Hs.
Qed.

Lemma view_rest s t a k :
  stateObjects t = stateObjects s -> trie t = trie s -> codes t = codes s -> account_view t a k = account_view s a k.
Proof. intros Ho Ht Hc. unfold account_view. by rewrite !lookupObject_eq, Ho, Ht, Hc. Qed.

Lemma view_touch o s a k : account_view (touch o s) a k = account_view s a k.
Proof. unfold touch. rewrite <-(view_append (touchChange (address o)) s). case_if; [by apply view_rest|done]. Qed.

Lemma refund_touch o s : refund (touch o s) = refund s.
Proof. unfold touch. rewrite <-(refund_append (touchChange (address o)) s). by case_if. Qed.

Lemma updates_touch a x s o t : updates a x s t -> sound_state (touch o t) -> updates a x s (touch o t).
Proof.
  intros (Ht & Hx & Hb) Hwf. destruct (updates_rest a t (touch o t) Ht Hwf (view_touch o t)) as (Hk & Hk' & Hk2).
  split; [done|]. split; [congruence|]. intros b Hne. rewrite Hk2 by done. by apply Hb.
Qed.

Lemma AddBalance_updates a x s :
  state_ok s -> 0 <= GetBalance s a + x -> updates a (GetBalance s a + x) s (AddBalance a x s).
Proof.
  intros Hs Hx. pose proof (wf_objects _ (proj1 (ok_sound _ Hs))) as Hwf. pose proof (AddBalance_undoable a x s Hwf) as Hu.
  unfold AddBalance in *. destruct (GetOrNewStateObject a s) as [o s1] eqn:E.
  destruct (GetOrNew_view _ _ _ _ Hwf E) as (_ & _ & _ & _ & Hb & _). unfold objAddBalance in *.
  destruct (Z.eqb_spec x 0) as [->|Hne].
  - rewrite Z.add_0_r. pose proof (GetOrNew_updates _ _ _ _ Hs E). case_if; [|done].
    apply updates_touch; [done|]. eapply sound_undoable; [apply Hs|done|]. rewrite refund_touch. by eapply GetOrNew_refund.
  - rewrite <-Hb in *. by apply objSetBalance_updates.
Qed.

Lemma SubBalance_updates a x s :
  state_ok s -> 0 <= GetBalance s a - x -> updates a (GetBalance s a - x) s (SubBalance a x s).
Proof.
  intros Hs Hx. pose proof (wf_objects _ (proj1 (ok_sound _ Hs))) as Hwf. pose proof (SubBalance_undoable a x s Hwf) as Hu.
  unfold SubBalance in *. destruct (GetOrNewStateObject a s) as [o s1] eqn:E.
  destruct (GetOrNew_view _ _ _ _ Hwf E) as (_ & _ & _ & _ & Hb & _). unfold objSubBalance in *.
  destruct (Z.eqb_spec x 0) as [->|Hne]; [rewrite Z.sub_0_r; by apply (GetOrNew_updates _ _ _ _ Hs E)|].
  rewrite <-Hb in *. by apply objSetBalance_updates.
Qed.

Lemma SetNonce_updates a n s : state_ok s -> updates a (GetBalance s a) s (SetNonce a n s).
Proof.
  intros Hs. pose proof (wf_objects _ (proj1 (ok_sound _ Hs))) as Hwf. pose proof (SetNonce_undoable a n s Hwf) as Hu.
  unfold SetNonce in *. destruct (GetOrNewStateObject a s) as [o s1] eqn:E.
  destruct (GetOrNew_view _ _ _ _ Hwf E) as (_ & _ & Ha & Hd & Hb & _). rewrite <-Hb.
  by apply (object_updates a s o s1 (setNonce n o)).
Qed.

Lemma SetCode_updates a c s : state_ok s -> small_bytes c -> updates a (GetBalance s a) s (SetCode a c s).
Proof.
  intros Hs Hc. pose proof (wf_objects _ (proj1 (ok_sound _ Hs))) as Hwf. pose proof (SetCode_undoable a c s Hwf) as Hu.
  unfold SetCode in *. destruct (GetOrNewStateObject a s) as [o s1] eqn:E.
  destruct (GetOrNew_view _ _ _ _ Hwf E) as (_ & _ & Ha & Hd & Hb & _). rewrite <-Hb.
  apply (object_updates a s o s1 (setCode (Keccak256 c) (Some c) o)); try done.
  intros k (Hbal & Hst & _). do 3 (split; [done|]). by right.
Qed.

Lemma view_ok_same cs o o' k : same_object cs o' o -> view_ok (object_view cs (Some o) k) -> view_ok (object_view cs (Some o') k).
Proof. intros [? Hd Hc Hs Hk ? ?]. cbn. by rewrite Hd, Hc, Hs, Hk. Qed.

Lemma SetState_updates a k v s : state_ok s -> is_word v -> updates a (GetBalance s a) s (SetState a k v s).
Proof.
  intros Hs Hv. pose proof (wf_objects _ (proj1 (ok_sound _ Hs))) as Hwf. pose proof (SetState_undoable a k v s Hwf) as Hu.
  unfold SetState in *. destruct (GetOrNewStateObject a s) as [o s1] eqn:E.
  destruct (GetOrNew_view _ _ _ _ Hwf E) as (Hc & Hco & Ha & Hd & Hb & Hvw & Hok). unfold objSetState in *.
  set (o' := match dirtyStorage o !! k with Some _ => o | None => cacheCommitted k o end) in *.
  assert (same_object (codes s) o' o) as Ho' by (unfold o'; destruct (dirtyStorage o !! k); [reflexivity|apply cacheCommitted_same]).
  pose proof (same_address _ _ _ Ho') as Ha'. pose proof (same_deleted _ _ _ Ho') as Hd'.
  assert (Balance (data o') = GetBalance s a) as Hb' by (rewrite <-Hb; f_equal; apply Ho').
  case_if_in Hu; rewrite <-Hb'.
  - assert (forall b j, account_view (setStateObject o' s1) b j =
      if b =? a then object_view (codes s) (Some o') j else account_view s1 b j) as Hset.
    { intros b j. rewrite view_set by congruence. by rewrite Ha', Ha, Hco. }
    apply updates_view; [done|eapply sound_undoable; [apply Hs|done|by apply (GetOrNew_refund _ _ _ _ E)]|..].
    + intros b j Hne. rewrite Hset. destruct (Z.eqb_spec b a); [done|]. by apply Hc.
    + intros j. rewrite Hset, Z.eqb_refl. eapply view_ok_same; [done|]. apply Hok, Hs.
    + specialize (Hset a 0). rewrite Z.eqb_refl, view_reads in Hset. by injection Hset.
  - apply (object_updates a s o s1 (setState k v o')); try done; [cbn; congruence..|].
    intros j Hj. pose proof (view_ok_same _ _ _ _ Ho' Hj) as (Hbal & [Hst Hcm] & Hrest). split; [done|]. split; [|done].
    split; [|exact Hcm]. cbn. unfold objState. cbn [dirtyStorage setState]. destruct (decide (j = k)) as [->|]; [by rewrite lookup_insert_eq|].
    rewrite lookup_insert_ne by done. exact Hst.
Qed.

Lemma CreateAccount_updates a s : state_ok s -> updates a (GetBalance s a) s (CreateAccount a s).
Proof.
  intros Hs. pose proof (wf_objects _ (proj1 (ok_sound _ Hs))) as Hwf. pose proof (CreateAccount_undoable a s Hwf) as Hu.
  unfold CreateAccount in *. destruct (createObject a s) as [[n prev] s1] eqn:E.
  destruct (createObject_view _ _ _ _ _ E) as (Hc & Hco & -> & -> & Hv).
  assert (forall b, 0 <= b -> view_ok (mkView b 0 0 [] emptyCodeHash)) as Hnew.
  { intros b Hb. split; [done|]. split; [split; by_decide|]. split; [by split; [constructor|by_compute]|by left]. }
  destruct (lookupObject s a) as [p|] eqn:El.
  - set (n := setBalance _ _) in *.
    assert (forall k, object_view (codes s1) (Some n) k = mkView (GetBalance s a) 0 0 [] emptyCodeHash) as Hn.
    { intros k. cbn. unfold objCode, GetBalance. cbn. by rewrite bool_decide_true, El. }
    apply updates_view; [done|eapply sound_undoable; [apply Hs|done|by apply (createObject_refund _ _ _ _ _ E)]|..].
    + intros b k Hne. rewrite view_set by done. cbn [n address setBalance setNonce set_data newObject].
      destruct (Z.eqb_spec b a); [done|]. by apply Hc.
    + intros k. rewrite view_set by done. cbn [n address setBalance setNonce set_data newObject].
      rewrite Z.eqb_refl, Hn. by apply Hnew, GetBalance_nonneg.
    + pose proof (view_set n s1 a 0 eq_refl) as Hs'. cbn [n address setBalance setNonce set_data newObject] in Hs'.
      rewrite Z.eqb_refl, view_reads in Hs'. fold n in Hs'. rewrite Hn in Hs'. by injection Hs'.
  - apply updates_view; [done|eapply sound_undoable; [apply Hs|done|by apply (createObject_refund _ _ _ _ _ E)]|done|..].
    + intros k. rewrite Hv. by apply Hnew.
    + specialize (Hv 0). rewrite view_reads in Hv. injection Hv as -> _ _ _ _. unfold GetBalance. by rewrite El.
Qed.

Lemma Suicide_updates a s : state_ok s -> updates a 0 s (Suicide a s).2.
Proof.
  intros Hs. pose proof (wf_objects _ (proj1 (ok_sound _ Hs))) as Hwf. pose proof (Suicide_undoable a s Hwf) as Hu.
  unfold Suicide in *. destruct (getStateObject a s) as [r s1] eqn:E.
  destruct (getStateObject_spec _ _ _ _ E) as (Hr & Hs1 & _ & _ & _ & _ & Ho).
  assert (forall b k, account_view s1 b k = account_view s b k) as Hv by (intros; by apply view_same_obs).
  destruct r as [o|]; cbn [snd] in *.
  - destruct (Ho Hwf o eq_refl) as (Ha & Hd & Hl). set (e := suicideChange _ _ _) in *. set (o' := setBalance 0 _) in *.
    assert (forall b k, account_view (setStateObject o' (append e s1)) b k =
      if b =? a then object_view (codes s) (Some o') k else account_view s b k) as Hset.
    { intros b k. rewrite view_set by done. change (address o') with (address o). rewrite Ha, codes_append, (obs_codes _ _ Hs1).
      by rewrite view_append, Hv. }
    apply updates_view; [done|eapply sound_undoable; [apply Hs|done|exact (eq_trans (refund_append e s1) (obs_refund _ _ Hs1))]|..].
    + intros b k Hne. rewrite Hset. by destruct (Z.eqb_spec b a).
    + intros k. rewrite Hset, Z.eqb_refl. pose proof (ok_view _ Hs a k) as Hk. unfold account_view in Hk. rewrite <-Hr in Hk.
      by destruct Hk as (_ & Hk).
    + specialize (Hset a 0). rewrite Z.eqb_refl, view_reads in Hset. by injection Hset.
  - replace 0 with (GetBalance s a) by (unfold GetBalance; by rewrite <-Hr).
    apply updates_rest; [done|eapply sound_undoable; [apply Hs|done|apply Hs1]|done].
Qed.

(** A state with no account. *)
Lemma New_state_ok : state_ok (New ∅ ∅).
Proof.
  split; [split; [apply wf_New|by_decide]|]. intros a k. unfold account_view. rewrite lookupObject_eq. cbn. rewrite !lookup_empty. cbn.
  split; [done|]. split; [split; by_decide|]. split; [by split; [constructor|by_compute]|by left].
Qed.

(** * The laws *)
#[export] Instance State_Ledger : Ledger (State Hash) := { typed := state_typed; EvmTyped.supply := total_supply }.

Lemma updates_ledger a x s t : state_typed s -> updates a x s t -> x <= GetBalance s a -> ledger_step s t.
Proof.
  intros [Hs Hb] Hu Hx. pose proof (updates_supply _ _ _ _ Hu) as Hsup. destruct Hu as [Ht _].
  split; [split; [done|lia]|cbn; lia].
Qed.

Lemma rest_ledger s t :
  state_typed s -> sound_state t -> (forall b k, account_view t b k = account_view s b k) -> ledger_step s t.
Proof. intros Ht Hwf Hv. eapply (updates_ledger 0); [done|by apply updates_rest; [apply Ht|..]|lia]. Qed.

Lemma Transfer_ledger a b x s : state_typed s -> 0 <= x <= GetBalance s a -> ledger_step s (Transfer (Hash := Hash) a b x s).
Proof.
  intros [Hs Hb] Hx. unfold Transfer. cbn [EvmState.SubBalance EvmState.AddBalance State_StateDB].
  pose proof (SubBalance_updates a x s Hs ltac:(lia)) as Hu1. pose proof (updates_supply _ _ _ _ Hu1) as Hs1.
  destruct Hu1 as [Hok1 _]. pose proof (GetBalance_nonneg _ b Hok1) as Hn.
  pose proof (AddBalance_updates b x _ Hok1 ltac:(lia)) as Hu2. pose proof (updates_supply _ _ _ _ Hu2) as Hs2.
  destruct Hu2 as [Hok2 _]. split; [split; [done|lia]|cbn; lia].
Qed.

Lemma Suicide_ledger a b s :
  state_typed s -> ledger_step s (Suicide a (AddBalance b (GetBalance s a) s)).2.
Proof.
  intros [Hs Hsup]. pose proof (GetBalance_nonneg _ a Hs) as Ha. pose proof (GetBalance_nonneg _ b Hs) as Hb.
  pose proof (AddBalance_updates b (GetBalance s a) s Hs ltac:(lia)) as Hu1. pose proof (updates_supply _ _ _ _ Hu1) as Hs1.
  destruct Hu1 as (Hok1 & Hb1 & Hother).
  pose proof (Suicide_updates a _ Hok1) as Hu2. pose proof (updates_supply _ _ _ _ Hu2) as Hs2. destruct Hu2 as [Hok2 _].
  assert (GetBalance s a <= GetBalance (AddBalance b (GetBalance s a) s) a).
  { destruct (decide (a = b)) as [->|Hne]; [lia|]. rewrite Hother by done. lia. }
  split; [split; [done|lia]|cbn; lia].
Qed.

Lemma same_ledger s t : state_typed t -> wf_state s -> same_obs s t -> ledger_step t s.
Proof.
  intros Ht Hwf Hst. apply rest_ledger; [done| |].
  { split; [done|]. rewrite (obs_refund _ _ Hst). apply Ht. }
  intros b k. by apply view_same_obs. Qed.

#[export] Instance State_LedgerLaws : LedgerLaws Hash (State Hash).
Proof.
  split.
  - intros d Hd. apply Hd.
  - intros d a [Hd Hs]. pose proof (GetBalance_nonneg _ a Hd). pose proof (balance_le_supply d a (fun b => GetBalance_nonneg _ b Hd)).
    cbn. unfold is_word. lia.
  - intros d a k [Hd _]. destruct (ok_view _ Hd a k) as (_ & [Hk _] & _). by rewrite view_reads in Hk.
  - intros d a [Hd _]. destruct (ok_view _ Hd a 0) as (_ & _ & Hk). by rewrite view_reads in Hk.
  - intros a d Hd. eapply updates_ledger; [done|apply CreateAccount_updates, Hd|lia].
  - intros a d Hd. eapply updates_ledger; [done|apply AddBalance_updates; [apply Hd|]|lia].
    pose proof (GetBalance_nonneg _ a (typed_ok _ Hd)). lia.
  - intros a b x d Hd Hx. by apply Transfer_ledger.
  - intros a b d Hd. by apply Suicide_ledger.
  - intros a n d Hd. eapply updates_ledger; [done|apply SetNonce_updates, Hd|lia].
  - intros a c d Hd Hc. eapply updates_ledger; [done|apply SetCode_updates; [apply Hd|done]|lia].
  - intros a k v d Hd Hv. eapply updates_ledger; [done|apply SetState_updates; [apply Hd|done]|lia].
  - intros x d Hd. apply rest_ledger; [done| |intros; by apply view_rest].
    split; [eapply wf_undoable; [apply Hd|apply AddRefund_undoable, Hd]|apply is_u64_u64].
  - intros l d Hd. apply rest_ledger; [done| |intros; by apply view_rest].
    eapply sound_undoable; [apply Hd|apply AddLog_undoable, Hd|done].
  - intros h p d Hd. apply rest_ledger; [done| |].
    + eapply sound_undoable; [apply Hd|apply AddPreimage_undoable, Hd|]. cbn. unfold AddPreimage. by destruct (preimages d !! h).
    + intros. cbn. unfold AddPreimage. destruct (preimages d !! h); [done|by apply view_rest].
  - intros d Hd. apply rest_ledger; [done|split; [apply wf_Snapshot|]; apply Hd|intros; by apply view_rest].
  - intros d a. apply view_balance. intros k. by apply view_rest.
  - intros a b d Hd. destruct (CreateAccount_updates b d (typed_ok _ Hd)) as (_ & Hb & Ho).
    destruct (decide (a = b)) as [->|Hne]; [done|by apply Ho].
  - intros a b n d Hd. destruct (SetNonce_updates b n d (typed_ok _ Hd)) as (_ & Hb & Ho).
    destruct (decide (a = b)) as [->|Hne]; [done|by apply Ho].
  - intros d d0 Ht Hv Hst. by apply same_ledger.
Qed.
End Ledger.
