(* ===== verification/StateDBFinalise.v ===== *)
(** The end of a transaction on the state database: [Finalise] of
    core/state/statedb.go keeps every account that is left as it was, and makes
    no ether. *)
From stdpp Require Import gmap.
From S2P Require Import Prelude GoMath Params EvmCode EvmMemory EvmState EvmInterp EvmRevert EvmTyped StateObject StateDBModel StateDBCorrect StateDBSnapshot StateDBOps EvmStateDB StateDBLedger.

Section Finalise.
Context {Hash : Type} `{HashFn Hash}.
Implicit Types s t u : State Hash.
Implicit Types o : stateObject Hash.

(** * Storage *)
Definition good_storage o : Prop := forall k, is_word (objState o k) /\ is_word (objCommittedState o k).

(** What the update of the storage trie does not touch. *)
Record keeps_account o o' : Prop := {
  ka_address : address o' = address o;
  ka_data : Nonce (data o') = Nonce (data o) /\ Balance (data o') = Balance (data o) /\ ACodeHash (data o') = ACodeHash (data o);
  ka_code : code o' = code o;
  ka_suicided : suicided o' = suicided o;
  ka_deleted : deleted o' = deleted o }.

Lemma keeps_account_trans o1 o2 o3 : keeps_account o1 o2 -> keeps_account o2 o3 -> keeps_account o1 o3.
Proof. intros [? (? & ? & ?) ? ? ?] [? (? & ? & ?) ? ? ?]. split; try congruence. split_and!; congruence. Qed.

Lemma update_entry_ok k v o :
  good_storage o -> is_word v -> keeps_account o (update_entry k v o) /\ good_storage (update_entry k v o).
Proof.
  intros Ho Hv. unfold update_entry. case_if; (split; [by split|]); intros j; destruct (Ho j) as [Hs Hc].
  - assert (forall d, objCommittedState (mkStateObject (address o) (data o) (Some (getTrie o)) (code o) (originStorage o) d
        (dirtyCode o) (suicided o) (deleted o)) j = objCommittedState o j) as Hj by done.
    rewrite Hj. split; [|done]. unfold objState in *. rewrite Hj. cbn [dirtyStorage].
    destruct (decide (j = k)) as [->|]; [by rewrite lookup_delete_eq|by rewrite lookup_delete_ne].
  - match goal with |- is_word (objState ?x j) /\ _ => set (o' := x) end.
    assert (is_word (objCommittedState o' j)) as Hc'.
    { unfold objCommittedState, o' in *. cbn [originStorage getTrie otrie default].
      destruct (decide (j = k)) as [->|]; [by rewrite lookup_insert_eq|]. rewrite lookup_insert_ne by done.
      destruct (originStorage o !! j); [done|]. cbn. case_if; [by rewrite lookup_delete_ne|by rewrite lookup_insert_ne]. }
    split; [|done]. unfold objState, o' in *. cbn [dirtyStorage].
    destruct (decide (j = k)) as [->|]; [by rewrite lookup_delete_eq|]. rewrite lookup_delete_ne by done.
    by destruct (dirtyStorage o !! j).
Qed.

Lemma updateRoot_ok o : good_storage o -> keeps_account o (updateRoot o) /\ good_storage (updateRoot o).
Proof.
  intros Ho. unfold updateRoot. enough (keeps_account o (updateTrie o) /\ good_storage (updateTrie o)) as [[? (? & ? & ?) ? ? ?] Hg].
  { split; [by split|]. intros k. specialize (Hg k). unfold objState, objCommittedState in *. unfold getTrie in *. cbn in *.
    by destruct (otrie (updateTrie o)). }
  unfold updateTrie. set (o0 := mkStateObject _ _ _ _ _ _ _ _ _).
  assert (forall m : gmap Z Z, m ⊆ dirtyStorage o -> keeps_account o (map_fold update_entry o0 m) /\ good_storage (map_fold update_entry o0 m)) as Hm.
  { intros m. apply (map_fold_weak_ind (fun r m => m ⊆ dirtyStorage o -> keeps_account o r /\ good_storage r)).
    - intros _. split; [by split|exact Ho].
    - intros k v m' r Hk IH Hsub. destruct IH as [H1 H2]; [etrans; [by apply insert_subseteq|done]|].
      assert (is_word v) as Hv.
      { pose proof (lookup_weaken _ _ k v (lookup_insert_eq _ _ _) Hsub) as Hd. destruct (Ho k) as [Hs _]. unfold objState in Hs. by rewrite Hd in Hs. }
      destruct (update_entry_ok k v r H2 Hv) as [H3 H4]. split; [by eapply keeps_account_trans|done]. }
  by apply Hm.
Qed.

(** * One account *)

(** Accounts lose nothing but, when they are deleted, all. *)
Record settles s t : Prop := {
  se_objs : wf_objs t;
  se_codes : codes t = codes s;
  se_view a k : view_ok (account_view t a k);
  se_balance a : GetBalance t a = GetBalance s a \/ GetBalance t a = 0 }.

Lemma view_ok_none : view_ok (mkView 0 0 0 [] (EmptyHash : Hash)).
Proof. split; [done|]. split; [split; by_decide|]. split; [by split; [constructor|by_compute]|by left]. Qed.

Lemma view_ok_object cs o o' :
  keeps_account o o' -> good_storage o' -> (forall k, view_ok (object_view cs (Some o) k)) -> forall k, view_ok (object_view cs (Some o') k).
Proof.
  intros [_ (_ & Hb & Hh) Hc _ _] Hg Hv k. destruct (Hv k) as (H1 & _ & H3). unfold objCode in *. cbn in *.
  unfold objCode in *. rewrite Hb, Hh, Hc. split; [done|]. split; [apply Hg|done].
Qed.

Lemma lookup_here s a o : stateObjects s !! a = Some o -> lookupObject s a = if deleted o then None else Some o.
Proof. intros E. by rewrite lookupObject_eq, E. Qed.

(** The object of [a] is deleted, or written to the trie with its storage. *)
Record finalised (a : Z) o o' (del : bool) s t : Prop := {
  fi_objects : stateObjects t = <[a := o']> (stateObjects s);
  fi_trie : trie t = if del then base.delete a (trie s) else <[a := data o']> (trie s);
  fi_codes : codes t = codes s;
  fi_address : address o' = a;
  fi_deleted : deleted o' = del;
  fi_gone : del = true -> suicided o' || empty o' = true;
  fi_kept : del = false -> keeps_account o o' /\ good_storage o' /\ deleted o = false }.

Lemma finalise_entry_cases a o s :
  wf_objs s -> (forall b k, view_ok (account_view s b k)) -> stateObjects s !! a = Some o ->
  exists o', finalised a o o' (suicided o || empty o) s (finalise_entry true a s).
Proof.
  intros Hwf Hv E. destruct (Hwf a o E) as [Ha Hdel]. unfold finalise_entry. rewrite E. cbn [andb].
  destruct (suicided o || empty o) eqn:Ed.
  - exists (set_deleted true o). split; cbn; rewrite ?Ha; done.
  - assert (deleted o = false) as Hd by (destruct (deleted o); [by destruct (Hdel eq_refl)|done]).
    assert (good_storage o) as Hg.
    { intros k. specialize (Hv a k). unfold account_view in Hv. rewrite (lookup_here _ _ _ E), Hd in Hv. apply Hv. }
    destruct (updateRoot_ok o Hg) as [Hk Hg']. exists (updateRoot o). pose proof (ka_address _ _ Hk) as Hu.
    split; cbn [updateStateObject set_trie setStateObject set_objects stateObjects trie codes set_objectsDirty]; rewrite ?Hu, ?Ha; try done.
    by rewrite (ka_deleted _ _ Hk).
Qed.

Lemma finalised_lookup a o o' del s t :
  finalised a o o' del s t -> forall b, lookupObject t b = if decide (b = a) then if del then None else Some o' else lookupObject s b.
Proof.
  intros F b. rewrite !lookupObject_eq, (fi_objects _ _ _ _ _ _ F), (fi_trie _ _ _ _ _ _ F). case_decide as Eb.
  - subst b. rewrite lookup_insert_eq, (fi_deleted _ _ _ _ _ _ F). by destruct del.
  - rewrite lookup_insert_ne by done. destruct (stateObjects s !! b); [done|].
    destruct del; [by rewrite lookup_delete_ne|by rewrite lookup_insert_ne].
Qed.

Lemma finalise_entry_settles a s :
  wf_objs s -> (forall b k, view_ok (account_view s b k)) -> settles s (finalise_entry true a s).
Proof.
  intros Hwf Hv. destruct (stateObjects s !! a) as [o|] eqn:E; [|unfold finalise_entry; rewrite E; by split; auto].
  destruct (finalise_entry_cases a o s Hwf Hv E) as [o' F]. pose proof (finalised_lookup _ _ _ _ _ _ F) as Hl.
  set (t := finalise_entry true a s) in *. destruct F as [E1 E2 E3 E4 E5 E6 E7]. split; [|done|..].
  - intros b x. rewrite E1, E2. intros [[<- <-]|[Hne Hx]]%lookup_insert_Some.
    + split; [done|]. rewrite E5. intros Ed. rewrite Ed, lookup_delete_eq. auto.
    + destruct (Hwf b x Hx) as [H1 H2]. split; [done|]. intros [H3 H4]%H2. split; [|done].
      destruct (_ || _); [by rewrite lookup_delete_ne|by rewrite lookup_insert_ne].
  - intros b k. unfold account_view. rewrite E3, Hl. case_decide as Eb; [subst b|apply Hv].
    destruct (_ || _); [apply view_ok_none|]. destruct (E7 eq_refl) as (Hk & Hg & Hd).
    apply (view_ok_object _ o); [done|done|]. intros j. specialize (Hv a j). unfold account_view in Hv.
    by rewrite (lookup_here _ _ _ E), Hd in Hv.
  - intros b. unfold GetBalance. rewrite Hl. case_decide as Eb; [subst b|by left].
    destruct (_ || _); [by right|]. destruct (E7 eq_refl) as (Hk & _ & Hd). left. rewrite (lookup_here _ _ _ E), Hd. apply Hk.
Qed.

Lemma settles_trans s t u : settles s t -> settles t u -> settles s u.
Proof.
  intros [] []. split; [done|congruence|done|]. intros a. destruct (se_balance1 a) as [->|]; [apply se_balance0|by right].
Qed.

(** * The whole state *)
Lemma total_supply_le s t : (forall a, 0 <= GetBalance s a) -> (forall a, GetBalance t a = GetBalance s a \/ GetBalance t a = 0) ->
  total_supply t <= total_supply s.
Proof.
  intros Hn Hb. set (X := accounts s ∪ accounts t). rewrite (total_supply_over s X), (total_supply_over t X) by set_solver.
  unfold set_sum. induction (elements X) as [|a l IH]; cbn; [done|]. specialize (Hn a). destruct (Hb a); lia.
Qed.

Lemma finalise_all s (m : gmap Z Z) :
  wf_objs s -> (forall b k, view_ok (account_view s b k)) -> settles s (map_fold (fun addr _ => finalise_entry true addr) s m).
Proof.
  intros Hwf Hv. apply (map_fold_weak_ind (fun t _ => settles s t)).
  - by split; auto.
  - intros a n m' t _ Ht. eapply settles_trans; [done|]. apply finalise_entry_settles; apply Ht.
Qed.

(** What is read depends on the objects, the trie and the codes only. *)
Lemma view_fields s t a k :
  stateObjects t = stateObjects s -> trie t = trie s -> codes t = codes s -> account_view t a k = account_view s a k.
Proof. intros E1 E2 E3. unfold account_view. by rewrite !lookupObject_eq, E1, E2, E3. Qed.

(** The state after a transaction is good, and no ether was made: an account
    keeps its balance, or is deleted. *)
Lemma Finalise_ok s :
  state_ok s -> let t := Finalise true s in
  state_ok t /\ total_supply t <= total_supply s /\ (forall a, GetBalance t a = GetBalance s a \/ GetBalance t a = 0) /\
  entries t = [] /\ refund t = 0.
Proof.
  intros Hs t. destruct (finalise_all s (dirties s) (wf_objects _ (proj1 (ok_sound _ Hs))) (ok_view _ Hs)) as [H1 H2 H3 H4].
  set (u := map_fold _ _ _) in *. assert (forall a k, account_view t a k = account_view u a k) as Hv by (intros; by apply view_fields).
  assert (forall a, GetBalance t a = GetBalance s a \/ GetBalance t a = 0) as Hb.
  { intros a. rewrite (view_balance u t a) by apply Hv. apply H4. }
  assert (state_ok t) as Ht.
  { split; [split; [split; [exact H1|constructor..]|by_decide]|]. intros a k. rewrite Hv. apply H3. }
  split; [done|]. split; [|done]. apply total_supply_le; [intros a; by apply GetBalance_nonneg|done].
Qed.

Lemma Finalise_typed s : state_typed s -> state_typed (Finalise true s) /\ total_supply (Finalise true s) <= total_supply s.
Proof. intros [Hs Hb]. destruct (Finalise_ok s Hs) as (Ht & Hle & _). split; [split; [done|lia]|done]. Qed.

Lemma Prepare_typed th bh ti s : state_typed s -> state_typed (Prepare th bh ti s) /\ total_supply (Prepare th bh ti s) = total_supply s.
Proof.
  intros [Hs Hb]. set (t := Prepare th bh ti s). assert (forall a k, account_view t a k = account_view s a k) as Hv by (intros; by apply view_fields).
  assert (total_supply t = total_supply s) as E by (apply total_supply_ext; intros a; by apply view_balance). split; [|done].
  split; [|lia]. destruct Hs as [[Hw Hr] Hk]. split; [split; [by destruct Hw|done]|]. intros a k. rewrite Hv. apply Hk.
Qed.
End Finalise.
