(* ===== verification/Ethash.v ===== *)
(** The proof-of-work rules of consensus/ethash/consensus.go and
    consensus/misc/dao.go: difficulty, verification of headers and uncles, and
    rewards.  The memory-hard hash of the seal is an argument. *)
From stdpp Require Import gmap.
From S2P Require Import Prelude GoMath Params EvmState StateObject StateDBModel BlockHeader.

Definition FrontierBlockReward : Z := 5 * 10 ^ 18.
Definition ByzantiumBlockReward : Z := 3 * 10 ^ 18.
Definition ConstantinopleBlockReward : Z := 2 * 10 ^ 18.
Definition maxUncles : Z := 2.
Definition allowedFutureBlockTime : Z := 15.
Definition GasLimitBoundDivisor : Z := 1024.
Definition MinGasLimit : Z := 5000.
Definition MaximumExtraDataSize : Z := 32.
Definition DifficultyBoundDivisor : Z := 2048.
Definition MinimumDifficulty : Z := 131072.
Definition DurationLimit : Z := 13.
Definition expDiffPeriod : Z := 100000.
Definition DAOForkBlockExtra : bytes := [100; 97; 111; 45; 104; 97; 114; 100; 45; 102; 111; 114; 107].
Definition DAOForkExtraRange : Z := 10.

Inductive EthashError :=
| errExtraTooLong
| errLargeBlockTime
| ErrEthashFutureBlock
| errZeroBlockTime
| errBadDifficulty
| errBadGasLimit
| errBadGasUsed
| ErrInvalidNumber
| errInvalidDifficulty
| errInvalidMixDigest
| errInvalidPoW
| ErrBadProDAOExtra
| ErrBadNoDAOExtra
| errForkHash
| ErrUnknownAncestor
| errTooManyUncles
| errDuplicateUncle
| errUncleIsAncestor
| errDanglingUncle.

Definition set_Difficulty (d : Z) (h : Header) : Header :=
  mkHeader (ParentHash h) (UncleHash h) (Coinbase h) (Root h) (TxHash h) (ReceiptHash h) (Bloom h) (Some d)
    (Number h) (GasLimit h) (GasUsed h) (Time h) (Extra h) (MixDigest h) (Nonce h).

(** * Difficulty *)

(** The exponential part, from the number of periods. *)
Definition bomb (periodCount x : Z) : Z := if 1 <? periodCount then x + 2 ^ (periodCount - 2) else x.

Definition at_least_minimum (x : Z) : Z := if x <? MinimumDifficulty then MinimumDifficulty else x.

(** [makeDifficultyCalculator] on the fields of the parent; [noUncles] tells
    whether the parent has the hash of an empty list of uncles. *)
Definition makeDifficultyCalculator (bombDelay time parentTime parentDifficulty parentNumber : Z) (noUncles : bool) : Z :=
  let bombDelayFromParent := bombDelay - 1 in
  let x := (time - parentTime) / 9 in
  let x := if noUncles then 1 - x else 2 - x in
  let x := if x <? -99 then -99 else x in
  let y := parentDifficulty / DifficultyBoundDivisor in
  let x := at_least_minimum (parentDifficulty + y * x) in
  let fakeBlockNumber := if bombDelayFromParent <=? parentNumber then parentNumber - bombDelayFromParent else 0 in
  bomb (fakeBlockNumber / expDiffPeriod) x.

Definition calcDifficultyConstantinople := makeDifficultyCalculator 5000000.
Definition calcDifficultyByzantium := makeDifficultyCalculator 3000000.

Definition calcDifficultyHomestead (time parentTime parentDifficulty parentNumber : Z) : Z :=
  let x := 1 - (time - parentTime) / 10 in
  let x := if x <? -99 then -99 else x in
  let y := parentDifficulty / DifficultyBoundDivisor in
  let x := at_least_minimum (parentDifficulty + y * x) in
  bomb ((parentNumber + 1) / expDiffPeriod) x.

Definition calcDifficultyFrontier (time parentTime parentDifficulty parentNumber : Z) : Z :=
  let adjust := parentDifficulty / DifficultyBoundDivisor in
  let diff := if time - parentTime <? DurationLimit then parentDifficulty + adjust else parentDifficulty - adjust in
  let diff := at_least_minimum diff in
  let periodCount := (parentNumber + 1) / expDiffPeriod in
  if 1 <? periodCount then BigMax (diff + 2 ^ (periodCount - 2)) MinimumDifficulty else diff.

Section Engine.
Context (config : ChainConfig) (EIP150Hash EmptyUncleHash now : Z) (Hash : Header -> Z).

(** [CalcDifficulty] panics on a parent without number, time or difficulty. *)
Definition CalcDifficulty (time : Z) (parent : Header) : option Z :=
  match Number parent, Time parent, Difficulty parent with
  | Some n, Some t, Some d =>
      let next := Some (n + 1) in
      let noUncles := UncleHash parent =? EmptyUncleHash in
      Some (if IsConstantinople config next then calcDifficultyConstantinople time t d n noUncles
            else if IsByzantium config next then calcDifficultyByzantium time t d n noUncles
            else if IsHomestead config next then calcDifficultyHomestead time t d n
            else calcDifficultyFrontier time t d n)
  | _, _, _ => None
  end.

Definition VerifyDAOHeaderExtraData (number : Z) (h : Header) : option EthashError :=
  match DAOForkBlock config with
  | None => None
  | Some fork =>
      if (number <? fork) || (fork + DAOForkExtraRange <=? number) then None
      else if DAOForkSupport config then
        if negb (bytes_eqb (Extra h) DAOForkBlockExtra) then Some ErrBadProDAOExtra else None
      else if bytes_eqb (Extra h) DAOForkBlockExtra then Some ErrBadNoDAOExtra else None
  end.

Definition VerifyForkHashes (number : Z) (h : Header) (uncle : bool) : option EthashError :=
  if uncle then None
  else
    match EIP150Block config with
    | Some b =>
        if (b =? number) && negb (EIP150Hash =? 0) && negb (EIP150Hash =? Hash h) then Some errForkHash else None
    | None => None
    end.

(** [verifySeal] in the normal mode; [hashimoto] gives the digest and the
    result for a header. *)
Context (hashimoto : Header -> Z * Z).

Definition VerifySeal (difficulty : Z) (h : Header) : option EthashError :=
  if difficulty <=? 0 then Some errInvalidDifficulty
  else
    let '(digest, r) := hashimoto h in
    if negb (MixDigest h =? digest) then Some errInvalidMixDigest
    else if 2 ^ 256 / difficulty <? r then Some errInvalidPoW
    else None.

(** [int64] of a [uint64]. *)
Definition to_int64 (x : Z) : Z := if x <? 2 ^ 63 then x else x - 2 ^ 64.
(** Subtraction and negation on [int64], then [uint64]. *)
Definition gas_distance (x y : Z) : Z := 
  let diff := to_int64 (u64 (to_int64 x - to_int64 y)) in
  u64 (if diff <? 0 then - diff else diff).

Definition fail_if (b : bool) (e : EthashError) : result EthashError unit := if b then Err e else Ok tt.
Definition fail_with (e : option EthashError) : result EthashError unit := match e with Some e => Err e | None => Ok tt end.

(** [verifyHeader]; a [nil] number, time or difficulty panics where it is used. *)
Definition verifyHeader (h parent : Header) (uncle seal : bool) : result EthashError unit :=
  let! _ := fail_if (MaximumExtraDataSize <? zlen (Extra h)) errExtraTooLong in
  let! t := or_panic (Time h) in
  let! _ := if uncle then fail_if (2 ^ 256 - 1 <? t) errLargeBlockTime
            else fail_if (now + allowedFutureBlockTime <? t) ErrEthashFutureBlock in
  let! pt := or_panic (Time parent) in
  let! _ := fail_if (t <=? pt) errZeroBlockTime in
  let! expected := or_panic (CalcDifficulty (Uint64 t) parent) in
  let! d := or_panic (Difficulty h) in
  let! _ := fail_if (negb (expected =? d)) errBadDifficulty in
  let! _ := fail_if (2 ^ 63 - 1 <? GasLimit h) errBadGasLimit in
  let! _ := fail_if (GasLimit h <? GasUsed h) errBadGasUsed in
  let! _ := fail_if ((GasLimit parent / GasLimitBoundDivisor <=? gas_distance (GasLimit parent) (GasLimit h)) ||
                     (GasLimit h <? MinGasLimit)) errBadGasLimit in
  let! n := or_panic (Number h) in
  let! pn := or_panic (Number parent) in
  let! _ := fail_if (negb (n - pn =? 1)) ErrInvalidNumber in
  let! _ := if seal then fail_with (VerifySeal d h) else Ok tt in
  let! _ := fail_with (VerifyDAOHeaderExtraData n h) in
  fail_with (VerifyForkHashes n h uncle).

(** The chain reader's [GetHeader], and [ModeFullFake]. *)
Context (GetHeader : Z -> Z -> option Header) (fullFake : bool).

Definition VerifyHeader (h : Header) (seal : bool) : result EthashError unit :=
  if fullFake then Ok tt
  else
    let! number := number_of h in
    if bool_decide (is_Some (GetHeader (Hash h) number)) then Ok tt
    else
      match GetHeader (ParentHash h) (u64 (number - 1)) with
      | None => Err ErrUnknownAncestor
      | Some parent => verifyHeader h parent false seal
      end.

(** The header before the one at [index], when it is its parent. *)
Definition worker_parent (headers : list Header) (index : nat) (h : Header) : result EthashError (option Header) :=
  match index with
  | O => let! number := number_of h in Ok (GetHeader (ParentHash h) (u64 (number - 1)))
  | S i =>
      let! prev := or_panic (headers !! i) in
      Ok (if Hash prev =? ParentHash h then Some prev else None)
  end.

Definition verifyHeaderWorker (headers : list Header) (seals : list bool) (index : nat) : result EthashError unit :=
  let! h := or_panic (headers !! index) in
  let! parent := worker_parent headers index h in
  match parent with
  | None => Err ErrUnknownAncestor
  | Some parent =>
      let! number := number_of h in
      if bool_decide (is_Some (GetHeader (Hash h) number)) then Ok tt
      else let! seal := or_panic (seals !! index) in verifyHeader h parent false seal
  end.

Definition Prepare (h : Header) : result EthashError Header :=
  let! number := number_of h in
  match GetHeader (ParentHash h) (u64 (number - 1)) with
  | None => Err ErrUnknownAncestor
  | Some parent =>
      let! t := or_panic (Time h) in
      let! d := or_panic (CalcDifficulty (Uint64 t) parent) in
      Ok (set_Difficulty d h)
  end.

(** * Uncles *)
Record EBlock := mkBlock { block_header : Header; block_uncles : list Header }.

Context (GetBlock : Z -> Z -> option EBlock).

(** The loop over the last seven ancestors. *)
Fixpoint collect_ancestors (n : nat) (parent number : Z) (uncles : gset Z) (ancestors : gmap Z Header) : gset Z * gmap Z Header :=
  match n with
  | O => (uncles, ancestors)
  | S n =>
      match GetBlock parent number with
      | None => (uncles, ancestors)
      | Some a =>
          collect_ancestors n (ParentHash (block_header a)) (u64 (number - 1))
            (foldl (fun s u => {[Hash u]} ∪ s) uncles (block_uncles a))
            (<[Hash (block_header a) := block_header a]> ancestors)
      end
  end.

Fixpoint check_uncles (parentHash : Z) (uncles : gset Z) (ancestors : gmap Z Header) (l : list Header) : result EthashError unit :=
  match l with
  | [] => Ok tt
  | u :: l =>
      let hash := Hash u in
      if bool_decide (hash ∈ uncles) then Err errDuplicateUncle
      else if bool_decide (is_Some (ancestors !! hash)) then Err errUncleIsAncestor
      else
        match ancestors !! ParentHash u with
        | None => Err errDanglingUncle
        | Some p =>
            if ParentHash u =? parentHash then Err errDanglingUncle
            else let! _ := verifyHeader u p true true in check_uncles parentHash ({[hash]} ∪ uncles) ancestors l
        end
  end.

Definition VerifyUncles (b : EBlock) : result EthashError unit :=
  if fullFake then Ok tt
  else if maxUncles <? zlen (block_uncles b) then Err errTooManyUncles
  else
    let! number := number_of (block_header b) in
    let '(uncles, ancestors) := collect_ancestors 7 (ParentHash (block_header b)) (u64 (number - 1)) ∅ ∅ in
    let h := Hash (block_header b) in
    check_uncles (ParentHash (block_header b)) ({[h]} ∪ uncles) (<[h := block_header b]> ancestors) (block_uncles b).

(** * Rewards *)
Definition block_reward (number : Z) : Z :=
  let r := FrontierBlockReward in
  let r := if IsByzantium config (Some number) then ByzantiumBlockReward else r in
  if IsConstantinople config (Some number) then ConstantinopleBlockReward else r.

Definition uncle_reward (blockReward number uncleNumber : Z) : Z := (uncleNumber + 8 - number) * blockReward / 8.
End Engine.

(** [accumulateRewards] on the state of core/state; a [nil] number panics. *)
Section Rewards.
Context {K : Type} `{HashFn K} (config : ChainConfig).

Fixpoint uncle_rewards (blockReward number : Z) (uncles : list Header) (reward : Z) (s : State K) : option (Z * State K) :=
  match uncles with
  | [] => Some (reward, s)
  | u :: uncles =>
      match Number u with
      | Some n =>
          uncle_rewards blockReward number uncles (reward + blockReward / 32)
            (AddBalance (Coinbase u) (uncle_reward blockReward number n) s)
      | None => None
      end
  end.

Definition accumulateRewards (h : Header) (uncles : list Header) (s : State K) : option (State K) :=
  match Number h with
  | None => None
  | Some number =>
      let blockReward := block_reward config number in
      match uncle_rewards blockReward number uncles blockReward s with
      | Some (reward, s) => Some (AddBalance (Coinbase h) reward s)
      | None => None
      end
  end.

(** [ApplyDAOHardFork]; [drain] is [params.DAODrainList()] and [refund] the
    contract that gets the money. *)
Definition drain_account (refund : Z) (s : State K) (addr : Z) : State K :=
  SetBalance addr 0 (AddBalance refund (GetBalance s addr) s).

Definition ApplyDAOHardFork (refund : Z) (drain : list Z) (s : State K) : State K :=
  foldl (drain_account refund) (if Exist s refund then s else CreateAccount refund s) drain.
End Rewards.
