(* ===== verification/EthashCorrect.v ===== *)
(** What the proof-of-work rules of [Ethash] guarantee: the difficulty stays
    above its minimum and moves by bounded steps, a batch of accepted headers
    is a chain, accepted uncles are recent and distinct, and a block mints the
    reward the rules give it and nothing else. *)
From stdpp Require Import gmap.
From S2P Require Import Prelude GoMath Params EvmState StateObject StateDBModel StateDBCorrect StateDBOps StateDBLedger BlockHeader Ethash.

(** * Difficulty *)
Lemma at_least_minimum_max x : at_least_minimum x = Z.max MinimumDifficulty x.
Proof. unfold at_least_minimum. destruct (Z.ltb_spec x MinimumDifficulty); lia. Qed.

(** The bomb is a number that depends on the period only. *)
Definition bomb_size (periodCount : Z) : Z := bomb periodCount 0.

Lemma bomb_add p x : bomb p x = x + bomb_size p.
Proof. unfold bomb_size, bomb. case_if; lia. Qed.

Lemma bomb_size_nonneg p : 0 <= bomb_size p.
Proof. unfold bomb_size, bomb. case_if; [|lia]. pose proof (Z.pow_nonneg 2 (p - 2)). lia. Qed.

(** The common shape: [a] is the factor of the parent's difficulty over 2048. *)
Definition adjusted (d a p : Z) : Z := Z.max MinimumDifficulty (d + d / DifficultyBoundDivisor * a) + bomb_size p.

Lemma adjusted_bounds d a p :
  MinimumDifficulty <= d -> -99 <= a <= 2 ->
  MinimumDifficulty <= adjusted d a p /\ d - 99 * (d / 2048) <= adjusted d a p <= d + 2 * (d / 2048) + bomb_size p.
Proof.
  unfold adjusted, MinimumDifficulty, DifficultyBoundDivisor. intros Hd Ha.
  pose proof (bomb_size_nonneg p). pose proof (Z.div_pos d 2048). nia.
Qed.

Lemma adjusted_mono d a b p : MinimumDifficulty <= d -> a <= b -> adjusted d a p <= adjusted d b p.
Proof.
  unfold adjusted, MinimumDifficulty, DifficultyBoundDivisor. intros Hd Ha. pose proof (Z.div_pos d 2048). nia.
Qed.

(** The factor of each rule. *)
Definition byzantium_factor (noUncles : bool) (dt : Z) : Z := Z.max (-99) ((if noUncles then 1 else 2) - dt / 9).
Definition homestead_factor (dt : Z) : Z := Z.max (-99) (1 - dt / 10).
Definition frontier_factor (dt : Z) : Z := if dt <? DurationLimit then 1 else -1.

Lemma makeDifficultyCalculator_adjusted delay t pt d n u :
  makeDifficultyCalculator delay t pt d n u
  = adjusted d (byzantium_factor u (t - pt)) ((if delay - 1 <=? n then n - (delay - 1) else 0) / expDiffPeriod).
Proof.
  unfold makeDifficultyCalculator, adjusted, byzantium_factor. rewrite bomb_add, at_least_minimum_max.
  f_equal. f_equal. f_equal. f_equal. case_if; case_if; lia.
Qed.

Lemma calcDifficultyHomestead_adjusted t pt d n :
  calcDifficultyHomestead t pt d n = adjusted d (homestead_factor (t - pt)) ((n + 1) / expDiffPeriod).
Proof.
  unfold calcDifficultyHomestead, adjusted, homestead_factor. rewrite bomb_add, at_least_minimum_max.
  f_equal. f_equal. f_equal. f_equal. case_if; lia.
Qed.

Lemma calcDifficultyFrontier_adjusted t pt d n :
  calcDifficultyFrontier t pt d n = adjusted d (frontier_factor (t - pt)) ((n + 1) / expDiffPeriod).
Proof.
  unfold calcDifficultyFrontier, adjusted, frontier_factor. rewrite at_least_minimum_max.
  replace (if t - pt <? DurationLimit then _ else _)
    with (d + d / DifficultyBoundDivisor * (if t - pt <? DurationLimit then 1 else -1)) by (case_if; lia).
  pose proof (bomb_size_nonneg ((n + 1) / expDiffPeriod)) as Hb. unfold bomb_size, bomb in *.
  destruct (Z.ltb_spec 1 ((n + 1) / expDiffPeriod)); [|lia]. unfold BigMax. case_if; lia.
Qed.

Lemma factors dt dt' u :
  0 <= dt -> dt <= dt' ->
  (-99 <= byzantium_factor u dt <= 2 /\ byzantium_factor u dt' <= byzantium_factor u dt) /\
  (-99 <= homestead_factor dt <= 2 /\ homestead_factor dt' <= homestead_factor dt) /\
  (-99 <= frontier_factor dt <= 2 /\ frontier_factor dt' <= frontier_factor dt).
Proof.
  intros H0 H1. unfold byzantium_factor, homestead_factor, frontier_factor, DurationLimit.
  pose proof (Z.div_pos dt 9). pose proof (Z.div_pos dt 10).
  pose proof (Z.div_le_mono dt dt' 9). pose proof (Z.div_le_mono dt dt' 10).
  split_and!; repeat case_if; lia.
Qed.

Section Difficulty.
Context (config : ChainConfig) (EmptyUncleHash : Z).
#[local] Abbreviation calc := (CalcDifficulty config EmptyUncleHash).

(** The period the rule in force counts; no period before block 200000. *)
Lemma CalcDifficulty_adjusted parent n t d :
  Number parent = Some n -> Time parent = Some t -> Difficulty parent = Some d -> 0 <= n ->
  exists p (f : Z -> Z),
    (forall time, calc time parent = Some (adjusted d (f (time - t)) p)) /\
    (forall dt dt', 0 <= dt -> dt <= dt' -> -99 <= f dt <= 2 /\ f dt' <= f dt) /\
    p <= (n + 1) / expDiffPeriod.
Proof.
  intros Hn Ht Hd Hpos. unfold CalcDifficulty. rewrite Hn, Ht, Hd.
  set (u := UncleHash parent =? EmptyUncleHash).
  assert (forall delay, 1 <= delay ->
    (if delay - 1 <=? n then n - (delay - 1) else 0) / expDiffPeriod <= (n + 1) / expDiffPeriod) as Hdel.
  { intros delay H1. apply Z.div_le_mono; [done|]. case_if; lia. }
  repeat case_if.
  - eexists _, (byzantium_factor u). split_and!; [intros; f_equal; apply makeDifficultyCalculator_adjusted| |by apply Hdel].
    intros dt dt' H0 H1. by apply (factors dt dt' u).
  - eexists _, (byzantium_factor u). split_and!; [intros; f_equal; apply makeDifficultyCalculator_adjusted| |by apply Hdel].
    intros dt dt' H0 H1. by apply (factors dt dt' u).
  - eexists _, homestead_factor. split_and!; [intros; f_equal; apply calcDifficultyHomestead_adjusted| |done].
    intros dt dt' H0 H1. by apply (factors dt dt' true).
  - eexists _, frontier_factor. split_and!; [intros; f_equal; apply calcDifficultyFrontier_adjusted| |done].
    intros dt dt' H0 H1. by apply (factors dt dt' true).
Qed.

Lemma bomb_size_mono p q : p <= q -> bomb_size p <= bomb_size q.
Proof.
  intros Hp. pose proof (bomb_size_nonneg q). unfold bomb_size, bomb in *. destruct (Z.ltb_spec 1 p); [|lia].
  destruct (Z.ltb_spec 1 q); [|lia]. pose proof (Z.pow_le_mono_r 2 (p - 2) (q - 2)). lia.
Qed.

(** C30: whatever rule the configuration selects, the difficulty of the next
    block is at least the minimum, falls by at most 99/2048 of the parent's and
    rises by at most 2/2048 of it plus the bomb of the block's period; and a
    later timestamp never gives a larger difficulty. *)
Theorem difficulty_bounds parent n t d :
  Number parent = Some n -> Time parent = Some t -> Difficulty parent = Some d -> 0 <= n -> MinimumDifficulty <= d ->
  forall time, t <= time ->
  exists x, calc time parent = Some x /\ MinimumDifficulty <= x /\
    d - 99 * (d / 2048) <= x <= d + 2 * (d / 2048) + bomb_size ((n + 1) / expDiffPeriod) /\
    forall time', time <= time' -> exists x', calc time' parent = Some x' /\ x' <= x.
Proof.
  intros Hn Ht Hd Hpos Hmin time Htime.
  destruct (CalcDifficulty_adjusted _ _ _ _ Hn Ht Hd Hpos) as (p & f & Hcalc & Hf & Hp).
  exists (adjusted d (f (time - t)) p). destruct (Hf (time - t) (time - t)) as [Hr _]; [lia..|].
  pose proof (adjusted_bounds d _ p Hmin Hr) as (H1 & H2 & H3). pose proof (bomb_size_mono _ _ Hp).
  split; [apply Hcalc|]. split; [done|]. split; [lia|]. intros time' Hle. eexists. split; [apply Hcalc|].
  apply adjusted_mono; [done|]. apply Hf; lia.
Qed.
End Difficulty.

(** * Headers *)
Lemma fail_if_ok b e : fail_if b e = Ok tt -> b = false.
Proof. by destruct b. Qed.

Lemma gas_distance_abs x y :
  0 <= x <= 2 ^ 63 - 1 -> 0 <= y <= 2 ^ 63 - 1 -> gas_distance x y = Z.abs (x - y).
Proof.
  intros Hx Hy. unfold gas_distance, to_int64, u64.
  rewrite (proj2 (Z.ltb_lt x (2 ^ 63))), (proj2 (Z.ltb_lt y (2 ^ 63))) by lia.
  destruct (Z.le_gt_cases y x).
  - rewrite (Z.mod_small (x - y)) by lia. rewrite (proj2 (Z.ltb_lt (x - y) (2 ^ 63))) by lia.
    rewrite (proj2 (Z.ltb_ge (x - y) 0)) by lia. rewrite Z.mod_small; lia.
  - rewrite <-(Z.mod_add (x - y) 1), Z.mul_1_l by done. rewrite (Z.mod_small (x - y + 2 ^ 64)) by lia.
    rewrite (proj2 (Z.ltb_ge (x - y + 2 ^ 64) (2 ^ 63))) by lia.
    rewrite (proj2 (Z.ltb_lt (x - y + 2 ^ 64 - 2 ^ 64) 0)) by lia. rewrite Z.mod_small; lia.
Qed.

(** One step of [verifyHeader] that went through. *)
Ltac take_step H :=
  match type of H with
  | rbind (fail_if ?b ?e) _ = _ => let E := fresh "E" in destruct b eqn:E; [discriminate H|]; cbn [fail_if rbind] in H
  | rbind (or_panic ?m) _ = _ =>
      let x := fresh "x" in let E := fresh "E" in destruct m as [x|] eqn:E; [|discriminate H]; cbn [or_panic rbind] in H
  end.

(** What a header that follows [parent] satisfies. *)
Record follows (parent h : Header) : Prop := {
  follows_number : exists n, Number parent = Some n /\ Number h = Some (n + 1);
  follows_time : exists t t', Time parent = Some t /\ Time h = Some t' /\ t < t';
  follows_gas : Z.abs (GasLimit parent - GasLimit h) < GasLimit parent / GasLimitBoundDivisor }.

(** What every header of the chain satisfies. *)
Record header_ok (h : Header) : Prop := {
  header_number : exists n, Number h = Some n /\ 0 <= n;
  header_difficulty : exists d, Difficulty h = Some d /\ MinimumDifficulty <= d;
  header_limit : MinGasLimit <= GasLimit h <= 2 ^ 63 - 1;
  header_used : GasUsed h <= GasLimit h }.

Section Headers.
Context (config : ChainConfig) (EIP150Hash EmptyUncleHash now : Z) (Hash : Header -> Z) (hashimoto : Header -> Z * Z).
#[local] Abbreviation verify := (verifyHeader config EIP150Hash EmptyUncleHash now Hash hashimoto).

Lemma verifyHeader_follows h parent uncle seal :
  header_ok parent -> 0 <= GasLimit h -> verify h parent uncle seal = Ok tt ->
  follows parent h /\ header_ok h /\ (seal = true -> exists d, Difficulty h = Some d /\ VerifySeal hashimoto d h = None).
Proof.
  intros [(pn & Hpn & Hpos) (pd & Hpd & Hmin) Hlim Hused] Hg H.
  pose proof (fun t Ht => CalcDifficulty_adjusted config EmptyUncleHash parent pn t pd Hpn Ht Hpd Hpos) as Hcalc.
  unfold verifyHeader in H.
  do 2 take_step H. apply rbind_ok in H as ([] & _ & H). do 11 take_step H.
  apply rbind_ok in H as ([] & Hseal & _). simp_bool.
  edestruct Hcalc as (p & f & Hcalc' & _ & _); [reflexivity|]. rewrite Hcalc' in *. simplify_eq. rewrite gas_distance_abs in * by (unfold MinGasLimit in *; lia).
  split; [|split].
  - split; [|by eauto 10|done]. exists pn. split; [done|]. etrans; [eassumption|]. f_equal. lia.
  - split; [eexists; split; [eassumption|lia]|eexists; split; [eassumption|]|lia|lia].
    pose proof (bomb_size_nonneg p). unfold adjusted in *. lia.
  - intros ->. destruct (VerifySeal hashimoto _ h) eqn:E'; [discriminate Hseal|]. eauto.
Qed.

Context (GetHeader : Z -> Z -> option Header).
#[local] Abbreviation worker := (verifyHeaderWorker config EIP150Hash EmptyUncleHash now Hash hashimoto GetHeader).

(** The header that the one at [i] must follow. *)
Definition predecessor (parent : Header) (headers : list Header) (i : nat) : option Header :=
  match i with O => Some parent | S j => headers !! j end.

Definition unknown (h : Header) : Prop := forall n, Number h = Some n -> GetHeader (Hash h) (Uint64 n) = None.

(** [parent] is the header the reader has for the first of [headers]. *)
Definition first_parent (parent : Header) (headers : list Header) : Prop :=
  forall h n, headers !! 0%nat = Some h -> Number h = Some n -> GetHeader (ParentHash h) (u64 (Uint64 n - 1)) = Some parent.

Lemma worker_step parent headers seals i h prev :
  first_parent parent headers -> headers !! i = Some h -> predecessor parent headers i = Some prev -> unknown h ->
  worker headers seals i = Ok tt ->
  exists seal, seals !! i = Some seal /\ verify h prev false seal = Ok tt /\ (i <> 0%nat -> Hash prev = ParentHash h).
Proof.
  intros Hfirst Hh Hprev Hunk. unfold verifyHeaderWorker. rewrite Hh. cbn [or_panic rbind]. intros Hw.
  assert (exists p, worker_parent Hash GetHeader headers i h = Ok (Some p)) as [p Ep].
  { destruct (worker_parent _ _ _ _ _) as [[p|]| |]; try discriminate Hw. eauto. }
  rewrite Ep in Hw. cbn [rbind] in Hw. apply rbind_ok in Hw as (number & En & Hw). unfold number_of, rmap in En.
  apply rbind_ok in En as (n & En & [= <-]). apply or_panic_ok in En.
  rewrite (Hunk n En), bool_decide_false in Hw by (intros [? ?]; done). take_step Hw. eexists. split; [reflexivity|].
  unfold worker_parent in Ep. destruct i as [|j]; cbn [predecessor] in Hprev.
  - injection Hprev as ->. unfold number_of, rmap in Ep. rewrite En in Ep. cbn in Ep.
    rewrite (Hfirst h n Hh En) in Ep. injection Ep as ->. done.
  - rewrite Hprev in Ep. cbn in Ep. injection Ep as Ep. case_if_in Ep; [|done]. injection Ep as ->. simp_bool. done.
Qed.

(** C28: a batch of headers that the workers of [VerifyHeaders] accept, on top
    of a good header, is a chain: each header is linked by hash to the one
    before it, has the next number, a later time and a gas limit close to its
    predecessor's, and is itself good; so the [i]-th one has number
    [pn + 1 + i] and a time of at least [pt + 1 + i], and its seal meets its
    difficulty where the seal is checked. *)
Theorem verified_batch parent headers seals pn pt :
  header_ok parent -> Number parent = Some pn -> Time parent = Some pt -> first_parent parent headers ->
  Forall (fun h => unknown h /\ 0 <= GasLimit h) headers ->
  (forall i, (i < length headers)%nat -> worker headers seals i = Ok tt) ->
  forall i h, headers !! i = Some h ->
    header_ok h /\ Number h = Some (pn + 1 + Z.of_nat i) /\ (exists t, Time h = Some t /\ pt + 1 + Z.of_nat i <= t) /\
    (exists prev, predecessor parent headers i = Some prev /\ follows prev h /\ (i <> 0%nat -> Hash prev = ParentHash h)) /\
    (seals !! i = Some true -> exists d, Difficulty h = Some d /\ VerifySeal hashimoto d h = None).
Proof.
  intros Hp Hpn Hpt Hfirst Hall Hw i. induction i as [|i IH]; intros h Hh.
  all: pose proof (Hw _ (lookup_lt_Some _ _ _ Hh)) as Hok; destruct (proj1 (Forall_lookup _ _) Hall _ _ Hh) as [Hunk Hg].
  - destruct (worker_step _ _ _ _ _ parent Hfirst Hh eq_refl Hunk Hok) as (seal & Es & Hv & Hhash).
    destruct (verifyHeader_follows _ _ _ _ Hp Hg Hv) as (Hf & Hgood & Hseal).
    destruct (follows_number _ _ Hf) as (n & E1 & E2), (follows_time _ _ Hf) as (t & t' & E3 & E4 & Hlt). simplify_eq.
    split_and!; [done|rewrite E2; f_equal; lia|exists t'; split; [done|lia]|exists parent; done|].
    rewrite Es. intros [= ->]. by apply Hseal.
  - destruct (lookup_lt_is_Some_2 headers i) as [prev Eprev]; [pose proof (lookup_lt_Some _ _ _ Hh); lia|].
    destruct (IH _ Eprev) as (Hprev & Hn & (tp & Htp & Hle) & _).
    destruct (worker_step _ _ _ (S i) _ prev Hfirst Hh Eprev Hunk Hok) as (seal & Es & Hv & Hhash).
    destruct (verifyHeader_follows _ _ _ _ Hprev Hg Hv) as (Hf & Hgood & Hseal).
    destruct (follows_number _ _ Hf) as (n & E1 & E2), (follows_time _ _ Hf) as (t & t' & E3 & E4 & Hlt). simplify_eq.
    split_and!; [done|rewrite E2; f_equal; lia|exists t'; split; [done|lia]|exists prev; done|].
    rewrite Es. intros [= ->]. by apply Hseal.
Qed.
End Headers.

(** * Uncles *)
Section Uncles.
Context (config : ChainConfig) (EIP150Hash EmptyUncleHash now : Z) (Hash : Header -> Z) (hashimoto : Header -> Z * Z).
Context (GetBlock : Z -> Z -> option EBlock).
#[local] Abbreviation verify := (verifyHeader config EIP150Hash EmptyUncleHash now Hash hashimoto).
#[local] Abbreviation checked := (check_uncles config EIP150Hash EmptyUncleHash now Hash hashimoto).

(** The reader gives a block by its hash and number; numbers fit [int64]. *)
Definition reader_ok : Prop :=
  forall hash m b, GetBlock hash m = Some b ->
    Hash (block_header b) = hash /\ Number (block_header b) = Some m /\ 0 <= m < 2 ^ 63.

Lemma verifyHeader_number h parent uncle seal :
  verify h parent uncle seal = Ok tt -> exists n, Number parent = Some n /\ Number h = Some (n + 1).
Proof.
  intros H. unfold verifyHeader in H. do 2 take_step H. apply rbind_ok in H as ([] & _ & H). do 11 take_step H.
  simp_bool. eexists. split; [reflexivity|]. f_equal. lia.
Qed.

(** The ancestors that the loop collects: the [i]-th has the number [number - i],
    and the first one is [parent]. *)
Lemma collect_ancestors_numbers k : forall parent number us anc key h,
  reader_ok -> 0 <= number < 2 ^ 64 -> (collect_ancestors Hash GetBlock k parent number us anc).2 !! key = Some h ->
  anc !! key = Some h \/
  exists i, 0 <= i < Z.of_nat k /\ Number h = Some (number - i) /\ 0 <= number - i /\ number < 2 ^ 63 /\ (i = 0 -> key = parent).
Proof.
  induction k as [|k IH]; intros parent number us anc key h Hr Hn H; cbn [collect_ancestors] in H; [by left|].
  destruct (GetBlock parent number) as [a|] eqn:Ea; [|by left]. destruct (Hr _ _ _ Ea) as (Eh & En & Hm).
  apply IH in H as [H|(i & Hi & Hh & Hpos & Hlt & Hkey)]; [| |done|apply Z.mod_pos_bound; lia].
  - rewrite Eh in H. destruct (decide (key = parent)) as [->|Hne].
    + rewrite lookup_insert_eq in H. injection H as <-. right. exists 0. rewrite Z.sub_0_r. split_and!; try done; lia.
    + rewrite lookup_insert_ne in H by done. by left.
  - right. unfold u64 in *. destruct (decide (number = 0)) as [->|Hne]; [done|].
    rewrite Z.mod_small in Hh, Hpos, Hlt by lia.
    exists (i + 1). split_and!; [lia|lia|rewrite Hh; f_equal; lia|lia|lia|lia].
Qed.

(** What [check_uncles] makes sure of. *)
Lemma check_uncles_ok parentHash l : forall us anc,
  checked parentHash us anc l = Ok tt ->
  NoDup (Hash <$> l) /\
  Forall (fun u => (Hash u ∉ us) /\ ParentHash u <> parentHash /\
    exists p n, anc !! ParentHash u = Some p /\ Number p = Some n /\ Number u = Some (n + 1)) l.
Proof.
  induction l as [|u l IH]; intros us anc H; cbn [check_uncles] in H; [repeat constructor|].
  case_bool_decide as Hin; [discriminate H|]. case_bool_decide; [discriminate H|].
  destruct (anc !! ParentHash u) as [p|] eqn:Ep; [|discriminate H].
  destruct (Z.eqb_spec (ParentHash u) parentHash); [discriminate H|]. apply rbind_ok in H as ([] & Hv & H).
  destruct (verifyHeader_number _ _ _ _ Hv) as (n' & Hn & Hu). destruct (IH _ _ H) as [Hnd Hall]. split.
  - rewrite fmap_cons. apply list.NoDup_cons. split; [|done]. intros (v & Ev & Hvl)%list_elem_of_fmap.
    pose proof (proj1 (proj1 (list.Forall_forall _ _) Hall v Hvl)) as Hout. rewrite <-Ev in Hout. set_solver.
  - constructor; [by eauto 10|]. eapply List.Forall_impl; [|exact Hall]. intros v (Hout & Hrest). set_solver.
Qed.

(** An accepted uncle is one to six blocks older than the block. *)
Lemma VerifyUncles_ok b n :
  reader_ok -> Number (block_header b) = Some n -> 0 <= n < 2 ^ 64 ->
  Forall (fun u => ParentHash u <> Hash (block_header b)) (block_uncles b) ->
  VerifyUncles config EIP150Hash EmptyUncleHash now Hash hashimoto false GetBlock b = Ok tt ->
  zlen (block_uncles b) <= maxUncles /\ NoDup (Hash <$> block_uncles b) /\
  Forall (fun u => exists m, Number u = Some m /\ n - 6 <= m <= n - 1) (block_uncles b).
Proof.
  intros Hr Hn Hrange Hself H. unfold VerifyUncles in H.
  destruct (Z.ltb_spec maxUncles (zlen (block_uncles b))); [discriminate H|]. split; [done|].
  apply rbind_ok in H as (number & En & H). unfold number_of in En. rewrite Hn in En. injection En as <-.
  assert (Uint64 n = n) as En by (unfold Uint64; rewrite Z.abs_eq, Z.mod_small; lia). rewrite En in H.
  destruct (collect_ancestors Hash GetBlock 7 _ _ ∅ ∅) as [us anc] eqn:Ec.
  destruct (check_uncles_ok _ _ _ _ H) as [Hnd Hall]. split; [done|].
  apply list.Forall_forall. intros u Hu. destruct (proj1 (list.Forall_forall _ _) Hall u Hu) as (_ & Hne & p & m & Hp & Hm & Hum).
  rewrite lookup_insert_ne in Hp by (apply not_eq_sym; by apply (proj1 (list.Forall_forall _ _) Hself)).
  assert (0 <= u64 (n - 1) < 2 ^ 64) as Hu64 by (apply Z.mod_pos_bound; lia).
  destruct (collect_ancestors_numbers 7 (ParentHash (block_header b)) (u64 (n - 1)) ∅ ∅ (ParentHash u) p Hr Hu64)
    as [Habs|(i & Hi & Hpi & Hpos & Hlt & Hkey)]; [by rewrite Ec| |].
  { by rewrite lookup_empty in Habs. }
  assert (i <> 0) by tauto. unfold u64 in *. destruct (decide (n = 0)) as [->|]; [done|].
  rewrite Z.mod_small in Hpi by lia. exists (m + 1). split; [done|]. simplify_eq. lia.
Qed.
End Uncles.

(** * Rewards *)
Section Minting.
Context {K : Type} `{HashFn K} (config : ChainConfig).
Implicit Types (s t : State K).

(** The money that the uncles and their inclusion add. *)
Definition uncle_minted (R n : Z) (u : Header) : Z :=
  match Number u with Some m => uncle_reward R n m + R / 32 | None => 0 end.

Definition minted (R n : Z) (uncles : list Header) : Z := R + foldr Z.add 0 (uncle_minted R n <$> uncles).

Definition recent (n : Z) (u : Header) : Prop := exists m, Number u = Some m /\ n - 6 <= m <= n - 1.

Lemma block_reward_cases n : exists k, 0 < k /\ block_reward config n = 32 * k.
Proof. exists (block_reward config n / 32). unfold block_reward. repeat case_if; split; by_compute. Qed.

Lemma uncle_reward_bounds R n m k :
  R = 32 * k -> 0 < k -> n - 6 <= m <= n - 1 -> R / 4 <= uncle_reward R n m <= 7 * R / 8.
Proof.
  intros -> Hk Hm. unfold uncle_reward.
  replace (7 * (32 * k)) with (28 * k * 8) by lia. replace ((m + 8 - n) * (32 * k)) with ((m + 8 - n) * 4 * k * 8) by lia.
  replace (32 * k) with (8 * k * 4) by lia. rewrite !Z.div_mul by done. nia.
Qed.

Lemma AddBalance_supply a x s :
  state_ok s -> 0 <= x -> state_ok (AddBalance a x s) /\ total_supply (AddBalance a x s) = total_supply s + x.
Proof.
  intros Hs Hx. pose proof (GetBalance_nonneg s a Hs). assert (0 <= GetBalance s a + x) as Hsum by lia.
  pose proof (AddBalance_updates a x s Hs Hsum) as Hu. split; [apply Hu|]. rewrite (updates_supply _ _ _ _ Hu). lia.
Qed.

Lemma uncle_rewards_supply R n k uncles : forall reward s,
  R = 32 * k -> 0 < k -> Forall (recent n) uncles -> state_ok s ->
  exists s', uncle_rewards R n uncles reward s = Some (reward + zlen uncles * (R / 32), s') /\ state_ok s' /\
    total_supply s' + zlen uncles * (R / 32) = total_supply s + foldr Z.add 0 (uncle_minted R n <$> uncles).
Proof.
  induction uncles as [|u l IH]; intros reward s HR Hk Hall Hs; cbn [uncle_rewards].
  { exists s. cbn. rewrite !Z.add_0_r. done. }
  inversion_clear Hall as [|? ? (m & Hm & Hb) Hl]. rewrite Hm.
  pose proof (uncle_reward_bounds R n m k HR Hk Hb) as Hr. pose proof (Z.div_pos R 4).
  destruct (AddBalance_supply (Coinbase u) (uncle_reward R n m) s Hs) as [Hs' Hsup]; [lia|].
  destruct (IH (reward + R / 32) _ HR Hk Hl Hs') as (s' & -> & Hok & Hsum). exists s'. rewrite zlen_cons.
  split; [f_equal; f_equal; lia|]. split; [done|]. cbn [fmap list_fmap foldr]. unfold uncle_minted at 1. rewrite Hm. lia.
Qed.

Lemma minted_bounds R n k uncles :
  R = 32 * k -> 0 < k -> Forall (recent n) uncles ->
  R + zlen uncles * (R / 4 + R / 32) <= minted R n uncles <= R + zlen uncles * (7 * R / 8 + R / 32).
Proof.
  intros HR Hk Hall. unfold minted. induction Hall as [|u l (m & Hm & Hb) _ IH]; [rewrite !(@zlen_nil Header); cbn [fmap list_fmap foldr]; lia|].
  pose proof (uncle_reward_bounds R n m k HR Hk Hb) as Hr.
  assert (uncle_minted R n u = uncle_reward R n m + R / 32) as Hu by (unfold uncle_minted; by rewrite Hm).
  rewrite zlen_cons. cbn [fmap list_fmap foldr]. change (list_fmap _ _ ?f ?l) with (f <$> l). rewrite Hu.
  rewrite !Z.mul_add_distr_r in *. lia.
Qed.

(** The rewards of a block with recent uncles. *)
Lemma accumulateRewards_supply h uncles n s :
  Number h = Some n -> Forall (recent n) uncles -> state_ok s ->
  let R := block_reward config n in
  exists s', accumulateRewards config h uncles s = Some s' /\ state_ok s' /\ total_supply s' = total_supply s + minted R n uncles /\
    R + zlen uncles * (R / 4 + R / 32) <= minted R n uncles <= R + zlen uncles * (7 * R / 8 + R / 32).
Proof.
  intros Hn Hall Hs R. destruct (block_reward_cases n) as (k & Hk & HR). fold R in HR.
  destruct (uncle_rewards_supply R n k uncles R s HR Hk Hall Hs) as (s1 & E & Hs1 & Hsum).
  unfold accumulateRewards. rewrite Hn. fold R. rewrite E. eexists. split; [reflexivity|].
  pose proof (Z.div_pos R 32). pose proof (zlen_nonneg uncles).
  destruct (AddBalance_supply (Coinbase h) (R + zlen uncles * (R / 32)) s1 Hs1) as [Hs2 Hsup]; [nia|].
  split; [done|]. split; [unfold minted; lia|]. by apply minted_bounds with k.
Qed.

(** C16: a block whose uncles [VerifyUncles] accepts has at most two of them,
    all different, and [accumulateRewards] then adds to the total supply the
    block's reward and, for each uncle, between 1/4 and 7/8 of it plus 1/32 for
    the inclusion: never less and never more.  The
    reader is asked for blocks by hash and number, and no uncle is a child of
    the block itself, whose hash covers its uncles. *)
Theorem rewards_mint EIP150Hash EmptyUncleHash now BlockHash hashimoto GetBlock b n s :
  reader_ok BlockHash GetBlock -> Number (block_header b) = Some n -> 0 <= n < 2 ^ 64 ->
  Forall (fun u => ParentHash u <> BlockHash (block_header b)) (block_uncles b) ->
  VerifyUncles config EIP150Hash EmptyUncleHash now BlockHash hashimoto false GetBlock b = Ok tt -> state_ok s ->
  let R := block_reward config n in
  zlen (block_uncles b) <= 2 /\ NoDup (BlockHash <$> block_uncles b) /\
  exists s', accumulateRewards config (block_header b) (block_uncles b) s = Some s' /\ state_ok s' /\
    total_supply s' = total_supply s + minted R n (block_uncles b) /\
    R + zlen (block_uncles b) * (R / 4 + R / 32) <= minted R n (block_uncles b)
      <= R + zlen (block_uncles b) * (7 * R / 8 + R / 32).
Proof.
  intros Hr Hn Hrange Hself Hok Hs R. destruct (VerifyUncles_ok _ _ _ _ _ _ _ b n Hr Hn Hrange Hself Hok) as (Hlen & Hnd & Hall).
  split; [done|]. split; [done|]. by apply accumulateRewards_supply.
Qed.

(** * The DAO fork *)
Lemma SetBalance_updates a x s : state_ok s -> 0 <= x -> updates a x s (SetBalance a x s).
Proof.
  intros Hs Hx. pose proof (SetBalance_undoable a x s (wf_objects _ (proj1 (ok_sound _ Hs)))) as Hu.
  unfold SetBalance in *. destruct (GetOrNewStateObject a s) as [o s1] eqn:E. by apply objSetBalance_updates.
Qed.

Lemma drain_account_moves refund addr s :
  state_ok s -> addr <> refund ->
  state_ok (drain_account refund s addr) /\
  forall a, GetBalance (drain_account refund s addr) a =
    if decide (a = addr) then 0 else if decide (a = refund) then GetBalance s refund + GetBalance s addr else GetBalance s a.
Proof.
  intros Hs Hne. unfold drain_account. pose proof (GetBalance_nonneg s refund Hs) as Hb0. pose proof (GetBalance_nonneg s addr Hs) as Hb1.
  destruct (AddBalance_updates refund (GetBalance s addr) s Hs) as (Hs1 & H2 & H3); [lia|].
  destruct (SetBalance_updates addr 0 _ Hs1) as (H4 & H5 & H6); [done|]. split; [done|]. intros a.
  destruct (decide (a = addr)) as [->|]; [done|]. rewrite H6 by done.
  destruct (decide (a = refund)) as [->|]; [done|]. by apply H3.
Qed.

Lemma drain_account_supply refund addr s :
  state_ok s -> addr <> refund -> total_supply (drain_account refund s addr) = total_supply s.
Proof.
  intros Hs Hne. unfold drain_account. pose proof (GetBalance_nonneg s refund Hs) as Hb0. pose proof (GetBalance_nonneg s addr Hs) as Hb1.
  destruct (AddBalance_supply refund (GetBalance s addr) s Hs) as [Hs1 Hsup]; [done|].
  destruct (AddBalance_updates refund (GetBalance s addr) s Hs) as (_ & _ & H3); [lia|].
  rewrite (updates_supply addr 0 _ _ (SetBalance_updates addr 0 _ Hs1 ltac:(done))), Hsup, H3 by done. lia.
Qed.

Lemma drain_all refund drain : forall s,
  state_ok s -> refund ∉ drain ->
  let t := foldl (drain_account refund) s drain in
  state_ok t /\ total_supply t = total_supply s /\
  (forall a, a ∈ drain -> GetBalance t a = 0) /\
  (forall a, a ∉ drain -> a <> refund -> GetBalance t a = GetBalance s a).
Proof.
  induction drain as [|x l IH] using rev_ind; intros s Hs Hout; [set_solver|].
  rewrite foldl_snoc. destruct (IH s Hs) as (Ht & Hsup & Hz & Hsame); [set_solver|]. cbn zeta in *.
  set (t := foldl _ s l) in *. destruct (drain_account_moves refund x t Ht) as [Hok Hbal]; [set_solver|].
  split; [done|]. split; [rewrite drain_account_supply by set_solver; done|]. split; intros a Ha.
  - rewrite Hbal. destruct (decide (a = x)); [done|]. rewrite decide_False by set_solver. apply Hz. set_solver.
  - intros Hne. rewrite Hbal, !decide_False by set_solver. apply Hsame; set_solver.
Qed.

Lemma ApplyDAOHardFork_ok refund drain s :
  state_ok s -> refund ∉ drain ->
  let t := ApplyDAOHardFork refund drain s in
  state_ok t /\ total_supply t = total_supply s /\
  (forall a, a ∈ drain -> GetBalance t a = 0) /\
  (forall a, a ∉ drain -> a <> refund -> GetBalance t a = GetBalance s a).
Proof.
  intros Hs Hout. unfold ApplyDAOHardFork. case_if; [by apply drain_all|].
  destruct (CreateAccount_updates refund s Hs) as (Hs1 & Hb & Hrest).
  pose proof (updates_supply _ _ _ _ (CreateAccount_updates refund s Hs)) as Hsup.
  destruct (drain_all refund drain _ Hs1 Hout) as (Ht & Hsup' & Hz & Hsame). cbn zeta in *.
  split; [done|]. split; [lia|]. split; [done|]. intros a Ha Hne. rewrite Hsame by done. by apply Hrest.
Qed.

(** The irregular state change of the DAO fork creates no money and
    destroys none: every drained account ends with nothing, every account other
    than those and the refund contract keeps its balance, and the total supply
    is the same, so the refund contract has all the money that was drained. *)
Theorem dao_fork_moves refund drain s :
  state_ok s -> refund ∉ drain ->
  let t := ApplyDAOHardFork refund drain s in
  state_ok t /\ total_supply t = total_supply s /\
  (forall a, a ∈ drain -> GetBalance t a = 0) /\
  (forall a, a ∉ drain -> a <> refund -> GetBalance t a = GetBalance s a).
Proof. apply ApplyDAOHardFork_ok. Qed.
End Minting.

(** * Examples

    A header is named by its [Root] here; the seal of every header is right. *)
Definition example_config : ChainConfig := mkChainConfig (Some 1) None None false None None None None None None.
Definition example_hash (h : Header) : Z := Root h.
Definition example_hashimoto (h : Header) : Z * Z := (MixDigest h, 7).

Definition example_header (parent name number time : Z) : Header :=
  mkHeader parent 0 name name 0 0 0 (Some 131072) (Some number) 5000 0 (Some time) [] 0 [].

Definition header8 : Header := example_header 7 8 8 100.
Definition header9 : Header := example_header 8 9 9 120.
Definition header10 : Header := example_header 9 10 10 140.
Definition uncle9 : Header := example_header 8 99 9 113.

Definition example_GetHeader (hash number : Z) : option Header := if (hash =? 8) && (number =? 8) then Some header8 else None.
Definition example_GetBlock (hash number : Z) : option EBlock :=
  if (hash =? 8) && (number =? 8) then Some (mkBlock header8 [])
  else if (hash =? 9) && (number =? 9) then Some (mkBlock header9 []) else None.

Lemma example_reader_ok : reader_ok example_hash example_GetBlock.
Proof.
  intros hash m b. unfold example_GetBlock. repeat case_if; intros [= <-]; simp_bool; subst; by_decide.
Qed.

Lemma header8_ok : header_ok header8.
Proof. split; [exists 8|exists 131072|..]; by_decide. Qed.

Lemma difficulty_bounds_witness :
  exists x, CalcDifficulty example_config 0 120 header8 = Some x /\ MinimumDifficulty <= x.
Proof.
  destruct (difficulty_bounds example_config 0 header8 8 100 131072 eq_refl eq_refl eq_refl ltac:(lia) ltac:(by_decide) 120
    ltac:(lia)) as (x & H1 & H2 & _). by exists x.
Defined.

Lemma verified_batch_witness : header_ok header10 /\ Number header10 = Some 10.
Proof.
  destruct (verified_batch example_config 0 0 1000 example_hash example_hashimoto example_GetHeader header8
    [header9; header10] [true; true] 8 100 header8_ok eq_refl eq_refl) with (i := 1%nat) (h := header10) as (H1 & H2 & _).
  - intros h n [= <-] [= <-]. reflexivity.
  - repeat constructor; try by_decide; intros n [= <-]; reflexivity.
  - intros [|[|i]] Hi; [by_compute|by_compute|cbn in Hi; lia].
  - reflexivity.
  - by split.
Defined.

#[local] Existing Instance bytes_hash.

(** Frontier's block with an uncle of the generation before mints 5, 7/8 of 5
    and 1/32 of 5 ether. *)
Lemma rewards_mint_witness :
  exists s', accumulateRewards example_config header10 [uncle9] (New (Hash := bytes) ∅ ∅) = Some s' /\
    total_supply s' = 5 * 10 ^ 18 + 35 * 10 ^ 18 / 8 + 5 * 10 ^ 18 / 32.
Proof.
  destruct (rewards_mint (K := bytes) example_config 0 0 1000 example_hash example_hashimoto example_GetBlock
    (mkBlock header10 [uncle9]) 10 (New ∅ ∅) example_reader_ok eq_refl ltac:(lia)) as (_ & _ & s' & H1 & _ & H2 & _).
  - repeat constructor. done.
  - by_compute.
  - apply New_state_ok.
  - exists s'. split; [exact H1|]. rewrite H2. by_compute.
Defined.

Lemma dao_fork_moves_witness :
  let t := ApplyDAOHardFork 5 [1; 2] (AddBalance 2 30 (AddBalance 1 20 (New (Hash := bytes) ∅ ∅))) in
  GetBalance t 1 = 0 /\ GetBalance t 5 = 50 /\ total_supply t = 50.
Proof.
  pose proof (AddBalance_supply 1 20 _ (New_state_ok (Hash := bytes)) ltac:(lia)) as [H1 S1].
  pose proof (AddBalance_supply 2 30 _ H1 ltac:(lia)) as [H2 S2].
  destruct (dao_fork_moves 5 [1; 2] _ H2 ltac:(by_decide)) as (_ & H3 & H4 & _).
  split; [by apply H4; left|]. split; [by_compute|]. rewrite H3, S2, S1. by_compute.
Defined.
