(* ===== verification/EvmSupply.v ===== *)
(** The virtual machine on the state database of core/state: its frames keep their
    types, a call or creation from an account ends without panic, and ether is
    moved but not made. *)

From stdpp Require Import gmap.
From S2P Require Import Prelude GoMath Params EvmCode EvmMemory EvmState EvmInstr EvmGas EvmAddress EvmInterp EvmLogic EvmGasBound EvmTermination EvmWorldRel EvmRevert EvmStatic EvmArith EvmTyped EvmTypedOps EvmTypedCalls EvmSafe EvmTypeSafety StateObject StateDBModel StateDBCorrect StateDBSnapshot StateDBOps EvmStateDB StateDBLedger EvmContracts EvmContractsCorrect.

Section Supply.
Context {Hash : Type} `{HashFn Hash}.
Hypothesis HashBig_word : forall h : Hash, is_word (HashBig h).
Hypothesis Keccak_inj : forall b b' : bytes, Keccak256 (Hash := Hash) b = Keccak256 b' -> b = b'.
Variables (evm : EVM).
Hypothesis evm_ok : evm_typed evm.
Hypothesis not_constantinople : rConstantinople (chainRules evm) = false.
Variables PrecompiledContractsHomestead PrecompiledContractsByzantium : Precompiles.
Variable limit : Z.
Hypothesis precompiles_ok :
  precompiles_typed limit (precompiles evm PrecompiledContractsHomestead PrecompiledContractsByzantium).
Hypothesis limit_u64 : limit <= 2 ^ 64.

Abbreviation Run := (Run (Hash := Hash) (DB := State Hash) evm PrecompiledContractsHomestead PrecompiledContractsByzantium).
Abbreviation evm_call f := (f evm PrecompiledContractsHomestead PrecompiledContractsByzantium).

(** The machine that [NewEVM] makes for a transaction. *)
Definition new_world (d : State Hash) : World Hash (State Hash) := mkWorld d 0 ∅ [].

Lemma new_world_good d : state_typed d -> world_good (new_world d) (new_world d).
Proof.
  intros Hd. split; cbn; [done|lia|by unfold follows; reflexivity|by_decide|apply small_nil|].
  intros h bits E. by rewrite lookup_empty in E.
Qed.

(** C7: type safety of one round of the interpreter, before Constantinople, with
    less than [limit] gas and precompiled contracts that do not panic below
    [limit] (those of the repository do not below 2^44), with a hash of codes
    without collisions and fuel for the gas. A frame whose stack holds words,
    whose memory holds bytes, whose code analyses belong to their codes and
    whose world is typed does not panic then: it goes on with such a frame, at
    most 1024 words on its stack and less gas, or ends with bytes or an error. *)
Theorem step_preserves_types fuel (c : Contract Hash) depth readOnly w0 (s : Frame Hash (State Hash)) :
  contract_typed c -> good c w0 s -> gas s < limit -> gas s <= Z.of_nat fuel ->
  match evm_call step (Run fuel) depth readOnly c s with
  | (Ret None, s') => good c w0 s' /\ zlen (stack s') <= StackLimit /\ gas s' < gas s
  | (Ret (Some (b, _)), s') => small_bytes b /\ world_good w0 (world s')
  | (Fail _, s') => world_good w0 (world s')
  | (Panicked, _) | (OutOfFuel, _) => False
  end.
Proof.
  intros Hc Hg Hl Hf. pose proof (good_gas _ _ _ Hg) as Hu. unfold is_u64 in Hu.
  pose proof (step_post evm PrecompiledContractsHomestead PrecompiledContractsByzantium (Run fuel) depth readOnly c s Hu
    (fun c input static d ro g w Hg => Run_bounded evm _ _ limit limit_u64 fuel c input static d ro g w ltac:(lia) ltac:(lia))) as Hp.
  pose proof (step_typed HashBig_word Keccak_inj evm evm_ok not_constantinople _ _ (gas s)
    (precompiles_typed_mono _ _ _ (Z.lt_le_incl _ _ Hl) precompiles_ok) ltac:(lia) (Run fuel) depth readOnly c
    (fun c input static d ro g w Hc Hi Hg => Run_typed HashBig_word Keccak_inj evm evm_ok not_constantinople _ _ limit
       precompiles_ok limit_u64 fuel c input static d ro g w Hc Hi ltac:(lia) ltac:(lia)) Hc w0 s Hg ltac:(lia)) as Ht.
  unfold wp in Ht. destruct (step _ _ _ _ _ _ _ s) as [[[[b e]|]|e| |] s']; try done; [|by destruct Hp].
  destruct Ht as [Hg' Hst], Hp as [_ Hp]. split; [done|]. split; [done|lia].
Qed.

(** The interpreter with enough fuel for [g] gas, as the calls see it. *)
Lemma Run_typed_below fuel g :
  0 <= g < limit -> g < Z.of_nat fuel ->
  precompiles_typed (g + 1) (precompiles evm PrecompiledContractsHomestead PrecompiledContractsByzantium) /\
  (forall c input static depth ro g' w, contract_typed c -> small_bytes input -> 0 <= g' < g + 1 -> world_good w w ->
     run_typed w (Run fuel c input static depth ro g' w)) /\
  (forall c input static depth ro g' w, 0 <= g' < g + 1 -> bounded_run (Run fuel c input static depth ro g' w) g').
Proof.
  intros Hg Hf. split; [eapply precompiles_typed_mono; [|exact precompiles_ok]; lia|]. split; intros.
  - eapply Run_typed; try done; lia.
  - eapply Run_bounded; [exact limit_u64|lia|lia].
Qed.

(** A message call, and a creation, from an account. *)
Lemma Call_supply fuel depth readOnly caller addr input g value (d : State Hash) :
  state_typed d -> is_word caller -> is_word addr -> is_word value -> small_bytes input ->
  0 <= g < limit -> g < Z.of_nat fuel ->
  exists res leftOver err w',
    evm_call Call (Run fuel) depth readOnly (AccountRef caller) addr input g value (new_world d) =
      (Ret (res, leftOver, err), w') /\
    small_bytes res /\ 0 <= leftOver <= g /\ state_typed (db w') /\ total_supply (db w') <= total_supply d.
Proof.
  intros Hd Hca Ha Hv Hi Hg Hf. destruct (Run_typed_below fuel g Hg Hf) as (HP & HT & HB).
  pose proof (Call_typed evm _ _ (g + 1) HP (Run fuel) depth readOnly HT (AccountRef caller) addr input g value (new_world d)
    Hca Ha Hi ltac:(lia) Hv (new_world_good d Hd)) as Ht.
  pose proof (Call_bounded evm PrecompiledContractsHomestead PrecompiledContractsByzantium (Run fuel) depth readOnly (g + 1)
    HB (AccountRef caller) addr input g value (new_world d) ltac:(lia)) as [Hne Hb].
  unfold call_typed in Ht. destruct (Call _ _ _ _ _ _ _ _ _ _ _ _) as [[[[res left] err]|e| |] w']; try done.
  destruct Ht as [Hr Hw]. exists res, left, err, w'. split; [done|]. split; [done|]. split; [by eapply Hb|].
  split; [apply Hw|]. apply (good_supply _ _ Hw).
Qed.

Lemma Create_supply fuel depth readOnly caller code g value (d : State Hash) :
  state_typed d -> is_word caller -> is_word value -> small_bytes code -> 0 <= g < limit -> g < Z.of_nat fuel ->
  exists res address leftOver err w',
    evm_call Create (Run fuel) depth readOnly (AccountRef caller) code g value (new_world d) =
      (Ret (res, address, leftOver, err), w') /\
    small_bytes res /\ 0 <= leftOver <= g /\ state_typed (db w') /\ total_supply (db w') <= total_supply d.
Proof.
  intros Hd Hca Hv Hi Hg Hf. destruct (Run_typed_below fuel g Hg Hf) as (HP & HT & HB). unfold Create.
  set (address := CreateAddress _ _).
  pose proof (create_call_typed evm _ _ (g + 1) HP (Run fuel) depth readOnly HT (AccountRef caller) code EmptyHash g value
    address (new_world d) Hca Hi (or_introl eq_refl) ltac:(lia) Hv (CreateAddress_word _ _) (new_world_good d Hd)) as Ht.
  pose proof (create_bounded evm PrecompiledContractsHomestead PrecompiledContractsByzantium (Run fuel) depth readOnly (g + 1)
    HB (AccountRef caller) code EmptyHash g value address (new_world d) ltac:(lia)) as [Hne Hb].
  unfold create_typed in Ht. destruct (create _ _ _ _ _ _ _ _ _ _ _ _ _) as [[[[[res a] left] err]|e| |] w']; try done.
  destruct Ht as (Hr & _ & Hw). exists res, a, left, err, w'. split; [done|]. split; [done|]. split; [by eapply Hb|].
  split; [apply Hw|]. apply (good_supply _ _ Hw).
Qed.
End Supply.

(** * The precompiled contracts of the repository *)
Section Tables.
Context {Hash : Type} `{HashFn Hash} (C : Crypto) `{!CryptoLaws C}.
Hypothesis HashBig_word : forall h : Hash, is_word (HashBig h).
Hypothesis Keccak_inj : forall b b' : bytes, Keccak256 (Hash := Hash) b = Keccak256 b' -> b = b'.
Variables (evm : EVM).
Hypothesis evm_ok : evm_typed evm.
Hypothesis not_constantinople : rConstantinople (chainRules evm) = false.

Abbreviation real_call f := (f evm (PrecompiledContractsHomestead C) (PrecompiledContractsByzantium C)).
Abbreviation Run := (Run (Hash := Hash) (DB := State Hash) evm (PrecompiledContractsHomestead C) (PrecompiledContractsByzantium C)).

Lemma tables_typed :
  precompiles_typed precompile_limit (precompiles evm (PrecompiledContractsHomestead C) (PrecompiledContractsByzantium C)).
Proof. unfold precompiles. case_if; [by apply byzantium_precompiles_typed|by apply homestead_precompiles_typed]. Qed.

Lemma precompile_limit_u64 : precompile_limit <= 2 ^ 64.
Proof. unfold precompile_limit. lia. Qed.

(** C3: ether is conserved, before Constantinople and with the precompiled contracts
    of core/vm/contracts.go. A message call from an account, with any input,
    value and code behind it, and less than 2^44 gas, on a well-formed state
    with less than 2^256 ether, and with a hash of codes without collisions,
    returns within [g + 1] units of fuel; it does not panic, it gives back at
    most the gas it got, the state stays typed, and the balances of all accounts
    together are not more than before. The rest, ether that a contract destroyed
    with itself, is lost. *)
Theorem Call_conserves_supply fuel depth readOnly caller addr input g value (d : State Hash) :
  state_typed d -> is_word caller -> is_word addr -> is_word value -> small_bytes input ->
  0 <= g < precompile_limit -> g < Z.of_nat fuel ->
  exists res leftOver err w',
    real_call Call (Run fuel) depth readOnly (AccountRef caller) addr input g value (new_world d) =
      (Ret (res, leftOver, err), w') /\
    small_bytes res /\ 0 <= leftOver <= g /\ state_typed (db w') /\ total_supply (db w') <= total_supply d.
Proof. exact (Call_supply HashBig_word Keccak_inj evm evm_ok not_constantinople _ _ _ tables_typed precompile_limit_u64 _ _ _ _ _ _ _ _ _). Qed.

(** The same for the creation of a contract. *)
Theorem Create_conserves_supply fuel depth readOnly caller code g value (d : State Hash) :
  state_typed d -> is_word caller -> is_word value -> small_bytes code -> 0 <= g < precompile_limit -> g < Z.of_nat fuel ->
  exists res address leftOver err w',
    real_call Create (Run fuel) depth readOnly (AccountRef caller) code g value (new_world d) =
      (Ret (res, address, leftOver, err), w') /\
    small_bytes res /\ 0 <= leftOver <= g /\ state_typed (db w') /\ total_supply (db w') <= total_supply d.
Proof. exact (Create_supply HashBig_word Keccak_inj evm evm_ok not_constantinople _ _ _ tables_typed precompile_limit_u64 _ _ _ _ _ _ _ _). Qed.
End Tables.

(** * Transfers *)
Section Transfer.
Context {Hash : Type} `{HashFn Hash}.
Implicit Types d s : State Hash.

Lemma GetCode_val s t a : same_val s t -> GetCode t a = GetCode s a.
Proof.
  intros Hv. pose proof (val_object _ _ Hv a 0) as Ho. unfold GetCode.
  destruct (lookupObject s a), (lookupObject t a); cbn in Ho; congruence.
Qed.

Lemma GetCode_objSetBalance o x s b :
  lookupObject s (address o) = Some o -> deleted o = false -> GetCode (objSetBalance o x s) b = GetCode s b.
Proof.
  intros Hl Hd. unfold GetCode, objSetBalance. rewrite lookup_setStateObject, lookup_append.
  cbn [address deleted setBalance set_data]. rewrite Hd. cbn [codes setStateObject set_objects]. rewrite codes_append.
  destruct (Z.eqb_spec b (address o)) as [->|]; [by rewrite Hl|done].
Qed.

Lemma GetCode_touch o s b : GetCode (touch o s) b = GetCode s b.
Proof. pose proof (view_touch o s b 0) as Hv. rewrite !view_reads in Hv. by injection Hv. Qed.

Lemma GetCode_balance (a x : Z) s b :
  wf_objs s -> GetCode (AddBalance a x s) b = GetCode s b /\ GetCode (SubBalance a x s) b = GetCode s b.
Proof.
  intros Hwf. unfold AddBalance, SubBalance. destruct (GetOrNewStateObject a s) as [o s1] eqn:E.
  destruct (GetOrNew_undoable _ _ _ _ Hwf E) as (_ & _ & Hd & Hl). apply GetOrNew_val in E.
  rewrite <-(GetCode_val _ _ b E). unfold objAddBalance, objSubBalance. repeat case_if; split;
    auto using GetCode_touch, GetCode_objSetBalance.
Qed.

Lemma GetCode_new a s : Exist s a = false -> GetCode (CreateAccount a s) a = GetCode s a.
Proof. intros Ha. by apply GetCode_val, CreateAccount_val. Qed.

Variables (evm : EVM) (PrecompiledContractsHomestead PrecompiledContractsByzantium : Precompiles).
Abbreviation Run := (Run (Hash := Hash) (DB := State Hash) evm PrecompiledContractsHomestead PrecompiledContractsByzantium).

(** The state after the start of a call: balances as after the transfer, and the
    code of the account as before. *)
Lemma transfer_state caller addr value d :
  state_ok d -> 0 <= value <= GetBalance d caller -> caller <> addr ->
  let d1 := if negb (Exist d addr) then CreateAccount addr d else d in
  let d2 := Transfer (Hash := Hash) caller addr value d1 in
  GetCode d2 addr = GetCode d addr /\ GetBalance d2 caller = GetBalance d caller - value /\
  GetBalance d2 addr = GetBalance d addr + value /\
  forall b, b <> caller -> b <> addr -> GetBalance d2 b = GetBalance d b.
Proof.
  intros Hd Hv Hne d1 d2.
  assert (state_ok d1 /\ GetCode d1 addr = GetCode d addr /\ forall b, GetBalance d1 b = GetBalance d b) as (Hd1 & Hc1 & Hb1).
  { unfold d1. destruct (Exist d addr) eqn:Ex; cbn [negb]; [done|].
    destruct (CreateAccount_updates addr d Hd) as (Hok & Hb & Ho). split; [done|]. split; [by apply GetCode_new|].
    intros b. destruct (decide (b = addr)) as [->|]; auto. }
  destruct (SubBalance_updates caller value d1 Hd1 ltac:(rewrite Hb1; lia)) as (Hok2 & Hb2 & Ho2).
  destruct (AddBalance_updates addr value _ Hok2) as (Hok3 & Hb3 & Ho3).
  { pose proof (GetBalance_nonneg _ addr Hok2). lia. }
  change d2 with (AddBalance addr value (SubBalance caller value d1)).
  destruct (GetCode_balance addr value _ addr (wf_objects _ (proj1 (ok_sound _ Hok2)))) as [-> _].
  destruct (GetCode_balance caller value _ addr (wf_objects _ (proj1 (ok_sound _ Hd1)))) as [_ ->].
  split; [done|]. rewrite (Ho3 caller Hne), Hb2, Hb3, (Ho2 addr), !Hb1 by congruence. split; [done|]. split; [done|].
  intros b H1 H2. by rewrite Ho3, Ho2, Hb1.
Qed.

(** C32: a payment goes through. On a well-formed state let the balance of the
    caller cover the value, and let the receiver be another account that has no
    code and is not a precompiled contract; calls are not switched off and not
    nested deeper than 1024. Then the call returns no error and all its gas, and
    the value has moved from the caller to the receiver, all other balances
    untouched. *)
Theorem payment_succeeds fuel depth readOnly caller addr input g value d :
  state_typed d -> 0 <= value <= GetBalance d caller -> caller <> addr -> GetCode d addr = [] ->
  precompiles evm PrecompiledContractsHomestead PrecompiledContractsByzantium addr = None ->
  depth <= CallCreateDepth -> NoRecursion (vmConfig evm) = false ->
  exists w',
    Call evm PrecompiledContractsHomestead PrecompiledContractsByzantium (Run fuel) depth readOnly
      (AccountRef caller) addr input g value (new_world d) = (Ret ([], g, None), w') /\
    GetBalance (db w') caller = GetBalance d caller - value /\
    GetBalance (db w') addr = GetBalance d addr + value /\
    forall b, b <> caller -> b <> addr -> GetBalance (db w') b = GetBalance d b.
Proof.
  intros Hd Hv Hne Hcode Hpre Hdepth Hrec. unfold Call. rewrite Hrec, Hpre. cbn [andb].
  destruct (Z.ltb_spec CallCreateDepth depth); [lia|]. cbn [db new_world Address].
  replace (CanTransfer d caller value) with true by (symmetry; apply Z.leb_le; cbn; lia). cbn [negb].
  cbn [EvmState.Snapshot State_StateDB]. destruct (Snapshot d) as [id d0] eqn:Es.
  assert (d0 = (Snapshot d).2) as -> by by rewrite Es. clear Es.
  assert (forall a k, account_view (Snapshot d).2 a k = account_view d a k) as Hview by (intros; by apply view_rest).
  assert (forall a, GetBalance (Snapshot d).2 a = GetBalance d a) as Hbal by (intros; by apply view_balance).
  assert (GetCode (Snapshot d).2 addr = []) as Hcode'.
  { specialize (Hview addr 0). rewrite !view_reads in Hview. injection Hview as _ _ _ Hc _. by rewrite <-Hcode. }
  assert (state_ok (Snapshot d).2) as Hok by (split; [split; [apply wf_Snapshot|]; apply Hd|intros; rewrite Hview; apply Hd]).
  set (d0 := (Snapshot d).2) in *. cbn [EvmState.Exist State_StateDB].
  match goal with |- context [if ?b then (Ret ([], g, None), _) else _] => destruct b eqn:Ez end.
  - apply andb_true_iff in Ez as [_ Ez]. simp_bool. subst value. eexists. split; [done|]. cbn. rewrite !Hbal.
    split; [lia|]. split; [lia|]. intros. apply Hbal.
  - destruct (transfer_state caller addr value d0 Hok ltac:(rewrite Hbal; lia) Hne) as (Hc & Hb1 & Hb2 & Hb3).
    cbn [EvmState.CreateAccount EvmState.GetCode State_StateDB]. set (d2 := Transfer _ _ _ _) in *.
    exists (set_returnData [] (enter (AccountRef caller) d2 (new_world d))).
    unfold run. cbn [CodeAddr SetCallCode]. rewrite Hpre. unfold EvmInterp.Run. cbn [Code SetCallCode].
    rewrite Hc, Hcode'. split; [reflexivity|]. cbn [db set_returnData enter set_jumpdests set_db].
    rewrite Hb1, Hb2, !Hbal. split; [done|]. split; [done|].
    intros b H1 H2. rewrite Hb3 by done. apply Hbal.
Qed.
End Transfer.
