(* ===== verification/StateTransition.v ===== *)
(** State transitions (core/state_transition.go, core/gaspool.go): a message buys
    gas, pays for its data, runs, and gets back what is left.

    From the function [to] on, the text of core/state_transition.go is a machine
    translation of the code, word by word; the definitions follow its statements. *)

From stdpp Require Import gmap.
From S2P Require Import Prelude GoMath Params EvmCode EvmMemory EvmState EvmInterp.

(** * Gas pool *)
Inductive CoreError :=
| ErrGasLimitReached
| ErrNonceTooHigh
| ErrNonceTooLow
| errInsufficientBalanceForGas
| VmErr (e : VmError).

(** [AddGas] panics above [uint64]. *)
Definition GasPool_AddGas (gp amount : Z) : option Z :=
  if MaxUint64 - amount <? gp then None else Some (gp + amount).
Definition GasPool_SubGas (gp amount : Z) : option Z :=
  if gp <? amount then None else Some (gp - amount).

(** * Messages *)
Record Message := mkMessage {
  From_ : Z; To : option Z; GasPrice_ : Z; Gas : Z; Value : Z;
  Nonce_ : Z; CheckNonce : bool; Data : bytes }.

Definition nonzero (data : bytes) : Z := zlen (base.filter (fun b => b <> 0) data).

(** [IntrinsicGas]; [None] is [ErrOutOfGas]. *)
Definition IntrinsicGas (data : bytes) (contractCreation homestead : bool) : option Z :=
  let gas := if contractCreation && homestead then TxGasContractCreation else TxGas in
  if 0 <? zlen data then
    let nz := nonzero data in
    if u64 (MaxUint64 - gas) / TxDataNonZeroGas <? nz then None
    else
      let gas := u64 (gas + u64 (nz * TxDataNonZeroGas)) in
      let z := u64 (zlen data - nz) in
      if u64 (MaxUint64 - gas) / TxDataZeroGas <? z then None
      else Some (u64 (gas + u64 (z * TxDataZeroGas)))
  else Some gas.

(** The result of a function with an error, and the transition it leaves. *)
Inductive outcome (A : Type) :=
| Done (a : A)
| Failed (e : CoreError)
| Panics
| NoFuel.
Arguments Done {A} a.
Arguments Failed {A} e.
Arguments Panics {A}.
Arguments NoFuel {A}.

Section Transition.
Context {Hash DB : Type} `{HashFn Hash} `{!StateDB Hash DB}.
Variable evm : EVM.
Variables PrecompiledContractsHomestead PrecompiledContractsByzantium : Precompiles.
Variable fuel : nat.
Variable msg : Message.

(** What a transition changes: pool, gas, and the world of the machine. *)
Record StateTransition := mkStateTransition {
  gp : Z; st_gas : Z; initialGas : Z; st_world : World Hash DB }.

Definition NewStateTransition (gp : Z) (w : World Hash DB) : StateTransition := mkStateTransition gp 0 0 w.

Definition st_state (st : StateTransition) : DB := db (st_world st).
Definition set_st_gas (g : Z) (st : StateTransition) : StateTransition :=
  mkStateTransition (gp st) g (initialGas st) (st_world st).
Definition set_st_world (w : World Hash DB) (st : StateTransition) : StateTransition :=
  mkStateTransition (gp st) (st_gas st) (initialGas st) w.
Definition set_st_state (d : DB) (st : StateTransition) : StateTransition :=
  set_st_world (set_db d (st_world st)) st.
Definition set_gp (g : Z) (st : StateTransition) : StateTransition :=
  mkStateTransition g (st_gas st) (initialGas st) (st_world st).

Definition T (A : Type) : Type := StateTransition -> outcome A * StateTransition.

Definition and_then {A B} (m : T A) (k : A -> T B) : T B := fun st =>
  match m st with
  | (Done a, st) => k a st
  | (Failed e, st) => (Failed e, st)
  | (Panics, st) => (Panics, st)
  | (NoFuel, st) => (NoFuel, st)
  end.

Definition useGas (amount : Z) : T unit := fun st =>
  if st_gas st <? amount then (Failed (VmErr ErrOutOfGas), st)
  else (Done tt, set_st_gas (st_gas st - amount) st).

Definition buyGas : T unit := fun st =>
  let mgval := Gas msg * GasPrice_ msg in
  if GetBalance (st_state st) (From_ msg) <? mgval then (Failed errInsufficientBalanceForGas, st)
  else
    match GasPool_SubGas (gp st) (Gas msg) with
    | None => (Failed ErrGasLimitReached, st)
    | Some g =>
        (Done tt, mkStateTransition g (u64 (st_gas st + Gas msg)) (Gas msg)
           (set_db (SubBalance (From_ msg) mgval (st_state st)) (st_world st)))
    end.

Definition preCheck : T unit := fun st =>
  let nonce := GetNonce (st_state st) (From_ msg) in
  if CheckNonce msg && (nonce <? Nonce_ msg) then (Failed ErrNonceTooHigh, st)
  else if CheckNonce msg && (Nonce_ msg <? nonce) then (Failed ErrNonceTooLow, st)
  else buyGas st.

Definition gasUsed (st : StateTransition) : Z := u64 (initialGas st - st_gas st).

(** A refund of at most half of the gas used; what is left goes back to the
    sender and to the pool. *)
Definition refundGas : T unit := fun st =>
  let refund := gasUsed st / 2 in
  let refund := if GetRefund (st_state st) <? refund then GetRefund (st_state st) else refund in
  let st := set_st_gas (u64 (st_gas st + refund)) st in
  let remaining := st_gas st * GasPrice_ msg in
  let st := set_st_state (AddBalance (From_ msg) remaining (st_state st)) st in
  match GasPool_AddGas (gp st) (st_gas st) with
  | None => (Panics, st)
  | Some g => (Done tt, set_gp g st)
  end.

(** The creation or call of the message. *)
Definition runMessage : T (bytes * option VmError) := fun st =>
  match To msg with
  | None =>
      match Create evm PrecompiledContractsHomestead PrecompiledContractsByzantium
              (Run evm PrecompiledContractsHomestead PrecompiledContractsByzantium fuel) 0 false
              (AccountRef (From_ msg)) (Data msg) (st_gas st) (Value msg) (st_world st) with
      | (Ret (ret, _, gas, vmerr), w) => (Done (ret, vmerr), set_st_gas gas (set_st_world w st))
      | (OutOfFuel, w) => (NoFuel, set_st_world w st)
      | (_, w) => (Panics, set_st_world w st)
      end
  | Some to =>
      let d := SetNonce (From_ msg) (u64 (GetNonce (st_state st) (From_ msg) + 1)) (st_state st) in
      match Call evm PrecompiledContractsHomestead PrecompiledContractsByzantium
              (Run evm PrecompiledContractsHomestead PrecompiledContractsByzantium fuel) 0 false
              (AccountRef (From_ msg)) to (Data msg) (st_gas st) (Value msg) (set_db d (st_world st)) with
      | (Ret (ret, gas, vmerr), w) => (Done (ret, vmerr), set_st_gas gas (set_st_world w st))
      | (OutOfFuel, w) => (NoFuel, set_st_world w st)
      | (_, w) => (Panics, set_st_world w st)
      end
  end.

Definition payIntrinsic : T unit := fun st =>
  let homestead := IsHomestead (chainConfig evm) (evmBlock evm) in
  let contractCreation := match To msg with None => true | Some _ => false end in
  match IntrinsicGas (Data msg) contractCreation homestead with
  | None => (Failed (VmErr ErrOutOfGas), st)
  | Some gas => useGas gas st
  end.

(** Return data, gas used, and whether the machine failed. *)
Definition TransitionDb : T (bytes * Z * bool) :=
  and_then preCheck (fun _ =>
  and_then payIntrinsic (fun _ =>
  and_then runMessage (fun '(ret, vmerr) =>
  if bool_decide (vmerr = Some ErrInsufficientBalance) then fun st => (Failed (VmErr ErrInsufficientBalance), st)
  else
    and_then refundGas (fun _ st =>
    let fee := gasUsed st * GasPrice_ msg in
    let st := set_st_state (AddBalance (Coinbase (evmContext evm)) fee (st_state st)) st in
    (Done (ret, gasUsed st, negb (is_nil_err vmerr)), st))))).

Definition ApplyMessage (pool : Z) (w : World Hash DB) : outcome (bytes * Z * bool) * StateTransition :=
  TransitionDb (NewStateTransition pool w).
End Transition.
