(* ===== verification/ChainContext.v ===== *)
(** core/evm.go: the context of a transaction, and the hashes of earlier blocks.
    The function for these keeps a cache between its calls; it is proved to
    answer as the walk down the chain does. *)
From stdpp Require Import gmap.
From S2P Require Import Prelude GoMath EvmState BlockHeader StateTransition.

Section GetHash.
Context (GetHeader : Z -> Z -> option Header).

(** [header.Number.Uint64() - 1]; a [nil] number panics. *)
Definition number_below (h : Header) : option Z := n ← Number h; Some (u64 (Uint64 n - 1)).

(** The loop over the ancestors, which fills the cache. *)
Fixpoint hash_loop (fuel : nat) (header : option Header) (n : Z) (cache : gmap Z Z) : option (Z * gmap Z Z) :=
  match header with
  | None => Some (0, cache)
  | Some header =>
      match fuel with
      | O => None
      | S fuel =>
          m ← number_below header;
          let cache := <[m := ParentHash header]> cache in
          if n =? m then Some (ParentHash header, cache) else hash_loop fuel (GetHeader (ParentHash header) m) n cache
      end
  end.

(** Fuel for the walk below a header. *)
Definition walk_fuel (h : Header) : nat := match Number h with Some n => S (Z.to_nat n) | None => O end.

(** A call of the function that [GetHashFn] returns. *)
Definition GetHashFn (ref : Header) (cache : option (gmap Z Z)) (n : Z) : option (Z * option (gmap Z Z)) :=
  m ← number_below ref;
  let cache := default {[m := ParentHash ref]} cache in
  match cache !! n with
  | Some hash => Some (hash, Some cache)
  | None => '(hash, cache) ← hash_loop (walk_fuel ref) (GetHeader (ParentHash ref) m) n cache; Some (hash, Some cache)
  end.

Fixpoint GetHashFn_calls (ref : Header) (cache : option (gmap Z Z)) (ns : list Z) : option (list Z) :=
  match ns with
  | [] => Some []
  | n :: ns => '(h, cache) ← GetHashFn ref cache n; hs ← GetHashFn_calls ref cache ns; Some (h :: hs)
  end.

(** The walk without a cache: the hash of the block [n] below [h], or zero. *)
Fixpoint ancestor_hash (fuel : nat) (h : Header) (n : Z) : Z :=
  match number_below h with
  | None => 0
  | Some m =>
      if n =? m then ParentHash h
      else
        match fuel, GetHeader (ParentHash h) m with
        | S fuel, Some h' => ancestor_hash fuel h' n
        | _, _ => 0
        end
  end.

Definition block_hash (ref : Header) (n : Z) : Z := ancestor_hash (walk_fuel ref) ref n.

(** * The cache *)
Record headers_ok : Prop := {
  headers_number h n x : GetHeader h n = Some x -> Number x = Some n /\ 0 <= n < 2 ^ 63 }.
Context (chain : headers_ok).

Definition numbered (h : Header) (n : Z) : Prop := Number h = Some n /\ 0 <= n < 2 ^ 63.

Lemma number_below_eq h n : numbered h n -> number_below h = Some (u64 (n - 1)).
Proof.
  intros [E Hn]. unfold number_below. rewrite E. cbn. unfold Uint64. rewrite Z.abs_eq, Z.mod_small by lia. done.
Qed.

(** The parent has the number below. *)
Lemma parent_numbered h n x : numbered h n -> GetHeader (ParentHash h) (u64 (n - 1)) = Some x -> 0 < n /\ numbered x (n - 1).
Proof.
  intros [E Hn] Hx. apply (headers_number chain) in Hx as [Ex Hr]. unfold u64 in *.
  destruct (decide (n = 0)) as [->|]; [change ((0 - 1) mod 2 ^ 64) with (2 ^ 64 - 1) in Hr; lia|].
  rewrite Z.mod_small in Ex by lia. split; [lia|]. split; [done|lia].
Qed.

(** [x] is [ref] or an ancestor of it. *)
Inductive ancestor (ref : Header) : Header -> Prop :=
| ancestor_self : ancestor ref ref
| ancestor_parent h n x : ancestor ref h -> numbered h n -> GetHeader (ParentHash h) (u64 (n - 1)) = Some x -> ancestor ref x.

Lemma ancestor_number ref r h n : numbered ref r -> ancestor ref h -> numbered h n -> n <= r.
Proof.
  intros Hr Ha. revert n. induction Ha as [|h m x Ha IH Hm Hx]; intros n [En Hn].
  - destruct Hr as [Er _]. rewrite Er in En. injection En as <-. done.
  - destruct (parent_numbered h m x Hm Hx) as [_ [Ex _]]. rewrite Ex in En. injection En as <-. specialize (IH m Hm). lia.
Qed.

Lemma ancestor_hash_step fuel h n k :
  numbered h n -> n < Z.of_nat fuel -> k <> u64 (n - 1) ->
  ancestor_hash fuel h k = match GetHeader (ParentHash h) (u64 (n - 1)) with Some x => ancestor_hash (Nat.pred fuel) x k | None => 0 end.
Proof.
  intros Hn Hf Hk. pose proof (proj2 Hn). destruct fuel as [|fuel]; [lia|]. cbn [ancestor_hash]. rewrite (number_below_eq h n Hn).
  rewrite (proj2 (Z.eqb_neq _ _) Hk). done.
Qed.

(** More fuel changes nothing. *)
Lemma ancestor_hash_fuel n : forall h fuel fuel' k,
  0 <= n -> numbered h n -> n < Z.of_nat fuel -> n < Z.of_nat fuel' -> ancestor_hash fuel h k = ancestor_hash fuel' h k.
Proof.
  intros h fuel fuel' k Hn. revert h fuel fuel'. apply Zlt_0_ind with (x := n); [|done]. clear n Hn.
  intros n IH Hn h fuel fuel' Hh Hf Hf'. destruct (decide (k = u64 (n - 1))) as [E|Hk].
  - destruct fuel, fuel'; try lia. cbn [ancestor_hash]. by rewrite (number_below_eq h n Hh), E, Z.eqb_refl.
  - rewrite !(ancestor_hash_step _ h n k) by done. destruct (GetHeader _ _) as [x|] eqn:Ex; [|done].
    destruct (parent_numbered h n x Hh Ex) as [Hp Hx]. apply (IH (n - 1)); [lia|done|lia|lia].
Qed.

Lemma header_fuel_enough h n : numbered h n -> n < Z.of_nat (walk_fuel h).
Proof. intros [E Hn]. unfold walk_fuel. rewrite E. lia. Qed.

Lemma block_hash_parent h n : numbered h n -> block_hash h (u64 (n - 1)) = ParentHash h.
Proof.
  intros Hn. pose proof (header_fuel_enough h n Hn). unfold block_hash. pose proof (proj2 Hn). destruct (walk_fuel h); [lia|].
  cbn [ancestor_hash]. by rewrite (number_below_eq h n Hn), Z.eqb_refl.
Qed.

Lemma block_hash_step h n k :
  numbered h n -> k <> u64 (n - 1) ->
  block_hash h k = match GetHeader (ParentHash h) (u64 (n - 1)) with Some x => block_hash x k | None => 0 end.
Proof.
  intros Hn Hk. unfold block_hash at 1. pose proof (header_fuel_enough h n Hn) as Hf. rewrite (ancestor_hash_step _ h n k) by done.
  destruct (GetHeader _ _) as [x|] eqn:Ex; [|done]. destruct (parent_numbered h n x Hn Ex) as [Hp Hx].
  pose proof (header_fuel_enough x _ Hx). apply (ancestor_hash_fuel (n - 1)); [lia|done|lia|done].
Qed.

Section Cache.
Context (ref : Header) (r : Z) (ref_ok : numbered ref r).

(** The walk from [ref] goes on from an ancestor, for numbers it has not met. *)
Lemma block_hash_ancestor h n k :
  ancestor ref h -> numbered h n -> (forall m, n < m <= r -> k <> u64 (m - 1)) -> block_hash ref k = block_hash h k.
Proof.
  intros Ha. revert n. induction Ha as [|h m x Ha IH Hm Hx]; intros n Hn Hk; [done|].
  pose proof (ancestor_number ref r h m ref_ok Ha Hm). destruct (parent_numbered h m x Hm Hx) as [Hp [Ex Hr]].
  destruct Hn as [En Hn]. rewrite Ex in En. injection En as <-.
  rewrite (IH m Hm) by (intros j Hj; apply Hk; lia). rewrite (block_hash_step h m k Hm); [by rewrite Hx|]. apply Hk. lia.
Qed.

Lemma below_distinct n m : 0 <= n < m -> m <= r -> u64 (n - 1) <> u64 (m - 1).
Proof.
  pose proof (proj2 ref_ok). intros Hn Hm. unfold u64. rewrite (Z.mod_small (m - 1)) by lia.
  destruct (decide (n = 0)) as [->|]; [change ((0 - 1) mod 2 ^ 64) with (2 ^ 64 - 1); lia|]. rewrite Z.mod_small; lia.
Qed.

Record cache_ok (c : gmap Z Z) : Prop := {
  cache_first : is_Some (c !! u64 (r - 1));
  cache_right m v : c !! m = Some v -> block_hash ref m = v }.

Lemma cache_insert c h n : cache_ok c -> ancestor ref h -> numbered h n -> cache_ok (<[u64 (n - 1) := ParentHash h]> c).
Proof.
  intros [Hf Hr] Ha Hn. pose proof (proj2 Hn). split; [apply lookup_insert_is_Some'; by right|].
  intros m v [[<- <-]|[_ Hv]]%lookup_insert_Some; [|by apply Hr].
  rewrite (block_hash_ancestor h n); [by apply block_hash_parent|done|done|]. intros j Hj. apply below_distinct; lia.
Qed.

Lemma hash_loop_ok fuel k : forall h n c,
  ancestor ref h -> numbered h n -> n <= Z.of_nat fuel -> (forall m, n <= m <= r -> k <> u64 (m - 1)) -> cache_ok c ->
  exists c', hash_loop fuel (GetHeader (ParentHash h) (u64 (n - 1))) k c = Some (block_hash ref k, c') /\ cache_ok c'.
Proof.
  induction fuel as [|fuel IH]; intros h n c Ha Hn Hf Hk Hc; pose proof (ancestor_number ref r h n ref_ok Ha Hn).
  all: rewrite (block_hash_ancestor h n) by (done || (intros m Hm; apply Hk; lia)).
  all: rewrite (block_hash_step h n k) by (done || (apply Hk; lia)).
  all: destruct (GetHeader (ParentHash h) (u64 (n - 1))) as [x|] eqn:Ex; [|by exists c].
  all: destruct (parent_numbered h n x Hn Ex) as [Hp Hx]; try lia.
  cbn [hash_loop]. rewrite (number_below_eq x _ Hx). cbn [mbind option_bind].
  assert (ancestor ref x) as Hax by (by eapply ancestor_parent). pose proof (cache_insert c x _ Hc Hax Hx) as Hc'.
  destruct (Z.eqb_spec k (u64 (n - 1 - 1))) as [->|Hne].
  - eexists. split; [|exact Hc']. by rewrite block_hash_parent.
  - edestruct (IH x (n - 1)) as (c' & E & Hok); [done|done|lia| |exact Hc'|].
    { intros m Hm. destruct (decide (m = n - 1)) as [->|]; [done|]. apply Hk. lia. }
    exists c'. split; [|done]. rewrite E. f_equal. f_equal. rewrite (block_hash_ancestor x (n - 1)); [done|done|done|].
    intros m Hm. apply Hk. lia.
Qed.

Lemma GetHashFn_ok cache k :
  (forall c, cache = Some c -> cache_ok c) -> exists c, GetHashFn ref cache k = Some (block_hash ref k, Some c) /\ cache_ok c.
Proof.
  intros Hc. unfold GetHashFn. rewrite (number_below_eq ref r ref_ok). cbn [mbind option_bind]. set (c := default _ cache).
  assert (cache_ok c) as Hok.
  { unfold c. destruct cache as [c0|]; cbn [default]; [by apply Hc|]. split; [by eexists; apply lookup_singleton_eq|].
    intros m v [<- <-]%lookup_singleton_Some. by apply block_hash_parent. }
  destruct (c !! k) as [v|] eqn:Ek; [exists c; split; [|done]; by rewrite (cache_right _ Hok _ _ Ek)|].
  destruct (hash_loop_ok (walk_fuel ref) k ref r c) as (c' & -> & Hok'); [constructor|done| | |done|by exists c'].
  - pose proof (header_fuel_enough ref r ref_ok). lia.
  - intros m Hm ->. replace m with r in Ek by lia. destruct (cache_first _ Hok) as [v Hv]. congruence.
Qed.
End Cache.

(** C26: the function [GetHashFn] makes gives, whatever is asked of it before and
    with whatever its cache holds by then, the hash that the walk down the
    chain finds, which for a number below the block is the one its ancestor of the
    next number names as parent. *)
Theorem GetHashFn_equiv ref r ns :
  numbered ref r -> GetHashFn_calls ref None ns = Some (map (block_hash ref) ns) /\
  forall h n, ancestor ref h -> numbered h n -> block_hash ref (u64 (n - 1)) = ParentHash h.
Proof.
  intros Hr. split.
  2: { intros h n Ha Hn. pose proof (proj2 Hn). rewrite (block_hash_ancestor ref r Hr h n _ Ha Hn); [by apply block_hash_parent|].
       intros m Hm. apply (below_distinct ref r Hr); lia. }
  assert (forall cache, (forall c, cache = Some c -> cache_ok ref r c) ->
    GetHashFn_calls ref cache ns = Some (map (block_hash ref) ns)) as Hall; [|by apply Hall].
  induction ns as [|n ns IH]; intros cache Hc; [done|]. cbn [GetHashFn_calls map].
  destruct (GetHashFn_ok ref r Hr cache n Hc) as (c & -> & Hok). cbn [mbind option_bind]. rewrite IH; [done|]. by intros c' [= <-].
Qed.
End GetHash.

(** * The context of a transaction *)
Section Context.
Context (GetHeader : Z -> Z -> option Header) (Author : Header -> Z).

(** [NewEVMContext]: a [nil] number, time or difficulty panics. *)
Definition NewEVMContext (msg : Message) (header : Header) (author : option Z) : option Context :=
  number ← Number header;
  time ← BlockHeader.Time header;
  difficulty ← BlockHeader.Difficulty header;
  Some {|
    GetHash := block_hash GetHeader header;
    Origin := From_ msg;
    GasPrice := GasPrice_ msg;
    EvmState.Coinbase := match author with None => Author header | Some a => a end;
    EvmState.GasLimit := BlockHeader.GasLimit header;
    EvmState.BlockNumber := number;
    EvmState.Time := time;
    EvmState.Difficulty := difficulty |}.
End Context.

(** * Example: the hashes of blocks 1 and 2 below block 3, asked twice *)
Definition ex_header (parent number : Z) : Header := mkHeader parent 0 0 0 0 0 0 (Some 1) (Some number) 0 0 (Some 0) [] 0 [].
Definition ex_GetHeader (hash number : Z) : option Header :=
  if (hash =? 102) && (number =? 2) then Some (ex_header 101 2)
  else if (hash =? 101) && (number =? 1) then Some (ex_header 100 1) else None.

Lemma ex_headers_ok : headers_ok ex_GetHeader.
Proof. split. intros h n x. unfold ex_GetHeader. repeat case_if; intros [= <-]; simp_bool; subst; (split; [done|lia]). Qed.

Lemma GetHashFn_equiv_witness :
  GetHashFn_calls ex_GetHeader (ex_header 102 3) None [0; 2; 1; 0; 7] = Some [100; 102; 101; 100; 0].
Proof.
  destruct (GetHashFn_equiv ex_GetHeader ex_headers_ok (ex_header 102 3) 3 [0; 2; 1; 0; 7]) as [E _]; [split; [done|lia]|].
  rewrite E. vm_compute. reflexivity.
Defined.
