(* ===== verification/Bloom.v ===== *)
(** The bloom filter of logs, core/types/bloom9.go: a log is found in the filter
    of every list of receipts that has it. *)
From stdpp Require Import gmap.
From S2P Require Import Prelude GoMath EvmState.

Definition BloomByteLength : nat := 256.
Definition BloomBitLength : Z := 8 * Z.of_nat BloomByteLength.

(** The bytes of a [Bloom], an array. *)
Definition bloom_ok (b : bytes) : Prop := length b = BloomByteLength /\ wf_bytes b.
Definition emptyBloom : bytes := replicate BloomByteLength 0.

(** [SetBytes] panics on too many bytes, and keeps what it does not overwrite. *)
Definition SetBytes (b d : bytes) : option bytes :=
  if zlen b <? zlen d then None else Some (take (BloomByteLength - length d) b ++ d).
Definition BytesToBloom (b : bytes) : option bytes := SetBytes emptyBloom b.
Definition Big (b : bytes) : Z := be_to_Z b.

Section Bloom.
Context {Hash : Type} `{HashFn Hash}.

(** [(uint(b[i+1]) + (uint(b[i]) << 8)) & 2047] *)
Definition bloom_bit (h : bytes) (i : nat) : Z := Z.land (nth (i + 1) h 0 + Z.shiftl (nth i h 0) 8) 2047.

Definition bloom9 (b : bytes) : Z :=
  let h := Z_to_be 32 (HashBig (Keccak256 b)) in
  foldl (fun r i => Z.lor r (Z.shiftl 1 (bloom_bit h i))) 0 [0; 2; 4]%nat.

Definition Add (d : Z) (b : bytes) : option bytes := SetBytes b (big_bytes (Z.lor (Big b) (bloom9 (big_bytes d)))).

Definition BloomLookup (bin topic : bytes) : bool := Z.land (Big bin) (bloom9 topic) =? bloom9 topic.
Definition Test (b : bytes) (test : Z) : bool := BloomLookup b (big_bytes test).
Definition TestBytes (b test : bytes) : bool := Test b (be_to_Z test).

(** An address has 20 bytes and a topic 32. *)
Definition log_bloom (bin : Z) (l : Log) : Z :=
  foldl (fun bin t => Z.lor bin (bloom9 (Z_to_be 32 t))) (Z.lor bin (bloom9 (Z_to_be 20 (logAddress l)))) (logTopics l).
Definition LogsBloom (logs : list Log) : Z := foldl log_bloom 0 logs.

(** [CreateBloom] of receipts with the logs [rs]. *)
Definition CreateBloom (rs : list (list Log)) : option bytes :=
  BytesToBloom (big_bytes (foldl (fun bin logs => Z.lor bin (LogsBloom logs)) 0 rs)).

(** * Filters as sets of bits *)
Definition includes (x y : Z) : Prop := Z.land x y = y.

Lemma includes_bits x y : includes x y <-> forall i, 0 <= i -> Z.testbit y i = true -> Z.testbit x i = true.
Proof.
  unfold includes. split.
  - intros E i _ Hy. rewrite <-E, Z.land_spec in Hy. by apply andb_true_iff in Hy as [].
  - intros Hb. apply Z.bits_inj'. intros i Hi. rewrite Z.land_spec. specialize (Hb i Hi).
    destruct (Z.testbit y i); [by rewrite Hb|apply andb_false_r].
Qed.

Lemma includes_refl x : includes x x.
Proof. apply Z.land_diag. Qed.

Lemma includes_trans x y z : includes x y -> includes y z -> includes x z.
Proof. rewrite !includes_bits. eauto. Qed.

Lemma includes_lor_l x y : includes (Z.lor x y) x.
Proof. apply includes_bits. intros i _ Hx. by rewrite Z.lor_spec, Hx. Qed.

Lemma includes_lor_r x y : includes (Z.lor x y) y.
Proof. apply includes_bits. intros i _ Hy. by rewrite Z.lor_spec, Hy, orb_true_r. Qed.

(** A loop that only adds bits has those of every element. *)
Lemma foldl_includes {A} (f : Z -> A -> Z) (g : A -> Z -> Prop) l : forall x,
  (forall x a, includes (f x a) x) -> (forall x a y, g a y -> includes (f x a) y) ->
  includes (foldl f x l) x /\ forall a y, a ∈ l -> g a y -> includes (foldl f x l) y.
Proof.
  induction l as [|b l IH]; intros x Hx Hg; cbn.
  { split; [apply includes_refl|]. intros a y Ha. by apply not_elem_of_nil in Ha. }
  destruct (IH (f x b) Hx Hg) as [H1 H2]. split; [by eapply includes_trans|].
  intros a y [->|Ha]%elem_of_cons Hy; [eapply includes_trans; [done|]; by apply Hg|by apply (H2 a)].
Qed.

(** * Bounds *)
Lemma lor_bound x y n : 0 <= n -> 0 <= x < 2 ^ n -> 0 <= y < 2 ^ n -> 0 <= Z.lor x y < 2 ^ n.
Proof.
  intros Hn Hx Hy. assert (0 <= Z.lor x y) as H0 by (apply Z.lor_nonneg; lia). split; [done|].
  destruct (decide (Z.lor x y = 0)) as [->|Hne]; [lia|]. apply Z.log2_lt_pow2; [lia|]. rewrite Z.log2_lor by lia.
  apply Z.max_lub_lt.
  - destruct (decide (x = 0)) as [->|]; [|apply Z.log2_lt_pow2; lia]. cbn. destruct (decide (n = 0)) as [->|]; [|lia].
    exfalso. assert (y = 0) by lia. by subst.
  - destruct (decide (y = 0)) as [->|]; [|apply Z.log2_lt_pow2; lia]. cbn. destruct (decide (n = 0)) as [->|]; [|lia].
    exfalso. assert (x = 0) by lia. by subst.
Qed.

Definition bloom_word (x : Z) : Prop := 0 <= x < 2 ^ BloomBitLength.

Lemma bloom_word_lor x y : bloom_word x -> bloom_word y -> bloom_word (Z.lor x y).
Proof. apply lor_bound. done. Qed.

Lemma foldl_bloom_word {A} (f : Z -> A -> Z) l : forall x,
  bloom_word x -> (forall x a, bloom_word x -> bloom_word (f x a)) -> bloom_word (foldl f x l).
Proof. induction l as [|a l IH]; intros x Hx Hf; cbn; auto. Qed.

Lemma bloom_word_0 : bloom_word 0.
Proof. by split; [|apply Z.pow_pos_nonneg]. Qed.

Lemma bloom9_word b : bloom_word (bloom9 b).
Proof.
  unfold bloom9. apply foldl_bloom_word; [apply bloom_word_0|]. intros x i Hx. apply bloom_word_lor; [done|].
  assert (0 <= bloom_bit (Z_to_be 32 (HashBig (Keccak256 b))) i < 2 ^ 11) as Hb.
  { unfold bloom_bit. change 2047 with (Z.ones 11). rewrite Z.land_ones by done. by apply Z.mod_pos_bound. }
  rewrite Z.shiftl_1_l. split; [apply Z.pow_nonneg; lia|]. apply Z.pow_lt_mono_r; [lia|done|]. change BloomBitLength with (2 ^ 11). lia.
Qed.

Lemma log_bloom_word x l : bloom_word x -> bloom_word (log_bloom x l).
Proof.
  intros Hx. unfold log_bloom. apply foldl_bloom_word; [|intros]; apply bloom_word_lor; auto using bloom9_word.
Qed.

(** * From numbers to bytes *)
Lemma includes_le x y : 0 <= x -> includes x y -> y <= x.
Proof.
  intros Hx E. pose proof (Z.add_lor_land (Z.ldiff x y) (Z.land x y)) as Hs. rewrite Z.lor_ldiff_and in Hs.
  replace (Z.land (Z.ldiff x y) (Z.land x y)) with 0 in Hs.
  - rewrite E in Hs. assert (0 <= Z.ldiff x y) by (apply Z.ldiff_nonneg; by left). lia.
  - symmetry. apply Z.bits_inj'. intros i Hi. rewrite Z.bits_0, !Z.land_spec, Z.ldiff_spec.
    by destruct (Z.testbit x i), (Z.testbit y i).
Qed.

Lemma Big_word b : bloom_ok b -> bloom_word (Big b).
Proof.
  intros [Hl Hw]. pose proof (be_to_Z_bound b Hw) as Hb. unfold zlen in Hb. rewrite Hl in Hb. unfold bloom_word.
  change (2 ^ BloomBitLength) with (256 ^ Z.of_nat BloomByteLength). done.
Qed.

(** A number that has the bits of a filter can replace it. *)
Lemma SetBytes_big b x :
  bloom_ok b -> bloom_word x -> includes x (Big b) -> exists b', SetBytes b (big_bytes x) = Some b' /\ bloom_ok b' /\ Big b' = x.
Proof.
  intros Hb Hx Hi. pose proof (Big_word b Hb) as [Hb0 _]. destruct Hb as [Hl Hw]. destruct Hx as [H0 Hx].
  apply includes_le in Hi; [|done]. set (d := big_bytes x).
  assert (Z.of_nat (length d) <= 256) as Hd.
  { unfold d, big_bytes. rewrite length_Z_to_be, Z.abs_eq by done. apply bytelen_upper; [|done].
    change (256 ^ 256) with (2 ^ BloomBitLength). done. }
  unfold SetBytes. rewrite (proj2 (Z.ltb_ge _ _)) by (unfold zlen; rewrite Hl; unfold BloomByteLength; lia).
  eexists. split; [done|]. unfold BloomByteLength in *. split; [split|].
  - rewrite length_app, length_take, Hl. unfold BloomByteLength. lia.
  - apply wf_bytes_app. split; [by apply wf_bytes_take|apply wf_big_bytes].
  - unfold Big. rewrite be_to_Z_app. unfold d. rewrite be_to_Z_big_bytes by done. fold d.
    pose proof (be_to_Z_bound d (wf_big_bytes _)) as Hdx. unfold d in Hdx at 1 2. rewrite be_to_Z_big_bytes in Hdx by done.
    set (t := take (256 - length d) b). pose proof (be_to_Z_bound t (wf_bytes_take _ _ Hw)) as Ht.
    pose proof (be_to_Z_bound (drop (256 - length d) b) (wf_bytes_drop _ _ Hw)) as Hr.
    assert (Big b = be_to_Z t * 256 ^ zlen d + be_to_Z (drop (256 - length d) b)) as E.
    { unfold Big. rewrite <-(take_drop (256 - length d) b) at 1. rewrite be_to_Z_app. fold t. do 3 f_equal.
      unfold zlen. rewrite length_drop, Hl. unfold BloomByteLength. lia. }
    destruct (Z.eq_dec (be_to_Z t) 0) as [Et|]; [rewrite Et; lia|]. exfalso.
    assert (1 * 256 ^ zlen d <= be_to_Z t * 256 ^ zlen d) by (apply Z.mul_le_mono_nonneg_r; lia). lia.
Qed.

Lemma emptyBloom_ok : bloom_ok emptyBloom /\ Big emptyBloom = 0.
Proof. split; [split; [done|by_decide]|by_compute]. Qed.

Lemma BloomLookup_includes b t : BloomLookup b t = true <-> includes (Big b) (bloom9 t).
Proof. apply Z.eqb_eq. Qed.

(** * What a filter finds *)

(** The bits a log adds. *)
Definition log_bits (l : Log) (y : Z) : Prop :=
  y = bloom9 (Z_to_be 20 (logAddress l)) \/ exists t, t ∈ logTopics l /\ y = bloom9 (Z_to_be 32 t).

Lemma log_bloom_includes x l : includes (log_bloom x l) x /\ forall y, log_bits l y -> includes (log_bloom x l) y.
Proof.
  unfold log_bloom. set (x0 := Z.lor x _).
  destruct (foldl_includes (fun bin t => Z.lor bin (bloom9 (Z_to_be 32 t))) (fun t y => y = bloom9 (Z_to_be 32 t)) (logTopics l) x0)
    as [H1 H2]; [intros; apply includes_lor_l|intros; subst; apply includes_lor_r|].
  split; [eapply includes_trans; [exact H1|apply includes_lor_l]|].
  intros y [->|(t & Ht & ->)]; [eapply includes_trans; [exact H1|apply includes_lor_r]|by apply (H2 t)].
Qed.

Lemma LogsBloom_includes logs l y : l ∈ logs -> log_bits l y -> includes (LogsBloom logs) y.
Proof.
  intros Hl Hy. destruct (foldl_includes log_bloom log_bits logs 0) as [_ Hin].
  - intros x a. exact (proj1 (log_bloom_includes x a)).
  - intros x a z. exact (proj2 (log_bloom_includes x a) z).
  - by apply (Hin l).
Qed.

Lemma LogsBloom_word logs : bloom_word (LogsBloom logs).
Proof. apply foldl_bloom_word; [apply bloom_word_0|]. intros. by apply log_bloom_word. Qed.

Lemma CreateBloom_total rs :
  exists b, CreateBloom rs = Some b /\ bloom_ok b /\ Big b = foldl (fun bin logs => Z.lor bin (LogsBloom logs)) 0 rs.
Proof.
  destruct emptyBloom_ok as [He E0]. apply SetBytes_big; [done| |rewrite E0; apply Z.land_0_r].
  apply foldl_bloom_word; [apply bloom_word_0|]. intros. apply bloom_word_lor; [done|apply LogsBloom_word].
Qed.

(** C25: the filter of a list of receipts is always made, and has no false
    negatives: the address and every topic of each log of each receipt is
    found in it. *)
Theorem CreateBloom_complete rs :
  exists b, CreateBloom rs = Some b /\ bloom_ok b /\
    forall logs l, logs ∈ rs -> l ∈ logs ->
      BloomLookup b (Z_to_be 20 (logAddress l)) = true /\ forall t, t ∈ logTopics l -> BloomLookup b (Z_to_be 32 t) = true.
Proof.
  destruct (CreateBloom_total rs) as (b & E & Hb & Ebig). exists b. split; [exact E|]. split; [done|]. intros logs l Hlogs Hl.
  assert (forall y, log_bits l y -> includes (Big b) y) as Hin.
  { intros y Hy. rewrite Ebig.
    destruct (foldl_includes (fun bin logs => Z.lor bin (LogsBloom logs)) (fun logs y => includes (LogsBloom logs) y) rs 0) as [_ Hin].
    - intros. apply includes_lor_l.
    - intros x a z Hz. eapply includes_trans; [apply includes_lor_r|done].
    - apply (Hin logs); [done|]. by eapply LogsBloom_includes. }
  split; [apply BloomLookup_includes, Hin; by left|]. intros t Ht. apply BloomLookup_includes, Hin. right. by exists t.
Qed.

(** What is added to a filter is found in it, with all that was. *)
Lemma Add_Test d b : bloom_ok b -> exists b', Add d b = Some b' /\ bloom_ok b' /\ Test b' d = true /\
  forall t, BloomLookup b t = true -> BloomLookup b' t = true.
Proof.
  intros Hb. destruct (SetBytes_big b (Z.lor (Big b) (bloom9 (big_bytes d)))) as (b' & E & Hb' & Ebig); [done| |apply includes_lor_l|].
  { apply bloom_word_lor; [by apply Big_word|apply bloom9_word]. }
  exists b'. split; [exact E|]. split; [done|]. split.
  - apply BloomLookup_includes. rewrite Ebig. apply includes_lor_r.
  - intros t Ht%BloomLookup_includes. apply BloomLookup_includes. rewrite Ebig. eapply includes_trans; [apply includes_lor_l|done].
Qed.

(** [TestBytes] goes through a number, which has no leading zeros. *)
Lemma TestBytes_leading_zero b t : TestBytes b (0 :: t) = TestBytes b t.
Proof. unfold TestBytes. by rewrite be_to_Z_cons. Qed.
End Bloom.
