(* ===== verification/StateProcessor.v ===== *)
(** core/state_processor.go: the transactions of a block applied one after the
    other, and the end of the block by the consensus engine; core/types/receipt.go
    for the receipts, and core/block_validator.go for the checks afterwards.

    Arguments: the recovery of senders, the hash of a transaction, the root hash
    of a state and of lists, the chain, and the engine. *)
From stdpp Require Import gmap.
From S2P Require Import Prelude GoMath Params EvmState EvmInterp EvmAddress StateObject StateDBModel BlockHeader Ethash EvmSupply TxSorted StateTransition ChainContext Bloom.

Inductive ProcessError := ErrSender | CoreErr (e : CoreError).

(** A value, an error, a panic, or no fuel for the machine. *)
Inductive presult (A : Type) := PDone (x : A) | PFailed (e : ProcessError) | PPanics | PNoFuel.
Arguments PDone {A} x.
Arguments PFailed {A} e.
Arguments PPanics {A}.
Arguments PNoFuel {A}.

Definition pbind {A B} (m : presult A) (k : A -> presult B) : presult B :=
  match m with
  | PDone x => k x
  | PFailed e => PFailed e
  | PPanics => PPanics
  | PNoFuel => PNoFuel
  end.
Notation "'let?' x := m 'in' k" := (pbind m (fun x => k)) (at level 10, x pattern, m at level 100, k at level 200) : go_scope.

Definition no_panic {A} (o : option A) : presult A := match o with Some x => PDone x | None => PPanics end.

(** * Receipts *)
Definition ReceiptStatusFailed : Z := 0.
Definition ReceiptStatusSuccessful : Z := 1.

Record Receipt {Hash : Type} := mkReceipt {
  PostState : bytes;
  Status : Z;
  CumulativeGasUsed : Z;
  ReceiptBloom : bytes;
  Logs : list (LogEntry Hash);
  ReceiptTxHash : Hash;
  ContractAddress : Z;
  ReceiptGasUsed : Z }.
Arguments Receipt Hash : clear implicits.

Section Processor.
Context {Hash : Type} `{HashFn Hash}.

Definition NewReceipt (root : bytes) (failed : bool) (cumulativeGasUsed : Z) : Receipt Hash :=
  mkReceipt Hash root (if failed then ReceiptStatusFailed else ReceiptStatusSuccessful) cumulativeGasUsed emptyBloom [] EmptyHash 0 0.

Definition GetLogs (s : State Hash) (hash : Hash) : list (LogEntry Hash) := default [] (logs s !! hash).

Context (config : ChainConfig) (vmConfig : Config) (fuel : nat).
Context (PrecompiledContractsHomestead PrecompiledContractsByzantium : Precompiles).
Context (Sender : Transaction -> option Z) (TxHash : Transaction -> Hash).
Context (StateRoot : State Hash -> bytes).
Context (GetHeader : Z -> Z -> option Header) (Author : Header -> Z).

(** [AsMessage] *)
Definition AsMessage (tx : Transaction) : option Message :=
  from ← Sender tx;
  Some {| From_ := from; To := Recipient tx; GasPrice_ := Price tx; Gas := TxGasLimit tx; Value := Amount tx;
          Nonce_ := AccountNonce tx; CheckNonce := true; Data := Payload tx |}.

(** What the loop of [Process] carries: the gas pool, the gas used, the state. *)
Record Progress := mkProgress { pool : Z; usedGas : Z; statedb : State Hash }.

Definition ApplyTransaction (author : option Z) (header : Header) (tx : Transaction) (p : Progress) : presult (Receipt Hash * Progress) :=
  match AsMessage tx with
  | None => PFailed ErrSender
  | Some msg =>
      let? context := no_panic (NewEVMContext GetHeader Author msg header author) in
      let? evm := no_panic (NewEVM context config vmConfig) in
      match ApplyMessage evm PrecompiledContractsHomestead PrecompiledContractsByzantium fuel msg (pool p) (new_world (statedb p)) with
      | (Done (_, gas, failed), st) =>
          let byzantium := IsByzantium config (Number header) in
          let d := Finalise (byzantium || IsEIP158 config (Number header)) (st_state st) in
          let root := if byzantium then [] else StateRoot d in
          let used := u64 (usedGas p + gas) in
          let receipt := NewReceipt root failed used in
          let address := match To msg with None => CreateAddress (Origin context) (AccountNonce tx) | Some _ => 0 end in
          let ls := GetLogs d (TxHash tx) in
          let? bloom := no_panic (CreateBloom [log <$> ls]) in
          PDone (mkReceipt Hash (PostState receipt) (Status receipt) used bloom ls (TxHash tx) address gas, mkProgress (gp st) used d)
      | (Failed e, _) => PFailed (CoreErr e)
      | (Panics, _) => PPanics
      | (NoFuel, _) => PNoFuel
      end
  end.

(** The loop over the transactions of a block; [i] is the index. *)
Fixpoint apply_transactions (blockHash : Hash) (header : Header) (i : Z) (txs : list Transaction) (p : Progress)
    : presult (list (Receipt Hash) * Progress) :=
  match txs with
  | [] => PDone ([], p)
  | tx :: txs =>
      let p := mkProgress (pool p) (usedGas p) (StateDBModel.Prepare (TxHash tx) blockHash i (statedb p)) in
      let? (receipt, p) := ApplyTransaction None header tx p in
      let? (receipts, p) := apply_transactions blockHash header (i + 1) txs p in
      PDone (receipt :: receipts, p)
  end.

(** The engine ends the block: its rewards, and the deletion of empty accounts. *)
Context (Finalize : Header -> list Header -> State Hash -> option (State Hash)).
(** The accounts of the DAO fork. *)
Context (DAORefundContract : Z) (DAODrainList : list Z).

Definition at_dao_fork (header : Header) : bool := DAOForkSupport config && bool_decide (is_Some (DAOForkBlock config) /\ DAOForkBlock config = Number header).

(** Receipts, logs, gas used, and the state the block leaves. *)
Definition Process (blockHash : Hash) (header : Header) (txs : list Transaction) (uncles : list Header) (d : State Hash)
    : presult (list (Receipt Hash) * list (LogEntry Hash) * Z * State Hash) :=
  let? gp := no_panic (GasPool_AddGas 0 (BlockHeader.GasLimit header)) in
  let d := if at_dao_fork header then ApplyDAOHardFork DAORefundContract DAODrainList d else d in
  let? (receipts, p) := apply_transactions blockHash header 0 txs (mkProgress gp 0 d) in
  let? d := no_panic (Finalize header uncles (statedb p)) in
  PDone (receipts, concat (Logs <$> receipts), usedGas p, d).
End Processor.
Arguments Progress Hash {_}.

(** * The engines at the end of a block *)
Section Engines.
Context {Hash : Type} `{HashFn Hash} (config : ChainConfig).

(** [Finalize] of consensus/ethash and of consensus/clique, on the state. *)
Definition ethash_Finalize (header : Header) (uncles : list Header) (s : State Hash) : option (State Hash) :=
  s ← accumulateRewards config header uncles s; Some (Finalise (IsEIP158 config (Number header)) s).
Definition clique_Finalize (header : Header) (uncles : list Header) (s : State Hash) : option (State Hash) :=
  Some (Finalise (IsEIP158 config (Number header)) s).
End Engines.

(** * The block validator *)
Definition CalcGasLimit (parentGasUsed parentGasLimit gasFloor gasCeil : Z) : Z :=
  let contrib := u64 (parentGasUsed + parentGasUsed / 2) / GasLimitBoundDivisor in
  let decay := u64 (parentGasLimit / GasLimitBoundDivisor - 1) in
  let limit := u64 (u64 (parentGasLimit - decay) + contrib) in
  let limit := if limit <? MinGasLimit then MinGasLimit else limit in
  if limit <? gasFloor then
    let limit := u64 (parentGasLimit + decay) in
    if gasFloor <? limit then gasFloor else limit
  else if gasCeil <? limit then
    let limit := u64 (parentGasLimit - decay) in
    if limit <? gasCeil then gasCeil else limit
  else limit.

Inductive ValidateError := InvalidGasUsed | InvalidBloom | InvalidReceiptHash | InvalidRoot.

Section Validate.
Context {Hash : Type} `{HashFn Hash} (config : ChainConfig) (StateRoot : State Hash -> bytes) (DeriveSha : list (Receipt Hash) -> Z).

(** [ValidateState], and the state it leaves; [CreateBloom] does not panic. *)
Definition ValidateState (header : Header) (s : State Hash) (receipts : list (Receipt Hash)) (used : Z) : option ValidateError * State Hash :=
  if negb (BlockHeader.GasUsed header =? used) then (Some InvalidGasUsed, s)
  else if negb (default 0 (be_to_Z <$> CreateBloom (fmap (fun r => log <$> Logs r) receipts)) =? BlockHeader.Bloom header) then (Some InvalidBloom, s)
  else if negb (DeriveSha receipts =? ReceiptHash header) then (Some InvalidReceiptHash, s)
  else
    let s := Finalise (IsEIP158 config (Number header)) s in
    (if negb (be_to_Z (StateRoot s) =? BlockHeader.Root header) then Some InvalidRoot else None, s).
End Validate.
