(* ===== verification/StateTransitionCorrect.v ===== *)
(** A message neither makes ether nor gas: what it pays for gas goes to the sender
    and to the miner, and what it uses is missing in the pool. *)

From stdpp Require Import gmap.
From S2P Require Import Prelude GoMath Params EvmCode EvmMemory EvmState EvmInstr EvmGas EvmInterp EvmTermination EvmRevert EvmTyped EvmTypedCalls EvmContracts EvmContractsCorrect StateObject StateDBModel StateDBCorrect StateDBSnapshot EvmStateDB StateDBLedger EvmSupply StateTransition.

(** * Intrinsic gas *)
Definition intrinsic_spec (data : bytes) (contractCreation homestead : bool) : Z :=
  (if contractCreation && homestead then TxGasContractCreation else TxGas) +
  nonzero data * TxDataNonZeroGas + (zlen data - nonzero data) * TxDataZeroGas.

Lemma nonzero_bounds data : 0 <= nonzero data <= zlen data.
Proof. unfold nonzero, zlen. pose proof (length_filter (fun b => b <> 0) data). lia. Qed.

Lemma checked_mul_add gas n price :
  0 <= gas < 2 ^ 64 -> 0 <= n -> 0 < price ->
  (u64 (MaxUint64 - gas) / price <? n) = negb (gas + n * price <? 2 ^ 64).
Proof.
  intros Hg Hn Hp. unfold MaxUint64. rewrite u64_small by (unfold is_u64; lia).
  pose proof (Z.div_mod (2 ^ 64 - 1 - gas) price ltac:(lia)) as Hd.
  pose proof (Z.mod_pos_bound (2 ^ 64 - 1 - gas) price Hp) as Hm. set (q := (2 ^ 64 - 1 - gas) / price) in *.
  destruct (Z.ltb_spec q n) as [Hlt|Hge], (Z.ltb_spec (gas + n * price) (2 ^ 64)); try done; exfalso.
  - assert (price * (q + 1) <= price * n) by (apply Z.mul_le_mono_nonneg_l; lia). lia.
  - assert (price * n <= price * q) by (apply Z.mul_le_mono_nonneg_l; lia). lia.
Qed.

Lemma IntrinsicGas_ok data cc hs :
  zlen data < 2 ^ 62 ->
  IntrinsicGas data cc hs = if intrinsic_spec data cc hs <? 2 ^ 64 then Some (intrinsic_spec data cc hs) else None.
Proof.
  intros Hl. unfold IntrinsicGas, intrinsic_spec. pose proof (nonzero_bounds data) as Hnz.
  set (g := if cc && hs then _ else _). assert (0 <= g < 2 ^ 17) as Hg by (unfold g, TxGasContractCreation, TxGas; case_if; lia).
  destruct (Z.ltb_spec 0 (zlen data)) as [Hpos|Hz].
  2:{ replace (nonzero data) with 0 by lia. replace (zlen data) with 0 by lia. destruct (Z.ltb_spec (g + 0 * TxDataNonZeroGas + (0 - 0) * TxDataZeroGas) (2 ^ 64)); [f_equal|]; lia. }
  unfold TxDataNonZeroGas, TxDataZeroGas. rewrite checked_mul_add by lia.
  destruct (Z.ltb_spec (g + nonzero data * 68) (2 ^ 64)) as [H1|H1]; cbn [negb].
  2:{ destruct (Z.ltb_spec (g + nonzero data * 68 + (zlen data - nonzero data) * 4) (2 ^ 64)); [lia|done]. }
  rewrite (u64_small (nonzero data * 68)), (u64_small (g + nonzero data * 68)), (u64_small (zlen data - nonzero data)) by (unfold is_u64; lia).
  rewrite checked_mul_add by lia.
  destruct (Z.ltb_spec (g + nonzero data * 68 + (zlen data - nonzero data) * 4) (2 ^ 64)); cbn [negb]; [|done].
  rewrite (u64_small ((zlen data - nonzero data) * 4)), u64_small by (unfold is_u64; lia). done.
Qed.

Lemma IntrinsicGas_min data cc hs g : zlen data < 2 ^ 62 -> IntrinsicGas data cc hs = Some g -> TxGas <= g < 2 ^ 64.
Proof.
  intros Hl. rewrite IntrinsicGas_ok by done. pose proof (nonzero_bounds data).
  case_if; intros [= <-]. split; [|done]. unfold intrinsic_spec, TxGasContractCreation, TxGas, TxDataNonZeroGas, TxDataZeroGas.
  case_if; lia.
Qed.

(** * Accounts *)
Section Accounts.
Context {Hash : Type} `{HashFn Hash} (C : Crypto) `{!CryptoLaws C}.
Hypothesis HashBig_word : forall h : Hash, is_word (HashBig h).
Hypothesis Keccak_inj : forall b b' : bytes, Keccak256 (Hash := Hash) b = Keccak256 b' -> b = b'.
Variables (evm : EVM) (fuel : nat) (msg : Message).
Hypothesis evm_ok : evm_typed evm.
Hypothesis not_constantinople : rConstantinople (chainRules evm) = false.

Record message_typed : Prop := {
  typed_From : is_word (From_ msg);
  typed_To a : To msg = Some a -> is_word a;
  typed_Value : is_word (Value msg);
  typed_Price : 0 <= GasPrice_ msg;
  typed_Gas : 0 <= Gas msg < precompile_limit;
  typed_Data : small_bytes (Data msg) }.
Hypothesis msg_ok : message_typed.
Hypothesis enough_fuel : Gas msg < Z.of_nat fuel.

Abbreviation PH := (PrecompiledContractsHomestead C).
Abbreviation PB := (PrecompiledContractsByzantium C).
Implicit Types st : StateTransition (Hash := Hash) (DB := State Hash).

(** Between buying the gas and the refund: all gas of the message is missing in
    the pool and paid for. *)
Record bought (pool S0 : Z) st : Prop := {
  bought_ok : state_typed (st_state st);
  bought_init : initialGas st = Gas msg;
  bought_gas : 0 <= st_gas st <= Gas msg;
  bought_pool : gp st = pool - Gas msg;
  bought_supply : total_supply (st_state st) + Gas msg * GasPrice_ msg <= S0 }.

Lemma preCheck_ok pool d st r :
  state_typed d -> preCheck msg (NewStateTransition pool (new_world d)) = (r, st) ->
  match r with
  | Done _ => bought pool (total_supply d) st /\ st_gas st = Gas msg /\ Gas msg <= pool /\ exists d', st_world st = new_world d'
  | Failed _ => st = NewStateTransition pool (new_world d)
  | _ => False
  end.
Proof.
  intros Hd. unfold preCheck. case_if; [by intros [= <- <-]|]. case_if; [by intros [= <- <-]|]. unfold buyGas.
  destruct (_ <? Gas msg * GasPrice_ msg) eqn:Hbal; [by intros [= <- <-]|]. apply Z.ltb_ge in Hbal. unfold GasPool_SubGas. cbn [gp NewStateTransition].
  destruct (Z.ltb_spec pool (Gas msg)) as [|Hp]; [by intros [= <- <-]|]. intros [= <- <-].
  pose proof (typed_Gas msg_ok) as Hg. unfold precompile_limit in Hg. pose proof (typed_Price msg_ok) as Hpr.
  change (Gas msg * GasPrice_ msg <= GetBalance d (From_ msg)) in Hbal.
  assert (0 <= Gas msg * GasPrice_ msg) by (apply Z.mul_nonneg_nonneg; lia).
  pose proof (SubBalance_updates (From_ msg) (Gas msg * GasPrice_ msg) d (typed_ok _ Hd) ltac:(lia)) as Hu.
  pose proof (updates_supply _ _ _ _ Hu) as Hs. destruct Hu as [Hok _].
  cbn [st_gas]. rewrite u64_small by (unfold is_u64; lia).
  split; [|split; [lia|split; [done|by eexists]]].
  split; cbn [st_state st_world db set_db initialGas st_gas gp]; try lia.
  - split; [done|]. change (total_supply (SubBalance (From_ msg) (Gas msg * GasPrice_ msg) d) < 2 ^ 256).
    destruct Hd. lia.
  - change (total_supply (SubBalance (From_ msg) (Gas msg * GasPrice_ msg) d) + Gas msg * GasPrice_ msg <= total_supply d). lia.
Qed.

Lemma payIntrinsic_ok pool S0 st st' r :
  bought pool S0 st -> st_gas st = Gas msg -> payIntrinsic evm msg st = (r, st') ->
  match r with
  | Done _ => bought pool S0 st' /\ st_world st' = st_world st /\ st_gas st' + TxGas <= Gas msg
  | Failed _ => st' = st
  | _ => False
  end.
Proof.
  intros Hb Hg. unfold payIntrinsic. destruct (IntrinsicGas _ _ _) as [ig|] eqn:Ei; [|by intros [= <- <-]].
  apply IntrinsicGas_min in Ei as [Hmin _]; [|apply (typed_Data msg_ok)]. unfold TxGas in Hmin.
  unfold useGas. destruct (Z.ltb_spec (st_gas st) ig) as [|Hge]; intros [= <- <-]; [done|].
  destruct Hb. split; [|split; [done|cbn; unfold TxGas; lia]]. split; try done. cbn. lia.
Qed.

Lemma runMessage_ok pool S0 st d st' r :
  bought pool S0 st -> st_world st = new_world d -> runMessage evm PH PB fuel msg st = (r, st') ->
  match r with
  | Done (ret, _) => bought pool S0 st' /\ st_gas st' <= st_gas st /\ small_bytes ret
  | _ => False
  end.
Proof.
  intros [Hok Hi Hg Hp Hs] Hw. unfold st_state in Hok, Hs. rewrite Hw in Hok, Hs. cbn [db new_world] in Hok, Hs.
  pose proof (typed_Gas msg_ok) as Hl. unfold runMessage. rewrite Hw. destruct (To msg) as [to|] eqn:Et.
  - set (d1 := EvmState.SetNonce _ _ _).
    assert (ledger_step (st_state st) d1) as [Hok1 Hs1].
    { unfold d1, st_state. rewrite Hw. by apply ledger_SetNonce. }
    cbn [EvmTyped.supply State_Ledger] in Hs1. unfold st_state in Hs1. rewrite Hw in Hs1. cbn [db new_world] in Hs1.
    change (set_db d1 (new_world d)) with (new_world d1).
    destruct (Call_supply HashBig_word Keccak_inj evm evm_ok not_constantinople PH PB _ (tables_typed C evm) precompile_limit_u64
      fuel 0 false (From_ msg) to (Data msg) (st_gas st) (Value msg) d1 Hok1 (typed_From msg_ok) (typed_To msg_ok _ Et)
      (typed_Value msg_ok) (typed_Data msg_ok) ltac:(lia) ltac:(lia)) as (res & left & err & w' & E & Hr & Hleft & Ht & Hsup).
    rewrite E. intros [= <- <-]. split; [|split; [cbn; lia|done]].
    split; [exact Ht|exact Hi|cbn [st_gas set_st_gas]; lia|exact Hp|].
    change (total_supply (db w') + Gas msg * GasPrice_ msg <= S0). lia.
  - destruct (Create_supply HashBig_word Keccak_inj evm evm_ok not_constantinople PH PB _ (tables_typed C evm) precompile_limit_u64
      fuel 0 false (From_ msg) (Data msg) (st_gas st) (Value msg) d Hok (typed_From msg_ok) (typed_Value msg_ok)
      (typed_Data msg_ok) ltac:(lia) ltac:(lia)) as (res & a & left & err & w' & E & Hr & Hleft & Ht & Hsup).
    rewrite E. intros [= <- <-]. split; [|split; [cbn; lia|done]].
    split; [exact Ht|exact Hi|cbn [st_gas set_st_gas]; lia|exact Hp|].
    change (total_supply (db w') + Gas msg * GasPrice_ msg <= S0). lia.
Qed.

Lemma refundGas_ok pool S0 st st' r :
  bought pool S0 st -> is_u64 pool -> refundGas msg st = (r, st') ->
  r = Done tt /\ state_ok (st_state st') /\ initialGas st' = Gas msg /\ st_gas st <= st_gas st' <= Gas msg /\
  Gas msg - st_gas st <= 2 * (Gas msg - st_gas st') /\ gp st' = pool - Gas msg + st_gas st' /\
  total_supply (st_state st') + (Gas msg - st_gas st') * GasPrice_ msg <= S0.
Proof.
  intros [Hok Hi Hg Hp Hs] Hpool. pose proof (typed_Gas msg_ok) as Hl. unfold precompile_limit in Hl.
  pose proof (typed_Price msg_ok) as Hpr. unfold is_u64 in Hpool. unfold refundGas, gasUsed. rewrite Hi.
  rewrite !(u64_small (Gas msg - st_gas st)) by (unfold is_u64; lia). set (used := Gas msg - st_gas st).
  change (GetRefund (st_state st)) with (refund (st_state st)).
  pose proof (proj2 (ok_sound _ (typed_ok _ Hok))) as Hrf. unfold is_u64 in Hrf.
  set (r0 := if refund (st_state st) <? used / 2 then _ else _).
  assert (0 <= r0 <= used / 2) as Hr0.
  { unfold r0. pose proof (Z.div_pos used 2 ltac:(lia) ltac:(lia)). destruct (Z.ltb_spec (refund (st_state st)) (used / 2)); lia. }
  assert (2 * (used / 2) <= used) as Hu by (apply Z.mul_div_le; lia).
  cbn [st_gas set_st_gas]. rewrite u64_small by (unfold is_u64; lia). set (g := st_gas st + r0).
  unfold GasPool_AddGas. cbn [gp set_st_state set_st_world set_st_gas st_gas]. rewrite Hp.
  destruct (Z.ltb_spec (MaxUint64 - g) (pool - Gas msg)) as [Hbad|Hgood]; [unfold MaxUint64 in Hbad; lia|].
  intros [= <- <-]. split; [done|].
  match goal with |- state_ok (st_state ?x) /\ _ => change (st_state x) with (AddBalance (From_ msg) (g * GasPrice_ msg) (st_state st)) end.
  pose proof (GetBalance_nonneg _ (From_ msg) (typed_ok _ Hok)) as Hb.
  assert (0 <= g * GasPrice_ msg) by (apply Z.mul_nonneg_nonneg; lia).
  pose proof (AddBalance_updates (From_ msg) (g * GasPrice_ msg) _ (typed_ok _ Hok) ltac:(lia)) as Hup.
  pose proof (updates_supply _ _ _ _ Hup) as Hs'. destruct Hup as [Hok' _].
  cbn [initialGas st_gas gp set_gp set_st_state set_st_world set_st_gas].
  split; [done|]. split; [done|]. lia.
Qed.

(** A message that is included, or rejected. *)
Lemma ApplyMessage_sound pool d :
  state_typed d -> is_u64 pool ->
  let '(r, st) := ApplyMessage evm PH PB fuel msg pool (new_world d) in
  state_typed (st_state st) /\ total_supply (st_state st) <= total_supply d /\
  match r with
  | Done (ret, used, failed) =>
      small_bytes ret /\ TxGas <= 2 * used /\ used <= Gas msg /\ Gas msg <= pool /\ gp st = pool - used
  | Failed _ => True
  | Panics | NoFuel => False
  end.
Proof.
  intros Hd Hpool. unfold ApplyMessage, TransitionDb, and_then at 1.
  pose proof (typed_Gas msg_ok) as Hl. pose proof (typed_Price msg_ok) as Hpr.
  assert (0 <= Gas msg * GasPrice_ msg) as Hmg by (apply Z.mul_nonneg_nonneg; lia).
  destruct (preCheck _ _) as [r1 st1] eqn:E1. apply (preCheck_ok _ d) in E1; [|done].
  destruct r1 as [[]|e| |]; try done; [|by subst st1; split; [|split]].
  destruct E1 as (Hb1 & Hg1 & Hp1 & d1 & Hw1). unfold and_then at 1.
  destruct (payIntrinsic _ _ _) as [r2 st2] eqn:E2. apply (payIntrinsic_ok pool (total_supply d)) in E2; [|done..].
  destruct r2 as [[]|e| |]; try done; [|subst st2; destruct Hb1; split; [done|split; [lia|done]]].
  destruct E2 as (Hb2 & Hw2 & Hg2). unfold and_then at 1.
  destruct (runMessage _ _ _ _ _ _) as [r3 st3] eqn:E3. apply (runMessage_ok pool (total_supply d) _ d1) in E3; [|done|congruence].
  destruct r3 as [[ret vmerr]|e| |]; try done. destruct E3 as (Hb3 & Hg3 & Hret).
  pose proof (bought_gas _ _ _ Hb3) as Hg30. unfold TxGas in *.
  case_if; [destruct Hb3; split; [done|split; [lia|done]]|]. unfold and_then.
  destruct (refundGas _ _) as [r4 st4] eqn:E4. apply (refundGas_ok pool (total_supply d)) in E4; [|done..].
  destruct E4 as (-> & Hok4 & Hi4 & Hg4 & Hhalf & Hp4 & Hs4). unfold precompile_limit in Hl.
  assert (gasUsed st4 = Gas msg - st_gas st4) as Hu.
  { unfold gasUsed. rewrite Hi4, u64_small; [done|unfold is_u64; lia]. }
  rewrite !Hu. set (fee := (Gas msg - st_gas st4) * GasPrice_ msg) in *.
  assert (0 <= fee) as Hfee by (apply Z.mul_nonneg_nonneg; lia).
  pose proof (GetBalance_nonneg _ (Coinbase (evmContext evm)) Hok4) as Hcb.
  pose proof (AddBalance_updates (Coinbase (evmContext evm)) fee _ Hok4 ltac:(lia)) as Hup.
  pose proof (updates_supply _ _ _ _ Hup) as Hs5. destruct Hup as [Hok5 _].
  change (st_state (set_st_state _ st4)) with (AddBalance (Coinbase (evmContext evm)) fee (st_state st4)).
  change (gasUsed (set_st_state _ st4)) with (gasUsed st4). rewrite Hu.
  change (gp (set_st_state _ st4)) with (gp st4).
  destruct Hd. split; [split; [done|lia]|]. split; [lia|]. split; [done|]. lia.
Qed.
(** C2: accounts of a message, before Constantinople. A message of Go's types with
    less than 2^44 gas, on a well-formed state with less than 2^256 ether, with
    a hash of codes without collisions and more fuel than gas, neither panics
    nor runs out of fuel. When it is included, it used between half of the 21000
    gas of a transaction and all of its gas, exactly this gas is missing in the
    pool of the block, and sender, miner and all other accounts together have no
    more ether than before. When it is rejected, there is no more ether either. *)
Theorem ApplyMessage_accounts pool d :
  state_typed d -> is_u64 pool ->
  let '(r, st) := ApplyMessage evm PH PB fuel msg pool (new_world d) in
  state_typed (st_state st) /\ total_supply (st_state st) <= total_supply d /\
  match r with
  | Done (ret, used, failed) => small_bytes ret /\ TxGas <= 2 * used /\ used <= Gas msg /\ gp st = pool - used
  | Failed _ => True
  | Panics | NoFuel => False
  end.
Proof.
  intros Hd Hpool. pose proof (ApplyMessage_sound pool d Hd Hpool) as Hs. destruct (ApplyMessage _ _ _ _ _ _ _) as [r st].
  destruct Hs as (H1 & H2 & H3). split; [done|]. split; [done|]. destruct r as [[[ret used] failed]|e| |]; tauto.
Qed.
End Accounts.
