(* ===== verification/StateProcessorCorrect.v ===== *)
(** A block makes no ether but the reward of its engine, and uses no more gas
    than its limit; the limit computed for the next block is one that
    consensus/ethash accepts. *)
From stdpp Require Import gmap.
From S2P Require Import Prelude GoMath TxSorted BlockHeader Params EvmCode EvmMemory EvmState EvmInterp EvmContracts EvmTermination EvmRevert EvmTyped EvmContractsCorrect StateObject StateDBModel StateDBCorrect StateDBSnapshot EvmStateDB StateDBLedger StateDBFinalise Ethash EthashCorrect EvmSupply StateTransition ChainContext Bloom StateProcessor StateTransitionCorrect.

(** What an engine promises of the end of a block: from a good state it makes a
    good one, with at most the reward more. *)
Class EndOfBlock {Hash : Type} `{HashFn Hash} (Finalize : Header -> list Header -> State Hash -> option (State Hash))
    (valid : Header -> list Header -> Prop) (reward : Header -> list Header -> Z) : Prop := {
  end_of_block h uncles s : valid h uncles -> state_ok s ->
    exists s', Finalize h uncles s = Some s' /\ state_ok s' /\ total_supply s' <= total_supply s + reward h uncles }.

Section Engines.
Context {Hash : Type} `{HashFn Hash} (config : ChainConfig).

Definition after_EIP158 (h : Header) : Prop := IsEIP158 config (Number h) = true.

Definition ethash_valid (h : Header) (uncles : list Header) : Prop :=
  after_EIP158 h /\ exists n, Number h = Some n /\ Forall (recent n) uncles.
Definition ethash_reward (h : Header) (uncles : list Header) : Z :=
  match Number h with Some n => minted (block_reward config n) n uncles | None => 0 end.

#[export] Instance ethash_EndOfBlock : EndOfBlock (Hash := Hash) (ethash_Finalize config) ethash_valid ethash_reward.
Proof.
  split. intros h uncles s (Hf & n & Hn & Hall) Hs. destruct (accumulateRewards_supply config h uncles n s Hn Hall Hs) as (s1 & E & Hs1 & Hsup & _).
  unfold ethash_Finalize, ethash_reward. rewrite E, Hn, <-Hsup. cbn [mbind option_bind]. eexists. split; [done|].
  unfold after_EIP158 in Hf. rewrite <-Hn, Hf. destruct (Finalise_ok s1 Hs1) as (Ht & Hle & _). done.
Qed.

#[export] Instance clique_EndOfBlock : EndOfBlock (Hash := Hash) (clique_Finalize config) (fun h _ => after_EIP158 h) (fun _ _ => 0).
Proof.
  split. intros h uncles s Hf Hs. unfold clique_Finalize. unfold after_EIP158 in Hf. rewrite Hf. eexists. split; [done|].
  destruct (Finalise_ok s Hs) as (Ht & Hle & _). split; [done|lia].
Qed.
End Engines.

Section Block.
Context {Hash : Type} `{HashFn Hash} (C : Crypto) `{!CryptoLaws C}.
Hypothesis HashBig_word : forall h : Hash, is_word (HashBig h).
Hypothesis Keccak_inj : forall b b' : bytes, Keccak256 (Hash := Hash) b = Keccak256 b' -> b = b'.
Context (config : ChainConfig) (vmConfig : Config) (fuel : nat).
Context (Sender : Transaction -> option Z) (TxHash : Transaction -> Hash) (StateRoot : State Hash -> bytes).
Context (GetHeader : Z -> Z -> option Header) (Author : Header -> Z).
Context (Finalize : Header -> list Header -> State Hash -> option (State Hash)) (valid : Header -> list Header -> Prop)
  (reward : Header -> list Header -> Z) `{!EndOfBlock Finalize valid reward}.
Context (DAORefundContract : Z) (DAODrainList : list Z).
Implicit Types (p q : Progress Hash) (tx : Transaction).

(** Go's types of a transaction, with the gas below 2^44. *)
Record tx_typed tx : Prop := {
  tx_Sender from : Sender tx = Some from -> is_word from;
  tx_To a : Recipient tx = Some a -> is_word a;
  tx_Value : is_word (Amount tx);
  tx_Price : is_word (Price tx);
  tx_Gas : 0 <= TxGasLimit tx < precompile_limit;
  tx_Data : small_bytes (Payload tx);
  tx_fuel : TxGasLimit tx < Z.of_nat fuel }.

(** A header of a chain between EIP158 and Constantinople, checked before. *)
Record header_typed (h : Header) : Prop := {
  ht_Number : is_Some (Number h);
  ht_Time : is_Some (BlockHeader.Time h);
  ht_Difficulty : is_Some (BlockHeader.Difficulty h);
  ht_GasLimit : is_u64 (BlockHeader.GasLimit h);
  ht_Author : is_word (Author h);
  ht_parent : is_word (ParentHash h);
  ht_ancestors a n x : GetHeader a n = Some x -> is_word (ParentHash x);
  ht_rules : IsEIP158 config (Number h) = true /\ IsConstantinople config (Number h) = false /\ IsEWASM config (Number h) = false }.

Lemma ancestor_hash_word f : forall h n,
  (forall a m x, GetHeader a m = Some x -> is_word (ParentHash x)) -> is_word (ParentHash h) -> is_word (ancestor_hash GetHeader f h n).
Proof.
  assert (is_word 0) as H0 by by_decide.
  induction f as [|f IH]; intros h n Hall Hp; cbn [ancestor_hash]; destruct (number_below h) as [m|]; try done; case_if; try done.
  destruct (GetHeader (ParentHash h) m) as [x|] eqn:Eh; [|done]. apply IH; [done|]. by eapply Hall.
Qed.

(** The machine of a transaction. *)
Lemma context_typed h tx msg :
  header_typed h -> tx_typed tx -> AsMessage Sender tx = Some msg ->
  exists ctx evm, NewEVMContext GetHeader Author msg h None = Some ctx /\ NewEVM ctx config vmConfig = Some evm /\
    evm_typed evm /\ rConstantinople (chainRules evm) = false /\ message_typed msg /\ Gas msg = TxGasLimit tx.
Proof.
  intros Hh Ht Em. destruct (ht_rules _ Hh) as (_ & Hcon & Hew). destruct (ht_Number _ Hh) as [n En].
  destruct (ht_Time _ Hh) as [t Et]. destruct (ht_Difficulty _ Hh) as [df Ed]. unfold AsMessage in Em.
  destruct (Sender tx) as [from|] eqn:Es; [|done]. injection Em as <-. destruct Ht.
  unfold NewEVMContext. rewrite En, Et, Ed. cbn [mbind option_bind]. eexists _, _. split; [done|].
  unfold NewEVM. cbn [EvmState.BlockNumber]. rewrite En in Hew. rewrite Hew. split; [done|]. split; [|split; [|split]].
  - split; cbn; [by apply tx_Sender0|done|by apply (ht_Author h)|]. intros m. apply ancestor_hash_word; apply Hh.
  - rewrite En in Hcon. exact Hcon.
  - split; cbn; try done; [by apply tx_Sender0|by apply tx_Price0].
  - done.
Qed.

(** What a transaction does to the progress of a block. *)
Record advances tx (r : Receipt Hash) p q : Prop := {
  ad_typed : state_typed (statedb q);
  ad_supply : total_supply (statedb q) <= total_supply (statedb p);
  ad_pool : pool q = pool p - ReceiptGasUsed r;
  ad_used : usedGas q = usedGas p + ReceiptGasUsed r;
  ad_cumulative : CumulativeGasUsed r = usedGas q;
  ad_gas : TxGas <= 2 * ReceiptGasUsed r /\ ReceiptGasUsed r <= TxGasLimit tx /\ ReceiptGasUsed r <= pool p }.

(** The pool and the gas used make up the limit. *)
Definition balanced (limit : Z) p : Prop := is_u64 limit /\ 0 <= pool p /\ 0 <= usedGas p /\ pool p + usedGas p = limit.

Abbreviation PH := (PrecompiledContractsHomestead C).
Abbreviation PB := (PrecompiledContractsByzantium C).

Lemma ApplyTransaction_ok limit h tx p :
  header_typed h -> tx_typed tx -> state_typed (statedb p) -> balanced limit p ->
  match ApplyTransaction config vmConfig fuel PH PB Sender TxHash StateRoot GetHeader Author None h tx p with
  | PDone (r, q) => advances tx r p q /\ balanced limit q
  | PFailed _ => True
  | PPanics | PNoFuel => False
  end.
Proof.
  intros Hh Ht Hd (Hlim & Hp0 & Hu0 & Hsum). unfold ApplyTransaction. destruct (AsMessage Sender tx) as [msg|] eqn:Em; [|done].
  destruct (context_typed h tx msg Hh Ht Em) as (ctx & evm & -> & Eevm & Hevm & Hcon & Hmsg & Hgas). cbn [no_panic pbind].
  rewrite Eevm. cbn [no_panic pbind]. unfold is_u64 in Hlim.
  pose proof (ApplyMessage_sound C HashBig_word Keccak_inj evm fuel msg Hevm Hcon Hmsg ltac:(rewrite Hgas; apply Ht) (pool p) (statedb p) Hd
    ltac:(unfold is_u64; lia)) as Ha.
  destruct (ApplyMessage _ _ _ _ _ _ _) as [res st]. destruct Ha as (Hst & Hsup & Ha).
  destruct res as [[[ret gas] failed]|e| |]; [|done..]. destruct Ha as (_ & Hlow & Hhigh & Hpool & Hgp).
  rewrite (proj1 (ht_rules _ Hh)), orb_true_r. destruct (CreateBloom_total [log <$> GetLogs (Finalise true (st_state st)) (TxHash tx)]) as (b & -> & _).
  cbn [no_panic pbind]. destruct (Finalise_typed (st_state st) Hst) as [Hft Hfs]. unfold TxGas in *.
  rewrite (u64_small (usedGas p + gas)) by (unfold is_u64; lia). split.
  - split; cbn [statedb pool usedGas ReceiptGasUsed CumulativeGasUsed]; try done; [lia|]. unfold TxGas. lia.
  - unfold balanced. cbn [pool usedGas]. unfold is_u64. lia.
Qed.

(** * All transactions *)
Fixpoint gas_sum (rs : list (Receipt Hash)) : Z := match rs with [] => 0 | r :: rs => ReceiptGasUsed r + gas_sum rs end.

(** The receipts count the gas up from [used]. *)
Fixpoint cumulative (used : Z) (rs : list (Receipt Hash)) : Prop :=
  match rs with [] => True | r :: rs => CumulativeGasUsed r = used + ReceiptGasUsed r /\ cumulative (CumulativeGasUsed r) rs end.

Definition pays tx (r : Receipt Hash) : Prop := TxGas <= 2 * ReceiptGasUsed r /\ ReceiptGasUsed r <= TxGasLimit tx.

Lemma apply_transactions_ok limit bh h txs : forall i p,
  header_typed h -> Forall tx_typed txs -> state_typed (statedb p) -> balanced limit p ->
  match apply_transactions config vmConfig fuel PH PB Sender TxHash StateRoot GetHeader Author bh h i txs p with
  | PDone (rs, q) =>
      state_typed (statedb q) /\ total_supply (statedb q) <= total_supply (statedb p) /\ balanced limit q /\
      Forall2 pays txs rs /\ usedGas q = usedGas p + gas_sum rs /\ cumulative (usedGas p) rs
  | PFailed _ => True
  | PPanics | PNoFuel => False
  end.
Proof.
  induction txs as [|tx txs IH]; intros i p Hh Hall Hd Hb; cbn [apply_transactions].
  { split_and!; try done. cbn. lia. }
  apply Forall_cons_iff in Hall as [Ht Hall]. destruct (Prepare_typed (TxHash tx) bh i (statedb p) Hd) as [Hd' Hs'].
  set (p' := mkProgress _ _ _). pose proof (ApplyTransaction_ok limit h tx p' Hh Ht Hd' Hb) as Ha.
  destruct (ApplyTransaction _ _ _ _ _ _ _ _ _ _ _ _ _ _) as [[r q]|e| |]; cbn [pbind]; try done. destruct Ha as [[] Hq].
  specialize (IH (i + 1) q Hh Hall ad_typed0 Hq). destruct (apply_transactions _ _ _ _ _ _ _ _ _ _ _ _ _ _ _) as [[rs q']|e| |]; cbn [pbind]; try done.
  destruct IH as (H1 & H2 & H3 & H4 & H5 & H6). subst p'. cbn [statedb usedGas pool] in *. split_and!; try done; try lia.
  - constructor; [|done]. split; apply ad_gas0.
  - cbn. lia.
  - cbn. rewrite ad_cumulative0. split; [lia|done].
Qed.

(** C1: a block on a good state is processed without a panic. The block: after
    EIP-158 and before Constantinople and EWASM, with a number, a time, a
    difficulty and a 64-bit gas limit in its header, transactions of Go's types
    with less than 2^44 gas each, and uncles that the engine takes ([valid]).
    The state: well-formed, with ether that stays below 2^256 together with the
    reward, and a DAO refund contract that is not one of the drained accounts.
    The hash of codes has no collisions, and there is more fuel than the gas of
    each transaction. When all transactions can be applied, the state has no
    more ether than before and the reward of the engine; each transaction has a
    receipt and used between half of the 21000 gas of a transaction and its own
    limit; the receipts count the gas up, and all of it is at most the limit of
    the block. *)
Theorem Process_accounts bh h txs uncles d :
  header_typed h -> Forall tx_typed txs -> valid h uncles -> DAORefundContract ∉ DAODrainList ->
  state_typed d -> total_supply d + reward h uncles < 2 ^ 256 ->
  match Process config vmConfig fuel PH PB Sender TxHash StateRoot GetHeader Author Finalize DAORefundContract DAODrainList bh h txs uncles d with
  | PDone (receipts, _, used, d') =>
      state_typed d' /\ total_supply d' <= total_supply d + reward h uncles /\
      Forall2 pays txs receipts /\ cumulative 0 receipts /\ used = gas_sum receipts /\ used <= BlockHeader.GasLimit h
  | PFailed _ => True
  | PPanics | PNoFuel => False
  end.
Proof.
  intros Hh Hall Hv Hdao [Hd Hs] Hr. unfold Process, GasPool_AddGas. pose proof (ht_GasLimit _ Hh) as Hg. unfold is_u64 in Hg.
  rewrite (proj2 (Z.ltb_ge _ _)) by (unfold MaxUint64; lia). cbn [no_panic pbind]. rewrite Z.add_0_l.
  set (d0 := if at_dao_fork config h then _ else d).
  assert (state_ok d0 /\ total_supply d0 = total_supply d) as [Hd0 Hs0].
  { unfold d0. case_if; [|done]. destruct (ApplyDAOHardFork_ok DAORefundContract DAODrainList d Hd Hdao) as (H1 & H2 & _). done. }
  pose proof (apply_transactions_ok (BlockHeader.GasLimit h) bh h txs 0 (mkProgress (BlockHeader.GasLimit h) 0 d0) Hh Hall
    ltac:(split; [done|cbn; lia]) ltac:(unfold balanced, is_u64; cbn; lia)) as Ha.
  destruct (apply_transactions _ _ _ _ _ _ _ _ _ _ _ _ _ _ _) as [[rs q]|e| |]; cbn [pbind]; try done.
  destruct Ha as (H1 & H2 & (H3 & H4 & H5 & H6) & H7 & H8 & H9). cbn [statedb usedGas] in *.
  destruct (end_of_block h uncles (statedb q) Hv (typed_ok _ H1)) as (d' & -> & Hd' & Hsup). cbn [no_panic pbind].
  split; [split; [done|lia]|]. split_and!; try done; lia.
Qed.
End Block.

(** * The gas limit of the next block *)
(** The limit is close to the limit of the parent, and not too small. *)
Lemma CalcGasLimit_close used p floor ceil :
  5120 <= p < 2 ^ 62 -> 0 <= used <= p ->
  let l := CalcGasLimit used p floor ceil in Z.abs (p - l) < p / GasLimitBoundDivisor /\ MinGasLimit <= l < 2 ^ 63.
Proof.
  intros Hp Hu. unfold CalcGasLimit, GasLimitBoundDivisor, MinGasLimit.
  pose proof (Z.div_mod p 1024 ltac:(done)) as Ep. pose proof (Z.mod_pos_bound p 1024 ltac:(done)) as Mp.
  pose proof (Z.div_mod used 2 ltac:(done)) as Eu. pose proof (Z.mod_pos_bound used 2 ltac:(done)) as Mu.
  rewrite (u64_small (used + used / 2)) by (unfold is_u64; lia).
  pose proof (Z.div_mod (used + used / 2) 1024 ltac:(done)) as Ec. pose proof (Z.mod_pos_bound (used + used / 2) 1024 ltac:(done)) as Mc.
  set (contrib := (used + used / 2) / 1024) in *. set (q := p / 1024) in *.
  rewrite (u64_small (q - 1)) by (unfold is_u64; lia). rewrite (u64_small (p - (q - 1))) by (unfold is_u64; lia).
  rewrite (u64_small (p - (q - 1) + contrib)), (u64_small (p + (q - 1))) by (unfold is_u64; lia). cbn zeta.
  set (l0 := if _ <? 5000 then _ else _). assert (l0 = Z.max 5000 (p - (q - 1) + contrib)) as -> by (unfold l0; case_if; lia).
  repeat case_if; lia.
Qed.

Lemma rbind_neq {E A B} (m : result E A) (k : A -> result E B) e :
  m <> Err e -> (forall a, k a <> Err e) -> rbind m k <> Err e.
Proof. destruct m; cbn; auto. congruence. Qed.

(** The limit a miner computes from a parent block of at least 5120 gas that
    obeys its limit is never refused by the engine, whatever the targets of the
    miner are. *)
Theorem CalcGasLimit_accepted config EIP150Hash EmptyUncleHash now Hash hashimoto h parent floor ceil uncle seal :
  5120 <= BlockHeader.GasLimit parent < 2 ^ 62 -> 0 <= BlockHeader.GasUsed parent <= BlockHeader.GasLimit parent ->
  BlockHeader.GasLimit h = CalcGasLimit (BlockHeader.GasUsed parent) (BlockHeader.GasLimit parent) floor ceil ->
  verifyHeader config EIP150Hash EmptyUncleHash now Hash hashimoto h parent uncle seal <> Err errBadGasLimit.
Proof.
  intros Hp Hu El. destruct (CalcGasLimit_close (BlockHeader.GasUsed parent) (BlockHeader.GasLimit parent) floor ceil Hp Hu) as [Hd Hl]. rewrite <-El in Hd, Hl.
  unfold verifyHeader. rewrite (proj2 (Z.ltb_ge (2 ^ 63 - 1) (BlockHeader.GasLimit h))) by lia.
  rewrite gas_distance_abs by (unfold MinGasLimit in *; lia).
  rewrite (proj2 (Z.leb_gt (BlockHeader.GasLimit parent / GasLimitBoundDivisor) _)), (proj2 (Z.ltb_ge (BlockHeader.GasLimit h) MinGasLimit)) by lia.
  assert (forall b e, e <> errBadGasLimit -> fail_if b e <> Err errBadGasLimit) as Hf by (intros [] e He; cbn; congruence).
  repeat (apply rbind_neq; [|intros ?]); try (by apply Hf); try (by unfold or_panic; case_match); cbn [orb fail_if]; try done.
  - by case_match; apply Hf.
  - case_match; [|done]. unfold fail_with, VerifySeal. destruct (hashimoto h). by repeat case_match; simplify_eq.
  - unfold fail_with, VerifyDAOHeaderExtraData. by repeat case_match; simplify_eq.
  - unfold fail_with, VerifyForkHashes. by repeat case_match; simplify_eq.
Qed.

(** Below 5120 gas it can be: a full parent of 5119 gas lets the limit grow by
    4, which is the bound. *)
Definition ex_parent : Header := mkHeader 0 0 0 0 0 0 0 (Some 131072) (Some 1) 5119 5119 (Some 10) [] 0 [].
Definition ex_child : Header :=
  mkHeader 0 0 0 0 0 0 0 (Some 131072) (Some 2) (CalcGasLimit 5119 5119 0 (2 ^ 60)) 0 (Some 30) [] 0 [].
Definition ex_mainnet : ChainConfig := mkChainConfig (Some 1) (Some 0) None false None None None None None None.

Lemma small_limit_refused :
  verifyHeader ex_mainnet 0 0 1000 (fun _ => 0) (fun _ => (0, 0)) ex_child ex_parent false false = Err errBadGasLimit.
Proof. by_compute. Qed.

Lemma CalcGasLimit_accepted_witness :
  CalcGasLimit 6000000 8000000 8000000 8000000 = 8000000 /\
  verifyHeader ex_mainnet 0 0 1000 (fun _ => 0) (fun _ => (0, 0))
    (mkHeader 0 0 0 0 0 0 0 (Some 131072) (Some 2) 8000000 0 (Some 30) [] 0 [])
    (mkHeader 0 0 0 0 0 0 0 (Some 131072) (Some 1) 8000000 6000000 (Some 10) [] 0 []) false false <> Err errBadGasLimit.
Proof. split; [by_compute|]. apply (CalcGasLimit_accepted _ _ _ _ _ _ _ _ 8000000 8000000); cbn; [lia|lia|by_compute]. Defined.
