(* ===== verification/TxPoolPlaces.v ===== *)
(** The books of the transaction pool, on their own: every transaction of the
    table of all transactions has one place, among the executable ones or among
    the queued ones of its sender, or is on its way between them. *)
From stdpp Require Import gmap sorting.
From S2P Require Import Prelude GoMath GoHeap TxSorted TxSortedCorrect TxList TxListCorrect.

#[export] Instance Transaction_eq_dec : EqDecision Transaction.
Proof. solve_decision. Defined.

Definition places := Z -> Z -> option Transaction.

Section Places.
Context (sender : Transaction -> Z).
Implicit Types (P Q : places) (A : gmap Z Transaction) (L R : list Transaction) (tx : Transaction).

Definition place tx : Z * Z := (sender tx, AccountNonce tx).
Definition at_place P tx : option Transaction := P (sender tx) (AccountNonce tx).

(** [L] are the transactions on their way. *)
Record consistent P Q A L : Prop := {
  con_place a n tx : P a n = Some tx \/ Q a n = Some tx -> sender tx = a /\ AccountNonce tx = n /\ is_u64 n;
  con_disjoint a n : P a n = None \/ Q a n = None;
  con_all tx : A !! TxHash tx = Some tx <-> at_place P tx = Some tx \/ at_place Q tx = Some tx \/ tx ∈ L;
  con_keyed h tx : A !! h = Some tx -> TxHash tx = h;
  con_limbo tx : tx ∈ L -> at_place P tx = None /\ at_place Q tx = None /\ is_u64 (AccountNonce tx);
  con_once : NoDup (place <$> L) }.

Lemma consistent_swap P Q A L : consistent P Q A L -> consistent Q P A L.
Proof.
  intros [H1 H2 H3 H4 H5 H6]. split; try done.
  - intros a n tx Hx. apply H1. tauto.
  - intros a n. destruct (H2 a n); tauto.
  - intros tx. rewrite H3. tauto.
  - intros tx Hx. apply H5 in Hx. tauto.
Qed.

Lemma consistent_ext P P' Q Q' A L :
  (forall a n, P' a n = P a n) -> (forall a n, Q' a n = Q a n) -> consistent P Q A L -> consistent P' Q' A L.
Proof.
  intros HP HQ [H1 H2 H3 H4 H5 H6]. unfold at_place in *. split; unfold at_place; try done; intros *; rewrite ?HP, ?HQ; auto.
Qed.

Lemma consistent_perm P Q A L L' : L ≡ₚ L' -> consistent P Q A L -> consistent P Q A L'.
Proof.
  intros HL [H1 H2 H3 H4 H5 H6]. split; try done; [intros tx; rewrite H3, HL; done|intros tx Hx; apply H5; by rewrite HL|].
  by rewrite <-HL.
Qed.

(** Transactions are taken out of their places. *)
Lemma take_out P P' Q A L R :
  consistent P Q A L -> NoDup R -> (forall tx, tx ∈ R -> at_place P tx = Some tx) ->
  (forall a n tx, P' a n = Some tx <-> P a n = Some tx /\ tx ∉ R) ->
  consistent P' Q A (R ++ L).
Proof.
  intros [H1 H2 H3 H4 H5 H6] HR Hin HP'.
  assert (forall tx, tx ∈ R -> at_place P' tx = None) as Hout.
  { intros tx Hx. unfold at_place. destruct (P' _ _) as [y|] eqn:E; [|done]. apply HP' in E as [E Hy].
    specialize (Hin tx Hx). unfold at_place in Hin. congruence. }
  assert (forall a n, P a n = None -> P' a n = None) as Hnone.
  { intros a n Hn. destruct (P' a n) as [y|] eqn:E; [|done]. apply HP' in E as [E _]. congruence. }
  split; try done.
  - intros a n tx [Hx|Hx]; apply H1; [left; by apply HP' in Hx as [? _]|by right].
  - intros a n. destruct (H2 a n); [left; auto|by right].
  - intros tx. rewrite H3, elem_of_app. unfold at_place in *. rewrite HP'. split; [|naive_solver].
    intros [Hx|[Hx|Hx]]; [|tauto|tauto]. destruct (decide (tx ∈ R)); tauto.
  - intros tx [Hx|Hx]%elem_of_app.
    + split; [auto|]. specialize (Hin tx Hx). unfold at_place in *. destruct (H2 (sender tx) (AccountNonce tx)); [congruence|].
      split; [done|]. by destruct (H1 _ _ _ (or_introl Hin)) as (_ & _ & ?).
    + destruct (H5 tx Hx) as (E1 & E2 & E3). split; [by apply Hnone|done].
  - rewrite fmap_app. apply list.NoDup_app. split; [|split; [|done]].
    + apply NoDup_fmap_2_strong; [|done]. intros x y Hx Hy Exy. injection Exy as E1 E2.
      pose proof (Hin x Hx) as Ex. pose proof (Hin y Hy) as Ey. unfold at_place in *. congruence.
    + intros pl (x & -> & Hx)%list_elem_of_fmap (y & Exy & Hy)%list_elem_of_fmap. injection Exy as E1 E2.
      pose proof (Hin x Hx) as Ex. destruct (H5 y Hy) as [Ey _]. unfold at_place in *. congruence.
Qed.

(** One on its way gets a place. *)
Lemma put_in P P' Q A L tx :
  consistent P Q A (tx :: L) ->
  (forall a n, P' a n = if decide ((a, n) = place tx) then Some tx else P a n) ->
  consistent P' Q A L.
Proof.
  intros [H1 H2 H3 H4 H5 H6] HP'. destruct (H5 tx ltac:(by left)) as (E1 & E2 & Eu). cbn in H6. apply list.NoDup_cons in H6 as [Hnew Honce].
  split; try done.
  - intros a n y [Hy|Hy]; [|by apply H1; right]. rewrite HP' in Hy. case_decide as Ep; [|by apply H1; left].
    injection Hy as <-. injection Ep as -> ->. done.
  - intros a n. rewrite HP'. case_decide as Ep; [|apply H2]. injection Ep as -> ->. by right.
  - intros y. rewrite H3, elem_of_cons. unfold at_place. rewrite HP'. case_decide as Ep.
    + split; [|naive_solver]. intros [Hy|[Hy|[->|Hy]]]; [|tauto|tauto|tauto].
      injection Ep as E3 E4. unfold at_place in *. congruence.
    + split; [|naive_solver]. intros [Hy|[Hy|[->|Hy]]]; [tauto|tauto| |tauto]. by destruct Ep.
  - intros y Hy. destruct (H5 y ltac:(by right)) as (E3 & E4 & E5). split; [|done]. unfold at_place. rewrite HP'.
    case_decide as Ep; [|done]. destruct Hnew. change (place y = place tx) in Ep. rewrite <-Ep. by apply list_elem_of_fmap_2.
Qed.

(** A new one is on its way. *)
Lemma arrive P Q A L tx :
  consistent P Q A L -> A !! TxHash tx = None -> at_place P tx = None -> at_place Q tx = None -> is_u64 (AccountNonce tx) ->
  place tx ∉ (place <$> L) -> consistent P Q (<[TxHash tx := tx]> A) (tx :: L).
Proof.
  intros [H1 H2 H3 H4 H5 H6] HA EP EQ Hu Hnew. split; try done.
  - intros y. rewrite elem_of_cons. destruct (decide (TxHash y = TxHash tx)) as [E|Hne].
    + rewrite E, lookup_insert_eq. split; [intros [= ->]; tauto|].
      assert (A !! TxHash y = Some y -> False) as Hno by (rewrite E, HA; done).
      intros [Hy|[Hy|[->|Hy]]]; [exfalso; apply Hno, H3; tauto..|done|exfalso; apply Hno, H3; tauto].
    + rewrite lookup_insert_ne, H3 by done. naive_solver.
  - intros h y. destruct (decide (h = TxHash tx)) as [->|Hne]; [rewrite lookup_insert_eq; by intros [= <-]|].
    rewrite lookup_insert_ne by done. apply H4.
  - intros y [->|Hy]%elem_of_cons; [done|by apply H5].
  - cbn. by apply list.NoDup_cons.
Qed.

(** One on its way is forgotten. *)
Lemma leave P Q A L tx : consistent P Q A (tx :: L) -> consistent P Q (delete (TxHash tx) A) L.
Proof.
  intros [H1 H2 H3 H4 H5 H6]. destruct (H5 tx ltac:(by left)) as (E1 & E2 & Eu). cbn in H6. apply list.NoDup_cons in H6 as [Hnew Honce].
  assert (A !! TxHash tx = Some tx) as HA by (apply H3; right; right; by left).
  split; try done.
  - intros y. destruct (decide (TxHash y = TxHash tx)) as [E|Hne].
    + rewrite E, lookup_delete_eq. split; [done|]. intros Hy. exfalso.
      assert (A !! TxHash y = Some y) as Hy' by (apply H3; rewrite elem_of_cons; tauto). rewrite E, HA in Hy'. injection Hy' as <-.
      destruct Hy as [Hy|[Hy|Hy]]; [congruence|congruence|]. by apply Hnew, list_elem_of_fmap_2.
    + rewrite lookup_delete_ne, H3, elem_of_cons by done. naive_solver.
  - intros h y Hy. apply lookup_delete_Some in Hy as [_ Hy]. by apply H4.
  - intros y Hy. apply H5. by right.
Qed.

(** A new one takes the place of another. *)
Lemma replace_in P P' Q A tx o :
  consistent P Q A [] -> at_place P tx = Some o -> A !! TxHash tx = None ->
  (forall a n, P' a n = if decide ((a, n) = place tx) then Some tx else P a n) ->
  consistent P' Q (<[TxHash tx := tx]> (delete (TxHash o) A)) [].
Proof.
  intros H Ho HA HP'. destruct (con_place _ _ _ _ H _ _ o (or_introl Ho)) as (Es & En & Hu).
  assert (at_place P o = Some o) as Ho' by (unfold at_place; by rewrite Es, En).
  set (P1 := fun a n => if decide ((a, n) = place tx) then None else P a n).
  assert (consistent P1 Q A ([o] ++ [])) as H1.
  { eapply take_out; [exact H|by apply NoDup_singleton|by intros y ->%list_elem_of_singleton|].
    intros a n y. subst P1. cbn. rewrite list_elem_of_singleton. case_decide as Ep.
    - split; [done|]. intros [Hy Hne]. destruct Hne. injection Ep as -> ->. unfold at_place in Ho. congruence.
    - split; [|tauto]. intros Hy. split; [done|]. intros ->. destruct (con_place _ _ _ _ H _ _ o (or_introl Hy)) as (<- & <- & _).
      destruct Ep. unfold place. congruence. }
  apply leave in H1. eapply put_in; [apply (arrive P1 Q _ [] tx)|].
  - exact H1.
  - by rewrite lookup_delete_None; right.
  - subst P1. unfold at_place. by rewrite decide_True.
  - unfold at_place. destruct (con_disjoint _ _ _ _ H (sender tx) (AccountNonce tx)) as [E|]; [|done]. unfold at_place in Ho. congruence.
  - done.
  - apply list.not_elem_of_nil.
  - intros a n. rewrite HP'. subst P1. cbn. by case_decide.
Qed.

(** Two in the pool with one hash are the same. *)
Lemma place_unique P Q A L tx : consistent P Q A L -> at_place P tx = Some tx \/ at_place Q tx = Some tx -> A !! TxHash tx = Some tx.
Proof. intros H Hx. apply (con_all _ _ _ _ H). tauto. Qed.
End Places.

(** * Lists lose transactions *)
Record takes (l : txList) (R : list Transaction) (l' : txList) : Prop := {
  takes_ok : list_ok l';
  takes_strict : strict l' = strict l;
  takes_once : NoDup R;
  takes_in tx : tx ∈ R -> list_items l !! AccountNonce tx = Some tx;
  takes_rest n tx : list_items l' !! n = Some tx <-> list_items l !! n = Some tx /\ tx ∉ R }.

Lemma takes_nil l : list_ok l -> takes l [] l.
Proof. intros Hok. split; try done; [constructor|set_solver|]. intros n tx. split; [|tauto]. intros Hx. split; [done|apply not_in_nil]. Qed.

Lemma takes_listing l l' R k K :
  list_ok l -> list_ok l' -> strict l' = strict l -> listing (list_items l) K -> K ≡ₚ R ++ k -> listing (list_items l') k -> takes l R l'.
Proof.
  intros Hok Hok' Hs [HK1 HK2] HP [Hk1 Hk2]. pose proof (nonce_sorted_NoDup K HK1) as Hnd. rewrite HP in Hnd.
  apply list.NoDup_app in Hnd as (HR & Hdis & _). split; try done.
  - intros tx Hx. apply HK2. rewrite HP, elem_of_app. by left.
  - intros n tx. assert (forall n tx, list_items l' !! n = Some tx -> tx ∈ k) as Hin'.
    { intros m y Hy. apply Hk2. by destruct (sorted_keyed _ (list_sorted _ Hok') _ _ Hy) as [-> _]. }
    split.
    + intros Hx. destruct (sorted_keyed _ (list_sorted _ Hok') _ _ Hx) as [En _]. apply Hin' in Hx. split.
      * rewrite <-En. apply HK2. rewrite HP, elem_of_app. by right.
      * intros HxR. by apply (Hdis tx).
    + intros [Hx HnR]. destruct (sorted_keyed _ (list_sorted _ Hok) _ _ Hx) as [En _]. rewrite <-En in *.
      apply Hk2. apply HK2 in Hx. rewrite HP, elem_of_app in Hx. tauto.
Qed.

Lemma takes_one l tx l' : list_ok l -> takes l [tx] l' -> list_items l' = delete (AccountNonce tx) (list_items l).
Proof.
  intros Hok Ht. pose proof (takes_in _ _ _ Ht tx ltac:(by left)) as Hx. apply map_eq. intros n. apply option_eq. intros y.
  rewrite (takes_rest _ _ _ Ht), list_elem_of_singleton, lookup_delete_Some.
  split; intros [H1 H2]; (split; [congruence|]); [done|]. intros ->. destruct (sorted_keyed _ (list_sorted _ Hok) _ _ H2) as [E _]. congruence.
Qed.

Section Range.
Context (range : gmap Z Transaction -> list (Z * Transaction)) (range_all : forall m, range m ≡ₚ map_to_list m).

Lemma list_Forward_takes t l removed l' :
  list_ok l -> list_Forward t l = (removed, l') ->
  takes l removed l' /\ forall n, is_Some (list_items l' !! n) <-> is_Some (list_items l !! n) /\ t <= n.
Proof.
  intros Hok E. pose proof (list_Forward_ok range range_all _ _ _ _ Hok E) as Hok'. unfold list_Forward in E.
  destruct (Forward t (txs l)) as [r m] eqn:E1. injection E as <- <-.
  apply (Forward_ok range range_all) in E1 as (Hs & [Hr1 Hr2] & Em); [|apply Hok]. 
  assert (forall n tx, items m !! n = Some tx <-> list_items l !! n = Some tx /\ t <= n) as Hm.
  { intros n tx. rewrite Em, keep_lookup. fold (list_items l). rewrite negb_true_iff, Z.ltb_ge. done. }
  split.
  - split; try done; [by apply nonce_sorted_NoDup|by intros tx Hx; apply Hr2, keep_lookup in Hx as [? _]|].
    intros n tx. change (list_items (set_txs m l)) with (items m). rewrite Hm.
    split; intros [Hx Hn]; (split; [done|]); destruct (sorted_keyed _ (list_sorted _ Hok) _ _ Hx) as [En _].
    + intros HxR. apply Hr2, keep_lookup in HxR as [_ Hlt]. apply Z.ltb_lt in Hlt. lia.
    + destruct (decide (t <= n)); [done|]. destruct Hn. apply Hr2, keep_lookup. rewrite En. split; [done|]. apply Z.ltb_lt. lia.
  - intros n. change (list_items (set_txs m l)) with (items m). split.
    + intros [tx Hx]. apply Hm in Hx as [Hx Hn]. by split; [exists tx|].
    + intros [[tx Hx] Hn]. exists tx. by apply Hm.
Qed.

Lemma list_Ready_takes s l ready l' :
  list_ok l -> list_Ready s l = (ready, l') ->
  takes l ready l' /\
  match ready with
  | [] => forall n, is_Some (list_items l !! n) -> s < n
  | tx :: _ => AccountNonce tx <= s /\ consecutive (AccountNonce tx) ready
  end.
Proof.
  intros Hok E. pose proof (list_Ready_ok range range_all _ _ _ _ Hok E) as Hok'. unfold list_Ready in E.
  destruct (Ready s (txs l)) as [r m] eqn:E1. injection E as <- <-.
  apply (Ready_ok range range_all) in E1 as (Hs & k & H1 & H2 & H3); [|apply Hok].
  split; [by eapply takes_listing|]. destruct r; tauto.
Qed.

Lemma list_Cap_takes t l :
  list_ok l -> 0 <= t ->
  exists drops l' k, list_Cap t l = Some (drops, l') /\ takes l drops l' /\ list_Len l' = Z.min t (list_Len l) /\
    listing (list_items l) (k ++ rev drops) /\ listing (list_items l') k.
Proof.
  intros Hok Ht. destruct (Cap_ok range range_all t (txs l) (list_sorted _ Hok) Ht) as (d & m & k & E & Hs & H1 & H2 & H3).
  assert (list_Cap t l = Some (d, set_txs m l)) as E' by (unfold list_Cap; by rewrite E).
  pose proof (list_Cap_ok range range_all _ _ _ _ Hok Ht E') as Hok'. exists d, (set_txs m l), k. split; [done|]. split; [|split; [|done]].
  - eapply takes_listing; [done..|exact H1| |exact H2]. rewrite Permutation_app_comm. f_equiv. symmetry. apply Permutation_rev.
  - transitivity (zlen k); [|done]. unfold list_Len, Len, zlen. f_equal. symmetry. by apply listing_length; [apply Hs|].
Qed.

Lemma filter_NoDup f m removed m' : sorted_ok m -> Filter range f m = (removed, m') -> NoDup removed.
Proof.
  intros Hok E. apply (Filter_ok range range_all) in E as (_ & Hp & _); [|done]. rewrite Hp.
  apply (NoDup_fmap_1 AccountNonce). rewrite <-list_fmap_compose.
  rewrite (list_fmap_ext (AccountNonce ∘ snd) fst).
  - apply NoDup_fst_map_to_list.
  - intros i [n tx] Hx%list_elem_of_lookup_2. apply elem_of_map_to_list, map_lookup_filter_Some in Hx as [Hx _].
    by destruct (sorted_keyed _ Hok _ _ Hx) as [? _].
Qed.

Lemma list_Filter_takes c g l removed invalids l' :
  list_ok l -> list_Filter range c g l = (removed, invalids, l') ->
  takes l (removed ++ invalids) l' /\ filtered c g l removed invalids l'.
Proof.
  intros Hok E. pose proof (list_Filter_filtered range range_all _ _ _ _ _ _ Hok E) as Hf.
  assert (NoDup removed /\ NoDup invalids /\ strict l' = strict l) as (N1 & N2 & Hs).
  { unfold list_Filter in E. destruct (_ && _); [injection E as <- <- <-; repeat constructor|].
    destruct (Filter range (unaffordable _ _) (txs l)) as [rem m] eqn:E1. pose proof E1 as E0.
    apply filter_NoDup in E1; [|apply Hok]. destruct (strict l && _).
    - destruct (Filter range _ m) as [inv m2] eqn:E2. injection E as <- <- <-. split; [done|]. split; [|done].
      eapply filter_NoDup; [|exact E2]. by apply (Filter_ok range range_all _ _ _ _ (list_sorted _ Hok)) in E0 as [? _].
    - injection E as <- <- <-. repeat constructor. done. }
  split; [|done]. destruct Hf as (Hok' & Hr & Hi & Hrest). split; try done.
  - apply list.NoDup_app. split; [done|]. split; [|done]. intros tx Hx Hy. apply Hr in Hx as [_ Hx]. apply Hi in Hy as (_ & Hy & _). congruence.
  - intros tx [Hx|Hx]%elem_of_app; [by apply Hr in Hx as [? _]|by apply Hi in Hx as [? _]].
  - intros n tx. rewrite Hrest, elem_of_app. tauto.
Qed.

Lemma list_Remove_takes tx l b invalids l' :
  list_ok l -> list_Remove range tx l = (b, invalids, l') ->
  b = bool_decide (is_Some (list_items l !! AccountNonce tx)) /\
  match list_items l !! AccountNonce tx with
  | None => list_ok l' /\ strict l' = strict l /\ list_items l' = list_items l /\ invalids = []
  | Some y => takes l (y :: invalids) l' /\ (strict l = false -> invalids = []) /\
      (strict l = true -> forall n, is_Some (list_items l' !! n) <-> is_Some (list_items l !! n) /\ n < AccountNonce tx)
  end.
Proof.
  intros Hok E. pose proof (list_Remove_ok range range_all _ _ _ _ _ Hok E) as Hok'. unfold list_Remove in E.
  pose proof (sorted_keyed _ (list_sorted _ Hok)) as Hk.
  destruct (Remove (AccountNonce tx) (txs l)) as [found m] eqn:E1. apply Remove_ok in E1 as (Hs & Hf & Em); [|apply Hok].
  change (items (txs l)) with (list_items l) in *. subst found.
  destruct (list_items l !! AccountNonce tx) as [y|] eqn:Ey.
  - rewrite bool_decide_true in E by eauto. cbn [negb] in E. destruct (Hk _ _ Ey) as [En _].
    assert (forall n z, items m !! n = Some z <-> list_items l !! n = Some z /\ z <> y) as Hm.
    { intros n z. rewrite Em, lookup_delete_Some. split; intros [H1 H2]; (split; [congruence|]).
      - intros ->. destruct (Hk _ _ H2) as [? _]. congruence.
      - done. }
    destruct (strict l) eqn:Est.
    + destruct (Filter range _ m) as [inv m'] eqn:E2. injection E as <- <- <-. split; [by rewrite bool_decide_true by eauto|].
      pose proof (filter_NoDup _ _ _ _ Hs E2) as Hnd. apply (Filter_lookup range range_all) in E2 as (_ & Hm' & Hi); [|done].
      assert (forall n z, items m' !! n = Some z <-> list_items l !! n = Some z /\ n < AccountNonce tx) as Hrest.
      { intros n z. rewrite Hm', Hm, Z.ltb_ge. split.
        - intros [[Hz Hne] Hle]. destruct (Hk _ _ Hz) as [Ez _]. split; [done|].
          destruct (decide (n = AccountNonce tx)) as [->|]; [congruence|lia].
        - intros [Hz Hlt]. destruct (Hk _ _ Hz) as [Ez _]. split; [|lia]. split; [done|]. intros ->. lia. }
      split; [|split; [done|]].
      * split; try done.
        { apply list.NoDup_cons. split; [|done]. intros Hy%Hi. destruct Hy as [Hy _]. by apply Hm in Hy as [_ ?]. }
        { intros z [->|Hz]%elem_of_cons; [by rewrite En|]. apply Hi in Hz as [Hz _]. by apply Hm in Hz as [? _]. }
        intros n z. change (list_items (set_txs m' l)) with (items m'). rewrite Hrest, elem_of_cons.
        split; intros [Hz Hn]; (split; [done|]); destruct (Hk _ _ Hz) as [Ez _].
        { intros [->|Hz'%Hi]; [lia|]. destruct Hz' as [_ Hz']. apply Z.ltb_lt in Hz'. lia. }
        { destruct (decide (n < AccountNonce tx)); [done|]. destruct Hn. destruct (decide (z = y)); [by left|right].
          apply Hi. rewrite Hm, Ez. split; [done|]. apply Z.ltb_lt. destruct (decide (n = AccountNonce tx)) as [->|]; [congruence|lia]. }
      * intros _ n. change (list_items (set_txs m' l)) with (items m'). split.
        { intros [z Hz]. apply Hrest in Hz as [Hz ?]. eauto. }
        { intros [[z Hz] ?]. exists z. by apply Hrest. }
    + injection E as <- <- <-. split; [by rewrite bool_decide_true by eauto|]. split; [|done]. split; try done.
      * repeat constructor. apply not_in_nil.
      * intros z Hz%list_elem_of_singleton. subst z. by rewrite En.
      * intros n z. change (list_items (set_txs m l)) with (items m). by rewrite Hm, list_elem_of_singleton.
  - rewrite bool_decide_false in E by (intros [? ?]; done). cbn [negb] in E. injection E as <- <- <-.
    split; [by rewrite bool_decide_false by (intros [? ?]; done)|]. split; [done|]. split; [done|]. split; [|done].
    change (list_items (set_txs m l)) with (items m). rewrite Em. by apply delete_id.
Qed.

(** Listing fills the cache only. *)
Lemma list_Flatten_ok l c l' :
  list_ok l -> list_Flatten range l = (c, l') ->
  list_ok l' /\ strict l' = strict l /\ list_items l' = list_items l /\ listing (list_items l) c.
Proof.
  intros [Hs Hc] E. unfold list_Flatten, Flatten in E. destruct (cache (txs l)) as [k|] eqn:Ek.
  - injection E as <- <-. split; [by split|]. split; [done|]. split; [done|]. by apply (sorted_cache _ Hs).
  - injection E as <- <-. pose proof (listing_of range range_all _ (sorted_keyed _ Hs)) as Hl.
    split; [|done]. split; [|done]. destruct Hs. split; try done. intros k' [= <-]. done.
Qed.
End Range.
