(* ===== verification/TxPool.v ===== *)
(** The transaction pool, core/tx_pool.go: executable and queued transactions
    of each account, what lets a transaction in, what promotes, demotes and
    evicts one, and the reset to a new head of the chain.

    A method under the lock of the pool is a function on its state; a [nil]
    dereference or an index out of range is [None].  The sender of a transaction
    is recovered from its signature by an argument, its size is one, and so are
    the clock and the order in which Go iterates over a map.  Events, logs and
    metrics are left out. *)
From stdpp Require Import gmap sorting.
From S2P Require Import Prelude GoMath Params StateTransition GoHeap TxSorted TxSortedCorrect TxList.

Record TxPoolConfig := mkPoolConfig {
  NoLocals : bool;
  Rejournal : Z;
  PriceLimit : Z;
  PriceBump : Z;
  AccountSlots : Z;
  GlobalSlots : Z;
  AccountQueue : Z;
  GlobalQueue : Z;
  Lifetime : Z
}.

(** Times are in nanoseconds since the zero time of Go, January 1 of year 1;
    the zero time is what a map has for a missing key.  [time.Since] is bounded by
    the width of a [Duration]. *)
Definition time_Second : Z := 10 ^ 9.
Definition time_Since (now t : Z) : Z := Z.max (- 2 ^ 63) (Z.min (2 ^ 63 - 1) (now - t)).

Definition DefaultTxPoolConfig : TxPoolConfig := {|
  NoLocals := false;
  Rejournal := 3600 * time_Second;
  PriceLimit := 1;
  PriceBump := 10;
  AccountSlots := 16;
  GlobalSlots := 4096;
  AccountQueue := 64;
  GlobalQueue := 1024;
  Lifetime := 3 * 3600 * time_Second |}.

Definition sanitize (c : TxPoolConfig) : TxPoolConfig :=
  let at_least_one f := if f c <? 1 then f DefaultTxPoolConfig else f c in {|
  NoLocals := NoLocals c;
  Rejournal := if Rejournal c <? time_Second then time_Second else Rejournal c;
  PriceLimit := at_least_one PriceLimit;
  PriceBump := at_least_one PriceBump;
  AccountSlots := at_least_one AccountSlots;
  GlobalSlots := at_least_one GlobalSlots;
  AccountQueue := at_least_one AccountQueue;
  GlobalQueue := at_least_one GlobalQueue;
  Lifetime := at_least_one Lifetime |}.

Inductive TxPoolError :=
| ErrInvalidSender
| ErrNonceTooLow
| ErrUnderpriced
| ErrReplaceUnderpriced
| ErrInsufficientFunds
| ErrIntrinsicGas
| ErrGasLimit
| ErrNegativeValue
| ErrOversizedData
| ErrKnownTransaction
| ErrIntrinsicOverflow.

(** What the pool reads of the state of the head of the chain. *)
Record ChainState := mkChainState { state_nonce : Z -> Z; state_balance : Z -> Z }.

(** [pendingNonces] are the accounts of the managed state; [journal] holds the
    transactions written to the journal, when there is one. *)
Record TxPool := mkPool {
  config : TxPoolConfig;
  gasPrice : Z;
  currentState : ChainState;
  pendingNonces : gmap Z Z;
  currentMaxGas : Z;
  locals : gset Z;
  journal : option (list Transaction);
  pending : gmap Z txList;
  queue : gmap Z txList;
  beats : gmap Z Z;
  all : gmap Z Transaction;
  priced : txPricedList;
  homestead : bool
}.

Definition set_gasPrice x p := mkPool (config p) x (currentState p) (pendingNonces p) (currentMaxGas p) (locals p) (journal p) (pending p) (queue p) (beats p) (all p) (priced p) (homestead p).
Definition set_head st g p := mkPool (config p) (gasPrice p) st ∅ g (locals p) (journal p) (pending p) (queue p) (beats p) (all p) (priced p) (homestead p).
Definition set_nonces x p := mkPool (config p) (gasPrice p) (currentState p) x (currentMaxGas p) (locals p) (journal p) (pending p) (queue p) (beats p) (all p) (priced p) (homestead p).
Definition set_locals x p := mkPool (config p) (gasPrice p) (currentState p) (pendingNonces p) (currentMaxGas p) x (journal p) (pending p) (queue p) (beats p) (all p) (priced p) (homestead p).
Definition set_journal x p := mkPool (config p) (gasPrice p) (currentState p) (pendingNonces p) (currentMaxGas p) (locals p) x (pending p) (queue p) (beats p) (all p) (priced p) (homestead p).
Definition set_pending x p := mkPool (config p) (gasPrice p) (currentState p) (pendingNonces p) (currentMaxGas p) (locals p) (journal p) x (queue p) (beats p) (all p) (priced p) (homestead p).
Definition set_queue x p := mkPool (config p) (gasPrice p) (currentState p) (pendingNonces p) (currentMaxGas p) (locals p) (journal p) (pending p) x (beats p) (all p) (priced p) (homestead p).
Definition set_beats x p := mkPool (config p) (gasPrice p) (currentState p) (pendingNonces p) (currentMaxGas p) (locals p) (journal p) (pending p) (queue p) x (all p) (priced p) (homestead p).
Definition set_all x p := mkPool (config p) (gasPrice p) (currentState p) (pendingNonces p) (currentMaxGas p) (locals p) (journal p) (pending p) (queue p) (beats p) x (priced p) (homestead p).
Definition set_priced x p := mkPool (config p) (gasPrice p) (currentState p) (pendingNonces p) (currentMaxGas p) (locals p) (journal p) (pending p) (queue p) (beats p) (all p) x (homestead p).
Definition set_homestead x p := mkPool (config p) (gasPrice p) (currentState p) (pendingNonces p) (currentMaxGas p) (locals p) (journal p) (pending p) (queue p) (beats p) (all p) (priced p) x.

(** [ManagedState.GetNonce] and [SetNonce] *)
Definition pending_nonce (p : TxPool) (addr : Z) : Z := default (state_nonce (currentState p) addr) (pendingNonces p !! addr).
Definition set_nonce (addr n : Z) (p : TxPool) : TxPool := set_nonces (<[addr := n]> (pendingNonces p)) p.

(** Lowers the nonce of the managed state. *)
Definition lower_nonce (addr n : Z) (p : TxPool) : TxPool := if n <? pending_nonce p addr then set_nonce addr n p else p.

(** The lists are shared with the maps of the pool. *)
Definition set_pending_list (addr : Z) (list : txList) (p : TxPool) : TxPool := set_pending (<[addr := list]> (pending p)) p.
Definition set_queue_list (addr : Z) (list : txList) (p : TxPool) : TxPool := set_queue (<[addr := list]> (queue p)) p.
Definition delete_pending (addr : Z) (p : TxPool) : TxPool := set_beats (delete addr (beats p)) (set_pending (delete addr (pending p)) p).
Definition delete_queue (addr : Z) (p : TxPool) : TxPool := set_queue (delete addr (queue p)) p.

Section Pool.
Context (range : forall A, gmap Z A -> list (Z * A)).
Context (Sender : Transaction -> option Z) (Size : Transaction -> Z).

(** [from, _ := types.Sender(pool.signer, tx)] *)
Definition sender (tx : Transaction) : Z := default 0 (Sender tx).

Definition contains (p : TxPool) (addr : Z) : bool := bool_decide (addr ∈ locals p).
Definition containsTx (p : TxPool) (tx : Transaction) : bool :=
  match Sender tx with Some addr => contains p addr | None => false end.

(** [pool.all.Add(tx); pool.priced.Put(tx)] *)
Definition pool_put (tx : Transaction) (p : TxPool) : TxPool :=
  set_priced (priced_Put tx (priced p)) (set_all (<[TxHash tx := tx]> (all p)) p).

(** [pool.all.Remove(hash); pool.priced.Removed()] *)
Definition forget (hash : Z) (p : TxPool) : TxPool :=
  let p := set_all (delete hash (all p)) p in
  set_priced (priced_Removed (all p) (range Transaction) (priced p)) p.

Definition forget_all (l : list Transaction) (p : TxPool) : TxPool := foldl (fun p tx => forget (TxHash tx) p) p l.

Definition forget_old (old : option Transaction) (p : TxPool) : TxPool :=
  match old with Some o => forget (TxHash o) p | None => p end.

Definition validateTx (tx : Transaction) (local : bool) (p : TxPool) : option TxPoolError :=
  if 32 * 1024 <? Size tx then Some ErrOversizedData
  else if Amount tx <? 0 then Some ErrNegativeValue
  else if currentMaxGas p <? TxGasLimit tx then Some ErrGasLimit
  else
    match Sender tx with
    | None => Some ErrInvalidSender
    | Some from =>
        let local := local || contains p from in
        if negb local && (Price tx <? gasPrice p) then Some ErrUnderpriced
        else if AccountNonce tx <? state_nonce (currentState p) from then Some ErrNonceTooLow
        else if state_balance (currentState p) from <? Cost tx then Some ErrInsufficientFunds
        else
          match IntrinsicGas (Payload tx) (bool_decide (Recipient tx = None)) (homestead p) with
          | None => Some ErrIntrinsicOverflow
          | Some intrGas => if TxGasLimit tx <? intrGas then Some ErrIntrinsicGas else None
          end
    end.

Definition enqueueTx (hash : Z) (tx : Transaction) (p : TxPool) : (TxPoolError + bool) * TxPool :=
  let from := sender tx in
  let list := default (newTxList false) (queue p !! from) in
  let '(inserted, old, list) := list_Add tx (PriceBump (config p)) list in
  let p := set_queue_list from list p in
  if negb inserted then (inl ErrReplaceUnderpriced, p)
  else
    let p := forget_old old p in
    let p := match all p !! hash with None => pool_put tx p | Some _ => p end in
    (inr (bool_decide (is_Some old)), p).

Definition enqueue_all (l : list Transaction) (p : TxPool) : TxPool := foldl (fun p tx => (enqueueTx (TxHash tx) tx p).2) p l.

Definition journalTx (from : Z) (tx : Transaction) (p : TxPool) : TxPool :=
  match journal p with
  | Some j => if contains p from then set_journal (Some (j ++ [tx])) p else p
  | None => p
  end.

Definition promoteTx (now addr hash : Z) (tx : Transaction) (p : TxPool) : bool * TxPool :=
  let list := default (newTxList true) (pending p !! addr) in
  let '(inserted, old, list) := list_Add tx (PriceBump (config p)) list in
  let p := set_pending_list addr list p in
  if negb inserted then (false, forget hash p)
  else
    let p := forget_old old p in
    let p := match all p !! hash with None => pool_put tx p | Some _ => p end in
    let p := set_beats (<[addr := now]> (beats p)) p in
    (true, set_nonce addr (u64 (AccountNonce tx + 1)) p).

(** [removeTx]: the table of all transactions, and the heap. *)
Definition drop_hash (outofbound : bool) (hash : Z) (p : TxPool) : TxPool :=
  let p := set_all (delete hash (all p)) p in
  if outofbound then set_priced (priced_Removed (all p) (range Transaction) (priced p)) p else p.

Definition remove_queued (tx : Transaction) (p : TxPool) : TxPool :=
  let addr := sender tx in
  match queue p !! addr with
  | None => p
  | Some future =>
      let '(_, _, future) := list_Remove (range Transaction) tx future in
      let p := set_queue_list addr future p in
      if list_Empty future then delete_queue addr p else p
  end.

Definition removeTx (hash : Z) (outofbound : bool) (p : TxPool) : TxPool :=
  match all p !! hash with
  | None => p
  | Some tx =>
      let addr := sender tx in
      let p := drop_hash outofbound hash p in
      match pending p !! addr with
      | None => remove_queued tx p
      | Some list =>
          let '(removed, invalids, list) := list_Remove (range Transaction) tx list in
          if removed then
            let p := set_pending_list addr list p in
            let p := if list_Empty list then delete_pending addr p else p in
            lower_nonce addr (AccountNonce tx) (enqueue_all invalids p)
          else remove_queued tx p
      end
  end.

Definition remove_all (l : list Transaction) (outofbound : bool) (p : TxPool) : TxPool :=
  foldl (fun p tx => removeTx (TxHash tx) outofbound p) p l.

(** [add]: the part that makes room in a full pool. *)
Definition make_room (tx : Transaction) (local : bool) (p : TxPool) : (TxPoolError + unit) * TxPool :=
  let limit := u64 (GlobalSlots (config p) + GlobalQueue (config p)) in
  let count := Z.of_nat (size (all p)) in
  if limit <=? count then
    let '(underpriced, l) := if local then (false, priced p) else priced_Underpriced (all p) (containsTx p) tx (priced p) in
    let p := set_priced l p in
    if underpriced then (inl ErrUnderpriced, p)
    else
      let '(drop, l) := priced_Discard (all p) (containsTx p) (count - Int64 (u64 (limit - 1))) (priced p) in
      (inr tt, remove_all drop false (set_priced l p))
  else (inr tt, p).

(** Replaces an executable transaction. *)
Definition replace_pending (tx : Transaction) (from : Z) (list : txList) (p : TxPool) : (TxPoolError + bool) * TxPool :=
  let '(inserted, old, list) := list_Add tx (PriceBump (config p)) list in
  let p := set_pending_list from list p in
  if negb inserted then (inl ErrReplaceUnderpriced, p)
  else (inr (bool_decide (is_Some old)), journalTx from tx (pool_put tx (forget_old old p))).

Definition add (tx : Transaction) (local : bool) (p : TxPool) : (TxPoolError + bool) * TxPool :=
  let hash := TxHash tx in
  match all p !! hash, validateTx tx local p with
  | Some _, _ => (inl ErrKnownTransaction, p)
  | None, Some e => (inl e, p)
  | None, None =>
      match make_room tx local p with
      | (inl e, p) => (inl e, p)
      | (inr _, p) =>
          let from := sender tx in
          let queue_it :=
            match enqueueTx hash tx p with
            | (inl e, p) => (inl e, p)
            | (inr replace, p) =>
                let p := if local && negb (contains p from) then set_locals ({[from]} ∪ locals p) p else p in
                (inr replace, journalTx from tx p)
            end in
          match pending p !! from with
          | Some list => if Overlaps list tx then replace_pending tx from list p else queue_it
          | None => queue_it
          end
      end
  end.

(** * Promotion *)

Definition promote_all (now addr : Z) (ready : list Transaction) (p : TxPool) : TxPool :=
  foldl (fun p tx => (promoteTx now addr (TxHash tx) tx p).2) p ready.

(** [promoteExecutables] for one account. *)
Definition promote_account (now addr : Z) (p : TxPool) : option TxPool :=
  match queue p !! addr with
  | None => Some p
  | Some list =>
      let '(old, list) := list_Forward (state_nonce (currentState p) addr) list in
      let p := forget_all old (set_queue_list addr list p) in
      let '(drops, _, list) := list_Filter (range Transaction) (state_balance (currentState p) addr) (currentMaxGas p) list in
      let p := forget_all drops (set_queue_list addr list p) in
      let '(ready, list) := list_Ready (pending_nonce p addr) list in
      let p := promote_all now addr ready (set_queue_list addr list p) in
      '(caps, list) ← (if contains p addr then Some ([], list) else list_Cap (Int64 (AccountQueue (config p))) list);
      let p := forget_all caps (set_queue_list addr list p) in
      Some (if list_Empty list then delete_queue addr p else p)
  end.

Definition total_len (m : gmap Z txList) : Z := foldr Z.add 0 (map (fun kv => list_Len kv.2) (range txList m)).

(** [spammers]: the largest first. *)
Definition spam_less (x y : Z * Z) : bool := y.2 <? x.2.

Definition push_spammer (p : TxPool) (h : list (Z * Z)) (kv : Z * txList) : list (Z * Z) :=
  if negb (contains p kv.1) && (AccountSlots (config p) <? list_Len kv.2) then heap_Push spam_less (kv.1, list_Len kv.2) h else h.

(** [list.Cap(list.Len() - 1)] for one offender. *)
Definition cap_one (addr : Z) (p : TxPool) : option TxPool :=
  list ← pending p !! addr;
  '(drops, list) ← list_Cap (list_Len list - 1) list;
  Some (foldl (fun p tx => lower_nonce addr (AccountNonce tx) (forget (TxHash tx) p)) (set_pending_list addr list p) drops).

Fixpoint cap_each (addrs : list Z) (p : TxPool) : option TxPool :=
  match addrs with
  | [] => Some p
  | addr :: addrs => p ← cap_one addr p; cap_each addrs p
  end.

(** Takes one transaction of each of [addrs] while there are too many and the
    account [ref] has more than [threshold]. *)
Fixpoint level (fuel : nat) (addrs : list Z) (ref threshold n : Z) (p : TxPool) : option (Z * TxPool) :=
  match fuel with
  | O => Some (n, p)
  | S fuel =>
      if GlobalSlots (config p) <? n then
        list ← pending p !! ref;
        if threshold <? list_Len list then p ← cap_each addrs p; level fuel addrs ref threshold (n - zlen addrs) p
        else Some (n, p)
      else Some (n, p)
  end.

Fixpoint equalize (fuel : nat) (spammers : list (Z * Z)) (offenders : list Z) (n : Z) (p : TxPool) : option (list Z * Z * TxPool) :=
  match fuel with
  | O => Some (offenders, n, p)
  | S fuel =>
      if GlobalSlots (config p) <? n then
        match heap_Pop spam_less spammers with
        | None => Some (offenders, n, p)
        | Some ((offender, _), spammers) =>
            '(n, p) ←
              match list.last offenders with
              | None => Some (n, p)
              | Some prev => list ← pending p !! offender; level (Z.to_nat n) offenders prev (list_Len list) n p
              end;
            equalize fuel spammers (offenders ++ [offender]) n p
        end
      else Some (offenders, n, p)
  end.

Definition truncate_pending (p : TxPool) : option TxPool :=
  let n := total_len (pending p) in
  if GlobalSlots (config p) <? n then
    let spammers := foldl (push_spammer p) [] (range txList (pending p)) in
    '(offenders, n, p) ← equalize (length spammers) spammers [] n p;
    match list.last offenders with
    | None => Some p
    | Some ref => '(_, p) ← level (Z.to_nat n) offenders ref (AccountSlots (config p)) n p; Some p
    end
  else Some p.

(** [addressesByHeartbeat]; the order of equal heartbeats, which Go leaves open,
    is the one of the iteration. *)
Definition by_heartbeat (x y : Z * Z) : Prop := x.2 <= y.2.
#[local] Instance by_heartbeat_dec x y : Decision (by_heartbeat x y).
Proof. unfold by_heartbeat. apply _. Defined.

(** The loop over the addresses, the last heartbeat first. *)
Fixpoint drop_queued (addrs : list Z) (drop : Z) (p : TxPool) : option TxPool :=
  match addrs with
  | [] => Some p
  | addr :: addrs =>
      if drop <=? 0 then Some p
      else
        list ← queue p !! addr;
        let size := list_Len list in
        let '(txs, list) := list_Flatten (range Transaction) list in
        let p := set_queue_list addr list p in
        if size <=? drop then drop_queued addrs (drop - size) (remove_all txs true p)
        else drop_queued addrs 0 (remove_all (take (Z.to_nat drop) (reverse txs)) true p)
  end.

Definition truncate_queue (p : TxPool) : option TxPool :=
  let queued := total_len (queue p) in
  if GlobalQueue (config p) <? queued then
    let addresses := map (fun kv => (kv.1, default 0 (beats p !! kv.1))) (filter (fun kv => contains p kv.1 = false) (range txList (queue p))) in
    drop_queued (reverse (map fst (merge_sort by_heartbeat addresses))) (queued - GlobalQueue (config p)) p
  else Some p.

Fixpoint promote_accounts (now : Z) (accounts : list Z) (p : TxPool) : option TxPool :=
  match accounts with
  | [] => Some p
  | addr :: accounts => p ← promote_account now addr p; promote_accounts now accounts p
  end.

(** [accounts] is [nil] for all accounts with queued transactions. *)
Definition promoteExecutables (now : Z) (accounts : option (list Z)) (p : TxPool) : option TxPool :=
  p ← promote_accounts now (match accounts with Some l => l | None => map fst (range txList (queue p)) end) p;
  p ← truncate_pending p;
  truncate_queue p.

(** * Adding *)
Definition addTx (now : Z) (tx : Transaction) (local : bool) (p : TxPool) : option (option TxPoolError * TxPool) :=
  match add tx local p with
  | (inl e, p) => Some (Some e, p)
  | (inr true, p) => Some (None, p)
  | (inr false, p) => p ← promoteExecutables now (Some [sender tx]) p; Some (None, p)
  end.

(** The accounts to promote are a map in Go; the loop of [addTxsLocked]. *)
Fixpoint add_each (txs : list Transaction) (local : bool) (p : TxPool) (dirty : gmap Z unit) (errs : list (option TxPoolError))
    : list (option TxPoolError) * gmap Z unit * TxPool :=
  match txs with
  | [] => (errs, dirty, p)
  | tx :: txs =>
      match add tx local p with
      | (inl e, p) => add_each txs local p dirty (errs ++ [Some e])
      | (inr true, p) => add_each txs local p dirty (errs ++ [None])
      | (inr false, p) => add_each txs local p (<[sender tx := tt]> dirty) (errs ++ [None])
      end
  end.

Definition addTxsLocked (now : Z) (txs : list Transaction) (local : bool) (p : TxPool) : option (list (option TxPoolError) * TxPool) :=
  let '(errs, dirty, p) := add_each txs local p ∅ [] in
  if (0 <? size dirty)%nat then p ← promoteExecutables now (Some (map fst (range unit dirty))) p; Some (errs, p)
  else Some (errs, p).

Definition AddLocal (now : Z) (tx : Transaction) (p : TxPool) := addTx now tx (negb (NoLocals (config p))) p.
Definition AddRemote (now : Z) (tx : Transaction) (p : TxPool) := addTx now tx false p.
Definition AddLocals (now : Z) (txs : list Transaction) (p : TxPool) := addTxsLocked now txs (negb (NoLocals (config p))) p.
Definition AddRemotes (now : Z) (txs : list Transaction) (p : TxPool) := addTxsLocked now txs false p.

Definition SetGasPrice (price : Z) (p : TxPool) : TxPool :=
  let p := set_gasPrice price p in
  let '(drop, l) := priced_Cap (all p) (containsTx p) price (priced p) in
  remove_all drop false (set_priced l p).

(** * Demotion and reset *)
Definition demote_account (addr : Z) (p : TxPool) : option TxPool :=
  match pending p !! addr with
  | None => Some p
  | Some list =>
      let nonce := state_nonce (currentState p) addr in
      let '(old, list) := list_Forward nonce list in
      let p := forget_all old (set_pending_list addr list p) in
      let '(drops, invalids, list) := list_Filter (range Transaction) (state_balance (currentState p) addr) (currentMaxGas p) list in
      let p := enqueue_all invalids (forget_all drops (set_pending_list addr list p)) in
      '(gapped, list) ←
        (if (0 <? list_Len list) && bool_decide (Get (txs list) nonce = None) then list_Cap 0 list else Some ([], list));
      let p := enqueue_all gapped (set_pending_list addr list p) in
      Some (if list_Empty list then delete_pending addr p else p)
  end.

Fixpoint demote_accounts (accounts : list Z) (p : TxPool) : option TxPool :=
  match accounts with
  | [] => Some p
  | addr :: accounts => p ← demote_account addr p; demote_accounts accounts p
  end.

Definition demoteUnexecutables (p : TxPool) : option TxPool := demote_accounts (map fst (range txList (pending p))) p.

(** The nonces of the managed state after the executable transactions. *)
Fixpoint reset_nonces (accounts : list Z) (p : TxPool) : option TxPool :=
  match accounts with
  | [] => Some p
  | addr :: accounts =>
      list ← pending p !! addr;
      let '(txs, list) := list_Flatten (range Transaction) list in
      tx ← list.last txs;
      reset_nonces accounts (set_nonce addr (u64 (AccountNonce tx + 1)) (set_pending_list addr list p))
  end.

Definition reset_to (now : Z) (state : ChainState) (gasLimit : Z) (reinject : list Transaction) (p : TxPool) : option TxPool :=
  let p := set_head state gasLimit p in
  '(_, p) ← addTxsLocked now reinject false p;
  p ← demoteUnexecutables p;
  p ← reset_nonces (map fst (range txList (pending p))) p;
  promoteExecutables now None p.

(** [NewTxPool], before the journal is loaded. *)
Definition NewTxPool (now : Z) (c : TxPoolConfig) (localAddrs : gset Z) (state : ChainState) (gasLimit : Z) : option TxPool :=
  let c := sanitize c in
  reset_to now state gasLimit []
    (mkPool c (PriceLimit c) state ∅ gasLimit localAddrs None ∅ ∅ ∅ ∅ newTxPricedList false).

(** The eviction of the main loop. *)
Fixpoint evict_accounts (now : Z) (accounts : list Z) (p : TxPool) : option TxPool :=
  match accounts with
  | [] => Some p
  | addr :: accounts =>
      if negb (contains p addr) && (Lifetime (config p) <? time_Since now (default 0 (beats p !! addr))) then
        list ← queue p !! addr;
        let '(txs, list) := list_Flatten (range Transaction) list in
        evict_accounts now accounts (remove_all txs true (set_queue_list addr list p))
      else evict_accounts now accounts p
  end.

Definition evict (now : Z) (p : TxPool) : option TxPool := evict_accounts now (map fst (range txList (queue p))) p.

Definition stats (p : TxPool) : Z * Z := (total_len (pending p), total_len (queue p)).

Inductive TxStatus := TxStatusUnknown | TxStatusQueued | TxStatusPending.

Definition Status (p : TxPool) (hash : Z) : TxStatus :=
  match all p !! hash with
  | None => TxStatusUnknown
  | Some tx =>
      match pending p !! sender tx with
      | Some list => if bool_decide (is_Some (items (txs list) !! AccountNonce tx)) then TxStatusPending else TxStatusQueued
      | None => TxStatusQueued
      end
  end.
End Pool.
