(* ===== verification/TxPoolInv.v ===== *)
(** The books of the transaction pool of core/tx_pool.go stay right: each step
    of an operation moves transactions between the table of all transactions,
    the lists of the accounts and the heap of prices. *)
From stdpp Require Import gmap sorting.
From S2P Require Import Prelude GoMath Params StateTransition GoHeap TxSorted TxSortedCorrect TxList TxListCorrect TxPoolPlaces TxPool.

(** The transaction of an account with a nonce. *)
Definition slot (m : gmap Z txList) (a n : Z) : option Transaction := l ← m !! a; list_items l !! n.

Lemma slot_insert a l m b n : slot (<[a := l]> m) b n = if decide (b = a) then list_items l !! n else slot m b n.
Proof. unfold slot. case_decide as E; [subst b; by rewrite lookup_insert_eq|by rewrite lookup_insert_ne by done]. Qed.

Lemma slot_delete a m b n : slot (delete a m) b n = if decide (b = a) then None else slot m b n.
Proof. unfold slot. case_decide as E; [subst b; by rewrite lookup_delete_eq|by rewrite lookup_delete_ne by done]. Qed.

Lemma slot_lookup m a l n : m !! a = Some l -> slot m a n = list_items l !! n.
Proof. unfold slot. intros ->. done. Qed.

Lemma list_Empty_items l : list_Empty l = true <-> list_items l = ∅.
Proof.
  unfold list_Empty, list_Len, Len, list_items. rewrite Z.eqb_eq. split.
  - intros E. apply map_size_empty_inv. lia.
  - intros ->. by rewrite map_size_empty.
Qed.

Section Inv.
Context (range : forall A, gmap Z A -> list (Z * A)) (range_all : forall A (m : gmap Z A), range A m ≡ₚ map_to_list m).
Context (Sender : Transaction -> option Z).
#[local] Abbreviation sender := (sender Sender).
#[local] Abbreviation forget := (forget range).
#[local] Abbreviation enqueueTx := (enqueueTx range Sender).
Implicit Types (L X R : list Transaction) (p : TxPool) (tx : Transaction).

Definition lists_ok (b : bool) (m : gmap Z txList) : Prop := forall a l, m !! a = Some l -> list_ok l /\ strict l = b.

(** [L] are on their way to a list, [X] are no longer in the heap. *)
Record pool_inv L X p : Prop := {
  inv_pending : lists_ok true (pending p);
  inv_queue : lists_ok false (queue p);
  inv_books : consistent sender (slot (pending p)) (slot (queue p)) (all p) L;
  inv_heap : heap price_less (priced_items (priced p));
  inv_priced tx : all p !! TxHash tx = Some tx -> tx ∈ priced_items (priced p) \/ TxHash tx ∈ (TxHash <$> X) }.

Lemma lists_ok_insert b m a l : lists_ok b m -> list_ok l -> strict l = b -> lists_ok b (<[a := l]> m).
Proof. intros Hm Hl Hs c k [[<- <-]|[_ Hk]]%lookup_insert_Some; [done|by apply Hm with c]. Qed.

Lemma lists_ok_delete b m a : lists_ok b m -> lists_ok b (delete a m).
Proof. intros Hm c k [_ Hk]%lookup_delete_Some. by apply Hm with c. Qed.

(** A list loses [R]. *)
Lemma slot_takes m a l R l' : m !! a = Some l -> takes l R l' ->
  (forall tx, tx ∈ R -> slot m a (AccountNonce tx) = Some tx) /\
  ((forall tx, tx ∈ R -> sender tx = a) -> (forall b n tx, slot m b n = Some tx -> sender tx = b) ->
   forall b n tx, slot (<[a := l']> m) b n = Some tx <-> slot m b n = Some tx /\ tx ∉ R).
Proof.
  intros Hl Ht. split; [intros tx Hx; rewrite (slot_lookup _ _ _ _ Hl); by apply (takes_in _ _ _ Ht)|].
  intros HR Hs b n tx. rewrite slot_insert. case_decide as E; [subst b; by rewrite (takes_rest _ _ _ Ht), (slot_lookup _ _ _ _ Hl)|].
  split; [|tauto]. intros Hx. split; [done|]. intros HxR. specialize (HR tx HxR). specialize (Hs _ _ _ Hx). congruence.
Qed.

Lemma queue_takes L X p a l R l' :
  pool_inv L X p -> queue p !! a = Some l -> takes l R l' -> pool_inv (R ++ L) X (set_queue_list a l' p).
Proof.
  intros [H1 H2 H3 H4 H5] Hl Ht. destruct (H2 _ _ Hl) as [Hok Hs]. destruct (slot_takes _ _ _ _ _ Hl Ht) as [Hin Hrest].
  assert (forall tx, tx ∈ R -> sender tx = a) as HR.
  { intros tx Hx. by destruct (con_place _ _ _ _ _ H3 a _ tx (or_intror (Hin tx Hx))). }
  split; try done; cbn; [apply lists_ok_insert; [done|apply Ht|by rewrite (takes_strict _ _ _ Ht)]|].
  apply consistent_swap. eapply take_out; [by apply consistent_swap|apply Ht| |apply Hrest].
  - intros tx Hx. unfold at_place. rewrite (HR tx Hx). by apply Hin.
  - done.
  - intros b n tx Hx. by destruct (con_place _ _ _ _ _ H3 b n tx (or_intror Hx)).
Qed.

Lemma pending_takes L X p a l R l' :
  pool_inv L X p -> pending p !! a = Some l -> takes l R l' -> pool_inv (R ++ L) X (set_pending_list a l' p).
Proof.
  intros [H1 H2 H3 H4 H5] Hl Ht. destruct (H1 _ _ Hl) as [Hok Hs]. destruct (slot_takes _ _ _ _ _ Hl Ht) as [Hin Hrest].
  assert (forall tx, tx ∈ R -> sender tx = a) as HR.
  { intros tx Hx. by destruct (con_place _ _ _ _ _ H3 a _ tx (or_introl (Hin tx Hx))). }
  split; try done; cbn; [apply lists_ok_insert; [done|apply Ht|by rewrite (takes_strict _ _ _ Ht)]|].
  eapply take_out; [done|apply Ht| |apply Hrest].
  - intros tx Hx. unfold at_place. rewrite (HR tx Hx). by apply Hin.
  - done.
  - intros b n tx Hx. by destruct (con_place _ _ _ _ _ H3 b n tx (or_introl Hx)).
Qed.

(** A list is replaced by one with the same transactions. *)
Lemma queue_same L X p a l l' :
  pool_inv L X p -> queue p !! a = Some l -> list_ok l' -> strict l' = strict l -> list_items l' = list_items l ->
  pool_inv L X (set_queue_list a l' p).
Proof.
  intros Hp Hl Hok Hs Hi. change L with ([] ++ L). apply (queue_takes L X p a l); [done..|].
  split; try done; [constructor|by intros ? ?%not_in_nil|]. intros n tx. rewrite Hi. split; [|tauto]. intros. split; [done|apply not_in_nil].
Qed.

Lemma pending_same L X p a l l' :
  pool_inv L X p -> pending p !! a = Some l -> list_ok l' -> strict l' = strict l -> list_items l' = list_items l ->
  pool_inv L X (set_pending_list a l' p).
Proof.
  intros Hp Hl Hok Hs Hi. change L with ([] ++ L). apply (pending_takes L X p a l); [done..|].
  split; try done; [constructor|by intros ? ?%not_in_nil|]. intros n tx. rewrite Hi. split; [|tauto]. intros. split; [done|apply not_in_nil].
Qed.

(** An empty list is dropped. *)
Lemma delete_queue_inv L X p a l :
  pool_inv L X p -> queue p !! a = Some l -> list_Empty l = true -> pool_inv L X (delete_queue a p).
Proof.
  intros [H1 H2 H3 H4 H5] Hl Hl'%list_Empty_items. split; try done; cbn; [by apply lists_ok_delete|].
  eapply consistent_ext; [| |exact H3]; [done|]. intros b n. rewrite slot_delete. case_decide as E; [|done]. subst b.
  by rewrite (slot_lookup _ _ _ _ Hl), Hl'.
Qed.

Lemma delete_pending_inv L X p a l :
  pool_inv L X p -> pending p !! a = Some l -> list_Empty l = true -> pool_inv L X (delete_pending a p).
Proof.
  intros [H1 H2 H3 H4 H5] Hl Hl'%list_Empty_items. split; try done; cbn; [by apply lists_ok_delete|].
  eapply consistent_ext; [| |exact H3]; [|done]. intros b n. rewrite slot_delete. case_decide as E; [|done]. subst b.
  by rewrite (slot_lookup _ _ _ _ Hl), Hl'.
Qed.

(** * The table and the heap *)
Lemma priced_Removed_ok A l :
  heap price_less (priced_items l) ->
  heap price_less (priced_items (priced_Removed A (range Transaction) l)) /\
  (priced_items (priced_Removed A (range Transaction) l) = priced_items l \/
   forall h tx, A !! h = Some tx -> tx ∈ priced_items (priced_Removed A (range Transaction) l)).
Proof.
  intros Hh. unfold priced_Removed. case_if; [split; [done|by left]|]. cbn [priced_items].
  destruct (heap_Init_ok price_less (map snd (range Transaction A))) as [H1 H2]. split; [done|right].
  intros h tx Hx. rewrite H2, range_all. apply list_elem_of_In, (in_map snd _ (h, tx)), list_elem_of_In. by apply elem_of_map_to_list.
Qed.

Lemma forget_inv L X p tx : pool_inv (tx :: L) X p -> pool_inv L X (forget (TxHash tx) p).
Proof.
  intros [H1 H2 H3 H4 H5]. apply leave in H3. destruct (priced_Removed_ok (delete (TxHash tx) (all p)) (priced p) H4) as [H6 H7].
  split; try done. intros y Hy. cbn in *. destruct H7 as [->|H7]; [|left; by apply (H7 (TxHash y))].
  apply H5. by apply lookup_delete_Some in Hy as [_ ?].
Qed.

Lemma forget_all_inv R : forall L X p, pool_inv (R ++ L) X p -> pool_inv L X (forget_all range R p).
Proof. induction R as [|tx R IH]; intros L X p Hp; [done|]. cbn. by apply IH, forget_inv. Qed.

Lemma pool_inv_perm L L' X p : L ≡ₚ L' -> pool_inv L X p -> pool_inv L' X p.
Proof. intros HL [H1 H2 H3 H4 H5]. split; try done. by eapply consistent_perm. Qed.

(** * Adding to a list *)
Lemma default_list b m a : lists_ok b m -> list_ok (default (newTxList b) (m !! a)) /\ strict (default (newTxList b) (m !! a)) = b.
Proof. intros Hm. destruct (m !! a) as [l|] eqn:E; [by apply Hm with a|]. split; [apply newTxList_ok|done]. Qed.

Lemma default_slot b m a n : list_items (default (newTxList b) (m !! a)) !! n = slot m a n.
Proof. unfold slot. destruct (m !! a); [done|]. cbn. by rewrite lookup_empty. Qed.

Lemma list_Add_strict tx bump l b old l' : list_Add tx bump l = (b, old, l') -> strict l' = strict l.
Proof. unfold list_Add. case_if; by intros [= <- <- <-]. Qed.

(** A free nonce is always taken. *)
Lemma list_Add_free tx bump l :
  list_ok l -> is_u64 (AccountNonce tx) -> list_items l !! AccountNonce tx = None ->
  exists l', list_Add tx bump l = (true, None, l') /\ list_ok l' /\ strict l' = strict l /\
    list_items l' = <[AccountNonce tx := tx]> (list_items l).
Proof.
  intros Hok Hu Hn. destruct (list_Add tx bump l) as [[b old] l'] eqn:E. pose proof (list_Add_strict _ _ _ _ _ _ E) as Hs.
  apply list_Add_ok in E as [Hok' H]; [|done|done]. destruct b; [|destruct H as (_ & o & Ho & _); congruence].
  destruct H as (Hi & Hold & _). rewrite Hn in Hold. subst old. by exists l'.
Qed.

Lemma slot_put m a l l' tx :
  (forall n, list_items l !! n = slot m a n) -> list_items l' = <[AccountNonce tx := tx]> (list_items l) -> sender tx = a ->
  forall b n, slot (<[a := l']> m) b n = if decide ((b, n) = place sender tx) then Some tx else slot m b n.
Proof.
  intros Hl Hi Ha b n. rewrite slot_insert. unfold place. rewrite Ha. case_decide as E.
  - subst b. rewrite Hi. case_decide as En; [injection En as ->; by rewrite lookup_insert_eq|].
    rewrite lookup_insert_ne; [done|]. intros <-. done.
  - rewrite decide_False; [done|]. intros [= -> _]. done.
Qed.

(** One on its way gets into a list. *)
Lemma queue_put L X p a tx bump :
  pool_inv (tx :: L) X p -> sender tx = a ->
  exists l', list_Add tx bump (default (newTxList false) (queue p !! a)) = (true, None, l') /\
    pool_inv L X (set_queue_list a l' p) /\ all p !! TxHash tx = Some tx.
Proof.
  intros [H1 H2 H3 H4 H5] Ha. destruct (default_list _ _ a H2) as [Hok Hs].
  destruct (con_limbo _ _ _ _ _ H3 tx ltac:(by left)) as (E1 & E2 & Hu). unfold at_place in *. rewrite Ha in *.
  destruct (list_Add_free tx bump _ Hok Hu) as (l' & E & Hok' & Hs' & Hi); [by rewrite default_slot|].
  exists l'. split; [done|]. split; [|by apply (con_all _ _ _ _ _ H3); right; right; left].
  split; try done; cbn; [apply lists_ok_insert; [done|done|by rewrite Hs']|].
  apply consistent_swap. eapply put_in; [apply consistent_swap; exact H3|].
  apply (slot_put _ a _ _ tx (default_slot false (queue p) a) Hi Ha).
Qed.

Lemma pending_put L X p a tx bump :
  pool_inv (tx :: L) X p -> sender tx = a ->
  exists l', list_Add tx bump (default (newTxList true) (pending p !! a)) = (true, None, l') /\
    pool_inv L X (set_pending_list a l' p) /\ all p !! TxHash tx = Some tx /\
    forall b n, slot (<[a := l']> (pending p)) b n = if decide ((b, n) = place sender tx) then Some tx else slot (pending p) b n.
Proof.
  intros [H1 H2 H3 H4 H5] Ha. destruct (default_list _ _ a H1) as [Hok Hs].
  destruct (con_limbo _ _ _ _ _ H3 tx ltac:(by left)) as (E1 & E2 & Hu). unfold at_place in *. rewrite Ha in *.
  destruct (list_Add_free tx bump _ Hok Hu) as (l' & E & Hok' & Hs' & Hi); [by rewrite default_slot|].
  pose proof (slot_put _ a _ _ tx (default_slot true (pending p) a) Hi Ha) as Hslot.
  exists l'. split; [done|]. split; [|split; [by apply (con_all _ _ _ _ _ H3); right; right; left|done]].
  split; try done; cbn; [apply lists_ok_insert; [done|done|by rewrite Hs']|].
  by eapply put_in.
Qed.

Lemma enqueue_limbo L X p tx :
  pool_inv (tx :: L) X p -> exists l', enqueueTx (TxHash tx) tx p = (inr false, set_queue_list (sender tx) l' p) /\
    pool_inv L X (set_queue_list (sender tx) l' p).
Proof.
  intros Hp. destruct (queue_put L X p (sender tx) tx (PriceBump (config p)) Hp eq_refl) as (l' & E & Hp' & Ha).
  exists l'. split; [|done]. unfold TxPool.enqueueTx. rewrite E. cbn. by rewrite Ha.
Qed.

Lemma enqueue_all_inv R : forall L X p,
  pool_inv (R ++ L) X p -> exists q, enqueue_all range Sender R p = set_queue q p /\ pool_inv L X (set_queue q p).
Proof.
  induction R as [|tx R IH]; intros L X p Hp; [exists (queue p); by destruct p|]. cbn.
  destruct (enqueue_limbo _ _ _ _ Hp) as (l' & -> & Hp'). destruct (IH _ _ _ Hp') as (q & E & Hq). exists q. done.
Qed.

Lemma promote_limbo L X p now a tx :
  pool_inv (tx :: L) X p -> sender tx = a ->
  exists l', promoteTx range now a (TxHash tx) tx p
    = (true, set_nonce a (u64 (AccountNonce tx + 1)) (set_beats (<[a := now]> (beats p)) (set_pending_list a l' p))) /\
    pool_inv L X (set_pending_list a l' p) /\
    forall b n, slot (<[a := l']> (pending p)) b n = if decide ((b, n) = place sender tx) then Some tx else slot (pending p) b n.
Proof.
  intros Hp Ha. destruct (pending_put L X p a tx (PriceBump (config p)) Hp Ha) as (l' & E & Hp' & Hall & Hslot).
  exists l'. split; [|done]. unfold promoteTx. rewrite E. cbn. by rewrite Hall.
Qed.

(** Fields outside the books. *)
Lemma pool_inv_frame L X p q :
  pending q = pending p -> queue q = queue p -> all q = all p -> priced q = priced p -> pool_inv L X p -> pool_inv L X q.
Proof. intros E1 E2 E3 E4 [H1 H2 H3 H4 H5]. split; rewrite ?E1, ?E2, ?E3, ?E4; done. Qed.

Lemma promote_all_inv now a ready : forall L X p,
  pool_inv (ready ++ L) X p -> Forall (fun tx => sender tx = a) ready -> pool_inv L X (promote_all range now a ready p).
Proof.
  induction ready as [|tx ready IH]; intros L X p Hp Hall; [done|]. apply Forall_cons_iff in Hall as [Ha Hall]. cbn.
  destruct (promote_limbo _ _ _ now a _ Hp Ha) as (l' & -> & Hp' & _). apply IH; [|done]. by eapply pool_inv_frame; [..|exact Hp'].
Qed.

(** * Removing *)
Lemma shrink L X p x : pool_inv L (x :: X) p -> all p !! TxHash x = None -> pool_inv L X p.
Proof.
  intros [H1 H2 H3 H4 H5] Hx. split; try done. intros tx Htx. destruct (H5 tx Htx) as [|Hin]; [by left|].
  cbn in Hin. apply elem_of_cons in Hin as [E|]; [|by right]. congruence.
Qed.

#[local] Abbreviation drop_hash := (drop_hash range).

Lemma drop_hash_inv L X p tx b : pool_inv (tx :: L) X p -> pool_inv L X (drop_hash b (TxHash tx) p).
Proof.
  destruct b; [apply forget_inv|]. intros [H1 H2 H3 H4 H5]. apply leave in H3. split; try done.
  intros y Hy. apply H5. cbn in Hy. by apply lookup_delete_Some in Hy as [_ ?].
Qed.

(** What is left of the pool but the books of one account. *)
Definition removes (h : Z) (b : bool) p q : Prop :=
  all q = delete h (all p) /\ (b = false -> priced q = priced p) /\ config q = config p /\ currentState q = currentState p /\
  currentMaxGas q = currentMaxGas p /\ locals q = locals p /\ gasPrice q = gasPrice p /\ journal q = journal p.

Lemma remove_from_queue X p b tx :
  pool_inv [] X p -> all p !! TxHash tx = Some tx -> slot (pending p) (sender tx) (AccountNonce tx) = None ->
  exists m, remove_queued range Sender tx (drop_hash b (TxHash tx) p) = set_queue m (drop_hash b (TxHash tx) p) /\
    pool_inv [] X (set_queue m (drop_hash b (TxHash tx) p)) /\
    exists l l', queue p !! sender tx = Some l /\ list_ok l /\ takes l [tx] l' /\
      m = if list_Empty l' then delete (sender tx) (<[sender tx := l']> (queue p)) else <[sender tx := l']> (queue p).
Proof.
  intros Hp Hall Hn. 
  apply (con_all _ _ _ _ _ (inv_books _ _ _ Hp)) in Hall as [Hx|[Hx|Hx]]; [unfold at_place in Hx; congruence| |by apply not_in_nil in Hx].
  unfold at_place in Hx. unfold remove_queued. replace (queue (drop_hash b (TxHash tx) p)) with (queue p) by (by destruct b).
  destruct (queue p !! sender tx) as [l|] eqn:Hl; [|unfold slot in Hx; by rewrite Hl in Hx].
  rewrite (slot_lookup _ _ _ _ Hl) in Hx. destruct (inv_queue _ _ _ Hp _ _ Hl) as [Hok Hs].
  destruct (list_Remove _ tx l) as [[found invalids] l'] eqn:E.
  apply (list_Remove_takes _ (range_all Transaction)) in E as (_ & E); [|done].
  rewrite Hx in E. destruct E as (Ht & Hinv & _). rewrite (Hinv Hs) in Ht.
  pose proof (queue_takes _ _ _ _ _ _ _ Hp Hl Ht) as Hq. apply (drop_hash_inv _ _ _ _ b) in Hq.
  assert (pool_inv [] X (set_queue_list (sender tx) l' (drop_hash b (TxHash tx) p))) as Hq' by (destruct b; exact Hq).
  assert (queue (drop_hash b (TxHash tx) p) = queue p) as Eq by (by destruct b).
  destruct (list_Empty l') eqn:Eemp; [|eexists; split; [reflexivity|]; split; [exact Hq'|exists l, l'; rewrite Eemp; split_and!; try done; by rewrite Eq]].
  assert (queue (set_queue_list (sender tx) l' (drop_hash b (TxHash tx) p)) !! sender tx = Some l') as Hl' by (destruct b; apply lookup_insert_eq).
  pose proof (delete_queue_inv _ _ _ _ _ Hq' Hl' Eemp) as Hd. eexists. split; [reflexivity|]. split; [exact Hd|]. exists l, l'. rewrite Eemp. split_and!; try done. cbn. by rewrite Eq.
Qed.

Lemma remove_from_pending X p b tx l' invalids l found y :
  pool_inv [] X p -> all p !! TxHash tx = Some tx -> slot (pending p) (sender tx) (AccountNonce tx) = Some y ->
  pending p !! sender tx = Some l -> list_Remove (range Transaction) tx l = (found, invalids, l') ->
  let q := set_pending_list (sender tx) l' (drop_hash b (TxHash tx) p) in
  let q := if list_Empty l' then delete_pending (sender tx) q else q in
  found = true /\ y = tx /\ (exists m, enqueue_all range Sender invalids q = set_queue m q /\ pool_inv [] X (set_queue m q)) /\
  forall a n, is_Some (slot (pending q) a n) <-> is_Some (slot (pending p) a n) /\ (a = sender tx -> n < AccountNonce tx).
Proof.
  intros Hp Hall Hn Hl E q q'. destruct (inv_pending _ _ _ Hp _ _ Hl) as [Hok Hs].
  apply (list_Remove_takes _ (range_all Transaction)) in E as (Hf & E); [|done].
  assert (y = tx) as ->.
  { apply (con_all _ _ _ _ _ (inv_books _ _ _ Hp)) in Hall as [Hx|[Hx|Hx]]; [unfold at_place in Hx; congruence| |by apply not_in_nil in Hx].
    unfold at_place in Hx. destruct (con_disjoint _ _ _ _ _ (inv_books _ _ _ Hp) (sender tx) (AccountNonce tx)); congruence. }
  rewrite (slot_lookup _ _ _ _ Hl) in Hn. rewrite Hn in E, Hf. destruct E as (Ht & _ & Hlow).
  split; [subst found; by apply bool_decide_true; eauto|]. split; [done|].
  pose proof (pending_takes _ _ _ _ _ _ _ Hp Hl Ht) as Hq. apply (drop_hash_inv _ _ _ _ b) in Hq.
  assert (pool_inv (invalids ++ []) X q) as Hq1 by (destruct b; exact Hq).
  assert (pool_inv (invalids ++ []) X q') as Hq2.
  { subst q'. case_if; [|done]. eapply delete_pending_inv; [done| |eassumption]. destruct b; apply lookup_insert_eq. }
  split; [by apply enqueue_all_inv|]. intros a n.
  assert (slot (pending q') a n = if decide (a = sender tx) then list_items l' !! n else slot (pending p) a n) as ->.
  { subst q'. destruct (list_Empty l') eqn:Eemp.
    - change (pending (delete_pending (sender tx) q)) with (delete (sender tx) (pending q)). rewrite slot_delete. apply list_Empty_items in Eemp. case_decide; [by rewrite Eemp|].
      replace (pending q) with (<[sender tx := l']> (pending p)) by (by destruct b). rewrite slot_insert. by rewrite decide_False.
    - replace (pending q) with (<[sender tx := l']> (pending p)) by (by destruct b). apply slot_insert. }
  case_decide as Ea; [|tauto]. subst a. rewrite (Hlow Hs), (slot_lookup _ _ _ _ Hl). tauto.
Qed.

(** What [removeTx] does with the executable transactions. *)
Definition cuts tx p q : Prop :=
  (pending q = pending p /\ pendingNonces q = pendingNonces p) \/
  (slot (pending p) (sender tx) (AccountNonce tx) = Some tx /\
   (forall a n, is_Some (slot (pending q) a n) <-> is_Some (slot (pending p) a n) /\ (a = sender tx -> n < AccountNonce tx)) /\
   pendingNonces q = pendingNonces (lower_nonce (sender tx) (AccountNonce tx) p)).

Lemma removeTx_cases X p b tx :
  pool_inv [] X p -> all p !! TxHash tx = Some tx ->
  let q := removeTx range Sender (TxHash tx) b p in
  pool_inv [] X q /\ removes (TxHash tx) b p q /\ cuts tx p q.
Proof.
  intros Hp Hall q. subst q. unfold removeTx. rewrite Hall.
  assert (removes (TxHash tx) b p (drop_hash b (TxHash tx) p) /\ pending (drop_hash b (TxHash tx) p) = pending p /\
    pendingNonces (drop_hash b (TxHash tx) p) = pendingNonces p) as (Hr & Epend & Enon) by (by destruct b).
  assert (slot (pending p) (sender tx) (AccountNonce tx) = None ->
    let q := remove_queued range Sender tx (drop_hash b (TxHash tx) p) in pool_inv [] X q /\ removes (TxHash tx) b p q /\ cuts tx p q) as Hqueue.
  { intros Hn q. subst q. destruct (remove_from_queue X p b tx Hp Hall Hn) as (m & -> & Hq & _). split; [done|]. split; [done|by left]. }
  cbn zeta. rewrite Epend. destruct (pending p !! sender tx) as [l|] eqn:Hl; [|by apply Hqueue; unfold slot; rewrite Hl].
  destruct (list_Remove _ tx l) as [[found invalids] l'] eqn:E. destruct (slot (pending p) (sender tx) (AccountNonce tx)) as [y|] eqn:Ey.
  - destruct (remove_from_pending X p b tx l' invalids l found y Hp Hall Ey Hl E) as (-> & -> & (m & Em & Hm) & Hdom).
    cbn zeta in Em. rewrite Em. set (q := if list_Empty l' then _ else _) in *.
    assert (removes (TxHash tx) b p q /\ pendingNonces q = pendingNonces p) as [Hr' En'] by (subst q; case_if; destruct b; done).
    split; [|split].
    + eapply pool_inv_frame; [..|exact Hm]; unfold lower_nonce; case_if; done.
    + unfold removes, lower_nonce in *. case_if; exact Hr'.
    + right. split; [done|]. split.
      * intros a n. rewrite <-Hdom. unfold lower_nonce. case_if; done.
      * unfold lower_nonce, pending_nonce. cbn. rewrite En'. destruct Hr' as (_ & _ & _ & Hst & _). rewrite Hst. case_if; cbn; by rewrite En'.
  - apply (list_Remove_takes _ (range_all Transaction)) in E as (Hf & _); [|by apply (inv_pending _ _ _ Hp _ _ Hl)].
    rewrite <-(slot_lookup _ _ _ _ Hl), Ey in Hf. rewrite bool_decide_false in Hf by (intros [? ?]; done). subst found. by apply Hqueue.
Qed.
End Inv.
