(* ===== verification/TxPoolOps.v ===== *)
(** Operations of the transaction pool of core/tx_pool.go keep its books right,
    and the executable transactions of an account are those with the nonces from
    the account's to that of the pending state, without a gap.
    The operations are removal and addition of a transaction, and
    [promoteExecutables], which moves queued transactions and enforces limits. *)
From stdpp Require Import gmap sorting.
From S2P Require Import Prelude GoMath GoHeap TxSorted TxSortedCorrect TxList TxListCorrect Params StateTransition TxPoolPlaces TxPool TxPoolInv.

Section Ops.
Context (range : forall A, gmap Z A -> list (Z * A)) (range_all : forall A (m : gmap Z A), range A m ≡ₚ map_to_list m).
Context (Sender : Transaction -> option Z).
#[local] Abbreviation sender := (sender Sender).
#[local] Abbreviation pool_inv := (pool_inv Sender).
Implicit Types (L X R : list Transaction) (p q : TxPool) (tx : Transaction).

Definition nonce_at p (a : Z) : Z := state_nonce (currentState p) a.

(** The executable transactions of [a]. *)
Definition runs_from p (a : Z) : Prop :=
  nonce_at p a <= pending_nonce p a /\ forall n, is_Some (slot (pending p) a n) <-> nonce_at p a <= n < pending_nonce p a.
Definition executable p : Prop := forall a, runs_from p a.

(** No nonce is the largest of [uint64]. *)
Definition bounded p : Prop := forall h tx, all p !! h = Some tx -> AccountNonce tx < MaxUint64.

(** What stays as it is when transactions leave the pool. *)
Record shrinks p q : Prop := {
  sh_config : config q = config p;
  sh_state : currentState q = currentState p;
  sh_gas : currentMaxGas q = currentMaxGas p;
  sh_locals : locals q = locals p;
  sh_all : all q ⊆ all p;
  sh_exec : bounded p -> executable p -> executable q }.

Lemma shrinks_refl p : shrinks p p.
Proof. done. Qed.

Lemma bounded_sub p q : all q ⊆ all p -> bounded p -> bounded q.
Proof. intros Hsub Hb h tx Hx. by apply (Hb h tx), (lookup_weaken _ _ _ _ Hx). Qed.
#[local] Hint Resolve bounded_sub : core.

Lemma shrinks_trans p q r : shrinks p q -> shrinks q r -> shrinks p r.
Proof. intros [] []. split; try congruence; [by etransitivity|eauto]. Qed.

Lemma runs_frame p q a :
  currentState q = currentState p -> pendingNonces q = pendingNonces p -> pending q = pending p -> runs_from p a -> runs_from q a.
Proof. intros E1 E2 E3. unfold runs_from, nonce_at, pending_nonce. by rewrite E1, E2, E3. Qed.

Lemma executable_frame p q :
  currentState q = currentState p -> pendingNonces q = pendingNonces p -> pending q = pending p -> executable p -> executable q.
Proof. intros E1 E2 E3 He a. by apply (runs_frame p). Qed.

Lemma cuts_executable p q tx : cuts Sender tx p q -> currentState q = currentState p -> executable p -> executable q.
Proof.
  intros [[E1 E2]|(Hx & Hdom & En)] Es He; [by eapply executable_frame|].
  intros a. destruct (He a) as [Hle Ha]. unfold runs_from, nonce_at in *. rewrite Es.
  assert (pending_nonce q a = if decide (a = sender tx) then AccountNonce tx else pending_nonce p a) as ->.
  { destruct (He (sender tx)) as [_ Hs]. assert (AccountNonce tx < pending_nonce p (sender tx)) as Hlt by (apply Hs; eauto).
    unfold pending_nonce at 1. rewrite Es, En. unfold lower_nonce. rewrite (proj2 (Z.ltb_lt _ _) Hlt). cbn.
    case_decide as Ea; [subst a; by rewrite lookup_insert_eq|by rewrite lookup_insert_ne]. }
  case_decide as Ea.
  - subst a. assert (state_nonce (currentState p) (sender tx) <= AccountNonce tx < pending_nonce p (sender tx)) as Hr by (apply Ha; eauto).
    split; [lia|]. intros n. rewrite Hdom, Ha. split; [intros [? ?]; split; [lia|tauto]|intros; split; lia].
  - split; [done|]. intros n. rewrite Hdom, Ha. tauto.
Qed.

Lemma removeTx_shrinks X p h b :
  pool_inv [] X p -> let q := removeTx range Sender h b p in
  pool_inv [] X q /\ shrinks p q /\ all q !! h = None /\ (b = false -> priced q = priced p).
Proof.
  intros Hp q. subst q. destruct (all p !! h) as [tx|] eqn:E; [|unfold removeTx; by rewrite E].
  pose proof (con_keyed _ _ _ _ _ (inv_books _ _ _ _ Hp) _ _ E) as <-.
  destruct (removeTx_cases range range_all Sender X p b tx Hp E) as (Hq & (H1 & H2 & H3 & H4 & H5 & H6 & _) & Hc).
  split; [done|]. split; [|split; [rewrite H1; apply lookup_delete_eq|done]].
  split; try done; [rewrite H1; apply delete_subseteq|intros _; by eapply cuts_executable].
Qed.

Lemma remove_all_dropped l : forall X p,
  pool_inv [] (l ++ X) p -> pool_inv [] X (remove_all range Sender l false p) /\ shrinks p (remove_all range Sender l false p).
Proof.
  induction l as [|tx l IH]; intros X p Hp; [done|]. cbn.
  destruct (removeTx_shrinks _ _ (TxHash tx) false Hp) as (Hq & Hs & Hn & _).
  destruct (IH X _ (shrink _ _ _ _ _ Hq Hn)) as [H1 H2]. split; [done|by eapply shrinks_trans].
Qed.

Lemma remove_all_inv l : forall X p,
  pool_inv [] X p -> pool_inv [] X (remove_all range Sender l true p) /\ shrinks p (remove_all range Sender l true p).
Proof.
  induction l as [|tx l IH]; intros X p Hp; [done|]. cbn.
  destruct (removeTx_shrinks _ _ (TxHash tx) true Hp) as (Hq & Hs & _).
  destruct (IH X _ Hq) as [H1 H2]. split; [done|by eapply shrinks_trans].
Qed.

(** Entries leave the heap. *)
Lemma losing_inv L p drop l :
  pool_inv L [] p -> losing (all p) (priced p) drop l -> pool_inv L drop (set_priced l p).
Proof.
  intros [H1 H2 H3 H4 H5] [Hh (stale & Hp & Hst)]. split; try done. intros tx Hx. cbn in *.
  destruct (H5 tx Hx) as [Hin|Hin]; [|by apply list.not_elem_of_nil in Hin].
  rewrite Hp, !elem_of_app in Hin. destruct Hin as [Hin|[Hin|Hin]]; [right; by apply list_elem_of_fmap_2| |by left].
  apply (proj1 (list.Forall_forall _ _) Hst) in Hin. unfold is_stale in Hin. apply bool_decide_eq_true in Hin. congruence.
Qed.

Lemma SetGasPrice_inv price p :
  pool_inv [] [] p -> pool_inv [] [] (SetGasPrice range Sender price p) /\ shrinks p (SetGasPrice range Sender price p).
Proof.
  intros Hp. unfold SetGasPrice. cbn [all priced set_gasPrice]. destruct (priced_Cap _ _ _ _) as [drop l] eqn:E.
  apply Cap_losing in E; [|apply Hp]. pose proof (losing_inv _ _ _ _ Hp E) as Hq.
  destruct (remove_all_dropped drop [] (set_priced l (set_gasPrice price p))) as [H1 H2].
  - rewrite app_nil_r. by eapply pool_inv_frame; [..|exact Hq].
  - split; [done|]. eapply shrinks_trans; [|exact H2]. done.
Qed.

Lemma make_room_inv tx local p r q :
  pool_inv [] [] p -> make_room range Sender tx local p = (r, q) -> pool_inv [] [] q /\ shrinks p q.
Proof.
  intros Hp. unfold make_room. destruct (_ <=? _); [|by intros [= _ <-]].
  assert (forall u l, (if local then (false, priced p) else priced_Underpriced (all p) (containsTx Sender p) tx (priced p)) = (u, l) ->
    losing (all p) (priced p) [] l) as Hl.
  { intros u l. destruct local; [intros [= <- <-]; split; [apply Hp|by exists []]|]. unfold priced_Underpriced.
    destruct (containsTx _ _ _); [intros [= <- <-]; split; [apply Hp|by exists []]|].
    pose proof (drop_stale_losing (all p) (length (priced_items (priced p))) (priced p) (inv_heap _ _ _ _ Hp)) as Hd.
    destruct (priced_items (drop_stale _ _ _)); by intros [= <- <-]. }
  destruct (if local then _ else _) as [u l] eqn:E. specialize (Hl u l eq_refl). pose proof (losing_inv _ _ _ _ Hp Hl) as Hq.
  assert (shrinks p (set_priced l p)) as Hs by done.
  destruct u; [by intros [= <- <-]|]. cbn [all priced set_priced containsTx].
  destruct (priced_Discard _ _ _ _) as [drop l'] eqn:Ed. intros [= <- <-].
  apply Discard_losing in Ed; [|apply Hq]. change (all p) with (all (set_priced l p)) in Ed.
  pose proof (losing_inv [] (set_priced l p) drop l' Hq Ed) as Hq'.
  destruct (remove_all_dropped drop [] (set_priced l' (set_priced l p))) as [H1 H2]; [by rewrite app_nil_r|].
  split; [done|]. eapply shrinks_trans; [|exact H2]. done.
Qed.

(** * Adding *)
Lemma heap_put p tx : heap price_less (priced_items (priced p)) ->
  heap price_less (priced_items (priced_Put tx (priced p))) /\ priced_items (priced_Put tx (priced p)) ≡ₚ tx :: priced_items (priced p).
Proof. exact (heap_Push_ok price_less tx (priced_items (priced p))). Qed.

(** The table and the heap get a new transaction. *)
Lemma pool_put_inv p q tx :
  pool_inv [] [] p -> lists_ok true (pending q) -> lists_ok false (queue q) -> priced q = priced p ->
  all q ⊆ all p -> consistent sender (slot (pending q)) (slot (queue q)) (<[TxHash tx := tx]> (all q)) [] ->
  pool_inv [] [] (pool_put tx q).
Proof.
  intros Hp H1 H2 Hpr Hsub H3. destruct (heap_put q tx) as [G1 G2]; [rewrite Hpr; apply Hp|].
  split; try done. intros y Hy. left. cbn in *. rewrite G2. apply lookup_insert_Some in Hy as [[_ <-]|[_ Hy]]; [by left|right].
  rewrite Hpr. destruct (inv_priced _ _ _ _ Hp y) as [|Hin]; [by apply (lookup_weaken _ _ _ _ Hy)|done|by apply list.not_elem_of_nil in Hin].
Qed.

Lemma forget_old_put p q tx o :
  pool_inv [] [] p -> lists_ok true (pending q) -> lists_ok false (queue q) -> priced q = priced p -> all q = all p ->
  consistent sender (slot (pending q)) (slot (queue q)) (<[TxHash tx := tx]> (delete (TxHash o) (all q))) [] ->
  pool_inv [] [] (pool_put tx (forget_old range (Some o) q)).
Proof.
  intros Hp H1 H2 Hpr Hall H3. cbn [forget_old].
  destruct (priced_Removed_ok range range_all (delete (TxHash o) (all q)) (priced q)) as [G1 G2]; [rewrite Hpr; apply Hp|].
  destruct (heap_put (forget range (TxHash o) q) tx G1) as [G3 G4].
  split; try done. intros y Hy. left. change (y ∈ priced_items (priced_Put tx (priced (forget range (TxHash o) q)))). rewrite G4.
  cbn in Hy. apply lookup_insert_Some in Hy as [[_ <-]|[_ Hy]]; [by left|right].
  destruct G2 as [G2|G2]; [|by apply (G2 (TxHash y))]. cbn. rewrite G2, Hpr. apply lookup_delete_Some in Hy as [_ Hy]. rewrite Hall in Hy.
  destruct (inv_priced _ _ _ _ Hp y Hy) as [|Hin]; [done|by apply list.not_elem_of_nil in Hin].
Qed.

(** What adding [tx] leaves. *)
Record grows tx p q : Prop := {
  gr_config : config q = config p;
  gr_state : currentState q = currentState p;
  gr_gas : currentMaxGas q = currentMaxGas p;
  gr_all h y : all q !! h = Some y -> y = tx \/ all p !! h = Some y;
  gr_exec : bounded p -> executable p -> executable q }.

Lemma grows_shrinks tx p q r : shrinks p q -> grows tx q r -> grows tx p r.
Proof.
  intros [] []. split; try congruence; [|eauto]. intros h y Hy. destruct (gr_all0 _ _ Hy) as [|Hq]; [by left|right].
  by apply (lookup_weaken _ _ _ _ Hq).
Qed.

Lemma shrinks_grows tx p q : shrinks p q -> grows tx p q.
Proof. intros []. split; try done. intros h y Hy. right. by apply (lookup_weaken _ _ _ _ Hy). Qed.

Lemma put_all h y tx (A B : gmap Z Transaction) : A ⊆ B -> <[TxHash tx := tx]> A !! h = Some y -> y = tx \/ B !! h = Some y.
Proof. intros Hsub [[_ <-]|[_ Hy]]%lookup_insert_Some; [by left|right]. by apply (lookup_weaken _ _ _ _ Hy). Qed.

Lemma enqueue_fresh p tx :
  pool_inv [] [] p -> all p !! TxHash tx = None -> is_u64 (AccountNonce tx) ->
  slot (pending p) (sender tx) (AccountNonce tx) = None ->
  let q := (enqueueTx range Sender (TxHash tx) tx p).2 in
  pool_inv [] [] q /\ grows tx p q /\ pending q = pending p /\ pendingNonces q = pendingNonces p /\ locals q = locals p.
Proof.
  intros Hp Hn Hu Hpend q. subst q. unfold enqueueTx. destruct (default_list false _ (sender tx) (inv_queue _ _ _ _ Hp)) as [Hok Hs].
  set (l := default _ _) in *. destruct (list_Add tx _ l) as [[b old] l'] eqn:E. pose proof (list_Add_strict _ _ _ _ _ _ E) as Hs'.
  apply list_Add_ok in E as [Hok' E]; [|done|done].
  assert (forall n, list_items l !! n = slot (queue p) (sender tx) n) as Hl by (intros n; apply default_slot).
  destruct b; cbn [negb].
  - destruct E as (Hi & Hold & _). rewrite Hl in Hold.
    pose proof (slot_put _ _ _ _ l' tx Hl Hi eq_refl) as Hslot.
    assert (lists_ok false (<[sender tx := l']> (queue p))) as Hlists.
    { apply lists_ok_insert; [apply Hp|done|by rewrite Hs', Hs]. }
    destruct old as [o|].
    + replace (all (forget_old range (Some o) (set_queue_list (sender tx) l' p)) !! TxHash tx) with (@None Transaction)
        by (symmetry; cbn; rewrite lookup_delete_None; by right). split; [|split; [|done]].
      * apply (forget_old_put p); try done; [apply Hp|]. cbn. apply consistent_swap.
        eapply replace_in; [apply consistent_swap; apply Hp|unfold at_place; by rewrite <-Hold|done|done].
      * split; try done. intros h y. apply put_all, delete_subseteq.
    + cbn [forget_old]. replace (all (set_queue_list (sender tx) l' p) !! TxHash tx) with (@None Transaction) by (by cbn).
      split; [|split; [split; try done; intros h y; by apply put_all|done]].
      apply (pool_put_inv p); try done; [apply Hp|]. cbn. apply consistent_swap.
      eapply put_in; [apply (arrive _ _ _ _ [] tx); [apply consistent_swap; apply Hp|done| |done|done|apply list.not_elem_of_nil]|done].
      unfold at_place. by rewrite <-Hold.
  - destruct E as (-> & o & Ho & _). split; [|split; [split; try done; by right|done]].
    rewrite Hl in Ho. subst l. unfold slot in Ho. destruct (queue p !! sender tx) as [l|] eqn:El; [|done].
    apply (queue_same Sender _ _ p (sender tx) l); done.
Qed.

Lemma journalTx_frame from tx p :
  let q := journalTx from tx p in
  pending q = pending p /\ queue q = queue p /\ all q = all p /\ priced q = priced p /\ config q = config p /\
  currentState q = currentState p /\ currentMaxGas q = currentMaxGas p /\ pendingNonces q = pendingNonces p.
Proof. cbn. unfold journalTx. destruct (journal p); [|done]. by case_if. Qed.

Lemma journalTx_inv L X from tx p : pool_inv L X p -> pool_inv L X (journalTx from tx p).
Proof. destruct (journalTx_frame from tx p) as (E1 & E2 & E3 & E4 & _). by apply pool_inv_frame. Qed.

Lemma grows_frame tx p q r :
  config r = config q -> currentState r = currentState q -> currentMaxGas r = currentMaxGas q -> all r = all q ->
  pending r = pending q -> pendingNonces r = pendingNonces q -> grows tx p q -> grows tx p r.
Proof.
  intros E1 E2 E3 E4 E5 E6 []. split; try congruence; [by rewrite E4|]. intros Hb He. apply (executable_frame q); auto.
Qed.

Lemma replace_pending_inv p tx l :
  pool_inv [] [] p -> all p !! TxHash tx = None -> is_u64 (AccountNonce tx) ->
  pending p !! sender tx = Some l -> Overlaps l tx = true ->
  let q := (replace_pending range tx (sender tx) l p).2 in pool_inv [] [] q /\ grows tx p q.
Proof.
  intros Hp Hn Hu Hl Ho q. subst q. unfold replace_pending. destruct (inv_pending _ _ _ _ Hp _ _ Hl) as [Hok Hs].
  destruct (list_Add tx _ l) as [[b old] l'] eqn:E. pose proof (list_Add_strict _ _ _ _ _ _ E) as Hs'.
  apply list_Add_ok in E as [Hok' E]; [|done|done].
  assert (forall n, list_items l !! n = slot (pending p) (sender tx) n) as Hsl by (intros n; by rewrite (slot_lookup _ _ _ _ Hl)).
  destruct b; cbn [negb].
  - destruct E as (Hi & Hold & _). unfold Overlaps in Ho. apply bool_decide_eq_true in Ho as [o Ho].
    change (list_items l !! AccountNonce tx = Some o) in Ho. rewrite Ho in Hold. subst old. rewrite Hsl in Ho.
    pose proof (slot_put _ _ _ _ l' tx Hsl Hi eq_refl) as Hslot.
    assert (pool_inv [] [] (pool_put tx (forget_old range (Some o) (set_pending_list (sender tx) l' p)))) as Hq.
    { apply (forget_old_put p); try done; [apply lists_ok_insert; [apply Hp|done|by rewrite Hs', Hs]|apply Hp|]. cbn.
      eapply replace_in; [apply Hp|done|done|done]. }
    cbn [snd]. split; [by apply journalTx_inv|].
    destruct (journalTx_frame (sender tx) tx (pool_put tx (forget_old range (Some o) (set_pending_list (sender tx) l' p))))
      as (E1 & E2 & E3 & E4 & E5 & E6 & E7 & E8). eapply grows_frame; [eassumption..|].
    split; try done; [intros h y; apply put_all, delete_subseteq|]. intros _ He a. destruct (He a) as [H1 H2]. split; [done|].
    intros n. rewrite <-H2. cbn. rewrite Hslot. case_decide as Ep; [|done]. injection Ep as -> ->. rewrite Ho. split; eauto.
  - destruct E as (-> & _). split; [by apply (pending_same Sender _ _ p (sender tx) l)|].
    split; try done; [by right|]. intros _ He. eapply executable_frame; [..|exact He]; try done. by apply insert_id.
Qed.

Context (Size : Transaction -> Z).

Lemma add_inv tx local p :
  pool_inv [] [] p -> is_u64 (AccountNonce tx) ->
  let q := (add range Sender Size tx local p).2 in pool_inv [] [] q /\ grows tx p q.
Proof.
  intros Hp Hu q. subst q. unfold add. destruct (all p !! TxHash tx) as [y|] eqn:Hn; [split; [done|apply shrinks_grows, shrinks_refl]|].
  destruct (validateTx _ _ _ _ _) as [e|]; [split; [done|apply shrinks_grows, shrinks_refl]|].
  destruct (make_room _ _ _ _ _) as [r p1] eqn:Er. destruct (make_room_inv _ _ _ _ _ Hp Er) as [Hp1 Hs].
  destruct r as [e|[]]; [split; [done|by apply shrinks_grows]|].
  assert (all p1 !! TxHash tx = None) as Hn1 by exact (lookup_weaken_None _ _ _ Hn (sh_all _ _ Hs)).
  assert (slot (pending p1) (sender tx) (AccountNonce tx) = None ->
    let q := (match enqueueTx range Sender (TxHash tx) tx p1 with
              | (inl e, p) => (inl e, p)
              | (inr replace, p) =>
                  let p := if local && negb (contains p (sender tx)) then set_locals ({[sender tx]} ∪ locals p) p else p in
                  (inr replace, journalTx (sender tx) tx p)
              end).2 in pool_inv [] [] q /\ grows tx p q) as Hqueue.
  { intros Hpend q. subst q. destruct (enqueue_fresh p1 tx Hp1 Hn1 Hu Hpend) as (Hq & Hg & _).
    destruct (enqueueTx _ _ _ _ _) as [[e|b] q]; cbn [snd] in *; [split; [done|by eapply grows_shrinks]|].
    set (q' := if _ && _ then _ else q).
    assert (pool_inv [] [] q' /\ grows tx p q') as [Hq' Hg'].
    { subst q'. case_if; (split; [|eapply grows_shrinks; [done|]]); try done; [by eapply pool_inv_frame; [..|exact Hq]|].
      by eapply grows_frame; [..|exact Hg]. }
    split; [by apply journalTx_inv|]. destruct (journalTx_frame (sender tx) tx q') as (E1 & E2 & E3 & E4 & E5 & E6 & E7 & E8).
    eapply grows_frame; [eassumption..|done]. }
  cbn zeta in *. destruct (pending p1 !! sender tx) as [l|] eqn:El; [|apply Hqueue; unfold slot; by rewrite El].
  destruct (Overlaps l tx) eqn:Eo.
  - destruct (replace_pending_inv p1 tx l Hp1 Hn1 Hu El Eo) as [H1 H2]. split; [done|by eapply grows_shrinks].
  - apply Hqueue. rewrite (slot_lookup _ _ _ _ El). unfold Overlaps in Eo. apply bool_decide_eq_false in Eo.
    by apply eq_None_not_Some.
Qed.
End Ops.

(** * Promotion *)
Section Promote.
Context (range : forall A, gmap Z A -> list (Z * A)) (range_all : forall A (m : gmap Z A), range A m ≡ₚ map_to_list m).
Context (Sender : Transaction -> option Z).
#[local] Abbreviation sender := (sender Sender).
#[local] Abbreviation pool_inv := (pool_inv Sender).
Implicit Types (L X R : list Transaction) (p q : TxPool) (tx : Transaction).

Lemma forget_all_frame R : forall p, let q := forget_all range R p in
  shrinks p q /\ pending q = pending p /\ queue q = queue p /\ pendingNonces q = pendingNonces p.
Proof.
  induction R as [|tx R IH]; intros p; [done|]. cbn. destruct (IH (forget range (TxHash tx) p)) as (H1 & H2 & H3 & H4).
  split; [|done]. eapply shrinks_trans; [|exact H1]. split; try done. cbn. apply delete_subseteq.
Qed.

(** Transactions leave the queue and the pool. *)
Lemma queue_drop p a l R l' :
  pool_inv [] [] p -> queue p !! a = Some l -> takes l R l' ->
  let q := forget_all range R (set_queue_list a l' p) in
  pool_inv [] [] q /\ shrinks p q /\ queue q !! a = Some l' /\ pending q = pending p /\ pendingNonces q = pendingNonces p.
Proof.
  intros Hp Hl Ht q. subst q. pose proof (queue_takes Sender _ _ _ _ _ _ _ Hp Hl Ht) as Hq.
  destruct (forget_all_frame R (set_queue_list a l' p)) as (H1 & H2 & H3 & H4). cbn zeta in *.
  split; [by apply forget_all_inv|]. split; [by eapply shrinks_trans; [|exact H1]|]. rewrite H2, H3, H4. by split; [apply lookup_insert_eq|].
Qed.

Lemma promote_all_frame now a ready : forall L X p,
  pool_inv (ready ++ L) X p -> Forall (fun tx => sender tx = a) ready ->
  let q := promote_all range now a ready p in
  queue q = queue p /\ config q = config p /\ currentState q = currentState p /\ currentMaxGas q = currentMaxGas p /\
  locals q = locals p /\ all q = all p.
Proof.
  induction ready as [|tx ready IH]; intros L X p Hp Hall; [done|]. apply Forall_cons_iff in Hall as [Ha Hall]. cbn.
  destruct (promote_limbo range Sender _ _ _ now a _ Hp Ha) as (l' & -> & Hp' & _). cbn [snd]. cbn zeta in IH.
  set (q := set_nonce _ _ _). destruct (IH L X q) as (E1 & E2 & E3 & E4 & E5 & E6); [by eapply pool_inv_frame; [..|exact Hp']|done|].
  split; [exact E1|]. split; [exact E2|]. split; [exact E3|]. split; [exact E4|]. split; [exact E5|exact E6].
Qed.

Lemma consecutive_cons n tx l : consecutive n (tx :: l) -> AccountNonce tx = n /\ consecutive (n + 1) l.
Proof.
  intros H. split; [rewrite (H 0%nat tx eq_refl); lia|]. intros i y Hy. rewrite (H (S i) y Hy). lia.
Qed.

(** The nonces that follow the executable ones get executable. *)
Lemma promote_all_executable now a ready : forall L X p,
  pool_inv (ready ++ L) X p -> Forall (fun tx => sender tx = a /\ AccountNonce tx < MaxUint64) ready ->
  (ready <> [] -> consecutive (pending_nonce p a) ready) -> executable p -> executable (promote_all range now a ready p).
Proof.
  induction ready as [|tx ready IH]; intros L X p Hp Hall Hc He; [done|]. apply Forall_cons_iff in Hall as [[Ha Hlt] Hall].
  destruct (consecutive_cons _ _ _ (Hc ltac:(done))) as [Hn Hc']. cbn.
  destruct (promote_limbo range Sender _ _ _ now a _ Hp Ha) as (l' & -> & Hp' & Hslot). cbn [snd].
  destruct (con_limbo _ _ _ _ _ (inv_books _ _ _ _ Hp) tx ltac:(by left)) as (_ & _ & Hu).
  assert (u64 (AccountNonce tx + 1) = AccountNonce tx + 1) as Eu.
  { unfold u64, MaxUint64, is_u64 in *. apply Z.mod_small. lia. }
  rewrite Eu. set (q := set_nonce _ _ _).
  assert (forall b, pending_nonce q b = if decide (b = a) then AccountNonce tx + 1 else pending_nonce p b) as Hpn.
  { intros b. unfold q, pending_nonce. cbn. case_decide as E; [subst b; by rewrite lookup_insert_eq|by rewrite lookup_insert_ne]. }
  apply (IH L X q); [by eapply pool_inv_frame; [..|exact Hp']|done|by rewrite Hpn, decide_True, Hn|].
  intros b. destruct (He b) as [H1 H2]. unfold runs_from. change (nonce_at q b) with (nonce_at p b). rewrite Hpn.
  case_decide as E.
  - subst b. split; [lia|]. intros n. cbn. rewrite Hslot. case_decide as En.
    + injection En as _ ->. split; [|by eauto]. lia.
    + rewrite H2. split; [lia|]. intros Hr. destruct (decide (n = AccountNonce tx)) as [->|]; [|lia]. destruct En. unfold place. by rewrite Ha.
  - split; [done|]. intros n. cbn. rewrite Hslot, decide_False; [done|]. intros [= En _]. congruence.
Qed.

Lemma not_strict_filter c g l removed invalids l' :
  strict l = false -> filtered c g l removed invalids l' -> invalids = [].
Proof.
  intros Hs (_ & _ & Hi & _). destruct invalids as [|y k]; [done|]. destruct (proj1 (Hi y) ltac:(by left)) as (_ & _ & Hs' & _). congruence.
Qed.

(** The run of ready transactions starts where the executable ones end. *)
Lemma ready_follows p a l ready l' :
  pool_inv [] [] p -> queue p !! a = Some l -> list_Ready (pending_nonce p a) l = (ready, l') -> executable p ->
  (forall n, is_Some (list_items l !! n) -> nonce_at p a <= n) -> ready <> [] -> consecutive (pending_nonce p a) ready.
Proof.
  intros Hp Hl E He Hlow Hne. destruct (inv_queue _ _ _ _ Hp _ _ Hl) as [Hok _].
  apply (list_Ready_takes _ (range_all Transaction)) in E as [Ht Hr]; [|done]. destruct ready as [|tx ready]; [done|]. destruct Hr as [Hle Hc].
  pose proof (takes_in _ _ _ Ht tx ltac:(by left)) as Hx. assert (nonce_at p a <= AccountNonce tx) as Hge by eauto.
  assert (slot (pending p) a (AccountNonce tx) = None) as Hfree.
  { destruct (con_disjoint _ _ _ _ _ (inv_books _ _ _ _ Hp) a (AccountNonce tx)) as [|Hq]; [done|].
    rewrite (slot_lookup _ _ _ _ Hl) in Hq. congruence. }
  destruct (He a) as [_ Ha]. destruct (decide (AccountNonce tx < pending_nonce p a)) as [Hlt|].
  - assert (is_Some (slot (pending p) a (AccountNonce tx))) as [y Hy] by (apply Ha; lia). congruence.
  - by replace (pending_nonce p a) with (AccountNonce tx) by lia.
Qed.

Lemma takes_sub l R l' n : takes l R l' -> is_Some (list_items l' !! n) -> is_Some (list_items l !! n).
Proof. intros Ht [tx Hx]. apply (takes_rest _ _ _ Ht) in Hx as [Hx _]. eauto. Qed.

(** The promotion proper, on a queue with no old transaction. *)
Lemma promote_ready now p a l ready l' :
  pool_inv [] [] p -> queue p !! a = Some l -> list_Ready (pending_nonce p a) l = (ready, l') ->
  (forall n, is_Some (list_items l !! n) -> nonce_at p a <= n) ->
  let q := promote_all range now a ready (set_queue_list a l' p) in
  pool_inv [] [] q /\ shrinks p q /\ queue q !! a = Some l' /\ list_ok l'.
Proof.
  intros Hp Hl E Hlow q. subst q. destruct (inv_queue _ _ _ _ Hp _ _ Hl) as [Hok _]. pose proof E as E0.
  apply (list_Ready_takes _ (range_all Transaction)) in E0 as [Ht _]; [|done].
  pose proof (queue_takes Sender _ _ _ _ _ _ _ Hp Hl Ht) as Hq.
  assert (Forall (fun tx => sender tx = a /\ all p !! TxHash tx = Some tx) ready) as Hall.
  { apply list.Forall_forall. intros tx Hx. pose proof (takes_in _ _ _ Ht tx Hx) as Hs. rewrite <-(slot_lookup _ _ _ _ Hl) in Hs.
    destruct (con_place _ _ _ _ _ (inv_books _ _ _ _ Hp) _ _ _ (or_intror Hs)) as [Ea _]. split; [done|].
    apply (con_all _ _ _ _ _ (inv_books _ _ _ _ Hp)). right. left. unfold at_place. by rewrite Ea. }
  assert (Forall (fun tx => sender tx = a) ready) as Ha by (eapply List.Forall_impl; [|exact Hall]; by intros ? [? _]).
  destruct (promote_all_frame now a ready _ _ _ Hq Ha) as (E1 & E2 & E3 & E4 & E5 & E6).
  split; [by eapply promote_all_inv|]. split; [|rewrite E1; split; [apply lookup_insert_eq|apply Ht]].
  split; try done; [by rewrite E6|]. intros Hb He. eapply promote_all_executable; [exact Hq| | |exact He].
  - eapply List.Forall_impl; [|exact Hall]. intros tx [? Hx]. split; [done|by apply (Hb _ _ Hx)].
  - exact (ready_follows p a l ready l' Hp Hl E He Hlow).
Qed.

Lemma promote_account_inv now addr p :
  pool_inv [] [] p -> 0 <= Int64 (AccountQueue (config p)) ->
  exists q, promote_account range now addr p = Some q /\ pool_inv [] [] q /\ shrinks p q.
Proof.
  intros Hp Haq. unfold promote_account. destruct (queue p !! addr) as [l|] eqn:Hl; [|exists p; split; [done|]; by split].
  destruct (list_Forward _ l) as [old l1] eqn:E1. apply (list_Forward_takes _ (range_all Transaction)) in E1 as [T1 Hlow];
    [|by apply (inv_queue _ _ _ _ Hp _ _ Hl)].
  destruct (queue_drop _ _ _ _ _ Hp Hl T1) as (Hp1 & S1 & Hl1 & _ & _). set (p1 := forget_all _ _ _) in *. cbn zeta.
  destruct (list_Filter _ _ _ l1) as [[drops inv] l2] eqn:E2. destruct (inv_queue _ _ _ _ Hp1 _ _ Hl1) as [Hok1 Hs1].
  apply (list_Filter_takes _ (range_all Transaction)) in E2 as [T2 Hf]; [|done].
  rewrite (not_strict_filter _ _ _ _ _ _ Hs1 Hf), app_nil_r in T2.
  destruct (queue_drop _ _ _ _ _ Hp1 Hl1 T2) as (Hp2 & S2 & Hl2 & _ & _). set (p2 := forget_all _ _ (set_queue_list addr l2 p1)) in *.
  destruct (list_Ready _ l2) as [ready l3] eqn:E3.
  destruct (promote_ready now p2 addr l2 ready l3 Hp2 Hl2 E3) as (Hp3 & S3 & Hl3 & Hok3).
  { intros n Hn. apply (takes_sub _ _ _ _ T2), Hlow in Hn as [_ Hn]. unfold nonce_at.
    rewrite (sh_state _ _ (shrinks_trans _ _ _ S1 S2)). done. }
  set (p3 := promote_all _ _ _ _ _) in *. pose proof (shrinks_trans _ _ _ (shrinks_trans _ _ _ S1 S2) S3) as S03.
  assert (exists caps l4, (if contains p3 addr then Some ([], l3) else list_Cap (Int64 (AccountQueue (config p3))) l3) = Some (caps, l4) /\
    takes l3 caps l4) as (caps & l4 & -> & T4).
  { case_if; [exists [], l3; split; [done|by apply takes_nil]|]. rewrite (sh_config _ _ S03).
    destruct (list_Cap_takes _ (range_all Transaction) _ _ Hok3 Haq) as (c & l4 & k & E4 & T4 & _). by exists c, l4. }
  cbn [mbind option_bind]. destruct (queue_drop _ _ _ _ _ Hp3 Hl3 T4) as (Hp4 & S4 & Hl4 & _ & _).
  set (p4 := forget_all _ caps _) in *. pose proof (shrinks_trans _ _ _ S03 S4) as S04.
  eexists. split; [reflexivity|]. destruct (list_Empty l4) eqn:Eemp; [|done].
  split; [by eapply delete_queue_inv|]. by eapply shrinks_trans; [exact S04|].
Qed.

Lemma promote_accounts_inv now accounts : forall p,
  pool_inv [] [] p -> 0 <= Int64 (AccountQueue (config p)) ->
  exists q, promote_accounts range now accounts p = Some q /\ pool_inv [] [] q /\ shrinks p q.
Proof.
  induction accounts as [|a accounts IH]; intros p Hp Haq; cbn [promote_accounts]; [exists p; by split_and!|].
  destruct (promote_account_inv now a p Hp Haq) as (p1 & -> & Hp1 & S1). cbn [mbind option_bind].
  destruct (IH p1 Hp1) as (q & -> & Hq & S2); [by rewrite (sh_config _ _ S1)|]. exists q. split; [done|]. split; [done|by eapply shrinks_trans].
Qed.
End Promote.
