(* ===== verification/TxPoolLimits.v ===== *)
(** The limits of the transaction pool of core/tx_pool.go: when there are too
    many executable transactions, the accounts with the most of them lose some,
    evenly; when there are too many queued ones, those of the most recently
    active accounts go first. *)
From stdpp Require Import gmap sorting.
From S2P Require Import Prelude GoMath Params StateTransition GoHeap TxSorted TxSortedCorrect TxList TxListCorrect TxPoolPlaces TxPool TxPoolInv TxPoolOps.

#[export] Instance spam_less_order : LessOrder spam_less.
Proof. split; unfold spam_less; intros; lia. Qed.

(** The number of transactions of an account. *)
Definition len_of (m : gmap Z txList) (a : Z) : Z := match m !! a with Some l => list_Len l | None => 0 end.

Lemma list_Len_nonneg l : 0 <= list_Len l.
Proof. unfold list_Len, Len. lia. Qed.

Lemma len_of_nonneg m a : 0 <= len_of m a.
Proof. unfold len_of. destruct (m !! a); [apply list_Len_nonneg|done]. Qed.

Section Limits.
Context (range : forall A, gmap Z A -> list (Z * A)) (range_all : forall A (m : gmap Z A), range A m ≡ₚ map_to_list m).
Context (Sender : Transaction -> option Z).
#[local] Abbreviation sender := (sender Sender).
#[local] Abbreviation pool_inv := (pool_inv Sender).
#[local] Abbreviation total_len := (total_len range).
Implicit Types (L X R : list Transaction) (p q : TxPool) (tx : Transaction).

Lemma foldr_add_perm (l l' : list Z) : l ≡ₚ l' -> foldr Z.add 0 l = foldr Z.add 0 l'.
Proof. induction 1; cbn; lia. Qed.

Lemma total_len_insert m a l : m !! a = None -> total_len (<[a := l]> m) = list_Len l + total_len m.
Proof.
  intros Hn. unfold TxPool.total_len. rewrite (foldr_add_perm _ (list_Len l :: map (fun kv => list_Len kv.2) (range txList m))); [done|].
  rewrite (range_all _ (<[a := l]> m)), (range_all _ m), map_to_list_insert by done. done.
Qed.

Lemma total_len_update m a l l' : m !! a = Some l -> total_len (<[a := l']> m) = total_len m - list_Len l + list_Len l'.
Proof.
  intros Hl. rewrite <-(insert_delete_id _ _ _ Hl) at 2. rewrite <-(insert_delete_eq m a l').
  rewrite !total_len_insert by apply lookup_delete_eq. lia.
Qed.

Lemma len_of_insert m a l b : len_of (<[a := l]> m) b = if decide (b = a) then list_Len l else len_of m b.
Proof. unfold len_of. case_decide as E; [subst b; by rewrite lookup_insert_eq|by rewrite lookup_insert_ne]. Qed.

(** One transaction less for [a]. *)
Lemma cap_one_inv p a l :
  pool_inv [] [] p -> pending p !! a = Some l -> 0 < list_Len l ->
  exists q l', cap_one range a p = Some q /\ pool_inv [] [] q /\ shrinks p q /\ pending q = <[a := l']> (pending p) /\
    queue q = queue p /\ list_Len l' = list_Len l - 1.
Proof.
  intros Hp Hl Hpos. destruct (inv_pending _ _ _ _ Hp _ _ Hl) as [Hok Hs]. unfold cap_one. rewrite Hl. cbn [mbind option_bind].
  destruct (list_Cap_takes _ (range_all Transaction) (list_Len l - 1) l Hok) as (drops & l' & k & -> & Ht & Hlen & Hk & Hk'); [lia|].
  cbn [mbind option_bind]. pose proof (listing_length _ _ (sorted_keyed _ (list_sorted _ Hok)) Hk) as Hsz.
  pose proof (listing_length _ _ (sorted_keyed _ (list_sorted _ (takes_ok _ _ _ Ht))) Hk') as Hsz'.
  rewrite length_app, length_rev in Hsz. assert (forall k, list_Len k = Z.of_nat (size (list_items k))) as Elen by done.
  change (items (txs ?x)) with (list_items x) in Hsz. change (items (txs ?x)) with (list_items x) in Hsz'.
  rewrite !Elen in *. destruct drops as [|tx [|? ?]]; [cbn in Hsz; lia| |cbn in Hsz; lia].
  pose proof (takes_in _ _ _ Ht tx ltac:(by left)) as Hx. rewrite <-(slot_lookup _ _ _ _ Hl) in Hx.
  destruct (con_place _ _ _ _ _ (inv_books _ _ _ _ Hp) _ _ _ (or_introl Hx)) as (Ea & _ & _).
  pose proof (pending_takes Sender _ _ _ _ _ _ _ Hp Hl Ht) as Hq. cbn [app] in Hq. apply (forget_inv range range_all) in Hq.
  eexists _, l'. split; [reflexivity|]. cbn [foldl]. set (q := forget range _ _) in *.
  assert (cuts Sender tx p (lower_nonce a (AccountNonce tx) q)) as Hc.
  { right. rewrite Ea. split; [done|]. split; [|unfold lower_nonce; change (pending_nonce q a) with (pending_nonce p a); by case_if]. intros b n.
    replace (pending (lower_nonce a (AccountNonce tx) q)) with (<[a := l']> (pending p)) by (unfold lower_nonce; by case_if).
    rewrite slot_insert. case_decide as Eb; [subst b|tauto]. rewrite (slot_lookup _ _ _ _ Hl). cbn [rev app] in Hk.
    destruct Hk as [Hsort Hel]. apply StronglySorted_app in Hsort as (Hlt & _ & _).
    split.
    - intros [y Hy]. pose proof (proj1 (takes_rest _ _ _ Ht _ _) Hy) as [Hy' _].
      destruct (sorted_keyed _ (list_sorted _ (takes_ok _ _ _ Ht)) _ _ Hy) as [En _]. split; [eauto|]. intros _. rewrite <-En.
      apply (Hlt y tx); [|by left]. apply Hk'. by rewrite En.
    - intros [[y Hy] Hn]. exists y. apply (takes_rest _ _ _ Ht). split; [done|]. intros ->%list_elem_of_singleton.
      destruct (sorted_keyed _ (list_sorted _ Hok) _ _ Hy) as [En _]. specialize (Hn eq_refl). rewrite En in Hn. by apply Z.lt_irrefl in Hn. }
  split; [|split; [|split; [unfold lower_nonce; by case_if|split; [unfold lower_nonce; by case_if|rewrite Elen; lia]]]].
  - eapply pool_inv_frame; [..|exact Hq]; unfold lower_nonce; by case_if.
  - split; try (unfold lower_nonce; case_if; done).
    + transitivity (all q); [unfold lower_nonce; by case_if|]. apply delete_subseteq.
    + intros _. apply (cuts_executable Sender p _ tx Hc). unfold lower_nonce; by case_if.
Qed.

(** Lists got shorter in the accounts of [addrs] only. *)
Record shortens (addrs : list Z) p q : Prop := {
  st_inv : pool_inv [] [] q;
  st_shrinks : shrinks p q;
  st_queue : queue q = queue p;
  st_dom a : is_Some (pending q !! a) <-> is_Some (pending p !! a);
  st_other a : a ∉ addrs -> len_of (pending q) a = len_of (pending p) a }.

Lemma shortens_trans addrs p q r : shortens addrs p q -> shortens addrs q r -> shortens addrs p r.
Proof.
  intros [] []. split; [done|by eapply shrinks_trans|congruence| |].
  - intros a. rewrite st_dom1. apply st_dom0.
  - intros a Ha. rewrite st_other1 by done. by apply st_other0.
Qed.

Lemma shortens_mono addrs addrs' p q : addrs ⊆ addrs' -> shortens addrs p q -> shortens addrs' p q.
Proof. intros Hsub []. split; try done. intros a Ha. apply st_other0. set_solver. Qed.

Lemma cap_each_inv addrs : forall p,
  pool_inv [] [] p -> NoDup addrs -> (forall a, a ∈ addrs -> 0 < len_of (pending p) a) ->
  exists q, cap_each range addrs p = Some q /\ shortens addrs p q /\ (forall a, a ∈ addrs -> len_of (pending q) a = len_of (pending p) a - 1) /\
    total_len (pending q) = total_len (pending p) - zlen addrs.
Proof.
  induction addrs as [|a addrs IH]; intros p Hp Hnd Hpos; cbn [cap_each].
  { exists p. split; [done|]. split; [by split|]. split; [set_solver|]. unfold zlen. cbn. lia. }
  apply list.NoDup_cons in Hnd as [Hna Hnd]. pose proof (Hpos a ltac:(by left)) as Ha. unfold len_of in Ha.
  destruct (pending p !! a) as [l|] eqn:Hl; [|lia].
  destruct (cap_one_inv p a l Hp Hl Ha) as (p1 & l' & -> & Hp1 & S1 & Epend & Eq & Elen). cbn [mbind option_bind].
  assert (forall b, len_of (pending p1) b = if decide (b = a) then list_Len l - 1 else len_of (pending p) b) as Hlen.
  { intros b. rewrite Epend, len_of_insert. by rewrite Elen. }
  destruct (IH p1 Hp1 Hnd) as (q & -> & Hsh & Hdec & Htot).
  { intros b Hb. rewrite Hlen, decide_False by (intros ->; done). apply Hpos. by right. }
  exists q. split; [done|]. split; [|split].
  - eapply shortens_trans; [|eapply shortens_mono; [|exact Hsh]; set_solver]. split; [done|done| | |].
    + done.
    + intros b. rewrite Epend. rewrite lookup_insert_is_Some'. split; [|by right]. intros [<-|?]; [eauto|done].
    + intros b Hb. rewrite Hlen, decide_False by set_solver. done.
  - intros b Hb. apply elem_of_cons in Hb as [->|Hb].
    + rewrite (st_other _ _ _ Hsh a Hna), Hlen, decide_True by done. unfold len_of. by rewrite Hl.
    + rewrite (Hdec b Hb), Hlen, decide_False by (intros ->; done). done.
  - rewrite Htot, Epend, (total_len_update _ _ _ _ Hl), zlen_cons. lia.
Qed.

(** The accounts of [addrs] are of one length, and stay so. *)
Lemma level_inv fuel addrs ref threshold : forall n p e,
  pool_inv [] [] p -> NoDup addrs -> ref ∈ addrs -> (forall a, a ∈ addrs -> len_of (pending p) a = e /\ is_Some (pending p !! a)) ->
  n = total_len (pending p) -> n <= Z.of_nat fuel -> 0 <= threshold -> 0 <= GlobalSlots (config p) ->
  exists n' q e', level range fuel addrs ref threshold n p = Some (n', q) /\ shortens addrs p q /\ n' = total_len (pending q) /\
    (forall a, a ∈ addrs -> len_of (pending q) a = e') /\ Z.min e threshold <= e' <= e /\
    (n' <= GlobalSlots (config p) \/ e' <= threshold).
Proof.
  induction fuel as [|fuel IH]; intros n p e Hp Hnd Href Hlen Hn Hfuel Hthr Hgs; cbn [level].
  { exists n, p, e. split; [done|]. split; [by split|]. split; [done|]. split; [by intros a Ha; apply Hlen|]. lia. }
  destruct (Z.ltb_spec (GlobalSlots (config p)) n) as [Hgt|Hle].
  2: { exists n, p, e. split; [done|]. split; [by split|]. split; [done|]. split; [by intros a Ha; apply Hlen|]. lia. }
  destruct (Hlen ref Href) as [Er [l Hl]]. rewrite Hl. cbn [mbind option_bind]. unfold len_of in Er. rewrite Hl in Er.
  destruct (Z.ltb_spec threshold (list_Len l)) as [Hthr'|Hle].
  2: { exists n, p, e. split; [done|]. split; [by split|]. split; [done|]. split; [by intros a Ha; apply Hlen|]. lia. }
  destruct (cap_each_inv addrs p Hp Hnd) as (p1 & -> & Hsh & Hdec & Htot).
  { intros a Ha. rewrite (proj1 (Hlen a Ha)). lia. }
  cbn [mbind option_bind]. pose proof (sh_config _ _ (st_shrinks _ _ _ Hsh)) as Ecfg.
  assert (0 < zlen addrs) as Hz by (destruct addrs; [set_solver|rewrite zlen_cons; pose proof (zlen_nonneg addrs); lia]).
  destruct (IH (n - zlen addrs) p1 (e - 1)) as (n' & q & e' & E & Hsh' & Hn' & Heq & He' & Hfin);
    [apply Hsh|done|done| |lia|lia|done|by rewrite Ecfg|].
  { intros a Ha. rewrite (Hdec a Ha), (proj1 (Hlen a Ha)). split; [lia|]. apply (st_dom _ _ _ Hsh). by apply Hlen. }
  exists n', q, e'. rewrite Ecfg in Hfin. split; [exact E|]. split; [by eapply shortens_trans|]. split; [done|]. split; [done|]. lia.
Qed.

(** What [equalize] starts each round with. *)
Record round p (spammers : list (Z * Z)) (offenders : list Z) (n e : Z) : Prop := {
  rd_inv : pool_inv [] [] p;
  rd_total : n = total_len (pending p);
  rd_heap : heap spam_less spammers;
  rd_once : NoDup (offenders ++ map fst spammers);
  rd_spam a k : (a, k) ∈ spammers -> len_of (pending p) a = k /\ AccountSlots (config p) < k;
  rd_even a : a ∈ offenders -> len_of (pending p) a = e /\ is_Some (pending p !! a);
  rd_high a k : offenders <> [] -> GlobalSlots (config p) < n -> (a, k) ∈ spammers -> k <= e }.

Lemma spam_pop spammers offender k rest :
  heap spam_less spammers -> heap_Pop spam_less spammers = Some ((offender, k), rest) ->
  heap spam_less rest /\ spammers ≡ₚ (offender, k) :: rest /\ forall a j, (a, j) ∈ spammers -> j <= k.
Proof.
  intros Hh E. destruct (decide (spammers = [])) as [->|Hne]; [done|].
  destruct (heap_Pop_ok spam_less spammers Hh Hne) as (x & h' & E' & Hh' & Hp & _ & Hmin).
  rewrite E in E'. injection E' as <- <-. split; [done|]. split; [done|]. intros a j Hj. specialize (Hmin _ Hj).
  unfold le, spam_less in Hmin. cbn in Hmin. lia.
Qed.

Lemma len_of_pos m a : 0 < len_of m a -> is_Some (m !! a).
Proof. unfold len_of. destruct (m !! a); [eauto|lia]. Qed.

Lemma level_done fuel addrs ref threshold n p : n <= GlobalSlots (config p) -> level range fuel addrs ref threshold n p = Some (n, p).
Proof. intros Hn. destruct fuel; [done|]. cbn [level]. by rewrite (proj2 (Z.ltb_ge _ _) Hn). Qed.

(** One round of [equalize] before the next one. *)
Lemma equalize_round p spammers offenders n e offender k rest :
  round p spammers offenders n e -> 0 <= AccountSlots (config p) -> 0 <= GlobalSlots (config p) -> GlobalSlots (config p) < n ->
  heap_Pop spam_less spammers = Some ((offender, k), rest) ->
  exists n' q,
    match list.last offenders with
    | None => Some (n, p)
    | Some prev => list ← pending p !! offender; level range (Z.to_nat n) offenders prev (list_Len list) n p
    end = Some (n', q) /\ shortens offenders p q /\ n' = total_len (pending q) /\
    (n' <= GlobalSlots (config p) \/ round q rest (offenders ++ [offender]) n' k).
Proof.
  intros [H1 H2 H3 H4 H5 H6 H7] Has Hgs Hgt E. destruct (spam_pop _ _ _ _ H3 E) as (Hrest & Hperm & Hmax).
  assert ((offender, k) ∈ spammers) as Hin by (rewrite Hperm; by left). destruct (H5 _ _ Hin) as [Ek Hk].
  assert (is_Some (pending p !! offender)) as [lo Hlo] by (apply len_of_pos; lia).
  assert (NoDup ((offenders ++ [offender]) ++ map fst rest)) as Hnd.
  { rewrite <-app_assoc. cbn. change (offender :: map fst rest) with (map fst ((offender, k) :: rest)). by rewrite <-Hperm. }
  assert ((offender ∉ offenders) /\ forall a j, (a, j) ∈ rest -> (a ∉ offenders) /\ a <> offender) as [Hno Hout].
  { rewrite <-app_assoc in Hnd. apply list.NoDup_app in Hnd as (_ & Hdis & Hnd). cbn in Hnd, Hdis. apply list.NoDup_cons in Hnd as [Hnew _].
    split; [intros Ho; apply (Hdis _ Ho); by left|]. intros a j Haj. apply (list_elem_of_fmap_2 fst) in Haj. cbn in Haj.
    split; [intros Ho; apply (Hdis _ Ho); by right|]. by intros ->. }
  destruct (list.last offenders) as [prev|] eqn:El.
  - assert (prev ∈ offenders) as Hprev by (by apply last_Some_elem_of).
    rewrite Hlo. cbn [mbind option_bind]. unfold len_of in Ek. rewrite Hlo in Ek.
    destruct (level_inv (Z.to_nat n) offenders prev (list_Len lo) n p e) as (n' & q & e' & -> & Hsh & Hn' & Heq & He' & Hfin);
      [done| |done|done|done|lia|apply list_Len_nonneg|done|].
    { apply list.NoDup_app in H4 as [? _]. done. }
    exists n', q. split; [done|]. split; [done|]. split; [done|]. destruct (decide (n' <= GlobalSlots (config p))) as [|Hn2]; [by left|right].
    pose proof (sh_config _ _ (st_shrinks _ _ _ Hsh)) as Ecfg.
    assert (k <= e) as Hke by (apply (H7 offender k); [by intros ->|done|done]). assert (e' = k) as -> by lia.
    assert (forall a, a ∉ offenders -> len_of (pending q) a = len_of (pending p) a) as Hsame by apply Hsh.
    split; try done; [apply Hsh| | |].
    + intros a j Haj. rewrite Ecfg, Hsame by apply (Hout a j Haj). apply H5. rewrite Hperm. by right.
    + intros a [Ha|Ha%list_elem_of_singleton]%elem_of_app; [|subst a].
      * split; [by apply Heq|]. apply (st_dom _ _ _ Hsh). by apply H6.
      * rewrite Hsame by done. unfold len_of. rewrite Hlo. split; [done|]. apply (st_dom _ _ _ Hsh). eauto.
    + intros a j _ _ Haj. apply (Hmax a). rewrite Hperm. by right.
  - apply last_None in El as ->. exists n, p. split; [done|]. split; [by split|]. split; [done|]. right. split; try done.
    + intros a j Haj. apply H5. rewrite Hperm. by right.
    + intros a Ha%list_elem_of_singleton. subst a. eauto.
    + intros a j _ _ Haj. apply (Hmax a). rewrite Hperm. by right.
Qed.

Lemma equalize_inv fuel : forall spammers offenders n p e,
  round p spammers offenders n e -> (length spammers <= fuel)%nat -> 0 <= AccountSlots (config p) -> 0 <= GlobalSlots (config p) ->
  exists offenders' n' q, equalize range fuel spammers offenders n p = Some (offenders', n', q) /\
    shortens (offenders ++ map fst spammers) p q /\ n' = total_len (pending q) /\
    (n' <= GlobalSlots (config p) \/
     offenders' ≡ₚ offenders ++ map fst spammers /\ exists e', forall a, a ∈ offenders' -> len_of (pending q) a = e' /\ is_Some (pending q !! a)).
Proof.
  assert (forall n p e offenders, round p [] offenders n e -> exists offenders' n' q, Some (offenders, n, p) = Some (offenders', n', q) /\
    shortens (offenders ++ map fst (@nil (Z * Z))) p q /\ n' = total_len (pending q) /\
    (n' <= GlobalSlots (config p) \/ offenders' ≡ₚ offenders ++ map fst (@nil (Z * Z)) /\
      exists e', forall a, a ∈ offenders' -> len_of (pending q) a = e' /\ is_Some (pending q !! a))) as Hstop.
  { intros n p e offenders [H1 H2 H3 H4 H5 H6 H7]. exists offenders, n, p. split; [done|]. split; [by split|]. split; [done|].
    right. split; [cbn; by rewrite app_nil_r|by exists e]. }
  induction fuel as [|fuel IH]; intros spammers offenders n p e Hr Hf Has Hgs; cbn [equalize].
  { destruct spammers; [|cbn in Hf; lia]. by apply (Hstop n p e). }
  destruct (Z.ltb_spec (GlobalSlots (config p)) n) as [Hgt|Hle].
  2: { exists offenders, n, p. split; [done|]. split; [by split; try apply Hr|]. split; [apply Hr|by left]. }
  destruct (heap_Pop spam_less spammers) as [[[offender k] rest]|] eqn:E.
  2: { destruct spammers as [|x h]; [by apply (Hstop n p e)|]. by destruct (heap_Pop_ok spam_less (x :: h) (rd_heap _ _ _ _ _ Hr)) as (? & ? & E' & _); [done|rewrite E in E'; done]. }
  destruct (equalize_round _ _ _ _ _ _ _ _ Hr Has Hgs Hgt E) as (n1 & p1 & -> & Hsh & Hn1 & Hnext). cbn [mbind option_bind].
  destruct (spam_pop _ _ _ _ (rd_heap _ _ _ _ _ Hr) E) as (_ & Hperm & _). pose proof (sh_config _ _ (st_shrinks _ _ _ Hsh)) as Ecfg.
  assert (shortens (offenders ++ map fst spammers) p p1) as Hsh' by (eapply shortens_mono; [|exact Hsh]; set_solver).
  destruct (decide (n1 <= GlobalSlots (config p))) as [Hdone|Hmore].
  - exists (offenders ++ [offender]), n1, p1. split; [destruct fuel; [done|]; cbn [equalize]; by rewrite Ecfg, (proj2 (Z.ltb_ge _ _) Hdone)|].
    split; [done|]. split; [done|by left].
  - destruct Hnext as [|Hnext]; [lia|]. pose proof (Permutation_length Hperm) as Hlen. cbn in Hlen.
    destruct (IH rest (offenders ++ [offender]) n1 p1 k Hnext) as (o' & n' & q & E' & Hsh2 & Hn' & Hfin); [lia|by rewrite Ecfg..|].
    assert ((offenders ++ [offender]) ++ map fst rest ≡ₚ offenders ++ map fst spammers) as Hall.
    { rewrite <-app_assoc. f_equiv. by rewrite Hperm. }
    exists o', n', q. split; [exact E'|]. split; [eapply shortens_trans; [exact Hsh'|]; eapply shortens_mono; [|exact Hsh2]; by rewrite Hall|].
    split; [done|]. rewrite Ecfg in Hfin. destruct Hfin as [|[Hp' Hev]]; [by left|right]. split; [by rewrite Hp', Hall|done].
Qed.

(** The accounts with more executable transactions than they are entitled to. *)
Definition spammer p (kv : Z * txList) : Prop := contains p kv.1 = false /\ AccountSlots (config p) < list_Len kv.2.
#[local] Instance spammer_dec p kv : Decision (spammer p kv).
Proof. unfold spammer. apply _. Defined.

Lemma push_spammers p kvs : forall h, heap spam_less h ->
  heap spam_less (foldl (push_spammer p) h kvs) /\
  foldl (push_spammer p) h kvs ≡ₚ map (fun kv => (kv.1, list_Len kv.2)) (filter (spammer p) kvs) ++ h.
Proof.
  induction kvs as [|kv kvs IH]; intros h Hh; cbn [foldl]; [done|]. unfold push_spammer at 2 4. rewrite filter_cons.
  destruct (decide (spammer p kv)) as [[E1 E2]|Hno].
  - rewrite E1. cbn [negb andb]. rewrite (proj2 (Z.ltb_lt _ _) E2).
    destruct (heap_Push_ok spam_less (kv.1, list_Len kv.2) h Hh) as [H1 H2]. destruct (IH _ H1) as [H3 H4]. split; [done|].
    rewrite H4, H2. cbn. by rewrite Permutation_middle.
  - replace (negb (contains p kv.1) && _) with false; [by apply IH|]. symmetry. apply andb_false_iff. unfold spammer in Hno.
    destruct (contains p kv.1); [by left|right]. apply Z.ltb_ge. destruct (decide (AccountSlots (config p) < list_Len kv.2)); [tauto|lia].
Qed.

Lemma spammers_ok p (h := foldl (push_spammer p) [] (range txList (pending p))) :
  heap spam_less h /\ NoDup (map fst h) /\
  forall a k, (a, k) ∈ h <-> exists l, pending p !! a = Some l /\ list_Len l = k /\ contains p a = false /\ AccountSlots (config p) < k.
Proof.
  destruct (push_spammers p (range txList (pending p)) []) as [H1 H2]; [by intros c; cbn; lia|]. fold h in H1, H2. rewrite app_nil_r in H2.
  split; [done|]. split.
  - rewrite H2, map_map. cbn. change (NoDup (filter (spammer p) (range txList (pending p))).*1).
    eapply sublist_NoDup; [|apply fmap_sublist, sublist_filter]. rewrite range_all. apply NoDup_fst_map_to_list.
  - intros a k. rewrite H2. split.
    + intros ([b l] & [= -> ->] & Hl)%list_elem_of_fmap. apply list_elem_of_filter in Hl as [[E1 E2] Hl]. rewrite range_all in Hl.
      apply elem_of_map_to_list in Hl. by exists l.
    + intros (l & Hl & <- & E1 & E2). apply list_elem_of_fmap. exists (a, l). split; [done|]. apply list_elem_of_filter.
      split; [done|]. rewrite range_all. by apply elem_of_map_to_list.
Qed.

(** What [truncate_pending] guarantees: the limit holds, or each account that is
    not local has no more than its own; local accounts lose nothing. *)
Record pending_limited p q : Prop := {
  pl_inv : pool_inv [] [] q;
  pl_shrinks : shrinks p q;
  pl_queue : queue q = queue p;
  pl_limit : total_len (pending q) <= GlobalSlots (config p) \/
    forall a, contains p a = false -> len_of (pending q) a <= AccountSlots (config p);
  pl_local a : contains p a = true -> len_of (pending q) a = len_of (pending p) a }.

Lemma truncate_pending_inv p :
  pool_inv [] [] p -> 0 <= AccountSlots (config p) -> 0 <= GlobalSlots (config p) ->
  exists q, truncate_pending range p = Some q /\ pending_limited p q.
Proof.
  intros Hp Has Hgs. unfold truncate_pending. destruct (Z.ltb_spec (GlobalSlots (config p)) (total_len (pending p))) as [Hgt|Hle].
  2: { exists p. split; [done|]. split; try done. by left. }
  destruct (spammers_ok p) as (Hh & Hnd & Hsp). cbn zeta in *. set (h := foldl _ _ _) in *.
  assert (round p h [] (total_len (pending p)) 0) as Hr.
  { split; try done; [|by intros a Ha; apply list.not_elem_of_nil in Ha]. intros a k (l & Hl & <- & _ & Hk)%Hsp. unfold len_of. by rewrite Hl. }
  destruct (equalize_inv (length h) h [] _ p 0 Hr) as (o & n & q & -> & Hsh & Hn & Hfin); [done|done|done|]. cbn [mbind option_bind app] in *.
  assert (forall a, contains p a = true -> a ∉ map fst h) as Hloc.
  { intros a Ha ([b k] & -> & Hin)%list_elem_of_fmap. apply Hsp in Hin as (_ & _ & _ & E & _). cbn in *. congruence. }
  assert (forall a, contains p a = false -> a ∉ map fst h -> len_of (pending p) a <= AccountSlots (config p)) as Hlow.
  { intros a Ha Hout. unfold len_of. destruct (pending p !! a) as [l|] eqn:El; [|done].
    destruct (decide (AccountSlots (config p) < list_Len l)); [|lia]. destruct Hout. apply (list_elem_of_fmap_2' fst h (a, list_Len l)); [|done].
    apply Hsp. by exists l. }
  pose proof (sh_config _ _ (st_shrinks _ _ _ Hsh)) as Ecfg.
  assert (n <= GlobalSlots (config p) -> pending_limited p q) as Hdone.
  { intros Hle. split; try apply Hsh; [left; by rewrite <-Hn|]. intros a Ha. by apply Hsh, Hloc. }
  destruct (list.last o) as [ref|] eqn:El.
  - destruct (decide (n <= GlobalSlots (config p))) as [Hle|Hmore].
    { rewrite level_done by (by rewrite Ecfg). exists q. split; [done|by apply Hdone]. }
    destruct Hfin as [|[Hperm [e He]]]; [done|]. assert (NoDup o) as Hndo by (by rewrite Hperm).
    destruct (level_inv (Z.to_nat n) o ref (AccountSlots (config q)) n q e) as (n' & r & e' & -> & Hsh' & Hn' & Heq & He' & Hend);
      [apply Hsh|done|by apply last_Some_elem_of|done|done|lia|by rewrite Ecfg|by rewrite Ecfg|].
    exists r. split; [done|]. rewrite Ecfg in Hend, He'.
    assert (shortens (map fst h) p r) as Hpr by (eapply shortens_trans; [exact Hsh|]; eapply shortens_mono; [|exact Hsh']; by rewrite Hperm).
    split; try apply Hpr.
    + destruct Hend as [|Hend]; [left; by rewrite <-Hn'|right]. intros a Ha. destruct (decide (a ∈ map fst h)) as [Hin|Hout].
      * rewrite Heq by (by rewrite Hperm). done.
      * rewrite (st_other _ _ _ Hpr a Hout). by apply Hlow.
    + intros a Ha. by apply Hpr, Hloc.
  - exists q. split; [done|]. apply last_None in El as ->. destruct Hfin as [|[Hperm _]]; [by apply Hdone|].
    apply Permutation_nil_l in Hperm. split; try apply Hsh; [right|intros a Ha; by apply Hsh, Hloc].
    intros a Ha. assert (a ∉ map fst h) as Hout by (rewrite <-Hperm; apply list.not_elem_of_nil). rewrite (st_other _ _ _ Hsh a Hout). by apply Hlow.
Qed.

(** * The queue *)
Lemma total_len_delete m a : total_len (delete a m) = total_len m - len_of m a.
Proof.
  unfold len_of. destruct (m !! a) as [l|] eqn:E; [|rewrite delete_id by done; lia].
  rewrite <-(insert_delete_id _ _ _ E) at 2. rewrite total_len_insert by apply lookup_delete_eq. lia.
Qed.

Lemma len_of_empty m a l : m !! a = Some l -> list_Empty l = true -> len_of m a = 0.
Proof. intros Hl E. unfold len_of. rewrite Hl. by apply Z.eqb_eq in E. Qed.

(** [q] is [p] without some queued transactions of [a]. *)
Record unqueues (a k : Z) p q : Prop := {
  uq_inv : pool_inv [] [] q;
  uq_shrinks : shrinks p q;
  uq_pending : pending q = pending p;
  uq_other b : b <> a -> queue q !! b = queue p !! b;
  uq_sub n tx : slot (queue q) a n = Some tx -> slot (queue p) a n = Some tx;
  uq_total : total_len (queue q) = total_len (queue p) - k;
  uq_len : len_of (queue q) a = len_of (queue p) a - k }.

Lemma removeTx_queued p tx a :
  pool_inv [] [] p -> slot (queue p) a (AccountNonce tx) = Some tx ->
  let q := removeTx range Sender (TxHash tx) true p in
  unqueues a 1 p q /\ forall n, slot (queue q) a n = if decide (n = AccountNonce tx) then None else slot (queue p) a n.
Proof.
  intros Hp Hx q. destruct (con_place _ _ _ _ _ (inv_books _ _ _ _ Hp) _ _ _ (or_intror Hx)) as [Ea _].
  assert (all p !! TxHash tx = Some tx) as Hall.
  { apply (con_all _ _ _ _ _ (inv_books _ _ _ _ Hp)). right. left. unfold at_place. by rewrite Ea. }
  assert (slot (pending p) (sender tx) (AccountNonce tx) = None) as Hn.
  { rewrite Ea. destruct (con_disjoint _ _ _ _ _ (inv_books _ _ _ _ Hp) a (AccountNonce tx)); [done|congruence]. }
  destruct (removeTx_shrinks range range_all Sender [] p (TxHash tx) true Hp) as (Hq & Hs & _). fold q in Hq, Hs.
  destruct (remove_from_queue range range_all Sender [] p true tx Hp Hall Hn) as (m & Em & _ & l & l' & Hl & Hok & Ht & Hm). rewrite Ea in *.
  assert (q = set_queue m (drop_hash range true (TxHash tx) p)) as Eq.
  { subst q. unfold removeTx. rewrite Hall, Ea. change (pending (drop_hash range true (TxHash tx) p)) with (pending p).
    destruct (pending p !! a) as [lp|] eqn:Elp; [|done].
    destruct (list_Remove _ tx lp) as [[found inv] lp'] eqn:E.
    apply (list_Remove_takes _ (range_all Transaction)) in E as [Hf _]; [|by apply (inv_pending _ _ _ _ Hp _ _ Elp)].
    rewrite <-(slot_lookup _ _ _ _ Elp), Hn, bool_decide_false in Hf by (by intros [? ?]). by subst found. }
  assert (list_Len l' = list_Len l - 1) as Hlen.
  { unfold list_Len, Len. change (items (txs ?x)) with (list_items x). rewrite (takes_one _ _ _ Hok Ht).
    rewrite (slot_lookup _ _ _ _ Hl) in Hx. rewrite map_size_delete_Some by eauto.
    assert (size (list_items l) <> 0%nat) by (intros E%map_size_empty_inv; by rewrite E, lookup_empty in Hx). lia. }
  assert (forall b, m !! b = if decide (b = a) then (if list_Empty l' then None else Some l') else queue p !! b) as Hlook.
  { intros b. subst m. case_decide as E; destruct (list_Empty l'); try subst b;
      rewrite ?lookup_delete_eq, ?lookup_insert_eq, ?lookup_delete_ne, ?lookup_insert_ne by done; done. }
  assert (len_of m a = list_Len l') as Elen.
  { unfold len_of. rewrite Hlook, decide_True by done. destruct (list_Empty l') eqn:E; [by apply Z.eqb_eq in E|done]. }
  assert (forall n, slot (queue q) a n = if decide (n = AccountNonce tx) then None else slot (queue p) a n) as Hslot.
  { intros n. rewrite Eq. cbn. unfold slot at 1. rewrite Hlook, decide_True, (slot_lookup _ _ _ _ Hl) by done.
    pose proof (takes_one _ _ _ Hok Ht) as Hi. transitivity (list_items l' !! n).
    - destruct (list_Empty l') eqn:E; [apply list_Empty_items in E; by rewrite E|done].
    - rewrite Hi. case_decide as E; [subst n; apply lookup_delete_eq|by apply lookup_delete_ne]. }
  split; [|done]. split; try done.
  - by rewrite Eq.
  - intros b Hb. rewrite Eq. cbn. by rewrite Hlook, decide_False.
  - intros n y. rewrite Hslot. by case_decide.
  - rewrite Eq. cbn. assert (total_len (<[a := l']> (queue p)) = total_len (queue p) - 1) as Et by (rewrite (total_len_update _ _ _ _ Hl); lia).
    subst m. destruct (list_Empty l') eqn:E; [|done]. rewrite total_len_delete, (len_of_empty _ _ l'); [lia|apply lookup_insert_eq|done].
  - rewrite Eq. cbn. rewrite Elen. unfold len_of. rewrite Hl. done.
Qed.

Lemma unqueues_trans a j k p q r : unqueues a j p q -> unqueues a k q r -> unqueues a (j + k) p r.
Proof.
  intros [] []. split; [done|by eapply shrinks_trans|congruence| |auto|lia|lia]. intros b Hb. rewrite uq_other1 by done. by apply uq_other0.
Qed.

Lemma remove_all_queued a l : forall p,
  pool_inv [] [] p -> NoDup (AccountNonce <$> l) ->
  (forall tx, tx ∈ l -> slot (queue p) a (AccountNonce tx) = Some tx) -> unqueues a (zlen l) p (remove_all range Sender l true p).
Proof.
  induction l as [|tx l IH]; intros p Hp Hnd Hin.
  { unfold zlen. cbn. split; try done; [unfold TxPool.total_len; lia|lia]. }
  cbn in Hnd. apply list.NoDup_cons in Hnd as [Hne Hnd'].
  destruct (removeTx_queued p tx a Hp) as [Hu Hslot]; [apply Hin; by left|]. cbn [remove_all foldl]. rewrite zlen_cons.
  eapply unqueues_trans; [exact Hu|]. apply IH; [apply Hu|done|]. intros y Hy. rewrite Hslot, decide_False; [apply Hin; by right|].
  intros E. destruct Hne. rewrite <-E. by apply list_elem_of_fmap_2.
Qed.

(** The queue of [a] is listed and loses a part of it. *)
Lemma flatten_remove p a l c l' R :
  pool_inv [] [] p -> queue p !! a = Some l -> list_Flatten (range Transaction) l = (c, l') ->
  (R = c \/ exists k, R = take k (reverse c)) ->
  unqueues a (zlen R) p (remove_all range Sender R true (set_queue_list a l' p)) /\ zlen c = list_Len l.
Proof.
  intros Hp Hl E HR. destruct (inv_queue _ _ _ _ Hp _ _ Hl) as [Hok Hs].
  apply (list_Flatten_ok _ (range_all Transaction)) in E as (Hok' & Hs' & Hi & Hlist); [|done].
  pose proof (queue_same Sender _ _ _ _ _ _ Hp Hl Hok' Hs' Hi) as Hq. set (q := set_queue_list a l' p) in *.
  assert (zlen c = list_Len l) as Hlen.
  { unfold zlen, list_Len, Len. f_equal. apply listing_length; [apply (list_sorted _ Hok)|done]. }
  assert (list_Len l' = list_Len l) as Elen by (unfold list_Len, Len; change (items (txs ?x)) with (list_items x); by rewrite Hi).
  assert (forall n, slot (queue q) a n = slot (queue p) a n) as Hslot.
  { intros n. unfold q. cbn. by rewrite slot_insert, decide_True, Hi, (slot_lookup _ _ _ _ Hl). }
  assert (unqueues a 0 p q) as H0.
  { split; try done; [by intros b Hb; apply lookup_insert_ne|by intros n tx; rewrite Hslot| |].
    - unfold q. cbn. rewrite (total_len_update _ _ _ _ Hl). lia.
    - unfold q. cbn. rewrite len_of_insert, decide_True by done. unfold len_of. rewrite Hl. lia. }
  split; [|done]. replace (zlen R) with (0 + zlen R) by lia. eapply unqueues_trans; [exact H0|]. destruct Hlist as [Hsort Hel].
  assert (forall tx, tx ∈ c -> slot (queue q) a (AccountNonce tx) = Some tx) as Hin.
  { intros tx Hx. rewrite Hslot, (slot_lookup _ _ _ _ Hl). by apply Hel. }
  apply remove_all_queued; [apply H0| |].
  - assert (NoDup (AccountNonce <$> c)) as Hnd by (by apply Zlt_sorted_NoDup, nonces_sorted). destruct HR as [->|[k ->]]; [done|].
    eapply sublist_NoDup; [|apply fmap_sublist, sublist_take]. by rewrite reverse_Permutation.
  - intros tx Hx. apply Hin. destruct HR as [->|[k ->]]; [done|]. apply (elem_of_submseteq _ (reverse c)) in Hx; [by rewrite reverse_Permutation in Hx|].
    apply sublist_submseteq, sublist_take.
Qed.

Lemma drop_queued_inv addrs : forall drop p,
  pool_inv [] [] p -> NoDup addrs -> (forall a, a ∈ addrs -> is_Some (queue p !! a)) -> 0 <= drop ->
  exists q, drop_queued range Sender addrs drop p = Some q /\ pool_inv [] [] q /\ shrinks p q /\ pending q = pending p /\
    (forall b, b ∉ addrs -> queue q !! b = queue p !! b) /\
    (total_len (queue q) <= total_len (queue p) - drop \/ forall a, a ∈ addrs -> len_of (queue q) a = 0).
Proof.
  induction addrs as [|a addrs IH]; intros drop p Hp Hnd Hdom Hdrop; cbn [drop_queued].
  { exists p. split_and!; try done. right. intros a Ha. by apply list.not_elem_of_nil in Ha. }
  apply list.NoDup_cons in Hnd as [Hna Hnd]. destruct (Z.leb_spec drop 0) as [Hle|Hgt].
  { exists p. split_and!; try done. left. lia. }
  destruct (Hdom a ltac:(by left)) as [l Hl]. rewrite Hl. cbn [mbind option_bind].
  destruct (list_Flatten _ l) as [c l'] eqn:E.
  assert (forall k drop' q, unqueues a k p q -> 0 <= drop' -> exists r, drop_queued range Sender addrs drop' q = Some r /\
    pool_inv [] [] r /\ shrinks p r /\ pending r = pending p /\ (forall b, b ∉ a :: addrs -> queue r !! b = queue p !! b) /\
    queue r !! a = queue q !! a /\
    (total_len (queue r) <= total_len (queue p) - k - drop' \/ forall b, b ∈ addrs -> len_of (queue r) b = 0)) as Hnext.
  { intros k drop' q Hu Hd'. destruct (IH drop' q (uq_inv _ _ _ _ Hu) Hnd) as (r & H1 & H2 & H3 & H4 & H5 & H6); [|done|].
    { intros b Hb. rewrite (uq_other _ _ _ _ Hu) by (intros ->; done). apply Hdom. by right. }
    exists r. split; [done|]. split; [done|]. split; [eapply shrinks_trans; [apply Hu|done]|]. split; [rewrite H4; apply Hu|].
    split; [|split; [by apply H5|]].
    - intros b Hb. rewrite H5 by set_solver. apply (uq_other _ _ _ _ Hu). set_solver.
    - rewrite (uq_total _ _ _ _ Hu) in H6. done. }
  destruct (Z.leb_spec (list_Len l) drop) as [Hsz|Hsz].
  - destruct (flatten_remove p a l c l' c Hp Hl E (or_introl eq_refl)) as [Hu Hlen].
    destruct (Hnext _ (drop - list_Len l) _ Hu) as (r & -> & H2 & H3 & H4 & H5 & H6 & H7); [lia|].
    exists r. split_and!; try done. destruct H7 as [H7|H7]; [left; lia|right].
    intros b [->|Hb]%elem_of_cons; [|by apply H7]. pose proof (uq_len _ _ _ _ Hu) as Hz. unfold len_of in *. rewrite H6. rewrite Hl in Hz. lia.
  - destruct (flatten_remove p a l c l' (take (Z.to_nat drop) (reverse c)) Hp Hl E) as [Hu Hlen]; [right; by eexists|].
    set (q := remove_all _ _ _ _ _) in *. exists q. split; [destruct addrs; done|]. split; [apply Hu|]. split; [apply Hu|]. split; [apply Hu|].
    split; [intros b Hb; apply (uq_other _ _ _ _ Hu); set_solver|left]. rewrite (uq_total _ _ _ _ Hu).
    unfold zlen in *. rewrite length_take, length_reverse. lia.
Qed.

(** What [truncate_queue] guarantees: the limit holds, or only local accounts
    have queued transactions; local accounts lose nothing. *)
Record queue_limited p q : Prop := {
  ql_inv : pool_inv [] [] q;
  ql_shrinks : shrinks p q;
  ql_pending : pending q = pending p;
  ql_limit : total_len (queue q) <= GlobalQueue (config p) \/ forall a, contains p a = false -> len_of (queue q) a = 0;
  ql_local a : contains p a = true -> queue q !! a = queue p !! a }.

Lemma truncate_queue_inv p : pool_inv [] [] p -> exists q, truncate_queue range Sender p = Some q /\ queue_limited p q.
Proof.
  intros Hp. unfold truncate_queue. destruct (Z.ltb_spec (GlobalQueue (config p)) (total_len (queue p))) as [Hgt|Hle].
  2: { exists p. split; [done|]. split; try done. by left. }
  set (addrs := reverse _).
  assert (forall a, a ∈ addrs <-> is_Some (queue p !! a) /\ contains p a = false) as Hin.
  { intros a. subst addrs. rewrite reverse_Permutation, merge_sort_Permutation, map_map. cbn. split.
    - intros ([b l] & -> & Hx)%list_elem_of_fmap. apply list_elem_of_filter in Hx as [E Hx]. rewrite range_all in Hx.
      apply elem_of_map_to_list in Hx. eauto.
    - intros [[l Hl] E]. apply list_elem_of_fmap. exists (a, l). split; [done|]. apply list_elem_of_filter. split; [done|].
      rewrite range_all. by apply elem_of_map_to_list. }
  assert (NoDup addrs) as Hnd.
  { subst addrs. rewrite reverse_Permutation, merge_sort_Permutation, map_map. cbn.
    change (NoDup (filter (fun kv => contains p kv.1 = false) (range txList (queue p))).*1).
    eapply sublist_NoDup; [|apply fmap_sublist, sublist_filter]. rewrite range_all. apply NoDup_fst_map_to_list. }
  destruct (drop_queued_inv addrs (total_len (queue p) - GlobalQueue (config p)) p Hp Hnd) as (q & -> & H1 & H2 & H3 & H4 & H5); [|lia|].
  { intros a Ha. by apply Hin in Ha as [? _]. }
  exists q. split; [done|]. split; try done.
  - destruct H5 as [H5|H5]; [left; lia|right]. intros a Ha. destruct (decide (a ∈ addrs)) as [|Hout]; [by apply H5|].
    unfold len_of. rewrite H4 by done. destruct (queue p !! a) eqn:E; [|done]. destruct Hout. apply Hin. eauto.
  - intros a Ha. apply H4. intros Hx%Hin. destruct Hx as [_ Hx]. congruence.
Qed.

(** * Together *)
Record limits_ok p : Prop := {
  lim_slots : 0 <= AccountSlots (config p);
  lim_global : 0 <= GlobalSlots (config p);
  lim_queue : 0 <= Int64 (AccountQueue (config p)) }.

Lemma limits_shrinks p q : shrinks p q -> limits_ok p -> limits_ok q.
Proof. intros Hs []. by split; rewrite (sh_config _ _ Hs). Qed.

(** After [promoteExecutables]. *)
Definition within_limits p : Prop :=
  (total_len (pending p) <= GlobalSlots (config p) \/
   forall a, contains p a = false -> len_of (pending p) a <= AccountSlots (config p)) /\
  (total_len (queue p) <= GlobalQueue (config p) \/ forall a, contains p a = false -> len_of (queue p) a = 0).

Lemma contains_shrinks p q a : shrinks p q -> contains q a = contains p a.
Proof. intros Hs. unfold contains. by rewrite (sh_locals _ _ Hs). Qed.

Lemma promoteExecutables_inv now accounts p :
  pool_inv [] [] p -> limits_ok p ->
  exists q, promoteExecutables range Sender now accounts p = Some q /\ pool_inv [] [] q /\ shrinks p q /\ within_limits q.
Proof.
  intros Hp Hlim. unfold promoteExecutables. set (l := match accounts with Some l => l | None => _ end).
  destruct (promote_accounts_inv range range_all Sender now l p Hp (lim_queue _ Hlim)) as (p1 & -> & Hp1 & S1). cbn [mbind option_bind].
  destruct (truncate_pending_inv p1 Hp1) as (p2 & -> & [H1 S2 H3 H4 _]); [apply (limits_shrinks _ _ S1 Hlim)..|]. cbn [mbind option_bind].
  destruct (truncate_queue_inv p2 H1) as (q & -> & [G1 S3 G3 G4 _]). exists q. split; [done|]. split; [done|].
  split; [by eapply shrinks_trans; [|eapply shrinks_trans]|]. split.
  - rewrite G3, (sh_config _ _ S3), (sh_config _ _ S2). destruct H4 as [|H4]; [by left|right]. intros a Ha. apply H4.
    by rewrite <-(contains_shrinks _ _ a S2), <-(contains_shrinks _ _ a S3).
  - rewrite (sh_config _ _ S3). destruct G4 as [|G4]; [by left|right]. intros a Ha. apply G4. by rewrite <-(contains_shrinks _ _ a S3).
Qed.
End Limits.
