(* ===== verification/TxPoolReset.v ===== *)
(** [demoteUnexecutables] and [reset] of core/tx_pool.go: after the head of the
    chain has changed, the executable transactions are again those from the
    nonce of the account on, without a gap where there was none. *)
From stdpp Require Import gmap sorting.
From S2P Require Import Prelude GoMath Params StateTransition GoHeap TxSorted TxSortedCorrect TxList TxListCorrect TxPoolPlaces TxPool TxPoolInv TxPoolOps TxPoolLimits.

(** Initial segments of an interval. *)
Lemma initial_segment (P : Z -> Prop) (Pdec : forall n, Decision (P n)) s e :
  (forall n, P n -> s <= n < e) -> (forall m n, s <= m -> m <= n -> P n -> P m) -> exists e', s <= e' /\ forall n, P n <-> s <= n < e'.
Proof.
  intros Hr Hd. remember (Z.to_nat (e - s)) as k eqn:Hk. revert e Hr Hk. induction k as [|k IH]; intros e Hr Hk.
  { exists s. split; [lia|]. intros n. split; [intros Hn; apply Hr in Hn; lia|lia]. }
  destruct (Pdec (e - 1)) as [Hp|Hp].
  - exists e. split; [apply Hr in Hp; lia|]. intros n. split; [apply Hr|]. intros Hn. apply (Hd n (e - 1)); [lia|lia|done].
  - apply (IH (e - 1)); [|lia]. intros n Hn. pose proof (Hr n Hn). split; [lia|]. destruct (decide (n = e - 1)) as [->|]; [done|lia].
Qed.

Section Reset.
Context (range : forall A, gmap Z A -> list (Z * A)) (range_all : forall A (m : gmap Z A), range A m ≡ₚ map_to_list m).
Context (Sender : Transaction -> option Z).
#[local] Abbreviation sender := (sender Sender).
#[local] Abbreviation pool_inv := (pool_inv Sender).
Implicit Types (L X R : list Transaction) (p q : TxPool) (tx : Transaction).

(** The nonces of [m] in account [a] have no gap. *)
Definition gapless (m : gmap Z txList) (a : Z) : Prop := exists s e, forall n, is_Some (slot m a n) <-> s <= n < e.
(** They start with the nonce of the account. *)
Definition starts p (a : Z) : Prop := exists e, nonce_at p a <= e /\ forall n, is_Some (slot (pending p) a n) <-> nonce_at p a <= n < e.

(** The transaction with the nonce of the account is executable, and the account
    can pay for that and all later ones, which may have gaps between them. *)
Definition payable p (a : Z) : Prop :=
  is_Some (slot (pending p) a (nonce_at p a)) /\
  forall n tx, slot (pending p) a n = Some tx -> nonce_at p a <= n -> unaffordable (state_balance (currentState p) a) (currentMaxGas p) tx = false.
(** Just those below the nonce of the account are gone. *)
Definition forwarded p q (a : Z) : Prop :=
  forall n, slot (pending q) a n = if n <? nonce_at p a then None else slot (pending p) a n.

(** Demotion changes the books of [addr] only. *)
Record demotes (addr : Z) p q : Prop := {
  dm_inv : pool_inv [] [] q;
  dm_config : config q = config p;
  dm_state : currentState q = currentState p;
  dm_gas : currentMaxGas q = currentMaxGas p;
  dm_locals : locals q = locals p;
  dm_all : all q ⊆ all p;
  dm_nonces : pendingNonces q = pendingNonces p;
  dm_other b : b <> addr -> pending q !! b = pending p !! b;
  dm_some l : pending q !! addr = Some l -> list_Empty l = false;
  dm_starts : gapless (pending p) addr -> starts q addr;
  dm_payable : payable p addr -> forwarded p q addr }.

(** Nothing leaves a list that can be paid for. *)
Lemma filter_payable c g l removed invalids l' :
  list_ok l -> filtered c g l removed invalids l' -> (forall n tx, list_items l !! n = Some tx -> unaffordable c g tx = false) -> list_items l' = list_items l.
Proof.
  intros Hok (_ & Hr & Hi & Hrest) Hpay. assert (forall tx, ~ tx ∈ removed) as Hnr by (intros tx [H1 H2]%Hr; specialize (Hpay _ _ H1); congruence).
  apply map_eq. intros n. apply option_eq. intros tx. rewrite Hrest. split; [by intros [? _]|]. intros Hx. split; [done|]. split; [apply Hnr|].
  intros (_ & _ & _ & t & Ht & _)%Hi. by destruct (Hnr t).
Qed.

(** What is left of a strict list has no gap that the list had not. *)
Lemma filter_prefix c g l removed invalids l' s e :
  list_ok l -> strict l = true -> filtered c g l removed invalids l' -> (forall n, is_Some (list_items l !! n) <-> s <= n < e) ->
  exists e', s <= e' /\ forall n, is_Some (list_items l' !! n) <-> s <= n < e'.
Proof.
  intros Hok Hs (Hok' & Hr & Hi & Hrest) Hl. apply (initial_segment _ _ s e).
  - intros n [tx Hx]. apply Hrest in Hx as [Hx _]. apply Hl. eauto.
  - intros m n Hm Hle [tx Hx]. apply Hrest in Hx as (Hx & Hnr & Hni). assert (is_Some (list_items l !! m)) as [y Hy].
    { apply Hl. assert (s <= n < e) by (apply Hl; eauto). lia. }
    destruct (sorted_keyed _ (list_sorted _ Hok) _ _ Hx) as [En _]. destruct (sorted_keyed _ (list_sorted _ Hok) _ _ Hy) as [Em _].
    assert (list_items l !! AccountNonce tx = Some tx) as Hx' by (by rewrite En).
    assert (forall r, r ∈ removed -> ~ AccountNonce r < AccountNonce tx) as Hlow.
    { intros r Hr' Hlt. apply Hni, Hi. split; [done|]. split; [|split; [done|by exists r]].
      destruct (unaffordable c g tx) eqn:Eu; [|done]. destruct Hnr. by apply Hr. }
    exists y. apply Hrest. split; [done|]. split.
    + intros Hyr. destruct (decide (m = n)) as [->|]; [congruence|]. apply (Hlow y Hyr). lia.
    + intros (_ & _ & _ & r & Hr' & Hlt)%Hi. apply (Hlow r Hr'). lia.
Qed.

Lemma pending_drop p a l R l' :
  pool_inv [] [] p -> pending p !! a = Some l -> takes l R l' ->
  pool_inv [] [] (forget_all range R (set_pending_list a l' p)).
Proof. intros Hp Hl Ht. by apply forget_all_inv, (pending_takes Sender _ _ _ _ l). Qed.

(** A list of executable transactions in the course of a demotion. *)
Record midway (addr : Z) p q (l : txList) : Prop := {
  md_inv : pool_inv [] [] q;
  md_config : config q = config p;
  md_state : currentState q = currentState p;
  md_gas : currentMaxGas q = currentMaxGas p;
  md_locals : locals q = locals p;
  md_all : all q ⊆ all p;
  md_nonces : pendingNonces q = pendingNonces p;
  md_pending : pending q = <[addr := l]> (pending p) }.

Lemma midway_drop addr p q l R drops l' m :
  midway addr p q l -> takes l (drops ++ R) l' ->
  enqueue_all range Sender R (forget_all range drops (set_pending_list addr l' q)) = set_queue m (forget_all range drops (set_pending_list addr l' q)) ->
  pool_inv [] [] (set_queue m (forget_all range drops (set_pending_list addr l' q))) ->
  midway addr p (set_queue m (forget_all range drops (set_pending_list addr l' q))) l'.
Proof.
  intros Hm Ht _ Hq. destruct (forget_all_frame range drops (set_pending_list addr l' q)) as ([] & E1 & E2 & E3). destruct Hm. cbn in *.
  split; cbn; try congruence; [etransitivity; [|done]; done|]. rewrite E1, md_pending0. apply insert_insert_eq.
Qed.

(** [drops] are forgotten and [R] are queued again. *)
Lemma midway_step addr p q l R drops l' :
  midway addr p q l -> takes l (drops ++ R) l' ->
  midway addr p (enqueue_all range Sender R (forget_all range drops (set_pending_list addr l' q))) l'.
Proof.
  intros Hm Ht. assert (pending q !! addr = Some l) as Hl by (rewrite (md_pending _ _ _ _ Hm); apply lookup_insert_eq).
  pose proof (pending_takes Sender _ _ _ _ _ _ _ (md_inv _ _ _ _ Hm) Hl Ht) as Hq. rewrite <-app_assoc in Hq.
  apply (forget_all_inv range range_all) in Hq. destruct (enqueue_all_inv range Sender R _ _ _ Hq) as (m & E & Hm').
  rewrite E. by eapply midway_drop.
Qed.

(** What [list_Forward] leaves. *)
Lemma forward_items t l old l' : takes l old l' -> (forall n, is_Some (list_items l' !! n) <-> is_Some (list_items l !! n) /\ t <= n) ->
  forall n, list_items l' !! n = if n <? t then None else list_items l !! n.
Proof.
  intros T D n. destruct (Z.ltb_spec n t) as [Hn|Hn].
  - apply eq_None_not_Some. intros [_ ?]%D. lia.
  - apply option_eq. intros tx. rewrite (takes_rest _ _ _ T). split; [by intros [? _]|]. intros Hx.
    destruct (proj2 (D n)) as [y Hy]; [by split; [eauto|]|]. apply (takes_rest _ _ _ T) in Hy as [Hy Hin]. assert (y = tx) as -> by congruence. done.
Qed.

Lemma demote_account_inv addr p :
  pool_inv [] [] p -> exists q, demote_account range Sender addr p = Some q /\ demotes addr p q.
Proof.
  intros Hp. unfold demote_account. destruct (pending p !! addr) as [l0|] eqn:Hl.
  2: { exists p. split; [done|]. split; try done; [by intros l; rewrite Hl| |].
       - intros _. exists (nonce_at p addr). split; [done|]. intros n. unfold slot. rewrite Hl. split; [by intros [? ?]|lia].
       - intros [[x Hx] _]. unfold slot in Hx. by rewrite Hl in Hx. }
  destruct (inv_pending _ _ _ _ Hp _ _ Hl) as [Hok0 Hs0].
  assert (midway addr p p l0) as M0 by (split; try done; by rewrite insert_id).
  destruct (list_Forward _ l0) as [old l1] eqn:E1. apply (list_Forward_takes _ (range_all Transaction)) in E1 as [T1 D1]; [|done].
  assert (takes l0 (old ++ []) l1) as T1' by (by rewrite app_nil_r). pose proof (midway_step _ _ _ _ _ _ _ M0 T1') as M1.
  change (enqueue_all range Sender [] ?x) with x in M1. set (p1 := forget_all range old _) in *. cbn zeta.
  assert (strict l1 = true) as Hs1 by (by rewrite (takes_strict _ _ _ T1)).
  destruct (list_Filter _ _ _ l1) as [[drops invalids] l2] eqn:E2.
  apply (list_Filter_takes _ (range_all Transaction)) in E2 as [T2 F2]; [|apply T1].
  pose proof (midway_step _ _ _ _ _ _ _ M1 T2) as M2. set (p2 := enqueue_all range Sender invalids _) in *.
  set (N := state_nonce (currentState p) addr) in *.
  assert (exists gapped l3, (if (0 <? list_Len l2) && bool_decide (Get (txs l2) N = None) then list_Cap 0 l2 else Some ([], l2)) = Some (gapped, l3) /\
    takes l2 gapped l3 /\ (list_Empty l3 = true \/ l3 = l2 /\ is_Some (list_items l2 !! N)) /\ (is_Some (list_items l2 !! N) -> l3 = l2)) as (gapped & l3 & -> & T3 & Hend & Hkeep).
  { destruct (0 <? list_Len l2) eqn:Epos; cbn [andb].
    - case_bool_decide as Eg.
      + destruct (list_Cap_takes _ (range_all Transaction) 0 l2 (takes_ok _ _ _ T2)) as (d & l3 & k & -> & T3 & Hlen & _); [done|].
        exists d, l3. split; [done|]. split; [done|]. split; [left; unfold list_Empty; rewrite Hlen; pose proof (list_Len_nonneg l2); lia|].
        intros [x Hx]. change (list_items l2 !! N = None) in Eg. congruence.
      + exists [], l2. split; [done|]. split; [apply takes_nil, T2|]. split; [|done]. right. split; [done|]. by apply not_eq_None_Some.
    - exists [], l2. split; [done|]. split; [apply takes_nil, T2|]. split; [|done]. left. unfold list_Empty. pose proof (list_Len_nonneg l2). lia. }
  cbn [mbind option_bind]. assert (takes l2 ([] ++ gapped) l3) as T3' by done.
  pose proof (midway_step _ _ _ _ _ _ _ M2 T3') as M3. change (forget_all range [] ?x) with x in M3.
  set (p3 := enqueue_all range Sender gapped _) in *. eexists. split; [reflexivity|].
  assert (pending p3 !! addr = Some l3) as Hl3 by (rewrite (md_pending _ _ _ _ M3); apply lookup_insert_eq).
  assert (gapless (pending p) addr -> exists e, N <= e /\ forall n, is_Some (list_items l3 !! n) <-> N <= n < e) as Hgap.
  { intros (s & e & Hse). destruct Hend as [He|[-> Hstart]].
    { exists N. split; [lia|]. apply list_Empty_items in He. intros n. rewrite He, lookup_empty. split; [by intros [? ?]|lia]. }
    destruct (filter_prefix _ _ _ _ _ _ (Z.max s N) e (takes_ok _ _ _ T1) Hs1 F2) as (e' & He' & Hdom).
    - intros n. rewrite D1, <-(slot_lookup _ _ _ _ Hl), Hse. lia.
    - assert (Z.max s N <= N < e') as Hmax by (by apply Hdom). exists e'. split; [lia|]. intros n. rewrite Hdom. lia. }
  assert (payable p addr -> forall n, list_items l3 !! n = if n <? N then None else list_items l0 !! n) as Hfwd.
  { intros [Hfirst Hpay]. rewrite (slot_lookup _ _ _ _ Hl) in Hfirst.
    assert (forall n, list_items l1 !! n = if n <? N then None else list_items l0 !! n) as H1 by (intros n; by apply forward_items with old).
    assert (list_items l2 = list_items l1) as E12.
    { eapply filter_payable; [apply T1|exact F2|]. intros n tx Hx. rewrite H1 in Hx. rewrite (md_state _ _ _ _ M1), (md_gas _ _ _ _ M1).
      destruct (Z.ltb_spec n N); [done|]. apply (Hpay n); [by rewrite (slot_lookup _ _ _ _ Hl)|done]. }
    rewrite Hkeep; [by rewrite E12|]. rewrite E12, H1, Z.ltb_irrefl. done. }
  assert (forall b, b <> addr -> pending p3 !! b = pending p !! b) as Hother by (intros b Hb; rewrite (md_pending _ _ _ _ M3); by apply lookup_insert_ne).
  destruct (list_Empty l3) eqn:Eemp.
  - split; try apply M3; cbn; [by eapply delete_pending_inv; [apply M3| |]| | | |].
    + intros b Hb. by rewrite lookup_delete_ne, Hother.
    + intros l. by rewrite lookup_delete_eq.
    + intros Hg. destruct (Hgap Hg) as (e & H1 & H2). exists e. unfold nonce_at. cbn. rewrite (md_state _ _ _ _ M3). fold N. split; [done|].
      intros n. rewrite slot_delete, decide_True, <-H2 by done. apply list_Empty_items in Eemp. by rewrite Eemp.
    + intros Hpay n. cbn. rewrite slot_delete, decide_True, (slot_lookup _ _ _ _ Hl), <-Hfwd by done. apply list_Empty_items in Eemp. by rewrite Eemp.
  - split; try apply M3; [done|by rewrite Hl3; intros l [= <-]| |intros Hpay n; rewrite (slot_lookup _ _ _ _ Hl3), (slot_lookup _ _ _ _ Hl); by apply Hfwd].
    intros Hg. destruct (Hgap Hg) as (e & H1 & H2). exists e. unfold nonce_at. rewrite (md_state _ _ _ _ M3). fold N. split; [done|].
    intros n. by rewrite (slot_lookup _ _ _ _ Hl3), <-H2.
Qed.

(** The lists that are left are not empty. *)
Definition tidy p (a : Z) : Prop := forall l, pending p !! a = Some l -> list_Empty l = false.

Record demoted (accounts : list Z) p q : Prop := {
  dd_inv : pool_inv [] [] q;
  dd_config : config q = config p;
  dd_state : currentState q = currentState p;
  dd_gas : currentMaxGas q = currentMaxGas p;
  dd_locals : locals q = locals p;
  dd_all : all q ⊆ all p;
  dd_nonces : pendingNonces q = pendingNonces p;
  dd_other b : b ∉ accounts -> pending q !! b = pending p !! b;
  dd_tidy a : a ∈ accounts -> tidy q a;
  dd_starts a : a ∈ accounts -> gapless (pending p) a -> starts q a;
  dd_payable a : a ∈ accounts -> payable p a -> forwarded p q a }.

Lemma slot_other m m' a n : m' !! a = m !! a -> slot m' a n = slot m a n.
Proof. unfold slot. by intros ->. Qed.

Lemma demote_accounts_inv accounts : forall p,
  pool_inv [] [] p -> NoDup accounts -> exists q, demote_accounts range Sender accounts p = Some q /\ demoted accounts p q.
Proof.
  induction accounts as [|a accounts IH]; intros p Hp Hnd; cbn [demote_accounts].
  { exists p. split; [done|]. split; try done; intros a Ha; by apply list.not_elem_of_nil in Ha. }
  apply list.NoDup_cons in Hnd as [Hna Hnd]. destruct (demote_account_inv a p Hp) as (p1 & -> & D1). cbn [mbind option_bind].
  destruct (IH p1 (dm_inv _ _ _ D1) Hnd) as (q & -> & D2). exists q. split; [done|].
  assert (pending q !! a = pending p1 !! a) as Ea by (by apply (dd_other _ _ _ D2)).
  split; try apply D2; try (rewrite ?(dd_config _ _ _ D2), ?(dd_state _ _ _ D2), ?(dd_gas _ _ _ D2), ?(dd_locals _ _ _ D2), ?(dd_nonces _ _ _ D2); apply D1).
  - etransitivity; [apply D2|apply D1].
  - intros b Hb. rewrite (dd_other _ _ _ D2) by set_solver. apply (dm_other _ _ _ D1). set_solver.
  - intros b [->|Hb]%elem_of_cons; [|by apply (dd_tidy _ _ _ D2)]. intros l. rewrite Ea. apply (dm_some _ _ _ D1).
  - intros b [->|Hb]%elem_of_cons Hg.
    + destruct (dm_starts _ _ _ D1 Hg) as (e & H1 & H2). exists e. unfold nonce_at in *. rewrite (dd_state _ _ _ D2). split; [done|].
      intros n. by rewrite (slot_other _ _ _ n Ea).
    + apply (dd_starts _ _ _ D2 b Hb). destruct Hg as (s & e & Hg). exists s, e. intros n.
      rewrite (slot_other _ _ _ n (dm_other _ _ _ D1 b ltac:(by intros ->))). apply Hg.
  - intros b [->|Hb]%elem_of_cons Hpay n.
    + rewrite (slot_other _ _ _ n Ea). by apply (dm_payable _ _ _ D1).
    + assert (forall k, slot (pending p1) b k = slot (pending p) b k) as Es by (intros k; apply slot_other, (dm_other _ _ _ D1); by intros ->).
      assert (nonce_at p1 b = nonce_at p b) as En by (unfold nonce_at; by rewrite (dm_state _ _ _ D1)).
      rewrite (dd_payable _ _ _ D2 b Hb), En, Es; [done|]. destruct Hpay as [H1 H2]. split; [by rewrite En, Es|].
      intros k tx. rewrite Es, En, (dm_state _ _ _ D1), (dm_gas _ _ _ D1). apply H2.
Qed.

Lemma range_keys {A} (m : gmap Z A) : NoDup (map fst (range A m)) /\ forall a, a ∈ map fst (range A m) <-> is_Some (m !! a).
Proof.
  split; [rewrite range_all; apply NoDup_fst_map_to_list|]. intros a. rewrite range_all. split.
  - intros ([b x] & -> & Hx)%list_elem_of_fmap. apply elem_of_map_to_list in Hx. eauto.
  - intros [x Hx]. apply (list_elem_of_fmap_2' fst _ (a, x)); [by apply elem_of_map_to_list|done].
Qed.

Lemma demoteUnexecutables_inv p :
  pool_inv [] [] p -> exists q, demoteUnexecutables range Sender p = Some q /\ demoted (map fst (range txList (pending p))) p q /\
    (forall a, tidy q a) /\ ((forall a, gapless (pending p) a) -> forall a, starts q a).
Proof.
  intros Hp. destruct (range_keys (pending p)) as [Hnd Hkeys].
  destruct (demote_accounts_inv _ p Hp Hnd) as (q & E & D). exists q. split; [done|]. split; [done|].
  assert (forall a, a ∉ map fst (range txList (pending p)) -> pending q !! a = None) as Hout.
  { intros a Ha. rewrite (dd_other _ _ _ D a Ha). apply eq_None_not_Some. by rewrite <-Hkeys. }
  split.
  - intros a. destruct (decide (a ∈ map fst (range txList (pending p)))); [by apply (dd_tidy _ _ _ D)|]. intros l. by rewrite Hout.
  - intros Hg a. destruct (decide (a ∈ map fst (range txList (pending p)))); [by apply (dd_starts _ _ _ D)|].
    exists (nonce_at q a). split; [done|]. intros k. unfold slot. rewrite Hout by done. split; [by intros [? ?]|lia].
Qed.

(** * The nonces of the managed state *)
Lemma listing_last_max m c tx y : listing m c -> list.last c = Some tx -> y ∈ c -> AccountNonce y <= AccountNonce tx.
Proof.
  intros [Hs _] Hl Hy. apply last_Some in Hl as [k ->]. apply elem_of_app in Hy as [Hy|Hy%list_elem_of_singleton]; [|subst; lia].
  apply StronglySorted_app in Hs as (Hlt & _). specialize (Hlt y tx Hy ltac:(by left)). unfold nonce_lt in Hlt. lia.
Qed.

Record renonced (accounts : list Z) p q : Prop := {
  rn_inv : pool_inv [] [] q;
  rn_config : config q = config p;
  rn_state : currentState q = currentState p;
  rn_locals : locals q = locals p;
  rn_all : all q = all p;
  rn_slot a n : slot (pending q) a n = slot (pending p) a n;
  rn_other b : b ∉ accounts -> pendingNonces q !! b = pendingNonces p !! b;
  rn_nonce a : bounded p -> starts p a -> a ∈ accounts -> runs_from q a;
  rn_after a n : bounded p -> a ∈ accounts -> is_Some (slot (pending q) a n) -> n < pending_nonce q a }.

Lemma reset_nonces_inv accounts : forall p,
  pool_inv [] [] p -> NoDup accounts -> (forall a, a ∈ accounts -> is_Some (pending p !! a)) -> (forall a, tidy p a) ->
  exists q, reset_nonces range accounts p = Some q /\ renonced accounts p q.
Proof.
  induction accounts as [|a accounts IH]; intros p Hp Hnd Hdom Htidy; cbn [reset_nonces].
  { exists p. split; [done|]. split; try done; [intros a _ _ Ha|intros a n _ Ha]; by apply list.not_elem_of_nil in Ha. }
  apply list.NoDup_cons in Hnd as [Hna Hnd]. destruct (Hdom a ltac:(by left)) as [l Hl]. rewrite Hl. cbn [mbind option_bind].
  destruct (inv_pending _ _ _ _ Hp _ _ Hl) as [Hok Hs]. destruct (list_Flatten _ l) as [c l'] eqn:E.
  apply (list_Flatten_ok _ (range_all Transaction)) in E as (Hok' & Hs' & Hi & Hlist); [|done].
  destruct (list.last c) as [tx|] eqn:El.
  2: { apply last_None in El as ->. exfalso. pose proof (Htidy a l Hl) as He.
       pose proof (listing_length _ _ (sorted_keyed _ (list_sorted _ Hok)) Hlist) as Hz. unfold list_Empty, list_Len, Len in He.
       apply Z.eqb_neq in He. cbn in Hz. change (list_items l) with (items (txs l)) in Hz. lia. }
  cbn [mbind option_bind]. pose proof (pending_same Sender _ _ _ _ _ _ Hp Hl Hok' Hs' Hi) as Hq.
  set (p1 := set_nonce _ _ _).
  assert (forall b n, slot (pending p1) b n = slot (pending p) b n) as Hslot.
  { intros b n. unfold p1. cbn. rewrite slot_insert. case_decide as Eb; [subst b; by rewrite Hi, (slot_lookup _ _ _ _ Hl)|done]. }
  destruct (IH p1) as (q & Eq & R); [by eapply pool_inv_frame; [..|exact Hq]|done| | |].
  { intros b Hb. unfold p1. cbn. rewrite lookup_insert_ne by (intros ->; done). apply Hdom. by right. }
  { intros b k. unfold p1. cbn. intros [[<- <-]|[_ Hk]]%lookup_insert_Some; [|by apply (Htidy b)].
    pose proof (Htidy a l Hl) as He. destruct (list_Empty l') eqn:E; [|done]. apply list_Empty_items in E. rewrite Hi in E.
    apply list_Empty_items in E. congruence. }
  exists q. split; [done|]. destruct R.
  assert (tx ∈ c) as Htx by (apply last_Some in El as [k ->]; apply elem_of_app; right; by left).
  assert (slot (pending p) a (AccountNonce tx) = Some tx) as Hsome by (rewrite (slot_lookup _ _ _ _ Hl); by apply Hlist in Htx).
  assert (bounded p -> pending_nonce q a = AccountNonce tx + 1) as Hnext.
  { intros Hbound. unfold pending_nonce. rewrite rn_other0 by done. unfold p1. cbn. rewrite lookup_insert_eq. cbn.
    destruct (con_place _ _ _ _ _ (inv_books _ _ _ _ Hp) _ _ _ (or_introl Hsome)) as (Ea & Ey & Hu).
    assert (all p !! TxHash tx = Some tx) as Hall by (apply (con_all _ _ _ _ _ (inv_books _ _ _ _ Hp)); left; unfold at_place; by rewrite Ea).
    specialize (Hbound _ _ Hall). unfold u64, MaxUint64, is_u64 in *. apply Z.mod_small. lia. }
  assert (forall n, is_Some (slot (pending p) a n) -> n <= AccountNonce tx) as Hlast.
  { intros n [y Hy]. rewrite (slot_lookup _ _ _ _ Hl) in Hy. destruct (sorted_keyed _ (list_sorted _ Hok) _ _ Hy) as [Ey _].
    assert (y ∈ c) as Hyc by (apply Hlist; by rewrite Ey). pose proof (listing_last_max _ _ _ _ Hlist El Hyc). lia. }
  split; try done.
  - intros b n. by rewrite rn_slot0, Hslot.
  - intros b Hb. rewrite rn_other0 by set_solver. unfold p1. cbn. apply lookup_insert_ne. set_solver.
  - intros b Hbound Hst Hb. destruct (decide (b = a)) as [->|Hne].
    + destruct Hst as (e & H1 & H2). pose proof (proj1 (H2 _) (mk_is_Some _ _ Hsome)) as Hrange.
      assert (e - 1 <= AccountNonce tx) as He by (apply Hlast, H2; lia).
      assert (pending_nonce q a = e) as Ep by (rewrite Hnext by done; lia).
      unfold runs_from, nonce_at in *. rewrite rn_state0, Ep. change (currentState p1) with (currentState p). split; [lia|].
      intros n. by rewrite rn_slot0, Hslot.
    + apply rn_nonce0; [done| |set_solver]. destruct Hst as (e & H1 & H2). exists e. split; [done|]. intros n. by rewrite Hslot.
  - intros b n Hbound Hb Hn. destruct (decide (b = a)) as [->|Hne]; [|apply rn_after0; [done|set_solver|done]].
    rewrite rn_slot0, Hslot in Hn. rewrite Hnext by done. apply Hlast in Hn. lia.
Qed.
End Reset.
