(* ===== verification/TxPoolCorrect.v ===== *)
(** The transaction pool of core/tx_pool.go as a whole: what holds of a pool
    after any sequence of its operations. *)
From stdpp Require Import gmap sorting.
From S2P Require Import Prelude GoMath Params StateTransition GoHeap TxSorted TxSortedCorrect TxList TxListCorrect TxPoolPlaces TxPool TxPoolInv TxPoolOps TxPoolLimits TxPoolReset.

Section Correct.
Context (range : forall A, gmap Z A -> list (Z * A)) (range_all : forall A (m : gmap Z A), range A m ≡ₚ map_to_list m).
Context (Sender : Transaction -> option Z) (Size : Transaction -> Z).
#[local] Abbreviation sender := (sender Sender).
#[local] Abbreviation pool_inv := (pool_inv Sender).
Implicit Types (L X R : list Transaction) (p q : TxPool) (tx : Transaction).

(** What an operation that is given [txs] leaves. *)
Record evolves (txs : list Transaction) p q : Prop := {
  ev_inv : pool_inv [] [] q;
  ev_config : config q = config p;
  ev_all h y : all q !! h = Some y -> y ∈ txs \/ all p !! h = Some y;
  ev_exec : bounded p -> Forall (fun tx => AccountNonce tx < MaxUint64) txs -> executable p -> executable q }.

Lemma evolves_trans txs txs' p q r : evolves txs p q -> evolves txs' q r -> evolves (txs ++ txs') p r.
Proof.
  intros [] []. split; [done|congruence| |].
  - intros h y Hy. rewrite elem_of_app. destruct (ev_all1 _ _ Hy) as [|Hq]; [tauto|]. destruct (ev_all0 _ _ Hq); tauto.
  - intros Hb Hall He. apply Forall_app in Hall as [H1 H2]. apply ev_exec1; [|done|by apply ev_exec0].
    intros h y Hy. destruct (ev_all0 _ _ Hy) as [Hin|Hp]; [|by apply (Hb h)]. by apply (proj1 (list.Forall_forall _ _) H1).
Qed.

Lemma evolves_shrinks p q : pool_inv [] [] q -> shrinks p q -> evolves [] p q.
Proof.
  intros Hq []. split; [done|done| |by intros Hb _; apply sh_exec].
  intros h y Hy. right. by apply (lookup_weaken _ _ _ _ Hy).
Qed.

Lemma evolves_bounded txs p q :
  evolves txs p q -> Forall (fun tx => AccountNonce tx < MaxUint64) txs -> bounded p -> bounded q.
Proof.
  intros He Hall Hb h y Hy. destruct (ev_all _ _ _ He _ _ Hy) as [Hin|Hp]; [|by apply (Hb h)].
  by apply (proj1 (list.Forall_forall _ _) Hall).
Qed.

Lemma limits_evolves txs p q : evolves txs p q -> limits_ok p -> limits_ok q.
Proof. intros He []. by split; rewrite (ev_config _ _ _ He). Qed.

Lemma promote_evolves now accounts p :
  pool_inv [] [] p -> limits_ok p ->
  exists q, promoteExecutables range Sender now accounts p = Some q /\ evolves [] p q /\ within_limits range q.
Proof.
  intros Hp Hl. destruct (promoteExecutables_inv range range_all Sender now accounts p Hp Hl) as (q & E & Hq & Hs & Hw).
  exists q. split; [done|]. split; [by apply evolves_shrinks|done].
Qed.

Lemma add_evolves tx local p :
  pool_inv [] [] p -> is_u64 (AccountNonce tx) -> evolves [tx] p (add range Sender Size tx local p).2.
Proof.
  intros Hp Hu. destruct (add_inv range range_all Sender Size tx local p Hp Hu) as [Hq []]. split; [done|done| |].
  - intros h y Hy. rewrite list_elem_of_singleton. by apply gr_all.
  - intros Hb _. by apply gr_exec.
Qed.

Lemma addTx_evolves now tx local p :
  pool_inv [] [] p -> limits_ok p -> is_u64 (AccountNonce tx) ->
  exists e q, addTx range Sender Size now tx local p = Some (e, q) /\ evolves [tx] p q.
Proof.
  intros Hp Hl Hu. pose proof (add_evolves tx local p Hp Hu) as He. unfold addTx.
  destruct (add _ _ _ _ _ _) as [[e|[]] q]; cbn [snd] in He; [by exists (Some e), q|by exists None, q|].
  destruct (promote_evolves now (Some [sender tx]) q) as (r & -> & Hr & _); [apply He|by eapply limits_evolves|].
  exists None, r. split; [done|]. change [tx] with ([tx] ++ []). by eapply evolves_trans.
Qed.

Lemma add_each_evolves txs local : forall p dirty errs,
  pool_inv [] [] p -> Forall (fun tx => is_u64 (AccountNonce tx)) txs ->
  evolves txs p (add_each range Sender Size txs local p dirty errs).2.
Proof.
  induction txs as [|tx txs IH]; intros p dirty errs Hp Hall; cbn [add_each].
  { by apply evolves_shrinks. }
  apply Forall_cons_iff in Hall as [Hu Hall]. pose proof (add_evolves tx local p Hp Hu) as He.
  change (tx :: txs) with ([tx] ++ txs).
  destruct (add _ _ _ _ _ _) as [[e|[]] q]; cbn [snd] in He; (eapply evolves_trans; [exact He|]); apply IH; try done; apply He.
Qed.

Lemma addTxsLocked_evolves now txs local p :
  pool_inv [] [] p -> limits_ok p -> Forall (fun tx => is_u64 (AccountNonce tx)) txs ->
  exists errs q, addTxsLocked range Sender Size now txs local p = Some (errs, q) /\ evolves txs p q.
Proof.
  intros Hp Hl Hall. pose proof (add_each_evolves txs local p ∅ [] Hp Hall) as He. unfold addTxsLocked.
  destruct (add_each _ _ _ _ _ _ _ _) as [[errs dirty] q]. cbn [snd] in He. case_if; [|by exists errs, q].
  destruct (promote_evolves now (Some (map fst (range unit dirty))) q) as (r & -> & Hr & _); [apply He|by eapply limits_evolves|].
  exists errs, r. split; [done|]. rewrite <-(app_nil_r txs). by eapply evolves_trans.
Qed.

(** A heartbeat does not come back when a transaction goes. *)
Lemma enqueue_all_beats l : forall p, beats (enqueue_all range Sender l p) = beats p.
Proof.
  induction l as [|tx l IH]; intros p; [done|]. unfold enqueue_all in *. cbn [foldl]. rewrite IH. unfold enqueueTx.
  destruct (list_Add _ _ _) as [[[] [old|]] k]; cbn; repeat case_match; done.
Qed.

Lemma removeTx_beats a h b p : beats p !! a = None -> beats (removeTx range Sender h b p) !! a = None.
Proof.
  intros Ha. unfold removeTx, remove_queued, lower_nonce. destruct (all p !! h) as [tx|]; [|done].
  assert (forall x, beats (drop_hash range b h x) = beats x) as Hd by (intros x; unfold drop_hash; by case_match).
  destruct (pending _ !! _) as [l|]; [destruct (list_Remove _ _ l) as [[[] inv] l']; [|]|].
  { case_match; cbn [beats set_nonce set_nonces]; rewrite enqueue_all_beats; case_match; cbn; rewrite ?lookup_delete_None, ?Hd; auto. }
  all: destruct (queue _ !! _) as [k|]; [destruct (list_Remove _ _ k) as [[? ?] k']; case_match; cbn|]; by rewrite Hd.
Qed.

Lemma remove_all_beats a b l : forall p, beats p !! a = None -> beats (remove_all range Sender l b p) !! a = None.
Proof. induction l as [|tx l IH]; intros p Ha; [done|]. apply IH. by apply removeTx_beats. Qed.

(** The eviction: the accounts that are silent for too long lose what they have
    queued. *)
Definition silent (now : Z) p (a : Z) : Prop :=
  contains p a = false /\ beats p !! a = None /\ Lifetime (config p) < time_Since now 0.

Lemma evict_evolves now accounts : forall p,
  pool_inv [] [] p -> NoDup accounts -> (forall a, a ∈ accounts -> is_Some (queue p !! a)) ->
  exists q, evict_accounts range Sender now accounts p = Some q /\ evolves [] p q /\
    (forall b, b ∉ accounts -> queue q !! b = queue p !! b) /\
    (forall a, a ∈ accounts -> silent now p a -> len_of (queue q) a = 0).
Proof.
  induction accounts as [|a accounts IH]; intros p Hp Hnd Hdom; cbn [evict_accounts].
  { exists p. split_and!; [done|by apply evolves_shrinks|done|]. intros a Ha. by apply list.not_elem_of_nil in Ha. }
  apply list.NoDup_cons in Hnd as [Hna Hnd]. case_if.
  - destruct (Hdom a ltac:(by left)) as [l Hl]. rewrite Hl. cbn [mbind option_bind]. destruct (list_Flatten _ l) as [c l'] eqn:Ef.
    destruct (flatten_remove range range_all Sender p a l c l' c Hp Hl Ef (or_introl eq_refl)) as [Hu Hlen].
    destruct (IH _ (uq_inv _ _ _ _ _ _ Hu) Hnd) as (q & -> & Hq & Hother & Hs).
    { intros b Hb. rewrite (uq_other _ _ _ _ _ _ Hu) by (intros ->; done). apply Hdom. by right. }
    exists q. split; [done|]. split; [change (@nil Transaction) with (@nil Transaction ++ []); eapply evolves_trans; [|exact Hq]; apply evolves_shrinks; apply Hu|].
    split; [intros b Hb; rewrite Hother by set_solver; apply (uq_other _ _ _ _ _ _ Hu); set_solver|].
    intros b [->|Hb]%elem_of_cons (S1 & S2 & S3).
    + unfold len_of at 1. rewrite Hother by done. fold (len_of (queue (remove_all range Sender c true (set_queue_list a l' p))) a).
      rewrite (uq_len _ _ _ _ _ _ Hu). unfold len_of. rewrite Hl. lia.
    + apply Hs; [done|]. split_and!; [by rewrite (contains_shrinks _ _ _ (uq_shrinks _ _ _ _ _ _ Hu))|by apply remove_all_beats|].
      by rewrite (sh_config _ _ (uq_shrinks _ _ _ _ _ _ Hu)).
  - destruct (IH p Hp Hnd) as (q & E' & Hq & Hother & Hs); [intros b Hb; apply Hdom; by right|].
    exists q. split_and!; [done|done|intros b Hb; apply Hother; set_solver|].
    intros b [->|Hb]%elem_of_cons Hsil; [|by apply Hs]. destruct Hsil as (S1 & S2 & S3). exfalso. rewrite S1, S2 in *. cbn in *. lia.
Qed.

(** * Reset *)
Lemma set_head_inv st g p : pool_inv [] [] p -> pool_inv [] [] (set_head st g p).
Proof. by apply pool_inv_frame. Qed.

Lemma runs_gapless p a : runs_from p a -> gapless (pending p) a.
Proof. intros [_ H]. by exists (nonce_at p a), (pending_nonce p a). Qed.

(** Every account has its nonce back when the gaps are closed. *)
Lemma renonced_executable p q :
  renonced Sender (map fst (range txList (pending p))) p q -> pendingNonces p = ∅ -> bounded p ->
  (forall a, starts p a) -> executable q.
Proof.
  intros R Hn Hb Hs a. destruct (range_keys range range_all (pending p)) as [_ Hkeys].
  destruct (decide (a ∈ map fst (range txList (pending p)))) as [Ha|Ha]; [by apply (rn_nonce _ _ _ _ R)|].
  assert (pending_nonce q a = nonce_at q a) as En.
  { unfold pending_nonce, nonce_at. by rewrite (rn_other _ _ _ _ R a Ha), Hn, lookup_empty. }
  unfold runs_from. rewrite En. split; [done|]. intros n. rewrite (rn_slot _ _ _ _ R). split; [|lia].
  rewrite Hkeys in Ha. apply eq_None_not_Some in Ha. unfold slot. rewrite Ha. by intros [? ?].
Qed.

Lemma reset_to_inv now st g reinject p :
  pool_inv [] [] p -> limits_ok p -> Forall (fun tx => is_u64 (AccountNonce tx)) reinject ->
  exists q, reset_to range Sender Size now st g reinject p = Some q /\ pool_inv [] [] q /\ config q = config p /\
    (forall h y, all q !! h = Some y -> y ∈ reinject \/ all p !! h = Some y) /\
    within_limits range q /\ (reinject = [] -> bounded p -> executable p -> executable q).
Proof.
  intros Hp Hl Hall. unfold reset_to. pose proof (set_head_inv st g p Hp) as H0.
  destruct (addTxsLocked_evolves now reinject false (set_head st g p) H0) as (errs & p1 & E1 & V1); [by destruct Hl|done|].
  rewrite E1. cbn [mbind option_bind].
  destruct (demoteUnexecutables_inv range range_all Sender p1 (ev_inv _ _ _ V1)) as (p2 & -> & D & Ht & Hs). cbn [mbind option_bind].
  destruct (range_keys range range_all (pending p2)) as [Hnd Hkeys].
  destruct (reset_nonces_inv range range_all Sender _ p2 (dd_inv _ _ _ _ D) Hnd) as (p3 & -> & R); [intros a; apply Hkeys|done|].
  cbn [mbind option_bind]. assert (config p3 = config p) as Ec.
  { rewrite (rn_config _ _ _ _ R), (dd_config _ _ _ _ D). apply V1. }
  assert (all p3 ⊆ all p1) as Ha by (rewrite (rn_all _ _ _ _ R); apply D).
  destruct (promote_evolves now None p3 (rn_inv _ _ _ _ R)) as (q & Eq & V & Hw); [destruct Hl; by split; rewrite Ec|].
  exists q. split; [done|]. split; [apply V|]. split; [by rewrite (ev_config _ _ _ V)|]. split; [|split; [done|]].
  - intros h y Hy. destruct (ev_all _ _ _ V _ _ Hy) as [Hn|Hy3]; [by apply list.not_elem_of_nil in Hn|].
    apply (ev_all _ _ _ V1 h y). by apply (lookup_weaken _ _ _ _ Hy3).
  - intros -> Hb He. cbn in E1. injection E1 as _ <-.
    assert (bounded p2) as Hb2. { intros h y Hy. apply (Hb h). apply (lookup_weaken _ _ _ _ Hy). apply D. }
    apply (ev_exec _ _ _ V); [intros h y; rewrite (rn_all _ _ _ _ R); apply Hb2|by constructor|].
    apply (renonced_executable p2); [done|by rewrite (dd_nonces _ _ _ _ D)|done|].
    apply Hs. intros a. apply (runs_gapless p), He.
Qed.

(** * Sequences of operations *)
Inductive PoolOp :=
| OpAddLocal (now : Z) (tx : Transaction)
| OpAddRemote (now : Z) (tx : Transaction)
| OpAddLocals (now : Z) (txs : list Transaction)
| OpAddRemotes (now : Z) (txs : list Transaction)
| OpSetGasPrice (price : Z)
| OpEvict (now : Z)
| OpHomestead
| OpReset (now : Z) (state : ChainState) (gasLimit : Z) (reinject : list Transaction).

Definition op_txs (op : PoolOp) : list Transaction :=
  match op with
  | OpAddLocal _ tx | OpAddRemote _ tx => [tx]
  | OpAddLocals _ txs | OpAddRemotes _ txs | OpReset _ _ _ txs => txs
  | OpSetGasPrice _ | OpEvict _ | OpHomestead => []
  end.

(** No transaction of an abandoned block comes back. *)
Definition no_reorg (op : PoolOp) : bool := match op with OpReset _ _ _ (_ :: _) => false | _ => true end.

Definition pool_step (op : PoolOp) (p : TxPool) : option TxPool :=
  match op with
  | OpAddLocal now tx => snd <$> AddLocal range Sender Size now tx p
  | OpAddRemote now tx => snd <$> AddRemote range Sender Size now tx p
  | OpAddLocals now txs => snd <$> AddLocals range Sender Size now txs p
  | OpAddRemotes now txs => snd <$> AddRemotes range Sender Size now txs p
  | OpSetGasPrice price => Some (SetGasPrice range Sender price p)
  | OpEvict now => evict range Sender now p
  | OpHomestead => Some (set_homestead true p)
  | OpReset now state gasLimit reinject => reset_to range Sender Size now state gasLimit reinject p
  end.

Fixpoint pool_run (ops : list PoolOp) (p : TxPool) : option TxPool :=
  match ops with
  | [] => Some p
  | op :: ops => p ← pool_step op p; pool_run ops p
  end.

(** What an operation leaves: the books, and the executable transactions
    unless the chain was reorganised. *)
Definition moves (op : PoolOp) p q : Prop :=
  pool_inv [] [] q /\ config q = config p /\
  (forall h y, all q !! h = Some y -> y ∈ op_txs op \/ all p !! h = Some y) /\
  (no_reorg op = true -> bounded p -> Forall (fun tx => AccountNonce tx < MaxUint64) (op_txs op) -> executable p -> executable q).

Lemma evolves_moves op p q : evolves (op_txs op) p q -> moves op p q.
Proof. intros []. by split_and!. Qed.

Lemma pool_step_moves op p :
  pool_inv [] [] p -> limits_ok p -> Forall (fun tx => is_u64 (AccountNonce tx)) (op_txs op) ->
  exists q, pool_step op p = Some q /\ moves op p q.
Proof.
  intros Hp Hl Hall. destruct op as [now tx|now tx|now txs|now txs|price|now| |now st g re]; cbn [pool_step op_txs] in *.
  1, 2: apply Forall_cons_iff in Hall as [Hu _]; unfold AddLocal, AddRemote;
    edestruct (addTx_evolves now tx) as (e & q & -> & H); [exact Hp|exact Hl|exact Hu|]; exists q; split; [done|by apply evolves_moves].
  1, 2: unfold AddLocals, AddRemotes;
    edestruct (addTxsLocked_evolves now txs) as (e & q & -> & H); [exact Hp|exact Hl|exact Hall|];
    exists q; split; [done|by apply evolves_moves].
  - eexists. split; [done|]. apply evolves_moves. cbn. apply evolves_shrinks; by apply (SetGasPrice_inv range range_all Sender price p).
  - destruct (range_keys range range_all (queue p)) as [Hnd Hkeys].
    destruct (evict_evolves now _ p Hp Hnd) as (q & E & H & _); [intros a; apply Hkeys|]. exists q. split; [done|by apply evolves_moves].
  - eexists. split; [done|]. apply evolves_moves, evolves_shrinks; [by eapply pool_inv_frame; [..|exact Hp]|by split].
  - destruct (reset_to_inv now st g re p Hp Hl Hall) as (q & E & H1 & H2 & H3 & _ & H4). exists q. split; [done|].
    split_and!; try done. cbn. destruct re; [|done]. intros _ Hb _. by apply H4.
Qed.

Definition op_ok (op : PoolOp) : Prop := Forall (fun tx => is_u64 (AccountNonce tx)) (op_txs op).
Definition op_plain (op : PoolOp) : Prop := no_reorg op = true /\ Forall (fun tx => AccountNonce tx < MaxUint64) (op_txs op).

Lemma pool_run_inv ops : forall p,
  pool_inv [] [] p -> limits_ok p -> Forall op_ok ops ->
  exists q, pool_run ops p = Some q /\ pool_inv [] [] q /\ (limits_ok q /\ config q = config p) /\
    (Forall op_plain ops -> bounded p -> executable p -> bounded q /\ executable q).
Proof.
  induction ops as [|op ops IH]; intros p Hp Hl Hok; cbn [pool_run]; [by exists p|].
  apply Forall_cons_iff in Hok as [Hop Hok]. destruct (pool_step_moves op p Hp Hl Hop) as (p1 & -> & M1 & M2 & M3 & M4).
  cbn [mbind option_bind]. destruct (IH p1 M1) as (q & -> & H1 & H2 & H3); [destruct Hl; by split; rewrite M2|done|].
  exists q. split_and!; try done; [apply H2|by rewrite (proj2 H2)|]. intros Hpl Hb He. apply Forall_cons_iff in Hpl as [[Hn Hlt] Hpl]. apply H3; [done| |by apply M4].
  intros h y Hy. destruct (M3 _ _ Hy) as [Hin|Hp']; [|by apply (Hb h)]. by apply (proj1 (list.Forall_forall _ _) Hlt).
Qed.

(** * A new pool *)
Definition pool_config_ok (c : TxPoolConfig) : Prop :=
  0 <= AccountSlots c /\ 0 <= GlobalSlots c /\ 0 <= AccountQueue c < 2 ^ 63.

Lemma NewTxPool_inv now c addrs st g :
  pool_config_ok c ->
  exists p, NewTxPool range Sender Size now c addrs st g = Some p /\ pool_inv [] [] p /\ limits_ok p /\
    bounded p /\ executable p /\ config p = sanitize c.
Proof.
  intros (H1 & H2 & H3). unfold NewTxPool. set (p0 := mkPool _ _ _ _ _ _ _ _ _ _ _ _ _).
  assert (pool_inv [] [] p0) as Hp.
  { split; try done. split; try done.
    - by intros a n tx [H|H].
    - by left.
    - intros tx. split; [done|]. intros [H|[H|H%list.not_elem_of_nil]]; done.
    - intros tx H%list.not_elem_of_nil. done.
    - constructor. }
  assert (limits_ok p0) as Hl.
  { split; unfold p0, sanitize; cbn [config AccountSlots GlobalSlots AccountQueue]; case_if; try done; try lia.
    rewrite Int64_small; lia. }
  destruct (reset_to_inv now st g [] p0 Hp Hl) as (q & E & Hq & Ec & Ha & _ & He); [constructor|].
  exists q. split; [done|]. split; [done|]. split; [by destruct Hl; split; rewrite Ec|].
  assert (bounded q) as Hb.
  { intros h y Hy. destruct (Ha _ _ Hy) as [H%list.not_elem_of_nil|H]; [done|]. cbn in H. by rewrite lookup_empty in H. }
  split; [done|]. split; [|done]. apply He; [done|intros h y H; cbn in H; by rewrite lookup_empty in H|]. intros a. split; [done|].
  intros n. cbn. split; [by intros [? ?]|]. unfold nonce_at, pending_nonce. cbn. rewrite lookup_empty. cbn. lia.
Qed.

(** The books of a pool: a transaction is known by its hash exactly when it is
    executable or queued at the place of its sender and nonce, never both; the
    status of a hash says which. *)
Record books p : Prop := {
  bk_place a n tx : slot (pending p) a n = Some tx \/ slot (queue p) a n = Some tx -> sender tx = a /\ AccountNonce tx = n;
  bk_once a n : slot (pending p) a n = None \/ slot (queue p) a n = None;
  bk_known h tx : all p !! h = Some tx <->
    TxHash tx = h /\ (at_place sender (slot (pending p)) tx = Some tx \/ at_place sender (slot (queue p)) tx = Some tx);
  bk_priced h tx : all p !! h = Some tx -> tx ∈ priced_items (priced p);
  bk_caps a l n tx : pending p !! a = Some l \/ queue p !! a = Some l -> list_items l !! n = Some tx ->
    Cost tx <= costcap l /\ TxGasLimit tx <= gascap l;
  bk_pending h : Status Sender p h = TxStatusPending <->
    exists tx, TxHash tx = h /\ at_place sender (slot (pending p)) tx = Some tx;
  bk_queued h : Status Sender p h = TxStatusQueued <->
    exists tx, TxHash tx = h /\ at_place sender (slot (queue p)) tx = Some tx }.

Lemma Status_slot p h tx :
  all p !! h = Some tx -> Status Sender p h = if decide (is_Some (at_place sender (slot (pending p)) tx)) then TxStatusPending else TxStatusQueued.
Proof.
  intros E. unfold Status, at_place, slot. rewrite E. fold (sender tx). destruct (pending p !! sender tx) as [l|]; cbn [mbind option_bind].
  - unfold list_items. by case_bool_decide; case_decide.
  - case_decide as Hd; [by destruct Hd|done].
Qed.

Lemma pool_inv_books p : pool_inv [] [] p -> books p.
Proof.
  intros [Hpe Hqu [Hpl Hdi Hal Hke _ _] _ Hpr].
  assert (forall h tx, all p !! h = Some tx <->
    TxHash tx = h /\ (at_place sender (slot (pending p)) tx = Some tx \/ at_place sender (slot (queue p)) tx = Some tx)) as Hk.
  { intros h tx. split.
    - intros H. pose proof (Hke _ _ H) as <-. split; [done|]. apply Hal in H as [|[|H%list.not_elem_of_nil]]; [tauto|tauto|done].
    - intros [<- H]. apply Hal. tauto. }
  split; try done.
  - intros a n tx H. apply Hpl in H. tauto.
  - intros h tx H. pose proof (Hke _ _ H) as <-. apply Hpr in H as [|H%list.not_elem_of_nil]; done.
  - intros a l n tx [H|H] Hl; [apply Hpe in H as [Hok _]|apply Hqu in H as [Hok _]]; by apply (list_caps _ Hok n).
  - intros h. split.
    + intros Es. destruct (all p !! h) as [tx|] eqn:E; [|unfold Status in Es; by rewrite E in Es].
      rewrite (Status_slot _ _ _ E) in Es. exists tx. apply Hk in E as [E [|Hq]]; [done|].
      case_decide as Hd; [|done]. unfold at_place in *. destruct (Hdi (sender tx) (AccountNonce tx)) as [H|H]; rewrite H in *; [by destruct Hd|done].
    + intros (tx & Eh & Hp). rewrite (Status_slot p h tx) by (apply Hk; tauto). rewrite decide_True; [done|eauto].
  - intros h. split.
    + intros Es. destruct (all p !! h) as [tx|] eqn:E; [|unfold Status in Es; by rewrite E in Es].
      rewrite (Status_slot _ _ _ E) in Es. exists tx. apply Hk in E as [E [Hp|]]; [|done]. by rewrite decide_True in Es by eauto.
    + intros (tx & Eh & Hq). rewrite (Status_slot p h tx) by (apply Hk; tauto). rewrite decide_False; [done|].
      unfold at_place in *. intros [y Hy]. destruct (Hdi (sender tx) (AccountNonce tx)); congruence.
Qed.

(** * The properties of the pool *)

(** C17: whatever sequence of transactions, price changes, evictions and new
    heads of the chain, reorganisations included, reaches a new pool, no
    operation panics, and the books stay right: a transaction is known by its
    hash exactly when it is executable or queued under its sender and nonce, no
    nonce is both, every known transaction is in the heap of prices, the caps of
    the lists bound their transactions, and [Status] tells which is which. *)
Theorem pool_books now c addrs st g ops :
  pool_config_ok c -> Forall op_ok ops ->
  exists p q, NewTxPool range Sender Size now c addrs st g = Some p /\ pool_run ops p = Some q /\ books q.
Proof.
  intros Hc Hops. destruct (NewTxPool_inv now c addrs st g Hc) as (p & Ep & Hp & Hl & _).
  destruct (pool_run_inv ops p Hp Hl Hops) as (q & Eq & Hq & _). exists p, q. split_and!; [done|done|by apply pool_inv_books].
Qed.

(** C18: as long as no transaction of an abandoned block comes back, the
    executable transactions of every account are exactly those from the nonce
    of the account in the state up to the nonce the pool hands out, without a
    gap. *)
Theorem pool_executable now c addrs st g ops :
  pool_config_ok c -> Forall op_ok ops -> Forall op_plain ops ->
  exists p q, NewTxPool range Sender Size now c addrs st g = Some p /\ pool_run ops p = Some q /\
    forall a, state_nonce (currentState q) a <= pending_nonce q a /\
      forall n, is_Some (slot (pending q) a n) <-> state_nonce (currentState q) a <= n < pending_nonce q a.
Proof.
  intros Hc Hops Hpl. destruct (NewTxPool_inv now c addrs st g Hc) as (p & Ep & Hp & Hl & Hb & He & _).
  destruct (pool_run_inv ops p Hp Hl Hops) as (q & Eq & _ & _ & H). exists p, q. split_and!; [done|done|by apply H].
Qed.

(** C24: after a reset, from whatever state of the pool, either the executable
    transactions are within the global limit or no account that is not local
    has more than its slots, and either the queue is within its limit or only
    local accounts have anything queued. *)
Theorem pool_limits now c addrs st g ops now' st' g' reinject :
  pool_config_ok c -> Forall op_ok ops -> op_ok (OpReset now' st' g' reinject) ->
  exists p q r, NewTxPool range Sender Size now c addrs st g = Some p /\ pool_run ops p = Some q /\
    reset_to range Sender Size now' st' g' reinject q = Some r /\
    (total_len range (pending r) <= GlobalSlots (config r) \/
     forall a, contains r a = false -> len_of (pending r) a <= AccountSlots (config r)) /\
    (total_len range (queue r) <= GlobalQueue (config r) \/ forall a, contains r a = false -> len_of (queue r) a = 0).
Proof.
  intros Hc Hops Hre. destruct (NewTxPool_inv now c addrs st g Hc) as (p & Ep & Hp & Hl & _).
  destruct (pool_run_inv ops p Hp Hl Hops) as (q & Eq & Hq & [Hlq _] & _).
  destruct (reset_to_inv now' st' g' reinject q Hq Hlq Hre) as (r & Er & _ & _ & _ & Hw & _).
  exists p, q, r. split_and!; try done; apply Hw.
Qed.

(** C36: the eviction takes all that an account which is not local has queued
    when none of its transactions has been promoted since it last had one
    executable, however short a time they have been there: only a promotion
    sets the heartbeat, and without one the time is counted from year 1. *)
Theorem evict_without_heartbeat now c addrs st g ops now' a :
  pool_config_ok c -> Forall op_ok ops -> 2 ^ 63 <= now' -> Lifetime (sanitize c) < 2 ^ 63 - 1 ->
  exists p q r, NewTxPool range Sender Size now c addrs st g = Some p /\ pool_run ops p = Some q /\ evict range Sender now' q = Some r /\
    (contains q a = false -> beats q !! a = None -> len_of (queue r) a = 0).
Proof.
  intros Hc Hops Hnow Hlife. destruct (NewTxPool_inv now c addrs st g Hc) as (p & Ep & Hp & Hl & _ & _ & Ec).
  destruct (pool_run_inv ops p Hp Hl Hops) as (q & Eq & Hq & [_ Ecq] & _).
  destruct (range_keys range range_all (queue q)) as [Hnd Hkeys].
  destruct (evict_evolves now' _ q Hq Hnd) as (r & Er & _ & Hother & Hs); [intros b; apply Hkeys|].
  exists p, q, r. split_and!; [done|done|done|]. intros Hloc Hbeat.
  destruct (decide (a ∈ map fst (range txList (queue q)))) as [Ha|Ha].
  - apply Hs; [done|]. split_and!; [done|done|]. rewrite Ecq, Ec. unfold time_Since. lia.
  - unfold len_of. rewrite Hother by done. rewrite Hkeys in Ha. apply eq_None_not_Some in Ha. by rewrite Ha.
Qed.

End Correct.

(** * Examples *)
Definition ex_range A (m : gmap Z A) : list (Z * A) := map_to_list m.
Lemma ex_range_all A (m : gmap Z A) : ex_range A m ≡ₚ map_to_list m.
Proof. done. Qed.

(** One account, which sends 21000 units of gas a time. *)
Definition ex_Sender (_ : Transaction) : option Z := Some 7.
Definition ex_Size (_ : Transaction) : Z := 110.
Definition ex_tx (nonce amount : Z) : Transaction := mkTransaction nonce 1 21000 (Some 9) amount [] (100 + nonce).
Definition ex_state (nonce : Z) : ChainState := mkChainState (fun _ => nonce) (fun _ => 10 ^ 6).

(** Three transactions arrive out of order, the price goes up, the chain grows. *)
Definition ex_ops : list PoolOp :=
  [OpAddRemote 1 (ex_tx 6 0); OpAddRemotes 2 [ex_tx 5 0; ex_tx 9 0]; OpAddLocal 3 (ex_tx 7 0); OpSetGasPrice 1; OpEvict 4; OpHomestead;
   OpReset 5 (ex_state 6) 8000000 []].
Definition ex_run (ops : list PoolOp) : option TxPool :=
  p ← NewTxPool ex_range ex_Sender ex_Size 0 DefaultTxPoolConfig ∅ (ex_state 5) 8000000; pool_run ex_range ex_Sender ex_Size ops p.

Definition ex_nonces (p : TxPool) : list Z * list Z * Z :=
  let ns m := concat (map (fun kv => map fst (map_to_list (list_items kv.2))) (map_to_list m)) in
  (merge_sort Z.le (ns (pending p)), merge_sort Z.le (ns (queue p)), pending_nonce p 7).

Lemma ex_config_ok : pool_config_ok DefaultTxPoolConfig.
Proof. unfold pool_config_ok. cbn. lia. Qed.
Lemma ex_ops_ok : Forall op_ok ex_ops.
Proof. repeat constructor; cbn; lia. Qed.
Lemma ex_ops_plain : Forall op_plain ex_ops.
Proof. repeat constructor; cbn; unfold MaxUint64; lia. Qed.

Lemma pool_books_witness :
  (exists p q, NewTxPool ex_range ex_Sender ex_Size 0 DefaultTxPoolConfig ∅ (ex_state 5) 8000000 = Some p /\
     pool_run ex_range ex_Sender ex_Size ex_ops p = Some q /\ books ex_Sender q) /\
  ex_nonces <$> ex_run ex_ops = Some ([6; 7], [9], 8).
Proof.
  split; [apply (pool_books ex_range ex_range_all); [exact ex_config_ok|exact ex_ops_ok]|vm_compute; reflexivity].
Defined.

Lemma pool_executable_witness :
  exists p q, NewTxPool ex_range ex_Sender ex_Size 0 DefaultTxPoolConfig ∅ (ex_state 5) 8000000 = Some p /\
    pool_run ex_range ex_Sender ex_Size ex_ops p = Some q /\
    forall a, state_nonce (currentState q) a <= pending_nonce q a /\
      forall n, is_Some (slot (pending q) a n) <-> state_nonce (currentState q) a <= n < pending_nonce q a.
Proof. apply (pool_executable ex_range ex_range_all); [exact ex_config_ok|exact ex_ops_ok|exact ex_ops_plain]. Defined.

Lemma pool_limits_witness :
  exists p q r, NewTxPool ex_range ex_Sender ex_Size 0 DefaultTxPoolConfig ∅ (ex_state 5) 8000000 = Some p /\
    pool_run ex_range ex_Sender ex_Size ex_ops p = Some q /\
    reset_to ex_range ex_Sender ex_Size 6 (ex_state 4) 8000000 [ex_tx 4 0] q = Some r /\
    (total_len ex_range (pending r) <= GlobalSlots (config r) \/
     forall a, contains r a = false -> len_of (pending r) a <= AccountSlots (config r)) /\
    (total_len ex_range (queue r) <= GlobalQueue (config r) \/ forall a, contains r a = false -> len_of (queue r) a = 0).
Proof.
  apply (pool_limits ex_range ex_range_all); [exact ex_config_ok|exact ex_ops_ok|]. repeat constructor; cbn; lia.
Defined.

(** A transaction with nonce 6 waits for nonce 5 and is gone after one
    nanosecond; the lifetime is three hours. *)
Definition ex_now : Z := 64 * 10 ^ 18.
Lemma ex_add_ok : Forall op_ok [OpAddRemote ex_now (ex_tx 6 0)].
Proof. repeat constructor; cbn; lia. Qed.

Lemma evict_without_heartbeat_witness :
  (exists p q r, NewTxPool ex_range ex_Sender ex_Size ex_now DefaultTxPoolConfig ∅ (ex_state 5) 8000000 = Some p /\
     pool_run ex_range ex_Sender ex_Size [OpAddRemote ex_now (ex_tx 6 0)] p = Some q /\ evict ex_range ex_Sender (ex_now + 1) q = Some r /\
     (contains q 7 = false -> beats q !! 7 = None -> len_of (queue r) 7 = 0)) /\
  ex_nonces <$> ex_run [OpAddRemote ex_now (ex_tx 6 0)] = Some ([], [6], 5) /\
  ex_nonces <$> ex_run [OpAddRemote ex_now (ex_tx 6 0); OpEvict (ex_now + 1)] = Some ([], [], 5).
Proof.
  split; [|split; vm_compute; reflexivity].
  apply (evict_without_heartbeat ex_range ex_range_all); [exact ex_config_ok|exact ex_add_ok|unfold ex_now; lia|by vm_compute].
Defined.




