(* ===== verification/TxPoolReorg.v ===== *)
(** The first half of [reset] of core/tx_pool.go: the transactions of the blocks
    that a reorganisation of the chain abandons come back to the pool, those of
    the blocks that it adds do not.  The chain is an argument: it answers
    [GetBlock] and [StateAt]. *)
From stdpp Require Import gmap sorting.
From S2P Require Import Prelude GoMath Params StateTransition GoHeap TxSorted TxSortedCorrect TxList TxListCorrect TxPoolPlaces TxPool TxPoolInv TxPoolOps TxPoolLimits TxPoolReset TxPoolCorrect.

(** What the pool reads of a header and of a block. *)
Record PoolHeader := mkPoolHeader { HeadHash : Z; HeadParent : Z; HeadNumber : Z; HeadRoot : Z; HeadGasLimit : Z }.
Record PoolBlock := mkPoolBlock { BlockHash : Z; BlockParent : Z; BlockNumber : Z; BlockTxs : list Transaction }.

(** The hashes of [b] are a set in Go. *)
Definition TxDifference (a b : list Transaction) : list Transaction :=
  let remove : gset Z := list_to_set (TxHash <$> b) in
  filter (fun tx => TxHash tx ∉ remove) a.

(** [float64] of an integer: 53 bits, to the nearest, ties to even. *)
Definition float64_of (x : Z) : Z :=
  let e := Z.log2 x - 52 in
  if e <=? 0 then x
  else
    let q := x / 2 ^ e in
    let r := x mod 2 ^ e in
    let half := 2 ^ (e - 1) in
    2 ^ e * (if (half <? r) || ((r =? half) && Z.odd q) then q + 1 else q).

(** [uint64(math.Abs(float64(oldNum) - float64(newNum)))] *)
Definition reorg_depth (oldNum newNum : Z) : Z := u64 (float64_of (Z.abs (float64_of oldNum - float64_of newNum))).

(** A walk down the chain ends, meets a block that is missing, or has no fuel. *)
Inductive walked (A : Type) := Walked (x : A) | Unrooted | Stuck.
Arguments Walked {A} x.
Arguments Unrooted {A}.
Arguments Stuck {A}.

Section Reorg.
Context (GetBlock : Z -> Z -> option PoolBlock) (StateAt : Z -> option ChainState).

Definition parent (b : PoolBlock) : option PoolBlock := GetBlock (BlockParent b) (u64 (BlockNumber b - 1)).

(** The loops that bring one branch down to the height of the other. *)
Fixpoint lower (fuel : nat) (b : PoolBlock) (height : Z) (txs : list Transaction) : walked (PoolBlock * list Transaction) :=
  if height <? BlockNumber b then
    match fuel with
    | O => Stuck
    | S fuel =>
        match parent b with
        | None => Unrooted
        | Some b' => lower fuel b' height (txs ++ BlockTxs b)
        end
    end
  else Walked (b, txs).

(** The loop that brings both down to the common ancestor. *)
Fixpoint meet (fuel : nat) (rem add : PoolBlock) (discarded included : list Transaction)
    : walked (list Transaction * list Transaction) :=
  if BlockHash rem =? BlockHash add then Walked (discarded, included)
  else
    match fuel with
    | O => Stuck
    | S fuel =>
        match parent rem, parent add with
        | Some rem', Some add' => meet fuel rem' add' (discarded ++ BlockTxs rem) (included ++ BlockTxs add)
        | _, _ => Unrooted
        end
    end.

Definition walk_fuel (b : PoolBlock) : nat := S (Z.to_nat (BlockNumber b)).

(** [discarded] and [included] *)
Definition branches (rem add : PoolBlock) : walked (list Transaction * list Transaction) :=
  match lower (walk_fuel rem) rem (BlockNumber add) [] with
  | Walked (rem, discarded) =>
      match lower (walk_fuel add) add (BlockNumber rem) [] with
      | Walked (add, included) => meet (walk_fuel rem) rem add discarded included
      | Unrooted => Unrooted
      | Stuck => Stuck
      end
  | Unrooted => Unrooted
  | Stuck => Stuck
  end.

(** [reinject]; [None] when a head is not a block of the chain. *)
Definition reinjected (oldHead : option PoolHeader) (newHead : PoolHeader) : option (walked (list Transaction)) :=
  match oldHead with
  | None => Some (Walked [])
  | Some oldHead =>
      if HeadHash oldHead =? HeadParent newHead then Some (Walked [])
      else if 64 <? reorg_depth (HeadNumber oldHead) (HeadNumber newHead) then Some (Walked [])
      else
        rem ← GetBlock (HeadHash oldHead) (HeadNumber oldHead);
        add ← GetBlock (HeadHash newHead) (HeadNumber newHead);
        Some match branches rem add with
             | Walked (discarded, included) => Walked (TxDifference discarded included)
             | Unrooted => Unrooted
             | Stuck => Stuck
             end
  end.

Context (range : forall A, gmap Z A -> list (Z * A)).
Context (Sender : Transaction -> option Z) (Size : Transaction -> Z).

(** A missing [newHead], which only tests pass, is left out. *)
Definition reset (now : Z) (oldHead : option PoolHeader) (newHead : PoolHeader) (p : TxPool) : option TxPool :=
  w ← reinjected oldHead newHead;
  match w with
  | Stuck => None
  | Unrooted => Some p
  | Walked reinject =>
      match StateAt (HeadRoot newHead) with
      | None => Some p
      | Some statedb => reset_to range Sender Size now statedb (HeadGasLimit newHead) reinject p
      end
  end.
End Reorg.

(** * The walks *)
Section Walks.
Context (GetBlock : Z -> Z -> option PoolBlock) (StateAt : Z -> option ChainState).
#[local] Abbreviation parent := (parent GetBlock).
Implicit Types (b c : PoolBlock) (bs cs : list PoolBlock).

(** A chain answers with the block that was asked for. *)
Record chain_ok : Prop := {
  chain_key h n b : GetBlock h n = Some b -> BlockHash b = h /\ BlockNumber b = n /\ 0 <= n < 2 ^ 63;
  chain_txs h n b : GetBlock h n = Some b -> Forall (fun tx => is_u64 (AccountNonce tx)) (BlockTxs b) }.
Context (chain : chain_ok).

Definition known b : Prop := exists h n, GetBlock h n = Some b.

Lemma known_number b : known b -> 0 <= BlockNumber b < 2 ^ 63.
Proof. intros (h & n & H). apply (chain_key chain) in H as (_ & -> & ?). done. Qed.

Lemma parent_known b c : known b -> parent b = Some c -> known c /\ BlockNumber c = BlockNumber b - 1.
Proof.
  intros Hb%known_number H. split; [by do 2 eexists|]. apply (chain_key chain) in H as (_ & -> & Hr). unfold u64 in *.
  destruct (decide (BlockNumber b = 0)) as [E|]; [rewrite E in Hr; change ((0 - 1) mod 2 ^ 64) with (2 ^ 64 - 1) in Hr; lia|]. rewrite Z.mod_small; lia.
Qed.

Definition ends {A} (P : A -> Prop) (w : walked A) : Prop := match w with Walked x => P x | Unrooted => True | Stuck => False end.
#[local] Abbreviation nonces_ok := (Forall (fun tx => is_u64 (AccountNonce tx))).

Lemma nonces_ok_app b txs : known b -> nonces_ok txs -> nonces_ok (txs ++ BlockTxs b).
Proof. intros (h & n & H) Ht. apply Forall_app. split; [done|]. by apply (chain_txs chain h n). Qed.

Lemma lower_ends fuel : forall b height txs,
  known b -> BlockNumber b < Z.of_nat fuel -> nonces_ok txs ->
  ends (fun r => known r.1 /\ nonces_ok r.2) (lower GetBlock fuel b height txs).
Proof.
  induction fuel as [|fuel IH]; intros b height txs Hb Hf Ht; cbn [lower]; case_if; try done; pose proof (known_number b Hb); [lia|].
  destruct (parent b) as [c|] eqn:Ep; [|done]. destruct (parent_known b c Hb Ep) as [Hc En]. apply IH; [done|lia|by apply nonces_ok_app].
Qed.

Lemma meet_ends fuel : forall b c txs txs',
  known b -> known c -> BlockNumber b < Z.of_nat fuel -> nonces_ok txs ->
  ends (fun r => nonces_ok r.1) (meet GetBlock fuel b c txs txs').
Proof.
  induction fuel as [|fuel IH]; intros b c txs txs' Hb Hc Hf Ht; cbn [meet]; case_if; try done; pose proof (known_number b Hb); [lia|].
  destruct (parent b) as [b'|] eqn:Eb; [|done]. destruct (parent c) as [c'|] eqn:Ec; [|done].
  destruct (parent_known b b' Hb Eb) as [Hb' En]. destruct (parent_known c c' Hc Ec) as [Hc' _].
  apply IH; [done|done|lia|by apply nonces_ok_app].
Qed.

Lemma walk_fuel_enough b : known b -> BlockNumber b < Z.of_nat (walk_fuel b).
Proof. intros H%known_number. unfold walk_fuel. lia. Qed.

Lemma branches_ends b c : known b -> known c -> ends (fun r => nonces_ok r.1) (branches GetBlock b c).
Proof.
  intros Hb Hc. unfold branches.
  pose proof (lower_ends (walk_fuel b) b (BlockNumber c) [] Hb (walk_fuel_enough b Hb) ltac:(constructor)) as H.
  destruct (lower _ _ b _ _) as [[b' d]| |]; [|done|done]. destruct H as [Hb' Hd]. cbn in Hb', Hd.
  pose proof (lower_ends (walk_fuel c) c (BlockNumber b') [] Hc (walk_fuel_enough c Hc) ltac:(constructor)) as H.
  destruct (lower _ _ c _ _) as [[c' i]| |]; [|done|done]. destruct H as [Hc' _].
  apply meet_ends; [done|done|by apply walk_fuel_enough|done].
Qed.

(** [bs] are the blocks from [b] down to, and without, [c]. *)
Fixpoint descends b bs c : Prop :=
  match bs with
  | [] => b = c
  | x :: bs => x = b /\ exists b', parent b = Some b' /\ descends b' bs c
  end.

Lemma descends_app bs : forall b cs c, descends b (bs ++ cs) c -> exists m, descends b bs m /\ descends m cs c.
Proof.
  induction bs as [|x bs IH]; intros b cs c H; [by exists b|]. destruct H as (-> & b' & E & H).
  destruct (IH _ _ _ H) as (m & H1 & H2). exists m. split; [|done]. split; [done|]. by exists b'.
Qed.

Lemma descends_number bs : forall b c, known b -> descends b bs c -> known c /\ BlockNumber b = BlockNumber c + zlen bs.
Proof.
  induction bs as [|x bs IH]; intros b c Hb H; [cbn in H; subst c; unfold zlen; cbn; split; [done|lia]|].
  destruct H as (-> & b' & E & H). destruct (parent_known b b' Hb E) as [Hb' En].
  destruct (IH _ _ Hb' H) as [Hc Eb]. split; [done|]. unfold zlen in *. cbn. lia.
Qed.

Definition txs_of bs : list Transaction := concat (map BlockTxs bs).

Lemma lower_descends bs : forall fuel b c txs,
  known b -> descends b bs c -> BlockNumber b < Z.of_nat fuel ->
  lower GetBlock fuel b (BlockNumber c) txs = Walked (c, txs ++ txs_of bs).
Proof.
  induction bs as [|x bs IH]; intros fuel b c txs Hb H Hf.
  { cbn in H. subst c. rewrite app_nil_r. destruct fuel; cbn [lower]; by rewrite Z.ltb_irrefl. }
  pose proof (descends_number _ _ _ Hb H) as [_ En]. pose proof (known_number b Hb). destruct H as (-> & b' & E & H).
  destruct (parent_known b b' Hb E) as [Hb' En']. destruct fuel as [|fuel]; [lia|]. cbn [lower].
  unfold zlen in En. cbn in En. rewrite (proj2 (Z.ltb_lt _ _)) by lia. rewrite E. rewrite IH by (done || lia).
  by rewrite <-app_assoc.
Qed.

Lemma lower_done fuel b height txs : BlockNumber b <= height -> lower GetBlock fuel b height txs = Walked (b, txs).
Proof. intros H. destruct fuel; cbn [lower]; by rewrite (proj2 (Z.ltb_ge _ _)). Qed.

(** The blocks of two branches differ. *)
Definition apart bs cs : Prop := forall b c, b ∈ bs -> c ∈ cs -> BlockHash b <> BlockHash c.

Lemma meet_descends bs : forall cs fuel b c anc d i,
  known b -> known c -> descends b bs anc -> descends c cs anc -> length bs = length cs -> apart bs cs -> BlockNumber b < Z.of_nat fuel ->
  meet GetBlock fuel b c d i = Walked (d ++ txs_of bs, i ++ txs_of cs).
Proof.
  induction bs as [|x bs IH]; intros [|y cs] fuel b c anc d i Hb Hc H1 H2 El Ha Hf; try done.
  { cbn in H1, H2. subst. unfold txs_of. cbn. rewrite !app_nil_r. destruct fuel; cbn [meet]; by rewrite Z.eqb_refl. }
  destruct H1 as (-> & b' & E1 & H1). destruct H2 as (-> & c' & E2 & H2). pose proof (known_number b Hb).
  destruct (parent_known b b' Hb E1) as [Hb' En]. destruct (parent_known c c' Hc E2) as [Hc' _].
  destruct fuel as [|fuel]; [lia|]. cbn [meet]. rewrite (proj2 (Z.eqb_neq _ _)) by (apply Ha; by left). rewrite E1, E2.
  rewrite (IH cs fuel b' c' anc) by (done || lia || (cbn in El; lia) || (intros u v Hu Hv; apply Ha; by right)).
  by rewrite <-!app_assoc.
Qed.

Lemma branches_descend b c bs cs anc :
  known b -> known c -> descends b bs anc -> descends c cs anc -> apart bs cs ->
  branches GetBlock b c = Walked (txs_of bs, txs_of cs).
Proof.
  intros Hb Hc H1 H2 Ha. unfold branches.
  destruct (descends_number _ _ _ Hb H1) as [_ N1]. destruct (descends_number _ _ _ Hc H2) as [_ N2]. unfold zlen in *.
  destruct (decide (length cs <= length bs)%nat) as [Hle|Hgt].
  - rewrite <-(take_drop (length bs - length cs) bs) in H1. apply descends_app in H1 as (m & M1 & M2).
    destruct (descends_number _ _ _ Hb M1) as [Hm Nm]. unfold zlen in Nm. rewrite length_take in Nm.
    replace (BlockNumber c) with (BlockNumber m) by lia. rewrite (lower_descends _ _ _ _ _ Hb M1) by (by apply walk_fuel_enough).
    rewrite lower_done by lia.
    rewrite (meet_descends _ cs _ m c anc) by (done || (rewrite length_drop; lia) || (by apply walk_fuel_enough) ||
      (intros u v Hu Hv; apply Ha; [by eapply subseteq_drop|done])).
    unfold txs_of. cbn [app]. by rewrite <-concat_app, <-map_app, take_drop.
  - rewrite <-(take_drop (length cs - length bs) cs) in H2. apply descends_app in H2 as (m & M1 & M2).
    destruct (descends_number _ _ _ Hc M1) as [Hm Nm]. unfold zlen in Nm. rewrite length_take in Nm.
    rewrite lower_done by lia. replace (BlockNumber b) with (BlockNumber m) by lia.
    rewrite (lower_descends _ _ _ _ _ Hc M1) by (by apply walk_fuel_enough).
    rewrite (meet_descends bs _ _ b m anc) by (done || (rewrite length_drop; lia) || (by apply walk_fuel_enough) ||
      (intros u v Hu Hv; apply Ha; [done|by eapply subseteq_drop])).
    unfold txs_of. cbn [app]. by rewrite <-concat_app, <-map_app, take_drop.
Qed.

End Walks.

Lemma TxDifference_spec txs txs' tx : tx ∈ TxDifference txs txs' <-> tx ∈ txs /\ forall y, y ∈ txs' -> TxHash y <> TxHash tx.
Proof.
  unfold TxDifference. rewrite list_elem_of_filter, elem_of_list_to_set, list_elem_of_fmap. split.
  - intros [H1 H2]. split; [done|]. intros y Hy E. apply H1. by exists y.
  - intros [H1 H2]. split; [|done]. intros (y & E & Hy). by apply (H2 y).
Qed.

Lemma txs_of_elem bs tx : tx ∈ txs_of bs <-> exists b, b ∈ bs /\ tx ∈ BlockTxs b.
Proof.
  induction bs as [|b bs IH]; unfold txs_of in *; cbn; [|rewrite elem_of_app, IH]; set_solver.
Qed.

(** Heights of real chains are exact in [float64]. *)
Lemma float64_of_exact x : x < 2 ^ 53 -> float64_of x = x.
Proof.
  intros H. unfold float64_of. case_if; [done|]. exfalso.
  destruct (Z.le_gt_cases x 0); [rewrite Z.log2_nonpos in * by done; lia|].
  assert (Z.log2 x < 53) by (apply Z.log2_lt_pow2; lia). lia.
Qed.

Lemma reorg_depth_exact n m : 0 <= n < 2 ^ 53 -> 0 <= m < 2 ^ 53 -> reorg_depth n m = Z.abs (n - m).
Proof.
  intros Hn Hm. unfold reorg_depth. rewrite (float64_of_exact n), (float64_of_exact m), float64_of_exact by lia.
  apply u64_small. unfold is_u64. lia.
Qed.

(** * Reset, with the reorganisation *)
Section Reset.
Context (range : forall A, gmap Z A -> list (Z * A)) (range_all : forall A (m : gmap Z A), range A m ≡ₚ map_to_list m).
Context (Sender : Transaction -> option Z) (Size : Transaction -> Z).
Context (GetBlock : Z -> Z -> option PoolBlock) (StateAt : Z -> option ChainState).
Implicit Types (p q : TxPool) (old new : PoolHeader).

(** The blocks of the heads are in the chain. *)
Definition head_known (h : PoolHeader) : Prop := is_Some (GetBlock (HeadHash h) (HeadNumber h)).

Lemma reinjected_ends (old : option PoolHeader) new :
  chain_ok GetBlock -> (forall h, old = Some h -> head_known h) -> head_known new ->
  exists w, reinjected GetBlock old new = Some w /\ ends (Forall (fun tx => is_u64 (AccountNonce tx))) w.
Proof.
  intros Hc Ho [add Hadd]. unfold reinjected. destruct old as [old|]; [|by exists (Walked []); split; [|constructor]].
  case_if; [by exists (Walked []); split; [|constructor]|]. case_if; [by exists (Walked []); split; [|constructor]|].
  destruct (Ho old eq_refl) as [rem Hrem]. rewrite Hrem, Hadd. cbn [mbind option_bind]. eexists. split; [done|].
  pose proof (branches_ends GetBlock Hc rem add ltac:(by do 2 eexists) ltac:(by do 2 eexists)) as H.
  destruct (branches GetBlock rem add) as [[d i]| |]; [|done|done]. cbn in *.
  apply list.Forall_forall. intros tx [Ht _]%TxDifference_spec. by apply (proj1 (list.Forall_forall _ _) H).
Qed.

(** A reset of the pool to a new head never panics and its walks down the
    two branches end: the pool comes back as it was when a block or the state
    is missing, and with its books right in any case. *)
Theorem reset_total now c addrs st g ops now' (old : option PoolHeader) new :
  pool_config_ok c -> Forall op_ok ops ->
  chain_ok GetBlock -> (forall h, old = Some h -> head_known h) -> head_known new ->
  exists p q r, NewTxPool range Sender Size now c addrs st g = Some p /\ pool_run range Sender Size ops p = Some q /\
    reset GetBlock StateAt range Sender Size now' old new q = Some r /\ books Sender r.
Proof.
  intros Hcf Hops Hc Ho Hn. destruct (NewTxPool_inv range range_all Sender Size now c addrs st g Hcf) as (p & Ep & Hp & Hl & _).
  destruct (pool_run_inv range range_all Sender Size ops p Hp Hl Hops) as (q & Eq & Hq & [Hlq _] & _).
  destruct (reinjected_ends old new Hc Ho Hn) as (w & Ew & Hw). exists p, q. unfold reset. rewrite Ew. cbn [mbind option_bind].
  destruct w as [re| |]; [|by exists q; split_and!; try done; apply pool_inv_books|done].
  destruct (StateAt (HeadRoot new)) as [st'|]; [|by exists q; split_and!; try done; apply pool_inv_books].
  destruct (reset_to_inv range range_all Sender Size now' st' (HeadGasLimit new) re q Hq Hlq Hw) as (r & Er & Hr & _).
  exists r. split_and!; try done. by apply pool_inv_books.
Qed.

(** C23: when the chain leaves the blocks [bs] for the blocks [cs] above their
    common ancestor, at most 64 blocks deep, the pool is reset to the state of
    the new head and gets back exactly the transactions of the abandoned blocks
    that no new block includes. *)
Theorem reset_reinjects now old new p rem add bs cs anc st :
  chain_ok GetBlock -> HeadHash old <> HeadParent new ->
  0 <= HeadNumber old < 2 ^ 53 -> 0 <= HeadNumber new < 2 ^ 53 -> Z.abs (HeadNumber old - HeadNumber new) <= 64 ->
  GetBlock (HeadHash old) (HeadNumber old) = Some rem -> GetBlock (HeadHash new) (HeadNumber new) = Some add ->
  descends GetBlock rem bs anc -> descends GetBlock add cs anc -> apart bs cs -> StateAt (HeadRoot new) = Some st ->
  exists reinject,
    reset GetBlock StateAt range Sender Size now (Some old) new p =
      reset_to range Sender Size now st (HeadGasLimit new) reinject p /\
    forall tx, tx ∈ reinject <->
      (exists b, b ∈ bs /\ tx ∈ BlockTxs b) /\ forall c y, c ∈ cs -> y ∈ BlockTxs c -> TxHash y <> TxHash tx.
Proof.
  intros Hc Hne Ho Hn Hd Hrem Hadd H1 H2 Ha Hst. exists (TxDifference (txs_of bs) (txs_of cs)). split.
  - unfold reset, reinjected. rewrite (proj2 (Z.eqb_neq _ _) Hne), reorg_depth_exact, (proj2 (Z.ltb_ge _ _) Hd) by done.
    rewrite Hrem, Hadd. cbn [mbind option_bind].
    by rewrite (branches_descend GetBlock Hc rem add bs cs anc ltac:(by do 2 eexists) ltac:(by do 2 eexists) H1 H2 Ha), Hst.
  - intros tx. rewrite TxDifference_spec, txs_of_elem. apply and_iff_compat_l. split.
    + intros H c y Hcs Hy. refine (H y _). apply txs_of_elem. by exists c.
    + intros H y (c & Hcs & Hy)%txs_of_elem. by apply (H c).
Qed.
End Reset.

(** * Example: the second and third block are replaced *)
Definition ex_block (hash par number : Z) (txs : list Transaction) : PoolBlock := mkPoolBlock hash par number txs.
Definition ex_genesis := ex_block 10 0 1 [].
Definition ex_old2 := ex_block 20 10 2 [ex_tx 5 0].
Definition ex_old3 := ex_block 30 20 3 [ex_tx 6 0].
Definition ex_new2 := ex_block 21 10 2 [ex_tx 5 0].
Definition ex_GetBlock (h n : Z) : option PoolBlock :=
  list_find (fun b => BlockHash b = h /\ BlockNumber b = n) [ex_genesis; ex_old2; ex_old3; ex_new2] ≫= fun r => Some r.2.
Definition ex_StateAt (_ : Z) : option ChainState := Some (ex_state 6).
Definition ex_head (b : PoolBlock) : PoolHeader := mkPoolHeader (BlockHash b) (BlockParent b) (BlockNumber b) 0 8000000.

Lemma ex_chain_ok : chain_ok ex_GetBlock.
Proof.
  assert (forall h n b, ex_GetBlock h n = Some b -> BlockHash b = h /\ BlockNumber b = n /\ b ∈ [ex_genesis; ex_old2; ex_old3; ex_new2]) as H.
  { intros h n b. unfold ex_GetBlock. destruct (list_find _ _) as [[i x]|] eqn:E; [|done]. cbn. intros [= ->].
    apply list_find_Some in E as (E & [<- <-] & _). split_and!; [done|done|]. by eapply list_elem_of_lookup_2. }
  split; intros h n b (<- & <- & Hb)%H; set_unfold in Hb; destruct_or! Hb; subst; repeat constructor; cbn; unfold is_u64; lia.
Qed.

Lemma reset_total_witness :
  (exists p q r, NewTxPool ex_range ex_Sender ex_Size 0 DefaultTxPoolConfig ∅ (ex_state 5) 8000000 = Some p /\
     pool_run ex_range ex_Sender ex_Size ex_ops p = Some q /\
     reset ex_GetBlock ex_StateAt ex_range ex_Sender ex_Size 9 (Some (ex_head ex_old3)) (ex_head ex_new2) q = Some r /\ books ex_Sender r) /\
  reinjected ex_GetBlock (Some (ex_head ex_old3)) (ex_head ex_new2) = Some (Walked [ex_tx 6 0]).
Proof.
  split; [|vm_compute; reflexivity].
  apply (reset_total ex_range ex_range_all); [exact ex_config_ok|exact ex_ops_ok|exact ex_chain_ok| |by eexists].
  intros h [= <-]. by eexists.
Defined.

Definition ex_pool : TxPool :=
  mkPool DefaultTxPoolConfig 1 (ex_state 7) ∅ 8000000 ∅ None ∅ ∅ ∅ ∅ newTxPricedList true.

Lemma reset_reinjects_witness :
  exists reinject,
    reset ex_GetBlock ex_StateAt ex_range ex_Sender ex_Size 9 (Some (ex_head ex_old3)) (ex_head ex_new2) ex_pool =
      reset_to ex_range ex_Sender ex_Size 9 (ex_state 6) 8000000 reinject ex_pool /\
    forall tx, tx ∈ reinject <->
      (exists b, b ∈ [ex_old3; ex_old2] /\ tx ∈ BlockTxs b) /\
      forall c y, c ∈ [ex_new2] -> y ∈ BlockTxs c -> TxHash y <> TxHash tx.
Proof.
  eapply (reset_reinjects ex_range ex_Sender ex_Size ex_GetBlock ex_StateAt 9 (ex_head ex_old3) (ex_head ex_new2) ex_pool
    ex_old3 ex_new2 _ _ ex_genesis).
  - exact ex_chain_ok.
  - done.
  - cbn. lia.
  - cbn. lia.
  - cbn. lia.
  - reflexivity.
  - reflexivity.
  - split; [done|]. exists ex_old2. split; [reflexivity|]. split; [done|]. by exists ex_genesis.
  - split; [done|]. by exists ex_genesis.
  - intros b c Hb Hc. set_unfold in Hb. set_unfold in Hc. destruct_or! Hb; destruct_or! Hc; by subst.
  - reflexivity.
Defined.
