(* ===== verification/BlockChain.v ===== *)
(** The chain of blocks: core/blockchain.go, core/blockchain_insert.go and
    [ValidateBody] of core/block_validator.go, over the header chain.

    Arguments: the hash of a header, what a cache evicts, the engine, the
    processor and the validator of states (interfaces in the source), the commit of
    a state and what the garbage collection of tries leaves, the coin that breaks
    ties, and the time.  A [nil] dereference is [None].  The constructors of a
    block leave no [nil] number or difficulty.  Writes to the database
    do not fail, and the headers of a chain are verified before its blocks are
    written.  Events, logs, statistics and preimages are not modelled. *)
From stdpp Require Import gmap.
From S2P Require Import Prelude GoMath TxSorted BlockHeader HeaderChain TxPoolReorg.

Record Block := mkBlock { b_header : Header; b_txs : list Transaction; b_uncles : list Header }.

Definition NumberU64 (b : Block) : Z := Uint64 (default 0 (Number (b_header b))).
Definition b_parent (b : Block) : Z := ParentHash (b_header b).
Definition b_root (b : Block) : Z := Root (b_header b).
Definition b_difficulty (b : Block) : Z := default 0 (Difficulty (b_header b)).

Definition triesInMemory : Z := 128.
Definition maxTimeFutureBlocks : Z := 30.

Inductive InsertError :=
| EUnknownAncestor | EPrunedAncestor | EFutureBlock | EKnownBlock | EBlacklistedHash | ENonContiguous
| EInvalidOldChain | EInvalidNewChain | EFutureTimestamp | EMissingState | EGhostState | EMissingParent
| EUncleRoot | ETxRoot | ECommit | EOther (e : Z).

(** [S] is a state in memory, [R] a receipt. *)
Record BlockChain {S R : Type} := mkBlockChain {
  hc : HeaderChain;
  bodies : gmap (Z * Z) (list Transaction * list Header);
  receipts : gmap (Z * Z) (list R);
  lookups : gmap Z (Z * Z * Z);
  headBlock : Z;
  headFastBlock : Z;
  currentBlock : Block;
  currentFastBlock : Block;
  blockCache : gmap Z Block;
  futureBlocks : gmap Z Block;
  badBlocks : gmap Z Block;
  states : gmap Z S }.
Arguments BlockChain S R : clear implicits.
Arguments mkBlockChain {S R}.

Section Setters.
Context {S R : Type}.
Implicit Types bc : BlockChain S R.
Definition set_hc x bc : BlockChain S R := mkBlockChain x (bodies bc) (receipts bc) (lookups bc) (headBlock bc) (headFastBlock bc) (currentBlock bc) (currentFastBlock bc) (blockCache bc) (futureBlocks bc) (badBlocks bc) (states bc).
Definition set_bodies x bc : BlockChain S R := mkBlockChain (hc bc) x (receipts bc) (lookups bc) (headBlock bc) (headFastBlock bc) (currentBlock bc) (currentFastBlock bc) (blockCache bc) (futureBlocks bc) (badBlocks bc) (states bc).
Definition set_receipts x bc : BlockChain S R := mkBlockChain (hc bc) (bodies bc) x (lookups bc) (headBlock bc) (headFastBlock bc) (currentBlock bc) (currentFastBlock bc) (blockCache bc) (futureBlocks bc) (badBlocks bc) (states bc).
Definition set_lookups x bc : BlockChain S R := mkBlockChain (hc bc) (bodies bc) (receipts bc) x (headBlock bc) (headFastBlock bc) (currentBlock bc) (currentFastBlock bc) (blockCache bc) (futureBlocks bc) (badBlocks bc) (states bc).
Definition set_head h b bc : BlockChain S R := mkBlockChain (hc bc) (bodies bc) (receipts bc) (lookups bc) h (headFastBlock bc) b (currentFastBlock bc) (blockCache bc) (futureBlocks bc) (badBlocks bc) (states bc).
Definition set_fast h b bc : BlockChain S R := mkBlockChain (hc bc) (bodies bc) (receipts bc) (lookups bc) (headBlock bc) h (currentBlock bc) b (blockCache bc) (futureBlocks bc) (badBlocks bc) (states bc).
Definition set_blockCache x bc : BlockChain S R := mkBlockChain (hc bc) (bodies bc) (receipts bc) (lookups bc) (headBlock bc) (headFastBlock bc) (currentBlock bc) (currentFastBlock bc) x (futureBlocks bc) (badBlocks bc) (states bc).
Definition set_future x bc : BlockChain S R := mkBlockChain (hc bc) (bodies bc) (receipts bc) (lookups bc) (headBlock bc) (headFastBlock bc) (currentBlock bc) (currentFastBlock bc) (blockCache bc) x (badBlocks bc) (states bc).
Definition set_bad x bc : BlockChain S R := mkBlockChain (hc bc) (bodies bc) (receipts bc) (lookups bc) (headBlock bc) (headFastBlock bc) (currentBlock bc) (currentFastBlock bc) (blockCache bc) (futureBlocks bc) x (states bc).
Definition set_states x bc : BlockChain S R := mkBlockChain (hc bc) (bodies bc) (receipts bc) (lookups bc) (headBlock bc) (headFastBlock bc) (currentBlock bc) (currentFastBlock bc) (blockCache bc) (futureBlocks bc) (badBlocks bc) x.
(** On the database of the header chain, which is the same. *)
Definition on_db (f : ChainDB -> ChainDB) bc : BlockChain S R := set_hc (set_chainDb (f (chainDb (hc bc))) (hc bc)) bc.
End Setters.

Section BlockChain.
Context {S R : Type} (Hash : Header -> Z) (evict : forall A, gmap Z A -> gmap Z A).
Implicit Types bc : BlockChain S R.

Definition b_hash (b : Block) : Z := Hash (b_header b).

(** * Reading *)
Definition ReadBlock bc (hash number : Z) : option Block :=
  header ← ReadHeader (chainDb (hc bc)) hash number;
  '(txs, uncles) ← bodies bc !! (hash, number);
  Some (mkBlock header txs uncles).

Definition GetBlock (hash number : Z) bc : option Block * BlockChain S R :=
  match blockCache bc !! hash with
  | Some block => (Some block, bc)
  | None =>
      match ReadBlock bc hash number with
      | None => (None, bc)
      | Some block => (Some block, set_blockCache (lru_Add evict (b_hash block) block (blockCache bc)) bc)
      end
  end.

Definition GetBlockByNumber (number : Z) bc : option Block * BlockChain S R :=
  let hash := ReadCanonicalHash (chainDb (hc bc)) number in
  if hash =? 0 then (None, bc) else GetBlock hash number bc.

Definition HasBlock (hash number : Z) bc : bool :=
  bool_decide (is_Some (blockCache bc !! hash)) || bool_decide (is_Some (bodies bc !! (hash, number))).

Definition HasState (root : Z) bc : bool := bool_decide (is_Some (states bc !! root)).

Definition HasBlockAndState (hash number : Z) bc : bool * BlockChain S R :=
  match GetBlock hash number bc with
  | (None, bc) => (false, bc)
  | (Some block, bc) => (HasState (b_root block) bc, bc)
  end.

Definition bc_GetTd (hash number : Z) bc : option Z * BlockChain S R :=
  let '(td, h) := GetTd evict hash number (hc bc) in (td, set_hc h bc).
Definition bc_GetHeader (hash number : Z) bc : option Header * BlockChain S R :=
  let '(x, h) := GetHeader evict hash number (hc bc) in (x, set_hc h bc).
Definition bc_GetHeaderByNumber (number : Z) bc : option Header * BlockChain S R :=
  let '(x, h) := GetHeaderByNumber evict number (hc bc) in (x, set_hc h bc).

(** * Writing *)
Definition WriteBlock (block : Block) bc : BlockChain S R :=
  on_db (db_WriteHeader Hash (b_header block) (NumberU64 block))
    (set_bodies (<[(b_hash block, NumberU64 block) := (b_txs block, b_uncles block)]> (bodies bc)) bc).

Definition bc_WriteTd (hash number td : Z) bc : BlockChain S R := set_hc (WriteTd evict hash number td (hc bc)) bc.

Definition WriteBlockWithoutState (block : Block) (td : Z) bc : BlockChain S R :=
  WriteBlock block (bc_WriteTd (b_hash block) (NumberU64 block) td bc).

(** An entry: the hash and the number of the block, the index in it. *)
Fixpoint write_lookups (hash number i : Z) (txs : list Transaction) (l : gmap Z (Z * Z * Z)) : gmap Z (Z * Z * Z) :=
  match txs with
  | [] => l
  | tx :: txs => write_lookups hash number (i + 1) txs (<[TxSorted.TxHash tx := (hash, number, i)]> l)
  end.
Definition WriteTxLookupEntries (block : Block) bc : BlockChain S R :=
  set_lookups (write_lookups (b_hash block) (NumberU64 block) 0 (b_txs block) (lookups bc)) bc.

(** [insert] *)
Definition insert_head (block : Block) bc : BlockChain S R :=
  let updateHeads := negb (ReadCanonicalHash (chainDb (hc bc)) (NumberU64 block) =? b_hash block) in
  let bc := on_db (WriteCanonicalHash (b_hash block) (NumberU64 block)) bc in
  let bc := set_head (b_hash block) block bc in
  if updateHeads then
    let bc := set_hc (SetCurrentHeader Hash (b_header block) (hc bc)) bc in
    set_fast (b_hash block) block bc
  else bc.

(** * Reorganisation *)

(** The loops that lower the higher of the two chains to [target]. *)
Fixpoint reduce_chain (fuel : nat) (block : Block) (target : Z) bc : option (option Block * list Block * BlockChain S R) :=
  if NumberU64 block =? target then Some (Some block, [], bc)
  else
    match fuel with
    | O => None
    | Datatypes.S fuel =>
        match GetBlock (b_parent block) (u64 (NumberU64 block - 1)) bc with
        | (None, bc) => Some (None, [block], bc)
        | (Some p, bc) => '(r, l, bc) ← reduce_chain fuel p target bc; Some (r, block :: l, bc)
        end
    end.

(** The loop down both chains to the common block. *)
Fixpoint find_common (fuel : nat) (oldBlock newBlock : Block) bc : option ((InsertError + (list Block * list Block)) * BlockChain S R) :=
  if b_hash oldBlock =? b_hash newBlock then Some (inr ([], []), bc)
  else
    match fuel with
    | O => None
    | Datatypes.S fuel =>
        let '(o, bc) := GetBlock (b_parent oldBlock) (u64 (NumberU64 oldBlock - 1)) bc in
        let '(n, bc) := GetBlock (b_parent newBlock) (u64 (NumberU64 newBlock - 1)) bc in
        match o, n with
        | None, _ => Some (inl EInvalidOldChain, bc)
        | _, None => Some (inl EInvalidNewChain, bc)
        | Some o, Some n =>
            '(r, bc) ← find_common fuel o n bc;
            match r with
            | inl e => Some (inl e, bc)
            | inr (oldChain, newChain) => Some (inr (oldBlock :: oldChain, newBlock :: newChain), bc)
            end
        end
    end.

(** Both walks: the blocks to drop and to add, from the heads down. *)
Definition split_chains (oldBlock newBlock : Block) bc : option ((InsertError + (list Block * list Block)) * BlockChain S R) :=
  if NumberU64 newBlock <? NumberU64 oldBlock then
    '(o, l, bc) ← reduce_chain (Z.to_nat (NumberU64 oldBlock)) oldBlock (NumberU64 newBlock) bc;
    match o with
    | None => Some (inl EInvalidOldChain, bc)
    | Some o =>
        '(r, bc) ← find_common (Z.to_nat (NumberU64 o)) o newBlock bc;
        Some (match r with inl e => inl e | inr (oldChain, newChain) => inr (l ++ oldChain, newChain) end, bc)
    end
  else
    '(n, l, bc) ← reduce_chain (Z.to_nat (NumberU64 newBlock)) newBlock (NumberU64 oldBlock) bc;
    match n with
    | None => Some (inl EInvalidNewChain, bc)
    | Some n =>
        '(r, bc) ← find_common (Z.to_nat (NumberU64 n)) oldBlock n bc;
        Some (match r with inl e => inl e | inr (oldChain, newChain) => inr (oldChain, l ++ newChain) end, bc)
    end.

(** The new blocks are inserted from the lowest up. *)
Fixpoint insert_blocks (blocks : list Block) bc : BlockChain S R :=
  match blocks with
  | [] => bc
  | block :: blocks => insert_blocks blocks (WriteTxLookupEntries block (insert_head block bc))
  end.

Definition delete_lookups (txs : list Transaction) (l : gmap Z (Z * Z * Z)) : gmap Z (Z * Z * Z) :=
  foldr (fun tx l => delete (TxSorted.TxHash tx) l) l txs.

Definition reorg (oldBlock newBlock : Block) bc : option (option InsertError * BlockChain S R) :=
  '(r, bc) ← split_chains oldBlock newBlock bc;
  match r with
  | inl e => Some (Some e, bc)
  | inr (oldChain, newChain) =>
      let deletedTxs := concat (b_txs <$> oldChain) in
      let addedTxs := concat (b_txs <$> rev newChain) in
      let bc := insert_blocks (rev newChain) bc in
      Some (None, set_lookups (delete_lookups (TxDifference deletedTxs addedTxs) (lookups bc)) bc)
  end.

(** * Writing a block with its state *)
Context (Commit : Block -> S -> option (Z * S)) (archive : bool) (collect : Z -> gmap Z S -> gmap Z S).
Context (shouldPreserve : option (Block -> bool)).

(** The state is kept; an archive writes it out, another node collects what is
    older than the tries it keeps, after looking up the header at that height. *)
Definition store_state (block : Block) (root : Z) (s : S) bc : option (BlockChain S R) :=
  let st := <[root := s]> (states bc) in
  if archive then Some (set_states st bc)
  else if NumberU64 block <=? triesInMemory then Some (set_states st bc)
  else
    let '(header, bc) := bc_GetHeaderByNumber (NumberU64 block - triesInMemory) bc in
    header ← header;
    chosen ← number_u64 header;
    Some (set_states (collect chosen st) bc).

(** Whether the block becomes the head. *)
Definition prefer (coin : bool) (externTd localTd : Z) (block current : Block) : bool :=
  if localTd <? externTd then true
  else if externTd =? localTd then
    if NumberU64 block <? NumberU64 current then true
    else if NumberU64 block =? NumberU64 current then
      match shouldPreserve with
      | Some preserve => negb (preserve current) && (preserve block || coin)
      | None => coin
      end
    else false
  else false.

Definition writeBlockWithState (coin : bool) (block : Block) (rs : list R) (s : S) bc
    : option (WriteStatus * option InsertError * BlockChain S R) :=
  let hash := b_hash block in
  let number := NumberU64 block in
  let '(ptd, bc) := bc_GetTd (b_parent block) (u64 (number - 1)) bc in
  match ptd with
  | None => Some (NonStatTy, Some EUnknownAncestor, bc)
  | Some ptd =>
      let current := currentBlock bc in
      let '(localTd, bc) := bc_GetTd (b_hash current) (NumberU64 current) bc in
      let externTd := b_difficulty block + ptd in
      let bc := WriteBlock block (bc_WriteTd hash number externTd bc) in
      match Commit block s with
      | None => Some (NonStatTy, Some ECommit, bc)
      | Some (root, s) =>
          bc ← store_state block root s bc;
          localTd ← localTd;
          let batch bc := set_receipts (<[(hash, number) := rs]> (receipts bc)) bc in
          let done bc := set_future (delete hash (futureBlocks bc)) bc in
          if prefer coin externTd localTd block current then
            '(err, bc) ← (if negb (b_parent block =? b_hash current) then reorg current block bc else Some (None, bc));
            match err with
            | Some e => Some (NonStatTy, Some e, bc)
            | None => Some (CanonStatTy, None, done (insert_head block (WriteTxLookupEntries block (batch bc))))
            end
          else Some (SideStatTy, None, done (batch bc))
      end
  end.

(** * Importing *)
Context (VerifyHeaders : BlockChain S R -> list Header -> list bool -> Z -> option InsertError).
Context (VerifyUncles : BlockChain S R -> Block -> option InsertError).
Context (CalcUncleHash : list Header -> Z) (DeriveSha : list Transaction -> Z).
Context (Process : Block -> S -> InsertError + (list R * Z * S)).
Context (ValidateState : Block -> Block -> S -> list R -> Z -> option InsertError * S).
Context (BadHashes : gset Z) (Size : Block -> Z) (now : Z) (interrupted coin : Z -> bool).

Definition ValidateBody (block : Block) bc : option InsertError * BlockChain S R :=
  let '(known, bc) := HasBlockAndState (b_hash block) (NumberU64 block) bc in
  if known then (Some EKnownBlock, bc)
  else
    match VerifyUncles bc block with
    | Some e => (Some e, bc)
    | None =>
        if negb (CalcUncleHash (b_uncles block) =? UncleHash (b_header block)) then (Some EUncleRoot, bc)
        else if negb (DeriveSha (b_txs block) =? BlockHeader.TxHash (b_header block)) then (Some ETxRoot, bc)
        else
          let '(parent, bc) := HasBlockAndState (b_parent block) (u64 (NumberU64 block - 1)) bc in
          if parent then (None, bc)
          else if negb (HasBlock (b_parent block) (u64 (NumberU64 block - 1)) bc) then (Some EUnknownAncestor, bc)
          else (Some EPrunedAncestor, bc)
    end.

(** [next] of the iterator, at the block with index [i]. *)
Definition next_error (results : Z -> option InsertError) (i : Z) (block : Block) bc : option InsertError * BlockChain S R :=
  match results i with
  | Some e => (Some e, bc)
  | None => ValidateBody block bc
  end.

Definition addFutureBlock (block : Block) bc : option InsertError * BlockChain S R :=
  if now + maxTimeFutureBlocks <? default 0 (Time (b_header block)) then (Some EFutureTimestamp, bc)
  else (None, set_future (lru_Add evict (b_hash block) block (futureBlocks bc)) bc).

Definition reportBlock (block : Block) bc : BlockChain S R := set_bad (lru_Add evict (b_hash block) block (badBlocks bc)) bc.

Definition is_unknown (err : option InsertError) : bool := match err with Some EUnknownAncestor => true | _ => false end.

(** Blocks whose ancestor is in the queue follow it there; [rest] comes after
    [block], which has index [i]. *)
Fixpoint queue_future (results : Z -> option InsertError) (rest : list Block) (i : Z) (block : Block) (err : option InsertError) bc
    : Z * option InsertError * BlockChain S R :=
  if (i =? 0) || is_unknown err then
    match addFutureBlock block bc with
    | (Some e, bc) => (i, Some e, bc)
    | (None, bc) =>
        match rest with
        | [] => (i + 1, None, bc)
        | b :: rest => let '(err, bc) := next_error results (i + 1) b bc in queue_future results rest (i + 1) b err bc
        end
    end
  else (i, err, bc).

(** After the loop: a block of the future is queued, with those that follow. *)
Definition after_import (results : Z -> option InsertError) (rest : list Block) (i : Z) (block : Block) (err : option InsertError) bc
    : Z * option InsertError * BlockChain S R :=
  match err with
  | Some EFutureBlock =>
      match addFutureBlock block bc with
      | (Some e, bc) => (i, Some e, bc)
      | (None, bc) =>
          match rest with
          | [] => (i + 1, None, bc)
          | b :: rest =>
              let '(err, bc) := next_error results (i + 1) b bc in queue_future results rest (i + 1) b err bc
          end
      end
  | _ => (i, err, bc)
  end.

(** The loop over the blocks without an error; [previous] is the block before. *)
Fixpoint import_blocks (results : Z -> option InsertError) (rest : list Block) (previous : option Block) (i : Z) (block : Block) (err : option InsertError) bc
    : option (Z * option InsertError * BlockChain S R) :=
  match err with
  | Some _ => Some (after_import results rest i block err bc)
  | None =>
      if interrupted i then Some (i, None, bc)
      else if bool_decide (b_hash block ∈ BadHashes) then Some (i, Some EBlacklistedHash, reportBlock block bc)
      else
        let '(parent, bc) := match previous with Some p => (Some p, bc) | None => GetBlock (b_parent block) (u64 (NumberU64 block - 1)) bc end in
        parent ← parent;
        match states bc !! b_root parent with
        | None => Some (i, Some EMissingState, bc)
        | Some s =>
            match Process block s with
            | inl e => Some (i, Some e, reportBlock block bc)
            | inr (rs, usedGas, s) =>
                match ValidateState block parent s rs usedGas with
                | (Some e, _) => Some (i, Some e, reportBlock block bc)
                | (None, s) =>
                    '(_, err, bc) ← writeBlockWithState (coin i) block rs s bc;
                    match err with
                    | Some e => Some (i, Some e, bc)
                    | None =>
                        match rest with
                        | [] => Some (i + 1, None, bc)
                        | b :: rest => let '(err, bc) := next_error results (i + 1) b bc in import_blocks results rest (Some block) (i + 1) b err bc
                        end
                    end
                end
            end
        end
  end.

(** The blocks that are known and not above the head are skipped. *)
Fixpoint skip_known (results : Z -> option InsertError) (current : Z) (rest : list Block) (previous : option Block) (i : Z) (block : Block) (err : option InsertError) bc
    : option (Z * option InsertError * BlockChain S R) :=
  match err with
  | Some EKnownBlock =>
      if NumberU64 block <=? current then
        match rest with
        | [] => Some (i + 1, None, bc)
        | b :: rest => let '(err, bc) := next_error results (i + 1) b bc in skip_known results current rest (Some block) (i + 1) b err bc
        end
      else import_blocks results rest previous i block err bc
  | _ => import_blocks results rest previous i block err bc
  end.

(** * Side chains *)

(** What the first loop of [insertSidechain] ends with: the index, the error, the
    block before and the total difficulty so far; or an error at an index. *)
Inductive side_result := SideStop (i : Z) (e : InsertError) | SideEnd (i : Z) (err : option InsertError) (previous : option Block) (externTd : option Z).

Definition ghost_state (current block : Block) bc : bool * BlockChain S R :=
  if NumberU64 block <=? NumberU64 current then
    match GetBlockByNumber (NumberU64 block) bc with
    | (Some canonical, bc) => (b_root canonical =? b_root block, bc)
    | (None, bc) => (false, bc)
    end
  else (false, bc).

Fixpoint side_blocks (results : Z -> option InsertError) (current : Block) (rest : list Block) (previous : option Block) (i : Z) (block : Block) (err : option InsertError)
    (externTd : option Z) bc : option (side_result * BlockChain S R) :=
  match err with
  | Some EPrunedAncestor =>
      let '(ghost, bc) := ghost_state current block bc in
      if ghost then Some (SideStop i EGhostState, bc)
      else
        let '(td, bc) := match externTd with Some td => (Some td, bc) | None => bc_GetTd (b_parent block) (u64 (NumberU64 block - 1)) bc end in
        td ← td;
        let td := td + b_difficulty block in
        let bc := if HasBlock (b_hash block) (NumberU64 block) bc then bc else WriteBlockWithoutState block td bc in
        match rest with
        | [] => Some (SideEnd (i + 1) None (Some block) (Some td), bc)
        | b :: rest => let '(err, bc) := next_error results (i + 1) b bc in side_blocks results current rest (Some block) (i + 1) b err (Some td) bc
        end
  | _ => Some (SideEnd i err previous externTd, bc)
  end.

(** The headers down to one with a state: their hashes and numbers, from the top. *)
Fixpoint stateless (fuel : nat) (parent : option Header) bc : option (option (list (Z * Z)) * BlockChain S R) :=
  match parent with
  | None => Some (None, bc)
  | Some h =>
      if HasState (Root h) bc then Some (Some [], bc)
      else
        match fuel with
        | O => None
        | Datatypes.S fuel =>
            n ← number_u64 h;
            let '(p, bc) := bc_GetHeader (ParentHash h) (u64 (n - 1)) bc in
            '(l, bc) ← stateless fuel p bc;
            Some (match l with Some l => Some ((Hash h, n) :: l) | None => None end, bc)
        end
  end.

(** The import again, in segments; [l] is from the lowest block up, [reimport] is
    [insertChain] without the seals. *)
Fixpoint import_segments (reimport : list Block -> BlockChain S R -> option (Z * option InsertError * BlockChain S R))
    (l : list (Z * Z)) (blocks : list Block) (memory : Z) bc : option (Z * option InsertError * BlockChain S R) :=
  match l with
  | [] => match blocks with [] => Some (0, None, bc) | _ => reimport blocks bc end
  | (hash, number) :: l =>
      let '(block, bc) := GetBlock hash number bc in
      block ← block;
      let blocks := blocks ++ [block] in
      let memory := memory + Size block in
      if (2048 <=? zlen blocks) || (64 * 1024 * 1024 <? memory) then
        '(_, err, bc) ← reimport blocks bc;
        match err with
        | Some e => Some (0, Some e, bc)
        | None => if interrupted (-1) then Some (0, None, bc) else import_segments reimport l [] 0 bc
        end
      else import_segments reimport l blocks memory bc
  end.

(** [chain] begins with [block]; [current] of the iterator is [nil] at the last
    block of the chain. *)
Definition insertSidechain (reimport : list Block -> BlockChain S R -> option (Z * option InsertError * BlockChain S R))
    (results : Z -> option InsertError) (block : Block) (rest : list Block) bc : option (Z * option InsertError * BlockChain S R) :=
  let current := currentBlock bc in
  '(r, bc) ← match rest with
    | [] => Some (SideEnd 0 (Some EPrunedAncestor) None None, bc)
    | _ => side_blocks results current rest None 0 block (Some EPrunedAncestor) None bc
    end;
  match r with
  | SideStop i e => Some (i, Some e, bc)
  | SideEnd i err previous externTd =>
      let '(localTd, bc) := bc_GetTd (b_hash current) (NumberU64 current) bc in
      localTd ← localTd;
      externTd ← externTd;
      previous ← previous;
      if externTd <? localTd then Some (i, err, bc)
      else
        let '(parent, bc) := bc_GetHeader (b_hash previous) (NumberU64 previous) bc in
        '(l, bc) ← stateless (Datatypes.S (Z.to_nat (NumberU64 previous))) parent bc;
        match l with
        | None => Some (i, Some EMissingParent, bc)
        | Some l => import_segments reimport (rev l) [] 0 bc
        end
  end.

(** * Chains *)
Definition in_queue (err : option InsertError) (first : Block) bc : bool :=
  match err with
  | Some EFutureBlock => true
  | Some EUnknownAncestor => bool_decide (is_Some (futureBlocks bc !! b_parent first))
  | _ => false
  end.

(** [fuel] bounds the imports within imports of side chains. *)
Fixpoint insertChain (fuel : nat) (verifySeals : bool) (chain : list Block) bc : option (Z * option InsertError * BlockChain S R) :=
  match fuel, chain with
  | O, _ | _, [] => None
  | Datatypes.S fuel, first :: rest =>
      if interrupted (-1) then Some (0, None, bc)
      else
        let results := VerifyHeaders bc (b_header <$> chain) (replicate (length chain) verifySeals) in
        let '(err, bc) := next_error results 0 first bc in
        match err with
        | Some EPrunedAncestor => insertSidechain (insertChain fuel false) results first rest bc
        | Some EKnownBlock => skip_known results (NumberU64 (currentBlock bc)) rest None 0 first err bc
        | Some e =>
            if in_queue err first bc then Some (queue_future results rest 0 first err bc)
            else Some (0, Some e, reportBlock first bc)
        | None => import_blocks results rest None 0 first err bc
        end
  end.

Fixpoint contiguous_blocks (prev : Block) (chain : list Block) : bool :=
  match chain with
  | [] => true
  | b :: chain => (NumberU64 b =? u64 (NumberU64 prev + 1)) && (b_parent b =? b_hash prev) && contiguous_blocks b chain
  end.

Definition InsertChain (fuel : nat) (chain : list Block) bc : option (Z * option InsertError * BlockChain S R) :=
  match chain with
  | [] => Some (0, None, bc)
  | first :: rest =>
      if negb (contiguous_blocks first rest) then Some (0, Some ENonContiguous, bc)
      else insertChain fuel true chain bc
  end.
End BlockChain.
