(* ===== verification/BlockChainCorrect.v ===== *)
(** The chain of blocks keeps its books: the canonical numbers up to the head are
    the ancestry of the head, which is a heaviest block, and the index of
    transactions holds exactly the transactions of that ancestry, also after a
    reorganisation.  Here for the writing of one block; BlockChainImport has
    the import of chains. *)
From stdpp Require Import gmap.
From S2P Require Import Prelude GoMath TxSorted BlockHeader HeaderChain HeaderChainCorrect TxPoolReorg BlockChain.

(** * The index of transactions *)
Abbreviation body_map := (gmap (Z * Z) (list Transaction * list Header)).
Abbreviation index_map := (gmap Z (Z * Z * Z)).

(** The transaction with hash [t] is at [p] in the chain that [c] numbers, up to
    [m]: the hash and the number of a block and an index in it. *)
Definition indexed (B : body_map) (c : gmap Z Z) (m t : Z) (p : Z * Z * Z) : Prop :=
  let '(h, k, i) := p in
  0 <= k <= m /\ c !! k = Some h /\ 0 <= i /\
  exists txs us tx, B !! (h, k) = Some (txs, us) /\ txs !! Z.to_nat i = Some tx /\ TxSorted.TxHash tx = t.

Definition exact_index (B : body_map) (c : gmap Z Z) (m : Z) (L : index_map) : Prop := forall t p, L !! t = Some p <-> indexed B c m t p.
Definition no_repeats (B : body_map) (c : gmap Z Z) (m : Z) : Prop := forall t p q, indexed B c m t p -> indexed B c m t q -> p = q.

Lemma indexed_le B c m m' t p : indexed B c m t p -> m <= m' -> indexed B c m' t p.
Proof. destruct p as [[h k] i]. intros (H1 & H2 & H3) Hle. split; [lia|done]. Qed.

Lemma indexed_ext B c c' m t p : (forall k, 0 <= k <= m -> c' !! k = c !! k) -> indexed B c m t p -> indexed B c' m t p.
Proof. destruct p as [[h k] i]. intros He (H1 & H2 & H3). split; [done|]. split; [by rewrite He|done]. Qed.

Lemma exact_index_ext B c c' m L : (forall k, 0 <= k <= m -> c' !! k = c !! k) -> exact_index B c m L -> exact_index B c' m L.
Proof.
  intros He HL t p. rewrite (HL t p). split; apply indexed_ext; [done|]. intros k Hk. by rewrite He.
Qed.

Lemma no_repeats_le B c m m' : no_repeats B c m' -> m <= m' -> no_repeats B c m.
Proof. intros H Hle t p q Hp Hq. apply (H t); eapply indexed_le; eauto. Qed.

(** ** Writing the entries of a block *)
Definition tx_hashes (txs : list Transaction) : list Z := TxSorted.TxHash <$> txs.

Lemma write_lookups_other h n i txs L t : t ∉ tx_hashes txs -> write_lookups h n i txs L !! t = L !! t.
Proof.
  induction txs as [|tx txs IH] in i, L |- *; cbn; [done|]. intros [Ht Hn]%not_elem_of_cons.
  rewrite IH by done. by apply lookup_insert_ne.
Qed.

(** What is written does not depend on the old index. *)
Lemma write_lookups_same h n i txs L L' t : t ∈ tx_hashes txs -> write_lookups h n i txs L !! t = write_lookups h n i txs L' !! t.
Proof.
  induction txs as [|tx txs IH] in i, L, L' |- *; cbn; [by intros ?%not_elem_of_nil|]. intros Ht.
  destruct (decide (t ∈ tx_hashes txs)) as [Hin|Hin]; [by apply IH|].
  rewrite !write_lookups_other by done. apply elem_of_cons in Ht as [->|]; [by rewrite !lookup_insert_eq|done].
Qed.

Lemma write_lookups_entry h n i txs L t p : NoDup (tx_hashes txs) -> t ∈ tx_hashes txs ->
  write_lookups h n i txs L !! t = Some p <-> exists j tx, p = (h, n, i + Z.of_nat j) /\ txs !! j = Some tx /\ TxSorted.TxHash tx = t.
Proof.
  induction txs as [|tx txs IH] in i, L |- *; cbn; [by intros _ ?%not_elem_of_nil|]. intros [Hn Hd]%list.NoDup_cons Ht.
  destruct (decide (t = TxSorted.TxHash tx)) as [->|Hne].
  - rewrite write_lookups_other by done. rewrite lookup_insert_eq. split.
    + intros [= <-]. exists O, tx. split; [f_equal; lia|done].
    + intros ([|j] & tx' & -> & Hj & Ht'); [do 2 f_equal; lia|]. destruct Hn. rewrite <- Ht'. apply (list_elem_of_fmap_2 TxSorted.TxHash).
      by eapply list_elem_of_lookup_2.
  - apply elem_of_cons in Ht as [|Ht]; [done|]. rewrite IH by done. split; intros (j & tx' & -> & Hj & Ht').
    + exists (S j), tx'. split; [f_equal; lia|done].
    + destruct j as [|j]; [cbn in Hj; congruence|]. exists j, tx'. split; [f_equal; lia|done].
Qed.

Lemma tx_hashes_lookup txs t : t ∈ tx_hashes txs <-> exists j tx, txs !! j = Some tx /\ TxSorted.TxHash tx = t.
Proof.
  unfold tx_hashes. rewrite list_elem_of_fmap. split.
  - intros (tx & -> & [j Hj]%list_elem_of_lookup). eauto.
  - intros (j & tx & Hj & <-). exists tx. split; [done|]. by eapply list_elem_of_lookup_2.
Qed.

(** An entry of the topmost block. *)
Lemma indexed_top B c m h txs us j tx : 0 <= m -> c !! m = Some h -> B !! (h, m) = Some (txs, us) -> txs !! j = Some tx ->
  indexed B c m (TxSorted.TxHash tx) (h, m, Z.of_nat j).
Proof. intros Hm Hc HB Hj. split; [lia|]. split; [done|]. split; [lia|]. exists txs, us, tx. by rewrite Nat2Z.id. Qed.

Lemma no_repeats_NoDup B c m h txs us : 0 <= m -> no_repeats B c m -> c !! m = Some h -> B !! (h, m) = Some (txs, us) -> NoDup (tx_hashes txs).
Proof.
  intros Hm Hn Hc HB. apply NoDup_alt. intros i j t Hi Hj. apply list_lookup_fmap_Some in Hi as (x & -> & Hi), Hj as (y & E & Hj).
  pose proof (indexed_top B c m h txs us i x Hm Hc HB Hi) as H1. pose proof (indexed_top B c m h txs us j y Hm Hc HB Hj) as H2.
  rewrite <- E in H2. pose proof (Hn _ _ _ H1 H2) as [=]. lia.
Qed.

Lemma exact_index_step B c m h txs us L : 0 <= m -> exact_index B c (m - 1) L -> c !! m = Some h -> B !! (h, m) = Some (txs, us) -> no_repeats B c m ->
  exact_index B c m (write_lookups h m 0 txs L).
Proof.
  intros Hm HL Hc HB Hn t p. pose proof (no_repeats_NoDup _ _ _ _ _ _ Hm Hn Hc HB) as Hd. destruct (decide (t ∈ tx_hashes txs)) as [Ht|Ht].
  - rewrite write_lookups_entry by done. split.
    + intros (j & tx & -> & Hj & <-). eapply indexed_top; done.
    + intros Hp. apply tx_hashes_lookup in Ht as (j & tx & Hj & <-). exists j, tx. split; [|done].
      apply (Hn (TxSorted.TxHash tx)); [done|]. by eapply indexed_top.
  - rewrite write_lookups_other by done. rewrite (HL t p). split; [intros Hp; eapply indexed_le; [done|lia]|].
    destruct p as [[h' k] i]. intros (Hk & Hck & Hi & txs' & us' & tx & HB' & Htx & Et). destruct (decide (k = m)) as [->|].
    + destruct Ht. apply tx_hashes_lookup. assert (txs' = txs) as -> by congruence. eauto.
    + split; [lia|]. eauto 10.
Qed.

(** ** Deleting entries *)
Lemma delete_lookups_lookup txs L t : delete_lookups txs L !! t = if bool_decide (t ∈ tx_hashes txs) then None else L !! t.
Proof.
  induction txs as [|tx txs IH]; cbn; [done|]. destruct (decide (t = TxSorted.TxHash tx)) as [->|Hne].
  - rewrite lookup_delete_eq, bool_decide_eq_true_2; [done|]. by left.
  - rewrite lookup_delete_ne by done. fold (delete_lookups txs L). rewrite IH.
    rewrite (bool_decide_ext (t ∈ TxSorted.TxHash tx :: _) (t ∈ tx_hashes txs)); [done|]. rewrite elem_of_cons. tauto.
Qed.

Lemma exact_index_drop B c m k L D : k <= m -> exact_index B c m L -> no_repeats B c m ->
  (forall t, t ∈ tx_hashes D <-> exists h j i, k < j /\ indexed B c m t (h, j, i)) -> exact_index B c k (delete_lookups D L).
Proof.
  intros Hk HL Hn HD t p. rewrite delete_lookups_lookup. case_bool_decide as Ht.
  - split; [done|]. intros Hp. apply HD in Ht as (h & j & i & Hj & Hi). pose proof (Hn _ _ _ (indexed_le _ _ _ _ _ _ Hp Hk) Hi) as ->.
    destruct Hp as (Hb & _). lia.
  - rewrite (HL t p). split; [|intros Hp; by eapply indexed_le]. destruct p as [[h j] i]. intros Hp.
    destruct (decide (j <= k)); [destruct Hp as (Hb & Hr); split; [lia|done]|]. destruct Ht. apply HD. exists h, j, i. split; [lia|done].
Qed.

(** ** Several blocks *)
Section Blocks.
Context {S R : Type} (Hash : Header -> Z) (evict : forall A, gmap Z A -> gmap Z A).
Hypothesis Hash_inj : forall x y, Hash x = Hash y -> x = y.
Hypothesis Hash_nonzero : forall x, Hash x <> 0.
Hypothesis evict_subseteq : forall A (c : gmap Z A), evict A c ⊆ c.
(** The roots in a header fix the body. *)
Context (CalcUncleHash : list Header -> Z) (DeriveSha : list Transaction -> Z).
Hypothesis CalcUncleHash_inj : forall x y, CalcUncleHash x = CalcUncleHash y -> x = y.
Hypothesis DeriveSha_inj : forall x y, DeriveSha x = DeriveSha y -> x = y.
Implicit Types bc : BlockChain S R.

Definition commits (x : Header) (txs : list Transaction) (us : list Header) : Prop := DeriveSha txs = BlockHeader.TxHash x /\ CalcUncleHash us = UncleHash x.

Fixpoint write_blocks (bs : list Block) (L : index_map) : index_map :=
  match bs with [] => L | b :: bs => write_blocks bs (write_lookups (b_hash Hash b) (NumberU64 b) 0 (b_txs b) L) end.

Lemma write_blocks_other bs L t : t ∉ tx_hashes (concat (b_txs <$> bs)) -> write_blocks bs L !! t = L !! t.
Proof.
  unfold tx_hashes. induction bs as [|b bs IH] in L |- *; cbn; [done|]. rewrite fmap_app, not_elem_of_app. intros [H1 H2].
  rewrite IH by done. by apply write_lookups_other.
Qed.

Lemma write_blocks_same bs L L' t : t ∈ tx_hashes (concat (b_txs <$> bs)) -> write_blocks bs L !! t = write_blocks bs L' !! t.
Proof.
  unfold tx_hashes. induction bs as [|b bs IH] in L, L' |- *; cbn; [by intros ?%not_elem_of_nil|]. intros Ht.
  destruct (decide (t ∈ TxSorted.TxHash <$> concat (b_txs <$> bs))) as [Hin|Hin]; [by apply IH|].
  rewrite !(write_blocks_other bs) by done. apply write_lookups_same. rewrite fmap_app in Ht. by apply elem_of_app in Ht as [].
Qed.

(** The deletions of a reorganisation may as well come before the additions. *)
Lemma delete_then_write bs D L :
  delete_lookups (TxDifference D (concat (b_txs <$> bs))) (write_blocks bs L) = write_blocks bs (delete_lookups D L).
Proof.
  apply map_eq. intros t. rewrite delete_lookups_lookup. set (A := concat (b_txs <$> bs)).
  assert (t ∈ tx_hashes (TxDifference D A) <-> t ∈ tx_hashes D /\ t ∉ tx_hashes A) as Hd.
  { unfold tx_hashes, TxDifference. split.
    - intros (tx & -> & [Hn Hin]%list_elem_of_filter)%list_elem_of_fmap. rewrite elem_of_list_to_set in Hn.
      split; [by apply list_elem_of_fmap_2|done].
    - intros [(tx & -> & Hin)%list_elem_of_fmap Hn]. apply list_elem_of_fmap_2, list_elem_of_filter. by rewrite elem_of_list_to_set. }
  destruct (decide (t ∈ tx_hashes A)) as [Hin|Hin].
  - rewrite bool_decide_eq_false_2 by tauto. by apply write_blocks_same.
  - rewrite !write_blocks_other by done. rewrite delete_lookups_lookup. by rewrite (bool_decide_ext _ (t ∈ tx_hashes D)) by tauto.
Qed.

(** * Stored blocks *)
Record blocks_ok (g : Header) bc : Prop := {
  bo_tree : tree_ok Hash g (chainDb (hc bc));
  bo_caches : caches_ok (hc bc);
  bo_bodies k : is_Some (bodies bc !! k) <-> is_Some (db_headers (chainDb (hc bc)) !! k);
  bo_commits h n x txs us : stored (chainDb (hc bc)) h n x -> bodies bc !! (h, n) = Some (txs, us) -> commits x txs us;
  bo_genesis : exists us, bodies bc !! (Hash g, 0) = Some ([], us);
  bo_blockCache h b : blockCache bc !! h = Some b -> exists n, ReadBlock bc h n = Some b;
  bo_repeats h n x c : stored (chainDb (hc bc)) h n x -> linked Hash (chainDb (hc bc)) c n h -> no_repeats (bodies bc) c n }.

Definition stored_block bc (b : Block) : Prop := ReadBlock bc (b_hash Hash b) (NumberU64 b) = Some b.

(** Only the cache of blocks differs. *)
Definition recached bc bc' : Prop := bc' = set_blockCache (blockCache bc') bc.

Lemma recached_trans bc1 bc2 bc3 : recached bc1 bc2 -> recached bc2 bc3 -> recached bc1 bc3.
Proof. unfold recached. intros E1 E2. rewrite E2, E1. by destruct bc1. Qed.

Lemma recached_stored bc bc' b : recached bc bc' -> stored_block bc b -> stored_block bc' b.
Proof. by intros ->. Qed.

Lemma ReadBlock_inv bc h n b : ReadBlock bc h n = Some b -> stored (chainDb (hc bc)) h n (b_header b) /\ bodies bc !! (h, n) = Some (b_txs b, b_uncles b).
Proof.
  unfold ReadBlock, ReadHeader, stored. destruct (db_headers _ !! _) as [x|]; [|done]. cbn. destruct (bodies bc !! _) as [[txs us]|]; [|done].
  cbn. intros [= <-]. done.
Qed.

Lemma ReadBlock_key g bc h n b : blocks_ok g bc -> ReadBlock bc h n = Some b ->
  b_hash Hash b = h /\ NumberU64 b = n /\ Number (b_header b) = Some n /\ 0 <= n /\ n + 1 < 2 ^ 64 /\ stored_block bc b.
Proof.
  intros Hok Hb. destruct (ReadBlock_inv _ _ _ _ Hb) as [Hs _]. destruct (tree_key _ _ _ (bo_tree _ _ Hok) _ _ _ Hs) as (Eh & En & H0 & H1).
  assert (NumberU64 b = n) as E by (unfold NumberU64; rewrite En; unfold Uint64; cbn; rewrite Z.abs_eq by done; apply Z.mod_small; lia).
  split; [done|]. split; [done|]. repeat (split; [done|]). unfold stored_block. rewrite E. unfold b_hash. by rewrite Eh.
Qed.

Lemma stored_block_key g bc b : blocks_ok g bc -> stored_block bc b ->
  Number (b_header b) = Some (NumberU64 b) /\ 0 <= NumberU64 b /\ NumberU64 b + 1 < 2 ^ 64 /\
  stored (chainDb (hc bc)) (b_hash Hash b) (NumberU64 b) (b_header b) /\ bodies bc !! (b_hash Hash b, NumberU64 b) = Some (b_txs b, b_uncles b).
Proof.
  intros Hok Hb. destruct (ReadBlock_inv _ _ _ _ Hb) as [Hs Hbd]. destruct (ReadBlock_key _ _ _ _ _ Hok Hb) as (_ & _ & Hn & H0 & H1 & _). done.
Qed.

Lemma stored_has_block g bc h n x : blocks_ok g bc -> stored (chainDb (hc bc)) h n x -> exists b, ReadBlock bc h n = Some b /\ b_header b = x.
Proof.
  intros Hok Hs. destruct (proj2 (bo_bodies _ _ Hok (h, n)) (mk_is_Some _ _ Hs)) as [[txs us] Hb].
  exists (mkBlock x txs us). unfold ReadBlock, ReadHeader. unfold stored in Hs. rewrite Hs. cbn. by rewrite Hb.
Qed.

Lemma block_unique g bc h n m b b' : blocks_ok g bc -> ReadBlock bc h n = Some b -> ReadBlock bc h m = Some b' -> n = m /\ b = b'.
Proof.
  intros Hok H1 H2. destruct (ReadBlock_inv _ _ _ _ H1) as [S1 _], (ReadBlock_inv _ _ _ _ H2) as [S2 _].
  destruct (stored_unique Hash Hash_inj _ _ _ _ _ _ _ (bo_tree _ _ Hok) S1 S2) as [-> _]. split; congruence.
Qed.

Lemma GetBlock_ok g bc h n b : blocks_ok g bc -> ReadBlock bc h n = Some b ->
  exists bc', GetBlock Hash evict h n bc = (Some b, bc') /\ recached bc bc' /\ blocks_ok g bc'.
Proof.
  intros Hok Hb. unfold GetBlock. destruct (blockCache bc !! h) as [b'|] eqn:Hc.
  - exists bc. destruct (bo_blockCache _ _ Hok _ _ Hc) as [m Hm]. destruct (block_unique _ _ _ _ _ _ _ Hok Hb Hm) as [_ ->].
    split; [done|]. split; [by destruct bc|done].
  - rewrite Hb. eexists. split; [done|]. split; [done|]. destruct (ReadBlock_key _ _ _ _ _ Hok Hb) as (Eh & _). destruct Hok. split; try done.
    cbn. intros h' b' [[-> ->]|Hl]%(lru_Add_lookup evict evict_subseteq); [|eauto]. exists n. by rewrite Eh.
Qed.

(** The parent of a stored block that is not the genesis block. *)
Lemma GetBlock_parent g bc b : blocks_ok g bc -> stored_block bc b -> 0 < NumberU64 b ->
  exists p bc', GetBlock Hash evict (b_parent b) (u64 (NumberU64 b - 1)) bc = (Some p, bc') /\ recached bc bc' /\ blocks_ok g bc' /\
    stored_block bc p /\ b_hash Hash p = b_parent b /\ NumberU64 p = NumberU64 b - 1.
Proof.
  intros Hok Hb Hn. destruct (stored_block_key _ _ _ Hok Hb) as (_ & _ & H1 & Hs & _). rewrite u64_pred by done.
  destruct (tree_parent _ _ _ (bo_tree _ _ Hok) _ _ _ Hs Hn) as (x & _ & _ & Hp & _).
  destruct (stored_has_block _ _ _ _ _ Hok Hp) as (p & Hrp & _). destruct (GetBlock_ok _ _ _ _ _ Hok Hrp) as (bc' & Heq & Hre & Hok').
  destruct (ReadBlock_key _ _ _ _ _ Hok Hrp) as (Eh & En & _ & _ & _ & Hsp). exists p, bc'. done.
Qed.

(** * Walking down *)

(** [l] are the blocks from [top] down to the child of [bot]. *)
Fixpoint segment bc (top : Block) (l : list Block) (bot : Block) : Prop :=
  match l with
  | [] => top = bot
  | b :: l => b = top /\ stored_block bc b /\ exists p, stored_block bc p /\ b_hash Hash p = b_parent b /\ NumberU64 p = NumberU64 b - 1 /\ segment bc p l bot
  end.

Lemma segment_app bc top l mid l' bot : segment bc top l mid -> segment bc mid l' bot -> segment bc top (l ++ l') bot.
Proof.
  induction l as [|b l IH] in top |- *; cbn; [by intros ->|]. intros (-> & Hb & p & Hp & E1 & E2 & Hs) Hs'. split; [done|]. split; [done|]. exists p. eauto 10.
Qed.

Lemma segment_mono bc bc' top l bot : (forall x, stored_block bc' x -> stored_block bc x) -> segment bc' top l bot -> segment bc top l bot.
Proof.
  intros Hx. induction l as [|b l IH] in top |- *; cbn; [done|]. intros (-> & Hb & p & Hp & E1 & E2 & Hs).
  split; [done|]. split; [by apply Hx|]. exists p. split; [by apply Hx|]. eauto.
Qed.

Lemma segment_recached bc bc' top l bot : recached bc bc' -> segment bc' top l bot -> segment bc top l bot.
Proof. intros Hr. apply segment_mono. intros x. by rewrite Hr. Qed.

Lemma segment_cons bc b p l bot : stored_block bc b -> stored_block bc p -> b_hash Hash p = b_parent b -> NumberU64 p = NumberU64 b - 1 ->
  segment bc p l bot -> segment bc b (b :: l) bot.
Proof. intros. split; [done|]. split; [done|]. by exists p. Qed.

Lemma segment_number bc top l bot : segment bc top l bot -> NumberU64 top = NumberU64 bot + Z.of_nat (length l).
Proof.
  induction l as [|b l IH] in top |- *; cbn; [intros ->; lia|]. intros (-> & _ & p & _ & _ & E & Hs). apply IH in Hs. lia.
Qed.

Lemma reduce_chain_ok g fuel target b bc : blocks_ok g bc -> stored_block bc b -> 0 <= target <= NumberU64 b -> NumberU64 b - target <= Z.of_nat fuel ->
  exists p l bc', reduce_chain Hash evict fuel b target bc = Some (Some p, l, bc') /\ recached bc bc' /\ blocks_ok g bc' /\
    segment bc b l p /\ stored_block bc p /\ NumberU64 p = target.
Proof.
  induction fuel as [|fuel IH] in b, bc |- *; intros Hok Hb Ht Hf; cbn [reduce_chain].
  all: destruct (NumberU64 b =? target) eqn:E; [exists b, [], bc; repeat (split; [done || by destruct bc|]); lia|].
  1: lia.
  destruct (GetBlock_parent g bc b Hok Hb ltac:(lia)) as (p & bc1 & -> & Hr1 & Hok1 & Hp & Eh & En).
  destruct (IH p bc1 Hok1 (recached_stored _ _ _ Hr1 Hp) ltac:(lia) ltac:(lia)) as (q & l & bc2 & -> & Hr2 & Hok2 & Hs & Hq & Eq).
  exists q, (b :: l), bc2. split; [done|]. split; [by eapply recached_trans|]. split; [done|]. split; [|split; [by rewrite Hr1 in Hq|done]].
  apply (segment_cons _ _ p); try done. by eapply segment_recached.
Qed.

Lemma number_zero g bc b : blocks_ok g bc -> stored_block bc b -> NumberU64 b = 0 -> b_hash Hash b = Hash g.
Proof.
  intros Hok Hb E. destruct (stored_block_key _ _ _ Hok Hb) as (_ & _ & _ & Hs & _). rewrite E in Hs.
  unfold b_hash. by rewrite (tree_root _ _ _ (bo_tree _ _ Hok) _ _ Hs).
Qed.

Lemma same_hash g bc a b : blocks_ok g bc -> stored_block bc a -> stored_block bc b -> b_hash Hash a = b_hash Hash b -> a = b.
Proof. intros Hok Ha Hb E. unfold stored_block in Ha. rewrite E in Ha. by destruct (block_unique _ _ _ _ _ _ _ Hok Ha Hb). Qed.

Lemma find_common_ok g fuel o n bc : blocks_ok g bc -> stored_block bc o -> stored_block bc n -> NumberU64 o = NumberU64 n -> NumberU64 o <= Z.of_nat fuel ->
  exists lo ln c bc', find_common Hash evict fuel o n bc = Some (inr (lo, ln), bc') /\ recached bc bc' /\ blocks_ok g bc' /\
    segment bc o lo c /\ segment bc n ln c /\ stored_block bc c.
Proof.
  induction fuel as [|fuel IH] in o, n, bc |- *; intros Hok Ho Hn E Hf; cbn [find_common].
  all: destruct (b_hash Hash o =? b_hash Hash n) eqn:Eh.
  1, 3: exists [], [], o, bc; repeat (split; [done || by destruct bc|]); split; [|done]; symmetry; apply (same_hash g bc); (done || lia).
  all: assert (0 < NumberU64 o) as Hpos by (destruct (stored_block_key _ _ _ Hok Ho) as (_ & H0 & _);
    destruct (decide (NumberU64 o = 0)) as [Hz|]; [|lia]; rewrite (number_zero _ _ _ Hok Ho Hz), (number_zero _ _ _ Hok Hn) in Eh by lia; lia).
  1: lia.
  destruct (GetBlock_parent g bc o Hok Ho Hpos) as (p & bc1 & -> & Hr1 & Hok1 & Hp & Ep & Np).
  destruct (GetBlock_parent g bc1 n Hok1 (recached_stored _ _ _ Hr1 Hn) ltac:(lia)) as (q & bc2 & -> & Hr2 & Hok2 & Hq & Eq & Nq).
  pose proof (recached_trans _ _ _ Hr1 Hr2) as Hr. assert (stored_block bc q) as Hq' by (rewrite Hr1 in Hq; done).
  destruct (IH p q bc2 Hok2 (recached_stored _ _ _ Hr Hp) (recached_stored _ _ _ Hr Hq') ltac:(lia) ltac:(lia)) as (lo & ln & c & bc3 & -> & Hr3 & Hok3 & Hso & Hsn & Hc).
  exists (o :: lo), (n :: ln), c, bc3. split; [done|]. split; [by eapply recached_trans|]. split; [done|].
  split; [apply (segment_cons _ _ p)|split; [apply (segment_cons _ _ q)|by rewrite Hr in Hc]]; try done; by eapply segment_recached.
Qed.

Lemma split_chains_ok g o n bc : blocks_ok g bc -> stored_block bc o -> stored_block bc n ->
  exists lo ln c bc', split_chains Hash evict o n bc = Some (inr (lo, ln), bc') /\ recached bc bc' /\ blocks_ok g bc' /\
    segment bc o lo c /\ segment bc n ln c /\ stored_block bc c.
Proof.
  intros Hok Ho Hn. pose proof (stored_block_key _ _ _ Hok Ho) as (_ & O0 & _). pose proof (stored_block_key _ _ _ Hok Hn) as (_ & N0 & _).
  unfold split_chains. destruct (NumberU64 n <? NumberU64 o) eqn:Hlt.
  - destruct (reduce_chain_ok g (Z.to_nat (NumberU64 o)) (NumberU64 n) o bc Hok Ho ltac:(lia) ltac:(lia)) as (p & l & bc1 & -> & Hr1 & Hok1 & Hs1 & Hp & Np).
    cbn [mbind option_bind].
    destruct (find_common_ok g (Z.to_nat (NumberU64 p)) p n bc1 Hok1 (recached_stored _ _ _ Hr1 Hp) (recached_stored _ _ _ Hr1 Hn) Np ltac:(lia)) as (lo & ln & c & bc2 & -> & Hr2 & Hok2 & Hso & Hsn & Hc).
    exists (l ++ lo), ln, c, bc2. split; [done|]. split; [by eapply recached_trans|]. split; [done|].
    split; [eapply segment_app; [done|by eapply segment_recached]|]. split; [by eapply segment_recached|by rewrite Hr1 in Hc].
  - destruct (reduce_chain_ok g (Z.to_nat (NumberU64 n)) (NumberU64 o) n bc Hok Hn ltac:(lia) ltac:(lia)) as (p & l & bc1 & -> & Hr1 & Hok1 & Hs1 & Hp & Np).
    cbn [mbind option_bind].
    destruct (find_common_ok g (Z.to_nat (NumberU64 p)) o p bc1 Hok1 (recached_stored _ _ _ Hr1 Ho) (recached_stored _ _ _ Hr1 Hp) ltac:(lia) ltac:(lia)) as (lo & ln & c & bc2 & -> & Hr2 & Hok2 & Hso & Hsn & Hc).
    exists lo, (l ++ ln), c, bc2. split; [done|]. split; [by eapply recached_trans|]. split; [done|].
    split; [by eapply segment_recached|]. split; [eapply segment_app; [done|by eapply segment_recached]|by rewrite Hr1 in Hc].
Qed.

(** * Inserting *)
Abbreviation canonical bc := (db_canonical (chainDb (hc bc))).

(** The stored data and the caches are the same. *)
Record rebooked bc bc' : Prop := {
  rb_headers : db_headers (chainDb (hc bc')) = db_headers (chainDb (hc bc));
  rb_tds : db_tds (chainDb (hc bc')) = db_tds (chainDb (hc bc));
  rb_numbers : db_numbers (chainDb (hc bc')) = db_numbers (chainDb (hc bc));
  rb_headerCache : headerCache (hc bc') = headerCache (hc bc);
  rb_tdCache : tdCache (hc bc') = tdCache (hc bc);
  rb_numberCache : numberCache (hc bc') = numberCache (hc bc);
  rb_bodies : bodies bc' = bodies bc;
  rb_blockCache : blockCache bc' = blockCache bc }.

Lemma rebooked_trans bc1 bc2 bc3 : rebooked bc1 bc2 -> rebooked bc2 bc3 -> rebooked bc1 bc3.
Proof. intros [] []. split; congruence. Qed.

Lemma rebooked_linked bc bc' c n h : rebooked bc bc' -> linked Hash (chainDb (hc bc')) c n h <-> linked Hash (chainDb (hc bc)) c n h.
Proof. intros Hr. split; intros Hl; (eapply linked_db; [exact Hl|]); by rewrite (rb_headers _ _ Hr). Qed.

Lemma rebooked_ReadBlock bc bc' h n : rebooked bc bc' -> ReadBlock bc' h n = ReadBlock bc h n.
Proof. intros Hr. unfold ReadBlock, ReadHeader. by rewrite (rb_headers _ _ Hr), (rb_bodies _ _ Hr). Qed.

Lemma blocks_ok_rebooked g bc bc' : rebooked bc bc' -> blocks_ok g bc -> blocks_ok g bc'.
Proof.
  intros Hr [H1 H2 H3 Hcm H4 H5 H6]. split.
  - destruct Hr. by apply (tree_ok_same Hash g (chainDb (hc bc))).
  - destruct Hr. by apply (caches_ok_same (hc bc)).
  - intros k. rewrite (rb_bodies _ _ Hr), (rb_headers _ _ Hr). apply H3.
  - intros h n x txs us. unfold stored. rewrite (rb_bodies _ _ Hr), (rb_headers _ _ Hr). apply Hcm.
  - by rewrite (rb_bodies _ _ Hr).
  - intros h b. rewrite (rb_blockCache _ _ Hr). intros [n Hn]%H5. exists n. by rewrite (rebooked_ReadBlock _ _ _ _ Hr).
  - intros h n x c Hs Hl. rewrite (rb_bodies _ _ Hr). apply (rebooked_linked _ _ _ _ _ Hr) in Hl. unfold stored in Hs. rewrite (rb_headers _ _ Hr) in Hs. eauto.
Qed.

Lemma insert_head_eq b bc : let bc' := insert_head Hash b bc in
  rebooked bc bc' /\ canonical bc' = <[NumberU64 b := b_hash Hash b]> (canonical bc) /\ lookups bc' = lookups bc /\
  headBlock bc' = b_hash Hash b /\ currentBlock bc' = b /\ genesisHeader (hc bc') = genesisHeader (hc bc).
Proof. unfold insert_head. case_if; by repeat split. Qed.

Lemma insert_blocks_app xs b bc : insert_blocks Hash (xs ++ [b]) bc = WriteTxLookupEntries Hash b (insert_head Hash b (insert_blocks Hash xs bc)).
Proof. induction xs as [|x xs IH] in bc |- *; cbn; [done|apply IH]. Qed.

Lemma write_blocks_app xs b L : write_blocks (xs ++ [b]) L = write_lookups (b_hash Hash b) (NumberU64 b) 0 (b_txs b) (write_blocks xs L).
Proof. induction xs as [|x xs IH] in L |- *; cbn; [done|apply IH]. Qed.

(** The blocks of a segment, inserted above its bottom, are the canonical chain up
    to its top. *)
Lemma insert_blocks_ok g bc l top bot : blocks_ok g bc -> segment bc top l bot -> 0 <= NumberU64 bot ->
  linked Hash (chainDb (hc bc)) (canonical bc) (NumberU64 bot) (b_hash Hash bot) ->
  let bc' := insert_blocks Hash (rev l) bc in
  rebooked bc bc' /\ genesisHeader (hc bc') = genesisHeader (hc bc) /\
  linked Hash (chainDb (hc bc)) (canonical bc') (NumberU64 top) (b_hash Hash top) /\
  (forall n, n <= NumberU64 bot \/ NumberU64 top < n -> canonical bc' !! n = canonical bc !! n) /\
  lookups bc' = write_blocks (rev l) (lookups bc).
Proof.
  intros Hok. induction l as [|b l IH] in top |- *; intros Hs H0 Hl.
  { cbn in Hs |- *. subst top. split; [by split|done]. }
  destruct Hs as (-> & Hb & p & Hp & Eh & En & Hs). pose proof (segment_number _ _ _ _ Hs) as Hlen.
  cbn [rev]. rewrite insert_blocks_app, write_blocks_app. destruct (IH p Hs H0 Hl) as (Hr & Hg & Hlk & Hsame & HL).
  set (bc1 := insert_blocks Hash (rev l) bc) in *. destruct (insert_head_eq top bc1) as (Hr2 & Hc2 & HL2 & _ & _ & Hg2). set (bc2 := insert_head Hash top bc1) in *.
  destruct (stored_block_key _ _ _ Hok Hb) as (_ & Hn0 & _ & Hst & _).
  split; [eapply rebooked_trans; [exact Hr|]; destruct Hr2; by split|]. split; [cbn; congruence|]. split; [|split].
  - cbn. rewrite Hc2. apply linked_step; [|done|apply lookup_insert_eq]. rewrite <- En. unfold b_parent in Eh. rewrite <- Eh.
    eapply linked_ext; [exact Hlk|lia|]. intros k Hk. apply lookup_insert_ne. lia.
  - intros n Hn. cbn. rewrite Hc2, lookup_insert_ne by lia. apply Hsame. lia.
  - cbn. by rewrite HL2, HL.
Qed.

Lemma linked_down bc c b p : 0 < NumberU64 b -> b_hash Hash p = b_parent b -> NumberU64 p = NumberU64 b - 1 ->
  linked Hash (chainDb (hc bc)) c (NumberU64 b) (b_hash Hash b) -> linked Hash (chainDb (hc bc)) c (NumberU64 p) (b_hash Hash p).
Proof.
  intros Hn Eh En [Hc Hl]. destruct (Hl (NumberU64 b)) as (x & _ & Hcx & Hpx); [lia|].
  assert (x = b_header b) as -> by (apply Hash_inj; unfold b_hash in Hc; congruence).
  split; [rewrite En, Eh; apply Hpx; lia|]. intros n Hb. apply Hl. lia.
Qed.

(** The transactions of a segment of a numbered chain are those indexed above its
    bottom. *)
Lemma segment_txs g bc l top bot c t : blocks_ok g bc -> segment bc top l bot -> 0 <= NumberU64 bot ->
  linked Hash (chainDb (hc bc)) c (NumberU64 top) (b_hash Hash top) ->
  t ∈ tx_hashes (concat (b_txs <$> l)) <-> exists h j i, NumberU64 bot < j /\ indexed (bodies bc) c (NumberU64 top) t (h, j, i).
Proof.
  intros Hok. induction l as [|b l IH] in top |- *; intros Hs H0 Hl; cbn [fmap list_fmap concat].
  { cbn in Hs. subst top. split; [by intros ?%not_elem_of_nil|]. intros (h & j & i & Hj & Hi & _). lia. }
  destruct Hs as (-> & Hb & p & Hp & Eh & En & Hs). pose proof (segment_number _ _ _ _ Hs) as Hlen.
  destruct (stored_block_key _ _ _ Hok Hb) as (_ & _ & _ & _ & Hbody). pose proof (linked_down bc c top p ltac:(lia) Eh En Hl) as Hlp.
  unfold tx_hashes. rewrite fmap_app, elem_of_app. fold (tx_hashes (b_txs top)). fold (tx_hashes (concat (b_txs <$> l))). rewrite (IH p Hs H0 Hlp). split.
  - intros [(j & tx & Hj & <-)%tx_hashes_lookup|(h & j & i & Hj & Hi)].
    + exists (b_hash Hash top), (NumberU64 top), (Z.of_nat j). split; [lia|]. eapply indexed_top; [lia|apply Hl|done|done].
    + exists h, j, i. split; [done|]. eapply indexed_le; [done|lia].
  - intros (h & j & i & Hj & Hb1 & Hc1 & Hi & txs & us & tx & Hbd & Htx & <-). destruct (decide (j = NumberU64 top)) as [->|Hne].
    + left. apply tx_hashes_lookup. destruct Hl as [Hct _]. assert (txs = b_txs top) as -> by congruence. eauto.
    + right. exists h, j, i. split; [done|]. split; [lia|]. split; [done|]. split; [done|]. by exists txs, us, tx.
Qed.

(** The index follows. *)
Lemma write_blocks_exact g bc l top bot c L : blocks_ok g bc -> segment bc top l bot -> 0 <= NumberU64 bot ->
  linked Hash (chainDb (hc bc)) c (NumberU64 top) (b_hash Hash top) -> no_repeats (bodies bc) c (NumberU64 top) ->
  exact_index (bodies bc) c (NumberU64 bot) L -> exact_index (bodies bc) c (NumberU64 top) (write_blocks (rev l) L).
Proof.
  intros Hok. induction l as [|b l IH] in top |- *; intros Hs H0 Hl Hn HL; [cbn in Hs |- *; by subst top|].
  destruct Hs as (-> & Hb & p & Hp & Eh & En & Hs). pose proof (segment_number _ _ _ _ Hs) as Hlen.
  destruct (stored_block_key _ _ _ Hok Hb) as (_ & _ & _ & Hst & Hbody). cbn [rev]. rewrite write_blocks_app.
  eapply exact_index_step; [lia| |apply Hl|exact Hbody|done]. rewrite <- En. apply IH; [done|done|by apply (linked_down _ _ top); [lia|..]|eapply no_repeats_le; [done|lia]|done].
Qed.

(** A numbered chain contains the bottom of a segment from its head. *)
Lemma segment_linked bc l top bot c : segment bc top l bot -> 0 <= NumberU64 bot ->
  linked Hash (chainDb (hc bc)) c (NumberU64 top) (b_hash Hash top) -> linked Hash (chainDb (hc bc)) c (NumberU64 bot) (b_hash Hash bot).
Proof.
  induction l as [|b l IH] in top |- *; intros Hs H0 Hl; [cbn in Hs; by subst top|].
  destruct Hs as (-> & _ & p & _ & Eh & En & Hs). pose proof (segment_number _ _ _ _ Hs). apply (IH p Hs H0). by apply (linked_down _ _ top); [lia|..].
Qed.

(** The books of a chain with head [b]. *)
Definition booked bc (b : Block) : Prop :=
  linked Hash (chainDb (hc bc)) (canonical bc) (NumberU64 b) (b_hash Hash b) /\ exact_index (bodies bc) (canonical bc) (NumberU64 b) (lookups bc).

Lemma recached_rebooked bc bc' : recached bc bc' ->
  db_headers (chainDb (hc bc')) = db_headers (chainDb (hc bc)) /\ bodies bc' = bodies bc /\ canonical bc' = canonical bc /\ lookups bc' = lookups bc.
Proof. by intros ->. Qed.

Lemma reorg_ok g old new bc : blocks_ok g bc -> stored_block bc old -> stored_block bc new -> booked bc old ->
  exists bc1 bc', recached bc bc1 /\ reorg Hash evict old new bc = Some (None, bc') /\ blocks_ok g bc' /\ rebooked bc1 bc' /\
    genesisHeader (hc bc') = genesisHeader (hc bc) /\ booked bc' new /\ forall n, NumberU64 new < n -> canonical bc' !! n = canonical bc !! n.
Proof.
  intros Hok Ho Hn [Hl HL]. unfold reorg. destruct (split_chains_ok g old new bc Hok Ho Hn) as (lo & ln & c & bc1 & -> & Hr1 & Hok1 & Hso & Hsn & Hc).
  cbn [mbind option_bind]. destruct (stored_block_key _ _ _ Hok Hc) as (_ & Hc0 & _).
  pose proof (segment_linked _ _ _ _ _ Hso Hc0 Hl) as Hlc. pose proof (segment_number _ _ _ _ Hso) as Hlo.
  assert (exact_index (bodies bc) (canonical bc) (NumberU64 c) (delete_lookups (concat (b_txs <$> lo)) (lookups bc))) as HLc.
  { destruct (stored_block_key _ _ _ Hok Ho) as (_ & _ & _ & Hst & _). eapply exact_index_drop; [|exact HL|by eapply (bo_repeats _ _ Hok)|]; [lia|].
    intros t. by eapply segment_txs. }
  exists bc1. rewrite Hr1 in *. set (bc1' := set_blockCache _ bc) in *. clear Hr1.
  assert (segment bc1' new ln c) as Hsn1 by by apply (segment_mono _ bc).
  destruct (insert_blocks_ok g bc1' ln new c Hok1 Hsn1 Hc0 Hlc) as (Hr & Hg & Hl2 & Hsame & HL2). set (bc2 := insert_blocks Hash (rev ln) bc1') in *.
  eexists. split; [done|]. split; [done|]. destruct (stored_block_key _ _ _ Hok Hn) as (_ & _ & _ & Hst & _).
  assert (rebooked bc1' (set_lookups (delete_lookups (TxDifference (concat (b_txs <$> lo)) (concat (b_txs <$> rev ln))) (lookups bc2)) bc2)) as Hr' by (destruct Hr; by split).
  split; [by eapply blocks_ok_rebooked|]. split; [done|]. split; [exact Hg|]. split; [split|].
  - by apply (rebooked_linked _ _ _ _ _ Hr).
  - cbn. rewrite HL2, delete_then_write, (rb_bodies _ _ Hr). change (bodies bc1') with (bodies bc). change (lookups bc1') with (lookups bc).
    apply (write_blocks_exact g bc _ _ c); [done|done|done|exact Hl2|by eapply (bo_repeats _ _ Hok)|].
    eapply exact_index_ext; [|exact HLc]. intros k Hk. apply Hsame. lia.
  - intros n Hlt. apply Hsame. lia.
Qed.

(** * The invariant *)
Record headed bc (T : Z) : Prop := {
  hd_stored : stored_block bc (currentBlock bc);
  hd_head : headBlock bc = b_hash Hash (currentBlock bc);
  hd_booked : booked bc (currentBlock bc);
  hd_td : db_tds (chainDb (hc bc)) !! (b_hash Hash (currentBlock bc), NumberU64 (currentBlock bc)) = Some T;
  hd_heaviest k t : db_tds (chainDb (hc bc)) !! k = Some t -> t <= T }.

Definition blockchain_ok bc : Prop := blocks_ok (genesisHeader (hc bc)) bc /\ exists T, headed bc T.

(** What the rules demand of a block before it is written: of its header; that its
    body is the one the header commits to; and that no transaction is twice in its
    branch. *)
Record block_valid bc (block : Block) : Prop := {
  bv_header : child_ok (hc bc) (b_header block);
  bv_commits : commits (b_header block) (b_txs block) (b_uncles block);
  bv_distinct : NoDup (tx_hashes (b_txs block));
  bv_fresh c t p : linked Hash (chainDb (hc bc)) c (NumberU64 block - 1) (b_parent block) -> t ∈ tx_hashes (b_txs block) ->
    ~ indexed (bodies bc) c (NumberU64 block - 1) t p }.

Lemma blocks_ok_hc g bc h : same_but_caches (hc bc) h -> caches_ok h -> blocks_ok g bc -> blocks_ok g (set_hc h bc).
Proof.
  intros (Hdb & _) Hc [H1 H2 H3 Hcm H4 H5 H6]. split; cbn; rewrite ?Hdb; try done.
  intros h' b [n Hn]%H5. exists n. unfold ReadBlock, ReadHeader in *. cbn. by rewrite Hdb.
Qed.

Lemma headed_hc bc h T : same_but_caches (hc bc) h -> headed bc T -> headed (set_hc h bc) T.
Proof.
  intros (Hdb & _) [H1 H2 H3 H4 H5]. split; try done; unfold stored_block, ReadBlock, ReadHeader, booked in *; cbn; by rewrite Hdb.
Qed.

Lemma bc_GetTd_ok g bc h n : blocks_ok g bc ->
  exists r hc', bc_GetTd evict h n bc = (r, set_hc hc' bc) /\ same_but_caches (hc bc) hc' /\ caches_ok hc' /\
    (forall t, db_tds (chainDb (hc bc)) !! (h, n) = Some t -> r = Some t).
Proof.
  intros Hok. unfold bc_GetTd.
  destruct (GetTd_ok Hash evict Hash_inj evict_subseteq g h n (hc bc) (bo_tree _ _ Hok) (bo_caches _ _ Hok)) as (r & hc' & -> & Hs & Hc & Hr & _).
  by exists r, hc'.
Qed.

(** ** A larger database *)
Lemma linked_restrict g db db' c n h x : tree_ok Hash g db -> db_headers db ⊆ db_headers db' -> stored db h n x -> linked Hash db' c n h -> linked Hash db c n h.
Proof.
  intros Ht Hsub Hx Hl. destruct (tree_key _ _ _ Ht _ _ _ Hx) as (_ & _ & H0 & _). revert n H0 h x Hx Hl.
  refine (natlike_ind _ _ _).
  - intros h x Hx [Hc Hl]. split; [done|]. intros k Hk. assert (k = 0) as -> by lia. exists x.
    destruct (tree_key _ _ _ Ht _ _ _ Hx) as (<- & _). split; [done|]. split; [done|lia].
  - intros n Hn IH h x Hx [Hc Hl]. destruct (tree_key _ _ _ Ht _ _ _ Hx) as (<- & _).
    destruct (tree_parent _ _ _ Ht _ _ _ Hx) as (p & _ & _ & Hp & _); [lia|].
    destruct (Hl (Z.succ n)) as (y & Hy & Hcy & Hpy); [lia|]. assert (y = x) as -> by (apply Hash_inj; congruence).
    replace (Z.succ n - 1) with n in * by lia. apply linked_step; [|done|done]. replace (Z.succ n - 1) with n by lia.
    apply (IH _ p Hp). split; [apply Hpy; lia|]. intros k Hk. apply Hl. lia.
Qed.

Lemma linked_stored db c n h k : linked Hash db c n h -> 0 <= k <= n -> exists x, stored db (Hash x) k x /\ c !! k = Some (Hash x).
Proof. intros [_ Hl] Hk. destruct (Hl k Hk) as (x & Hx & Hc & _). eauto. Qed.

(** Entries of an old chain are not affected by new bodies. *)
Lemma indexed_bodies db c n h B B' t p : linked Hash db c n h -> (forall k v, is_Some (db_headers db !! k) -> B' !! k = Some v <-> B !! k = Some v) ->
  indexed B' c n t p <-> indexed B c n t p.
Proof.
  destruct p as [[h' k] i]. intros Hl HB. unfold indexed. split; intros (Hk & Hc & Hi & txs & us & tx & Hb & Hr).
  all: destruct (linked_stored _ _ _ _ k Hl Hk) as (x & Hx & Hcx); assert (h' = Hash x) as -> by congruence.
  all: apply HB in Hb; [|by eexists]; split; [done|]; split; [done|]; split; [done|]; by exists txs, us, tx.
Qed.

(** ** Writing a block *)
Lemma NumberU64_eq b n : Number (b_header b) = Some n -> 0 <= n -> n + 1 < 2 ^ 64 -> NumberU64 b = n.
Proof. intros Hn H0 H1. unfold NumberU64. rewrite Hn. cbn. unfold Uint64. rewrite Z.abs_eq by done. apply Z.mod_small. lia. Qed.

Section Written.
Context (g : Header) (bc : BlockChain S R) (block : Block) (n d td : Z) (p : Header).
Hypothesis Hok : blocks_ok g bc.
Hypothesis Hv : block_valid bc block.
Hypothesis Hnum : Number (b_header block) = Some n.
Hypothesis Hdiff : Difficulty (b_header block) = Some d.
Hypothesis Hpos : 0 < n.
Hypothesis Hmax : n + 1 < 2 ^ 64.
Hypothesis Hpar : stored (chainDb (hc bc)) (b_parent block) (n - 1) p.
Hypothesis Htd : db_tds (chainDb (hc bc)) !! (b_parent block, n - 1) = Some td.

Definition with_block : BlockChain S R := WriteBlock Hash block (bc_WriteTd evict (b_hash Hash block) (NumberU64 block) (d + td) bc).

Lemma with_block_number : NumberU64 block = n.
Proof. apply NumberU64_eq; [done|lia|done]. Qed.

Lemma with_block_db : chainDb (hc with_block) = write_db Hash (b_header block) n (d + td) (chainDb (hc bc)).
Proof. cbn. by rewrite with_block_number. Qed.

Lemma with_block_subseteq : db_headers (chainDb (hc bc)) ⊆ db_headers (chainDb (hc with_block)) /\ db_tds (chainDb (hc bc)) ⊆ db_tds (chainDb (hc with_block)).
Proof. rewrite with_block_db. by eapply (write_db_subseteq Hash Hash_inj); [apply (bo_tree _ _ Hok)|..]. Qed.

Lemma with_block_bodies k v : is_Some (db_headers (chainDb (hc bc)) !! k) -> bodies with_block !! k = Some v <-> bodies bc !! k = Some v.
Proof.
  intros Hk. pose proof Hk as [[txs us] Hb]%(bo_bodies _ _ Hok). cbn. rewrite lookup_insert. case_decide as E; [|done]. subst k. rewrite Hb.
  destruct Hk as [x Hx], (tree_key _ _ _ (bo_tree _ _ Hok) _ _ _ Hx) as [Ex _]. apply Hash_inj in Ex as ->.
  destruct (bo_commits _ _ Hok _ _ _ _ _ Hx Hb) as [E1 E2], (bv_commits _ _ Hv) as [E3 E4].
  rewrite (DeriveSha_inj txs (b_txs block)), (CalcUncleHash_inj us (b_uncles block)) by congruence. done.
Qed.

Lemma with_block_stored : stored_block with_block block.
Proof.
  unfold stored_block, ReadBlock, ReadHeader. rewrite with_block_db. cbn. rewrite with_block_number, !lookup_insert_eq. cbn. by destruct block.
Qed.

Lemma with_block_Read h k b : ReadBlock bc h k = Some b -> ReadBlock with_block h k = Some b.
Proof.
  intros Hb. destruct (ReadBlock_inv _ _ _ _ Hb) as [Hs Hbd]. unfold ReadBlock, ReadHeader.
  rewrite (lookup_weaken _ _ _ _ Hs (proj1 with_block_subseteq)). cbn [mbind option_bind].
  apply with_block_bodies in Hbd; [|by eexists]. rewrite Hbd. by destruct b.
Qed.

(** No transaction twice in the branch of the new block. *)
Lemma with_block_fresh c : linked Hash (chainDb (hc bc)) c (n - 1) (b_parent block) -> c !! n = Some (b_hash Hash block) -> no_repeats (bodies with_block) c n.
Proof.
  intros Hl Hc t q r Hq Hr. pose proof (bo_repeats _ _ Hok _ _ _ _ Hpar Hl) as Hold.
  assert (forall x, indexed (bodies with_block) c n t x -> indexed (bodies bc) c (n - 1) t x \/
    t ∈ tx_hashes (b_txs block) /\ exists j tx, x = (b_hash Hash block, n, Z.of_nat j) /\ b_txs block !! j = Some tx /\ TxSorted.TxHash tx = t) as Hcase.
  { intros [[h k] i] (Hk & Hck & Hi & txs & us & tx & Hb & Htx & Et). destruct (decide (k = n)) as [->|Hne].
    - right. assert (h = b_hash Hash block) as -> by congruence. cbn in Hb. rewrite with_block_number, lookup_insert_eq in Hb. injection Hb as <- <-.
      split; [apply tx_hashes_lookup; eauto|]. exists (Z.to_nat i), tx. split; [by rewrite Z2Nat.id|done].
    - left. apply (indexed_bodies _ _ _ _ _ (bodies with_block) _ _ Hl with_block_bodies). split; [lia|]. split; [done|]. split; [done|]. by exists txs, us, tx. }
  assert (forall x, t ∈ tx_hashes (b_txs block) -> ~ indexed (bodies bc) c (n - 1) t x) as Hfresh.
  { intros x Ht. pose proof (bv_fresh _ _ Hv c t x) as Hf. rewrite with_block_number in Hf. by apply Hf. }
  destruct (Hcase q Hq) as [Hq'|(Ht & j & tx & -> & Hj & Ej)], (Hcase r Hr) as [Hr'|(Ht' & j' & tx' & -> & Hj' & Ej')].
  - by apply (Hold t).
  - by destruct (Hfresh q).
  - by destruct (Hfresh r).
  - assert (j = j') as ->; [|done]. apply (NoDup_lookup (tx_hashes (b_txs block)) j j' t (bv_distinct _ _ Hv)); unfold tx_hashes; rewrite list_lookup_fmap; [by rewrite Hj, <- Ej|by rewrite Hj', <- Ej'].
Qed.

Lemma with_block_repeats h k x c : stored (chainDb (hc with_block)) h k x -> linked Hash (chainDb (hc with_block)) c k h -> no_repeats (bodies with_block) c k.
Proof.
  intros Hs Hl. destruct (with_block_subseteq) as [Hsub _]. pose proof (bo_tree _ _ Hok) as Ht.
  destruct (decide (is_Some (db_headers (chainDb (hc bc)) !! (h, k)))) as [[y Hy]|Hn].
  - pose proof (linked_restrict _ _ _ _ _ _ _ Ht Hsub Hy Hl) as Hl'. intros t q r Hq Hr.
    apply (indexed_bodies _ _ _ _ (bodies bc) _ _ _ Hl' with_block_bodies) in Hq, Hr. by apply (bo_repeats _ _ Hok _ _ _ _ Hy Hl' t).
  - assert (h = b_hash Hash block /\ k = n /\ x = b_header block) as (-> & -> & ->).
    { unfold stored in Hs. rewrite with_block_db in Hs. cbn in Hs. rewrite lookup_insert in Hs. case_decide as E; [by simplify_eq|]. destruct Hn. eauto. }
    apply with_block_fresh; [|apply Hl]. apply (linked_restrict _ _ _ _ _ _ _ Ht Hsub Hpar).
    pose proof with_block_number as En. destruct Hl as [Hc Hl]. destruct (Hl n) as (y & _ & Hcy & Hpy); [lia|].
    assert (y = b_header block) as -> by (apply Hash_inj; unfold b_hash in Hc; congruence). split; [apply Hpy; lia|]. intros j Hj. apply Hl. lia.
Qed.

Lemma with_block_ok : blocks_ok g with_block.
Proof.
  destruct with_block_subseteq as [Hsub Hsubt]. pose proof (bo_tree _ _ Hok) as Ht.
  assert (tree_ok Hash g (chainDb (hc with_block))) as Ht' by (rewrite with_block_db; by eapply (write_db_ok Hash Hash_inj)).
  split.
  - exact Ht'.
  - refine (caches_written evict evict_subseteq (hc bc) (chainDb (hc with_block)) (b_hash Hash block) (d + td) Hsub Hsubt _ _ (bo_caches _ _ Hok)).
    + intros h k Hk. apply (tree_number _ _ _ Ht) in Hk as [x Hx]. apply (tree_number _ _ _ Ht'). exists x. exact (lookup_weaken _ _ _ _ Hx Hsub).
    + exists n. rewrite with_block_db. apply lookup_insert_eq.
  - intros k. rewrite with_block_db. cbn. unfold b_hash. rewrite with_block_number, !lookup_insert. case_decide; [by split; eauto|apply (bo_bodies _ _ Hok)].
  - intros h k x txs us. unfold stored. rewrite with_block_db. cbn. unfold b_hash. rewrite with_block_number, !lookup_insert.
    case_decide; [intros [= <-] [= <- <-]; apply (bv_commits _ _ Hv)|apply (bo_commits _ _ Hok)].
  - destruct (bo_genesis _ _ Hok) as [us Hus]. exists us. apply with_block_bodies; [|done]. eexists. apply (tree_genesis _ _ _ Ht).
  - intros h b [k Hk]%(bo_blockCache _ _ Hok). exists k. by apply with_block_Read.
  - exact with_block_repeats.
Qed.

(** The books of an old head are still those of its chain. *)
Lemma with_block_booked b : stored_block bc b -> booked bc b -> booked with_block b.
Proof.
  intros Hb [Hl HL]. split; [exact (linked_db _ _ _ _ _ _ Hl (proj1 with_block_subseteq))|].
  intros t q. change (lookups with_block) with (lookups bc). rewrite (HL t q). symmetry. by apply (indexed_bodies _ _ _ _ _ _ _ _ Hl), with_block_bodies.
Qed.
End Written.

(** ** What other fields do not matter *)
Lemma blocks_ok_transfer g bc bc' : chainDb (hc bc') = chainDb (hc bc) -> caches_ok (hc bc') -> bodies bc' = bodies bc -> blockCache bc' = blockCache bc ->
  blocks_ok g bc -> blocks_ok g bc'.
Proof.
  intros Hdb Hc Hb Hbc [H1 H2 H3 Hcm H4 H5 H6]. split; rewrite ?Hdb, ?Hb, ?Hbc; try done.
  intros h b [n Hn]%H5. exists n. unfold ReadBlock in *. by rewrite Hdb, Hb.
Qed.

Lemma stored_block_transfer bc bc' b : chainDb (hc bc') = chainDb (hc bc) -> bodies bc' = bodies bc -> stored_block bc b -> stored_block bc' b.
Proof. intros Hdb Hb. unfold stored_block, ReadBlock. by rewrite Hdb, Hb. Qed.

Lemma booked_transfer bc bc' b : chainDb (hc bc') = chainDb (hc bc) -> bodies bc' = bodies bc -> lookups bc' = lookups bc -> booked bc b -> booked bc' b.
Proof. intros Hdb Hb Hl. unfold booked. by rewrite Hdb, Hb, Hl. Qed.

Context (Commit : Block -> S -> option (Z * S)) (archive : bool) (collect : Z -> gmap Z S -> gmap Z S) (shouldPreserve : option (Block -> bool)).

Lemma store_state_ok g block root s cur bc : blocks_ok g bc -> booked bc cur -> 0 <= NumberU64 block -> (archive = true \/ NumberU64 block <= NumberU64 cur + triesInMemory) ->
  exists bc', store_state evict archive collect block root s bc = Some bc' /\ blocks_ok g bc' /\
    chainDb (hc bc') = chainDb (hc bc) /\ genesisHeader (hc bc') = genesisHeader (hc bc) /\ bodies bc' = bodies bc /\ lookups bc' = lookups bc /\
    headBlock bc' = headBlock bc /\ currentBlock bc' = currentBlock bc.
Proof.
  intros Hok [Hl _] Hn Hw. unfold store_state. destruct archive.
  { eexists. split; [done|]. split; [by apply (blocks_ok_transfer g bc); [..|apply (bo_caches _ _ Hok)|done|done|]|done]. }
  destruct (NumberU64 block <=? triesInMemory) eqn:Hle.
  { eexists. split; [done|]. split; [by apply (blocks_ok_transfer g bc); [..|apply (bo_caches _ _ Hok)|done|done|]|done]. }
  destruct Hw as [|Hw]; [done|]. destruct (linked_stored _ _ _ _ (NumberU64 block - triesInMemory) Hl) as (x & Hx & Hc); [lia|].
  unfold bc_GetHeaderByNumber, GetHeaderByNumber, ReadCanonicalHash. rewrite Hc. unfold default, from_option, id.
  replace (Hash x =? 0) with false by (pose proof (Hash_nonzero x); lia).
  destruct (GetHeader_ok Hash evict Hash_inj evict_subseteq g (Hash x) (NumberU64 block - triesInMemory) (hc bc) (bo_tree _ _ Hok) (bo_caches _ _ Hok)) as (r & h & Heq & (Hdb & Hg & _) & Hch & Hr & _).
  rewrite Heq, (Hr x Hx). cbn [mbind option_bind]. rewrite (number_u64_stored Hash _ _ _ _ _ (bo_tree _ _ Hok) Hx). cbn [mbind option_bind].
  eexists. split; [done|]. split; [by apply (blocks_ok_transfer g bc)|]. done.
Qed.

(** The end of a write that makes the block the head. *)
Definition book_head (block : Block) (rs : list R) bc : BlockChain S R :=
  let bc := insert_head Hash block (WriteTxLookupEntries Hash block (set_receipts (<[(b_hash Hash block, NumberU64 block) := rs]> (receipts bc)) bc)) in
  set_future (delete (b_hash Hash block) (futureBlocks bc)) bc.

Lemma book_head_eq block rs bc : let bc' := book_head block rs bc in
  rebooked bc bc' /\ canonical bc' = <[NumberU64 block := b_hash Hash block]> (canonical bc) /\
  lookups bc' = write_lookups (b_hash Hash block) (NumberU64 block) 0 (b_txs block) (lookups bc) /\
  headBlock bc' = b_hash Hash block /\ currentBlock bc' = block /\ genesisHeader (hc bc') = genesisHeader (hc bc).
Proof. unfold book_head, insert_head. case_if; by repeat split. Qed.

(** On top of the head. *)
Lemma book_head_child g block rs cur bc : blocks_ok g bc -> stored_block bc block -> 0 < NumberU64 block ->
  b_hash Hash cur = b_parent block -> NumberU64 cur = NumberU64 block - 1 -> booked bc cur -> booked (book_head block rs bc) block.
Proof.
  intros Hok Hb Hpos Eh En [Hl HL]. destruct (book_head_eq block rs bc) as (Hr & Hc & HLk & _). destruct (stored_block_key _ _ _ Hok Hb) as (_ & _ & _ & Hst & Hbd).
  assert (linked Hash (chainDb (hc bc)) (canonical (book_head block rs bc)) (NumberU64 block) (b_hash Hash block)) as Hl'.
  { rewrite Hc. apply linked_step; [|done|apply lookup_insert_eq]. rewrite <- En. unfold b_parent in Eh. rewrite <- Eh.
    eapply linked_ext; [exact Hl|lia|]. intros k Hk. apply lookup_insert_ne. lia. }
  split; [by apply (rebooked_linked _ _ _ _ _ Hr)|]. rewrite (rb_bodies _ _ Hr), HLk.
  eapply exact_index_step; [lia| |apply Hl'|exact Hbd|by eapply (bo_repeats _ _ Hok)]. rewrite <- En.
  eapply exact_index_ext; [|exact HL]. intros k Hk. rewrite Hc. apply lookup_insert_ne. lia.
Qed.

(** Writing the entries of the head again changes nothing. *)
Lemma book_head_again g block rs bc : blocks_ok g bc -> stored_block bc block -> booked bc block -> booked (book_head block rs bc) block.
Proof.
  intros Hok Hb [Hl HL]. destruct (book_head_eq block rs bc) as (Hr & Hc & HLk & _). destruct (stored_block_key _ _ _ Hok Hb) as (_ & H0 & _ & Hst & Hbd).
  rewrite insert_id in Hc by apply Hl. split; [apply (rebooked_linked _ _ _ _ _ Hr); by rewrite Hc|].
  rewrite (rb_bodies _ _ Hr), HLk, Hc. intros t q. rewrite <- (HL t q). destruct (decide (t ∈ tx_hashes (b_txs block))) as [Ht|Ht]; [|by rewrite write_lookups_other].
  pose proof (bo_repeats _ _ Hok _ _ _ _ Hst Hl) as Hn. rewrite write_lookups_entry by (done || by eapply no_repeats_NoDup; [..|apply Hl|]). rewrite (HL t q). split.
  - intros (j & tx & -> & Hj & <-). eapply indexed_top; [done|apply Hl|done|done].
  - intros Hq. apply tx_hashes_lookup in Ht as (j & tx & Hj & <-). exists j, tx. split; [|done]. apply (Hn (TxSorted.TxHash tx)); [done|].
    eapply indexed_top; [done|apply Hl|done|done].
Qed.

(** What a write does, by its error. *)
Definition wrote bc (block : Block) (status : WriteStatus) (err : option InsertError) bc' : Prop :=
  genesisHeader (hc bc') = genesisHeader (hc bc) /\ (forall b, stored_block bc b -> stored_block bc' b) /\
  match err with
  | Some e => e = EUnknownAncestor /\ status = NonStatTy /\ (forall m p, ~ stored (chainDb (hc bc)) (b_parent block) m p) /\
      chainDb (hc bc') = chainDb (hc bc) /\ bodies bc' = bodies bc /\ lookups bc' = lookups bc /\ currentBlock bc' = currentBlock bc
  | None => stored_block bc' block /\
      (status = CanonStatTy /\ currentBlock bc' = block /\ (forall k, NumberU64 block < k -> canonical bc' !! k = canonical bc !! k) \/
       status = SideStatTy /\ currentBlock bc' = currentBlock bc /\ canonical bc' = canonical bc)
  end.

(** The choice, once the block and its state are stored. *)
Definition choose_head (coin : bool) (block current : Block) (externTd localTd : Z) (rs : list R) bc : option (WriteStatus * option InsertError * BlockChain S R) :=
  if prefer shouldPreserve coin externTd localTd block current then
    '(err, bc) ← (if negb (b_parent block =? b_hash Hash current) then reorg Hash evict current block bc else Some (None, bc));
    match err with
    | Some e => Some (NonStatTy, Some e, bc)
    | None => Some (CanonStatTy, None, book_head block rs bc)
    end
  else Some (SideStatTy, None, set_future (delete (b_hash Hash block) (futureBlocks (set_receipts (<[(b_hash Hash block, NumberU64 block) := rs]> (receipts bc)) bc)))
    (set_receipts (<[(b_hash Hash block, NumberU64 block) := rs]> (receipts bc)) bc)).

Lemma prefer_true coin t T block cur : prefer shouldPreserve coin t T block cur = true -> T <= t.
Proof. unfold prefer. repeat case_if; lia || done. Qed.

Lemma prefer_false coin t T block cur : prefer shouldPreserve coin t T block cur = false -> t <= T.
Proof. unfold prefer. repeat case_if; lia || done. Qed.

(** The new head, whether it is on top of the old one or not. *)
Lemma new_head_ok g block rs bc : blocks_ok g bc -> stored_block bc block -> 0 < NumberU64 block -> stored_block bc (currentBlock bc) -> booked bc (currentBlock bc) ->
  exists bc1, (if negb (b_parent block =? b_hash Hash (currentBlock bc)) then reorg Hash evict (currentBlock bc) block bc else Some (None, bc)) = Some (None, bc1) /\
    let bc' := book_head block rs bc1 in
    blocks_ok g bc' /\ booked bc' block /\ db_headers (chainDb (hc bc')) = db_headers (chainDb (hc bc)) /\ db_tds (chainDb (hc bc')) = db_tds (chainDb (hc bc)) /\ bodies bc' = bodies bc /\
    genesisHeader (hc bc') = genesisHeader (hc bc) /\ forall k, NumberU64 block < k -> canonical bc' !! k = canonical bc !! k.
Proof.
  intros Hok Hb Hpos Hcs Hcur. destruct (b_parent block =? b_hash Hash (currentBlock bc)) eqn:E; cbn [negb].
  - exists bc. split; [done|]. destruct (book_head_eq block rs bc) as (Hr & Hc & _ & _ & _ & Hg).
    destruct (GetBlock_parent g bc block Hok Hb Hpos) as (p & _ & _ & _ & _ & Hp & Eh & En).
    assert (p = currentBlock bc) as -> by (apply (same_hash g bc); [done|done|done|lia]).
    split; [exact (blocks_ok_rebooked _ _ _ Hr Hok)|]. split; [by eapply book_head_child|]. split; [apply Hr|]. split; [apply Hr|]. split; [apply Hr|]. split; [done|].
    intros k Hk. rewrite Hc. apply lookup_insert_ne. lia.
  - destruct (reorg_ok g (currentBlock bc) block bc Hok Hcs Hb Hcur) as (bc0 & bc1 & Hr0 & -> & Hok1 & Hr1 & Hg1 & Hb1 & Hab).
    exists bc1. split; [done|]. destruct (book_head_eq block rs bc1) as (Hr & Hc & _ & _ & _ & Hg).
    assert (stored_block bc1 block) as Hsb by (unfold stored_block; rewrite (rebooked_ReadBlock _ _ _ _ Hr1), Hr0; exact Hb).
    pose proof (rebooked_trans _ _ _ Hr1 Hr) as Hr2. rewrite Hr0 in Hr2.
    split; [exact (blocks_ok_rebooked _ _ _ Hr Hok1)|]. split; [exact (book_head_again g block rs bc1 Hok1 Hsb Hb1)|]. split; [apply Hr2|]. split; [apply Hr2|]. split; [apply Hr2|]. split; [congruence|].
    intros k Hk. rewrite Hc, lookup_insert_ne by lia. by apply Hab.
Qed.

Lemma choose_head_ok coin block t T rs bc : blocks_ok (genesisHeader (hc bc)) bc -> stored_block bc block -> 0 < NumberU64 block ->
  stored_block bc (currentBlock bc) -> headBlock bc = b_hash Hash (currentBlock bc) -> booked bc (currentBlock bc) ->
  db_tds (chainDb (hc bc)) !! (b_hash Hash (currentBlock bc), NumberU64 (currentBlock bc)) = Some T ->
  db_tds (chainDb (hc bc)) !! (b_hash Hash block, NumberU64 block) = Some t -> (forall k u, db_tds (chainDb (hc bc)) !! k = Some u -> u <= T \/ u = t) ->
  exists status bc', choose_head coin block (currentBlock bc) t T rs bc = Some (status, None, bc') /\ blockchain_ok bc' /\ wrote bc block status None bc'.
Proof.
  intros Hok Hb Hpos Hcs Hhb Hcur HT Ht Hmax. unfold choose_head. destruct (prefer _ _ _ _ _ _) eqn:Hp.
  - apply prefer_true in Hp. destruct (new_head_ok _ block rs bc Hok Hb Hpos Hcs Hcur) as (bc1 & -> & Hok' & Hb' & Hh & Htd & Hbd & Hg & Hab).
    destruct (book_head_eq block rs bc1) as (_ & _ & _ & Hhead & Hc' & _). set (bc' := book_head block rs bc1) in *. exists CanonStatTy, bc'. split; [done|].
    assert (stored_block bc' block) as Hsb by (unfold stored_block, ReadBlock, ReadHeader; rewrite Hh, Hbd; exact Hb).
    split; [|split; [done|split; [|split; [done|by left]]]]; [|intros b; unfold stored_block, ReadBlock, ReadHeader; by rewrite Hh, Hbd]. split; [by rewrite Hg|]. exists t. split; rewrite ?Hc', ?Htd; try done.
    intros k u Hu. destruct (Hmax k u Hu); lia.
  - apply prefer_false in Hp. eexists _, _. split; [done|]. split; [|split; [done|split; [done|split; [done|by right]]]].
    split; [by apply (blocks_ok_transfer _ bc); [..|apply (bo_caches _ _ Hok)|done|done|]|]. exists T. split; try done.
    intros k u Hu. destruct (Hmax k u Hu); lia.
Qed.

Lemma writeBlock_ok coin block rs s root s' bc :
  blockchain_ok bc -> block_valid bc block -> Commit block s = Some (root, s') ->
  (archive = true \/ NumberU64 block <= NumberU64 (currentBlock bc) + triesInMemory) ->
  exists status err bc', writeBlockWithState Hash evict Commit archive collect shouldPreserve coin block rs s bc = Some (status, err, bc') /\
    blockchain_ok bc' /\ wrote bc block status err bc'.
Proof.
  intros (Hok & T & [Hcs Hhb Hbk HT Hmax]) Hv Hcommit Hw. pose proof (bv_header _ _ Hv) as (n & d & Hnum & Hd & H0 & H1 & Hpar).
  pose proof (NumberU64_eq _ _ Hnum H0 H1) as En. unfold writeBlockWithState, bc_GetTd at 1. rewrite En.
  destruct (parent_td Hash evict Hash_inj evict_subseteq _ (hc bc) (b_header block) n (bo_tree _ _ Hok) (bo_caches _ _ Hok) Hnum H0 H1 Hpar) as (r & h1 & Heq1 & Hs1 & Hc1 & Hr).
  change (ParentHash (b_header block)) with (b_parent block) in *. rewrite Heq1. pose proof Hs1 as (Hdb1 & Hg1 & _). destruct r as [ptd|].
  2: { exists NonStatTy, (Some EUnknownAncestor), (set_hc h1 bc). split; [done|]. split; [|split; [done|split; [|by repeat split]]; intros b; by apply stored_block_transfer].
    split; [cbn; rewrite Hg1; by apply blocks_ok_hc|]. exists T. by apply headed_hc. }
  destruct Hr as (Hpos & Hptd & p & Hp). cbv beta iota zeta. set (bc1 := set_hc h1 bc) in *. change (currentBlock bc1) with (currentBlock bc).
  assert (blocks_ok (genesisHeader (hc bc)) bc1) as Hok1 by by apply blocks_ok_hc.
  destruct (bc_GetTd_ok _ bc1 (b_hash Hash (currentBlock bc)) (NumberU64 (currentBlock bc)) Hok1) as (r & h2 & -> & Hs2 & Hc2 & Hr2).
  rewrite (Hr2 T) by (cbn; by rewrite Hdb1). pose proof Hs2 as (Hdb2 & Hg2 & _). set (bc2 := set_hc h2 bc1) in *.
  assert (blocks_ok (genesisHeader (hc bc)) bc2) as Hok2 by by apply blocks_ok_hc. assert (chainDb (hc bc2) = chainDb (hc bc)) as Edb by (cbn in *; congruence).
  assert (block_valid bc2 block) as Hv2 by (destruct Hv; split; unfold child_ok in *; rewrite ?Edb; done).
  assert (b_difficulty block = d) as -> by (unfold b_difficulty; by rewrite Hd). rewrite <- En.
  change (WriteBlock Hash block (bc_WriteTd evict (b_hash Hash block) (NumberU64 block) (d + ptd) bc2)) with (with_block bc2 block d ptd).
  assert (stored (chainDb (hc bc2)) (b_parent block) (n - 1) p) as Hp2 by (rewrite Edb; exact Hp).
  assert (db_tds (chainDb (hc bc2)) !! (b_parent block, n - 1) = Some ptd) as Hptd2 by (rewrite Edb; exact Hptd).
  pose proof (with_block_ok _ bc2 block n d ptd p Hok2 Hv2 Hnum Hd Hpos H1 Hp2 Hptd2) as Hok3. pose proof (with_block_stored bc2 block n d ptd p Hv2 Hnum Hd Hpos H1 Hp2 Hptd2) as Hb3.
  destruct (with_block_subseteq _ bc2 block n d ptd p Hok2 Hnum Hd Hpos H1 Hp2 Hptd2) as [_ Hsub].
  assert (forall b, stored_block bc2 b -> stored_block (with_block bc2 block d ptd) b) as Hmono3 by (intros b Hb; by eapply (with_block_Read _ bc2)).
  assert (stored_block (with_block bc2 block d ptd) (currentBlock bc)) as Hcs3 by by apply Hmono3, (stored_block_transfer bc).
  assert (booked (with_block bc2 block d ptd) (currentBlock bc)) as Hbk3.
  { eapply (with_block_booked _ bc2); try done; [by apply (stored_block_transfer bc)|by apply (booked_transfer bc)]. }
  pose proof (with_block_db bc2 block n d ptd Hnum Hpos H1) as Edb3. rewrite Edb in Edb3. set (bc3 := with_block bc2 block d ptd) in *. rewrite Hcommit.
  destruct (store_state_ok _ block root s' (currentBlock bc) bc3 Hok3 Hbk3 ltac:(lia) Hw) as (bc4 & -> & Hok4 & E1 & E2 & E3 & E4 & E5 & E6).
  cbn [mbind option_bind]. assert (genesisHeader (hc bc4) = genesisHeader (hc bc)) as Eg by (rewrite E2; cbn in *; congruence).
  change (currentBlock bc3) with (currentBlock bc) in E6.
  destruct (choose_head_ok coin block (d + ptd) T rs bc4) as (status & bc' & Heq & Hok' & Hwr); rewrite ?Eg, ?E6, ?E1; try done.
  - by apply (stored_block_transfer bc3).
  - lia.
  - by apply (stored_block_transfer bc3).
  - rewrite E5. exact Hhb.
  - by apply (booked_transfer bc3).
  - rewrite <- Edb in HT. exact (lookup_weaken _ _ _ _ HT Hsub).
  - rewrite Edb3, En. apply lookup_insert_eq.
  - intros k u. rewrite Edb3. cbn. rewrite lookup_insert. case_decide; [intros [= <-]; by right|]. intros Hu. left. by eapply Hmax.
  - rewrite E6 in Heq. exists status, None, bc'. split; [exact Heq|]. split; [done|]. destruct Hwr as (Hg' & Hmono & Hst & Hcan). split; [congruence|].
    split; [intros b Hb; by apply Hmono, (stored_block_transfer bc3), Hmono3, (stored_block_transfer bc)|]. split; [done|].
    assert (canonical bc4 = canonical bc) as Ec by by rewrite E1, Edb3. rewrite Ec, E6 in Hcan. done.
Qed.
End Blocks.
