(* ===== verification/BlockChainImport.v ===== *)
(** Importing blocks: [InsertChain] of core/blockchain.go keeps the books of
    BlockChainCorrect.  Then what goes wrong: numbers that stay assigned above a
    lower head, a side block far above the head, a side chain of one block. *)
From stdpp Require Import gmap.
From S2P Require Import Prelude GoMath TxSorted BlockHeader HeaderChain HeaderChainCorrect HeaderChainRewind TxPoolReorg BlockChain BlockChainCorrect.

Section Importing.
Context {S R : Type} (Hash : Header -> Z) (evict : forall A, gmap Z A -> gmap Z A).
Hypothesis Hash_inj : forall x y, Hash x = Hash y -> x = y.
Hypothesis Hash_nonzero : forall x, Hash x <> 0.
Hypothesis evict_subseteq : forall A (c : gmap Z A), evict A c ⊆ c.
Context (CalcUncleHash : list Header -> Z) (DeriveSha : list Transaction -> Z).
Hypothesis CalcUncleHash_inj : forall x y, CalcUncleHash x = CalcUncleHash y -> x = y.
Hypothesis DeriveSha_inj : forall x y, DeriveSha x = DeriveSha y -> x = y.
Context (Commit : Block -> S -> option (Z * S)) (archive : bool) (collect : Z -> gmap Z S -> gmap Z S) (shouldPreserve : option (Block -> bool)).
Context (VerifyHeaders : BlockChain S R -> list Header -> list bool -> Z -> option InsertError).
Context (VerifyUncles : BlockChain S R -> Block -> option InsertError).
Context (Process : Block -> S -> InsertError + (list R * Z * S)).
Context (ValidateState : Block -> Block -> S -> list R -> Z -> option InsertError * S).
Context (BadHashes : gset Z) (Size : Block -> Z) (now : Z) (interrupted coin : Z -> bool).
Implicit Types bc : BlockChain S R.

Abbreviation canonical bc := (db_canonical (chainDb (hc bc))).
Abbreviation bok := (blocks_ok Hash CalcUncleHash DeriveSha).
Abbreviation cok := (blockchain_ok Hash CalcUncleHash DeriveSha).

(** * Reading keeps the books *)

(** Nothing that the books are about differs. *)
Definition aside bc bc' : Prop :=
  chainDb (hc bc') = chainDb (hc bc) /\ genesisHeader (hc bc') = genesisHeader (hc bc) /\ bodies bc' = bodies bc /\ lookups bc' = lookups bc /\
  headBlock bc' = headBlock bc /\ currentBlock bc' = currentBlock bc.

Lemma aside_trans bc1 bc2 bc3 : aside bc1 bc2 -> aside bc2 bc3 -> aside bc1 bc3.
Proof. intros (?&?&?&?&?&?) (?&?&?&?&?&?). repeat split; congruence. Qed.

Lemma aside_recached bc bc' : recached bc bc' -> aside bc bc'.
Proof. by intros ->. Qed.

Lemma cok_aside bc bc' : cok bc -> aside bc bc' -> bok (genesisHeader (hc bc')) bc' -> cok bc'.
Proof.
  intros (_ & T & [H1 H2 H3 H4 H5]) (Hdb & Hg & Hb & Hl & Hh & Hc) Hok. split; [done|]. exists T. split; rewrite ?Hdb, ?Hh, ?Hc; try done.
  - by apply (stored_block_transfer Hash bc).
  - by apply (booked_transfer Hash bc).
Qed.

Lemma GetBlock_total g h n bc : bok g bc ->
  exists r bc', GetBlock Hash evict h n bc = (r, bc') /\ recached bc bc' /\ bok g bc' /\ (forall b, r = Some b -> exists m, ReadBlock bc h m = Some b).
Proof.
  intros Hok. unfold GetBlock. destruct (blockCache bc !! h) as [b|] eqn:Hc.
  { exists (Some b), bc. split; [done|]. split; [by destruct bc|]. split; [done|]. intros b' [= <-]. exact (bo_blockCache _ _ _ _ _ Hok _ _ Hc). }
  destruct (ReadBlock bc h n) as [b|] eqn:Hr.
  - destruct (GetBlock_ok Hash evict Hash_inj evict_subseteq CalcUncleHash DeriveSha g bc h n b Hok Hr) as (bc' & Heq & Hre & Hok').
    unfold GetBlock in Heq. rewrite Hc, Hr in Heq. injection Heq as Heq. rewrite Heq. exists (Some b), bc'. repeat (split; [done|]). intros b' [= <-]. eauto.
  - exists None, bc. split; [done|]. split; [by destruct bc|]. done.
Qed.

Lemma HasBlockAndState_total g h n bc : bok g bc ->
  exists r bc', HasBlockAndState Hash evict h n bc = (r, bc') /\ recached bc bc' /\ bok g bc' /\ (r = true -> exists m b, ReadBlock bc h m = Some b).
Proof.
  intros Hok. unfold HasBlockAndState. destruct (GetBlock_total g h n bc Hok) as ([b|] & bc' & -> & Hr & Hok' & Hb).
  - exists (HasState (b_root b) bc'), bc'. repeat (split; [done|]). intros _. destruct (Hb b eq_refl) as [m Hm]. eauto.
  - by exists false, bc'.
Qed.

Lemma ValidateBody_total g block bc : bok g bc ->
  exists e bc', ValidateBody Hash evict VerifyUncles CalcUncleHash DeriveSha block bc = (e, bc') /\ recached bc bc' /\ bok g bc' /\
    (e = None -> commits CalcUncleHash DeriveSha (b_header block) (b_txs block) (b_uncles block) /\ exists m p, ReadBlock bc (b_parent block) m = Some p).
Proof.
  intros Hok. unfold ValidateBody. destruct (HasBlockAndState_total g (b_hash Hash block) (NumberU64 block) bc Hok) as (r & bc1 & -> & Hr1 & Hok1 & _).
  destruct r; [by exists (Some EKnownBlock), bc1|]. destruct (VerifyUncles bc1 block) as [e|]; [by exists (Some e), bc1|].
  destruct (CalcUncleHash (b_uncles block) =? UncleHash (b_header block)) eqn:Hu; cbn [negb]; [|by exists (Some EUncleRoot), bc1].
  destruct (DeriveSha (b_txs block) =? BlockHeader.TxHash (b_header block)) eqn:Ht; cbn [negb]; [|by exists (Some ETxRoot), bc1].
  destruct (HasBlockAndState_total g (b_parent block) (u64 (NumberU64 block - 1)) bc1 Hok1) as (r & bc2 & -> & Hr2 & Hok2 & Hp).
  pose proof (recached_trans _ _ _ Hr1 Hr2) as Hr. destruct r.
  - exists None, bc2. repeat (split; [done|]). intros _. split; [split; lia|]. destruct (Hp eq_refl) as (m & b & Hb). exists m, b. by rewrite Hr1 in Hb.
  - destruct (HasBlock _ _ _); cbn [negb]; eexists _, bc2; done.
Qed.

Lemma next_error_total g results i block bc : bok g bc ->
  exists e bc', next_error Hash evict VerifyUncles CalcUncleHash DeriveSha results i block bc = (e, bc') /\ recached bc bc' /\ bok g bc' /\
    (e = None -> commits CalcUncleHash DeriveSha (b_header block) (b_txs block) (b_uncles block) /\ exists m p, ReadBlock bc (b_parent block) m = Some p).
Proof.
  intros Hok. unfold next_error. destruct (results i) as [e|]; [|by apply ValidateBody_total]. exists (Some e), bc. split; [done|]. split; [by destruct bc|]. done.
Qed.

(** * The queue *)
Lemma cok_recached bc bc' : cok bc -> recached bc bc' -> bok (genesisHeader (hc bc)) bc' -> cok bc'.
Proof. intros Hok Hr Hb. apply (cok_aside bc); [done|by apply aside_recached|]. by rewrite (proj1 (proj2 (aside_recached _ _ Hr))). Qed.

(** A field that the books do not mention. *)
Lemma cok_other bc bc' : cok bc -> hc bc' = hc bc -> blockCache bc' = blockCache bc -> aside bc bc' -> cok bc'.
Proof.
  intros Hok Hh Hbc Ha. pose proof Ha as (Hdb & Hg & Hb & _). apply (cok_aside bc); [done..|]. rewrite Hg.
  apply (blocks_ok_transfer Hash CalcUncleHash DeriveSha _ bc); [done|rewrite Hh; apply Hok|done|done|apply Hok].
Qed.

Lemma addFutureBlock_total block bc : cok bc -> exists e bc', addFutureBlock Hash evict now block bc = (e, bc') /\ cok bc' /\ aside bc bc'.
Proof.
  intros Hok. unfold addFutureBlock. case_if; eexists _, _; (split; [done|]); [done|]. split; [by apply (cok_other bc)|done].
Qed.

Lemma queue_future_total results rest i block err bc : cok bc ->
  exists i' e bc', queue_future Hash evict VerifyUncles CalcUncleHash DeriveSha now results rest i block err bc = (i', e, bc') /\ cok bc' /\ aside bc bc'.
Proof.
  induction rest as [|b rest IH] in i, block, err, bc |- *; intros Hok; cbn [queue_future].
  all: destruct ((i =? 0) || is_unknown err); [|by eexists _, _, bc].
  all: destruct (addFutureBlock_total block bc Hok) as ([e|] & bc1 & -> & Hok1 & Ha1); [by eexists _, _, bc1|].
  - by eexists _, _, bc1.
  - destruct (next_error_total _ results (i + 1) b bc1 (proj1 Hok1)) as (e & bc2 & -> & Hr2 & Hok2 & _).
    destruct (IH (i + 1) b e bc2 (cok_recached _ _ Hok1 Hr2 Hok2)) as (i' & e' & bc3 & -> & Hok3 & Ha3). exists i', e', bc3. split; [done|]. split; [done|].
    eapply aside_trans; [exact Ha1|]. eapply aside_trans; [by apply aside_recached|done].
Qed.

Lemma after_import_total results rest i block err bc : cok bc ->
  exists i' e bc', after_import Hash evict VerifyUncles CalcUncleHash DeriveSha now results rest i block err bc = (i', e, bc') /\ cok bc' /\ aside bc bc'.
Proof.
  intros Hok. unfold after_import. destruct err as [[]|]; try by eexists _, _, bc.
  destruct (addFutureBlock_total block bc Hok) as ([e|] & bc1 & -> & Hok1 & Ha1); [by eexists _, _, bc1|]. destruct rest as [|b rest]; [by eexists _, _, bc1|].
  destruct (next_error_total _ results (i + 1) b bc1 (proj1 Hok1)) as (e & bc2 & -> & Hr2 & Hok2 & _).
  destruct (queue_future_total results rest (i + 1) b e bc2 (cok_recached _ _ Hok1 Hr2 Hok2)) as (i' & e' & bc3 & -> & Hok3 & Ha3).
  exists i', e', bc3. split; [done|]. split; [done|]. eapply aside_trans; [exact Ha1|]. eapply aside_trans; [by apply aside_recached|done].
Qed.

(** * The import loop *)

(** A state can be stored. *)
Hypothesis Commit_total : forall block s, is_Some (Commit block s).

(** No transaction is twice in the chain from [first] on, and none of them is in the
    branch of the parent of [first]. *)
Definition chain_fresh bc (first : Block) (rest : list Block) : Prop :=
  NoDup (tx_hashes (concat (b_txs <$> first :: rest))) /\
  forall c t q, linked Hash (chainDb (hc bc)) c (NumberU64 first - 1) (b_parent first) ->
    t ∈ tx_hashes (concat (b_txs <$> first :: rest)) -> ~ indexed (bodies bc) c (NumberU64 first - 1) t q.

(** A block that is stored already comes with the same transactions. *)
Definition same_body bc (b : Block) : Prop := forall m b', ReadBlock bc (b_hash Hash b) m = Some b' -> b_txs b' = b_txs b.

Definition block_formed (b : Block) : Prop := header_formed (b_header b) /\ 0 < b_difficulty b.

Lemma block_formed_number b : block_formed b -> number_u64 (b_header b) = Some (NumberU64 b) /\ 0 <= NumberU64 b /\ NumberU64 b + 1 < 2 ^ 64.
Proof.
  intros [(n & d & t & Hn & _ & _ & H0 & H1) _]. rewrite (NumberU64_eq b n Hn H0 H1). split; [by apply number_u64_formed|done].
Qed.

Lemma contiguous_block b b' rest : block_formed b -> block_formed b' -> contiguous_blocks Hash b (b' :: rest) = true ->
  contiguous Hash (b_header b) [b_header b'] = Some true /\ NumberU64 b' = NumberU64 b + 1 /\ b_parent b' = b_hash Hash b /\ contiguous_blocks Hash b' rest = true.
Proof.
  intros Hb Hb' Hc. destruct (block_formed_number _ Hb) as (E1 & H0 & H1), (block_formed_number _ Hb') as (E2 & _). cbn in Hc. simp_bool.
  assert (u64 (NumberU64 b + 1) = NumberU64 b + 1) as Hu by (apply Z.mod_small; lia).
  split; [|split; [lia|split; [lia|done]]]. cbn. rewrite E1, E2. cbn. rewrite Hu. unfold b_parent, b_hash in *.
  destruct (negb (NumberU64 b' =? NumberU64 b + 1) || negb (ParentHash (b_header b') =? Hash (b_header b))) eqn:E; [lia|done].
Qed.

(** What the loop relies on before a block. *)
Record import_ready (cur0 : Block) (previous : option Block) (block : Block) (err : option InsertError) (rest : list Block) bc : Prop := {
  ir_formed : Forall block_formed (block :: rest);
  ir_contiguous : contiguous_blocks Hash block rest = true;
  ir_child : child_ok (hc bc) (b_header block);
  ir_valid : err = None -> commits CalcUncleHash DeriveSha (b_header block) (b_txs block) (b_uncles block) /\ exists m p, ReadBlock bc (b_parent block) m = Some p;
  ir_fresh : chain_fresh bc block rest;
  ir_previous q : previous = Some q -> b_parent block = b_hash Hash q /\ NumberU64 block = NumberU64 q + 1;
  ir_window : archive = true \/ (currentBlock bc = cur0 \/ previous = Some (currentBlock bc)) /\ Forall (fun b => NumberU64 b <= NumberU64 cur0 + triesInMemory) (block :: rest) }.

Lemma import_ready_number cur0 previous block err rest bc : import_ready cur0 previous block err rest bc ->
  archive = true \/ NumberU64 block <= NumberU64 (currentBlock bc) + triesInMemory.
Proof.
  intros Hr. destruct (ir_window _ _ _ _ _ _ Hr) as [|[[Hc|Hp] Hf]]; [by left|right..].
  - rewrite Hc. exact (Forall_inv Hf).
  - destruct (ir_previous _ _ _ _ _ _ Hr _ Hp) as [_ ->]. unfold triesInMemory. lia.
Qed.

(** The next block, after one that was stored or skipped. *)
Lemma import_ready_next g cur0 previous block err b rest bc bc' e : import_ready cur0 previous block err (b :: rest) bc -> bok g bc' ->
  (currentBlock bc' = currentBlock bc /\ currentBlock bc = cur0 \/ currentBlock bc' = block \/ archive = true) ->
  (e = None -> commits CalcUncleHash DeriveSha (b_header b) (b_txs b) (b_uncles b) /\ exists m p, ReadBlock bc' (b_parent b) m = Some p) ->
  chain_fresh bc' b rest -> import_ready cur0 (Some block) b e rest bc'.
Proof.
  intros [Hf Hc _ _ _ _ Hw] Hok Hcur He Hfr. pose proof (Forall_inv Hf) as Hfb. apply Forall_inv_tail in Hf. pose proof (Forall_inv Hf) as Hfb'.
  destruct (contiguous_block _ _ _ Hfb Hfb' Hc) as (Hcon & En & Ep & Hc'). split; [done|done| |done|done| |].
  - by apply (child_of_previous Hash Hash_inj g (b_header block)); [apply Hok|apply Hfb|apply Hfb'|].
  - intros q [= <-]. done.
  - destruct Hw as [|[_ Hfw]]; [by left|]. apply Forall_inv_tail in Hfw. destruct Hcur as [[E1 E2]|[E|]]; [right|right|by left]; (split; [|done]); [left|right]; congruence.
Qed.

(** A child of the head with a difficulty is heavier. *)
Lemma child_heavier bc block : cok bc -> stored_block Hash bc block -> b_parent block = b_hash Hash (currentBlock bc) -> NumberU64 block = NumberU64 (currentBlock bc) + 1 ->
  block_formed block -> False.
Proof.
  intros (Hok & T & [Hcs _ _ HT Hmax]) Hb Ep En [_ Hd].
  destruct (stored_block_key Hash CalcUncleHash DeriveSha _ _ _ Hok Hb) as (_ & _ & _ & Hs & _). destruct (stored_block_key Hash CalcUncleHash DeriveSha _ _ _ Hok Hcs) as (_ & H0 & _).
  destruct (tree_parent _ _ _ (bo_tree _ _ _ _ _ Hok) _ _ _ Hs ltac:(lia)) as (p & d & td & _ & Hdiff & Htd & Ht).
  change (ParentHash (b_header block)) with (b_parent block) in Htd. rewrite Ep in Htd. replace (NumberU64 block - 1) with (NumberU64 (currentBlock bc)) in Htd by lia.
  pose proof (Hmax _ _ Ht). unfold b_difficulty in Hd. rewrite Hdiff in Hd. cbn in Hd. assert (td = T) by congruence. lia.
Qed.

(** What is left of the old chain by an import. *)
Definition extends bc bc' : Prop := genesisHeader (hc bc') = genesisHeader (hc bc) /\ forall b, stored_block Hash bc b -> stored_block Hash bc' b.

Lemma extends_trans bc1 bc2 bc3 : extends bc1 bc2 -> extends bc2 bc3 -> extends bc1 bc3.
Proof. intros [E1 H1] [E2 H2]. split; [congruence|auto]. Qed.

Lemma extends_aside bc bc' : aside bc bc' -> extends bc bc'.
Proof. intros (Hdb & Hg & Hb & _). split; [done|]. intros b. by apply stored_block_transfer. Qed.

(** What is stored has the same header and the same body later. *)
Lemma extends_tables g bc bc' : bok g bc -> extends bc bc' -> db_headers (chainDb (hc bc)) ⊆ db_headers (chainDb (hc bc')) /\
  forall k v, is_Some (db_headers (chainDb (hc bc)) !! k) -> bodies bc' !! k = Some v <-> bodies bc !! k = Some v.
Proof.
  intros Hok [_ Hx]. assert (forall h n x, stored (chainDb (hc bc)) h n x -> stored (chainDb (hc bc')) h n x /\ exists v, bodies bc !! (h, n) = Some v /\ bodies bc' !! (h, n) = Some v) as Hboth.
  { intros h n x Hs. destruct (proj2 (bo_bodies _ _ _ _ _ Hok (h, n))) as [[txs us] Hb]; [by eexists|].
    assert (ReadBlock bc h n = Some (mkBlock x txs us)) as Hr by (unfold ReadBlock, ReadHeader; rewrite Hs; cbn; by rewrite Hb).
    destruct (ReadBlock_key Hash CalcUncleHash DeriveSha _ _ _ _ _ Hok Hr) as (Eh & En & _ & _ & _ & Hsb). apply Hx in Hsb. unfold stored_block in Hsb.
    rewrite Eh, En in Hsb. apply ReadBlock_inv in Hsb as [Hs' Hb']. split; [done|]. by exists (txs, us). }
  split.
  - apply map_subseteq_spec. intros [h n] x Hs. by apply Hboth.
  - intros [h n] v [x Hs]. destruct (Hboth h n x Hs) as (_ & w & -> & ->). done.
Qed.

(** The rest of the chain after a block that is stored with its transactions. *)
Lemma chain_fresh_next g g' block b rest bc bc' : bok g bc -> bok g' bc' -> extends bc bc' -> chain_fresh bc block (b :: rest) ->
  b_parent b = b_hash Hash block -> NumberU64 b = NumberU64 block + 1 -> 0 <= NumberU64 block ->
  (forall c, 0 < NumberU64 block -> linked Hash (chainDb (hc bc')) c (NumberU64 block - 1) (b_parent block) -> exists x, stored (chainDb (hc bc)) (b_parent block) (NumberU64 block - 1) x) ->
  (forall txs us, bodies bc' !! (b_hash Hash block, NumberU64 block) = Some (txs, us) -> txs = b_txs block) -> chain_fresh bc' b rest.
Proof.
  intros Hok Hok' Hx [Hnd Hf] Ep En H0 Hpar Hbody. destruct (extends_tables _ _ _ Hok Hx) as [Hsub Hsame].
  unfold tx_hashes in *. cbn [fmap list_fmap concat] in *. rewrite fmap_app in Hnd, Hf. apply list.NoDup_app in Hnd as (Hnd1 & Hdis & Hnd2). split; [done|].
  rewrite Ep. replace (NumberU64 b - 1) with (NumberU64 block) by lia. intros c t [[h k] i] [Hc Hl] Ht (Hk & Hck & Hi & txs & us & tx & Hb & Htx & Et).
  destruct (decide (k = NumberU64 block)) as [->|Hne].
  - assert (h = b_hash Hash block) as -> by congruence. pose proof (Hbody _ _ Hb) as ->. apply (Hdis t); [|done]. apply list_elem_of_fmap. exists tx.
    split; [done|by eapply list_elem_of_lookup_2].
  - destruct (Hl (NumberU64 block)) as (y & _ & Hcy & Hpy); [lia|]. assert (y = b_header block) as -> by (apply Hash_inj; unfold b_hash in Hc; congruence).
    assert (linked Hash (chainDb (hc bc')) c (NumberU64 block - 1) (b_parent block)) as Hl' by (split; [apply Hpy; lia|]; intros j Hj; apply Hl; lia).
    destruct (Hpar c ltac:(lia) Hl') as [x Hs]. pose proof (linked_restrict Hash Hash_inj _ _ _ _ _ _ _ (bo_tree _ _ _ _ _ Hok) Hsub Hs Hl') as Hl0.
    apply (Hf c t (h, k, i) Hl0); [apply elem_of_app; by right|]. apply (indexed_bodies Hash _ _ _ _ (bodies bc) (bodies bc') _ _ Hl0 Hsame).
    split; [lia|]. split; [done|]. split; [done|]. by exists txs, us, tx.
Qed.

Abbreviation import := (import_blocks Hash evict Commit archive collect shouldPreserve VerifyUncles CalcUncleHash DeriveSha Process ValidateState BadHashes now interrupted coin).

Lemma import_ready_recached cur0 previous block err rest bc bc' : import_ready cur0 previous block err rest bc -> recached bc bc' -> import_ready cur0 previous block err rest bc'.
Proof. intros [H1 H2 H3 H4 H5 H6 H7] ->. by split. Qed.

(** The parent whose state is taken. *)
Lemma parent_block cur0 previous block rest bc : cok bc -> import_ready cur0 previous block None rest bc ->
  exists p bc', (match previous with Some p => (Some p, bc) | None => GetBlock Hash evict (b_parent block) (u64 (NumberU64 block - 1)) bc end) = (Some p, bc') /\
    recached bc bc' /\ cok bc' /\ b_hash Hash p = b_parent block.
Proof.
  intros Hok Hr. destruct previous as [q|].
  { exists q, bc. split; [done|]. split; [by destruct bc|]. split; [done|]. symmetry. by apply (ir_previous _ _ _ _ _ _ Hr). }
  destruct (ir_valid _ _ _ _ _ _ Hr eq_refl) as (_ & m & p & Hp). pose proof (proj1 Hok) as Hbok.
  destruct (ReadBlock_key Hash CalcUncleHash DeriveSha _ _ _ _ _ Hbok Hp) as (Eh & En & _ & H0 & H1 & _). destruct (ReadBlock_inv _ _ _ _ Hp) as [Hs _].
  destruct (ir_child _ _ _ _ _ _ Hr) as (n & d & Hn & _ & Hn0 & Hn1 & Hpar). pose proof (Hpar m _ Hs) as ->. rewrite (NumberU64_eq block _ Hn Hn0 Hn1).
  assert (u64 (m + 1 - 1) = m) as -> by (unfold u64; rewrite Z.mod_small; lia).
  destruct (GetBlock_ok Hash evict Hash_inj evict_subseteq CalcUncleHash DeriveSha _ bc _ _ _ Hbok Hp) as (bc' & -> & Hre & Hok'). exists p, bc'.
  split; [done|]. split; [done|]. split; [by apply (cok_recached bc)|done].
Qed.

(** Writing a processed block. *)
Lemma write_ready cur0 previous block rest bc c rs s' : cok bc -> import_ready cur0 previous block None rest bc ->
  exists status err bc', writeBlockWithState Hash evict Commit archive collect shouldPreserve c block rs s' bc = Some (status, err, bc') /\ cok bc' /\ extends bc bc' /\
    (err = None -> stored_block Hash bc' block /\ (currentBlock bc' = currentBlock bc /\ currentBlock bc = cur0 \/ currentBlock bc' = block \/ archive = true)).
Proof.
  intros Hok Hr. destruct (ir_fresh _ _ _ _ _ _ Hr) as [Hnd Hfresh]. destruct (ir_valid _ _ _ _ _ _ Hr eq_refl) as (Hcm & _).
  unfold tx_hashes in Hnd, Hfresh. cbn [fmap list_fmap concat] in Hnd, Hfresh. rewrite fmap_app in Hnd, Hfresh. apply list.NoDup_app in Hnd as (Hnd & _).
  assert (block_valid Hash CalcUncleHash DeriveSha bc block) as Hv.
  { split; [apply (ir_child _ _ _ _ _ _ Hr)|done..|]. intros c' t q Hl Ht. apply Hfresh; [done|]. apply elem_of_app. by left. }
  destruct (Commit_total block s') as [[root s2] Hcommit].
  destruct (writeBlock_ok Hash evict Hash_inj Hash_nonzero evict_subseteq CalcUncleHash DeriveSha CalcUncleHash_inj DeriveSha_inj Commit archive collect shouldPreserve
    c block rs s' root s2 bc Hok Hv Hcommit (import_ready_number _ _ _ _ _ _ Hr)) as (status & err & bc' & Heq & Hok' & Hg & Hmono & Hwr).
  exists status, err, bc'. split; [done|]. split; [done|]. split; [by split|].
  intros ->. destruct Hwr as [Hst [(_ & Hc & _)|(_ & Hc & _)]]; (split; [done|]); [by right; left|].
  destruct (ir_window _ _ _ _ _ _ Hr) as [|[[Hcur|Hprev] _]]; [by right; right|by left|]. destruct (ir_previous _ _ _ _ _ _ Hr _ Hprev) as [E1 E2].
  destruct (child_heavier bc' block Hok' Hst); [by rewrite Hc|by rewrite Hc|]. exact (Forall_inv (ir_formed _ _ _ _ _ _ Hr)).
Qed.

Lemma fresh_imported cur0 previous block b rest bc bc1 bc2 : cok bc -> import_ready cur0 previous block None (b :: rest) bc -> cok bc1 -> extends bc bc1 ->
  stored_block Hash bc1 block -> recached bc1 bc2 -> chain_fresh bc2 b rest.
Proof.
  intros Hok Hr Hok1 Hx Hst Hre. assert (chain_fresh bc1 b rest) as H; [|by rewrite Hre].
  pose proof (ir_formed _ _ _ _ _ _ Hr) as Hf. pose proof (Forall_inv Hf) as Hfb. apply Forall_inv_tail in Hf.
  destruct (contiguous_block _ _ _ Hfb (Forall_inv Hf) (ir_contiguous _ _ _ _ _ _ Hr)) as (_ & En & Ep & _). destruct (block_formed_number _ Hfb) as (_ & H0 & _).
  apply (chain_fresh_next _ _ block b rest bc bc1 (proj1 Hok) (proj1 Hok1) Hx (ir_fresh _ _ _ _ _ _ Hr) Ep En H0).
  - intros c _ _. destruct (ir_valid _ _ _ _ _ _ Hr eq_refl) as (_ & m & p & Hp). destruct (ReadBlock_inv _ _ _ _ Hp) as [Hs _].
    destruct (ir_child _ _ _ _ _ _ Hr) as (n & d & Hn & _ & Hn0 & Hn1 & Hpar). rewrite (NumberU64_eq block _ Hn Hn0 Hn1).
    pose proof (Hpar m _ Hs) as ->. exists (b_header p). by replace (m + 1 - 1) with m by lia.
  - intros txs us Hb. apply ReadBlock_inv in Hst as [_ Hb']. congruence.
Qed.

Lemma fresh_skipped cur0 previous block err b rest bc bc' : cok bc -> import_ready cur0 previous block err (b :: rest) bc -> same_body bc block -> recached bc bc' ->
  chain_fresh bc' b rest.
Proof.
  intros Hok Hr Hsame Hre. assert (chain_fresh bc b rest) as H; [|by rewrite Hre].
  pose proof (ir_formed _ _ _ _ _ _ Hr) as Hf. pose proof (Forall_inv Hf) as Hfb. apply Forall_inv_tail in Hf.
  destruct (contiguous_block _ _ _ Hfb (Forall_inv Hf) (ir_contiguous _ _ _ _ _ _ Hr)) as (_ & En & Ep & _). destruct (block_formed_number _ Hfb) as (_ & H0 & _).
  apply (chain_fresh_next _ _ block b rest bc bc (proj1 Hok) (proj1 Hok) ltac:(done) (ir_fresh _ _ _ _ _ _ Hr) Ep En H0).
  - intros c Hpos [Hc Hl]. destruct (Hl (NumberU64 block - 1)) as (x & Hx & Hcx & _); [lia|]. exists x. by assert (b_parent block = Hash x) as -> by congruence.
  - intros txs us Hb. destruct (proj1 (bo_bodies _ _ _ _ _ (proj1 Hok) _) (mk_is_Some _ _ Hb)) as [x Hx].
    apply (Hsame (NumberU64 block) (mkBlock x txs us)). unfold ReadBlock, ReadHeader. rewrite Hx. cbn. by rewrite Hb.
Qed.

Lemma reportBlock_ok block bc : cok bc -> cok (reportBlock Hash evict block bc) /\ extends bc (reportBlock Hash evict block bc).
Proof. intros Hok. split; [by apply (cok_other bc)|done]. Qed.

Lemma import_blocks_ok results cur0 rest previous i block err bc : cok bc -> import_ready cur0 previous block err rest bc ->
  exists i' e bc', import results rest previous i block err bc = Some (i', e, bc') /\ cok bc' /\ extends bc bc'.
Proof.
  induction rest as [|b rest IH] in previous, i, block, err, bc |- *; intros Hok Hr; cbn [import_blocks].
  all: destruct err as [e|];
    [edestruct (after_import_total results) as (i' & e' & bc' & -> & Hok' & Ha); [exact Hok|]; exists i', e', bc'; split; [done|]; split; [done|]; by apply extends_aside|].
  all: destruct (interrupted i); [by exists i, None, bc|].
  all: case_bool_decide; [eexists _, _, _; split; [done|]; by apply reportBlock_ok|].
  all: destruct (parent_block _ _ _ _ _ Hok Hr) as (p & bc1 & -> & Hre & Hok1 & Ep); cbn [mbind option_bind].
  all: pose proof (extends_aside _ _ (aside_recached _ _ Hre)) as Hx1; pose proof (import_ready_recached _ _ _ _ _ _ _ Hr Hre) as Hr1.
  all: destruct (states bc1 !! b_root p) as [s|] eqn:Hs; [|by eexists _, _, bc1].
  all: destruct (Process block s) as [e|[[rs used] s1]] eqn:Hp; [eexists _, _, _; split; [done|]; split; [by apply reportBlock_ok|eapply extends_trans; [done|by apply reportBlock_ok]]|].
  all: destruct (ValidateState block p s1 rs used) as [[e|] s2]; [eexists _, _, _; split; [done|]; split; [by apply reportBlock_ok|eapply extends_trans; [done|by apply reportBlock_ok]]|].
  all: destruct (write_ready _ _ _ _ bc1 (coin i) rs s2 Hok1 Hr1) as (st & [e|] & bc2 & -> & Hok2 & Hx2 & Hcur); cbn [mbind option_bind];
    pose proof (extends_trans _ _ _ Hx1 Hx2) as Hx; [by eexists _, _, bc2|].
  - by eexists _, _, bc2.
  - destruct (next_error_total _ results (i + 1) b bc2 (proj1 Hok2)) as (e & bc3 & -> & Hr3 & Hok3 & He).
    pose proof (cok_recached _ _ Hok2 Hr3 Hok3) as Hc3. destruct (IH (Some block) (i + 1) b e bc3 Hc3) as (i' & e' & bc' & -> & Hok' & Hx').
    + apply (import_ready_next _ _ _ _ _ _ _ bc1 bc3 e Hr1 Hok3); [by rewrite Hr3; apply Hcur|rewrite Hr3; exact He|]. by apply (fresh_imported _ _ _ _ _ bc1 bc2 bc3 Hok1 Hr1 Hok2 Hx2 (proj1 (Hcur eq_refl)) Hr3).
    + exists i', e', bc'. split; [done|]. split; [done|]. eapply extends_trans; [exact Hx|]. eapply extends_trans; [by apply extends_aside, aside_recached|done].
Qed.

Lemma skip_known_ok results cur0 k rest previous i block err bc : cok bc -> import_ready cur0 previous block err rest bc -> currentBlock bc = cur0 -> Forall (same_body bc) (block :: rest) ->
  exists i' e bc', skip_known Hash evict Commit archive collect shouldPreserve VerifyUncles CalcUncleHash DeriveSha Process ValidateState BadHashes now interrupted coin
    results k rest previous i block err bc = Some (i', e, bc') /\ cok bc' /\ extends bc bc'.
Proof.
  induction rest as [|b rest IH] in previous, i, block, err, bc |- *; intros Hok Hr Hcur Hsame; cbn [skip_known].
  all: destruct err as [[]|]; try by eapply import_blocks_ok.
  all: destruct (NumberU64 block <=? k); [|by eapply import_blocks_ok].
  - by exists (i + 1), None, bc.
  - destruct (next_error_total _ results (i + 1) b bc (proj1 Hok)) as (e & bc1 & -> & Hr1 & Hok1 & He). pose proof (cok_recached _ _ Hok Hr1 Hok1) as Hc1.
    destruct (IH (Some block) (i + 1) b e bc1 Hc1) as (i' & e' & bc' & -> & Hok' & Hx').
    + apply (import_ready_next _ _ _ _ _ _ _ bc bc1 e Hr Hok1); [left; by rewrite Hr1|rewrite Hr1; exact He|].
      exact (fresh_skipped _ _ _ _ _ _ _ _ Hok Hr (Forall_inv Hsame) Hr1).
    + by rewrite Hr1.
    + apply Forall_inv_tail in Hsame. by rewrite Hr1.
    + exists i', e', bc'. split; [done|]. split; [done|]. eapply extends_trans; [by apply extends_aside, aside_recached|done].
Qed.

Abbreviation insert_chain := (InsertChain Hash evict Commit archive collect shouldPreserve VerifyHeaders VerifyUncles CalcUncleHash DeriveSha Process ValidateState BadHashes Size now interrupted coin).
(** The error of the first block decides what kind of import it is. *)
Definition first_error (first : Block) (rest : list Block) bc : option InsertError :=
  fst (next_error Hash evict VerifyUncles CalcUncleHash DeriveSha (VerifyHeaders bc (b_header <$> first :: rest) (replicate (length (first :: rest)) true)) 0 first bc).

(** C4: the import of a chain of blocks keeps the books, whatever the engine, the
    processor and the validator of states answer.  The chain: its blocks are
    well-formed, the first one is numbered after its parent, no transaction is twice
    in it or again from the branch of its parent, and a block that is stored already
    comes with the same transactions.  The node: it can commit states, the parent of
    the first block was not pruned, and it is an archive or the blocks are at most
    128 above the head.  Then the import ends without a panic.  Every stored block
    stays; the stored blocks are a tree with the total difficulties of their
    branches; the canonical numbers up to the head are the branch of the head, which
    is a heaviest block; and the index of transactions holds exactly the transactions
    of that branch with their places, also after reorganisations. *)
Theorem InsertChain_keeps_books fuel first rest bc :
  cok bc -> Forall block_formed (first :: rest) -> child_ok (hc bc) (b_header first) ->
  chain_fresh bc first rest -> Forall (same_body bc) (first :: rest) ->
  archive = true \/ Forall (fun b => NumberU64 b <= NumberU64 (currentBlock bc) + triesInMemory) (first :: rest) ->
  first_error first rest bc <> Some EPrunedAncestor ->
  exists i err bc', insert_chain (Datatypes.S fuel) (first :: rest) bc = Some (i, err, bc') /\ cok bc' /\
    genesisHeader (hc bc') = genesisHeader (hc bc) /\ forall b, stored_block Hash bc b -> stored_block Hash bc' b.
Proof.
  intros Hok Hf Hch Hfr Hsame Hw He. unfold InsertChain. destruct (contiguous_blocks Hash first rest) eqn:Hcon; cbn [negb]; [|by eexists _, _, bc].
  cbn [insertChain]. destruct (interrupted (-1)); [by eexists _, _, bc|]. unfold first_error in He. set (results := VerifyHeaders bc _ _) in *.
  destruct (next_error_total _ results 0 first bc (proj1 Hok)) as (e & bc1 & Heq & Hr1 & Hok1 & Hv). rewrite Heq in He |- *. cbn [fst] in He.
  pose proof (cok_recached _ _ Hok Hr1 Hok1) as Hc1.
  assert (import_ready (currentBlock bc) None first e rest bc1) as Hready.
  { split; [done|done|by rewrite Hr1|by rewrite Hr1|by rewrite Hr1|done|]. destruct Hw as [|Hw]; [by left|]. right. split; [left; by rewrite Hr1|done]. }
  assert (forall (i' : Z) (e' : option InsertError) bc', extends bc1 bc' -> cok bc' -> exists i err bc'', Some (i', e', bc') = Some (i, err, bc'') /\ cok bc'' /\
    genesisHeader (hc bc'') = genesisHeader (hc bc) /\ forall b, stored_block Hash bc b -> stored_block Hash bc'' b) as Hfin.
  { intros i' e' bc' Hx Hok'. exists i', e', bc'. split; [done|]. split; [done|]. eapply extends_trans; [by apply extends_aside, aside_recached|done]. }
  destruct (import_blocks_ok results _ rest None 0 first e bc1 Hc1 Hready) as (i & e' & bc' & Him & Hok' & Hx').
  destruct (skip_known_ok results _ (NumberU64 (currentBlock bc1)) rest None 0 first e bc1 Hc1 Hready) as (i2 & e2 & bc2 & Hsk & Hok2 & Hx2); [by rewrite Hr1..|].
  destruct (queue_future_total results rest 0 first e bc1 Hc1) as (i3 & e3 & bc3 & Hq & Hok3 & Ha3). apply extends_aside in Ha3.
  destruct (reportBlock_ok first bc1 Hc1) as [Hok4 Hx4].
  destruct e as [[]|]; try done; try (rewrite Him || rewrite Hsk); try (destruct (in_queue _ _ _); [rewrite Hq|]); by apply Hfin.
Qed.

(** * What goes wrong *)

(** C39: the import of a single block whose parent is stored but has no state panics:
    for a chain of one block the iterator of a side chain is at its end before the
    first block, so that no total difficulty is computed before it is compared. *)
Theorem single_side_block_panics fuel g block p bc :
  bok g bc -> interrupted (-1) = false -> VerifyHeaders bc [b_header block] [true] 0 = None ->
  (forall bc', VerifyUncles bc' block = None) -> commits CalcUncleHash DeriveSha (b_header block) (b_txs block) (b_uncles block) ->
  block_formed block -> (forall m b, ReadBlock bc (b_hash Hash block) m <> Some b) ->
  ReadBlock bc (b_parent block) (NumberU64 block - 1) = Some p -> states bc !! b_root p = None ->
  insert_chain (Datatypes.S fuel) [block] bc = None.
Proof.
  intros Hok Hi Hve Hun [Hsha Hunc] Hf Hnew Hp Hst. destruct (ReadBlock_key Hash CalcUncleHash DeriveSha _ _ _ _ _ Hok Hp) as (_ & _ & _ & H0 & H1 & _).
  unfold InsertChain. cbn [contiguous_blocks negb]. cbn [insertChain]. rewrite Hi. cbn [fmap list_fmap length replicate].
  unfold next_error. rewrite Hve. unfold ValidateBody.
  destruct (HasBlockAndState_total g (b_hash Hash block) (NumberU64 block) bc Hok) as (r & bc1 & -> & Hr1 & Hok1 & Hk).
  destruct r; [destruct (Hk eq_refl) as (m & b & Hb); by destruct (Hnew m b)|]. rewrite Hun, Hsha, Hunc, !Z.eqb_refl. cbn [negb].
  assert (u64 (NumberU64 block - 1) = NumberU64 block - 1) as -> by (apply Z.mod_small; lia).
  unfold HasBlockAndState. assert (ReadBlock bc1 (b_parent block) (NumberU64 block - 1) = Some p) as Hp1 by by rewrite Hr1.
  destruct (GetBlock_ok Hash evict Hash_inj evict_subseteq CalcUncleHash DeriveSha g bc1 _ _ _ Hok1 Hp1) as (bc2 & -> & Hr2 & Hok2).
  pose proof (recached_trans _ _ _ Hr1 Hr2) as Hr. assert (HasState (b_root p) bc2 = false) as -> by (unfold HasState; rewrite Hr; cbn; by rewrite Hst).
  assert (HasBlock (b_parent block) (NumberU64 block - 1) bc2 = true) as ->.
  { unfold HasBlock. rewrite Hr. cbn. destruct (ReadBlock_inv _ _ _ _ Hp) as [_ ->]. apply orb_true_r. }
  cbn [negb]. unfold insertSidechain. cbn [mbind option_bind]. destruct (bc_GetTd _ _ _ _) as [[t|] bc3]; done.
Qed.

(** C40: when a block that is lower than the head becomes the head, because it is
    heavier, the numbers above it stay assigned: for each number up to that of the
    old head, [GetBlockByNumber] still answers the block of the abandoned chain. *)
Theorem abandoned_numbers_stay c block rs s root s' k bc :
  cok bc -> block_valid Hash CalcUncleHash DeriveSha bc block -> Commit block s = Some (root, s') -> NumberU64 block < k <= NumberU64 (currentBlock bc) ->
  exists status err bc', writeBlockWithState Hash evict Commit archive collect shouldPreserve c block rs s bc = Some (status, err, bc') /\
    (status = CanonStatTy -> currentBlock bc' = block /\ NumberU64 (currentBlock bc') < k /\
      exists b, fst (GetBlockByNumber Hash evict k bc') = Some b /\ NumberU64 b = k /\ canonical bc !! k = Some (b_hash Hash b)).
Proof.
  intros Hok Hv Hc Hk.
  destruct (writeBlock_ok Hash evict Hash_inj Hash_nonzero evict_subseteq CalcUncleHash DeriveSha CalcUncleHash_inj DeriveSha_inj Commit archive collect shouldPreserve
    c block rs s root s' bc Hok Hv Hc) as (status & err & bc' & Heq & Hok' & Hg & Hmono & Hwr); [unfold triesInMemory; lia|].
  exists status, err, bc'. split; [done|]. intros ->. destruct err as [e|]; [by destruct Hwr as (_ & ? & _)|]. destruct Hwr as [_ [(_ & Hcur & Hab)|(? & _)]]; [|done].
  split; [done|]. split; [rewrite Hcur; lia|]. destruct Hok as (Hbok & T & [_ _ [Hl _] _ _]). destruct (bv_header _ _ _ _ _ Hv) as (n & _ & Hn & _ & Hn0 & Hn1 & _).
  rewrite (NumberU64_eq _ _ Hn Hn0 Hn1) in *. destruct (linked_stored Hash _ _ _ _ k Hl) as (x & Hx & Hcx); [lia|].
  destruct (stored_has_block Hash CalcUncleHash DeriveSha _ _ _ _ _ Hbok Hx) as (b & Hb & _). destruct (ReadBlock_key Hash CalcUncleHash DeriveSha _ _ _ _ _ Hbok Hb) as (Eh & En & _ & _ & _ & Hsb).
  exists b. split; [|by rewrite Eh]. unfold GetBlockByNumber, ReadCanonicalHash. rewrite (Hab k), Hcx by lia. unfold default, from_option, id.
  replace (Hash x =? 0) with false by (pose proof (Hash_nonzero x); lia).
  pose proof (Hmono b Hsb) as Hb'. unfold stored_block in Hb'. rewrite Eh, En in Hb'.
  destruct (GetBlock_ok Hash evict Hash_inj evict_subseteq CalcUncleHash DeriveSha _ bc' _ _ _ (proj1 Hok') Hb') as (bc2 & -> & _). done.
Qed.

(** On a node that is not an archive, a block more than 128 numbers above every
    canonical one panics, side block or not: the header at the height up to which
    states are collected is looked up by number, and there is none. *)
Theorem far_side_block_panics c block rs s root s' m p bc :
  cok bc -> block_valid Hash CalcUncleHash DeriveSha bc block -> stored (chainDb (hc bc)) (b_parent block) m p -> Commit block s = Some (root, s') ->
  archive = false -> triesInMemory < NumberU64 block -> canonical bc !! (NumberU64 block - triesInMemory) = None ->
  writeBlockWithState Hash evict Commit archive collect shouldPreserve c block rs s bc = None.
Proof.
  intros (Hok & T & [_ _ _ HT _]) Hv Hp Hc -> Hn Hcan. destruct (bv_header _ _ _ _ _ Hv) as (n & d & Hnum & Hd & H0 & H1 & Hpar).
  pose proof (NumberU64_eq _ _ Hnum H0 H1) as En. unfold writeBlockWithState, bc_GetTd at 1. rewrite En in *.
  destruct (parent_td Hash evict Hash_inj evict_subseteq _ (hc bc) (b_header block) n (bo_tree _ _ _ _ _ Hok) (bo_caches _ _ _ _ _ Hok) Hnum H0 H1 Hpar) as (r & h1 & Heq1 & (Hdb1 & _) & Hc1 & Hr).
  change (ParentHash (b_header block)) with (b_parent block) in *. rewrite Heq1. destruct r as [ptd|]; [|by destruct (Hr m p)]. cbv beta iota zeta.
  destruct (bc_GetTd evict _ _ (set_hc h1 bc)) as [lt bc2] eqn:E2. rewrite Hc. unfold store_state. rewrite En. replace (n <=? triesInMemory) with false by lia.
  unfold bc_GetTd in E2.
  match type of E2 with context [GetTd ?e ?a ?b ?c] => destruct (GetTd e a b c) as [td h2] eqn:E3 end. injection E2 as <- <-.
  assert (chainDb h2 = chainDb (hc bc)) as Hdb2.
  { rewrite <- Hdb1. unfold GetTd in E3. repeat case_match; by simplify_eq. }
  unfold bc_GetHeaderByNumber, GetHeaderByNumber, ReadCanonicalHash. cbn. rewrite Hdb2, Hcan. done.
Qed.
End Importing.

(** * Examples *)

(** Injective roots of the lists in a block. *)
Definition tx_fields (tx : Transaction) : list (list Z) :=
  [[AccountNonce tx; Price tx; TxGasLimit tx; Amount tx; TxSorted.TxHash tx]; opt_list (Recipient tx); Payload tx].
Definition txs_root (txs : list Transaction) : Z := Zpos (encode (tx_fields <$> txs)).
Definition uncles_root (us : list Header) : Z := Zpos (encode (header_hash <$> us)).

Lemma txs_root_inj x y : txs_root x = txs_root y -> x = y.
Proof.
  intros [= H%(inj encode)]. revert H. apply list_fmap_eq_inj. intros a b H. destruct a, b. unfold tx_fields in H. cbn in H. injection H. intros. subst.
  f_equal. by apply opt_list_inj.
Qed.

Lemma uncles_root_inj x y : uncles_root x = uncles_root y -> x = y.
Proof. intros [= H%(inj encode)]. revert H. apply list_fmap_eq_inj. intros a b. apply header_hash_inj. Qed.

(** ** A chain with the genesis block only *)
Definition genesis_chain (g : Header) (d : Z) (st : gmap Z Z) : BlockChain Z unit :=
  mkBlockChain (mkHeaderChain (genesis_db header_hash g d) g (Some g) (header_hash g) ∅ ∅ ∅) {[(header_hash g, 0) := ([], [])]} ∅ ∅
    (header_hash g) (header_hash g) (mkBlock g [] []) (mkBlock g [] []) ∅ ∅ ∅ st.

Lemma genesis_indexed g (c : gmap Z Z) t p : ~ indexed {[(header_hash g, 0) := ([], [])]} c 0 t p.
Proof. destruct p as [[h k] i]. intros (_ & _ & _ & txs & us & tx & [_ [= <- <-]]%lookup_singleton_Some & Htx & _). by rewrite lookup_nil in Htx. Qed.

Lemma genesis_blocks_ok g d st : Number g = Some 0 -> commits uncles_root txs_root g [] [] -> blocks_ok header_hash uncles_root txs_root g (genesis_chain g d st).
Proof.
  intros Hn Hc. pose proof (genesis_db_ok header_hash g d Hn) as Ht. split; cbn.
  - exact Ht.
  - split; cbn; intros *; by rewrite lookup_empty.
  - intros k. destruct (decide (k = (header_hash g, 0))) as [->|Hk]; [rewrite !lookup_singleton_eq; by split; eauto|by rewrite !lookup_singleton_ne].
  - intros h n x txs us. unfold stored. cbn. intros [_ <-]%lookup_singleton_Some [_ [= <- <-]]%lookup_singleton_Some. done.
  - exists []. by rewrite lookup_singleton_eq.
  - intros h b. by rewrite lookup_empty.
  - intros h n x c. unfold stored. cbn. intros [Hk _]%lookup_singleton_Some _ t p q. apply (f_equal snd) in Hk. cbn [snd] in Hk. subst n. intros Hp. by destruct (genesis_indexed _ _ _ _ Hp).
Qed.

Lemma genesis_chain_ok g d st : Number g = Some 0 -> commits uncles_root txs_root g [] [] -> blockchain_ok header_hash uncles_root txs_root (genesis_chain g d st).
Proof.
  intros Hn Hc. split; [by apply genesis_blocks_ok|]. assert (NumberU64 (mkBlock g [] []) = 0) as E by (apply NumberU64_eq; cbn; [done|lia|lia]).
  exists d. split; cbn; rewrite ?E.
  - unfold stored_block, ReadBlock, ReadHeader. cbn. by rewrite E, !lookup_singleton_eq.
  - done.
  - split; cbn; rewrite E.
    + split; [by rewrite lookup_singleton_eq|]. intros n Hb. assert (n = 0) as -> by lia. exists g. unfold stored. cbn. rewrite !lookup_singleton_eq. repeat split; lia.
    + intros t p. rewrite lookup_empty. split; [done|]. intros Hp. by destruct (genesis_indexed _ _ _ _ Hp).
  - by rewrite lookup_singleton_eq.
  - intros k t [_ <-]%lookup_singleton_Some. lia.
Qed.

(** ** Blocks *)
Definition plain_header (parent number difficulty root : Z) : Header :=
  mkHeader parent (uncles_root []) 0 root (txs_root []) 0 0 (Some difficulty) (Some number) 0 0 (Some number) [] 0 [].
Definition plain (parent : Header) (number difficulty : Z) : Block := mkBlock (plain_header (header_hash parent) number difficulty number) [] [].
Definition gen : Header := plain_header 0 0 2 0.
Definition a1 : Block := plain gen 1 2.
Definition a2 : Block := plain (b_header a1) 2 2.
(** With a transaction, and a block on it. *)
Definition ex_tx : Transaction := mkTransaction 0 1 21000 (Some 5) 3 [] 77.
Definition paid1 : Block := mkBlock (mkHeader (header_hash gen) (uncles_root []) 0 1 (txs_root [ex_tx]) 0 0 (Some 2) (Some 1) 0 21000 (Some 1) [] 0 []) [ex_tx] [].
Definition paid2 : Block := plain (b_header paid1) 2 2.
(** Heavier than both. *)
Definition heavy1 : Block := plain gen 1 10.

Definition ex_Commit (b : Block) (s : Z) : option (Z * Z) := Some (b_root b, s).
Definition ex_collect (n : Z) (m : gmap Z Z) : gmap Z Z := m.
Definition ex_Verify (bc : BlockChain Z unit) (hs : list Header) (seals : list bool) (i : Z) : option InsertError := None.
Definition ex_Uncles (bc : BlockChain Z unit) (b : Block) : option InsertError := None.
Definition ex_Process (b : Block) (s : Z) : InsertError + (list unit * Z * Z) := inr ((fun _ => tt) <$> b_txs b, 21000 * zlen (b_txs b), s + zlen (b_txs b)).
Definition ex_Validate (b p : Block) (s : Z) (rs : list unit) (used : Z) : option InsertError * Z := (None, s).
Definition ex_Size (b : Block) : Z := 500.

Definition ex_genesis_chain : BlockChain Z unit := genesis_chain gen 2 {[0 := 7]}.
(** Without the state of the genesis block. *)
Definition ex_pruned_chain : BlockChain Z unit := genesis_chain gen 2 ∅.

Lemma gen_commits : commits uncles_root txs_root gen [] [].
Proof. done. Qed.

Lemma plain_formed p n d : 0 <= n -> n + 1 < 2 ^ 64 -> 0 < d -> block_formed (plain p n d).
Proof. intros. split; [by exists n, d, n|done]. Qed.

Lemma plain_child n d st : child_ok (hc (genesis_chain gen 2 st)) (plain_header (header_hash gen) 1 d n).
Proof.
  exists 1, d. repeat (split; [done|]). intros m p. unfold stored. cbn [hc genesis_chain chainDb genesis_db db_headers].
  intros [Hk _]%lookup_singleton_Some. apply (f_equal snd) in Hk. cbn [snd] in Hk. lia.
Qed.

Lemma plain_valid (bc : BlockChain Z unit) p n d : child_ok (hc bc) (b_header (plain p n d)) -> block_valid header_hash uncles_root txs_root bc (plain p n d).
Proof. intros Hc. split; [done|done|constructor|]. intros c t q _ Ht. by apply not_elem_of_nil in Ht. Qed.

Lemma paid_fresh st : chain_fresh header_hash (genesis_chain gen 2 st) paid1 [paid2].
Proof. split; [apply (bool_decide_unpack _); vm_compute; exact I|]. intros c t q _ _. apply genesis_indexed. Qed.

Lemma genesis_same_body st b : (header_hash gen =? b_hash header_hash b) = false -> same_body header_hash (genesis_chain gen 2 st) b.
Proof.
  intros Hne m b' [_ Hb]%ReadBlock_inv. cbn [bodies genesis_chain] in Hb. apply lookup_singleton_Some in Hb as [Hk _]. apply (f_equal fst) in Hk. cbn [fst] in Hk. lia.
Qed.

Lemma paid1_formed : block_formed paid1.
Proof. split; [by exists 1, 2, 1|done]. Qed.

Lemma paid1_child st : child_ok (hc (genesis_chain gen 2 st)) (b_header paid1).
Proof.
  exists 1, 2. repeat (split; [done|]). intros m p. unfold stored. cbn [hc genesis_chain chainDb genesis_db db_headers].
  intros [Hk _]%lookup_singleton_Some. apply (f_equal snd) in Hk. cbn [snd] in Hk. lia.
Qed.

Lemma InsertChain_keeps_books_witness :
  exists bc', InsertChain header_hash keep ex_Commit true ex_collect None ex_Verify ex_Uncles uncles_root txs_root ex_Process ex_Validate ∅ ex_Size 0 never never
    1 [paid1; paid2] ex_genesis_chain = Some (2, None, bc') /\ blockchain_ok header_hash uncles_root txs_root bc' /\
    lookups bc' !! TxSorted.TxHash ex_tx = Some (b_hash header_hash paid1, 1, 0).
Proof.
  destruct (InsertChain_keeps_books header_hash keep header_hash_inj header_hash_nonzero keep_subseteq uncles_root txs_root uncles_root_inj txs_root_inj
    ex_Commit true ex_collect None ex_Verify ex_Uncles ex_Process ex_Validate ∅ ex_Size 0 never never) with (fuel := O) (first := paid1) (rest := [paid2]) (bc := ex_genesis_chain)
    as (i & err & bc' & Heq & Hok & _).
  - intros b s. by eexists.
  - exact (genesis_chain_ok gen 2 _ eq_refl gen_commits).
  - constructor; [exact paid1_formed|]. constructor; [by apply plain_formed|constructor].
  - exact (paid1_child _).
  - exact (paid_fresh _).
  - repeat constructor; apply genesis_same_body; by_compute.
  - by left.
  - assert (first_error header_hash keep uncles_root txs_root ex_Verify ex_Uncles paid1 [paid2] ex_genesis_chain = None) as -> by by_compute. discriminate.
  - assert ((fun x : Z * option InsertError * BlockChain Z unit => (fst x, lookups (snd x) !! 77)) <$> InsertChain header_hash keep ex_Commit true ex_collect None ex_Verify ex_Uncles
      uncles_root txs_root ex_Process ex_Validate ∅ ex_Size 0 never never 1 [paid1; paid2] ex_genesis_chain =
      Some (2, None, Some (b_hash header_hash paid1, 1, 0))) as Hc by by_compute.
    rewrite Heq in Hc. injection Hc as -> -> Hl. exact (ex_intro _ bc' (conj Heq (conj Hok Hl))).
Defined.

Lemma a1_unknown m b : ReadBlock ex_pruned_chain (b_hash header_hash a1) m <> Some b.
Proof.
  intros [_ Hb]%ReadBlock_inv. cbn [bodies ex_pruned_chain genesis_chain] in Hb. apply lookup_singleton_Some in Hb as [Hk _]. apply (f_equal fst) in Hk. cbn [fst] in Hk.
  assert ((header_hash gen =? b_hash header_hash a1) = false) as H by by_compute. lia.
Qed.

Lemma single_side_block_panics_witness :
  InsertChain header_hash keep ex_Commit true ex_collect None ex_Verify ex_Uncles uncles_root txs_root ex_Process ex_Validate ∅ ex_Size 0 never never
    6 [a1] ex_pruned_chain = None.
Proof.
  apply (single_side_block_panics header_hash keep header_hash_inj keep_subseteq uncles_root txs_root ex_Commit true ex_collect None ex_Verify ex_Uncles
    ex_Process ex_Validate ∅ ex_Size 0 never never 5 gen a1 (mkBlock gen [] []) ex_pruned_chain).
  - exact (genesis_blocks_ok gen 2 _ eq_refl gen_commits).
  - reflexivity.
  - reflexivity.
  - reflexivity.
  - split; reflexivity.
  - by apply plain_formed.
  - exact a1_unknown.
  - by_compute.
  - reflexivity.
Defined.

(** ** A lower, heavier head *)
Definition write_plain (b : Block) (bc : BlockChain Z unit) : BlockChain Z unit :=
  match writeBlockWithState header_hash keep ex_Commit true ex_collect None false b [] 0 bc with Some (_, _, bc') => bc' | None => bc end.
Definition two_blocks : BlockChain Z unit := write_plain a2 (write_plain a1 ex_genesis_chain).

Lemma write_plain_ok b bc : blockchain_ok header_hash uncles_root txs_root bc -> block_valid header_hash uncles_root txs_root bc b ->
  blockchain_ok header_hash uncles_root txs_root (write_plain b bc).
Proof.
  intros Hok Hv. unfold write_plain.
  destruct (writeBlock_ok header_hash keep header_hash_inj header_hash_nonzero keep_subseteq uncles_root txs_root uncles_root_inj txs_root_inj
    ex_Commit true ex_collect None false b [] 0 (b_root b) 0 bc Hok Hv eq_refl (or_introl eq_refl)) as (st & err & bc' & -> & Hok' & _). done.
Qed.

Lemma one_block_ok : blockchain_ok header_hash uncles_root txs_root (write_plain a1 ex_genesis_chain).
Proof. apply write_plain_ok; [exact (genesis_chain_ok gen 2 _ eq_refl gen_commits)|]. apply plain_valid. exact (plain_child 1 2 _). Qed.

Lemma two_blocks_ok : blockchain_ok header_hash uncles_root txs_root two_blocks.
Proof.
  apply write_plain_ok; [exact one_block_ok|]. apply plain_valid.
  apply (child_of_previous header_hash header_hash_inj (genesisHeader (hc (write_plain a1 ex_genesis_chain))) (b_header a1)).
  - apply (bo_tree _ _ _ _ _ (proj1 one_block_ok)).
  - by apply plain_formed.
  - by apply plain_formed.
  - by_compute.
Qed.

Lemma heavy1_valid : block_valid header_hash uncles_root txs_root two_blocks heavy1.
Proof.
  apply plain_valid. apply (child_of_previous header_hash header_hash_inj (genesisHeader (hc two_blocks)) gen).
  - apply (bo_tree _ _ _ _ _ (proj1 two_blocks_ok)).
  - by exists 0, 2, 0.
  - by apply (plain_formed gen 1 10).
  - by_compute.
Qed.

Lemma abandoned_numbers_stay_witness :
  exists status err bc', writeBlockWithState header_hash keep ex_Commit true ex_collect None false heavy1 [] 0 two_blocks = Some (status, err, bc') /\
    currentBlock bc' = heavy1 /\ NumberU64 (currentBlock bc') < 2 /\ exists b, fst (GetBlockByNumber header_hash keep 2 bc') = Some b /\ NumberU64 b = 2.
Proof.
  destruct (abandoned_numbers_stay header_hash keep header_hash_inj header_hash_nonzero keep_subseteq uncles_root txs_root uncles_root_inj txs_root_inj
    ex_Commit true ex_collect None false heavy1 [] 0 1 0 2 two_blocks) as (status & err & bc' & Heq & Hst).
  - exact two_blocks_ok.
  - exact heavy1_valid.
  - reflexivity.
  - assert (NumberU64 heavy1 = 1) as -> by by_compute. assert (NumberU64 (currentBlock two_blocks) = 2) as -> by by_compute. lia.
  - assert (fst <$> writeBlockWithState header_hash keep ex_Commit true ex_collect None false heavy1 [] 0 two_blocks = Some (CanonStatTy, None)) as Hc by by_compute.
    rewrite Heq in Hc. injection Hc as -> ->. destruct (Hst eq_refl) as (H1 & H2 & b & H3 & H4 & _).
    exact (ex_intro _ _ (ex_intro _ _ (ex_intro _ bc' (conj Heq (conj H1 (conj H2 (ex_intro _ b (conj H3 H4)))))))).
Defined.
