(* ===== verification/EvmExamples.v ===== *)
(** Runs of the virtual machine on small contracts, and a block of one
    transaction, at which the theorems are applied. *)
From stdpp Require Import gmap.
From S2P Require Import Prelude GoMath TxSorted BlockHeader Params EvmCode EvmMemory EvmState EvmInstr EvmGas EvmInterp EvmContracts EvmArith EvmTermination EvmRevert EvmStatic EvmTyped EvmTypedCalls EvmContractsCorrect EvmTypeSafety StateObject StateDBModel StateDBCorrect StateDBSnapshot StateDBOps EvmStateDB StateDBLedger Ethash EthashCorrect EvmSupply StateTransition ChainContext Bloom StateProcessor StateTransitionCorrect StateProcessorCorrect.

#[local] Existing Instance bytes_hash.

Definition byzantium_config : ChainConfig :=
  mkChainConfig (Some 1) (Some 0) None false (Some 0) (Some 0) (Some 0) (Some 0) None None.
Definition example_evm : EVM :=
  mkEVM (mkContext (fun _ => 0) 7 1 0 8000000 1 0 0) byzantium_config (mkConfig false false).

(** [SSTORE(0, 1)] and an invalid instruction. *)
Definition failing_code : bytes := [96; 1; 96; 0; 85; 254].
(** [JUMPDEST; JUMP 0] *)
Definition looping_code : bytes := [91; 96; 0; 86].

Definition example_db : State bytes :=
  default (New ∅ ∅)
    (exec_all [OpSetCode 100 failing_code; OpSetCode 101 looping_code; OpAddBalance 7 50] (New ∅ ∅)).
Definition example_world : World bytes (State bytes) := mkWorld example_db 0 ∅ [].
Definition no_precompiles : Precompiles := fun _ => None.

Lemma example_db_wf : wf_state example_db.
Proof.
  unfold example_db. destruct (exec_all _ (New ∅ ∅)) as [s|] eqn:E; [|apply wf_New].
  exact (proj1 (exec_all_sound _ _ _ (sound_New ∅ ∅) E)).
Qed.

Definition example_Run (fuel : nat) := Run (DB := State bytes) example_evm no_precompiles no_precompiles fuel.

Lemma Run_terminates_witness :
  exists r leftOver w',
    example_Run 301 (SetCallCode 101 [] looping_code (NewContract (AccountRef 7) 101 0)) [] false 0 false 300 example_world =
      (r, (leftOver, w')) /\ r <> OutOfFuel /\ 0 <= leftOver <= 300.
Proof. apply Run_terminates; [unfold is_u64; lia|lia]. Defined.

Definition failing_call : CallResult (Hash := bytes) (DB := State bytes) :=
  Call example_evm no_precompiles no_precompiles (example_Run 50) 0 false (AccountRef 7) 100 [] 30000 5 example_world.

Lemma failed_call_restores_witness :
  reads (db failing_call.2) 100 0 = reads example_db 100 0 /\ reads (db failing_call.2) 7 0 = reads example_db 7 0.
Proof.
  destruct (failed_call_restores example_evm no_precompiles no_precompiles 50 0 false (AccountRef 7) example_world
    100 [] 30000 5 failing_call [] 0 (errInvalidOpcode 254) example_db_wf) as (_ & Hr & _).
  - apply elem_of_cons. left. reflexivity.
  - vm_compute. reflexivity.
  - split; apply Hr.
Defined.

Definition failing_create : CreateResult (Hash := bytes) (DB := State bytes) :=
  create example_evm no_precompiles no_precompiles (example_Run 50) 0 false (AccountRef 7) failing_code [] 40000 5 500
    example_world.

Lemma failed_create_restores_witness :
  reads (db failing_create.2) 7 0 = reads (create_start 0 (AccountRef 7) 5 example_world) 7 0.
Proof.
  apply (failed_create_restores example_evm no_precompiles no_precompiles 50 0 false (AccountRef 7) example_world
    failing_code [] 40000 5 500 [] 500 0 (errInvalidOpcode 254) example_db_wf).
  - vm_compute. reflexivity.
  - intros [E _]. discriminate E.
Defined.

Lemma static_call_reads_only_witness :
  let d := db (StaticCall example_evm no_precompiles no_precompiles (example_Run 501) 0 false (AccountRef 7) 101 [] 500
                 example_world).2 in
  GetBalance d 7 = GetBalance example_db 7.
Proof.
  destruct (static_call_reads_only example_evm no_precompiles no_precompiles 501 0 false (AccountRef 7) example_world
    101 [] 500 example_db_wf ltac:(vm_compute; reflexivity)) as [Hv _].
  apply (Hv 7 0).
Defined.

(** * A typed state *)
Lemma bytes_hash_word (h : bytes) : is_word (HashBig h).
Proof. cbn. apply Z.mod_pos_bound. by_compute. Qed.
Lemma bytes_hash_inj (b b' : bytes) : Keccak256 (Hash := bytes) b = Keccak256 b' -> b = b'.
Proof. by intros [= ->]. Qed.
Lemma example_evm_typed : evm_typed example_evm.
Proof. split; [by_decide..|]. intros n. by_decide. Qed.

(** Digests and points that are no secret. *)
Definition example_crypto : Crypto := {|
  sha256_Sum b := Z_to_be 32 (zlen b);
  ripemd160_Sum b := Z_to_be 20 (zlen b);
  keccak256_Sum b := Z_to_be 32 (zlen b);
  Ecrecover _ sig := Ok (Z_to_be 65 (be_to_Z sig));
  G1 := Z;
  G2 := Z;
  UnmarshalG1 b := Ok (be_to_Z b);
  UnmarshalG2 b := Ok (be_to_Z b);
  AddG1 := Z.add;
  ScalarMultG1 := Z.mul;
  MarshalG1 := Z_to_be 64;
  PairingCheck _ _ := true |}.

#[local] Instance example_crypto_laws : CryptoLaws example_crypto.
Proof. split; intros; try done; (split; [apply wf_Z_to_be|apply zlen_Z_to_be]). Qed.

Abbreviation homestead_contracts := (PrecompiledContractsHomestead example_crypto).
Abbreviation byzantium_contracts := (PrecompiledContractsByzantium example_crypto).

Lemma example_db_typed : state_typed example_db.
Proof.
  change example_db with (AddBalance 7 50 (SetCode 101 looping_code (SetCode 100 failing_code (New (Hash := bytes) ∅ ∅)))).
  assert (small_bytes failing_code /\ small_bytes looping_code) as [Hf Hl] by (split; split; [by_decide|by_compute|by_decide|by_compute]).
  pose proof (SetCode_updates 100 _ _ New_state_ok Hf) as H1. pose proof (updates_supply _ _ _ _ H1) as S1. destruct H1 as [H1 _].
  pose proof (SetCode_updates 101 _ _ H1 Hl) as H2. pose proof (updates_supply _ _ _ _ H2) as S2. destruct H2 as [H2 _].
  pose proof (GetBalance_nonneg _ 7 H2) as Hb.
  pose proof (AddBalance_updates 7 50 _ H2 ltac:(lia)) as H3. pose proof (updates_supply _ _ _ _ H3) as S3. destruct H3 as [H3 _].
  split; [done|]. change (total_supply (New (Hash := bytes) ∅ ∅)) with 0 in S1. lia.
Qed.

Definition looping_contract : Contract bytes := SetCallCode 101 [] looping_code (NewContract (AccountRef 7) 101 0).
Definition example_frame : Frame bytes (State bytes) := mkFrame 0 [] NewMemory 100 None (set_returnData [] (new_world example_db)).

Lemma looping_contract_typed : contract_typed looping_contract.
Proof.
  split; cbn; [split; [by_decide|by_compute]|apply small_nil|by_decide|by_decide|by_decide|right; by left].
Qed.

Lemma step_preserves_types_witness :
  match step example_evm homestead_contracts byzantium_contracts
          (Run example_evm homestead_contracts byzantium_contracts 100) 1 false looping_contract example_frame with
  | (Ret None, s') => zlen (stack s') <= StackLimit /\ gas s' < 100
  | _ => False
  end.
Proof.
  pose proof (step_preserves_types bytes_hash_word bytes_hash_inj example_evm example_evm_typed eq_refl homestead_contracts
    byzantium_contracts precompile_limit (tables_typed example_crypto example_evm) precompile_limit_u64 100 looping_contract 1 false (new_world example_db) example_frame
    looping_contract_typed
    (frame_good looping_contract _ 100 looping_contract_typed (new_world_good _ example_db_typed) ltac:(by_decide))
    ltac:(by vm_compute) ltac:(by vm_compute)) as Hs.
  assert ((step example_evm homestead_contracts byzantium_contracts
    (Run example_evm homestead_contracts byzantium_contracts 100) 1 false looping_contract example_frame).1 = Ret None) as E
    by (vm_compute; reflexivity).
  destruct (step _ _ _ _ _ _ _ _) as [r s']. cbn [fst] in E. subst r. apply Hs.
Defined.

Lemma Call_conserves_supply_witness :
  exists res leftOver err w',
    Call example_evm homestead_contracts byzantium_contracts
      (Run example_evm homestead_contracts byzantium_contracts 1001) 0 false (AccountRef 7) 101 [] 1000 5
      (new_world example_db) = (Ret (res, leftOver, err), w') /\
    total_supply (db w') <= total_supply example_db.
Proof.
  destruct (Call_conserves_supply example_crypto bytes_hash_word bytes_hash_inj example_evm example_evm_typed eq_refl 1001 0 false 7 101 [] 1000 5 example_db example_db_typed
    ltac:(by_decide) ltac:(by_decide) ltac:(by_decide) small_nil ltac:(by vm_compute) ltac:(lia))
    as (res & left & err & w' & E & _ & _ & _ & Hs).
  exists res, left, err, w'. split; [exact E|exact Hs].
Defined.

Lemma Create_conserves_supply_witness :
  exists res address leftOver err w',
    Create example_evm homestead_contracts byzantium_contracts
      (Run example_evm homestead_contracts byzantium_contracts 1001) 0 false (AccountRef 7) looping_code 1000 5
      (new_world example_db) = (Ret (res, address, leftOver, err), w') /\
    total_supply (db w') <= total_supply example_db.
Proof.
  destruct (Create_conserves_supply example_crypto bytes_hash_word bytes_hash_inj example_evm example_evm_typed eq_refl 1001 0 false 7 looping_code 1000 5 example_db example_db_typed
    ltac:(by_decide) ltac:(by_decide) (typed_Code _ looping_contract_typed) ltac:(by vm_compute) ltac:(lia))
    as (res & a & left & err & w' & E & _ & _ & _ & Hs).
  exists res, a, left, err, w'. split; [exact E|exact Hs].
Defined.

Lemma payment_succeeds_witness :
  exists w',
    Call example_evm homestead_contracts byzantium_contracts
      (Run example_evm homestead_contracts byzantium_contracts 3) 0 false (AccountRef 7) 9 [] 21 20
      (new_world example_db) = (Ret ([], 21, None), w') /\ GetBalance (db w') 7 = 30 /\ GetBalance (db w') 9 = 20.
Proof.
  destruct (payment_succeeds example_evm homestead_contracts byzantium_contracts 3 0 false 7 9 [] 21 20 example_db
    example_db_typed ltac:(by vm_compute) ltac:(lia) eq_refl eq_refl ltac:(by vm_compute) eq_refl) as (w' & E & H7 & H9 & _).
  exists w'. split; [exact E|]. rewrite H7, H9. split; reflexivity.
Defined.

(** A payment of 20 to account 9, at no price for gas. *)
Definition example_message : Message := mkMessage 7 (Some 9) 0 30000 20 0 true [].

Lemma example_message_typed : message_typed example_message.
Proof.
  split; cbn; [by_decide| |by_decide|lia|by vm_compute|apply small_nil]. intros a [= <-]. by_decide.
Qed.

Lemma ApplyMessage_accounts_witness :
  let '(r, st) := ApplyMessage example_evm homestead_contracts byzantium_contracts 30001 example_message 100000
                    (new_world example_db) in
  total_supply (st_state st) <= total_supply example_db /\
  match r with Done (_, used, _) => gp st = 100000 - used | _ => True end.
Proof.
  pose proof (ApplyMessage_accounts example_crypto bytes_hash_word bytes_hash_inj example_evm 30001 example_message
    example_evm_typed eq_refl example_message_typed ltac:(by vm_compute) 100000 example_db example_db_typed
    ltac:(by_decide)) as Hs.
  destruct (ApplyMessage _ _ _ _ _ _ _) as [r st]. destruct Hs as (_ & Hs & Hr). split; [exact Hs|].
  destruct r as [[[ret used] failed]| | |]; [|exact I..]. apply Hr.
Defined.

(** * A block *)
#[local] Existing Instance bytes_hash.
#[local] Existing Instance example_crypto_laws.

(** Account 7 pays 20 and 5 to account 9, at no price for gas. *)
Definition block_txs : list Transaction := [mkTransaction 0 0 30000 (Some 9) 20 [] 1; mkTransaction 1 0 21000 (Some 9) 5 [] 2].
Definition block_header3 : Header := mkHeader 102 0 55 0 0 0 0 (Some 1) (Some 3) 100000 42000 (Some 0) [] 0 [].
Definition block_uncle : Header := mkHeader 101 0 66 0 0 0 0 (Some 1) (Some 2) 0 0 (Some 0) [] 0 [].
Definition block_Sender (_ : Transaction) : option Z := Some 7.
Definition block_TxHash (tx : Transaction) : bytes := [TxSorted.TxHash tx].
Definition block_StateRoot (_ : State bytes) : bytes := [].
Definition block_config : ChainConfig := byzantium_config.

Definition block_result :=
  Process block_config (mkConfig false false) 30001 homestead_contracts byzantium_contracts block_Sender block_TxHash
    block_StateRoot ex_GetHeader BlockHeader.Coinbase (ethash_Finalize block_config) 0 [] [] block_header3 block_txs [block_uncle] example_db.

Lemma block_header_typed : header_typed block_config ex_GetHeader BlockHeader.Coinbase block_header3.
Proof.
  split; try (by eexists); try by_decide.
  intros a n x. unfold ex_GetHeader. repeat case_if; intros [= <-]; by_decide.
Qed.

Lemma block_txs_typed : Forall (tx_typed 30001 block_Sender) block_txs.
Proof.
  constructor; [|constructor; [|constructor]].
  all: split; [intros a [= <-]; by_decide|intros a [= <-]; by_decide|by_decide|by_decide|by vm_compute|apply small_nil|by vm_compute].
Qed.

Lemma block_valid : ethash_valid block_config block_header3 [block_uncle].
Proof. split; [done|]. exists 3. split; [done|]. repeat constructor. exists 2. split; [done|lia]. Qed.

Lemma block_computes :
  match block_result with
  | PDone (receipts, _, used, d) => used = 42000 /\ (ReceiptGasUsed <$> receipts) = [21000; 21000] /\ GetBalance d 9 = 25
  | _ => False
  end.
Proof. vm_compute. split; [|split]; reflexivity. Qed.

Lemma Process_accounts_witness :
  match block_result with
  | PDone (receipts, _, used, d) =>
      total_supply d <= total_supply example_db + ethash_reward block_config block_header3 [block_uncle] /\
      used = 42000 /\ (ReceiptGasUsed <$> receipts) = [21000; 21000] /\ GetBalance d 9 = 25
  | _ => False
  end.
Proof.
  pose proof (Process_accounts example_crypto bytes_hash_word bytes_hash_inj block_config (mkConfig false false) 30001
    block_Sender block_TxHash block_StateRoot ex_GetHeader BlockHeader.Coinbase (ethash_Finalize block_config) (ethash_valid block_config)
    (ethash_reward block_config) 0 [] [] block_header3 block_txs [block_uncle] example_db block_header_typed block_txs_typed block_valid
    ltac:(by_decide) example_db_typed ltac:(by vm_compute)) as Hs.
  pose proof block_computes as Hc. unfold block_result in Hc |- *.
  destruct (Process _ _ _ _ _ _ _ _ _ _ _ _ _ _ _ _ _ _) as [[[[rs ls] used] d]| | |]; [|contradiction Hc..].
  exact (conj (proj1 (proj2 Hs)) Hc).
Defined.
